(* ===== verification/_CoqProject ===== *)
-Q . S2P
Prelude.v
Loops.v
OrderedSet.v
NodeList.v
ByteArray.v
ByteArraySpec.v
ByteArrayCodec.v
ByteArrayBulk.v
ByteArrayThms.v
Stream.v
ZlibStream.v
Rock.v
Timer.v
CacheStatus.v
LruCache.v
TimedLruCache.v
TimedCache.v
Bitmap.v
BitmapSpec.v
BitmapCompress.v
BitmapScan.v
BitmapIO.v
HashMap.v
DsArray.v
Multimap.v
Fiber.v
Scheduler.v
SchedulerSpec.v
SchedulerThms.v
IOManager.v
IOManagerSpec.v
IOManagerThms.v
Text.v
Semaphore.v
AsyncStream.v
AsyncStreamSpec.v
AsyncStreamThms.v
AsyncStreamResult.v
AsyncStreamProps.v
WebSocket.v
WebSocketThms.v
HolderStats.v
LoadBalance.v
LoadBalanceThms.v
ServiceChange.v
Http.v
HttpThms.v
Servlet.v
FdManager.v
Hook.v
HookFd.v
HookIO.v
HookSys.v
HookThms.v
Address.v
AddressThms.v
AddressMasks.v
AddressText.v
HttpSession.v
HttpSessionThms.v
HttpWire.v
HttpConnection.v
HttpConnectionThms.v
HttpExchange.v
HttpPool.v
