(* ===== verification/Prelude.v ===== *)
(** * A verification library for the Helens C++ server framework

    Helens (src/Helens) is a C++ framework for network servers: fibers with an
    epoll scheduler and timers, a serialization buffer, a request/response
    protocol over streams, and data structures (caches, bitmaps, hash maps).
    This library gives executable definitions of the parts whose logic is the
    framework's own, and proves what makes them correct.

    ** Conventions

    - A machine integer of [w] bits is a [Z] in range; [wrap] and [to_signed]
      write out what the width does to it ([u8] ... [u64], [i8] ... [i64]).
    - Fallible code returns an [outcome]: a value, a C++ exception ([Throw]),
      a behaviour the language leaves undefined ([Undef], with its cause: null
      dereference, access out of bounds, uninitialised read, ...) or [Fuel].
      Stateful code is in the state monad [M S A] over it ([let!], [;;!]).
    - The fuel of a loop is a bound the caller computes from its state (number
      of nodes, length of the list, bytes left); the theorems state that the
      whole operation returns [Ok] (or [Throw], or [Undef]), so they show that
      the fuel is enough.  Where it is an argument, the theorems ask for more than a
      bound on the input: the bytes on the stream, or zlib's bound of its output.
    - Memory does not run out, except for the body of an HTTP message, whose announced
      length is compared with a limit of what can be allocated.
    - Locks are not objects of the model: an operation that runs under one lock
      is one step, and in [Scheduler] and [IOManager] an operation that takes
      several locks is several steps.  A clock is an argument of the operations that read it.
    - Pointers and iterators are names (natural numbers), looked up in the
      heap, list or map they point into; a stale one is an [Undef].

    ** Files

    - [Prelude]: notations, outcomes, machine integers, bytes, lemmas on
      filters and lists.  [Loops]: the counting loops with their invariant
      rules.  [OrderedSet]: std::set as a list kept sorted by a comparator.
      [NodeList]: std::list with stable iterators.
    - [ByteArray] (bytearray.cc, endian.h): the chain of nodes and all its
      operations.  [ByteArraySpec]: the abstract buffer (a byte sequence with a
      cursor) and the simulation lemmas.  [ByteArrayCodec]: integers, varints,
      zigzag, floats and strings as encoders and decoders.  [ByteArrayBulk]:
      reading and writing whole runs of bytes.  [ByteArrayThms]: the
      properties: refinement of the abstract buffer, the well-formedness
      invariant over all operations, the round trip of any mixture of fields,
      the scatter/gather lists, and the file output with the input on which
      it fails.
    - [Stream] (stream.cc, streams/socket_stream.cc): fixed-size transfer over
      a socket that fragments at will; the socket is a type class with laws,
      and the witnesses use a pipe that implements it.
    - [ZlibStream] (streams/zlib_stream.cc): the loops that feed zlib, with its
      buffers; zlib is a type class with the laws of its manual, and what one stream
      deflates another inflates.
    - [Rock] (protocol.cc, rock/rock_protocol.cc): messages and frames; the
      round trip through [serializeTo] and [parseFrom] for every fragmentation,
      compressed or not, and the frame that crashes a receiver.
    - [Http] (http/http.cc): methods, case-insensitive maps, requests, responses and
      their text.  [HttpThms]: the maps are finite maps over folded names, query
      strings give back their parameters, and a text reads as a message by the book.
    - [Servlet] (http/servlet.cc): the dispatcher; which servlet a path gets after any
      history of registrations.
    - [HttpSession] (http/http_parser.cc, http_session.cc, http_server.cc): the
      request parser's callbacks around the generated machine, a type class; reading
      a request, answering it, and the loop of a server.  [HttpSessionThms]: whatever
      a peer sends, a session ends and answers what it received, or throws for a head
      that is too big or whose query is cut between reads.  [HttpWire]: a
      request that is sent is received, with any parser that follows the grammar.
    - [HttpConnection] (http/http_connection.cc): receiving a response, with chunks,
      and an exchange.  [HttpConnectionThms]: receiving ends whatever a server sends,
      with what it read or for a reason found in it, and chunks are joined.  [HttpExchange]: what a server sends an exchange gives
      back.  [HttpPool]: the connection pool, shared by its users; a connection is in
      one place and serves a bounded number of requests.
    - [HolderStats], [LoadBalance] (streams/load_balance.cc): the statistics of a
      connection and the weights computed from them with IEEE arithmetic, the
      balancers, and the balancers of all services.  [LoadBalanceThms]: what a pick
      gives; [ServiceChange]: what a change of a service does.
    - [WebSocket] (http/ws_session.cc): frames and messages over the socket
      interface.  [WebSocketThms]: what one end sends the other receives, and a
      call that receives ends well whatever bytes a peer sends.
    - [Timer] (timer.cc): the timer set; its invariant, exactness of
      [listExpiredCb], dead timers stay dead, exactness of [getNextTimer].
    - [CacheStatus], [LruCache], [TimedLruCache], [TimedCache] (ds/*_cache.h):
      the caches with their statistics and limits, each with its sharded variant; each is
      refined to (or, for [TimedCache], compared with) a plain list.
    - [Bitmap], [BitmapSpec], [BitmapCompress], [BitmapScan], [BitmapIO]
      (ds/bitmap.cc): the bitmap with its compressed form; the round trip of
      compression and its equivalence under the operators (for words without flag
      bits), exactness of the scans of uncompressed bitmaps, of the iterator and of [any] (with the size on which it ignores
      bits), and the round trip through a ByteArray.
    - [HashMap] (ds/hash_map.h, ds/util.h): the hash map with sorted buckets as
      a finite map.  [Multimap] (ds/hash_multimap.h): the table with a sorted array of
      values for each key as a map of sets.  [DsArray] (ds/array.h): the growing array
      as a sorted set, its files, and the search with a comparison that hangs.

    - [Fiber] (fiber.cc), [Scheduler] (scheduler.cc): the states of a fiber, and
      [run] as a step function on worker threads with program counters: one
      step for each critical section and each access to shared state.
      [SchedulerSpec]: the discipline under which fibers' wake-ups are handed
      around, the invariant, and that every step keeps it.  [SchedulerThms]:
      safety of all interleavings, that work runs exactly as often as it was
      scheduled, what the critical section picks, and that a stopped scheduler
      winds down; with runs that show what happens outside the discipline.
    - [Semaphore] (mutex.cc): the fibers' semaphore; permits are conserved and
      waiters are woken in order.
    - [AsyncStream] (streams/async_socket_stream.cc, rock/rock_stream.cc): requests
      over a shared connection; each function is a list of instructions, one for
      each access to shared state, and fibers interleave at every instruction.
      [AsyncStreamSpec]: how instructions count towards waking a request, and the
      invariant.  [AsyncStreamThms], [AsyncStreamResult]: every step keeps it.
      [AsyncStreamProps]: a request is woken by one party only, nobody is
      forgotten, and what a request is told; with the runs that show the races.
    - [IOManager] (iomanager.cc): descriptors' contexts, the table, the idle
      loop, over a kernel given by a type class.  [IOManagerSpec]: the registry
      of waiters and the refinement of each call.  [IOManagerThms]: refinement,
      every waiter is woken once, what an idle round does; and the races.

    - [FdManager] (fd_manager.cc): what is remembered of each descriptor.  [Hook]
      (hook.cc): the hooked system calls; a call that may suspend its fiber is a
      frame with a program counter, and the code between two points where others
      can interfere is one operation.  [HookFd]: the descriptor calls keep every
      known socket non-blocking and show the user the mode asked for, as long as
      no known socket is duplicated.  [HookIO]:
      the invariant of the suspended calls, over the registry of waiters, the
      scheduler's queue, the timers and the time-outs' shared objects.  [HookSys]:
      the interleaved system, and that each step keeps the invariant.  [HookThms]:
      where a call is, what it may return, that it never fails, that its time-out
      wakes it, and when sleepers wake; with the runs that go wrong.

    - [Address] (address.cc): addresses as the bytes of their structures, masks, text,
      and the taking apart of host names.  [AddressThms]: their order is total and
      agrees with equality.  [AddressMasks]: which bits the masks of a prefix keep.
      [AddressText]: what [toString] writes reads back, and what [Lookup] asks for.

    - [Text] (util/hash_util.cc, util.cc): text codings, hashes, splitting and
      replacing; round trips of the codings, and what [split] and [replace] do.

    ** How the parts interact

    [Rock] serializes into a [ByteArray], compresses it with a [ZlibStream] and sends
    it with [Stream]'s loops over the socket interface; [BitmapIO] stores a [Bitmap] in a [ByteArray]; the
    timed LRU cache is an LRU cache with an ordered set of deadlines.  The I/O
    manager holds a [Scheduler] and a [TimerManager] and moves waiters and
    expired timers' callbacks into the scheduler's queue.  A hooked call uses all
    three: it registers with the I/O manager, arms a timer and leaves the scheduler
    to resume its fiber; [HookSys] composes them.  An HTTP server reads requests
    with [HttpSession] over [Stream]'s socket interface, hands them to a [Servlet]
    dispatcher and writes the responses' text; a client's connection writes requests
    and reads responses, and [HttpWire] and [HttpExchange] put the two ends together.
    The laws of the generated parsers hold of the toy parsers that the witnesses use.

    ** Not modelled, and why

    Vendored and generated code (ds/roaring.*, the .rl.cc parsers, protobuf),
    the wrappers of client libraries (db, zk_client, crypto, JSON, YAML), the
    ORM's code generator, start-up glue (application, daemon, module, env) and
    log output: their behaviour is that of code outside the repository, or text
    templates.  A fiber's machine context and stack are outside the model, and so
    is the scheduler's use_caller variant.  The sockets are the streams' type class:
    socket.cc wraps the system calls and OpenSSL.  What a URL is made of, and how a
    client's socket is made, is left out of the HTTP connections. *)
From stdpp Require Export base tactics numbers list gmap strings sorting.
From Stdlib Require Export ZArith Lia.

#[export] Set Default Proof Using "Type".
#[export] Set Default Goal Selector "!".

Create HintDb helens.

(** ** Machine integers

    A [w]-bit unsigned value is the [Z] in [0, 2^w); every operation that may
    leave that range is wrapped explicitly. *)
Open Scope Z_scope.

Definition wrap (w z : Z) : Z := z mod 2 ^ w.
Abbreviation u8 := (wrap 8).
Abbreviation u16 := (wrap 16).
Abbreviation u32 := (wrap 32).
Abbreviation u64 := (wrap 64).

(** The value a [w]-bit two's complement register holding [z] reads as. *)
Definition to_signed (w z : Z) : Z :=
  let z := wrap w z in if z <? 2 ^ (w - 1) then z else z - 2 ^ w.
Abbreviation i8 := (to_signed 8).
Abbreviation i16 := (to_signed 16).
Abbreviation i32 := (to_signed 32).
Abbreviation i64 := (to_signed 64).

Definition is_uint (w z : Z) : Prop := 0 ≤ z < 2 ^ w.
Definition is_sint (w z : Z) : Prop := - 2 ^ (w - 1) ≤ z < 2 ^ (w - 1).
#[export] Instance is_uint_dec w z : Decision (is_uint w z).
Proof. unfold is_uint. apply _. Defined.
#[export] Instance is_sint_dec w z : Decision (is_sint w z).
Proof. unfold is_sint. apply _. Defined.

Lemma wrap_bound w z : 0 ≤ w → 0 ≤ wrap w z < 2 ^ w.
Proof. intros. unfold wrap. apply Z.mod_pos_bound. lia. Qed.

Lemma wrap_small w z : 0 ≤ z < 2 ^ w → wrap w z = z.
Proof. intros. unfold wrap. by apply Z.mod_small. Qed.

Lemma wrap_wrap w z : 0 ≤ w → wrap w (wrap w z) = wrap w z.
Proof. intros. apply wrap_small. by apply wrap_bound. Qed.

Lemma wrap_is_uint w z : 0 ≤ w → is_uint w (wrap w z).
Proof. apply wrap_bound. Qed.

Lemma to_signed_wrap w z : 0 < w → is_sint w z → to_signed w (wrap w z) = z.
Proof.
  intros Hw Hz. unfold to_signed. rewrite wrap_wrap by lia. unfold is_sint in Hz.
  assert (2 ^ w = 2 * 2 ^ (w - 1)) as Hp.
  { rewrite <- Z.pow_succ_r by lia. f_equal. lia. }
  unfold wrap. destruct (decide (0 ≤ z)).
  - rewrite Z.mod_small by lia. destruct (Z.ltb_spec z (2 ^ (w - 1))); lia.
  - rewrite <- (Z.mod_add _ 1), Z.mod_small by lia.
    destruct (Z.ltb_spec (z + 1 * 2 ^ w) (2 ^ (w - 1))); lia.
Qed.

Lemma wrap_to_signed w z : 0 < w → wrap w (to_signed w z) = wrap w z.
Proof.
  intros Hw. unfold to_signed.
  destruct (Z.ltb_spec (wrap w z) (2 ^ (w - 1))); [by apply wrap_wrap; lia|].
  unfold wrap. rewrite <- (Z.mod_add _ 1) by lia.
  replace (z mod 2 ^ w - 2 ^ w + 1 * 2 ^ w) with (z mod 2 ^ w) by lia.
  by rewrite Z.mod_mod by lia.
Qed.

Lemma to_signed_is_sint w z : 0 < w → is_sint w (to_signed w z).
Proof.
  intros Hw. unfold to_signed, is_sint.
  pose proof (wrap_bound w z ltac:(lia)).
  assert (2 ^ w = 2 * 2 ^ (w - 1)) by (rewrite <- Z.pow_succ_r by lia; f_equal; lia).
  destruct (Z.ltb_spec (wrap w z) (2 ^ (w - 1))); lia.
Qed.

Lemma to_signed_small w n : 0 < w → 0 ≤ n < 2 ^ (w - 1) → to_signed w n = n.
Proof.
  intros Hw Hn. unfold to_signed. assert (2 ^ w = 2 * 2 ^ (w - 1)) by (rewrite <- Z.pow_succ_r by lia; f_equal; lia).
  rewrite wrap_small by lia. by rewrite (proj2 (Z.ltb_lt _ _)) by lia.
Qed.
Lemma i32_small n : 0 ≤ n < 2 ^ 31 → i32 n = n.
Proof. intros Hn. by apply to_signed_small. Qed.
Lemma i64_small n : 0 ≤ n < 2 ^ 63 → i64 n = n.
Proof. intros Hn. by apply to_signed_small. Qed.

#[export] Hint Resolve wrap_is_uint to_signed_is_sint : helens.

(** [unwrap] drops the wraps that [lia] proves to be the identity. *)
Ltac unwrap_in_goal :=
  repeat match goal with
  | |- context [wrap ?w ?z] => rewrite (wrap_small w z) by lia
  end.
Ltac unwrap_in H :=
  repeat match type of H with
  | context [wrap ?w ?z] => rewrite (wrap_small w z) in H by lia
  end.

(** ** Outcomes

    A C++ call returns, throws, or has no defined behaviour; loops written with
    fuel return [Fuel] when it runs out, which the theorems exclude. *)
Inductive exn := OutOfRange | LogicError | InvalidArgument | BadAlloc.
Inductive ub :=
| NullDeref | UninitRead | OutOfBounds | AssertFail | DivByZero | EmptyAccess | Overflow
| MissingReturn.

Inductive outcome (A : Type) :=
| Ok (a : A)
| Throw (e : exn)
| Undef (u : ub)
| Fuel.
Arguments Ok {_} _.
Arguments Throw {_} _.
Arguments Undef {_} _.
Arguments Fuel {_}.

#[export] Instance exn_eq_dec : EqDecision exn.
Proof. solve_decision. Defined.
#[export] Instance ub_eq_dec : EqDecision ub.
Proof. solve_decision. Defined.
#[export] Instance outcome_eq_dec {A} `{EqDecision A} : EqDecision (outcome A).
Proof. solve_decision. Defined.

Definition obind {A B} (m : outcome A) (k : A → outcome B) : outcome B :=
  match m with Ok a => k a | Throw e => Throw e | Undef u => Undef u | Fuel => Fuel end.
(** [HELENS_ASSERT] *)
Definition assert (c : bool) : outcome unit := if c then Ok tt else Undef AssertFail.
Definition of_option {A} (u : ub) (o : option A) : outcome A :=
  match o with Some a => Ok a | None => Undef u end.

(** State and outcome: an exception keeps the effects made before it. *)
Definition M (S A : Type) : Type := S → outcome A * S.
Definition ret {S A} (a : A) : M S A := λ s, (Ok a, s).
Definition bind {S A B} (m : M S A) (k : A → M S B) : M S B := λ s,
  match m s with
  | (Ok a, s') => k a s'
  | (Throw e, s') => (Throw e, s')
  | (Undef u, s') => (Undef u, s')
  | (Fuel, s') => (Fuel, s')
  end.
Definition getst {S} : M S S := λ s, (Ok s, s).
Definition putst {S} (s : S) : M S unit := λ _, (Ok tt, s).
Definition modst {S} (f : S → S) : M S unit := λ s, (Ok tt, f s).
Definition lift {S A} (o : outcome A) : M S A := λ s, (o, s).
Definition throw {S A} (e : exn) : M S A := λ s, (Throw e, s).
Definition undef {S A} (u : ub) : M S A := λ s, (Undef u, s).

(** [try { m } catch(...) { h }] *)
Definition catch {S A} (m : M S A) (h : A) : M S A := λ s,
  match m s with (Throw _, s') => (Ok h, s') | r => r end.

Declare Scope helens_scope.
Delimit Scope helens_scope with helens.
Notation "'let!' x ':=' m 'in' k" := (bind m (λ x, k))
  (at level 10, x name, m at level 100, k at level 200) : helens_scope.
Notation "m ';;!' k" := (bind m (λ _, k))
  (at level 100, k at level 200, right associativity) : helens_scope.
Open Scope helens_scope.

(** Equality of computations, run on every state. *)
Definition run_eq {S A} (m1 m2 : M S A) : Prop := ∀ s, m1 s = m2 s.
#[export] Instance run_eq_equiv {S A} : Equivalence (@run_eq S A).
Proof. split; repeat intro; [done|symmetry; auto|etrans; eauto]. Qed.

Lemma bind_ok {S A B} (m : M S A) (k : A → M S B) s a s' :
  m s = (Ok a, s') → bind m k s = k a s'.
Proof. unfold bind. by intros ->. Qed.

Lemma bind_assoc {S A B C} (m : M S A) (k : A → M S B) (h : B → M S C) s :
  bind (bind m k) h s = bind m (λ a, bind (k a) h) s.
Proof. unfold bind. by destruct (m s) as [[] ?]. Qed.

(** Step through a monadic program whose first call is known to return. *)
Ltac mstep H := erewrite bind_ok; [|eapply H; try done].

(** ** Bytes *)
(** Joining a high and a low part. *)
Lemma lor_add x m c : 0 ≤ m → 0 ≤ c < 2 ^ m → Z.lor (Z.shiftl x m) c = x * 2 ^ m + c.
Proof.
  intros Hm Hc. assert (Z.land (Z.shiftl x m) c = 0) as H0.
  { apply Z.bits_inj'. intros i Hi. rewrite Z.land_spec, Z.bits_0.
    destruct (decide (i < m)); [by rewrite Z.shiftl_spec_low by done|].
    apply andb_false_intro2. rewrite <- (Z.mod_small c (2 ^ m)) by done. apply Z.mod_pow2_bits_high. lia. }
  rewrite <- Z.lxor_lor, <- Z.add_nocarry_lxor, Z.shiftl_mul_pow2 by done. done.
Qed.

Definition is_byte (b : Z) : Prop := is_uint 8 b.
Abbreviation bytes_ok := (Forall is_byte).

(** The [n] low bytes of [z], least significant first: the object
    representation of an [n]-byte integer on the little-endian host. *)
Fixpoint le_bytes (n : nat) (z : Z) : list Z :=
  match n with O => [] | S n => wrap 8 z :: le_bytes n (Z.shiftr z 8) end.

Fixpoint le_val (bs : list Z) : Z :=
  match bs with [] => 0 | b :: bs => b + 256 * le_val bs end.

Lemma le_bytes_length n z : length (le_bytes n z) = n.
Proof. revert z; induction n as [|n IH]; intros z; simpl; [done|by rewrite IH]. Qed.

Lemma le_bytes_ok n z : bytes_ok (le_bytes n z).
Proof.
  revert z; induction n as [|n IH]; intros z; simpl; constructor; auto.
  by apply wrap_is_uint.
Qed.

Lemma le_val_bytes n z : le_val (le_bytes n z) = wrap (8 * Z.of_nat n) z.
Proof.
  revert z; induction n as [|n IH]; intros z.
  - unfold wrap; simpl. by rewrite Z.mod_1_r.
  - cbn [le_bytes le_val]. rewrite IH. unfold wrap. rewrite Z.shiftr_div_pow2 by lia.
    replace (8 * Z.of_nat (S n)) with (8 + 8 * Z.of_nat n) by lia.
    rewrite Z.pow_add_r by lia. change 256 with (2 ^ 8).
    rewrite <- Z.rem_mul_r by lia. done.
Qed.

Lemma le_val_bound bs : bytes_ok bs → 0 ≤ le_val bs < 2 ^ (8 * Z.of_nat (length bs)).
Proof.
  induction 1 as [|b bs Hb _ IH]; [by simpl|].
  cbn [le_val length]. unfold is_byte, is_uint in Hb.
  replace (8 * Z.of_nat (S (length bs))) with (8 + 8 * Z.of_nat (length bs)) by lia.
  rewrite Z.pow_add_r by lia. change (2 ^ 8) with 256 in *. nia.
Qed.

Lemma le_bytes_val bs : bytes_ok bs → le_bytes (length bs) (le_val bs) = bs.
Proof.
  induction 1 as [|b bs Hb _ IH]; [done|].
  cbn [length le_val le_bytes]. unfold is_byte, is_uint in Hb. change (2 ^ 8) with 256 in Hb.
  f_equal.
  - unfold wrap. change (2 ^ 8) with 256.
    rewrite (Z.mul_comm 256), Z.mod_add by lia. by apply Z.mod_small.
  - rewrite Z.shiftr_div_pow2 by lia. change (2 ^ 8) with 256.
    rewrite (Z.mul_comm 256), Z.div_add by lia. rewrite Z.div_small by lia. done.
Qed.

Lemma le_val_app xs ys :
  le_val (xs ++ ys) = le_val xs + 2 ^ (8 * Z.of_nat (length xs)) * le_val ys.
Proof.
  induction xs as [|x xs IH]; cbn [app le_val length].
  - change (2 ^ (8 * Z.of_nat 0)) with 1. lia.
  - rewrite IH. replace (8 * Z.of_nat (S (length xs))) with (8 + 8 * Z.of_nat (length xs)) by lia.
    rewrite Z.pow_add_r by lia. change (2 ^ 8) with 256. ring.
Qed.

#[export] Hint Resolve le_bytes_ok : helens.
Create Rewrite HintDb helens.
#[export] Hint Rewrite le_bytes_length : helens.

(** [bswap_16], [bswap_32], [bswap_64] of <byteswap.h>, by width in bytes. *)
Definition bswap (n : nat) (z : Z) : Z := le_val (rev (le_bytes n z)).

Lemma bswap_bytes n z : le_bytes n (bswap n z) = rev (le_bytes n z).
Proof.
  unfold bswap. rewrite <- (le_bytes_length n z) at 1. rewrite <- length_rev.
  apply le_bytes_val. apply Forall_rev. apply le_bytes_ok.
Qed.

Lemma bswap_bound n z : is_uint (8 * Z.of_nat n) (bswap n z).
Proof.
  unfold bswap, is_uint. pose proof (le_val_bound (rev (le_bytes n z))) as H.
  rewrite length_rev, le_bytes_length in H. apply H. apply Forall_rev, le_bytes_ok.
Qed.

Lemma bswap_involutive n z : bswap n (bswap n z) = wrap (8 * Z.of_nat n) z.
Proof.
  unfold bswap at 1. by rewrite bswap_bytes, rev_involutive, le_val_bytes.
Qed.

(** Quotient and remainder are unique. *)
Lemma div_unique_nat (b : Z) (i j o p : nat) :
  Z.of_nat o < b → Z.of_nat p < b →
  Z.of_nat i * b + Z.of_nat o = Z.of_nat j * b + Z.of_nat p → i = j ∧ o = p.
Proof.
  intros Ho Hp E. assert (Z.of_nat i = Z.of_nat j ∧ Z.of_nat o = Z.of_nat p); [|lia].
  apply (Z.div_mod_unique b); lia.
Qed.

(** ** Strings

    [std::string] values are sequences of bytes; literals of the source are
    written as Rocq strings and converted. *)
Definition bytes_of_string (s : String.string) : list Z :=
  (λ a, Z.of_N (Ascii.N_of_ascii a)) <$> String.list_ascii_of_string s.

(** ** Generic lemmas on lists *)
Section lists.
Context {A : Type}.
Implicit Types l k : list A.

(** Overwriting [k] at offset [n]. *)
Definition splice (n : nat) (k l : list A) : list A :=
  take n l ++ k ++ drop (n + length k) l.

Lemma splice_length n k l : (n + length k ≤ length l)%nat → length (splice n k l) = length l.
Proof. intros. unfold splice. rewrite !length_app, length_take, length_drop. lia. Qed.

Lemma splice_nil n l : splice n [] l = l.
Proof. unfold splice. simpl. rewrite Nat.add_0_r. apply take_drop. Qed.

Lemma splice_app n k1 k2 l :
  (n + length k1 ≤ length l)%nat →
  splice (n + length k1) k2 (splice n k1 l) = splice n (k1 ++ k2) l.
Proof.
  intros Hn. unfold splice.
  assert (length (take n l) = n) as Ht by (rewrite length_take; lia).
  rewrite length_app, app_assoc, app_assoc.
  rewrite (take_app_le (take n l ++ k1)) by (rewrite length_app; lia).
  rewrite take_ge by (rewrite length_app; lia).
  rewrite <- !app_assoc. do 3 f_equal.
  rewrite drop_app_ge by lia. rewrite drop_app_ge by lia.
  rewrite drop_drop. f_equal. lia.
Qed.

(** Two overwrites in a row, the second possibly past the end. *)
Lemma splice_app_past n k1 k2 l :
  (n ≤ length l)%nat →
  splice (n + length k1) k2 (splice n k1 l) = splice n (k1 ++ k2) l.
Proof.
  intros Hn. destruct (decide (n + length k1 ≤ length l)%nat); [by apply splice_app|].
  unfold splice. rewrite (drop_ge l (n + length k1)), app_nil_r by lia.
  assert (length (take n l ++ k1) = (n + length k1)%nat) as Hl
    by (rewrite length_app, length_take; lia).
  rewrite take_ge by lia. rewrite !drop_ge by (rewrite ?length_app, ?length_take; lia).
  by rewrite !app_nil_r, app_assoc.
Qed.

Lemma take_drop_splice n k l :
  (n ≤ length l)%nat → take (length k) (drop n (splice n k l)) = k.
Proof.
  intros. unfold splice. rewrite drop_app_ge by (rewrite length_take; lia).
  rewrite length_take, Nat.min_l, Nat.sub_diag, drop_0 by lia.
  by rewrite take_app_length.
Qed.

Lemma splice_mid n k l1 l l2 :
  (n + length k ≤ length l)%nat →
  splice (length l1 + n) k (l1 ++ l ++ l2) = l1 ++ splice n k l ++ l2.
Proof.
  intros Hn. unfold splice. rewrite take_app_add, take_app_le by lia.
  rewrite <- Nat.add_assoc, drop_app_add, drop_app_le by lia.
  by rewrite <- !app_assoc.
Qed.

Lemma take_splice_ge n k l m :
  (n + length k ≤ m)%nat → (n + length k ≤ length l)%nat →
  take m (splice n k l) = splice n k (take m l).
Proof.
  intros Hm Hl. unfold splice.
  rewrite take_app_ge by (rewrite length_take; lia). rewrite length_take, Nat.min_l by lia.
  rewrite take_app_ge by lia.
  rewrite take_take, Nat.min_l by lia. do 2 f_equal.
  rewrite skipn_firstn_comm. f_equal. lia.
Qed.

Lemma splice_past n k l m :
  (n ≤ m)%nat → (m ≤ n + length k)%nat → (n + length k ≤ length l)%nat →
  take (n + length k) (splice n k l) = splice n k (take m l).
Proof.
  intros. rewrite take_splice_ge by lia. unfold splice.
  rewrite !take_take, !drop_ge by (rewrite ?length_take; lia).
  rewrite Nat.min_l, Nat.min_l by lia. done.
Qed.

Lemma take_drop_take (n m o : nat) l : (n + m ≤ o)%nat → take m (drop n (take o l)) = take m (drop n l).
Proof.
  intros. rewrite skipn_firstn_comm, take_take. f_equal. lia.
Qed.

Lemma concat_uniform_length (ls : list (list A)) n :
  Forall (λ l, length l = n) ls → length (concat ls) = (length ls * n)%nat.
Proof. induction 1 as [|l ls Hl _ IH]; simpl; rewrite ?length_app; lia. Qed.

Lemma concat_uniform_split (ls : list (list A)) n i l :
  Forall (λ l, length l = n) ls → ls !! i = Some l →
  ∃ l1 l2, concat ls = l1 ++ l ++ l2 ∧ length l1 = (i * n)%nat ∧
    (∀ l', concat (<[i := l']> ls) = l1 ++ l' ++ l2).
Proof.
  intros Hf. revert i. induction Hf as [|h ls Hh _ IH]; intros [|i]; try done.
  - intros [= ->]. by exists [], (concat ls).
  - intros Hl. destruct (IH i Hl) as (l1 & l2 & E & Hlen & Hins).
    exists (h ++ l1), l2. simpl. rewrite E, length_app.
    split; [by rewrite app_assoc|]. split; [lia|].
    intros l'. by rewrite Hins, app_assoc.
Qed.
Lemma take_drop_mid n m l1 l l2 :
  (n + m ≤ length l)%nat →
  take m (drop (length l1 + n) (l1 ++ l ++ l2)) = take m (drop n l).
Proof.
  intros. rewrite drop_app_add, drop_app_le by lia.
  rewrite take_app_le; [done|]. rewrite length_drop. lia.
Qed.

Lemma take_drop_add n m o l : take m (drop n l) ++ take o (drop (n + m) l) = take (m + o) (drop n l).
Proof. rewrite <- drop_drop. apply take_take_drop. Qed.
End lists.
Arguments splice : simpl never.

(** ** Filters *)
Lemma filter_none {A} (P : A → Prop) `{∀ x, Decision (P x)} (l : list A) :
  (∀ x, x ∈ l → ¬ P x) → filter P l = [].
Proof.
  induction l as [|x l IH]; intros Hn; [done|].
  rewrite filter_cons_False by (apply Hn; set_solver). apply IH. intros. apply Hn. set_solver.
Qed.
Lemma filter_all {A} (P : A → Prop) `{∀ x, Decision (P x)} (l : list A) :
  (∀ x, x ∈ l → P x) → filter P l = l.
Proof.
  induction l as [|x l IH]; intros Hn; [done|].
  rewrite filter_cons_True by (apply Hn; set_solver). f_equal. apply IH. intros. apply Hn. set_solver.
Qed.

Lemma filter_ext_in {A} (P Q : A → Prop) `{∀ x, Decision (P x)} `{∀ x, Decision (Q x)} (l : list A) :
  (∀ x, x ∈ l → P x ↔ Q x) → filter P l = filter Q l.
Proof.
  induction l as [|x l IH]; intros He; [done|].
  assert (filter P l = filter Q l) as E by (apply IH; intros; apply He; set_solver).
  specialize (He x ltac:(set_solver)). destruct (decide (P x)).
  - rewrite !filter_cons_True, E by tauto. done.
  - rewrite !filter_cons_False, E by tauto. done.
Qed.

Lemma filter_sorted {A} (R : A → A → Prop) (P : A → Prop) `{∀ x, Decision (P x)} (l : list A) :
  StronglySorted R l → StronglySorted R (filter P l).
Proof.
  induction 1 as [|x l Hs IH Hf]; [constructor|]. destruct (decide (P x)).
  - rewrite filter_cons_True by done. constructor; [done|].
    rewrite Forall_forall in *. intros y [_ Hy]%list_elem_of_filter. by apply Hf.
  - by rewrite filter_cons_False.
Qed.
