(* ===== verification/Loops.v ===== *)
(** * Counting loops

    [for_loop n i body s] runs [body] on the indices [i], [i+1], ..., [n] of
    them; [for_ret] is the loop whose body may return from the function. *)
From S2P Require Import Prelude.

Section loops.
Context {St R : Type}.

Fixpoint for_loop (n : nat) (i : Z) (body : Z → St → outcome St) (s : St) : outcome St :=
  match n with
  | O => Ok s
  | S n => obind (body i s) (for_loop n (i + 1) body)
  end.

(** [inl r]: the function returned [r]; [inr s]: the loop went on with [s]. *)
Fixpoint for_ret (n : nat) (i : Z) (body : Z → St → outcome (R + St)) (s : St) : outcome (R + St) :=
  match n with
  | O => Ok (inr s)
  | S n => obind (body i s) (λ r, match r with inl r => Ok (inl r) | inr s => for_ret n (i + 1) body s end)
  end.

Lemma for_loop_inv (I : Z → St → Prop) body n : ∀ i s,
  I i s →
  (∀ j s, i ≤ j < i + Z.of_nat n → I j s → ∃ s', body j s = Ok s' ∧ I (j + 1) s') →
  ∃ s', for_loop n i body s = Ok s' ∧ I (i + Z.of_nat n) s'.
Proof.
  induction n as [|n IH]; intros i s Hi Hb; cbn [for_loop].
  { exists s. by rewrite Z.add_0_r. }
  destruct (Hb i s) as (s1 & -> & H1); [lia|done|]. cbn [obind].
  destruct (IH (i + 1) s1 H1) as (s' & E & H').
  { intros j s2 Hj. apply Hb. lia. }
  exists s'. split; [done|]. replace (i + Z.of_nat (S n)) with (i + 1 + Z.of_nat n) by lia. done.
Qed.

(** Either some body returns, in a state where the invariant held, or the
    invariant holds at the end. *)
Lemma for_ret_inv (I : Z → St → Prop) (Q : R → Prop) body n : ∀ i s,
  I i s →
  (∀ j s, i ≤ j < i + Z.of_nat n → I j s →
    (∃ s', body j s = Ok (inr s') ∧ I (j + 1) s') ∨ (∃ r, body j s = Ok (inl r) ∧ Q r)) →
  (∃ s', for_ret n i body s = Ok (inr s') ∧ I (i + Z.of_nat n) s') ∨
  (∃ r, for_ret n i body s = Ok (inl r) ∧ Q r).
Proof.
  induction n as [|n IH]; intros i s Hi Hb; cbn [for_ret].
  { left. exists s. by rewrite Z.add_0_r. }
  destruct (Hb i s) as [(s1 & -> & H1)|(r & -> & Hr)]; [lia|done| |right; by exists r]. cbn [obind].
  replace (i + Z.of_nat (S n)) with (i + 1 + Z.of_nat n) by lia.
  apply IH; [done|]. intros j s2 Hj. apply Hb. lia.
Qed.
End loops.
