(* ===== verification/OrderedSet.v ===== *)
(** * std::set

    An ordered set is the list of its elements in iteration order.  The order is
    the comparison function the code gives to [std::set]; it may look at state
    outside the set, so every operation takes it as an argument. *)
From S2P Require Import Prelude.

Section ops.
Context {A : Type} (ltb : A → A → bool).

(** [insert]: nothing happens when an equivalent element is there. *)
Fixpoint set_insert (a : A) (l : list A) : list A :=
  match l with
  | [] => [a]
  | x :: l => if ltb x a then x :: set_insert a l else if ltb a x then a :: x :: l else x :: l
  end.

(** [find]: the index of the element equivalent to [a]. *)
Fixpoint set_find (a : A) (l : list A) : option nat :=
  match l with
  | [] => None
  | x :: l => if ltb x a then S <$> set_find a l else if ltb a x then None else Some 0%nat
  end.
End ops.

(** [erase(it)] *)
Definition set_erase {A} (i : nat) (l : list A) : list A := take i l ++ drop (S i) l.

Fixpoint span {A} (p : A → bool) (l : list A) : list A * list A :=
  match l with
  | [] => ([], [])
  | x :: l => if p x then let (a, b) := span p l in (x :: a, b) else ([], x :: l)
  end.

(** ** Lemmas *)
Lemma StronglySorted_app_iff {A} (R : A → A → Prop) l1 l2 :
  StronglySorted R (l1 ++ l2) ↔
  StronglySorted R l1 ∧ StronglySorted R l2 ∧ (∀ x y, x ∈ l1 → y ∈ l2 → R x y).
Proof.
  induction l1 as [|x l1 IH]; cbn.
  { split; [intros; split_and!; [constructor|done|set_solver]|naive_solver]. }
  split.
  - intros Hs. apply StronglySorted_inv in Hs as [Hs Hf]. apply IH in Hs as (H1 & H2 & H3).
    rewrite Forall_app, !Forall_forall in Hf. destruct Hf as [Hf1 Hf2].
    split_and!; [constructor; [done|by apply Forall_forall]|done|].
    intros y z [->|Hy]%elem_of_cons Hz; [by apply Hf2|by apply H3].
  - intros (H1 & H2 & H3). apply StronglySorted_inv in H1 as [H1 Hf]. constructor.
    + apply IH. split_and!; [done|done|]. intros. apply H3; set_solver.
    + rewrite Forall_app. split; [done|]. apply Forall_forall. intros. apply H3; set_solver.
Qed.

(** Sorting only looks at the elements of the list. *)
Lemma sorted_change {A} (R R' : A → A → Prop) l :
  (∀ x y, x ∈ l → y ∈ l → R x y → R' x y) → StronglySorted R l → StronglySorted R' l.
Proof.
  intros He. induction 1 as [|x l Hs IH Hf]; constructor.
  - apply IH. intros. apply He; set_solver.
  - rewrite Forall_forall in *. intros y Hy. apply He; [set_solver|set_solver|]. by apply Hf.
Qed.

Lemma set_erase_spec {A} i (a : A) l :
  NoDup l → l !! i = Some a → ∀ x, x ∈ set_erase i l ↔ x ∈ l ∧ x ≠ a.
Proof.
  intros Hnd Hi x. unfold set_erase. rewrite <- (take_drop_middle l i a Hi) in Hnd |- * at 3.
  apply NoDup_app in Hnd as (_ & Hd & Hc). apply NoDup_cons in Hc as [Ha _].
  rewrite !elem_of_app, elem_of_cons. split; [|naive_solver].
  intros [Hx|Hx]; (split; [tauto|]); intros ->; [|done].
  apply (Hd a Hx). set_solver.
Qed.

Lemma set_erase_sorted {A} (R : A → A → Prop) i l :
  StronglySorted R l → StronglySorted R (set_erase i l).
Proof.
  unfold set_erase. intros Hs. destruct (l !! i) as [a|] eqn:Hi.
  - rewrite <- (take_drop_middle l i a Hi) in Hs.
    apply StronglySorted_app_iff in Hs as (H1 & H2 & H3). apply StronglySorted_inv in H2 as [H2 _].
    apply StronglySorted_app_iff. split_and!; [done|done|]. intros. apply H3; set_solver.
  - apply lookup_ge_None in Hi. rewrite (drop_ge l (S i)), app_nil_r, take_ge by lia. done.
Qed.

(** The comparison decides a strict order that tells the elements at hand apart. *)
Section laws.
Context {A : Type} (ltb : A → A → bool) (R : A → A → Prop).
Context (ltb_spec : ∀ x y, ltb x y = true ↔ R x y).
Context (R_irrefl : ∀ x, ¬ R x x) (R_trans : ∀ x y z, R x y → R y z → R x z).

Definition separates (a : A) (l : list A) : Prop := ∀ x, x ∈ l → ¬ R x a → ¬ R a x → x = a.

Lemma ltb_false x y : ltb x y = false ↔ ¬ R x y.
Proof using ltb_spec. clear R_irrefl R_trans. rewrite <- ltb_spec. by destruct (ltb x y). Qed.

Lemma set_insert_elem a l x : separates a l → x ∈ set_insert ltb a l ↔ x = a ∨ x ∈ l.
Proof using ltb_spec.
  clear R_irrefl R_trans. induction l as [|y l IH]; intros Hsep; cbn [set_insert]; [set_solver|].
  assert (separates a l) as Hsep' by (intros z Hz; apply Hsep; set_solver).
  destruct (ltb y a) eqn:E1; [set_solver|]. destruct (ltb a y) eqn:E2; [set_solver|].
  apply ltb_false in E1, E2. rewrite (Hsep y) by set_solver. set_solver.
Qed.

Lemma set_insert_sorted a l :
  StronglySorted R l → StronglySorted R (set_insert ltb a l).
Proof using ltb_spec R_trans.
  clear R_irrefl.
  induction 1 as [|x l Hs IH Hf]; cbn [set_insert]; [by repeat constructor|].
  destruct (ltb x a) eqn:E1.
  - apply ltb_spec in E1. constructor; [done|]. clear IH Hs. induction l as [|y l IHl]; cbn.
    { by repeat constructor. }
    apply Forall_cons in Hf as [Hy Hf]. destruct (ltb y a); [constructor; [done|by apply IHl]|].
    destruct (ltb a y); by repeat constructor.
  - destruct (ltb a x) eqn:E2; [|by constructor].
    apply ltb_spec in E2. constructor; [by constructor|]. constructor; [done|].
    rewrite Forall_forall in *. intros y Hy. eapply R_trans; [done|]. by apply Hf.
Qed.

(** On a sorted set, [find] finds what is there. *)
Lemma set_find_sorted a l :
  StronglySorted R l → separates a l → a ∈ l → ∃ i, set_find ltb a l = Some i ∧ l !! i = Some a.
Proof using ltb_spec R_irrefl R_trans.
  induction 1 as [|x l Hs IH Hf]; intros Hsep Ha; [set_solver|]. cbn [set_find].
  assert (separates a l) as Hsep' by (intros z Hz; apply Hsep; set_solver).
  destruct (ltb x a) eqn:E1.
  - apply ltb_spec in E1. destruct IH as (i & -> & Hi); [done| |by exists (S i)].
    apply elem_of_cons in Ha as [->|]; [|done]. by apply R_irrefl in E1.
  - destruct (ltb a x) eqn:E2.
    + apply ltb_spec in E2. exfalso. apply elem_of_cons in Ha as [->|Ha]; [by eapply R_irrefl|].
      rewrite Forall_forall in Hf. apply Hf in Ha. eapply R_irrefl, R_trans; eauto.
    + apply ltb_false in E1, E2. exists 0%nat. rewrite (Hsep x) by set_solver. done.
Qed.

(** [insert] and [find] agree: either an equivalent element is there, and
    nothing changes, or none is, and the element is added. *)
Lemma set_insert_find a l :
  StronglySorted R l →
  (∃ i y, set_find ltb a l = Some i ∧ l !! i = Some y ∧ ¬ R y a ∧ ¬ R a y ∧ set_insert ltb a l = l) ∨
  (set_find ltb a l = None ∧ set_insert ltb a l ≡ₚ a :: l ∧ ∀ y, y ∈ l → R y a ∨ R a y).
Proof using ltb_spec R_trans.
  clear R_irrefl. induction 1 as [|x l Hs IH Hf]; cbn [set_insert set_find].
  { right. split_and!; [done|done|set_solver]. }
  destruct (ltb x a) eqn:E1.
  - apply ltb_spec in E1. destruct IH as [(i & y & -> & Hi & H1 & H2 & ->)|(-> & Hp & Hn)].
    + left. exists (S i), y. done.
    + right. split_and!; [done|rewrite Hp; constructor|].
      intros y [->|Hy]%elem_of_cons; [by left|by apply Hn].
  - destruct (ltb a x) eqn:E2.
    + apply ltb_spec in E2. right. split_and!; [done|done|].
      rewrite Forall_forall in Hf. intros y [->|Hy]%elem_of_cons; right; [done|].
      eapply R_trans; [done|]. by apply Hf.
    + apply ltb_false in E1, E2. left. by exists 0%nat, x.
Qed.

Lemma sorted_NoDup l : StronglySorted R l → NoDup l.
Proof using R_irrefl.
  clear ltb_spec R_trans.
  induction 1 as [|x l Hs IH Hf]; constructor; [|done].
  intros Hx. rewrite Forall_forall in Hf. apply Hf in Hx. by apply R_irrefl in Hx.
Qed.
End laws.
