(* ===== verification/NodeList.v ===== *)
(** * std::list with stable iterators

    The caches keep a [std::list] of items and a map from keys to iterators into
    it.  A list is a sequence of nodes; an iterator is the identity of a node,
    and stays valid while the node is in the list. *)
From S2P Require Import Prelude.

Section nodes.
Context {A : Type}.
Implicit Types (l : list (nat * A)) (i : nat).

(** Dereferencing an iterator. *)
Fixpoint node_get i l : option A :=
  match l with
  | [] => None
  | (j, a) :: l => if decide (i = j) then Some a else node_get i l
  end.

(** [erase(it)] *)
Fixpoint node_erase i l : list (nat * A) :=
  match l with
  | [] => []
  | (j, a) :: l => if decide (i = j) then l else (j, a) :: node_erase i l
  end.

(** Assignment through an iterator. *)
Fixpoint node_update i (f : A → A) l : list (nat * A) :=
  match l with
  | [] => []
  | (j, a) :: l => if decide (i = j) then (j, f a) :: l else (j, a) :: node_update i f l
  end.

(** [splice(begin(), list, it)]; undefined for an iterator that is not valid. *)
Definition node_to_front i l : option (list (nat * A)) :=
  match node_get i l with
  | Some a => Some ((i, a) :: node_erase i l)
  | None => None
  end.

Lemma node_get_elem i a l : NoDup (l.*1) → node_get i l = Some a ↔ (i, a) ∈ l.
Proof.
  induction l as [|[j b] l IH]; cbn; intros Hnd; [set_solver|].
  apply NoDup_cons in Hnd as [Hj Hnd]. destruct (decide (i = j)) as [->|Hne].
  - rewrite elem_of_cons. split; [intros [= ->]; by left|].
    intros [[= ->]|Hin]; [done|]. exfalso. apply Hj, list_elem_of_fmap. by exists (j, a).
  - rewrite IH by done. rewrite elem_of_cons. split; [by right|]. intros [[= -> _]|?]; done.
Qed.

Lemma node_erase_elem i l x : NoDup (l.*1) → x ∈ node_erase i l ↔ x ∈ l ∧ x.1 ≠ i.
Proof.
  induction l as [|[j b] l IH]; cbn; intros Hnd; [set_solver|].
  apply NoDup_cons in Hnd as [Hj Hnd]. destruct (decide (i = j)) as [->|Hne].
  - rewrite elem_of_cons. split; [|intros [[->|?] ?]; [done|done]].
    intros Hx. split; [by right|]. intros <-. apply Hj. apply list_elem_of_fmap. by exists x.
  - rewrite !elem_of_cons, IH by done. split; [intros [->|[? ?]]; naive_solver|naive_solver].
Qed.

(** Erasing a node that is there, as a split of the list. *)
Lemma node_split i l a :
  node_get i l = Some a → NoDup (l.*1) →
  ∃ l1 l2, l = l1 ++ (i, a) :: l2 ∧ node_erase i l = l1 ++ l2 ∧
    (∀ f, node_update i f l = l1 ++ (i, f a) :: l2).
Proof.
  induction l as [|[j b] l IH]; cbn; [done|]. intros Hg Hnd. apply NoDup_cons in Hnd as [Hj Hnd].
  destruct (decide (i = j)) as [->|Hne].
  - injection Hg as ->. by exists [], l.
  - destruct (IH Hg Hnd) as (l1 & l2 & -> & -> & Hf). exists ((j, b) :: l1), l2.
    split_and!; try done. intros f. by rewrite Hf.
Qed.

(** Looking a node up does not depend on where it stands. *)
Lemma node_get_perm i l l' : NoDup (l.*1) → l ≡ₚ l' → node_get i l = node_get i l'.
Proof.
  intros Hnd Hp. assert (NoDup (l'.*1)) as Hnd' by (by rewrite <- Hp).
  apply option_eq. intros a. rewrite !node_get_elem by done. by rewrite Hp.
Qed.

Lemma node_get_erase_ne i j l : i ≠ j → node_get i (node_erase j l) = node_get i l.
Proof.
  intros Hne. induction l as [|[k b] l IH]; [done|]. cbn.
  destruct (decide (j = k)) as [->|]; cbn; [by rewrite decide_False|].
  destruct (decide (i = k)); [done|apply IH].
Qed.

Lemma node_get_cons_ne i j a l : i ≠ j → node_get i ((j, a) :: l) = node_get i l.
Proof. intros. cbn. by rewrite decide_False. Qed.
End nodes.
