(* ===== verification/ByteArray.v ===== *)
(** * ByteArray (Helens/bytearray.{h,cc}, Helens/endian.h)

    A growable byte buffer stored as a chain of fixed-size nodes, with a cursor
    [m_position] and a pointer [m_cur] to the node that holds it.  Memory cells
    are [option Z]: [None] is a byte of a [new char[]] that nothing has written. *)
From S2P Require Import Prelude.

Inductive endianness := LITTLE_ENDIAN | BIG_ENDIAN.
#[export] Instance endianness_eq_dec : EqDecision endianness.
Proof. solve_decision. Defined.

(** The host is little-endian ([BYTE_ORDER == LITTLE_ENDIAN]). *)
Definition HELENS_BYTE_ORDER : endianness := LITTLE_ENDIAN.

Abbreviation cell := (option Z).

(** ** State *)
(** One node; [next] is the following element of the chain. *)
Record Node := mkNode { ptr : list cell; node_size : Z }.

Record ByteArray := mkByteArray {
  m_baseSize : Z;
  m_position : Z;
  m_capacity : Z;
  m_size : Z;
  m_endian : endianness;
  (** the chain that starts at [m_root] *)
  m_nodes : list Node;
  (** [m_cur]: an index in the chain, or the null pointer *)
  m_cur : option nat
}.

Definition with_position (v : Z) (b : ByteArray) : ByteArray :=
  mkByteArray (m_baseSize b) v (m_capacity b) (m_size b) (m_endian b) (m_nodes b) (m_cur b).
Definition with_size (v : Z) (b : ByteArray) : ByteArray :=
  mkByteArray (m_baseSize b) (m_position b) (m_capacity b) v (m_endian b) (m_nodes b) (m_cur b).
Definition with_endian (v : endianness) (b : ByteArray) : ByteArray :=
  mkByteArray (m_baseSize b) (m_position b) (m_capacity b) (m_size b) v (m_nodes b) (m_cur b).
Definition with_cur (v : option nat) (b : ByteArray) : ByteArray :=
  mkByteArray (m_baseSize b) (m_position b) (m_capacity b) (m_size b) (m_endian b) (m_nodes b) v.
Definition with_nodes (v : list Node) (b : ByteArray) : ByteArray :=
  mkByteArray (m_baseSize b) (m_position b) (m_capacity b) (m_size b) (m_endian b) v (m_cur b).
Definition with_capacity (v : Z) (b : ByteArray) : ByteArray :=
  mkByteArray (m_baseSize b) (m_position b) v (m_size b) (m_endian b) (m_nodes b) (m_cur b).

(** [Node(size_t s)] *)
Definition new_node (s : Z) : Node := mkNode (replicate (Z.to_nat s) None) s.

(** The constructor. *)
Definition new_ByteArray (base_size : Z) : ByteArray :=
  mkByteArray base_size 0 base_size 0 BIG_ENDIAN [new_node base_size] (Some 0%nat).

Definition isLittleEndian (b : ByteArray) : bool :=
  bool_decide (m_endian b = LITTLE_ENDIAN).
Definition setIsLittleEndian (val : bool) (b : ByteArray) : ByteArray :=
  with_endian (if val then LITTLE_ENDIAN else BIG_ENDIAN) b.

Definition getReadSize (b : ByteArray) : Z := u64 (m_size b - m_position b).
Definition getCapacity (b : ByteArray) : Z := u64 (m_capacity b - m_position b).
Definition getSize (b : ByteArray) : Z := m_size b.

(** ** Following node pointers *)
Definition deref (b : ByteArray) (cur : option nat) : outcome Node :=
  match cur with
  | None => Undef NullDeref
  | Some i => of_option OutOfBounds (m_nodes b !! i)
  end.

(** [cur->next] *)
Definition next (b : ByteArray) (cur : option nat) : option nat :=
  match cur with
  | None => None
  | Some i => if decide (S i < length (m_nodes b))%nat then Some (S i) else None
  end.

(** [memcpy(cur->ptr + npos, src, n)] and [memcpy(dst, cur->ptr + npos, n)]. *)
Definition node_store (nd : Node) (npos : Z) (bs : list Z) : outcome Node :=
  if decide (npos + Z.of_nat (length bs) ≤ Z.of_nat (length (ptr nd)))
  then Ok (mkNode (splice (Z.to_nat npos) (Some <$> bs) (ptr nd)) (node_size nd))
  else Undef OutOfBounds.
Definition node_load (nd : Node) (npos n : Z) : outcome (list cell) :=
  if decide (npos + n ≤ Z.of_nat (length (ptr nd)))
  then Ok (take (Z.to_nat n) (drop (Z.to_nat npos) (ptr nd)))
  else Undef OutOfBounds.

(** ** Growing *)
(** [ceil(1.0 * size / m_baseSize)], exact while [size < 2^52]. *)
Definition ceil_div (a b : Z) : Z := (a + b - 1) / b.

Definition addCapacity (n : Z) (b : ByteArray) : ByteArray :=
  if n =? 0 then b else
  let old_cap := getCapacity b in
  if n <=? old_cap then b else
  let count := ceil_div (n - old_cap) (m_baseSize b) in
  let old := m_nodes b in
  let b := with_nodes (old ++ replicate (Z.to_nat count) (new_node (m_baseSize b))) b in
  let b := with_capacity (u64 (m_capacity b + count * m_baseSize b)) b in
  if old_cap =? 0 then with_cur (Some (length old)) b else b.

(** ** Writing *)
(** The copy loop of [write]: one iteration per node. *)
Fixpoint write_loop (fuel : nat) (bs : list Z) (npos ncap : Z) : M ByteArray unit :=
  match bs with
  | [] => ret tt
  | _ =>
    match fuel with
    | O => lift Fuel
    | S fuel =>
      let! b := getst in
      let! nd := lift (deref b (m_cur b)) in
      let i := default 0%nat (m_cur b) in
      let n := Z.of_nat (length bs) in
      if n <=? ncap then
        let! nd' := lift (node_store nd npos bs) in
        let b1 := with_nodes (<[i := nd']> (m_nodes b)) b in
        let b2 := if node_size nd =? npos + n then with_cur (next b1 (m_cur b1)) b1 else b1 in
        putst (with_position (u64 (m_position b2 + n)) b2) ;;!
        ret tt
      else
        let! nd' := lift (node_store nd npos (take (Z.to_nat ncap) bs)) in
        let b1 := with_nodes (<[i := nd']> (m_nodes b)) b in
        let b2 := with_position (u64 (m_position b1 + ncap)) b1 in
        let b3 := with_cur (next b2 (m_cur b2)) b2 in
        putst b3 ;;!
        let! nd2 := lift (deref b3 (m_cur b3)) in
        write_loop fuel (drop (Z.to_nat ncap) bs) 0 (node_size nd2)
    end
  end.

Definition write (bs : list Z) : M ByteArray unit :=
  match bs with
  | [] => ret tt
  | _ =>
    modst (addCapacity (Z.of_nat (length bs))) ;;!
    let! b := getst in
    let npos := m_position b mod m_baseSize b in
    let! nd := lift (deref b (m_cur b)) in
    let ncap := u64 (node_size nd - npos) in
    write_loop (S (length (m_nodes b))) bs npos ncap ;;!
    modst (λ b, if m_size b <? m_position b then with_size (m_position b) b else b)
  end.

(** ** Reading *)
(** The copy loop of [read(buf, size)]; the result is what lands in [buf]. *)
Fixpoint read_loop (fuel : nat) (n npos ncap : Z) : M ByteArray (list cell) :=
  if n <=? 0 then ret [] else
  match fuel with
  | O => lift Fuel
  | S fuel =>
    let! b := getst in
    let! nd := lift (deref b (m_cur b)) in
    if n <=? ncap then
      let! cs := lift (node_load nd npos n) in
      let b1 := if node_size nd =? npos + n then with_cur (next b (m_cur b)) b else b in
      putst (with_position (u64 (m_position b1 + n)) b1) ;;!
      ret cs
    else
      let! cs := lift (node_load nd npos ncap) in
      let b1 := with_position (u64 (m_position b + ncap)) b in
      let b2 := with_cur (next b1 (m_cur b1)) b1 in
      putst b2 ;;!
      let! nd2 := lift (deref b2 (m_cur b2)) in
      let! rest := read_loop fuel (n - ncap) 0 (node_size nd2) in
      ret (cs ++ rest)
  end.

Definition read (n : Z) : M ByteArray (list cell) :=
  let! b := getst in
  if getReadSize b <? n then throw OutOfRange else
  let npos := m_position b mod m_baseSize b in
  let! nd := lift (deref b (m_cur b)) in
  let ncap := u64 (node_size nd - npos) in
  read_loop (S (length (m_nodes b))) n npos ncap.

(** [read(buf, size, position) const]: the same loop on a local cursor.  As in
    the source the walk starts from [m_cur] whatever [position] is. *)
Fixpoint read_at_loop (b : ByteArray) (fuel : nat) (cur : option nat) (n npos ncap : Z)
    : outcome (list cell) :=
  if n <=? 0 then Ok [] else
  match fuel with
  | O => Fuel
  | S fuel =>
    obind (deref b cur) (λ nd,
    if n <=? ncap then node_load nd npos n
    else
      obind (node_load nd npos ncap) (λ cs,
      let cur := next b cur in
      obind (deref b cur) (λ nd2,
      obind (read_at_loop b fuel cur (n - ncap) 0 (node_size nd2)) (λ rest,
      Ok (cs ++ rest)))))
  end.

Definition read_at (n position : Z) (b : ByteArray) : outcome (list cell) :=
  if u64 (m_size b - position) <? n then Throw OutOfRange else
  let npos := position mod m_baseSize b in
  obind (deref b (m_cur b)) (λ nd,
  let ncap := u64 (node_size nd - npos) in
  read_at_loop b (S (length (m_nodes b))) (m_cur b) n npos ncap).

(** ** Positioning *)
(** The walk of [setPosition]: skip whole nodes while [v > m_cur->size]. *)
Fixpoint seek_loop (b : ByteArray) (fuel : nat) (cur : option nat) (v : Z)
    : outcome (option nat * Z) :=
  match fuel with
  | O => Fuel
  | S fuel =>
    obind (deref b cur) (λ nd,
    if node_size nd <? v then seek_loop b fuel (next b cur) (v - node_size nd)
    else Ok (cur, v))
  end.

Definition setPosition (v : Z) : M ByteArray unit :=
  let! b := getst in
  if m_capacity b <? v then throw OutOfRange else
  putst (with_position v b) ;;!
  modst (λ b, if m_size b <? m_position b then with_size (m_position b) b else b) ;;!
  modst (with_cur (Some 0%nat)) ;;!
  let! b := getst in
  let! cv := lift (seek_loop b (S (length (m_nodes b))) (m_cur b) v) in
  let! nd := lift (deref b (cv.1)) in
  putst (with_cur (if cv.2 =? node_size nd then next b (cv.1) else cv.1) b).

(** [clear] frees every node but the first. *)
Definition clear (b : ByteArray) : ByteArray :=
  mkByteArray (m_baseSize b) 0 (m_baseSize b) 0 (m_endian b) (take 1 (m_nodes b)) (Some 0%nat).

(** ** Fixed-width integers *)
(** [byteswap<T>] for an unsigned [T] of [n] bytes; signed values go through
    the unsigned type and back. *)
Definition byteswap (n : nat) (v : Z) : Z := bswap n v.
Definition sbyteswap (n : nat) (v : Z) : Z :=
  to_signed (8 * Z.of_nat n) (bswap n (wrap (8 * Z.of_nat n) v)).

(** [byteswapOnLittleEndian], on the little-endian host. *)
Definition byteswapOnLittleEndian (n : nat) (v : Z) : Z := byteswap n v.
Definition byteswapOnBigEndian (v : Z) : Z := v.

Definition host_order (b : ByteArray) : bool := bool_decide (m_endian b = HELENS_BYTE_ORDER).

Definition writeFint8 (v : Z) : M ByteArray unit := write (le_bytes 1 v).
Definition writeFuint8 (v : Z) : M ByteArray unit := write (le_bytes 1 v).

(** [writeFuint16/32/64] ([n] = 2, 4, 8) and their signed versions. *)
Definition writeFuint (n : nat) (v : Z) : M ByteArray unit :=
  let! b := getst in
  write (le_bytes n (if host_order b then v else byteswap n v)).
Definition writeFint (n : nat) (v : Z) : M ByteArray unit :=
  let! b := getst in
  write (le_bytes n (if host_order b then v else sbyteswap n v)).

Definition writeFint16 := writeFint 2.
Definition writeFuint16 := writeFuint 2.
Definition writeFint32 := writeFint 4.
Definition writeFuint32 := writeFuint 4.
Definition writeFint64 := writeFint 8.
Definition writeFuint64 := writeFuint 8.

(** The object read into by [read(&v, sizeof(v))]. *)
Definition cells_val (cs : list cell) : outcome (list Z) := of_option UninitRead (mapM id cs).
Definition read_bytes (n : Z) : M ByteArray (list Z) :=
  let! cs := read n in lift (cells_val cs).

Definition readFuint8 : M ByteArray Z :=
  let! bs := read_bytes 1 in ret (le_val bs).
Definition readFint8 : M ByteArray Z :=
  let! bs := read_bytes 1 in ret (i8 (le_val bs)).

Definition readFuint (n : nat) : M ByteArray Z :=
  let! bs := read_bytes (Z.of_nat n) in
  let! b := getst in
  ret (if host_order b then le_val bs else byteswap n (le_val bs)).
Definition readFint (n : nat) : M ByteArray Z :=
  let! bs := read_bytes (Z.of_nat n) in
  let! b := getst in
  let v := to_signed (8 * Z.of_nat n) (le_val bs) in
  ret (if host_order b then v else sbyteswap n v).

Definition readFint16 := readFint 2.
Definition readFuint16 := readFuint 2.
Definition readFint32 := readFint 4.
Definition readFuint32 := readFuint 4.
Definition readFint64 := readFint 8.
Definition readFuint64 := readFuint 8.

(** [float] and [double] travel as their bit patterns. *)
Definition writeFloat (bits : Z) := writeFuint32 bits.
Definition writeDouble (bits : Z) := writeFuint64 bits.
Definition readFloat := readFuint32.
Definition readDouble := readFuint64.

(** ** Variable-length integers *)
(** [EncodeZigzag32/64] at width [w].  [-v] and [v * 2] are computed in the
    signed type of [v], where leaving its range has no defined behaviour. *)
Definition signed_arith (w z : Z) : outcome Z :=
  if decide (is_sint w z) then Ok z else Undef Overflow.
Definition EncodeZigzag (w v : Z) : outcome Z :=
  if v <? 0
  then obind (signed_arith w (- v)) (λ m, Ok (wrap w (wrap w m * 2 - 1)))
  else obind (signed_arith w (v * 2)) (λ m, Ok (wrap w m)).
Definition EncodeZigzag32 := EncodeZigzag 32.
Definition EncodeZigzag64 := EncodeZigzag 64.

(** [(v >> 1) ^ -(v & 1)] *)
Definition DecodeZigzag (w v : Z) : Z :=
  to_signed w (Z.lxor (Z.shiftr v 1) (wrap w (- Z.land v 1))).
Definition DecodeZigzag32 := DecodeZigzag 32.
Definition DecodeZigzag64 := DecodeZigzag 64.

(** The [while(value >= 0x80)] loop filling [tmp]; [fuel] is the array size. *)
Fixpoint varint_bytes (fuel : nat) (v : Z) : outcome (list Z) :=
  match fuel with
  | O => Undef OutOfBounds
  | S fuel =>
    if 128 <=? v
    then obind (varint_bytes fuel (Z.shiftr v 7)) (λ bs,
         Ok (Z.lor (Z.land v 127) 128 :: bs))
    else Ok [v]
  end.

Definition writeUint32 (v : Z) : M ByteArray unit :=
  let! tmp := lift (varint_bytes 5 v) in write tmp.
Definition writeUint64 (v : Z) : M ByteArray unit :=
  let! tmp := lift (varint_bytes 10 v) in write tmp.
Definition writeInt32 (v : Z) : M ByteArray unit :=
  let! u := lift (EncodeZigzag32 v) in writeUint32 u.
Definition writeInt64 (v : Z) : M ByteArray unit :=
  let! u := lift (EncodeZigzag64 v) in writeUint64 u.

(** [for(int i = 0; i < w; i += 7)], [iters] iterations. *)
Fixpoint read_varint (w : Z) (iters : nat) (i : Z) (result : Z) : M ByteArray Z :=
  match iters with
  | O => ret result
  | S iters =>
    let! b := readFuint8 in
    if b <? 128 then ret (Z.lor result (wrap w (Z.shiftl b i)))
    else read_varint w iters (i + 7) (Z.lor result (wrap w (Z.shiftl (Z.land b 127) i)))
  end.

Definition readUint32 : M ByteArray Z := read_varint 32 5 0 0.
Definition readUint64 : M ByteArray Z := read_varint 64 10 0 0.
Definition readInt32 : M ByteArray Z := let! v := readUint32 in ret (DecodeZigzag32 v).
Definition readInt64 : M ByteArray Z := let! v := readUint64 in ret (DecodeZigzag64 v).

(** ** Strings *)
Definition writeStringF16 (s : list Z) : M ByteArray unit :=
  writeFuint16 (u16 (Z.of_nat (length s))) ;;! write s.
Definition writeStringF32 (s : list Z) : M ByteArray unit :=
  writeFuint32 (u32 (Z.of_nat (length s))) ;;! write s.
Definition writeStringF64 (s : list Z) : M ByteArray unit :=
  writeFuint64 (u64 (Z.of_nat (length s))) ;;! write s.
Definition writeStringVint (s : list Z) : M ByteArray unit :=
  writeUint64 (u64 (Z.of_nat (length s))) ;;! write s.
Definition writeStringWithoutLength (s : list Z) : M ByteArray unit := write s.

(** The string that is resized to [len] bytes before they are read: no string has
    2^63 bytes, and shorter ones are taken to find memory. *)
Definition read_string (len : Z) : M ByteArray (list Z) := if 2 ^ 63 <=? len then throw LogicError else read_bytes len.
Definition readStringF16 : M ByteArray (list Z) := let! len := readFuint16 in read_string len.
Definition readStringF32 : M ByteArray (list Z) := let! len := readFuint32 in read_string len.
Definition readStringF64 : M ByteArray (list Z) := let! len := readFuint64 in read_string len.
Definition readStringVint : M ByteArray (list Z) := let! len := readUint64 in read_string len.

(** ** Bulk access *)
(** [toString]: the unread bytes, read without moving the cursor. *)
Definition toString (b : ByteArray) : outcome (list cell) :=
  if getReadSize b =? 0 then Ok [] else read_at (getReadSize b) (m_position b) b.

(** [toHexString]: two digits and a space per byte, a newline before every
    32nd byte. *)
Definition hex_digit (n : Z) : Z := if n <? 10 then n + 48 else n + 87.
Fixpoint hex_dump (i : nat) (bs : list Z) : list Z :=
  match bs with
  | [] => []
  | c :: bs =>
    (if decide (0 < i ∧ i mod 32 = 0)%nat then [10] else []) ++
    [hex_digit (Z.shiftr c 4); hex_digit (Z.land c 15); 32] ++ hex_dump (S i) bs
  end.
Definition toHexString (b : ByteArray) : outcome (list Z) :=
  obind (toString b) (λ cs, obind (cells_val cs) (λ bs, Ok (hex_dump 0 bs))).

(** A [struct iovec]: node, offset in the node and length. *)
Record iovec := mkIovec { iov_node : nat; iov_off : Z; iov_len : Z }.
#[export] Instance iovec_eq_dec : EqDecision iovec.
Proof. solve_decision. Defined.

(** The loop shared in shape by the three [get*Buffers]. *)
Fixpoint iov_loop (b : ByteArray) (fuel : nat) (cur : option nat) (len npos ncap : Z)
    : outcome (list iovec) :=
  if len <=? 0 then Ok [] else
  match fuel with
  | O => Fuel
  | S fuel =>
    let i := default 0%nat cur in
    if len <=? ncap then Ok [mkIovec i npos len]
    else
      let cur := next b cur in
      obind (deref b cur) (λ nd,
      obind (iov_loop b fuel cur (len - ncap) 0 (node_size nd)) (λ rest,
      Ok (mkIovec i npos ncap :: rest)))
  end.

(** [getReadBuffers(buffers, len)] *)
Definition getReadBuffers (len : Z) (b : ByteArray) : outcome (Z * list iovec) :=
  let len := if getReadSize b <? len then getReadSize b else len in
  if len =? 0 then Ok (0, []) else
  let npos := m_position b mod m_baseSize b in
  obind (deref b (m_cur b)) (λ nd,
  obind (iov_loop b (S (length (m_nodes b))) (m_cur b) len npos (u64 (node_size nd - npos)))
    (λ l, Ok (len, l))).

(** [while(count > 0) { cur = cur->next; --count; }] *)
Fixpoint skip_nodes (b : ByteArray) (count : nat) (cur : option nat) : outcome (option nat) :=
  match count with
  | O => Ok cur
  | S count => obind (deref b cur) (λ _, skip_nodes b count (next b cur))
  end.

(** [getReadBuffers(buffers, len, position)]: [len] is clamped against the
    cursor of the buffer, not against [position]. *)
Definition getReadBuffers_at (len position : Z) (b : ByteArray) : outcome (Z * list iovec) :=
  let len := if getReadSize b <? len then getReadSize b else len in
  if len =? 0 then Ok (0, []) else
  let npos := position mod m_baseSize b in
  obind (skip_nodes b (Z.to_nat (position / m_baseSize b)) (Some 0%nat)) (λ cur,
  obind (deref b cur) (λ nd,
  obind (iov_loop b (S (length (m_nodes b))) cur len npos (u64 (node_size nd - npos)))
    (λ l, Ok (len, l)))).

(** [getWriteBuffers] grows first, then lists the writable memory. *)
Definition getWriteBuffers (len : Z) : M ByteArray (Z * list iovec) :=
  if len =? 0 then ret (0, []) else
  modst (addCapacity len) ;;!
  let! b := getst in
  let npos := m_position b mod m_baseSize b in
  let! nd := lift (deref b (m_cur b)) in
  let! l := lift (iov_loop b (S (length (m_nodes b))) (m_cur b) len npos
                    (u64 (node_size nd - npos))) in
  ret (len, l).

(** [writeToFile] once the file is open: the (node, offset, length) arguments of
    the successive [ofs.write] calls.  [len] is signed and may go negative. *)
Fixpoint file_loop (b : ByteArray) (fuel : nat) (cur : option nat) (read_size pos : Z)
    : outcome (list iovec) :=
  if read_size <=? 0 then Ok [] else
  match fuel with
  | O => Fuel
  | S fuel =>
    let diff := pos mod m_baseSize b in
    let len := (if m_baseSize b <? read_size then m_baseSize b else read_size) - diff in
    obind (deref b cur) (λ _,
    obind (file_loop b fuel (next b cur) (read_size - len) (pos + len)) (λ rest,
    Ok (mkIovec (default 0%nat cur) diff len :: rest)))
  end.
Definition writeToFile (b : ByteArray) : outcome (list iovec) :=
  file_loop b (S (length (m_nodes b))) (m_cur b) (getReadSize b) (m_position b).

(** [readFromFile]: the file arrives as the chunks [ifs.read] returns, each of
    at most [m_baseSize] bytes. *)
Fixpoint readFromFile (chunks : list (list Z)) : M ByteArray unit :=
  match chunks with
  | [] => ret tt
  | c :: chunks => write c ;;! readFromFile chunks
  end.
