(* ===== verification/ByteArraySpec.v ===== *)
(** * What a ByteArray promises

    The abstract buffer is a byte sequence with a cursor; the node chain of
    [ByteArray] refines it: writes overwrite-and-extend the sequence, reads
    return a slice, and the cursor pointer never goes stale. *)
From S2P Require Import Prelude ByteArray.

(** ** The invariant *)
Definition cur_of (b : ByteArray) (p : Z) : option nat :=
  let i := Z.to_nat (p / m_baseSize b) in
  if decide (i < length (m_nodes b))%nat then Some i else None.

(** The shape of the chain, and the agreement of [m_cur] with [m_position];
    holds also in the middle of a copy loop. *)
Record chain_ok (b : ByteArray) : Prop := {
  ok_base : 0 < m_baseSize b;
  ok_nodes : Forall (λ nd, node_size nd = m_baseSize b ∧
                           Z.of_nat (length (ptr nd)) = m_baseSize b) (m_nodes b);
  ok_root : m_nodes b ≠ [];
  ok_cap : m_capacity b = Z.of_nat (length (m_nodes b)) * m_baseSize b;
  ok_room : m_capacity b < 2 ^ 64;
  ok_pos : 0 ≤ m_position b ≤ m_capacity b;
  ok_cur : m_cur b = cur_of b (m_position b)
}.

Record wf (b : ByteArray) : Prop := {
  wf_chain : chain_ok b;
  wf_size : m_position b ≤ m_size b ≤ m_capacity b
}.

(** All the memory of the chain, and the part that counts as data. *)
Definition contents (b : ByteArray) : list cell := concat (ptr <$> m_nodes b).
Definition data (b : ByteArray) : list cell := take (Z.to_nat (m_size b)) (contents b).

(** ** The specification: a sequence with a cursor *)
Record buffer := mkBuffer { buf_data : list cell; buf_pos : nat }.

Definition abs (b : ByteArray) : buffer := mkBuffer (data b) (Z.to_nat (m_position b)).

Definition spec_write (bs : list Z) (s : buffer) : buffer :=
  mkBuffer (splice (buf_pos s) (Some <$> bs) (buf_data s)) (buf_pos s + length bs).

Definition spec_read (n : nat) (s : buffer) : outcome (list cell) * buffer :=
  if decide (buf_pos s + n ≤ length (buf_data s))%nat
  then (Ok (take n (drop (buf_pos s) (buf_data s))), mkBuffer (buf_data s) (buf_pos s + n))
  else (Throw OutOfRange, s).

(** ** Lemmas on the chain *)
Lemma ok_cap_pos b : chain_ok b → 0 < m_capacity b.
Proof.
  intros [Hb _ Hr Hc _ _ _]. destruct (m_nodes b); [done|]. rewrite Hc. cbn [length]. nia.
Qed.

Lemma base_le_cap b : chain_ok b → m_baseSize b ≤ m_capacity b.
Proof.
  intros [Hb _ Hr Hc _ _ _]. destruct (m_nodes b); [done|]. rewrite Hc. cbn [length]. nia.
Qed.

Lemma contents_length b : chain_ok b → Z.of_nat (length (contents b)) = m_capacity b.
Proof.
  intros [Hb Hn _ Hc _ _ _]. unfold contents.
  rewrite (concat_uniform_length _ (Z.to_nat (m_baseSize b))).
  - rewrite length_fmap. lia.
  - rewrite Forall_fmap. eapply Forall_impl; [done|]. simpl. lia.
Qed.

Lemma data_length b : wf b → Z.of_nat (length (data b)) = m_size b.
Proof.
  intros [Hc Hs]. unfold data. pose proof (contents_length b Hc).
  destruct Hc. rewrite length_take. lia.
Qed.

(** The position of [p] in the chain: node [i], offset [off]. *)
Lemma locate b p :
  chain_ok b → 0 ≤ p < m_capacity b →
  ∃ i nd off, cur_of b p = Some i ∧ m_nodes b !! i = Some nd ∧
    p mod m_baseSize b = Z.of_nat off ∧ Z.of_nat off < m_baseSize b ∧
    p = Z.of_nat i * m_baseSize b + Z.of_nat off ∧
    node_size nd = m_baseSize b ∧ Z.of_nat (length (ptr nd)) = m_baseSize b.
Proof.
  intros [Hb Hn _ Hc _ _ _] Hp.
  pose proof (Z.mod_pos_bound p (m_baseSize b) Hb).
  pose proof (Z.div_mod p (m_baseSize b) ltac:(lia)).
  assert (0 ≤ p / m_baseSize b) by (apply Z.div_pos; lia).
  assert (p / m_baseSize b < Z.of_nat (length (m_nodes b))) by (apply Z.div_lt_upper_bound; lia).
  destruct (lookup_lt_is_Some_2 (m_nodes b) (Z.to_nat (p / m_baseSize b))) as [nd Hnd]; [lia|].
  exists (Z.to_nat (p / m_baseSize b)), nd, (Z.to_nat (p mod m_baseSize b)).
  unfold cur_of. rewrite decide_True by lia.
  pose proof (proj1 (Forall_lookup _ _) Hn _ _ Hnd) as [??].
  repeat split; try done; lia.
Qed.

Lemma cur_of_at b (i off : nat) :
  0 < m_baseSize b → Z.of_nat off < m_baseSize b →
  cur_of b (Z.of_nat i * m_baseSize b + Z.of_nat off) =
    if decide (i < length (m_nodes b))%nat then Some i else None.
Proof.
  intros Hb Ho. unfold cur_of.
  rewrite (Z.add_comm _ (Z.of_nat off)), Z.div_add, Z.div_small, Z.add_0_l, Nat2Z.id by lia.
  done.
Qed.

(** The next node holds the position just past the end of node [i]. *)
Lemma next_cur_of b i :
  0 < m_baseSize b →
  next b (Some i) = cur_of b (Z.of_nat i * m_baseSize b + m_baseSize b).
Proof.
  intros Hb. pose proof (cur_of_at b (S i) 0 Hb ltac:(lia)) as E.
  replace (Z.of_nat (S i) * m_baseSize b + Z.of_nat 0)
    with (Z.of_nat i * m_baseSize b + m_baseSize b) in E by lia.
  by rewrite E.
Qed.

Lemma cur_of_full b p :
  chain_ok b → 0 ≤ p ≤ m_capacity b → cur_of b p = None ↔ p = m_capacity b.
Proof.
  intros Hok Hp. split.
  - intros Hnone. destruct (decide (p = m_capacity b)); [done|].
    destruct (locate b p Hok ltac:(lia)) as (?&?&?&?&?). congruence.
  - intros ->. destruct Hok as [Hb _ _ Hc _ _ _]. unfold cur_of. rewrite Hc, Z.div_mul by lia.
    rewrite decide_False by lia. done.
Qed.

(** ** Moving the cursor *)
Definition move (p : Z) (b : ByteArray) : ByteArray := with_cur (cur_of b p) (with_position p b).

Lemma move_chain_ok b p : chain_ok b → 0 ≤ p ≤ m_capacity b → chain_ok (move p b).
Proof. intros [] Hp. by split. Qed.

Lemma move_id b : chain_ok b → move (m_position b) b = b.
Proof. intros [_ _ _ _ _ _ Hc]. unfold move. rewrite <- Hc. by destruct b. Qed.

Lemma contents_move b p : contents (move p b) = contents b.
Proof. done. Qed.
Lemma move_move b p q : move q (move p b) = move q b.
Proof. done. Qed.

(** What a copy loop leaves alone. *)
Record frame (b b' : ByteArray) : Prop := {
  fr_base : m_baseSize b' = m_baseSize b;
  fr_cap : m_capacity b' = m_capacity b;
  fr_size : m_size b' = m_size b;
  fr_endian : m_endian b' = m_endian b;
  fr_nodes : length (m_nodes b') = length (m_nodes b)
}.

Lemma frame_refl b : frame b b.
Proof. by split. Qed.
Lemma frame_trans b1 b2 b3 : frame b1 b2 → frame b2 b3 → frame b1 b3.
Proof. intros [] []. split; congruence. Qed.
Lemma frame_move b b' p : frame b b' → frame b (move p b').
Proof. intros []. by split. Qed.
#[export] Hint Resolve frame_refl frame_move : helens.

(** ** Storing into one node *)
Lemma store_in_node b i nd (off : nat) bs :
  chain_ok b → m_nodes b !! i = Some nd →
  Z.of_nat off + Z.of_nat (length bs) ≤ m_baseSize b →
  ∃ nd', node_store nd (Z.of_nat off) bs = Ok nd' ∧
    let b' := with_nodes (<[i := nd']> (m_nodes b)) b in
    chain_ok b' ∧ frame b b' ∧
    contents b' =
      splice (Z.to_nat (Z.of_nat i * m_baseSize b + Z.of_nat off)) (Some <$> bs) (contents b).
Proof.
  intros [Hb Hn Hr Hc Hm Hp Hcur] Hi Hoff.
  pose proof (proj1 (Forall_lookup _ _) Hn _ _ Hi) as [Hsz Hlen].
  unfold node_store. rewrite decide_True by lia. eexists; split; [done|]. cbn zeta.
  assert (length (splice off (Some <$> bs) (ptr nd)) = length (ptr nd)) as Hl.
  { apply splice_length. rewrite length_fmap. lia. }
  rewrite Nat2Z.id. split; [|split].
  - split; cbn; try done.
    + apply Forall_insert; [done|]. cbn. split; [done|lia].
    + intros Hnil. apply (f_equal length) in Hnil. rewrite length_insert in Hnil.
      by destruct (m_nodes b).
    + by rewrite length_insert.
    + rewrite Hcur. unfold cur_of. cbn. by rewrite length_insert.
  - split; cbn; try done. by rewrite length_insert.
  - unfold contents. cbn. rewrite list_fmap_insert. cbn.
    destruct (concat_uniform_split (ptr <$> m_nodes b) (Z.to_nat (m_baseSize b)) i (ptr nd))
      as (l1 & l2 & E & Hl1 & Hins).
    { rewrite Forall_fmap. eapply Forall_impl; [done|]. simpl. lia. }
    { by rewrite list_lookup_fmap, Hi. }
    rewrite Hins, E.
    replace (Z.to_nat (Z.of_nat i * m_baseSize b + Z.of_nat off)) with (length l1 + off)%nat by lia.
    symmetry. apply splice_mid. rewrite length_fmap. lia.
Qed.

(** ** [addCapacity] *)
Lemma addCapacity_spec b n :
  chain_ok b → 0 < n → m_position b + n + m_baseSize b < 2 ^ 64 →
  ∃ k, let b' := addCapacity n b in
    chain_ok b' ∧ contents b' = contents b ++ replicate k None ∧
    m_position b' = m_position b ∧ m_size b' = m_size b ∧ m_endian b' = m_endian b ∧
    m_baseSize b' = m_baseSize b ∧ m_capacity b ≤ m_capacity b' ≤ Z.max (m_capacity b) (m_position b + n + m_baseSize b) ∧
    m_position b + n ≤ m_capacity b'.
Proof.
  intros Hok Hn Hroom. pose proof Hok as [Hb Hns Hr Hc Hm Hp Hcur].
  unfold addCapacity, getCapacity. rewrite (wrap_small 64) by lia.
  destruct (Z.eqb_spec n 0); [lia|].
  destruct (Z.leb_spec n (m_capacity b - m_position b)).
  { exists 0%nat. cbn zeta. rewrite app_nil_r. repeat split; try done; lia. }
  set (short := n - (m_capacity b - m_position b)).
  set (count := ceil_div short (m_baseSize b)).
  assert (short ≤ count * m_baseSize b < short + m_baseSize b) as Hcount.
  { unfold count, ceil_div.
    pose proof (Z.div_mod (short + m_baseSize b - 1) (m_baseSize b) ltac:(lia)).
    pose proof (Z.mod_pos_bound (short + m_baseSize b - 1) (m_baseSize b) Hb). lia. }
  assert (0 < count) by nia.
  exists (Z.to_nat count * Z.to_nat (m_baseSize b))%nat.
  cbn. rewrite (wrap_small 64) by lia.
  set (b1 := with_capacity _ _).
  assert (length (m_nodes b1) = (length (m_nodes b) + Z.to_nat count)%nat) as Hlen.
  { subst b1. cbn. by rewrite length_app, length_replicate. }
  assert (contents b1 = contents b ++ replicate (Z.to_nat count * Z.to_nat (m_baseSize b)) None) as Hcont.
  { unfold contents. subst b1. cbn. rewrite fmap_app, concat_app. f_equal.
    rewrite fmap_replicate. cbn. clear. induction (Z.to_nat count) as [|c IH]; [done|].
    cbn. rewrite IH. by rewrite <- replicate_add. }
  assert (chain_ok (with_cur (cur_of b1 (m_position b)) b1)) as Hok1.
  { split; cbn; try done; try lia.
    - subst b1. cbn. apply Forall_app; split; [done|]. apply Forall_replicate. cbn.
      rewrite length_replicate. lia.
    - destruct (m_nodes b); cbn; done. 
    - rewrite length_app, length_replicate. lia. }
  destruct (Z.eqb_spec (m_capacity b - m_position b) 0) as [Hz|Hz].
  - assert (cur_of b1 (m_position b) = Some (length (m_nodes b))) as Hcur1.
    { replace (m_position b) with (Z.of_nat (length (m_nodes b)) * m_baseSize b1 + Z.of_nat 0)
        by (subst b1; cbn; lia).
      rewrite cur_of_at by (subst b1; cbn; lia). rewrite decide_True by lia. done. }
    rewrite Hcur1 in Hok1. repeat split; try done; cbn; try lia; apply Hok1.
  - assert (cur_of b1 (m_position b) = m_cur b1) as Hcur1.
    { destruct (locate b (m_position b) Hok ltac:(lia)) as (i & nd & off & Hi & Hl & _ & Ho & E & _).
      change (m_cur b1) with (m_cur b). rewrite Hcur, Hi, E.
      change (m_baseSize b) with (m_baseSize b1).
      rewrite cur_of_at by (subst b1; cbn; lia).
      apply lookup_lt_Some in Hl. by rewrite decide_True by lia. }
    rewrite Hcur1 in Hok1. change (with_cur (m_cur b1) b1) with b1 in Hok1.
    repeat split; try done; cbn; try lia; apply Hok1.
Qed.

(** ** The copy loop of [write] *)
Lemma write_loop_spec fuel : ∀ bs b i (off : nat),
  chain_ok b → bs ≠ [] →
  m_cur b = Some i → m_position b = Z.of_nat i * m_baseSize b + Z.of_nat off →
  Z.of_nat off < m_baseSize b →
  m_position b + Z.of_nat (length bs) ≤ m_capacity b →
  (length (m_nodes b) - i < fuel)%nat →
  ∃ b', write_loop fuel bs (Z.of_nat off) (m_baseSize b - Z.of_nat off) b = (Ok tt, b') ∧
    chain_ok b' ∧ frame b b' ∧ m_position b' = m_position b + Z.of_nat (length bs) ∧
    contents b' = splice (Z.to_nat (m_position b)) (Some <$> bs) (contents b).
Proof.
  induction fuel as [|fuel IH]; intros bs b i off Hok Hbs Hcur Hpos Hoff Hfit Hfuel; [lia|].
  pose proof Hok as [Hb Hn Hr Hc Hm Hp Hcu].
  destruct (locate b (m_position b) Hok) as (i' & nd & off' & Hi' & Hnd & _ & _ & E & Hsz & Hlen).
  { destruct bs; [done|]. cbn [length] in Hfit. lia. }
  rewrite <- Hcu, Hcur in Hi'. injection Hi' as <-. assert (off' = off) as -> by lia.
  destruct bs as [|x bs0]; [done|]. cbn [write_loop]. remember (x :: bs0) as bs eqn:Ebs.
  assert (0 < Z.of_nat (length bs)) as Hpos0 by (subst bs; cbn [length]; lia).
  unfold bind at 1, getst.
  unfold bind at 1, lift at 1. rewrite Hcur. cbn [deref]. rewrite Hnd. cbn [of_option].
  destruct (Z.leb_spec (Z.of_nat (length bs)) (m_baseSize b - Z.of_nat off)).
  - (* the rest fits in this node *)
    destruct (store_in_node b i nd off bs Hok Hnd ltac:(lia)) as (nd' & Hst & Hok1 & Hfr1 & Hct1).
    cbn zeta in *. set (b1 := with_nodes _ b) in *.
    unfold bind at 1, lift at 1. rewrite Hst. cbn [default].
    unfold bind, putst, ret. eexists; split; [done|].
    set (p' := m_position b + Z.of_nat (length bs)).
    match goal with |- chain_ok ?x ∧ _ => assert (x = move p' b1) as -> end.
    { unfold move. destruct (Z.eqb_spec (node_size nd) (Z.of_nat off + Z.of_nat (length bs))).
      - cbn. rewrite wrap_small by lia. rewrite Hcur. fold b1.
        rewrite (next_cur_of b1) by done.
        replace (Z.of_nat i * m_baseSize b1 + m_baseSize b1) with p'; [done|].
        subst p' b1. cbn. lia.
      - cbn. rewrite wrap_small by lia. unfold with_cur, with_position. cbn. f_equal.
        rewrite Hcur. subst p'.
        replace (m_position b + Z.of_nat (length bs))
          with (Z.of_nat i * m_baseSize b1 + Z.of_nat (off + length bs)) by (subst b1; cbn; lia).
        rewrite cur_of_at by (subst b1; cbn; lia).
        rewrite decide_True; [done|]. destruct Hfr1. apply lookup_lt_Some in Hnd. lia. }
    split; [apply move_chain_ok; [done|]; subst b1 p'; cbn; lia|].
    split; [by apply frame_move|]. split; [done|].
    rewrite contents_move, Hct1. do 2 f_equal. lia.
  - (* fill this node and go on in the next *)
    set (ncap := m_baseSize b - Z.of_nat off) in *.
    set (bs1 := take (Z.to_nat ncap) bs). set (bs2 := drop (Z.to_nat ncap) bs).
    assert (Z.of_nat (length bs1) = ncap) as Hl1 by (subst bs1 ncap; rewrite length_take; lia).
    assert (Z.of_nat (length bs2) = Z.of_nat (length bs) - ncap) as Hl2
      by (subst bs2 ncap; rewrite length_drop; lia).
    destruct (store_in_node b i nd off bs1 Hok Hnd ltac:(lia)) as (nd' & Hst & Hok1 & Hfr1 & Hct1).
    cbn zeta in *. set (b1 := with_nodes _ b) in *.
    unfold bind at 1, lift at 1. rewrite Hst. cbn [default].
    set (p' := m_position b + ncap).
    match goal with |- context [putst ?x] => assert (x = move p' b1) as -> end.
    { unfold move. cbn. rewrite wrap_small by lia. fold b1. rewrite Hcur.
      change (with_position (m_position b + ncap) b1) with (with_position p' b1).
      rewrite (next_cur_of (with_position p' b1)) by done.
      replace (Z.of_nat i * m_baseSize (with_position p' b1) + m_baseSize (with_position p' b1))
        with p'; [done|]. subst p' b1 ncap. cbn. lia. }
    assert (chain_ok (move p' b1)) as Hok2.
    { apply move_chain_ok; [done|]. subst b1 p' ncap; cbn; lia. }
    destruct (locate (move p' b1) p' Hok2) as (j & nd2 & o2 & Hj & Hnd2 & _ & Ho2 & E2 & Hsz2 & _).
    { subst b1 p' ncap; cbn; lia. }
    assert (j = S i ∧ o2 = 0%nat) as [-> ->].
    { change (m_baseSize (move p' b1)) with (m_baseSize b) in *.
      apply (div_unique_nat (m_baseSize b)); subst p' ncap; lia. }
    unfold bind at 1, putst. unfold bind at 1, lift.
    change (m_cur (move p' b1)) with (cur_of (move p' b1) p'). rewrite Hj. cbn [deref].
    rewrite Hnd2. cbn [of_option]. rewrite Hsz2.
    destruct (IH bs2 (move p' b1) (S i) 0%nat) as (b' & Hrun & Hok' & Hfr' & Hpos' & Hct');
      try done.
    + intros Hnil. rewrite Hnil in Hl2. cbn in Hl2. lia.
    + subst b1 p'. cbn. lia.
    + destruct Hfr1. apply lookup_lt_Some in Hnd. change (m_nodes (move p' b1)) with (m_nodes b1). lia.
    + exists b'. split.
      { rewrite <- Hrun. f_equal. change (Z.of_nat 0) with 0. lia. }
      split; [done|]. split; [eapply frame_trans; [by apply frame_move|done]|].
      split; [rewrite Hpos'; cbn; subst p'; lia|].
      rewrite Hct', contents_move, Hct1. cbn.
      assert (length (Some <$> bs1) = Z.to_nat ncap) as Hlm by (rewrite length_fmap; lia).
      replace (Z.to_nat p') with
        (Z.to_nat (Z.of_nat i * m_baseSize b + Z.of_nat off) + length (Some <$> bs1))%nat
        by (rewrite Hlm; subst p' ncap; lia).
      rewrite splice_app; [|rewrite Hlm; pose proof (contents_length b Hok); subst ncap; lia].
      rewrite <- fmap_app. unfold bs1, bs2. rewrite take_drop. do 2 f_equal. lia.
Qed.

(** ** [write] *)
(** No size computation of writing [n] more bytes wraps around. *)
Definition room (b : ByteArray) (n : Z) : Prop :=
  m_capacity b + m_baseSize b < 2 ^ 64 ∧ m_position b + n + 2 * m_baseSize b < 2 ^ 64.

(** [b'] is [b] after writing [bs]. *)
Record writes (bs : list Z) (b b' : ByteArray) : Prop := {
  wr_wf : wf b';
  wr_abs : abs b' = spec_write bs (abs b);
  wr_base : m_baseSize b' = m_baseSize b;
  wr_endian : m_endian b' = m_endian b;
  wr_cap : m_capacity b ≤ m_capacity b';
  wr_room : ∀ n, room b (Z.of_nat (length bs) + n) → room b' n
}.

Lemma writes_nil b : wf b → writes [] b b.
Proof.
  intros Hwf. split; try done.
  unfold abs, spec_write. rewrite fmap_nil. cbn [buf_data buf_pos length]. by rewrite splice_nil, Nat.add_0_r.
Qed.

Lemma writes_app bs1 bs2 b b1 b2 :
  wf b → writes bs1 b b1 → writes bs2 b1 b2 → writes (bs1 ++ bs2) b b2.
Proof.
  intros Hwf [Hw1 Ha1 Hb1 He1 Hc1 Hr1] [Hw2 Ha2 Hb2 He2 Hc2 Hr2].
  split; try done; try congruence; try lia.
  - rewrite Ha2, Ha1. unfold spec_write. cbn. rewrite fmap_app, (length_app bs1 bs2). f_equal; [|lia].
    rewrite <- (length_fmap Some bs1). apply splice_app_past.
    pose proof (data_length b Hwf). destruct Hwf as [[] []]. lia.
  - intros n Hn. apply Hr2, Hr1. rewrite length_app in Hn. unfold room in *. lia.
Qed.

(** Overwriting the memory at the cursor, and raising the size to cover it,
    overwrites and extends the data. *)
Lemma data_after_splice b b' bs k :
  wf b →
  contents b' = splice (Z.to_nat (m_position b)) (Some <$> bs) (contents b ++ replicate k None) →
  m_size b' = Z.max (m_size b) (m_position b + Z.of_nat (length bs)) →
  m_position b + Z.of_nat (length bs) ≤ Z.of_nat (length (contents b ++ replicate k None)) →
  data b' = splice (Z.to_nat (m_position b)) (Some <$> bs) (data b).
Proof.
  intros [Hok [? ?]] Hct Hsz Hfit. pose proof (contents_length b Hok) as Hcl.
  pose proof (ok_pos b Hok). unfold data. rewrite Hct, Hsz.
  rewrite <- (take_app_le (contents b) (replicate k None)) by lia.
  destruct (Z.max_spec (m_size b) (m_position b + Z.of_nat (length bs))) as [[? ->]|[? ->]].
  - replace (Z.to_nat (m_position b + Z.of_nat (length bs)))
      with (Z.to_nat (m_position b) + length (Some <$> bs))%nat by (rewrite length_fmap; lia).
    apply splice_past; rewrite ?length_fmap; lia.
  - apply take_splice_ge; rewrite ?length_fmap; lia.
Qed.

Lemma write_spec bs b :
  wf b → room b (Z.of_nat (length bs)) → ∃ b', write bs b = (Ok tt, b') ∧ writes bs b b'.
Proof.
  intros Hwf [Hroom1 Hroom2]. unfold write. destruct bs as [|x bs0].
  { exists b. split; [done|]. by apply writes_nil. }
  remember (x :: bs0) as bs eqn:Ebs.
  assert (0 < Z.of_nat (length bs)) as Hlen by (subst bs; cbn [length]; lia).
  pose proof Hwf as [Hok [Hs1 Hs2]].
  pose proof (ok_base b Hok). pose proof (ok_pos b Hok).
  destruct (addCapacity_spec b (Z.of_nat (length bs)) Hok Hlen ltac:(lia))
    as (k & Hok1 & Hct & Hp1 & Hz1 & He1 & Hb1 & Hcap & Hfit). cbn zeta in *.
  unfold bind at 1, modst. set (b1 := addCapacity _ b) in *.
  unfold bind at 1, getst.
  destruct (locate b1 (m_position b1) Hok1) as (i & nd & off & Hi & Hnd & Hmod & Hoff & E & Hsz & _);
    [lia|].
  unfold bind at 1, lift. rewrite (ok_cur b1 Hok1), Hi. cbn [deref]. rewrite Hnd. cbn [of_option].
  rewrite Hmod, Hsz, (wrap_small 64)
    by (pose proof (ok_room b1 Hok1); pose proof (base_le_cap b1 Hok1); lia).
  destruct (write_loop_spec (S (length (m_nodes b1))) bs b1 i off) as (b2 & Hrun & Hok2 & Hfr & Hp2 & Hct2);
    try done; try lia.
  { subst bs. done. }
  { by rewrite (ok_cur b1 Hok1), Hi. }
  unfold bind at 1. rewrite Hrun.
  destruct Hfr as [Fb Fc Fs Fe Fn].
  set (b3 := if m_size b2 <? m_position b2 then with_size (m_position b2) b2 else b2).
  assert (m_size b3 = Z.max (m_size b) (m_position b + Z.of_nat (length bs))) as Hsz3.
  { subst b3. destruct (Z.ltb_spec (m_size b2) (m_position b2)); cbn; lia. }
  assert (m_position b3 = m_position b + Z.of_nat (length bs) ∧ contents b3 = contents b2 ∧
          m_baseSize b3 = m_baseSize b ∧ m_endian b3 = m_endian b ∧
          m_capacity b3 = m_capacity b1 ∧ chain_ok b3) as (Hp3 & Hct3 & Hb3 & He3 & Hc3 & Hok3).
  { subst b3. destruct (m_size b2 <? m_position b2); cbn; (split; [lia|]);
      (split; [done|]); (split; [congruence|]); (split; [congruence|]); (split; [done|]); try done.
    destruct Hok2; by split. }
  exists b3. split; [done|]. split; try done; try lia.
  - split; [done|]. lia.
  - unfold abs, spec_write. cbn [buf_data buf_pos]. f_equal; [|lia].
    apply (data_after_splice b b3 bs k Hwf); [|done|].
    + by rewrite Hct3, Hct2, Hct, Hp1.
    + rewrite <- Hct. pose proof (contents_length b1 Hok1). lia.
  - intros n [Hn1 Hn2]. unfold room. lia.
Qed.

(** ** [read] *)
Lemma load_in_node b i nd (off : nat) n :
  chain_ok b → m_nodes b !! i = Some nd → 0 ≤ n →
  Z.of_nat off + n ≤ m_baseSize b →
  node_load nd (Z.of_nat off) n =
    Ok (take (Z.to_nat n) (drop (Z.to_nat (Z.of_nat i * m_baseSize b + Z.of_nat off)) (contents b))).
Proof.
  intros [Hb Hn Hr Hc Hm Hp Hcur] Hi Hn0 Hoff.
  pose proof (proj1 (Forall_lookup _ _) Hn _ _ Hi) as [Hsz Hlen].
  unfold node_load. rewrite decide_True by lia. rewrite Nat2Z.id. f_equal. unfold contents.
  destruct (concat_uniform_split (ptr <$> m_nodes b) (Z.to_nat (m_baseSize b)) i (ptr nd))
    as (l1 & l2 & E & Hl1 & _).
  { rewrite Forall_fmap. eapply Forall_impl; [done|]. simpl. lia. }
  { by rewrite list_lookup_fmap, Hi. }
  rewrite E.
  replace (Z.to_nat (Z.of_nat i * m_baseSize b + Z.of_nat off)) with (length l1 + off)%nat by lia.
  symmetry. apply take_drop_mid. lia.
Qed.

(** The node after [i] starts at the next multiple of the base size. *)
Lemma step_to_next b i :
  chain_ok b → (Z.of_nat i + 1) * m_baseSize b < m_capacity b →
  ∃ nd, next b (Some i) = Some (S i) ∧ m_nodes b !! S i = Some nd ∧ node_size nd = m_baseSize b ∧
    cur_of b ((Z.of_nat i + 1) * m_baseSize b) = Some (S i).
Proof.
  intros Hok Hlt. pose proof (ok_base b Hok).
  destruct (locate b ((Z.of_nat i + 1) * m_baseSize b) Hok ltac:(lia))
    as (j & nd & o & Hj & Hnd & _ & Ho & E & Hsz & _).
  destruct (div_unique_nat (m_baseSize b) (S i) j 0 o) as [<- <-]; [lia|done|lia|].
  exists nd. rewrite next_cur_of by done.
  replace (Z.of_nat i * m_baseSize b + m_baseSize b) with ((Z.of_nat i + 1) * m_baseSize b) by lia.
  done.
Qed.

Lemma cur_of_in b i (off : nat) p :
  chain_ok b → (i < length (m_nodes b))%nat → Z.of_nat off < m_baseSize b →
  p = Z.of_nat i * m_baseSize b + Z.of_nat off → cur_of b p = Some i.
Proof.
  intros Hok Hi Ho ->. rewrite cur_of_at by (done || apply Hok). by rewrite decide_True.
Qed.

Lemma read_loop_spec fuel : ∀ n b i (off : nat),
  chain_ok b → 0 < n → m_cur b = Some i →
  m_position b = Z.of_nat i * m_baseSize b + Z.of_nat off → Z.of_nat off < m_baseSize b →
  m_position b + n ≤ m_capacity b → (length (m_nodes b) - i < fuel)%nat →
  read_loop fuel n (Z.of_nat off) (m_baseSize b - Z.of_nat off) b =
    (Ok (take (Z.to_nat n) (drop (Z.to_nat (m_position b)) (contents b))),
     move (m_position b + n) b).
Proof.
  induction fuel as [|fuel IH]; intros n b i off Hok Hn Hcur Hpos Hoff Hfit Hfuel; [lia|].
  pose proof Hok as [Hb _ _ _ Hm Hp Hcu].
  destruct (locate b (m_position b) Hok ltac:(lia)) as (i' & nd & off' & Hi' & Hnd & _ & Ho' & E & Hsz & _).
  destruct (div_unique_nat (m_baseSize b) i' i off' off) as [-> ->]; [done|done|lia|].
  cbn [read_loop]. destruct (Z.leb_spec n 0); [lia|].
  unfold bind at 1, getst. unfold bind at 1, lift at 1. rewrite Hcur. cbn [deref].
  rewrite Hnd. cbn [of_option].
  destruct (Z.leb_spec n (m_baseSize b - Z.of_nat off)).
  - unfold bind at 1, lift. rewrite (load_in_node b i nd off n) by (done || lia).
    unfold bind, putst, ret. rewrite <- E. f_equal. unfold move.
    destruct (Z.eqb_spec (node_size nd) (Z.of_nat off + n)).
    + rewrite (next_cur_of b i) by done. cbn. rewrite wrap_small by lia.
      replace (Z.of_nat i * m_baseSize b + m_baseSize b) with (m_position b + n) by lia. done.
    + rewrite (cur_of_in b i (Z.to_nat (Z.of_nat off + n))); try done; try lia.
      * rewrite wrap_small by lia. unfold with_cur, with_position. cbn. by rewrite Hcur.
      * by apply lookup_lt_Some in Hnd.
  - set (ncap := m_baseSize b - Z.of_nat off) in *.
    unfold bind at 1, lift at 1. rewrite (load_in_node b i nd off ncap) by (done || (subst ncap; lia)).
    rewrite <- E. set (p' := m_position b + ncap).
    destruct (step_to_next b i Hok ltac:(subst ncap; lia)) as (nd2 & Hnext & Hnd2 & Hsz2 & Hco).
    replace ((Z.of_nat i + 1) * m_baseSize b) with p' in Hco by (subst p' ncap; lia).
    match goal with |- context [putst ?x] => assert (x = move p' b) as -> end.
    { cbn. rewrite wrap_small by (subst ncap; lia).
      change (next (with_position p' b) (m_cur b)) with (next b (m_cur b)).
      rewrite Hcur, Hnext. unfold move. by rewrite Hco. }
    unfold bind at 1, putst. unfold bind at 1, lift at 1.
    change (m_cur (move p' b)) with (cur_of b p'). rewrite Hco. cbn [deref].
    change (m_nodes (move p' b)) with (m_nodes b). rewrite Hnd2. cbn [of_option]. rewrite Hsz2.
    unfold bind at 1.
    pose proof (IH (n - ncap) (move p' b) (S i) 0%nat) as HIH.
    change (Z.of_nat 0) with 0 in HIH. rewrite Z.sub_0_r in HIH.
    change (m_baseSize (move p' b)) with (m_baseSize b) in HIH.
    change (m_position (move p' b)) with p' in HIH.
    rewrite HIH; clear HIH IH; try done; try lia.
    + rewrite contents_move, move_move. unfold ret. f_equal; [|f_equal; subst p'; lia]. f_equal.
      replace (Z.to_nat p') with (Z.to_nat (m_position b) + Z.to_nat ncap)%nat by (subst p' ncap; lia).
      rewrite take_drop_add. f_equal. subst ncap; lia.
    + apply move_chain_ok; [done|]. subst p' ncap; lia.
    + change (m_capacity (move p' b)) with (m_capacity b). subst p' ncap; lia.
    + change (m_nodes (move p' b)) with (m_nodes b). apply lookup_lt_Some in Hnd. lia.
Qed.

(** [read n] on a well-formed buffer: the slice at the cursor; [out_of_range]
    past the end; and a null node pointer when the cursor stands at the very
    end of the chain, which only an empty read can reach. *)
Lemma read_spec n b :
  wf b → 0 ≤ n < 2 ^ 64 →
  read n b =
    if decide (m_size b - m_position b < n) then (Throw OutOfRange, b)
    else if decide (m_position b = m_capacity b) then (Undef NullDeref, b)
    else (Ok (take (Z.to_nat n) (drop (Z.to_nat (m_position b)) (data b))),
          move (m_position b + n) b).
Proof.
  intros [Hok [Hs1 Hs2]] Hn. pose proof Hok as [Hb _ _ _ Hm Hp Hcu].
  unfold read, bind at 1, getst, getReadSize. rewrite (wrap_small 64) by lia.
  destruct (decide (m_size b - m_position b < n)) as [Hlt|Hge].
  { destruct (Z.ltb_spec (m_size b - m_position b) n); [done|lia]. }
  destruct (Z.ltb_spec (m_size b - m_position b) n); [lia|].
  destruct (decide (m_position b = m_capacity b)) as [Heq|Hne].
  { unfold bind at 1, lift. rewrite Hcu.
    rewrite (proj2 (cur_of_full b (m_position b) Hok ltac:(lia)) Heq). done. }
  destruct (locate b (m_position b) Hok ltac:(lia)) as (i & nd & off & Hi & Hnd & Hmod & Ho & E & Hsz & _).
  unfold bind at 1, lift. rewrite Hcu, Hi. cbn [deref]. rewrite Hnd. cbn [of_option].
  rewrite Hmod, Hsz, (wrap_small 64) by (pose proof (base_le_cap b Hok); lia).
  destruct (decide (n = 0)) as [->|Hn0].
  - cbn. rewrite take_0, Z.add_0_r. by rewrite move_id.
  - rewrite (read_loop_spec _ n b i off); try done; try lia; [|by rewrite Hcu, Hi].
    do 2 f_equal. unfold data. symmetry. apply take_drop_take. lia.
Qed.
