(* ===== verification/ByteArrayCodec.v ===== *)
(** * Values in a ByteArray

    Every [writeX]/[readX] pair of [ByteArray] is a codec: what the writer
    appends, the reader consumes, and the value comes back.  The interface
    [Codec] states that once; the instances cover fixed-width integers in both
    byte orders, varints, zigzag integers and the string formats. *)
From S2P Require Import Prelude ByteArray ByteArraySpec.

(** ** Bytes ahead of the cursor *)
Definition readable (b : ByteArray) (bs : list Z) : Prop :=
  take (length bs) (drop (Z.to_nat (m_position b)) (data b)) = Some <$> bs.

(** Where the cursor is after [n] more bytes. *)
Definition advance (n : nat) (b : ByteArray) : ByteArray := move (m_position b + Z.of_nat n) b.

Lemma readable_fits b bs :
  wf b → readable b bs → m_position b + Z.of_nat (length bs) ≤ m_size b.
Proof.
  intros Hwf Hr. apply (f_equal length) in Hr.
  rewrite length_take, length_drop, length_fmap in Hr.
  pose proof (data_length b Hwf). destruct Hwf as [[] []]. lia.
Qed.

Lemma move_wf b p : wf b → 0 ≤ p ≤ m_size b → wf (move p b).
Proof.
  intros [Hc [? ?]] ?. split; [apply move_chain_ok; [done|lia]|]. cbn. lia.
Qed.

Lemma advance_wf b bs : wf b → readable b bs → wf (advance (length bs) b).
Proof.
  intros Hwf Hr. pose proof (readable_fits b bs Hwf Hr). apply move_wf; [done|].
  destruct Hwf as [[] ?]. lia.
Qed.

Lemma advance_advance b n m : advance m (advance n b) = advance (n + m) b.
Proof. unfold advance. rewrite move_move. cbn. f_equal. lia. Qed.

Lemma advance_0 b : wf b → advance 0 b = b.
Proof. intros [Hc _]. unfold advance. rewrite Z.add_0_r. by apply move_id. Qed.

Lemma readable_app b bs1 bs2 :
  wf b → readable b (bs1 ++ bs2) → readable b bs1 ∧ readable (advance (length bs1) b) bs2.
Proof.
  intros Hwf Hr. unfold readable in *.
  rewrite length_app, <- take_drop_add, fmap_app in Hr.
  apply (f_equal length) in Hr as Hl. rewrite !length_app, !length_fmap, !length_take, !length_drop in Hl.
  apply app_inj_1 in Hr; [|rewrite length_take, length_drop, length_fmap; lia].
  destruct Hr as [H1 H2]. split; [done|]. rewrite <- H2. cbn. f_equal. f_equal.
  destruct Hwf as [[] ?]. lia.
Qed.

Lemma writes_readable b b' bs :
  wf b → writes bs b b' → readable (move (m_position b) b') bs.
Proof.
  intros Hwf Hw. unfold readable. change (data (move (m_position b) b')) with (data b').
  change (m_position (move (m_position b) b')) with (m_position b).
  pose proof (f_equal buf_data (wr_abs _ _ _ Hw)) as E. cbn in E. rewrite E.
  rewrite <- (length_fmap Some bs). apply take_drop_splice.
  pose proof (data_length b Hwf). destruct Hwf as [[] []]. lia.
Qed.

Lemma writes_position b b' bs :
  wf b → writes bs b b' → m_position b' = m_position b + Z.of_nat (length bs).
Proof.
  intros [[] _] [[[] _] Ha _ _ _ _]. apply (f_equal buf_pos) in Ha. cbn in Ha. lia.
Qed.

Lemma cells_val_some bs : cells_val (Some <$> bs) = Ok bs.
Proof.
  unfold cells_val. replace (mapM id (Some <$> bs)) with (Some bs); [done|].
  induction bs as [|x bs IH]; [done|]. cbn. by rewrite <- IH.
Qed.

Lemma read_bytes_spec b bs n :
  wf b → readable b bs → n = Z.of_nat (length bs) →
  (bs ≠ [] ∨ m_position b < m_capacity b) →
  read_bytes n b = (Ok bs, advance (length bs) b).
Proof.
  intros Hwf Hr -> Hne. pose proof (readable_fits b bs Hwf Hr) as Hf.
  pose proof Hwf as [[] [? ?]].
  unfold read_bytes, bind. rewrite read_spec by (done || lia).
  rewrite decide_False by lia. rewrite decide_False.
  - unfold lift. rewrite Nat2Z.id, Hr, cells_val_some. done.
  - destruct Hne as [Hne|?]; [|lia]. destruct bs; [done|]. cbn [length] in Hf. lia.
Qed.

(** ** [setPosition] *)
Lemma seek_loop_spec b p fuel : ∀ i v,
  chain_ok b → (i < length (m_nodes b))%nat → 0 ≤ v →
  p = Z.of_nat i * m_baseSize b + v → p ≤ m_capacity b →
  (length (m_nodes b) - i < fuel)%nat →
  ∃ j nd v', seek_loop b fuel (Some i) v = Ok (Some j, v') ∧ m_nodes b !! j = Some nd ∧
    node_size nd = m_baseSize b ∧
    0 ≤ v' ≤ m_baseSize b ∧ p = Z.of_nat j * m_baseSize b + v'.
Proof.
  induction fuel as [|fuel IH]; intros i v Hok Hi Hv Hp Hc Hf; [lia|].
  destruct (lookup_lt_is_Some_2 _ _ Hi) as [nd Hnd].
  pose proof Hok as [Hb Hn _ Hcap _ _ _].
  pose proof (proj1 (Forall_lookup _ _) Hn _ _ Hnd) as [Hsz Hlen]. cbn [seek_loop deref].
  rewrite Hnd. cbn [of_option obind]. rewrite Hsz.
  destruct (Z.ltb_spec (m_baseSize b) v); [|exists i, nd, v; repeat split; (done || lia)].
  assert (Z.of_nat (S i) < Z.of_nat (length (m_nodes b))) by nia.
  replace (next b (Some i)) with (Some (S i)).
  2:{ cbn. rewrite decide_True by lia. done. }
  destruct (IH (S i) (v - m_baseSize b)) as (j & nd' & v' & HH); try done; try lia.
  by exists j, nd', v'.
Qed.

Lemma seek_loop_ext b1 b2 :
  m_nodes b1 = m_nodes b2 → ∀ fuel c w, seek_loop b1 fuel c w = seek_loop b2 fuel c w.
Proof.
  intros E. assert (∀ c, deref b1 c = deref b2 c) as Ed by (intros c; unfold deref; by rewrite E).
  assert (∀ c, next b1 c = next b2 c) as En by (intros c; unfold next; by rewrite E).
  induction fuel as [|fuel IH]; intros; [done|]. cbn [seek_loop]. rewrite Ed.
  destruct (deref b2 c); [|done..]. cbn [obind]. by rewrite En, IH.
Qed.

Lemma setPosition_spec b v :
  wf b → 0 ≤ v →
  setPosition v b =
    if decide (v ≤ m_capacity b)
    then (Ok tt, move v (with_size (Z.max v (m_size b)) b))
    else (Throw OutOfRange, b).
Proof.
  intros [Hok [Hs1 Hs2]] Hv. pose proof Hok as [Hb Hn Hr Hc Hm Hp Hcu].
  unfold setPosition, bind at 1, getst.
  destruct (Z.ltb_spec (m_capacity b) v); [by rewrite decide_False by lia|].
  rewrite decide_True by lia. unfold bind at 1, putst. unfold bind at 1, modst at 1.
  unfold bind at 1, modst. cbn beta.
  match goal with |- context [with_cur (Some 0%nat) ?x] =>
    assert (x = with_position v (with_size (Z.max v (m_size b)) b)) as -> end.
  { cbn. destruct (Z.ltb_spec (m_size b) v).
    - rewrite Z.max_l by lia. done.
    - rewrite Z.max_r by lia. by destruct b. }
  set (b1 := with_cur (Some 0%nat) _).
  unfold bind at 1. unfold bind at 1. unfold lift at 1.
  pose (b2 := move v (with_size (Z.max v (m_size b)) b)).
  assert (chain_ok b2) as Hok2.
  { apply move_chain_ok; [destruct Hok; by split|]. cbn. lia. }
  pose proof (seek_loop_ext b1 b2 eq_refl) as Eseek.
  rewrite Eseek. change (m_cur b1) with (Some 0%nat).
  destruct (seek_loop_spec b2 v (S (length (m_nodes b1))) 0 v) as (j & nd & v' & Hrun & Hnd & Hsz & Hv' & E);
    try done; try lia.
  { cbn. destruct (m_nodes b); [done|]. cbn. lia. }
  { cbn. lia. }
  rewrite Hrun. cbn [fst snd]. unfold bind, lift. cbn [deref].
  change (m_nodes b1) with (m_nodes b2). rewrite Hnd. cbn [of_option]. rewrite Hsz.
  assert ((if v' =? m_baseSize b2 then next b1 (Some j) else Some j) = cur_of b v) as ->; [|done].
  change (m_baseSize b2) with (m_baseSize b) in *. change (m_nodes b2) with (m_nodes b) in *.
  apply lookup_lt_Some in Hnd. destruct (Z.eqb_spec v' (m_baseSize b)) as [->|].
  - rewrite E. apply (next_cur_of b j). done.
  - symmetry. apply (cur_of_in b j (Z.to_nat v')); try done; lia.
Qed.

(** ** The interface

    [enc] is the wire format, [dom] the values that survive the trip, and
    [solid] the values whose encoding is read without needing a node at the
    cursor once it is consumed: reading an empty tail at the very end of the
    chain dereferences the null cursor ([read_spec]). *)
Class Codec {A} (wr : A → M ByteArray unit) (rd : M ByteArray A)
    (enc : endianness → A → list Z) (dom solid : A → Prop) : Prop := {
  codec_write b a :
    wf b → dom a → room b (Z.of_nat (length (enc (m_endian b) a))) →
    ∃ b', wr a b = (Ok tt, b') ∧ writes (enc (m_endian b) a) b b';
  codec_read b a :
    wf b → dom a → readable b (enc (m_endian b) a) →
    (solid a ∨ m_position b + Z.of_nat (length (enc (m_endian b) a)) < m_capacity b) →
    rd b = (Ok a, advance (length (enc (m_endian b) a)) b)
}.

(** Running a writer that computes its bytes first. *)
Lemma write_codec_write b bs : wf b → room b (Z.of_nat (length bs)) →
  ∃ b', write bs b = (Ok tt, b') ∧ writes bs b b'.
Proof. apply write_spec. Qed.

(** Two writers in a row. *)
Lemma writes_bind (m1 m2 : M ByteArray unit) bs1 bs2 b :
  wf b → room b (Z.of_nat (length (bs1 ++ bs2))) →
  (room b (Z.of_nat (length bs1)) → ∃ b1, m1 b = (Ok tt, b1) ∧ writes bs1 b b1) →
  (∀ b1, wf b1 → m_endian b1 = m_endian b → room b1 (Z.of_nat (length bs2)) →
     ∃ b2, m2 b1 = (Ok tt, b2) ∧ writes bs2 b1 b2) →
  ∃ b2, (m1 ;;! m2) b = (Ok tt, b2) ∧ writes (bs1 ++ bs2) b b2.
Proof.
  intros Hwf Hroom H1 H2. rewrite length_app, Nat2Z.inj_add in Hroom.
  destruct H1 as (b1 & E1 & W1). { unfold room in *; lia. }
  destruct (H2 b1) as (b2 & E2 & W2).
  { apply W1. } { apply W1. } { by apply (wr_room _ _ _ W1). }
  exists b2. split; [by mstep E1|]. by eapply writes_app.
Qed.

(** *** Pairs *)
Definition write_pair {A B} (wa : A → M ByteArray unit) (wb : B → M ByteArray unit)
    (p : A * B) : M ByteArray unit := wa (p.1) ;;! wb (p.2).
Definition read_pair {A B} (ra : M ByteArray A) (rb : M ByteArray B) : M ByteArray (A * B) :=
  let! a := ra in let! b := rb in ret (a, b).

#[export] Instance pair_codec {A B} wa ra ea (da sa : A → Prop) wb rb eb (db sb : B → Prop)
    `{!Codec wa ra ea da sa} `{!Codec wb rb eb db sb} :
  Codec (write_pair wa wb) (read_pair ra rb) (λ e p, ea e (p.1) ++ eb e (p.2))
    (λ p, da (p.1) ∧ db (p.2)) (λ p, sa (p.1) ∧ sb (p.2)).
Proof.
  split; intros b [x y] Hwf [Hx Hy]; cbn [fst snd] in *.
  - intros Hroom. apply writes_bind; [done|done| |].
    + intros ?. by apply codec_write.
    + intros b1 Hwf1 <- Hroom1. by apply codec_write.
  - intros Hr Hs. destruct (readable_app _ _ _ Hwf Hr) as [H1 H2].
    rewrite length_app in *. rewrite Nat2Z.inj_add in Hs.
    assert (wf (advance (length (ea (m_endian b) x)) b)) as Hwf1 by by apply advance_wf.
    unfold read_pair. mstep (codec_read (wr := wa) b x).
    + mstep (codec_read (wr := wb) (advance (length (ea (m_endian b) x)) b) y).
      * unfold ret. cbn [m_endian]. f_equal. apply advance_advance.
      * destruct Hs as [[_ ?]|?]; [by left|right]. cbn. lia.
    + destruct Hs as [[? _]|?]; [by left|right]. lia.
Qed.

(** *** Fixed-width integers *)
Definition enc_uint (n : nat) (e : endianness) (v : Z) : list Z :=
  match e with LITTLE_ENDIAN => le_bytes n v | BIG_ENDIAN => rev (le_bytes n v) end.

Lemma enc_uint_length n e v : length (enc_uint n e v) = n.
Proof. destruct e; cbn; by rewrite ?length_rev, le_bytes_length. Qed.

Lemma host_order_eq b : host_order b = match m_endian b with LITTLE_ENDIAN => true | _ => false end.
Proof. unfold host_order, HELENS_BYTE_ORDER. by destruct (m_endian b). Qed.

Lemma le_bytes_wrap n z : le_bytes n (wrap (8 * Z.of_nat n) z) = le_bytes n z.
Proof.
  rewrite <- le_val_bytes. rewrite <- (le_bytes_length n z) at 1.
  apply le_bytes_val, le_bytes_ok.
Qed.

Lemma le_bytes_to_signed n z : (0 < n)%nat → le_bytes n (to_signed (8 * Z.of_nat n) z) = le_bytes n z.
Proof. intros. rewrite <- le_bytes_wrap, wrap_to_signed, le_bytes_wrap by lia. done. Qed.

Lemma enc_uint_nonnil n e v : (0 < n)%nat → enc_uint n e v ≠ [].
Proof. intros Hn E. apply (f_equal length) in E. rewrite enc_uint_length in E. cbn in E. lia. Qed.

Lemma read_enc_uint n b v :
  (0 < n)%nat → wf b → readable b (enc_uint n (m_endian b) v) →
  read_bytes (Z.of_nat n) b =
    (Ok (enc_uint n (m_endian b) v), advance (length (enc_uint n (m_endian b) v)) b).
Proof.
  intros. apply read_bytes_spec; try done; [by rewrite enc_uint_length|].
  left. by apply enc_uint_nonnil.
Qed.

#[export] Instance writeFuint_codec n : (0 < n)%nat →
  Codec (writeFuint n) (readFuint n) (enc_uint n) (is_uint (8 * Z.of_nat n)) (λ _, True).
Proof.
  intros Hn. split; intros b v Hwf Hv.
  - intros Hroom. unfold writeFuint, bind, getst. rewrite host_order_eq. unfold byteswap.
    destruct (m_endian b) eqn:?; rewrite ?bswap_bytes; by apply write_spec.
  - intros Hr _. unfold readFuint. mstep (read_enc_uint n b v).
    unfold bind, getst, ret. rewrite host_order_eq. change (m_endian (advance _ b)) with (m_endian b).
    f_equal. f_equal. unfold byteswap. destruct (m_endian b); cbn [enc_uint].
    + rewrite le_val_bytes. by apply wrap_small.
    + change (le_val (rev (le_bytes n v))) with (bswap n v). rewrite bswap_involutive.
      by apply wrap_small.
Qed.

#[export] Instance writeFint_codec n : (0 < n)%nat →
  Codec (writeFint n) (readFint n) (enc_uint n) (is_sint (8 * Z.of_nat n)) (λ _, True).
Proof.
  intros Hn. split; intros b v Hwf Hv.
  - intros Hroom. unfold writeFint, bind, getst. rewrite host_order_eq. unfold sbyteswap.
    destruct (m_endian b) eqn:?; [by apply write_spec|].
    rewrite le_bytes_to_signed, bswap_bytes, le_bytes_wrap by lia. by apply write_spec.
  - intros Hr _. unfold readFint. mstep (read_enc_uint n b v).
    unfold bind, getst, ret. rewrite host_order_eq. change (m_endian (advance _ b)) with (m_endian b).
    f_equal. f_equal. unfold sbyteswap. destruct (m_endian b); cbn [enc_uint].
    + rewrite le_val_bytes. rewrite <- (to_signed_wrap (8 * Z.of_nat n) v) at 2 by (done || lia).
      unfold to_signed. by rewrite wrap_wrap by lia.
    + change (le_val (rev (le_bytes n v))) with (bswap n v).
      rewrite wrap_to_signed by lia. rewrite (wrap_small _ (bswap n v)) by apply bswap_bound.
      rewrite bswap_involutive. by apply to_signed_wrap; [lia|].
Qed.

Lemma writeFuint8_eq v b : writeFuint8 v b = write (enc_uint 1 (m_endian b) v) b.
Proof. unfold writeFuint8. by destruct (m_endian b). Qed.

#[export] Instance writeFuint8_codec :
  Codec writeFuint8 readFuint8 (enc_uint 1) (is_uint 8) (λ _, True).
Proof.
  split; intros b v Hwf Hv.
  - rewrite writeFuint8_eq. by apply write_spec.
  - intros Hr _. unfold readFuint8. mstep (read_enc_uint 1 b v); [|lia]. unfold ret. do 2 f_equal.
    destruct (m_endian b); cbn; rewrite wrap_small by done; lia.
Qed.

#[export] Instance writeFint8_codec :
  Codec writeFint8 readFint8 (enc_uint 1) (is_sint 8) (λ _, True).
Proof.
  split; intros b v Hwf Hv.
  - change writeFint8 with writeFuint8. rewrite writeFuint8_eq. by apply write_spec.
  - intros Hr _. unfold readFint8. mstep (read_enc_uint 1 b v); [|lia]. unfold ret. do 2 f_equal.
    destruct (m_endian b); cbn; rewrite Z.add_0_r; by apply (to_signed_wrap 8 v).
Qed.

(** *** Varints *)
Lemma split7 v : 0 ≤ v → Z.lor (Z.land v 127) (Z.shiftl (Z.shiftr v 7) 7) = v.
Proof.
  intros. change 127 with (Z.ones 7). rewrite <- Z.ldiff_ones_r by lia.
  rewrite Z.lor_comm. apply Z.lor_ldiff_and.
Qed.

Lemma split7_at v i : 0 ≤ v → 0 ≤ i →
  Z.lor (Z.shiftl (Z.land v 127) i) (Z.shiftl (Z.shiftr v 7) (i + 7)) = Z.shiftl v i.
Proof.
  intros. rewrite (Z.add_comm i 7), <- Z.shiftl_shiftl by lia.
  rewrite <- Z.shiftl_lor. by rewrite split7.
Qed.

Lemma land127_bound v : 0 ≤ Z.land v 127 < 128.
Proof. change 127 with (Z.ones 7). rewrite Z.land_ones by lia. by apply Z.mod_pos_bound. Qed.

(** The continuation byte, and its payload. *)
Lemma cont_byte x : 0 ≤ x < 128 → Z.lor x 128 = x + 128 ∧ Z.land (Z.lor x 128) 127 = x.
Proof.
  intros Hx. assert (Z.land x 128 = 0) as Hl.
  { apply Z.bits_inj'. intros k Hk. rewrite Z.land_spec, Z.bits_0.
    destruct (decide (k = 7)) as [->|].
    - rewrite andb_false_iff. left. destruct (decide (x = 0)) as [->|]; [done|].
      apply Z.bits_above_log2; [lia|]. apply Z.log2_lt_pow2; lia.
    - rewrite andb_false_iff. right. change 128 with (2 ^ 7). by apply Z.pow2_bits_false. }
  rewrite <- Z.add_nocarry_lor by done. split; [done|].
  change 127 with (Z.ones 7). rewrite Z.land_ones by lia.
  replace (x + 128) with (x + 1 * 2 ^ 7) by lia. rewrite Z.mod_add by lia. by apply Z.mod_small.
Qed.

Lemma shiftr7_bound v k : 0 ≤ v < 2 ^ (7 + k) → 0 ≤ k → 0 ≤ Z.shiftr v 7 < 2 ^ k.
Proof.
  intros Hv Hk. rewrite Z.shiftr_div_pow2 by lia. rewrite Z.pow_add_r in Hv by lia.
  split; [apply Z.div_pos; lia|]. apply Z.div_lt_upper_bound; lia.
Qed.

Lemma varint_bytes_ok fuel : ∀ v, 0 ≤ v < 2 ^ (7 * Z.of_nat fuel) →
  (0 < fuel)%nat →
  ∃ bs, varint_bytes fuel v = Ok bs ∧ bytes_ok bs ∧ (0 < length bs ≤ fuel)%nat.
Proof.
  induction fuel as [|fuel IH]; intros v Hv Hf; [lia|]. cbn [varint_bytes].
  destruct (Z.leb_spec 128 v).
  - destruct (decide (fuel = 0%nat)) as [->|]; [change (2 ^ (7 * Z.of_nat 1)) with 128 in Hv; lia|].
    destruct (IH (Z.shiftr v 7)) as (bs & -> & Hok & Hl); [|lia|].
    { apply shiftr7_bound; [|lia]. by replace (7 + 7 * Z.of_nat fuel) with (7 * Z.of_nat (S fuel)) by lia. }
    cbn [obind]. eexists; split; [done|]. split; [|cbn [length]; lia]. constructor; [|done].
    pose proof (land127_bound v) as Hx. rewrite (proj1 (cont_byte _ Hx)).
    unfold is_byte, is_uint. lia.
  - eexists; split; [done|]. split; [|cbn; lia]. constructor; [|done]. unfold is_byte, is_uint. lia.
Qed.

Lemma read_uint8_at b x bs :
  wf b → readable b (x :: bs) → is_byte x →
  readFuint8 b = (Ok x, advance 1 b) ∧ readable (advance 1 b) bs.
Proof.
  intros Hwf Hr Hx. destruct (readable_app b [x] bs Hwf Hr) as [H1 H2]. split; [|done].
  assert (enc_uint 1 (m_endian b) x = [x]) as E.
  { destruct (m_endian b); cbn; by rewrite wrap_small by done. }
  pose proof (codec_read (rd := readFuint8) b x) as Hc. rewrite E in Hc.
  apply Hc; try done. by left.
Qed.

Lemma read_varint_spec w fuel : ∀ v bs b i acc iters,
  varint_bytes fuel v = Ok bs → bytes_ok bs → 0 ≤ v → 0 ≤ i → v * 2 ^ i < 2 ^ w →
  wf b → readable b bs → (length bs ≤ iters)%nat →
  read_varint w iters i acc b = (Ok (Z.lor acc (Z.shiftl v i)), advance (length bs) b).
Proof.
  induction fuel as [|fuel IH]; intros v bs b i acc iters; [done|]. cbn [varint_bytes].
  intros Hbs Hok Hv Hi Hw Hwf Hr Hit.
  pose proof (land127_bound v) as Hland.
  destruct (Z.leb_spec 128 v).
  - destruct (varint_bytes fuel (Z.shiftr v 7)) as [bs'| | |] eqn:E; [|done..].
    injection Hbs as <-. destruct iters as [|iters]; cbn [length] in Hit; [lia|].
    apply Forall_cons in Hok as [Hx Hok]. cbn [read_varint].
    destruct (read_uint8_at _ _ _ Hwf Hr Hx) as [Hrd Hr'].
    mstep Hrd. destruct (cont_byte _ Hland) as [E1 E2]. rewrite E2.
    destruct (Z.ltb_spec (Z.lor (Z.land v 127) 128) 128); [lia|].
    rewrite wrap_small.
    2:{ rewrite Z.shiftl_mul_pow2 by lia.
        assert (Z.land v 127 ≤ v) by (change 127 with (Z.ones 7); rewrite Z.land_ones by lia; apply Z.mod_le; lia).
        assert (0 < 2 ^ i) by (apply Z.pow_pos_nonneg; lia). nia. }
    rewrite (IH (Z.shiftr v 7) bs').
    + rewrite advance_advance, <- Z.lor_assoc, split7_at by lia. done.
    + done.
    + done.
    + apply Z.shiftr_nonneg; lia.
    + lia.
    + rewrite Z.shiftr_div_pow2, Z.pow_add_r by lia.
      pose proof (Z.mul_div_le v (2 ^ 7) ltac:(lia)).
      assert (0 < 2 ^ i) by (apply Z.pow_pos_nonneg; lia). nia.
    + apply (advance_wf b [Z.lor (Z.land v 127) 128]); [done|]. by apply (readable_app b [_] bs').
    + done.
    + lia.
  - injection Hbs as <-. destruct iters as [|iters]; cbn [length] in Hit; [lia|].
    apply Forall_cons in Hok as [Hx Hok]. cbn [read_varint].
    destruct (read_uint8_at _ _ _ Hwf Hr Hx) as [Hrd Hr'].
    mstep Hrd. destruct (Z.ltb_spec v 128); [|lia]. unfold ret. do 3 f_equal.
    rewrite Z.shiftl_mul_pow2 by lia. apply wrap_small.
    assert (0 < 2 ^ i) by (apply Z.pow_pos_nonneg; lia). nia.
Qed.

(** The wire format of an unsigned varint, at most [fuel] bytes long. *)
Definition enc_varint (fuel : nat) (_ : endianness) (v : Z) : list Z :=
  match varint_bytes fuel v with Ok bs => bs | _ => [] end.

Lemma varint_codec w fuel (wr : Z → M ByteArray unit) rd :
  0 < w ≤ 7 * Z.of_nat fuel →
  (∀ v, run_eq (wr v) (let! tmp := lift (varint_bytes fuel v) in write tmp)) →
  run_eq rd (read_varint w fuel 0 0) →
  Codec wr rd (enc_varint fuel) (is_uint w) (λ _, True).
Proof.
  intros Hw Hwr Hrd.
  assert (∀ v, is_uint w v → ∃ bs, varint_bytes fuel v = Ok bs ∧ bytes_ok bs ∧
                                     (0 < length bs ≤ fuel)%nat) as Hv.
  { intros v Hv. apply varint_bytes_ok; [|lia]. unfold is_uint in Hv.
    pose proof (Z.pow_le_mono_r 2 w (7 * Z.of_nat fuel)). lia. }
  split; intros b v Hwf Hd; destruct (Hv v Hd) as (bs & E & Hok & Hl); unfold enc_varint; rewrite E.
  - intros Hroom. rewrite (Hwr v b). unfold bind, lift. rewrite E. by apply write_spec.
  - intros Hr _. rewrite (Hrd b). rewrite (read_varint_spec w fuel v bs); try done; unfold is_uint in *; try lia.
Qed.

#[export] Instance writeUint32_codec :
  Codec writeUint32 readUint32 (enc_varint 5) (is_uint 32) (λ _, True).
Proof. by apply varint_codec. Qed.
#[export] Instance writeUint64_codec :
  Codec writeUint64 readUint64 (enc_varint 10) (is_uint 64) (λ _, True).
Proof. by apply varint_codec. Qed.

(** *** Zigzag integers *)
(** The values [EncodeZigzag] computes without leaving its signed type. *)
Definition zigzag_dom (w v : Z) : Prop := - 2 ^ (w - 1) < v < 2 ^ (w - 2).
Definition zigzag (v : Z) : Z := if v <? 0 then - 2 * v - 1 else 2 * v.

Lemma pow_split w : 1 < w → 2 ^ w = 4 * 2 ^ (w - 2) ∧ 2 ^ (w - 1) = 2 * 2 ^ (w - 2) ∧ 0 < 2 ^ (w - 2).
Proof.
  intros. assert (2 ^ w = 2 ^ (2 + (w - 2))) as -> by (f_equal; lia).
  assert (2 ^ (w - 1) = 2 ^ (1 + (w - 2))) as -> by (f_equal; lia).
  rewrite !Z.pow_add_r by lia. repeat split; try lia.
Qed.

Lemma zigzag_bound w v : 1 < w → zigzag_dom w v → is_uint w (zigzag v).
Proof.
  unfold zigzag_dom, zigzag, is_uint. intros Hw Hv. destruct (pow_split w Hw) as (? & ? & ?).
  destruct (Z.ltb_spec v 0); lia.
Qed.

Lemma EncodeZigzag_spec w v : 1 < w → zigzag_dom w v → EncodeZigzag w v = Ok (zigzag v).
Proof.
  intros Hw Hv. pose proof (zigzag_bound w v Hw Hv) as Hb. unfold EncodeZigzag, zigzag in *.
  unfold zigzag_dom in Hv. destruct (pow_split w Hw) as (? & ? & ?). unfold is_uint in Hb.
  unfold signed_arith. destruct (Z.ltb_spec v 0).
  - rewrite decide_True by (unfold is_sint; lia). cbn [obind].
    rewrite (wrap_small w (- v)) by lia. rewrite wrap_small by lia. f_equal. lia.
  - rewrite decide_True by (unfold is_sint; lia). cbn [obind].
    rewrite wrap_small by lia. f_equal. lia.
Qed.

(** Flipping all the bits of a [w]-bit value. *)
Lemma lxor_ones w x : 0 ≤ w → 0 ≤ x < 2 ^ w → Z.lxor x (Z.ones w) = 2 ^ w - 1 - x.
Proof.
  intros Hw Hx.
  assert (Z.ldiff x (Z.ones w) = 0) as Hl.
  { rewrite Z.ldiff_ones_r by lia. rewrite Z.shiftr_div_pow2, Z.div_small by lia. apply Z.shiftl_0_l. }
  replace (2 ^ w - 1) with (Z.ones w) by (rewrite Z.ones_equiv; lia).
  rewrite Z.sub_nocarry_ldiff by done. apply Z.bits_inj'. intros k Hk.
  apply (f_equal (λ z, Z.testbit z k)) in Hl.
  rewrite Z.ldiff_spec, Z.bits_0 in Hl. rewrite Z.lxor_spec, Z.ldiff_spec.
  by destruct (Z.testbit x k), (Z.testbit (Z.ones w) k).
Qed.

Lemma DecodeZigzag_zigzag w v : 1 < w → zigzag_dom w v → DecodeZigzag w (zigzag v) = v.
Proof.
  intros Hw Hv. unfold DecodeZigzag, zigzag, zigzag_dom in *.
  destruct (pow_split w Hw) as (Hp & Hp1 & ?).
  assert (is_sint w v) as Hs by (unfold is_sint; lia).
  destruct (Z.ltb_spec v 0).
  - assert (Z.shiftr (- 2 * v - 1) 1 = - v - 1) as ->.
    { rewrite Z.shiftr_div_pow2 by lia. symmetry. apply (Z.div_unique _ _ _ 1); lia. }
    assert (Z.land (- 2 * v - 1) 1 = 1) as ->.
    { change 1 with (Z.ones 1) at 2. rewrite Z.land_ones by lia.
      symmetry. apply (Z.mod_unique _ _ (- v - 1)); lia. }
    change (- (1)) with (-1).
    assert (wrap w (-1) = Z.ones w) as ->.
    { rewrite Z.ones_equiv. unfold wrap. symmetry. apply (Z.mod_unique _ _ (-1)); lia. }
    rewrite lxor_ones by lia. rewrite <- (to_signed_wrap w v) at 2 by (done || lia).
    unfold to_signed. rewrite !wrap_wrap by lia.
    replace (wrap w (2 ^ w - 1 - (- v - 1))) with (wrap w v); [done|].
    unfold wrap. replace (2 ^ w - 1 - (- v - 1)) with (v + 1 * 2 ^ w) by lia.
    by rewrite Z.mod_add by lia.
  - assert (Z.shiftr (2 * v) 1 = v) as ->.
    { rewrite Z.shiftr_div_pow2 by lia. symmetry. apply (Z.div_unique _ _ _ 0); lia. }
    assert (Z.land (2 * v) 1 = 0) as ->.
    { change 1 with (Z.ones 1) at 1. rewrite Z.land_ones by lia.
      symmetry. apply (Z.mod_unique _ _ v); lia. }
    rewrite wrap_small, Z.lxor_0_r by lia.
    rewrite <- (to_signed_wrap w v) at 2 by (done || lia). by rewrite wrap_small by lia.
Qed.

Lemma zigzag_codec w fuel (wr : Z → M ByteArray unit) rd uwr urd :
  1 < w → Codec uwr urd (enc_varint fuel) (is_uint w) (λ _, True) →
  (∀ v, run_eq (wr v) (let! u := lift (EncodeZigzag w v) in uwr u)) →
  run_eq rd (let! v := urd in ret (DecodeZigzag w v)) →
  Codec wr rd (λ e v, enc_varint fuel e (zigzag v)) (zigzag_dom w) (λ _, True).
Proof.
  intros Hw Hc Hwr Hrd. split; intros b v Hwf Hv; pose proof (zigzag_bound w v Hw Hv).
  - intros Hroom. rewrite (Hwr v b). unfold bind, lift. rewrite EncodeZigzag_spec by done.
    by apply Hc.
  - intros Hr Hs. rewrite (Hrd b). mstep (codec_read (Codec := Hc) b (zigzag v)).
    unfold ret. by rewrite DecodeZigzag_zigzag.
Qed.

#[export] Instance writeInt32_codec :
  Codec writeInt32 readInt32 (λ e v, enc_varint 5 e (zigzag v)) (zigzag_dom 32) (λ _, True).
Proof. by apply (zigzag_codec 32 5 _ _ writeUint32 readUint32); try apply _. Qed.
#[export] Instance writeInt64_codec :
  Codec writeInt64 readInt64 (λ e v, enc_varint 10 e (zigzag v)) (zigzag_dom 64) (λ _, True).
Proof. by apply (zigzag_codec 64 10 _ _ writeUint64 readUint64); try apply _. Qed.

(** *** Length-prefixed strings *)
Definition enc_string (el : endianness → Z → list Z) (e : endianness) (s : list Z) : list Z :=
  el e (Z.of_nat (length s)) ++ s.
(** The length fits the [w]-bit prefix, and the string its type. *)
Definition string_dom (w : Z) (s : list Z) : Prop := Z.of_nat (length s) < 2 ^ w ∧ Z.of_nat (length s) < 2 ^ 63.

Lemma string_codec w wl rl el sl (ws : list Z → M ByteArray unit) rs :
  0 ≤ w → Codec wl rl el (is_uint w) sl → (∀ v, sl v) →
  (∀ s, run_eq (ws s) (wl (wrap w (Z.of_nat (length s))) ;;! write s)) →
  run_eq rs (let! len := rl in read_string len) →
  Codec ws rs (enc_string el) (string_dom w) (λ s, s ≠ []).
Proof.
  intros Hw Hc Hsl Hws Hrs. split; intros b s Hwf [Hs Hs63]; unfold enc_string in *.
  all: assert (is_uint w (Z.of_nat (length s))) as Hu by (unfold is_uint; lia).
  - intros Hroom. rewrite (Hws s b), wrap_small by done.
    apply writes_bind; [done|done| |].
    + intros ?. by apply Hc.
    + intros b1 Hwf1 _ Hroom1. by apply write_spec.
  - intros Hr Hsol. rewrite (Hrs b). destruct (readable_app _ _ _ Hwf Hr) as [H1 H2].
    mstep (codec_read (Codec := Hc) b (Z.of_nat (length s))); [|by left].
    unfold read_string. rewrite (proj2 (Z.leb_gt _ _)) by done. rewrite (read_bytes_spec _ s); try done.
    + by rewrite length_app, advance_advance.
    + by apply advance_wf.
    + rewrite length_app in Hsol. destruct Hsol as [?|?]; [by left|right]. cbn. lia.
Qed.

#[export] Instance writeStringF16_codec :
  Codec writeStringF16 readStringF16 (enc_string (enc_uint 2)) (string_dom 16) (λ s, s ≠ []).
Proof. eapply (string_codec 16 _ _ (enc_uint 2)); [lia|apply (writeFuint_codec 2); lia|done..]. Qed.
#[export] Instance writeStringF32_codec :
  Codec writeStringF32 readStringF32 (enc_string (enc_uint 4)) (string_dom 32) (λ s, s ≠ []).
Proof. eapply (string_codec 32 _ _ (enc_uint 4)); [lia|apply (writeFuint_codec 4); lia|done..]. Qed.
#[export] Instance writeStringF64_codec :
  Codec writeStringF64 readStringF64 (enc_string (enc_uint 8)) (string_dom 64) (λ s, s ≠ []).
Proof. eapply (string_codec 64 _ _ (enc_uint 8)); [lia|apply (writeFuint_codec 8); lia|done..]. Qed.
#[export] Instance writeStringVint_codec :
  Codec writeStringVint readStringVint (enc_string (enc_varint 10)) (string_dom 64) (λ s, s ≠ []).
Proof. eapply (string_codec 64 _ _ (enc_varint 10)); [lia|apply writeUint64_codec|done..]. Qed.
