(* ===== verification/ByteArrayBulk.v ===== *)
(** * Bulk access to a ByteArray

    [toString], the [iovec] lists handed to scatter/gather system calls, and
    [writeToFile]: each must name exactly the unread bytes, in order, and leave
    the cursor alone. *)
From S2P Require Import Prelude ByteArray ByteArraySpec ByteArrayCodec.

(** The [n] bytes of the chain from position [p] on. *)
Definition slice (b : ByteArray) (p n : Z) : list cell :=
  take (Z.to_nat n) (drop (Z.to_nat p) (contents b)).

(** The memory an [iovec] designates. *)
Definition iov_cells (b : ByteArray) (v : iovec) : list cell :=
  match m_nodes b !! iov_node v with
  | Some nd => take (Z.to_nat (iov_len v)) (drop (Z.to_nat (iov_off v)) (ptr nd))
  | None => []
  end.
Definition gather (b : ByteArray) (l : list iovec) : list cell := l ≫= iov_cells b.

(** Every entry lies within its node. *)
Definition iov_ok (b : ByteArray) (v : iovec) : Prop :=
  0 ≤ iov_off v ∧ 0 < iov_len v ∧ iov_off v + iov_len v ≤ m_baseSize b ∧
  (iov_node v < length (m_nodes b))%nat.

Lemma slice_app b p n m : 0 ≤ p → 0 ≤ n → 0 ≤ m → slice b p n ++ slice b (p + n) m = slice b p (n + m).
Proof.
  intros. unfold slice. rewrite Z2Nat.inj_add by lia. rewrite take_drop_add. f_equal. lia.
Qed.

Lemma slice_unread b :
  wf b → slice b (m_position b) (m_size b - m_position b) = drop (Z.to_nat (m_position b)) (data b).
Proof.
  intros [[] [? ?]]. unfold slice, data. rewrite skipn_firstn_comm. f_equal. lia.
Qed.

Lemma iov_cells_at b i nd (off : nat) n :
  chain_ok b → m_nodes b !! i = Some nd → 0 ≤ n → Z.of_nat off + n ≤ m_baseSize b →
  iov_cells b (mkIovec i (Z.of_nat off) n) = slice b (Z.of_nat i * m_baseSize b + Z.of_nat off) n.
Proof.
  intros Hok Hnd Hn Hoff. pose proof (load_in_node b i nd off n Hok Hnd Hn Hoff) as E.
  unfold node_load in E. destruct (decide _); [|done]. injection E as E.
  unfold iov_cells. cbn. rewrite Hnd. done.
Qed.

Lemma iov_loop_spec b fuel : ∀ n i (off : nat),
  chain_ok b → 0 < n → (i < length (m_nodes b))%nat → Z.of_nat off < m_baseSize b →
  Z.of_nat i * m_baseSize b + Z.of_nat off + n ≤ m_capacity b →
  (length (m_nodes b) - i < fuel)%nat →
  ∃ l, iov_loop b fuel (Some i) n (Z.of_nat off) (m_baseSize b - Z.of_nat off) = Ok l ∧
    Forall (iov_ok b) l ∧ foldr Z.add 0 (iov_len <$> l) = n ∧
    gather b l = slice b (Z.of_nat i * m_baseSize b + Z.of_nat off) n.
Proof.
  induction fuel as [|fuel IH]; intros n i off Hok Hn Hi Hoff Hfit Hf; [lia|].
  pose proof Hok as [Hb _ _ Hcap _ _ _].
  destruct (lookup_lt_is_Some_2 _ _ Hi) as [nd Hnd].
  cbn [iov_loop]. destruct (Z.leb_spec n 0); [lia|]. cbn [default].
  destruct (Z.leb_spec n (m_baseSize b - Z.of_nat off)).
  - eexists; split; [done|]. split; [|split].
    + constructor; [|done]. unfold iov_ok. cbn. lia.
    + cbn. lia.
    + unfold gather. cbn. rewrite app_nil_r. apply (iov_cells_at b i nd); (done || lia).
  - set (ncap := m_baseSize b - Z.of_nat off) in *.
    destruct (step_to_next b i Hok ltac:(subst ncap; lia)) as (nd2 & Hnext & Hnd2 & Hsz2 & _).
    rewrite Hnext. cbn [deref]. rewrite Hnd2. cbn [of_option obind]. rewrite Hsz2.
    destruct (IH (n - ncap) (S i) 0%nat) as (l & Hl & Hall & Hsum & Hg); try done; try lia.
    { by apply lookup_lt_Some in Hnd2. }
    change (Z.of_nat 0) with 0 in Hl. rewrite Z.sub_0_r in Hl. rewrite Hl. cbn [obind].
    eexists; split; [done|]. split; [|split].
    + constructor; [|done]. unfold iov_ok. cbn. lia.
    + cbn [fmap list_fmap foldr]. cbn in Hsum |- *. rewrite Hsum. lia.
    + unfold gather in *. rewrite bind_cons, Hg, (iov_cells_at b i nd) by (done || lia).
      replace (Z.of_nat (S i) * m_baseSize b + Z.of_nat 0)
        with (Z.of_nat i * m_baseSize b + Z.of_nat off + ncap) by (subst ncap; lia).
      rewrite slice_app by lia. f_equal. lia.
Qed.

(** The const read walks like the cursor read, when it starts at the cursor. *)
Lemma read_at_loop_spec b fuel : ∀ n i (off : nat),
  chain_ok b → 0 < n → (i < length (m_nodes b))%nat → Z.of_nat off < m_baseSize b →
  Z.of_nat i * m_baseSize b + Z.of_nat off + n ≤ m_capacity b →
  (length (m_nodes b) - i < fuel)%nat →
  read_at_loop b fuel (Some i) n (Z.of_nat off) (m_baseSize b - Z.of_nat off) =
    Ok (slice b (Z.of_nat i * m_baseSize b + Z.of_nat off) n).
Proof.
  induction fuel as [|fuel IH]; intros n i off Hok Hn Hi Hoff Hfit Hf; [lia|].
  pose proof Hok as [Hb _ _ Hcap _ _ _].
  destruct (lookup_lt_is_Some_2 _ _ Hi) as [nd Hnd].
  pose proof (proj1 (Forall_lookup _ _) (ok_nodes b Hok) _ _ Hnd) as [Hsz _].
  cbn [read_at_loop]. destruct (Z.leb_spec n 0); [lia|]. cbn [deref].
  rewrite Hnd. cbn [of_option obind].
  destruct (Z.leb_spec n (m_baseSize b - Z.of_nat off)).
  - by rewrite (load_in_node b i nd off n) by (done || lia).
  - set (ncap := m_baseSize b - Z.of_nat off) in *.
    rewrite (load_in_node b i nd off ncap) by (done || lia). cbn [obind].
    destruct (step_to_next b i Hok ltac:(subst ncap; lia)) as (nd2 & Hnext & Hnd2 & Hsz2 & _).
    rewrite Hnext. cbn [deref]. rewrite Hnd2. cbn [of_option obind]. rewrite Hsz2.
    pose proof (IH (n - ncap) (S i) 0%nat) as HIH.
    change (Z.of_nat 0) with 0 in HIH. rewrite Z.sub_0_r in HIH.
    rewrite HIH; clear HIH; try done; try lia; [|by apply lookup_lt_Some in Hnd2].
    cbn [obind]. f_equal.
    replace (Z.of_nat (S i) * m_baseSize b + 0)
      with (Z.of_nat i * m_baseSize b + Z.of_nat off + ncap) by (subst ncap; lia).
    change (take (Z.to_nat ncap) (drop (Z.to_nat (Z.of_nat i * m_baseSize b + Z.of_nat off)) (contents b)))
      with (slice b (Z.of_nat i * m_baseSize b + Z.of_nat off) ncap).
    rewrite slice_app by lia. f_equal. lia.
Qed.

(** The unread bytes are not at the end of the chain. *)
Lemma locate_cursor b :
  wf b → m_position b < m_capacity b →
  ∃ i nd (off : nat), m_cur b = Some i ∧ m_nodes b !! i = Some nd ∧
    m_position b mod m_baseSize b = Z.of_nat off ∧ Z.of_nat off < m_baseSize b ∧
    m_position b = Z.of_nat i * m_baseSize b + Z.of_nat off ∧
    u64 (node_size nd - Z.of_nat off) = m_baseSize b - Z.of_nat off.
Proof.
  intros [Hok [? ?]] ?. pose proof (base_le_cap b Hok). pose proof (ok_room b Hok).
  destruct (locate b (m_position b) Hok) as (i & nd & off & Hi & Hnd & Hmod & Ho & E & Hsz & _).
  { destruct Hok; lia. }
  exists i, nd, off. rewrite (ok_cur b Hok). repeat split; try done.
  rewrite Hsz. apply wrap_small. lia.
Qed.

Lemma getReadSize_eq b : wf b → getReadSize b = m_size b - m_position b.
Proof. intros [[] [? ?]]. unfold getReadSize. apply wrap_small. lia. Qed.

(** Invalid windows aside, a loop over the chain from the cursor. *)
Lemma getReadBuffers_spec n b :
  wf b → 0 ≤ n →
  let len := Z.min n (m_size b - m_position b) in
  ∃ l, getReadBuffers n b = Ok (len, l) ∧ Forall (iov_ok b) l ∧
    foldr Z.add 0 (iov_len <$> l) = len ∧
    gather b l = take (Z.to_nat len) (drop (Z.to_nat (m_position b)) (data b)).
Proof.
  intros Hwf Hn len. pose proof Hwf as [Hok [Hs1 Hs2]]. unfold getReadBuffers.
  rewrite getReadSize_eq by done.
  assert ((if m_size b - m_position b <? n then m_size b - m_position b else n) = len) as ->.
  { subst len. destruct (Z.ltb_spec (m_size b - m_position b) n); lia. }
  destruct (Z.eqb_spec len 0) as [E|]; [rewrite E; exists []; repeat split; constructor|].
  destruct (locate_cursor b Hwf ltac:(lia)) as (i & nd & off & Hc & Hnd & Hmod & Ho & E & Hncap).
  rewrite Hc, Hmod. cbn [deref]. rewrite Hnd. cbn [of_option obind]. rewrite Hncap.
  destruct (iov_loop_spec b (S (length (m_nodes b))) len i off) as (l & -> & Hall & Hsum & Hg);
    try done; try lia.
  { by apply lookup_lt_Some in Hnd. }
  cbn [obind]. exists l. repeat split; try done. rewrite Hg. rewrite <- E. unfold slice, data.
  symmetry. apply take_drop_take. destruct Hok; lia.
Qed.

Lemma toString_spec b : wf b → toString b = Ok (drop (Z.to_nat (m_position b)) (data b)).
Proof.
  intros Hwf. pose proof Hwf as [Hok [Hs1 Hs2]]. unfold toString. rewrite getReadSize_eq by done.
  pose proof (data_length b Hwf).
  destruct (Z.eqb_spec (m_size b - m_position b) 0).
  { rewrite drop_ge by lia. done. }
  unfold read_at. rewrite (wrap_small 64) by (destruct Hok; lia).
  destruct (Z.ltb_spec (m_size b - m_position b) (m_size b - m_position b)); [lia|].
  destruct (locate_cursor b Hwf ltac:(lia)) as (i & nd & off & Hc & Hnd & Hmod & Ho & E & Hncap).
  rewrite Hc, Hmod. cbn [deref]. rewrite Hnd. cbn [of_option obind]. rewrite Hncap.
  rewrite read_at_loop_spec; try done; try lia; [|by apply lookup_lt_Some in Hnd].
  rewrite <- E. f_equal. by apply slice_unread.
Qed.
