(* ===== verification/ByteArrayThms.v ===== *)
(** * The correctness of ByteArray

    Sequences of operations on one buffer: the invariant of every reachable
    state, records of mixed fields, and what the bulk operations export. *)
From S2P Require Import Prelude ByteArray ByteArraySpec ByteArrayCodec ByteArrayBulk.

(** ** Fields *)
Inductive field :=
| Fint8 (v : Z) | Fuint8 (v : Z) | Fint16 (v : Z) | Fuint16 (v : Z)
| Fint32 (v : Z) | Fuint32 (v : Z) | Fint64 (v : Z) | Fuint64 (v : Z)
| Int32 (v : Z) | Uint32 (v : Z) | Int64 (v : Z) | Uint64 (v : Z)
| Float (bits : Z) | Double (bits : Z)
| StringF16 (s : list Z) | StringF32 (s : list Z) | StringF64 (s : list Z) | StringVint (s : list Z).

Definition write_field (f : field) : M ByteArray unit :=
  match f with
  | Fint8 v => writeFint8 v | Fuint8 v => writeFuint8 v
  | Fint16 v => writeFint16 v | Fuint16 v => writeFuint16 v
  | Fint32 v => writeFint32 v | Fuint32 v => writeFuint32 v
  | Fint64 v => writeFint64 v | Fuint64 v => writeFuint64 v
  | Int32 v => writeInt32 v | Uint32 v => writeUint32 v
  | Int64 v => writeInt64 v | Uint64 v => writeUint64 v
  | Float v => writeFloat v | Double v => writeDouble v
  | StringF16 s => writeStringF16 s | StringF32 s => writeStringF32 s
  | StringF64 s => writeStringF64 s | StringVint s => writeStringVint s
  end.

(** Reading a field of the same kind as [f]. *)
Definition read_field (f : field) : M ByteArray field :=
  match f with
  | Fint8 _ => let! v := readFint8 in ret (Fint8 v)
  | Fuint8 _ => let! v := readFuint8 in ret (Fuint8 v)
  | Fint16 _ => let! v := readFint16 in ret (Fint16 v)
  | Fuint16 _ => let! v := readFuint16 in ret (Fuint16 v)
  | Fint32 _ => let! v := readFint32 in ret (Fint32 v)
  | Fuint32 _ => let! v := readFuint32 in ret (Fuint32 v)
  | Fint64 _ => let! v := readFint64 in ret (Fint64 v)
  | Fuint64 _ => let! v := readFuint64 in ret (Fuint64 v)
  | Int32 _ => let! v := readInt32 in ret (Int32 v)
  | Uint32 _ => let! v := readUint32 in ret (Uint32 v)
  | Int64 _ => let! v := readInt64 in ret (Int64 v)
  | Uint64 _ => let! v := readUint64 in ret (Uint64 v)
  | Float _ => let! v := readFloat in ret (Float v)
  | Double _ => let! v := readDouble in ret (Double v)
  | StringF16 _ => let! s := readStringF16 in ret (StringF16 s)
  | StringF32 _ => let! s := readStringF32 in ret (StringF32 s)
  | StringF64 _ => let! s := readStringF64 in ret (StringF64 s)
  | StringVint _ => let! s := readStringVint in ret (StringVint s)
  end.

Definition field_enc (e : endianness) (f : field) : list Z :=
  match f with
  | Fint8 v | Fuint8 v => enc_uint 1 e v
  | Fint16 v | Fuint16 v => enc_uint 2 e v
  | Fint32 v | Fuint32 v | Float v => enc_uint 4 e v
  | Fint64 v | Fuint64 v | Double v => enc_uint 8 e v
  | Int32 v => enc_varint 5 e (zigzag v) | Uint32 v => enc_varint 5 e v
  | Int64 v => enc_varint 10 e (zigzag v) | Uint64 v => enc_varint 10 e v
  | StringF16 s => enc_string (enc_uint 2) e s | StringF32 s => enc_string (enc_uint 4) e s
  | StringF64 s => enc_string (enc_uint 8) e s | StringVint s => enc_string (enc_varint 10) e s
  end.

(** The values of the C++ type, less those [EncodeZigzag] overflows on and the
    strings too long for their prefix. *)
Definition field_dom (f : field) : Prop :=
  match f with
  | Fint8 v => is_sint 8 v | Fuint8 v => is_uint 8 v
  | Fint16 v => is_sint 16 v | Fuint16 v => is_uint 16 v
  | Fint32 v => is_sint 32 v | Fuint32 v | Uint32 v | Float v => is_uint 32 v
  | Fint64 v => is_sint 64 v | Fuint64 v | Uint64 v | Double v => is_uint 64 v
  | Int32 v => zigzag_dom 32 v | Int64 v => zigzag_dom 64 v
  | StringF16 s => string_dom 16 s | StringF32 s => string_dom 32 s
  | StringF64 s | StringVint s => string_dom 64 s
  end.
Definition field_solid (f : field) : Prop :=
  match f with
  | StringF16 s | StringF32 s | StringF64 s | StringVint s => s ≠ []
  | _ => True
  end.

(** A codec retagged by a constructor. *)
Lemma tag_codec {A} (C : A → field) wr rd enc dom solid :
  Codec wr rd enc dom solid → ∀ b a,
  wf b → dom a →
  (room b (Z.of_nat (length (enc (m_endian b) a))) →
   ∃ b', wr a b = (Ok tt, b') ∧ writes (enc (m_endian b) a) b b') ∧
  (readable b (enc (m_endian b) a) →
   (solid a ∨ m_position b + Z.of_nat (length (enc (m_endian b) a)) < m_capacity b) →
   (let! v := rd in ret (C v)) b = (Ok (C a), advance (length (enc (m_endian b) a)) b)).
Proof.
  intros Hc b a Hwf Ha. split; intros Hr.
  - by apply codec_write.
  - intros Hs. by mstep (codec_read (Codec := Hc) b a).
Qed.

(** The codec behind each field, chosen by its constructor. *)
Ltac field_tag f :=
  lazymatch f with
  | Fint8 ?v => apply (tag_codec Fint8 _ _ _ _ _ writeFint8_codec)
  | Fuint8 ?v => apply (tag_codec Fuint8 _ _ _ _ _ writeFuint8_codec)
  | Fint16 ?v => apply (tag_codec Fint16 _ _ _ _ _ (writeFint_codec 2 (Nat.lt_0_succ 1)))
  | Fuint16 ?v => apply (tag_codec Fuint16 _ _ _ _ _ (writeFuint_codec 2 (Nat.lt_0_succ 1)))
  | Fint32 ?v => apply (tag_codec Fint32 _ _ _ _ _ (writeFint_codec 4 (Nat.lt_0_succ 3)))
  | Fuint32 ?v => apply (tag_codec Fuint32 _ _ _ _ _ (writeFuint_codec 4 (Nat.lt_0_succ 3)))
  | Fint64 ?v => apply (tag_codec Fint64 _ _ _ _ _ (writeFint_codec 8 (Nat.lt_0_succ 7)))
  | Fuint64 ?v => apply (tag_codec Fuint64 _ _ _ _ _ (writeFuint_codec 8 (Nat.lt_0_succ 7)))
  | Int32 ?v => apply (tag_codec Int32 _ _ _ _ _ writeInt32_codec)
  | Uint32 ?v => apply (tag_codec Uint32 _ _ _ _ _ writeUint32_codec)
  | Int64 ?v => apply (tag_codec Int64 _ _ _ _ _ writeInt64_codec)
  | Uint64 ?v => apply (tag_codec Uint64 _ _ _ _ _ writeUint64_codec)
  | Float ?v => apply (tag_codec Float _ _ _ _ _ (writeFuint_codec 4 (Nat.lt_0_succ 3)))
  | Double ?v => apply (tag_codec Double _ _ _ _ _ (writeFuint_codec 8 (Nat.lt_0_succ 7)))
  | StringF16 ?s => apply (tag_codec StringF16 _ _ _ _ _ writeStringF16_codec)
  | StringF32 ?s => apply (tag_codec StringF32 _ _ _ _ _ writeStringF32_codec)
  | StringF64 ?s => apply (tag_codec StringF64 _ _ _ _ _ writeStringF64_codec)
  | StringVint ?s => apply (tag_codec StringVint _ _ _ _ _ writeStringVint_codec)
  end.

Lemma field_ok f b :
  wf b → field_dom f →
  (room b (Z.of_nat (length (field_enc (m_endian b) f))) →
   ∃ b', write_field f b = (Ok tt, b') ∧ writes (field_enc (m_endian b) f) b b') ∧
  (readable b (field_enc (m_endian b) f) →
   (field_solid f ∨ m_position b + Z.of_nat (length (field_enc (m_endian b) f)) < m_capacity b) →
   read_field f b = (Ok f, advance (length (field_enc (m_endian b) f)) b)).
Proof.
  intros Hwf Hd. destruct f; cbn [write_field read_field field_enc field_dom field_solid] in *;
    match goal with |- context [Ok ?f] => field_tag f end; assumption.
Qed.

(** ** Records of fields *)
Fixpoint write_fields (fs : list field) : M ByteArray unit :=
  match fs with [] => ret tt | f :: fs => write_field f ;;! write_fields fs end.
Fixpoint read_fields (fs : list field) : M ByteArray (list field) :=
  match fs with
  | [] => ret []
  | f :: fs => let! g := read_field f in let! gs := read_fields fs in ret (g :: gs)
  end.
Definition fields_enc (e : endianness) (fs : list field) : list Z := fs ≫= field_enc e.

Lemma write_fields_ok fs : ∀ b,
  wf b → Forall field_dom fs → room b (Z.of_nat (length (fields_enc (m_endian b) fs))) →
  ∃ b', write_fields fs b = (Ok tt, b') ∧ writes (fields_enc (m_endian b) fs) b b'.
Proof.
  induction fs as [|f fs IH]; intros b Hwf Hd Hroom; cbn [write_fields fields_enc] in *.
  { exists b. split; [done|]. by apply writes_nil. }
  apply Forall_cons in Hd as [Hf Hd]. unfold fields_enc in *. rewrite bind_cons in *.
  apply writes_bind; [done|done| |].
  - by apply field_ok.
  - intros b1 Hwf1 <- Hroom1. by apply IH.
Qed.

(** No field is empty on the wire. *)
Lemma field_enc_pos e f : field_dom f → (0 < length (field_enc e f))%nat.
Proof.
  assert (∀ w n v, w ≤ 7 * Z.of_nat n → (0 < n)%nat → is_uint w v →
            (0 < length (enc_varint n e v))%nat) as Hv.
  { intros w n v Hw Hn Hv. destruct (varint_bytes_ok n v) as (bs & E & _ & ?); [|done|].
    - unfold is_uint in Hv. pose proof (Z.pow_le_mono_r 2 w (7 * Z.of_nat n)). lia.
    - unfold enc_varint. rewrite E. lia. }
  destruct f; cbn [field_dom field_enc]; intros Hd; rewrite ?enc_uint_length; try lia;
    unfold enc_string; rewrite ?length_app, ?enc_uint_length; try lia.
  - apply (Hv 32); [lia|lia|]. by apply zigzag_bound.
  - by apply (Hv 32); [lia|lia|].
  - apply (Hv 64); [lia|lia|]. by apply zigzag_bound.
  - by apply (Hv 64); [lia|lia|].
  - enough (0 < length (enc_varint 10 e (Z.of_nat (length s))))%nat by lia.
    apply (Hv 64); [lia|lia|]. unfold string_dom in Hd. unfold is_uint. lia.
Qed.

(** The last field is read without needing a node behind it. *)
Definition last_solid (fs : list field) : Prop := ∀ f, last fs = Some f → field_solid f.

Lemma read_fields_ok fs : ∀ b,
  wf b → Forall field_dom fs →
  readable b (fields_enc (m_endian b) fs) →
  (last_solid fs ∨ m_position b + Z.of_nat (length (fields_enc (m_endian b) fs)) < m_capacity b) →
  read_fields fs b = (Ok fs, advance (length (fields_enc (m_endian b) fs)) b).
Proof.
  induction fs as [|f fs IH]; intros b Hwf Hd Hr Hs; cbn [read_fields] in *.
  { unfold ret. by rewrite advance_0. }
  apply Forall_cons in Hd as [Hf Hd].
  pose proof (readable_fits b _ Hwf Hr) as Hfit. pose proof (proj2 (wf_size b Hwf)).
  unfold fields_enc in *. rewrite bind_cons in *. rewrite length_app in *.
  destruct (readable_app _ _ _ Hwf Hr) as [H1 H2].
  assert (field_solid f ∨ m_position b + Z.of_nat (length (field_enc (m_endian b) f)) < m_capacity b)
    as Hsf.
  { destruct fs as [|g fs].
    - cbn [mbind list_bind length] in Hs. destruct Hs as [Hs|?]; [left; by apply Hs|right; lia].
    - right. apply Forall_cons in Hd as [Hg _]. pose proof (field_enc_pos (m_endian b) g Hg).
      rewrite bind_cons, length_app in Hfit. lia. }
  mstep (proj2 (field_ok f b Hwf Hf)).
  mstep (IH (advance (length (field_enc (m_endian b) f)) b)); [|by apply advance_wf|].
  - unfold ret. change (m_endian (advance _ b)) with (m_endian b). by rewrite advance_advance.
  - destruct Hs as [Hs|?]; [left|right; cbn; lia]. intros g Hg. apply Hs. by destruct fs.
Qed.

(** ** The round trip *)
(** C15: Whatever mixture of fixed-width integers (either byte order), varints,
    zigzag integers, floats and length-prefixed strings is written to a buffer,
    wherever its cursor stands, rewinding with [setPosition] and calling the
    matching readers in order returns exactly the written values, and leaves
    the buffer as the writers left it.  The values are those of their C++ types
    except where the code does not carry them ([field_dom]): a zigzag [int32]
    must be above -2^31 and below 2^30, an [int64] above -2^63 and below 2^62,
    because [EncodeZigzag] doubles them in their signed type
    ([EncodeZigzag32_overflow]), and a string must be shorter than 2^63 bytes and than
    its 16- or 32-bit prefix can say.  The last field must not be an empty string: its
    reader may find the cursor past the last node.  And the buffer is well formed
    with room for the text: no size computed on the way wraps around 2^64. *)
Theorem fields_roundtrip (fs : list field) (b : ByteArray) :
  wf b → Forall field_dom fs → last_solid fs →
  room b (Z.of_nat (length (fields_enc (m_endian b) fs))) →
  ∃ b1 b2, write_fields fs b = (Ok tt, b1) ∧ wf b1 ∧
    setPosition (m_position b) b1 = (Ok tt, b2) ∧
    read_fields fs b2 = (Ok fs, b1).
Proof.
  intros Hwf Hd Hs Hroom.
  destruct (write_fields_ok fs b Hwf Hd Hroom) as (b1 & Hw & Hws).
  pose proof (wr_wf _ _ _ Hws) as Hwf1. pose proof (writes_position _ _ _ Hwf Hws) as Hp.
  pose proof Hwf1 as [Hok1 [Hs1 Hs2]]. pose proof (ok_pos b (wf_chain b Hwf)) as Hp0.
  exists b1, (move (m_position b) b1). split; [done|]. split; [done|]. split.
  - rewrite setPosition_spec by (done || lia). rewrite decide_True by lia.
    rewrite Z.max_r by lia. by destruct b1.
  - assert (m_endian (move (m_position b) b1) = m_endian b) as E by apply Hws.
    rewrite read_fields_ok; rewrite ?E; try done.
    + unfold advance. rewrite move_move. cbn. by rewrite <- Hp, move_id.
    + apply move_wf; [done|]. lia.
    + by apply writes_readable.
    + by left.
Qed.

Lemma new_ByteArray_wf base : 0 < base < 2 ^ 64 → wf (new_ByteArray base).
Proof.
  intros Hb. split; [|cbn; lia]. split; cbn; try done; try lia.
  constructor; [|done]. cbn. rewrite length_replicate. lia.
Qed.

Definition sample_fields : list field :=
  [Fuint16 258; StringVint (bytes_of_string "hello"); Int32 (-5); Int64 (-123456789);
   Uint32 300; Fint64 (-2); StringF32 (bytes_of_string "x")].

Lemma fields_roundtrip_witness :
  ∃ b1 b2, write_fields sample_fields (new_ByteArray 4) = (Ok tt, b1) ∧ wf b1 ∧
    setPosition 0 b1 = (Ok tt, b2) ∧ read_fields sample_fields b2 = (Ok sample_fields, b1).
Proof.
  apply (fields_roundtrip sample_fields (new_ByteArray 4)).
  - apply new_ByteArray_wf. lia.
  - repeat constructor; cbn; unfold is_uint, is_sint, zigzag_dom, string_dom; cbn; lia.
  - intros f [= <-]. done.
  - unfold room. vm_compute. done.
Defined.

(** ** Writing and reading refine the sequence with a cursor *)
(** C16: [write] on the chain of nodes does what overwriting and extending a byte
    sequence at the cursor does, whatever the node size and however many nodes
    it must add, and keeps the invariant. *)
Theorem write_refines (bs : list Z) (b : ByteArray) :
  wf b → room b (Z.of_nat (length bs)) →
  ∃ b', write bs b = (Ok tt, b') ∧ wf b' ∧ abs b' = spec_write bs (abs b) ∧
        m_endian b' = m_endian b ∧ m_baseSize b' = m_baseSize b.
Proof.
  intros Hwf Hroom. destruct (write_spec bs b Hwf Hroom) as (b' & Hw & []). by exists b'.
Qed.

Lemma write_refines_witness :
  ∃ b', write [1; 2; 3; 4; 5] (new_ByteArray 2) = (Ok tt, b') ∧ wf b' ∧
    abs b' = spec_write [1; 2; 3; 4; 5] (abs (new_ByteArray 2)) ∧
    m_endian b' = BIG_ENDIAN ∧ m_baseSize b' = 2.
Proof.
  apply (write_refines [1; 2; 3; 4; 5] (new_ByteArray 2)).
  - apply new_ByteArray_wf. lia.
  - unfold room. cbn. lia.
Defined.

(** C17: [read] on the chain is reading a slice of the sequence and moving the
    cursor over it, or the [out_of_range] exception with nothing changed when
    fewer bytes are left, provided the cursor is not at the very end of the
    allocated chain. *)
Theorem read_refines (n : Z) (b : ByteArray) :
  wf b → 0 ≤ n < 2 ^ 64 → m_position b < m_capacity b →
  let (o, b') := read n b in wf b' ∧ (o, abs b') = spec_read (Z.to_nat n) (abs b).
Proof.
  intros Hwf Hn Hcap. rewrite read_spec by done. pose proof (data_length b Hwf) as Hl.
  pose proof Hwf as [[] [? ?]]. unfold spec_read, abs. cbn [buf_data buf_pos].
  destruct (decide (m_size b - m_position b < n)) as [Hlt|Hge].
  - rewrite decide_False by lia. done.
  - rewrite decide_False by lia. rewrite decide_True by lia. split; [apply move_wf; [done|lia]|].
    f_equal. f_equal. cbn. lia.
Qed.

Lemma read_refines_witness :
  let b := move 1 (write [1; 2; 3; 4; 5] (new_ByteArray 2)).2 in
  let (o, b') := read 4 b in wf b' ∧ (o, abs b') = spec_read 4 (abs b).
Proof.
  assert (wf (write [1; 2; 3; 4; 5] (new_ByteArray 2)).2) as Hwf.
  { destruct (write_spec [1; 2; 3; 4; 5] (new_ByteArray 2)) as (b0 & -> & []); [by apply new_ByteArray_wf| |done].
    unfold room. cbn. lia. }
  apply (read_refines 4).
  - apply move_wf; [done|]. vm_compute. done.
  - lia.
  - vm_compute. done.
Defined.

(** ** Every reachable buffer is well formed *)
Inductive op :=
| OpWrite (bs : list Z) | OpRead (n : Z) | OpSeek (v : Z) | OpClear | OpSetLittleEndian (val : bool)
| OpWriteField (f : field) | OpReadField (f : field).

Definition run_op (o : op) : M ByteArray unit :=
  match o with
  | OpWrite bs => write bs
  | OpRead n => let! _ := read n in ret tt
  | OpSeek v => setPosition v
  | OpClear => modst clear
  | OpSetLittleEndian val => modst (setIsLittleEndian val)
  | OpWriteField f => write_field f
  | OpReadField f => let! _ := read_field f in ret tt
  end.

(** The arguments a C++ caller can pass, short of exhausting the address space. *)
Definition op_args (o : op) (b : ByteArray) : Prop :=
  match o with
  | OpWrite bs => room b (Z.of_nat (length bs))
  | OpRead n => 0 ≤ n < 2 ^ 64
  | OpSeek v => 0 ≤ v < 2 ^ 64
  | OpWriteField f => field_dom f ∧ room b (Z.of_nat (length (field_enc (m_endian b) f)))
  | _ => True
  end.

Inductive reachable (base : Z) : ByteArray → Prop :=
| reach_init : reachable base (new_ByteArray base)
| reach_step b o : reachable base b → op_args o b → reachable base (run_op o b).2.

Lemma clear_wf b : wf b → wf (clear b) ∧ abs (clear b) = mkBuffer [] 0.
Proof.
  intros [Hok _]. destruct Hok as [Hb Hn Hr Hc Hm Hp Hcu]. split; [|done].
  destruct (m_nodes b) as [|nd nds] eqn:E; [done|]. apply Forall_cons in Hn as [H1 _].
  cbn [length] in Hc.
  split; [|cbn; lia]. split; cbn; rewrite ?E; cbn [take]; try done; try nia.
  - by constructor.
  - rewrite take_0. cbn [length]. lia.
  - unfold cur_of. cbn. by rewrite E.
Qed.

(** The readers never break the invariant, whatever bytes they meet. *)
Definition keeps {A} (m : M ByteArray A) : Prop := ∀ b, wf b → wf (m b).2.

Lemma keeps_bind {A B} (m : M ByteArray A) (k : A → M ByteArray B) :
  keeps m → (∀ b a, wf b → (m b).1 = Ok a → keeps (k a)) → keeps (bind m k).
Proof.
  intros Hm Hk b Hwf. specialize (Hm b Hwf). specialize (Hk b). unfold bind.
  destruct (m b) as [[a| | |] b']; cbn in *; try done. by eapply Hk.
Qed.

Lemma keeps_ret {A} (a : A) : keeps (ret a).
Proof. by intros b Hwf. Qed.

Lemma keeps_lift {A} (a : outcome A) : keeps (lift a).
Proof. by intros b Hwf. Qed.

Lemma read_keeps n : keeps (read n).
Proof.
  intros b Hwf. pose proof Hwf as [Hok [? ?]]. destruct (decide (0 ≤ n < 2 ^ 64)) as [Hn|Hn].
  - rewrite read_spec by done. destruct Hok.
    repeat destruct (decide _); cbn [snd]; try done. apply move_wf; [done|]. lia.
  - unfold read, bind at 1, getst. rewrite getReadSize_eq by done. destruct Hok.
    destruct (Z.ltb_spec (m_size b - m_position b) n); [done|]. unfold bind, lift.
    destruct (deref b (m_cur b)); [|done..]. cbn [read_loop].
    destruct (Z.leb_spec n 0); [done|lia].
Qed.

Lemma read_bytes_keeps n : keeps (read_bytes n).
Proof. apply keeps_bind; [apply read_keeps|]. intros. apply keeps_lift. Qed.

Lemma read_string_keeps n : keeps (read_string n).
Proof. unfold read_string. destruct (_ <=? _); [by intros b Hwf|apply read_bytes_keeps]. Qed.

Lemma readFuint8_keeps : keeps readFuint8.
Proof. apply keeps_bind; [apply read_bytes_keeps|]. intros. apply keeps_ret. Qed.

Lemma getst_keeps : keeps getst.
Proof. by intros b Hwf. Qed.

(** Everything else is built from these by [bind]. *)
Ltac keeps_tac :=
  repeat first
    [ lazymatch goal with |- keeps (bind _ _) => apply keeps_bind; [|intros _ ? _ _] end
    | solve [auto with helens] ].

Lemma read_varint_keeps w k : ∀ i acc, keeps (read_varint w k i acc).
Proof.
  induction k as [|k IH]; intros; cbn [read_varint]; [apply keeps_ret|].
  apply keeps_bind; [apply readFuint8_keeps|]. intros b a _ _.
  destruct (_ <? _); [apply keeps_ret|apply IH].
Qed.

#[export] Hint Resolve read_bytes_keeps read_string_keeps readFuint8_keeps getst_keeps read_varint_keeps
  keeps_ret keeps_lift : helens.

Lemma readFuint_keeps n : keeps (readFuint n).
Proof. unfold readFuint. keeps_tac. Qed.
Lemma readFint_keeps n : keeps (readFint n).
Proof. unfold readFint. keeps_tac. Qed.
Lemma readFint8_keeps : keeps readFint8.
Proof. unfold readFint8. keeps_tac. Qed.
#[export] Hint Resolve readFuint_keeps readFint_keeps readFint8_keeps : helens.

Lemma read_field_keeps f : keeps (read_field f).
Proof.
  destruct f; cbn [read_field];
    unfold readFint16, readFuint16, readFint32, readFuint32, readFint64, readFuint64, readFloat,
      readDouble, readFuint32, readFuint64, readInt32, readUint32, readInt64, readUint64,
      readStringF16, readStringF32, readStringF64, readStringVint, readFuint16, readFuint32,
      readFuint64, readUint64; keeps_tac.
Qed.

Lemma run_op_wf o b : wf b → op_args o b → wf (run_op o b).2.
Proof.
  intros Hwf Ha. destruct o as [bs|n|v| |val|f|f]; cbn [run_op op_args] in *.
  - destruct (write_spec bs b Hwf Ha) as (b' & -> & []). done.
  - apply keeps_bind; [apply read_keeps|intros; apply keeps_ret|done].
  - rewrite setPosition_spec by (done || lia). destruct (decide _) as [Hv|]; [|done].
    pose proof Hwf as [Hok [? ?]]. cbn [snd]. split; [|cbn; lia].
    apply move_chain_ok; [destruct Hok; by split|]. cbn. lia.
  - by apply clear_wf.
  - destruct Hwf as [[] ?]. by split.
  - destruct Ha as [Hd Hroom]. destruct (proj1 (field_ok f b Hwf Hd) Hroom) as (b' & -> & []). done.
  - apply keeps_bind; [apply read_field_keeps|intros; apply keeps_ret|done].
Qed.

(** C18: Every ByteArray that any sequence of writes, reads (failing ones
    included), seeks, clears and byte-order changes produces is well formed:
    nodes of the base size, capacity their total, position within size within
    capacity, and the node pointer agreeing with the position. *)
Theorem reachable_wf (base : Z) (b : ByteArray) :
  0 < base < 2 ^ 64 → reachable base b → wf b.
Proof.
  intros Hb. induction 1 as [|b o _ IH Ha]; [by apply new_ByteArray_wf|]. by apply run_op_wf.
Qed.

Lemma reachable_wf_witness : wf (run_op (OpSeek 1) (run_op (OpWrite [1; 2; 3]) (new_ByteArray 2)).2).2.
Proof.
  apply (reachable_wf 2); [lia|]. constructor; [constructor; [constructor|]|].
  - unfold op_args, room. cbn. lia.
  - cbn. lia.
Defined.

(** ** Exported memory *)
(** The [iovec]s [getReadBuffers] hands to the socket lie inside the nodes,
    total the clamped length, and designate in order the very bytes [toString]
    returns (the first [len] of them), so a gathered send transmits the unread
    data exactly. *)
Theorem getReadBuffers_exact (n : Z) (b : ByteArray) :
  wf b → 0 ≤ n →
  ∃ len l s, getReadBuffers n b = Ok (len, l) ∧ toString b = Ok s ∧
    len = Z.min n (getReadSize b) ∧ Forall (iov_ok b) l ∧
    foldr Z.add 0 (iov_len <$> l) = len ∧ gather b l = take (Z.to_nat len) s.
Proof.
  intros Hwf Hn. destruct (getReadBuffers_spec n b Hwf Hn) as (l & E & H1 & H2 & H3).
  do 3 eexists. split; [exact E|]. split; [by apply toString_spec|].
  rewrite getReadSize_eq by done. done.
Qed.

Definition sample_array : ByteArray :=
  (run_op (OpSeek 1) (run_op (OpWrite [1; 2; 3; 4; 5]) (new_ByteArray 2)).2).2.
Lemma sample_array_wf : wf sample_array.
Proof.
  apply run_op_wf; [apply run_op_wf; [apply new_ByteArray_wf; lia|]|].
  - unfold op_args, room. cbn. lia.
  - cbn. lia.
Qed.

Lemma getReadBuffers_exact_witness :
  ∃ len l s, getReadBuffers 3 sample_array = Ok (len, l) ∧ toString sample_array = Ok s ∧
    len = Z.min 3 (getReadSize sample_array) ∧ Forall (iov_ok sample_array) l ∧
    foldr Z.add 0 (iov_len <$> l) = len ∧ gather sample_array l = take (Z.to_nat len) s.
Proof. apply (getReadBuffers_exact 3 sample_array); [apply sample_array_wf|lia]. Defined.

(** ** [writeToFile] *)
Lemma iov_cells_start b i nd n :
  chain_ok b → m_nodes b !! i = Some nd → 0 ≤ n ≤ m_baseSize b →
  iov_cells b (mkIovec i 0 n) = slice b (Z.of_nat i * m_baseSize b) n.
Proof.
  intros Hok Hnd Hn. rewrite <- (Z.add_0_r (_ * _)). apply (iov_cells_at b i nd 0 n Hok Hnd); lia.
Qed.

Lemma file_loop_spec b fuel : ∀ n i,
  chain_ok b → 0 ≤ n → (0 < n → (i < length (m_nodes b))%nat) →
  Z.of_nat i * m_baseSize b + n ≤ m_capacity b →
  (length (m_nodes b) - i < fuel)%nat →
  ∃ l, file_loop b fuel (if decide (i < length (m_nodes b))%nat then Some i else None) n
         (Z.of_nat i * m_baseSize b) = Ok l ∧
    Forall (iov_ok b) l ∧ gather b l = slice b (Z.of_nat i * m_baseSize b) n.
Proof.
  induction fuel as [|fuel IH]; intros n i Hok Hn Hi Hfit Hf; [lia|].
  pose proof Hok as [Hb _ _ Hcap _ _ _]. cbn [file_loop].
  destruct (Z.leb_spec n 0).
  { replace n with 0 by lia. exists []. repeat split; try done. }
  rewrite decide_True by auto. destruct (lookup_lt_is_Some_2 _ _ (Hi ltac:(lia))) as [nd Hnd].
  rewrite Z.mod_mul, Z.sub_0_r by lia. cbn [deref]. rewrite Hnd. cbn [of_option obind].
  set (len := if m_baseSize b <? n then m_baseSize b else n).
  assert (len = Z.min n (m_baseSize b)) as Hlen
    by (subst len; destruct (Z.ltb_spec (m_baseSize b) n); lia).
  destruct (decide (len = n)) as [Hln|Hln].
  - rewrite Hln. replace (n - n) with 0 by lia.
    assert (∀ c p, file_loop b fuel c 0 p = Ok []) as -> by (by destruct fuel).
    eexists; split; [done|]. split.
    + constructor; [|done]. unfold iov_ok. cbn. lia.
    + unfold gather. cbn. rewrite app_nil_r.
      by rewrite (iov_cells_start b i nd n Hok Hnd) by lia.
  - destruct (IH (n - len) (S i)) as (l & Hl & Hall & Hg); try done; try nia.
    replace (Z.of_nat (S i) * m_baseSize b) with (Z.of_nat i * m_baseSize b + len) in * by lia.
    unfold next. rewrite Hl. cbn [obind]. eexists; split; [done|]. split.
    + constructor; [|done]. unfold iov_ok. cbn. lia.
    + unfold gather in *. rewrite bind_cons, Hg. change (default 0%nat (Some i)) with i.
      rewrite (iov_cells_start b i nd len Hok Hnd) by lia. rewrite slice_app by lia. f_equal. lia.
Qed.

(** With the cursor at the start of a node (in particular at position 0)
    [writeToFile] writes exactly the unread bytes, in order, from memory inside
    the nodes. *)
Theorem writeToFile_exact (b : ByteArray) :
  wf b → m_position b mod m_baseSize b = 0 →
  ∃ l s, writeToFile b = Ok l ∧ toString b = Ok s ∧ Forall (iov_ok b) l ∧ gather b l = s.
Proof.
  intros Hwf Hmod. pose proof Hwf as [Hok [Hs1 Hs2]]. pose proof Hok as [Hb _ _ Hcap _ Hp Hcu].
  unfold writeToFile. rewrite getReadSize_eq, Hcu by done.
  set (i := Z.to_nat (m_position b / m_baseSize b)).
  assert (m_position b = Z.of_nat i * m_baseSize b) as E.
  { pose proof (Z.div_mod (m_position b) (m_baseSize b) ltac:(lia)).
    assert (0 ≤ m_position b / m_baseSize b) by (apply Z.div_pos; lia). subst i. lia. }
  assert (0 < m_size b - m_position b → (i < length (m_nodes b))%nat) as Hi by nia.
  destruct (file_loop_spec b (S (length (m_nodes b))) (m_size b - m_position b) i)
    as (l & Hl & Hall & Hg); try done; try lia.
  exists l, (drop (Z.to_nat (m_position b)) (data b)). rewrite <- E in *.
  split; [exact Hl|]. split; [by apply toString_spec|]. split; [done|].
  rewrite Hg. by apply slice_unread.
Qed.

Lemma writeToFile_exact_witness :
  let b := move 2 sample_array in
  ∃ l s, writeToFile b = Ok l ∧ toString b = Ok s ∧ Forall (iov_ok b) l ∧ gather b l = s.
Proof.
  apply (writeToFile_exact (move 2 sample_array)).
  - apply move_wf; [apply sample_array_wf|]. vm_compute. done.
  - done.
Defined.

(** ** Where the code departs from this contract *)
(** [writeToFile] with the cursor inside the last node, and no more unread
    bytes than the cursor's offset in it, computes a length that is not
    positive, so the remaining count does not fall and the next round of the
    loop dereferences the null pointer after the last node. *)
Theorem writeToFile_mid_node_crash (b : ByteArray) (i : nat) :
  wf b → m_cur b = Some i → S i = length (m_nodes b) →
  0 < m_size b - m_position b ≤ m_position b mod m_baseSize b →
  m_size b - m_position b ≤ m_baseSize b →
  writeToFile b = Undef NullDeref.
Proof.
  intros Hwf Hc Hi Hun Hbase. pose proof Hwf as [Hok _].
  destruct (lookup_lt_is_Some_2 (m_nodes b) i ltac:(lia)) as [nd Hnd].
  unfold writeToFile. rewrite getReadSize_eq, Hc by done.
  destruct (length (m_nodes b)) as [|k] eqn:Hk; [lia|]. cbn [file_loop].
  destruct (Z.leb_spec (m_size b - m_position b) 0); [lia|].
  cbn [deref]. rewrite Hnd. cbn [of_option obind].
  destruct (Z.ltb_spec (m_baseSize b) (m_size b - m_position b)); [lia|].
  match goal with |- context [if ?n <=? 0 then _ else _] => destruct (Z.leb_spec n 0); [lia|] end.
  cbn [next]. rewrite decide_False by lia. done.
Qed.

Lemma writeToFile_mid_node_crash_witness :
  writeToFile (move 6 (write (replicate 8 1) (new_ByteArray 8)).2) = Undef NullDeref.
Proof.
  apply (writeToFile_mid_node_crash _ 0).
  - apply move_wf; [|vm_compute; done].
    apply (run_op_wf (OpWrite (replicate 8 1))); [apply new_ByteArray_wf; lia|].
    unfold op_args, room. cbn. lia.
  - done.
  - done.
  - vm_compute. done.
  - vm_compute. done.
Defined.

(** The const read goes wrong away from the cursor: bytes 5 and 6 of the buffer
    [1..8] in nodes of four, read with the cursor at 0, come out as 2 and 3. *)
Example read_at_wrong_node :
  let b := (setPosition 0 (write [1; 2; 3; 4; 5; 6; 7; 8] (new_ByteArray 4)).2).2 in
  read_at 2 5 b = Ok [Some 2; Some 3] ∧
  take 2 (drop 5 (data b)) = [Some 6; Some 7].
Proof. done. Qed.

(** Asking for four bytes from position 0 while one byte is unread lists one. *)
Example getReadBuffers_at_clamp :
  let b := (setPosition 7 (write [1; 2; 3; 4; 5; 6; 7; 8] (new_ByteArray 4)).2).2 in
  getReadBuffers_at 4 0 b = Ok (1, [mkIovec 0 0 1]).
Proof. done. Qed.

(** An empty string at the end of the last node crashes its reader. *)
Example empty_string_at_end :
  let b := (setPosition 0 (writeStringF16 [] (new_ByteArray 2)).2).2 in
  (readStringF16 b).1 = Undef NullDeref.
Proof. done. Qed.

(** The upper half of the positive [int32_t]s, and the least one, have no
    defined zigzag encoding. *)
Example EncodeZigzag32_overflow :
  EncodeZigzag32 (2 ^ 30) = Undef Overflow ∧ EncodeZigzag32 (- 2 ^ 31) = Undef Overflow.
Proof. done. Qed.
