(* ===== verification/Stream.v ===== *)
(** * Streams (Helens/stream.{h,cc}, Helens/streams/socket_stream.cc)

    A [SocketStream] moves bytes between a socket and a buffer; the socket may
    transfer fewer bytes than asked.  [readFixSize] and [writeFixSize] repeat the
    transfer until the whole length is through. *)
From S2P Require Import Prelude ByteArray ByteArraySpec ByteArrayCodec ByteArrayBulk ByteArrayThms.

(** ** The socket

    [recv] and [send] are system calls: a class gives their signature and a
    second one the documented behaviour the streams rely on.  [recv n] answers
    with the return code and the bytes stored; [send bs] with the return code. *)
Class Socket (S : Type) := {
  isConnected : S → bool;
  recv : Z → S → (Z * list Z) * S;
  send : list Z → S → Z * S
}.

Class SocketLaws (S : Type) `{Socket S} := {
  incoming : S → list Z;
  outgoing : S → list Z;
  recv_some n s : isConnected s = true → 0 < n → incoming s ≠ [] →
    ∃ k s', recv n s = ((Z.of_nat k, take k (incoming s)), s') ∧
      (0 < k ≤ length (incoming s))%nat ∧ Z.of_nat k ≤ n ∧
      incoming s' = drop k (incoming s) ∧ outgoing s' = outgoing s ∧ isConnected s' = true;
  send_some bs s : isConnected s = true → bs ≠ [] →
    ∃ k s', send bs s = (Z.of_nat k, s') ∧ (0 < k ≤ length bs)%nat ∧
      incoming s' = incoming s ∧ outgoing s' = outgoing s ++ take k bs ∧ isConnected s' = true
}.

(** ** Model *)
(** Storing received bytes in the memory of an [iovec] list, as [recvmsg] does. *)
Fixpoint scatter (l : list iovec) (bs : list Z) (b : ByteArray) : outcome ByteArray :=
  match l, bs with
  | [], _ | _, [] => Ok b
  | v :: l, _ =>
    obind (deref b (Some (iov_node v))) (λ nd,
    obind (node_store nd (iov_off v) (take (Z.to_nat (iov_len v)) bs)) (λ nd',
    scatter l (drop (Z.to_nat (iov_len v)) bs) (with_nodes (<[iov_node v := nd']> (m_nodes b)) b)))
  end.

Definition iov_total (l : list iovec) : Z := foldr Z.add 0 (iov_len <$> l).

Section stream.
Context {Sk : Type} `{Socket Sk}.

(** A stream and the [ByteArray] a call works on. *)
Definition on_sock {A} (f : Sk → A * Sk) : M (Sk * ByteArray) A :=
  λ w, let (a, s) := f (w.1) in (Ok a, (s, w.2)).
Definition on_ba {A} (m : M ByteArray A) : M (Sk * ByteArray) A :=
  λ w, let (o, b) := m (w.2) in (o, (w.1, b)).

(** [SocketStream::read(void*, size_t)] and [write(const void*, size_t)] *)
Definition read_buf (n : Z) (s : Sk) : (Z * list Z) * Sk :=
  if isConnected s then recv n s else ((-1, []), s).
Definition write_buf (bs : list Z) (s : Sk) : Z * Sk :=
  if isConnected s then send bs s else (-1, s).

(** [SocketStream::read(ByteArray::ptr, size_t)] *)
Definition read_ba (length : Z) : M (Sk * ByteArray) Z :=
  let! w := getst in
  if negb (isConnected (w.1)) then ret (-1) else
  let! wb := on_ba (getWriteBuffers length) in
  let! r := on_sock (recv (iov_total (wb.2))) in
  on_ba (let! b := getst in let! b' := lift (scatter (wb.2) (r.2) b) in putst b') ;;!
  (if 0 <? r.1
   then on_ba (let! b := getst in setPosition (u64 (m_position b + r.1)))
   else ret tt) ;;!
  ret (r.1).

(** [SocketStream::write(ByteArray::ptr, size_t)]; sending a byte that nothing
    has written is a read of uninitialised memory. *)
Definition write_ba (length : Z) : M (Sk * ByteArray) Z :=
  let! w := getst in
  if negb (isConnected (w.1)) then ret (-1) else
  let! rb := lift (getReadBuffers length (w.2)) in
  let! bs := lift (cells_val (gather (w.2) (rb.2))) in
  let! rt := on_sock (send bs) in
  (if 0 <? rt
   then on_ba (let! b := getst in setPosition (u64 (m_position b + rt)))
   else ret tt) ;;!
  ret rt.

(** [Stream::readFixSize(void*, size_t)], whose length becomes an int64_t: the code returned and the bytes read
    before it was. *)
Fixpoint readFixSize_loop (fuel : nat) (length left : Z) (s : Sk) : outcome (Z * list Z) * Sk :=
  if left <=? 0 then (Ok (i32 length, []), s) else
  match fuel with
  | O => (Fuel, s)
  | S fuel =>
    let '((len, bs), s) := read_buf left s in
    if len <=? 0 then (Ok (i32 len, []), s)
    else match readFixSize_loop fuel length (left - len) s with
         | (Ok (rc, rest), s) => (Ok (rc, bs ++ rest), s)
         | r => r
         end
  end.
Definition readFixSize (length : Z) (s : Sk) : outcome (Z * list Z) * Sk :=
  readFixSize_loop (Z.to_nat (i64 length)) length (i64 length) s.

Fixpoint writeFixSize_loop (fuel : nat) (length : Z) (left : list Z) (s : Sk) : outcome Z * Sk :=
  match left with
  | [] => (Ok (i32 length), s)
  | _ =>
    match fuel with
    | O => (Fuel, s)
    | S fuel =>
      let '(len, s) := write_buf left s in
      if len <=? 0 then (Ok (i32 len), s)
      else writeFixSize_loop fuel length (drop (Z.to_nat len) left) s
    end
  end.
Definition writeFixSize (bs : list Z) (s : Sk) : outcome Z * Sk :=
  writeFixSize_loop (length bs) (Z.of_nat (length bs)) bs s.

(** The [ByteArray] versions. *)
Fixpoint fix_ba_loop (io : Z → M (Sk * ByteArray) Z) (fuel : nat) (length left : Z)
    : M (Sk * ByteArray) Z :=
  if left <=? 0 then ret (i32 length) else
  match fuel with
  | O => lift Fuel
  | S fuel =>
    let! len := io left in
    if len <=? 0 then ret (i32 len) else fix_ba_loop io fuel length (left - len)
  end.
Definition readFixSize_ba (length : Z) := fix_ba_loop read_ba (Z.to_nat (i64 length)) length (i64 length).
Definition writeFixSize_ba (length : Z) := fix_ba_loop write_ba (Z.to_nat (i64 length)) length (i64 length).
End stream.

(** ** Tilings of the chain *)
(** [l] covers the memory from position [p] on, piece after piece. *)
Fixpoint tiles (b : ByteArray) (p : Z) (l : list iovec) : Prop :=
  match l with
  | [] => True
  | v :: l => Z.of_nat (iov_node v) * m_baseSize b + iov_off v = p ∧ iov_ok b v ∧
              tiles b (p + iov_len v) l
  end.

Lemma iov_loop_tiles b fuel : ∀ n i (off : nat) l,
  chain_ok b → (i < length (m_nodes b))%nat → Z.of_nat off < m_baseSize b →
  iov_loop b fuel (Some i) n (Z.of_nat off) (m_baseSize b - Z.of_nat off) = Ok l →
  tiles b (Z.of_nat i * m_baseSize b + Z.of_nat off) l.
Proof.
  induction fuel as [|fuel IH]; intros n i off l Hok Hi Hoff; cbn [iov_loop];
    destruct (Z.leb_spec n 0); try (intros [= <-]; done).
  pose proof (ok_base b Hok). cbn [default].
  destruct (Z.leb_spec n (m_baseSize b - Z.of_nat off)).
  { intros [= <-]. cbn. unfold iov_ok. cbn. repeat split; lia. }
  unfold next. destruct (decide (S i < length (m_nodes b))%nat) as [Hi2|]; [|done].
  destruct (lookup_lt_is_Some_2 _ _ Hi2) as [nd2 Hnd2]. cbn [deref]. rewrite Hnd2.
  cbn [of_option obind].
  pose proof (proj1 (Forall_lookup _ _) (ok_nodes b Hok) _ _ Hnd2) as [Hsz2 _]. rewrite Hsz2.
  destruct (iov_loop _ _ _ _ _ _) as [l'| | |] eqn:E; [|done..]. cbn [obind]. intros [= <-].
  pose proof (IH (n - (m_baseSize b - Z.of_nat off)) (S i) 0%nat l' Hok Hi2) as HH.
  change (Z.of_nat 0) with 0 in HH. rewrite Z.sub_0_r in HH. specialize (HH ltac:(lia) E).
  cbn [tiles iov_node iov_off iov_len]. split; [done|]. split; [unfold iov_ok; cbn; lia|].
  replace (Z.of_nat i * m_baseSize b + Z.of_nat off + (m_baseSize b - Z.of_nat off))
    with (Z.of_nat (S i) * m_baseSize b + 0) by lia. done.
Qed.

Lemma tiles_frame b b' p l : frame b b' → tiles b p l → tiles b' p l.
Proof.
  intros Hf. revert p. induction l as [|v l IH]; intros p; cbn; [done|].
  intros (E & Ho & Ht). split; [by rewrite (fr_base _ _ Hf)|]. split; [|by apply IH].
  unfold iov_ok in *. by rewrite (fr_base _ _ Hf), (fr_nodes _ _ Hf).
Qed.

Lemma iov_total_cons v l : iov_total (v :: l) = iov_len v + iov_total l.
Proof. done. Qed.

Lemma iov_total_nonneg b p l : tiles b p l → 0 ≤ iov_total l.
Proof.
  revert p. induction l as [|v l IH]; intros p; [done|]. cbn [tiles]. rewrite iov_total_cons.
  intros (_ & (_ & ? & _) & Ht). apply IH in Ht. lia.
Qed.

Lemma scatter_spec l : ∀ p bs b,
  chain_ok b → 0 ≤ p → tiles b p l → Z.of_nat (length bs) ≤ iov_total l →
  ∃ b', scatter l bs b = Ok b' ∧ chain_ok b' ∧ frame b b' ∧
    m_position b' = m_position b ∧
    contents b' = splice (Z.to_nat p) (Some <$> bs) (contents b).
Proof.
  assert (∀ p b, chain_ok b → ∃ b', Ok b = Ok b' ∧ chain_ok b' ∧ frame b b' ∧
    m_position b' = m_position b ∧ contents b' = splice (Z.to_nat p) [] (contents b)) as Hnil.
  { intros p b Hok. exists b. rewrite splice_nil. auto with helens. }
  induction l as [|[i o n] l IH]; intros p bs b Hok Hp Ht Hfit.
  { destruct bs; [by apply Hnil|]. cbn in Hfit. lia. }
  destruct bs as [|x bs0]; [by apply Hnil|]. cbn [scatter]. remember (x :: bs0) as bs.
  rewrite iov_total_cons in Hfit. cbn [tiles iov_node iov_off iov_len] in *.
  destruct Ht as (E & (Ho & Hn & Hon & Hi) & Ht). cbn in Ho, Hn, Hon, Hi.
  destruct (lookup_lt_is_Some_2 _ _ Hi) as [nd Hnd]. cbn [deref]. rewrite Hnd.
  cbn [of_option obind]. set (bs1 := take (Z.to_nat n) bs). set (bs2 := drop (Z.to_nat n) bs).
  assert (Z.of_nat (length bs1) = Z.min n (Z.of_nat (length bs))) as L1
    by (subst bs1; rewrite length_take; lia).
  destruct (store_in_node b i nd (Z.to_nat o) bs1 Hok Hnd ltac:(lia)) as (nd' & Hst & Hok1 & Hf1 & Hc1).
  rewrite Z2Nat.id in Hst, Hc1 by lia. cbn zeta in *. rewrite Hst. cbn [obind].
  set (b1 := with_nodes _ b) in *.
  destruct (IH (p + n) bs2 b1) as (b' & Hs & Hok' & Hf' & Hp' & Hc'); try done; try lia.
  { by eapply tiles_frame. }
  { subst bs2. rewrite length_drop. apply iov_total_nonneg in Ht. lia. }
  exists b'. split; [done|]. split; [done|]. split; [by eapply frame_trans|].
  split; [by rewrite Hp'|]. rewrite Hc', Hc1, E.
  destruct (decide (Z.of_nat (length bs) ≤ n)).
  - assert (bs2 = []) as -> by (apply drop_ge; lia). cbn [fmap list_fmap]. rewrite splice_nil.
    subst bs1. by rewrite take_ge by lia.
  - replace (Z.to_nat (p + n)) with (Z.to_nat p + length (Some <$> bs1))%nat
      by (rewrite length_fmap; lia).
    rewrite splice_app_past, <- fmap_app; [by subst bs1 bs2; rewrite take_drop|].
    pose proof (contents_length b Hok). pose proof (ok_cap b Hok). nia.
Qed.

(** ** [getWriteBuffers] *)
Lemma getWriteBuffers_spec n b :
  wf b → 0 < n → room b n →
  ∃ l k, getWriteBuffers n b = (Ok (n, l), addCapacity n b) ∧
    iov_total l = n ∧ tiles (addCapacity n b) (m_position b) l ∧
    chain_ok (addCapacity n b) ∧ contents (addCapacity n b) = contents b ++ replicate k None ∧
    m_position (addCapacity n b) = m_position b ∧ m_size (addCapacity n b) = m_size b ∧
    m_endian (addCapacity n b) = m_endian b ∧ m_baseSize (addCapacity n b) = m_baseSize b ∧
    m_position b + n ≤ m_capacity (addCapacity n b) ∧
    m_capacity b ≤ m_capacity (addCapacity n b) ≤
      Z.max (m_capacity b) (m_position b + n + m_baseSize b).
Proof.
  intros Hwf Hn [Hr1 Hr2]. pose proof Hwf as [Hok _]. pose proof (ok_base b Hok).
  pose proof (ok_pos b Hok).
  destruct (addCapacity_spec b n Hok Hn ltac:(lia)) as (k & Hok1 & Hct & Hp & Hs & He & Hb & Hc & Hf).
  cbn zeta in *. set (b1 := addCapacity n b) in *.
  destruct (locate b1 (m_position b1) Hok1 ltac:(lia)) as (i & nd & off & Hi & Hnd & Hmod & Ho & E & Hsz & _).
  unfold getWriteBuffers. destruct (Z.eqb_spec n 0); [lia|].
  unfold bind at 1, modst. fold b1. unfold bind at 1, getst. unfold bind at 1, lift at 1.
  rewrite (ok_cur b1 Hok1), Hi. cbn [deref]. rewrite Hnd. cbn [of_option]. rewrite Hmod, Hsz.
  rewrite (wrap_small 64) by (pose proof (ok_room b1 Hok1); pose proof (base_le_cap b1 Hok1); lia).
  destruct (iov_loop_spec b1 (S (length (m_nodes b1))) n i off) as (l & Hl & _ & Hsum & _);
    try done; try lia.
  { by apply lookup_lt_Some in Hnd. }
  exists l, k. unfold bind, lift, ret. rewrite Hl. split; [done|]. split; [done|].
  apply lookup_lt_Some in Hnd as Hlt.
  apply (iov_loop_tiles b1 _ _ i off l Hok1 Hlt Ho) in Hl. rewrite <- E, Hp in Hl.
  split_and!; done || lia.
Qed.

(** ** Transfers

    One [read] into a buffer appends what the socket delivered; one [write]
    consumes what it accepted. *)
Section laws.
Context {Sk : Type} `{SocketLaws Sk}.
Implicit Types (s : Sk) (b : ByteArray).

Lemma receive_spec n l bs b :
  wf b → room b n → 0 < n →
  getWriteBuffers n b = (Ok (n, l), addCapacity n b) →
  0 < Z.of_nat (length bs) ≤ n →
  ∃ b1 b2, scatter l bs (addCapacity n b) = Ok b1 ∧
    setPosition (u64 (m_position b1 + Z.of_nat (length bs))) b1 = (Ok tt, b2) ∧ writes bs b b2.
Proof.
  intros Hwf Hroom Hn Hg Hbs.
  destruct (getWriteBuffers_spec n b Hwf Hn Hroom)
    as (l' & k & Hg' & Htot & Ht & Hok & Hct & Hp & Hs & He & Hb & Hfit & Hcap).
  rewrite Hg in Hg'. injection Hg' as <-. set (b0 := addCapacity n b) in *.
  pose proof (ok_pos b0 Hok). pose proof (ok_room b0 Hok).
  destruct (scatter_spec l (m_position b) bs b0) as (b1 & Hsc & Hok1 & [] & Hp1 & Hc1); try done; try lia.
  assert (wf b1) as Hwf1 by (split; [done|]; destruct Hwf; lia).
  exists b1. rewrite Hp1, Hp, (wrap_small 64), setPosition_spec by (done || lia).
  rewrite decide_True by lia. eexists; split; [done|]. split; [done|].
  assert (chain_ok (with_size (Z.max (m_position b + Z.of_nat (length bs)) (m_size b1)) b1)) as Hok2
    by (destruct Hok1; by split).
  split; cbn; try done; try congruence; try lia.
  - split; [apply move_chain_ok; [done|]; cbn; lia|]. cbn. destruct Hwf; lia.
  - unfold abs, spec_write. cbn [buf_data buf_pos]. f_equal; [|cbn; lia].
    apply (data_after_splice b _ bs k Hwf).
    + change (contents (move _ _)) with (contents b1). by rewrite Hc1, Hct.
    + cbn. lia.
    + rewrite <- Hct. pose proof (contents_length b0 Hok). lia.
  - intros m [? ?]. unfold room in *. cbn. lia.
Qed.

Lemma read_ba_spec n s b :
  isConnected s = true → incoming s ≠ [] → wf b → 0 < n → room b n →
  ∃ k s' b', read_ba n (s, b) = (Ok (Z.of_nat k), (s', b')) ∧
    (0 < k ≤ length (incoming s))%nat ∧ Z.of_nat k ≤ n ∧
    incoming s' = drop k (incoming s) ∧ outgoing s' = outgoing s ∧ isConnected s' = true ∧
    writes (take k (incoming s)) b b'.
Proof.
  intros Hconn Hin Hwf Hn Hroom.
  destruct (getWriteBuffers_spec n b Hwf Hn Hroom) as (l & _ & Hg & Htot & _).
  destruct (recv_some n s Hconn Hn Hin) as (k & s' & Hrecv & Hk & Hkn & Hin' & Hout & Hc').
  assert (length (take k (incoming s)) = k) as Hlk by (rewrite length_take; lia).
  destruct (receive_spec n l (take k (incoming s)) b) as (b1 & b2 & Hsc & Hset & Hw); try done; try lia.
  exists k, s', b2. split; [|done].
  unfold read_ba, bind at 1, getst. cbn [fst]. rewrite Hconn. cbn [negb].
  unfold bind at 1, on_ba at 1. cbn [snd fst]. rewrite Hg.
  unfold bind at 1, on_sock. cbn [fst snd]. rewrite Htot, Hrecv.
  unfold bind at 1, on_ba at 1. cbn [fst snd]. unfold bind at 1, getst. unfold bind at 1, lift. rewrite Hsc.
  cbn [putst fst snd]. rewrite Hlk in Hset. destruct (Z.ltb_spec 0 (Z.of_nat k)); [|lia].
  unfold bind at 1, on_ba. cbn [fst snd]. unfold bind, getst. by rewrite Hset.
Qed.

Lemma write_ba_spec n s b bs :
  isConnected s = true → wf b → readable b bs → bs ≠ [] → n = Z.of_nat (length bs) →
  ∃ k s', write_ba n (s, b) = (Ok (Z.of_nat k), (s', advance k b)) ∧
    (0 < k ≤ length bs)%nat ∧
    incoming s' = incoming s ∧ outgoing s' = outgoing s ++ take k bs ∧ isConnected s' = true.
Proof.
  intros Hconn Hwf Hr Hne ->. pose proof (readable_fits b bs Hwf Hr) as Hfit.
  pose proof Hwf as [Hok [? ?]]. pose proof (ok_pos b Hok). pose proof (ok_room b Hok).
  destruct (send_some bs s Hconn Hne) as (k & s' & Hsend & Hk & Hin & Hout & Hc').
  exists k, s'. split; [|done].
  destruct (getReadBuffers_spec (Z.of_nat (length bs)) b Hwf ltac:(lia)) as (l & Hg & _ & _ & Hga).
  cbn zeta in *. rewrite Z.min_l in Hg, Hga by lia. rewrite Nat2Z.id, Hr in Hga.
  unfold write_ba, bind at 1, getst. cbn [fst snd]. rewrite Hconn. cbn [negb].
  unfold bind at 1, lift at 1. rewrite Hg. unfold bind at 1, lift. cbn [snd]. rewrite Hga, cells_val_some.
  unfold bind at 1, on_sock. cbn [fst snd]. rewrite Hsend.
  destruct (Z.ltb_spec 0 (Z.of_nat k)); [|lia].
  unfold bind at 1, on_ba. cbn [fst snd]. unfold bind, getst.
  rewrite (wrap_small 64), setPosition_spec by (done || lia). rewrite decide_True by lia.
  rewrite Z.max_r by lia. unfold ret. cbn. do 2 f_equal.
Qed.

(** ** Whole lengths *)
Lemma take_drop_split (k n : nat) (l : list Z) : (k ≤ n)%nat → take k l ++ take (n - k) (drop k l) = take n l.
Proof. intros. rewrite take_take_drop. f_equal. lia. Qed.

Lemma readFixSize_loop_ok fuel : ∀ len n s,
  isConnected s = true → (n ≤ length (incoming s))%nat → (n ≤ fuel)%nat →
  ∃ s', readFixSize_loop fuel len (Z.of_nat n) s = (Ok (i32 len, take n (incoming s)), s') ∧
    incoming s' = drop n (incoming s) ∧ outgoing s' = outgoing s ∧ isConnected s' = true.
Proof.
  induction fuel as [|fuel IH]; intros len n s Hconn Hn Hf; cbn [readFixSize_loop].
  { assert (n = 0%nat) as -> by lia. exists s. by rewrite take_0, drop_0. }
  destruct (Z.leb_spec (Z.of_nat n) 0).
  { assert (n = 0%nat) as -> by lia. exists s. by rewrite take_0, drop_0. }
  unfold read_buf. rewrite Hconn.
  destruct (recv_some (Z.of_nat n) s Hconn) as (k & s1 & -> & Hk & Hkn & Hin & Hout & Hc1); [lia| |].
  { intros E. rewrite E in Hn. cbn in Hn. lia. }
  destruct (Z.leb_spec (Z.of_nat k) 0); [lia|].
  replace (Z.of_nat n - Z.of_nat k) with (Z.of_nat (n - k)) by lia.
  destruct (IH len (n - k)%nat s1 Hc1) as (s2 & -> & Hin2 & Hout2 & Hc2); [rewrite Hin, length_drop; lia|lia|].
  exists s2. split; [|split; [|split; [congruence|done]]].
  - rewrite Hin. by rewrite take_drop_split by lia.
  - rewrite Hin2, Hin, drop_drop. f_equal. lia.
Qed.

Lemma readFixSize_ok n s :
  isConnected s = true → (n ≤ length (incoming s))%nat → Z.of_nat n < 2 ^ 31 →
  ∃ s', readFixSize (Z.of_nat n) s = (Ok (Z.of_nat n, take n (incoming s)), s') ∧
    incoming s' = drop n (incoming s) ∧ outgoing s' = outgoing s ∧ isConnected s' = true.
Proof.
  intros. unfold readFixSize. rewrite i64_small, Nat2Z.id by lia.
  destruct (readFixSize_loop_ok n (Z.of_nat n) n s) as (s' & E & ?); try done.
  exists s'. rewrite E, i32_small by lia. done.
Qed.

Lemma writeFixSize_loop_ok fuel : ∀ len bs s,
  isConnected s = true → (length bs ≤ fuel)%nat →
  ∃ s', writeFixSize_loop fuel len bs s = (Ok (i32 len), s') ∧
    incoming s' = incoming s ∧ outgoing s' = outgoing s ++ bs ∧ isConnected s' = true.
Proof.
  induction fuel as [|fuel IH]; intros len bs s Hconn Hf.
  { destruct bs; [|cbn in Hf; lia]. exists s. by rewrite app_nil_r. }
  destruct bs as [|x bs0]; [exists s; by rewrite app_nil_r|]. cbn [writeFixSize_loop].
  remember (x :: bs0) as bs. unfold write_buf. rewrite Hconn.
  destruct (send_some bs s Hconn) as (k & s1 & -> & Hk & Hin & Hout & Hc1); [by subst|].
  destruct (Z.leb_spec (Z.of_nat k) 0); [lia|]. rewrite Nat2Z.id.
  destruct (IH len (drop k bs) s1 Hc1) as (s2 & -> & Hin2 & Hout2 & Hc2); [rewrite length_drop; lia|].
  exists s2. split; [done|]. split; [congruence|]. split; [|done].
  by rewrite Hout2, Hout, <- app_assoc, take_drop.
Qed.

Lemma writeFixSize_ok bs s :
  isConnected s = true → Z.of_nat (length bs) < 2 ^ 31 →
  ∃ s', writeFixSize bs s = (Ok (Z.of_nat (length bs)), s') ∧
    incoming s' = incoming s ∧ outgoing s' = outgoing s ++ bs ∧ isConnected s' = true.
Proof.
  intros. unfold writeFixSize.
  destruct (writeFixSize_loop_ok (length bs) (Z.of_nat (length bs)) bs s) as (s' & E & ?); try done.
  exists s'. rewrite E, i32_small by lia. done.
Qed.

Lemma read_ba_loop_ok fuel : ∀ len n s b,
  isConnected s = true → (n ≤ length (incoming s))%nat → (n ≤ fuel)%nat →
  wf b → room b (Z.of_nat n) →
  ∃ s' b', fix_ba_loop read_ba fuel len (Z.of_nat n) (s, b) = (Ok (i32 len), (s', b')) ∧
    incoming s' = drop n (incoming s) ∧ outgoing s' = outgoing s ∧ isConnected s' = true ∧
    writes (take n (incoming s)) b b'.
Proof.
  induction fuel as [|fuel IH]; intros len n s b Hconn Hn Hf Hwf Hroom; cbn [fix_ba_loop].
  { assert (n = 0%nat) as -> by lia. exists s, b. rewrite take_0, drop_0. split_and!; try done.
    by apply writes_nil. }
  destruct (Z.leb_spec (Z.of_nat n) 0).
  { assert (n = 0%nat) as -> by lia. exists s, b. rewrite take_0, drop_0. split_and!; try done.
    by apply writes_nil. }
  destruct (read_ba_spec (Z.of_nat n) s b) as (k & s1 & b1 & Hrd & Hk & Hkn & Hin & Hout & Hc1 & Hw1);
    try done; try lia.
  { intros E. rewrite E in Hn. cbn in Hn. lia. }
  mstep Hrd. destruct (Z.leb_spec (Z.of_nat k) 0); [lia|].
  replace (Z.of_nat n - Z.of_nat k) with (Z.of_nat (n - k)) by lia.
  destruct (IH len (n - k)%nat s1 b1 Hc1) as (s2 & b2 & E2 & Hin2 & Hout2 & Hc2 & Hw2).
  { rewrite Hin, length_drop. lia. } { lia. } { apply Hw1. }
  { apply (wr_room _ _ _ Hw1). rewrite length_take, Nat.min_l by lia.
    by replace (Z.of_nat k + Z.of_nat (n - k)) with (Z.of_nat n) by lia. }
  exists s2, b2. split; [done|]. split; [rewrite Hin2, Hin, drop_drop; f_equal; lia|].
  split; [congruence|]. split; [done|].
  rewrite Hin in Hw2. rewrite <- (take_drop_split k n) by lia. by eapply writes_app.
Qed.

Lemma readFixSize_ba_ok n s b :
  isConnected s = true → (n ≤ length (incoming s))%nat → Z.of_nat n < 2 ^ 31 →
  wf b → room b (Z.of_nat n) →
  ∃ s' b', readFixSize_ba (Z.of_nat n) (s, b) = (Ok (Z.of_nat n), (s', b')) ∧
    incoming s' = drop n (incoming s) ∧ outgoing s' = outgoing s ∧ isConnected s' = true ∧
    writes (take n (incoming s)) b b'.
Proof.
  intros. unfold readFixSize_ba. rewrite i64_small, Nat2Z.id by lia.
  destruct (read_ba_loop_ok n (Z.of_nat n) n s b) as (s' & b' & E & ?); try done.
  exists s', b'. rewrite E, i32_small by lia. done.
Qed.

Lemma write_ba_loop_ok fuel : ∀ len bs s b,
  isConnected s = true → (length bs ≤ fuel)%nat → wf b → readable b bs →
  ∃ s', fix_ba_loop write_ba fuel len (Z.of_nat (length bs)) (s, b) =
      (Ok (i32 len), (s', advance (length bs) b)) ∧
    incoming s' = incoming s ∧ outgoing s' = outgoing s ++ bs ∧ isConnected s' = true.
Proof.
  induction fuel as [|fuel IH]; intros len bs s b Hconn Hf Hwf Hr.
  { destruct bs; [|cbn in Hf; lia]. exists s. by rewrite app_nil_r, advance_0. }
  destruct (decide (bs = [])) as [->|Hne]; [exists s; by rewrite app_nil_r, advance_0|].
  cbn [fix_ba_loop]. destruct (Z.leb_spec (Z.of_nat (length bs)) 0); [destruct bs; [done|cbn in *; lia]|].
  destruct (write_ba_spec _ s b bs Hconn Hwf Hr Hne eq_refl) as (k & s1 & Hwr & Hk & Hin & Hout & Hc1).
  mstep Hwr. destruct (Z.leb_spec (Z.of_nat k) 0); [lia|].
  rewrite <- (take_drop k bs) in Hr. destruct (readable_app _ _ _ Hwf Hr) as [Hr1 Hr2].
  assert (length (take k bs) = k) as Hlk by (rewrite length_take; lia). rewrite Hlk in Hr2.
  destruct (IH len (drop k bs) s1 (advance k b) Hc1) as (s2 & E2 & Hin2 & Hout2 & Hc2);
    [rewrite length_drop; lia|rewrite <- Hlk; by apply advance_wf|done|].
  rewrite length_drop in E2. replace (Z.of_nat (length bs) - Z.of_nat k) with (Z.of_nat (length bs - k)) by lia.
  rewrite E2, advance_advance. exists s2. split; [do 3 f_equal; lia|]. split; [congruence|]. split; [|done].
  by rewrite Hout2, Hout, <- app_assoc, take_drop.
Qed.

Lemma writeFixSize_ba_ok bs s b :
  isConnected s = true → Z.of_nat (length bs) < 2 ^ 31 → wf b → readable b bs →
  ∃ s', writeFixSize_ba (Z.of_nat (length bs)) (s, b) =
      (Ok (Z.of_nat (length bs)), (s', advance (length bs) b)) ∧
    incoming s' = incoming s ∧ outgoing s' = outgoing s ++ bs ∧ isConnected s' = true.
Proof.
  intros. unfold writeFixSize_ba. rewrite i64_small, Nat2Z.id by lia.
  destruct (write_ba_loop_ok (length bs) (Z.of_nat (length bs)) bs s b) as (s' & E & ?); try done.
  exists s'. rewrite E, i32_small by lia. done.
Qed.
End laws.

(** ** A concrete socket

    A pipe that moves at most [pipe_max + 1] bytes per call: the instance the
    examples run on. *)
Record pipe := mkPipe { pipe_in : list Z; pipe_out : list Z; pipe_max : nat }.

#[export] Instance pipe_socket : Socket pipe := {
  isConnected _ := true;
  recv n s :=
    let k := Nat.min (Z.to_nat n) (Nat.min (length (pipe_in s)) (1 + pipe_max s)) in
    ((Z.of_nat k, take k (pipe_in s)), mkPipe (drop k (pipe_in s)) (pipe_out s) (pipe_max s));
  send bs s :=
    let k := Nat.min (length bs) (1 + pipe_max s) in
    (Z.of_nat k, mkPipe (pipe_in s) (pipe_out s ++ take k bs) (pipe_max s))
}.

#[export] Instance pipe_laws : SocketLaws pipe.
Proof.
  refine {| incoming := pipe_in; outgoing := pipe_out |}.
  - intros n s _ Hn Hin. do 2 eexists. split; [reflexivity|].
    assert (0 < length (pipe_in s))%nat by (destruct (pipe_in s); [done|cbn; lia]).
    cbn [pipe_in pipe_out]. split_and!; try done; lia.
  - intros bs s _ Hbs. do 2 eexists. split; [reflexivity|].
    assert (0 < length bs)%nat by (destruct bs; [done|cbn; lia]).
    cbn [pipe_in pipe_out]. split_and!; try done; lia.
Defined.

(** ** Fixed-size transfers *)
(** However the sockets fragment the traffic, [writeFixSize] puts exactly the
    [n] unread bytes of the sender's buffer on the wire, and a [readFixSize] of
    [n] at the other end, finding them at the head of its input, consumes just
    them and appends them to its own buffer; both report [n]. *)
Theorem fixed_size_transfer {Sk} `{SocketLaws Sk} (bs rest : list Z) (s r : Sk) (b c : ByteArray) :
  isConnected s = true → isConnected r = true → Z.of_nat (length bs) < 2 ^ 31 →
  wf b → readable b bs → wf c → room c (Z.of_nat (length bs)) → incoming r = bs ++ rest →
  ∃ s' r' c',
    writeFixSize_ba (Z.of_nat (length bs)) (s, b) =
      (Ok (Z.of_nat (length bs)), (s', advance (length bs) b)) ∧
    outgoing s' = outgoing s ++ bs ∧
    readFixSize_ba (Z.of_nat (length bs)) (r, c) = (Ok (Z.of_nat (length bs)), (r', c')) ∧
    incoming r' = rest ∧ wf c' ∧ abs c' = spec_write bs (abs c).
Proof.
  intros Hs Hr Hlen Hb Hrd Hc Hroom Hin.
  destruct (writeFixSize_ba_ok bs s b) as (s' & Ew & _ & Hout & _); try done.
  destruct (readFixSize_ba_ok (length bs) r c) as (r' & c' & Er & Hin' & _ & _ & Hw); try done.
  { rewrite Hin, length_app. lia. }
  rewrite Hin, take_app_length in Hw. rewrite Hin, drop_app_length in Hin'.
  exists s', r', c'. split_and!; try done; apply Hw.
Qed.

Lemma sample_readable : readable sample_array [2; 3; 4; 5].
Proof. done. Qed.

Lemma fixed_size_transfer_witness :
  ∃ s' r' c',
    writeFixSize_ba 4 (mkPipe [] [9] 1, sample_array) =
      (Ok 4, (s', advance 4 sample_array)) ∧
    outgoing s' = [9] ++ [2; 3; 4; 5] ∧
    readFixSize_ba 4 (mkPipe [2; 3; 4; 5; 6] [] 2, new_ByteArray 3) = (Ok 4, (r', c')) ∧
    incoming r' = [6] ∧ wf c' ∧ abs c' = spec_write [2; 3; 4; 5] (abs (new_ByteArray 3)).
Proof.
  assert (0 < 3 < 2 ^ 64) as Hc by lia.
  assert (room (new_ByteArray 3) (Z.of_nat 4)) as Hroom by (unfold room; cbn; lia).
  exact (fixed_size_transfer [2; 3; 4; 5] [6] (mkPipe [] [9] 1) (mkPipe [2; 3; 4; 5; 6] [] 2)
    sample_array (new_ByteArray 3) eq_refl eq_refl eq_refl sample_array_wf sample_readable
    (new_ByteArray_wf 3 Hc) Hroom eq_refl).
Defined.
