(* ===== verification/ZlibStream.v ===== *)
(** * Compressed streams (Helens/streams/zlib_stream.{h,cc})

    A [ZlibStream] collects what zlib makes of the bytes written to it in buffers of
    one size.  zlib itself is a class: its functions, and what its manual says of
    them.  What a stream deflates, another one inflates to the same bytes, whatever
    pieces they are written in. *)
From S2P Require Import Prelude ByteArray ByteArraySpec ByteArrayCodec ByteArrayBulk ByteArrayThms.

(** ** zlib *)
Definition Z_OK : Z := 0.
Definition Z_STREAM_ERROR : Z := -2.
Definition Z_NO_FLUSH : Z := 0.
Definition Z_FINISH : Z := 4.

(** A call of [deflate] or [inflate] gets the bytes at [next_in], the space at
    [next_out] and [flush]; it gives the return code, the input it left, and its
    output. *)
Class Zlib (St : Type) := {
  deflateInit2 (level windowBits memLevel strategy : Z) : Z * St;
  inflateInit2 (windowBits : Z) : Z * St;
  deflate (strm : St) (next_in : list Z) (avail_out flush : Z) : Z * (list Z * list Z * St);
  inflate (strm : St) (next_in : list Z) (avail_out flush : Z) : Z * (list Z * list Z * St);
  deflateEnd : St → St;
  inflateEnd : St → St
}.

(** ** The stream *)
Inductive zlib_type := ZLIB | DEFLATE | GZIP.
Definition DEFAULT_COMPRESSION : Z := -1.

Section stream.
Context {St : Type} `{Zlib St}.

(** Of a buffer, the bytes up to its [iov_len]. *)
Record ZlibStream := mkZlibStream { m_zstream : St; m_buffSize : Z; m_encode : bool; m_free : bool; m_buffs : list (list Z) }.

Definition zs_init (encode : bool) (type : zlib_type) (level window_bits memlevel strategy : Z) : outcome (Z * St) :=
  obind (assert ((0 <=? level) && (level <=? 9) || (level =? DEFAULT_COMPRESSION))) (λ _,
  obind (assert ((8 <=? window_bits) && (window_bits <=? 15))) (λ _,
  obind (assert ((1 <=? memlevel) && (memlevel <=? 9))) (λ _,
  let window_bits := match type with DEFLATE => - window_bits | GZIP => window_bits + 16 | ZLIB => window_bits end in
  Ok (if encode then deflateInit2 level window_bits memlevel strategy else inflateInit2 window_bits)))).
(** [None] is the null pointer. *)
Definition Create (encode : bool) (buff_size : Z) (type : zlib_type) (level window_bits memlevel strategy : Z) : outcome (option ZlibStream) :=
  obind (zs_init encode type level window_bits memlevel strategy) (λ r,
  Ok (if r.1 =? Z_OK then Some (mkZlibStream (r.2) buff_size encode true []) else None)).
Definition CreateGzip (encode : bool) (buff_size : Z) := Create encode buff_size GZIP DEFAULT_COMPRESSION 15 8 0.
Definition CreateZlib (encode : bool) (buff_size : Z) := Create encode buff_size ZLIB DEFAULT_COMPRESSION 15 8 0.
Definition CreateDeflate (encode : bool) (buff_size : Z) := Create encode buff_size DEFLATE DEFAULT_COMPRESSION 15 8 0.

Definition set_buffs (z : St) (bs : list (list Z)) (s : ZlibStream) : ZlibStream :=
  mkZlibStream z (m_buffSize s) (m_encode s) (m_free s) bs.
(** The buffer to fill: the last one unless it is full, or a new one behind them. *)
Definition back_buffer (s : ZlibStream) : list (list Z) * list Z :=
  match last (m_buffs s) with
  | Some b => if negb (Z.of_nat (length b) =? m_buffSize s) then (removelast (m_buffs s), b) else (m_buffs s, [])
  | None => (m_buffs s, [])
  end.

(** The inner loop of [encode] and [decode]; [run] is [deflate] or [inflate]. *)
Fixpoint fill (fuel : nat) (run : St → list Z → Z → Z → Z * (list Z * list Z * St)) (flush : Z) (next_in : list Z) (s : ZlibStream)
    : outcome (Z * ZlibStream) :=
  match fuel with
  | O => Fuel
  | S fuel =>
    let '(front, ivc) := back_buffer s in
    let avail_out := m_buffSize s - Z.of_nat (length ivc) in
    let '(rt, (next_in, out, z)) := run (m_zstream s) next_in avail_out flush in
    if rt =? Z_STREAM_ERROR then Ok (rt, set_buffs z (front ++ [ivc]) s) else
    let avail_out := avail_out - Z.of_nat (length out) in
    let s := set_buffs z (front ++ [ivc ++ out]) s in
    if avail_out =? 0 then fill fuel run flush next_in s else Ok (Z_OK, s)
  end.
(** The outer loop, over the [iovec]s; [avail_in] is an [unsigned int]. *)
Fixpoint code (fuel : nat) (run : St → list Z → Z → Z → Z * (list Z * list Z * St)) (finish : bool) (v : list (list Z)) (s : ZlibStream)
    : outcome (Z * ZlibStream) :=
  match v with
  | [] => Ok (Z_OK, s)
  | d :: v =>
    let flush := if finish then (if bool_decide (v = []) then Z_FINISH else Z_NO_FLUSH) else Z_NO_FLUSH in
    obind (fill fuel run flush (take (Z.to_nat (u32 (Z.of_nat (length d)))) d) s) (λ r,
    if r.1 =? Z_STREAM_ERROR then Ok r else code fuel run finish v (r.2))
  end.
Definition ended (stop : St → St) (finish : bool) (v : list (list Z)) (r : Z * ZlibStream) : Z * ZlibStream :=
  if (r.1 =? Z_OK) && finish && negb (bool_decide (v = [])) then (r.1, set_buffs (stop (m_zstream (r.2))) (m_buffs (r.2)) (r.2)) else r.
Definition zs_encode (fuel : nat) (v : list (list Z)) (finish : bool) (s : ZlibStream) : outcome (Z * ZlibStream) :=
  obind (code fuel deflate finish v s) (λ r, Ok (ended deflateEnd finish v r)).
Definition zs_decode (fuel : nat) (v : list (list Z)) (finish : bool) (s : ZlibStream) : outcome (Z * ZlibStream) :=
  obind (code fuel inflate finish v s) (λ r, Ok (ended inflateEnd finish v r)).

Definition zs_read (s : ZlibStream) : outcome Z := Throw LogicError.
(** [write(const void*, size_t)] *)
Definition zs_write (fuel : nat) (bs : list Z) (s : ZlibStream) : outcome (Z * ZlibStream) :=
  if m_encode s then zs_encode fuel [bs] false s else zs_decode fuel [bs] false s.
(** [write(ByteArray::ptr, size_t)]; [&buffers[0]] needs a buffer. *)
Fixpoint iov_bytes (b : ByteArray) (l : list iovec) : outcome (list (list Z)) :=
  match l with
  | [] => Ok []
  | v :: l => obind (cells_val (iov_cells b v)) (λ bs, obind (iov_bytes b l) (λ bss, Ok (bs :: bss)))
  end.
Definition zs_write_array (fuel : nat) (ba : ByteArray) (length : Z) (s : ZlibStream) : outcome (Z * ZlibStream) :=
  obind (getReadBuffers (u64 length) ba) (λ rb,
  if bool_decide (rb.2 = []) then Undef EmptyAccess else
  obind (iov_bytes ba (rb.2)) (λ v, if m_encode s then zs_encode fuel v false s else zs_decode fuel v false s)).
Definition zs_flush (fuel : nat) (s : ZlibStream) : outcome (Z * ZlibStream) :=
  if m_encode s then zs_encode fuel [[]] true s else zs_decode fuel [[]] true s.
Definition zs_close (fuel : nat) (s : ZlibStream) : outcome (Z * ZlibStream) := zs_flush fuel s.

Definition getResult (s : ZlibStream) : list Z := concat (m_buffs s).
(** [ByteArray(size_t base_size = 4096)] *)
Definition DEFAULT_BASE_SIZE : Z := 4096.
Fixpoint write_all (bss : list (list Z)) : M ByteArray unit :=
  match bss with [] => ret tt | bs :: bss => write bs ;;! write_all bss end.
Definition getByteArray (s : ZlibStream) : outcome ByteArray :=
  let '(o, ba) := (write_all (m_buffs s) ;;! setPosition 0) (new_ByteArray DEFAULT_BASE_SIZE) in obind o (λ _, Ok ba).

(** The use [HttpConnection::recvResponse] makes of a stream: a body written to it,
    flushed, and the result taken. *)
Definition inflated (fuel : nat) (gzip : bool) (body : list Z) : outcome (list Z) :=
  obind (if gzip then CreateGzip false 4096 else CreateDeflate false 4096) (λ z,
  match z with
  | None => Undef NullDeref
  | Some zs => obind (zs_write fuel body zs) (λ r, obind (zs_flush fuel (r.2)) (λ r, Ok (getResult (r.2))))
  end).
End stream.
Arguments ZlibStream : clear implicits.

(** ** What zlib promises

    [gz w plain cs]: [cs] is a stream of the format that [w] selects, and holds
    [plain].  [deflating w fin z xs ys] and [inflating w z xs ys]: a stream that was
    made with [w] has taken the bytes [xs] and given [ys]; [fin] when it was told to
    finish.  Both functions go on until the input is taken or the output space is
    full; an output that is not full is all there is, and of a finished [deflate] it
    is the end of a stream.  [inflate] gives what a stream holds as it gets its bytes.
    Initialisation succeeds: there is memory. *)
Class ZlibLaws (St : Type) `{Zlib St} := {
  gz : Z → list Z → list Z → Prop;
  deflating : Z → bool → St → list Z → list Z → Prop;
  inflating : Z → St → list Z → list Z → Prop;
  deflateBound : nat → nat;
  gz_some w plain cs : gz w plain cs → cs ≠ [];
  deflateBound_mono n m : (n ≤ m)%nat → (deflateBound n ≤ deflateBound m)%nat;
  deflate_init level w mem strategy : ∃ z, deflateInit2 level w mem strategy = (Z_OK, z) ∧ deflating w false z [] [];
  inflate_init w : ∃ z, inflateInit2 w = (Z_OK, z) ∧ inflating w z [] [];
  deflate_step w fin z xs ys next_in n fl : deflating w fin z xs ys → 0 < n → fl = Z_NO_FLUSH ∧ fin = false ∨ fl = Z_FINISH →
    ∃ rt used rest out z', deflate z next_in n fl = (rt, (rest, out, z')) ∧ rt ≠ Z_STREAM_ERROR ∧ next_in = used ++ rest ∧
      Z.of_nat (length out) ≤ n ∧ deflating w (bool_decide (fl = Z_FINISH)) z' (xs ++ used) (ys ++ out) ∧
      (length (ys ++ out) ≤ deflateBound (length (xs ++ used)))%nat ∧
      (Z.of_nat (length out) < n → rest = [] ∧ (fl = Z_FINISH → gz w (xs ++ used) (ys ++ out)));
  inflate_step w plain cs z xs ys next_in n fl : gz w plain cs → inflating w z xs ys → (xs ++ next_in) `prefix_of` cs → 0 < n →
    ∃ rt used rest out z', inflate z next_in n fl = (rt, (rest, out, z')) ∧ rt ≠ Z_STREAM_ERROR ∧ next_in = used ++ rest ∧
      Z.of_nat (length out) ≤ n ∧ inflating w z' (xs ++ used) (ys ++ out) ∧ (ys ++ out) `prefix_of` plain ∧
      (Z.of_nat (length out) < n → rest = [] ∧ (xs ++ used = cs → ys ++ out = plain))
}.

(** ** The loops

    For a function that follows such a law, with [limit] a bound on its output. *)
Section loops.
Context {St : Type} `{Zlib St} (run : St → list Z → Z → Z → Z * (list Z * list Z * St)).
Context (inv : bool → St → list Z → list Z → Prop) (fits : list Z → Prop) (limit : nat) (final : bool → list Z → list Z → Prop).
Definition run_law : Prop := ∀ fin z xs ys next_in n fl,
  inv fin z xs ys → fits (xs ++ next_in) → 0 < n → fl = Z_NO_FLUSH ∧ fin = false ∨ fl = Z_FINISH →
  ∃ rt used rest out z', run z next_in n fl = (rt, (rest, out, z')) ∧ rt ≠ Z_STREAM_ERROR ∧ next_in = used ++ rest ∧
    Z.of_nat (length out) ≤ n ∧ inv (bool_decide (fl = Z_FINISH)) z' (xs ++ used) (ys ++ out) ∧ (length (ys ++ out) ≤ limit)%nat ∧
    (Z.of_nat (length out) < n → rest = [] ∧ final (bool_decide (fl = Z_FINISH)) (xs ++ used) (ys ++ out)).
#[local] Set Default Proof Using "Type*".
Hypothesis Hrun : run_law.
Implicit Types s : ZlibStream St.

(** The buffers are no longer than their size. *)
Definition buffs_ok s : Prop := 0 < m_buffSize s ∧ Forall (λ b, Z.of_nat (length b) ≤ m_buffSize s) (m_buffs s).
Definition same_kind s s' : Prop := m_buffSize s' = m_buffSize s ∧ m_encode s' = m_encode s.
Lemma back_buffer_spec s : buffs_ok s → ∃ front b, back_buffer s = (front, b) ∧ Z.of_nat (length b) < m_buffSize s ∧
  getResult s = concat front ++ b ∧ Forall (λ b, Z.of_nat (length b) ≤ m_buffSize s) front.
Proof.
  intros [Hs Hb]. unfold back_buffer, getResult. destruct (m_buffs s) as [|b0 bs _] eqn:E using rev_ind.
  { exists [], []. split_and!; done. }
  rewrite last_snoc. apply Forall_app in Hb as [Hbs Hb0]. rewrite Forall_singleton in Hb0.
  destruct (Z.eqb_spec (Z.of_nat (length b0)) (m_buffSize s)); cbn [negb].
  - exists (bs ++ [b0]), []. split; [done|]. split; [done|]. split; [by rewrite app_nil_r|]. apply Forall_app; split; [done|by rewrite Forall_singleton].
  - exists bs, b0. rewrite removelast_last, concat_app. cbn [concat]. rewrite app_nil_r. split_and!; try done. lia.
Qed.

Lemma fill_loop_ok fuel : ∀ next_in s fin xs fl, buffs_ok s → inv fin (m_zstream s) xs (getResult s) → fits (xs ++ next_in) →
  fl = Z_NO_FLUSH ∧ fin = false ∨ fl = Z_FINISH → (limit - length (getResult s) < fuel)%nat →
  ∃ s', fill fuel run fl next_in s = Ok (Z_OK, s') ∧ buffs_ok s' ∧ same_kind s s' ∧
    let fin' := bool_decide (fl = Z_FINISH) in
    inv fin' (m_zstream s') (xs ++ next_in) (getResult s') ∧ final fin' (xs ++ next_in) (getResult s') ∧ (length (getResult s) ≤ length (getResult s') ≤ limit)%nat.
Proof.
  induction fuel as [|fuel IH]; intros next_in s fin xs fl Hb Hinv Hfit Hfl Hfuel; [lia|]. cbn [fill].
  destruct (back_buffer_spec s Hb) as (front & b & -> & Hlb & Hres & Hfront).
  destruct (Hrun fin (m_zstream s) xs (getResult s) next_in (m_buffSize s - Z.of_nat (length b)) fl Hinv Hfit ltac:(lia) Hfl)
    as (rt & used & rest & out & z' & -> & Hrt & -> & Hlo & Hinv' & Hlim & Hfin).
  rewrite (proj2 (Z.eqb_neq _ _) Hrt). set (s1 := set_buffs z' (front ++ [b ++ out]) s).
  assert (getResult s1 = getResult s ++ out) as Hr1.
  { unfold s1, getResult. cbn [m_buffs set_buffs]. rewrite concat_app. cbn [concat]. rewrite app_nil_r, app_assoc. by f_equal. }
  assert (buffs_ok s1) as Hb1.
  { split; [apply Hb|]. apply Forall_app; split; [done|]. rewrite Forall_singleton. cbn. rewrite length_app. lia. }
  rewrite length_app in Hlim. destruct (Z.eqb_spec (m_buffSize s - Z.of_nat (length b) - Z.of_nat (length out)) 0) as [Hfull|Hroom].
  - destruct (IH rest s1 (bool_decide (fl = Z_FINISH)) (xs ++ used) fl Hb1) as (s' & E & Hb' & Hk & R).
    { rewrite Hr1. exact Hinv'. } { by rewrite <- app_assoc. }
    { destruct Hfl as [[-> _]| ->]; [by left|by right]. } { rewrite Hr1, length_app. lia. }
    exists s'. split; [exact E|]. split; [done|]. split; [done|]. rewrite <- app_assoc, Hr1, length_app in R. cbn zeta in *. intuition lia.
  - exists s1. destruct Hfin as [-> Hfin]; [lia|]. rewrite app_nil_r, Hr1, length_app. by split_and!; done || lia.
Qed.

(** Bytes that an [iovec] can hold. *)
Definition short (d : list Z) : Prop := Z.of_nat (length d) < 2 ^ 32.
Lemma taken_whole d : short d → take (Z.to_nat (u32 (Z.of_nat (length d)))) d = d.
Proof. intros Hd. unfold short in Hd. rewrite wrap_small by lia. apply take_ge. lia. Qed.

(** A write of several pieces, none of which is empty space for the rest. *)
Lemma code_ok v : ∀ fuel s xs, buffs_ok s → inv false (m_zstream s) xs (getResult s) → Forall short v →
  (∀ ys, ys `prefix_of` xs ++ concat v → fits ys) → (limit < fuel)%nat →
  ∃ s', code fuel run false v s = Ok (Z_OK, s') ∧ buffs_ok s' ∧ same_kind s s' ∧
    inv false (m_zstream s') (xs ++ concat v) (getResult s').
Proof.
  induction v as [|d v IH]; intros fuel s xs Hb Hinv Hv Hfit Hf; cbn [code concat].
  { exists s. rewrite app_nil_r. by split_and!. }
  apply Forall_cons in Hv as [Hd Hv]. rewrite taken_whole by done.
  destruct (fill_loop_ok fuel d s false xs Z_NO_FLUSH Hb Hinv) as (s1 & -> & Hb1 & Hk1 & Hinv1 & _).
  { apply Hfit. apply prefix_app, prefix_app_r. done. } { by left. } { lia. }
  cbn [obind fst snd]. change (Z_OK =? Z_STREAM_ERROR) with false. cbn iota.
  destruct (IH fuel s1 (xs ++ d) Hb1 Hinv1 Hv) as (s' & E & Hb' & Hk' & Hinv'); [|done|].
  { intros ys Hys. apply Hfit. cbn [concat]. by rewrite app_assoc. }
  exists s'. split; [exact E|]. split; [done|]. split; [unfold same_kind in *; intuition congruence|]. by rewrite app_assoc.
Qed.
(** The flush, which ends the stream. *)
Lemma code_finish fuel s xs : buffs_ok s → inv false (m_zstream s) xs (getResult s) → fits xs → (limit < fuel)%nat →
  ∃ s', code fuel run true [[]] s = Ok (Z_OK, s') ∧ same_kind s s' ∧ final true xs (getResult s') ∧ (length (getResult s') ≤ limit)%nat.
Proof.
  intros Hb Hinv Hfit Hf. cbn [code]. rewrite bool_decide_true by done. rewrite take_nil.
  destruct (fill_loop_ok fuel [] s false xs Z_FINISH Hb Hinv) as (s' & -> & Hb' & Hk & _ & Hfin & Hl); [by rewrite app_nil_r|by right|lia|].
  rewrite app_nil_r in Hfin. exists s'. split; [done|]. split; [done|]. split; [exact Hfin|lia].
Qed.
End loops.

(** ** Writing and flushing *)
Section sessions.
Context {St : Type} `{ZL : ZlibLaws St}.
Implicit Types s : ZlibStream St.

Lemma deflate_law w n : run_law deflate (deflating w) (λ xs, (length xs ≤ n)%nat) (deflateBound n) (λ fin xs ys, fin = true → gz w xs ys).
Proof.
  intros fin z xs ys next_in k fl Hd Hfit Hk Hfl.
  destruct (deflate_step w fin z xs ys next_in k fl Hd Hk Hfl) as (rt & used & rest & out & z' & E & Hrt & -> & Ho & Hd' & Hb & Hgz).
  exists rt, used, rest, out, z'. split_and!; try done.
  - rewrite !length_app in Hfit. pose proof (deflateBound_mono (length (xs ++ used)) n ltac:(rewrite length_app; lia)). lia.
  - intros Hlt. destruct (Hgz Hlt) as [-> Hg]. split; [done|]. intros Hf%bool_decide_eq_true. by apply Hg.
Qed.
Lemma inflate_law w plain cs : gz w plain cs →
  run_law inflate (λ _, inflating w) (λ xs, xs `prefix_of` cs) (length plain) (λ _ xs ys, xs = cs → ys = plain).
Proof.
  intros Hgz fin z xs ys next_in k fl Hi Hfit Hk _.
  destruct (inflate_step w plain cs z xs ys next_in k fl Hgz Hi Hfit Hk) as (rt & used & rest & out & z' & E & Hrt & -> & Ho & Hi' & Hp & Hfin).
  exists rt, used, rest, out, z'. split_and!; try done. by apply prefix_length.
Qed.

(** A new stream of one of the three kinds. *)
Definition window_bits_of (type : zlib_type) : Z := match type with DEFLATE => -15 | GZIP => 31 | ZLIB => 15 end.
Lemma Create_ok enc size type : 0 < size → ∃ s, Create enc size type DEFAULT_COMPRESSION 15 8 0 = Ok (Some s) ∧ buffs_ok s ∧
  m_encode s = enc ∧ getResult s = [] ∧
  if enc then deflating (window_bits_of type) false (m_zstream s) [] [] else inflating (window_bits_of type) (m_zstream s) [] [].
Proof.
  intros Hs. unfold Create, zs_init. cbn [assert obind Z.leb Z.compare Z.eqb andb orb DEFAULT_COMPRESSION Pos.compare Pos.compare_cont].
  replace (match type with ZLIB => 15 | DEFLATE => - (15) | GZIP => 15 + 16 end) with (window_bits_of type) by by destruct type.
  destruct enc.
  - destruct (deflate_init DEFAULT_COMPRESSION (window_bits_of type) 8 0) as (z & -> & Hz). by eexists.
  - destruct (inflate_init (window_bits_of type)) as (z & -> & Hz). by eexists.
Qed.

Lemma ended_ok stop fin v s : getResult (ended stop fin v (Z_OK, s)).2 = getResult s ∧ (ended stop fin v (Z_OK, s)).1 = Z_OK.
Proof. unfold ended. by destruct (_ && _). Qed.

(** What is written in pieces and flushed comes out as a stream of the format. *)
Lemma encode_session fuel w v s : buffs_ok s → getResult s = [] → deflating w false (m_zstream s) [] [] →
  Forall short v → (deflateBound (length (concat v)) < fuel)%nat →
  ∃ s1 s2, zs_encode fuel v false s = Ok (Z_OK, s1) ∧ m_encode s1 = m_encode s ∧ zs_encode fuel [[]] true s1 = Ok (Z_OK, s2) ∧
    gz w (concat v) (getResult s2) ∧ (length (getResult s2) ≤ deflateBound (length (concat v)))%nat.
Proof.
  intros Hb Hr Hd Hv Hf. pose proof (deflate_law w (length (concat v))) as Hlaw. rewrite <- Hr in Hd at 2.
  destruct (code_ok deflate _ _ _ _ Hlaw v fuel s [] Hb Hd Hv) as (s1 & E1 & Hb1 & [_ Hk1] & Hd1); [|done|].
  { intros ys Hys. by apply prefix_length in Hys. }
  destruct (code_finish deflate _ _ _ _ Hlaw fuel s1 (concat v) Hb1 Hd1 ltac:(cbn; lia) Hf) as (s2 & E2 & _ & Hgz & Hl).
  exists s1. unfold zs_encode. rewrite E1. cbn [obind]. unfold ended at 1. cbn [fst snd andb]. rewrite andb_false_r.
  cbn [andb]. exists (ended deflateEnd true [[]] (Z_OK, s2)).2. destruct (ended_ok deflateEnd true [[]] s2) as [Hres Hrt].
  split; [done|]. split; [done|]. rewrite E2. cbn [obind]. rewrite Hres. split; [|by split; [apply Hgz|]].
  done.
Qed.
(** A stream written in pieces and flushed comes out as what it holds. *)
Lemma decode_session fuel w plain v s : buffs_ok s → getResult s = [] → inflating w (m_zstream s) [] [] →
  Forall short v → gz w plain (concat v) → (length plain < fuel)%nat →
  ∃ s1 s2, zs_decode fuel v false s = Ok (Z_OK, s1) ∧ m_encode s1 = m_encode s ∧ zs_decode fuel [[]] true s1 = Ok (Z_OK, s2) ∧
    getResult s2 = plain.
Proof.
  intros Hb Hr Hi Hv Hgz Hf. pose proof (inflate_law w plain (concat v) Hgz) as Hlaw. rewrite <- Hr in Hi at 2.
  destruct (code_ok inflate _ _ _ _ Hlaw v fuel s [] Hb Hi Hv) as (s1 & E1 & Hb1 & [_ Hk1] & Hi1); [done|done|].
  destruct (code_finish inflate _ _ _ _ Hlaw fuel s1 (concat v) Hb1 Hi1 ltac:(cbn; reflexivity) Hf) as (s2 & E2 & _ & Hfin & _).
  exists s1. unfold zs_decode. rewrite E1. cbn [obind]. unfold ended at 1. cbn [fst snd andb]. rewrite andb_false_r.
  cbn [andb]. exists (ended inflateEnd true [[]] (Z_OK, s2)).2. destruct (ended_ok inflateEnd true [[]] s2) as [Hres Hrt].
  split; [done|]. split; [done|]. rewrite E2. cbn [obind]. rewrite Hres. split; [|by apply Hfin].
  done.
Qed.
End sessions.

(** ** Arrays *)
Lemma new_default_wf : wf (new_ByteArray DEFAULT_BASE_SIZE).
Proof. apply new_ByteArray_wf. unfold DEFAULT_BASE_SIZE. lia. Qed.
Lemma default_base_range : 0 < DEFAULT_BASE_SIZE < 2 ^ 64.
Proof. unfold DEFAULT_BASE_SIZE. lia. Qed.
Lemma default_room n : 0 ≤ n < 2 ^ 40 → room (new_ByteArray DEFAULT_BASE_SIZE) n.
Proof. intros. unfold room. cbn. unfold DEFAULT_BASE_SIZE. lia. Qed.

(** What a buffer freshly filled with [bs] looks like. *)
Lemma fresh_writes bs ba base :
  0 < base < 2 ^ 64 → writes bs (new_ByteArray base) ba →
  wf ba ∧ data ba = Some <$> bs ∧ m_position ba = Z.of_nat (length bs) ∧
  m_size ba = Z.of_nat (length bs) ∧ m_endian ba = BIG_ENDIAN ∧ m_baseSize ba = base.
Proof.
  intros Hb Hw. pose proof (new_ByteArray_wf base Hb) as Hwf0.
  pose proof (writes_position _ _ _ Hwf0 Hw) as Hp. destruct Hw as [Hwf Ha Hbase He _ _].
  injection Ha as Hd _. cbn in Hd, Hp. assert (data ba = Some <$> bs) as Hd'.
  { rewrite Hd. change (data (new_ByteArray base)) with (@nil cell). unfold splice. rewrite !take_nil, !drop_nil. cbn. by rewrite app_nil_r. }
  pose proof (data_length ba Hwf) as Hl. rewrite Hd', length_fmap in Hl.
  split_and!; try done; lia.
Qed.

(** Rewinding it makes all of [bs] readable. *)
Lemma fresh_rewind bs ba base :
  0 < base < 2 ^ 64 → writes bs (new_ByteArray base) ba →
  let b := move 0 ba in
  setPosition 0 ba = (Ok tt, b) ∧ wf b ∧ readable b bs ∧ m_endian b = BIG_ENDIAN ∧
  m_position b = 0 ∧ m_size b = Z.of_nat (length bs) ∧ toString b = Ok (Some <$> bs).
Proof.
  intros Hb Hw. destruct (fresh_writes bs ba base Hb Hw) as (Hwf & Hd & Hp & Hs & He & _).
  cbn zeta. pose proof (ok_cap_pos ba (wf_chain ba Hwf)) as Hcap.
  assert (wf (move 0 ba)) as Hwf1 by (apply move_wf; [done|lia]).
  split; [|split; [done|split; [|split; [done|split; [done|split; [done|]]]]]].
  - rewrite setPosition_spec by (done || lia). rewrite decide_True by lia.
    rewrite Z.max_r by lia. by destruct ba.
  - unfold readable. change (data (move 0 ba)) with (data ba). rewrite Hd.
    cbn. apply take_ge. by rewrite length_fmap.
  - rewrite toString_spec by done. change (data (move 0 ba)) with (data ba). rewrite Hd. done.
Qed.

(** [ba] holds exactly [bs], rewound. *)
Definition buffer_of (bs : list Z) (ba : ByteArray) : Prop :=
  ∃ ba0, writes bs (new_ByteArray DEFAULT_BASE_SIZE) ba0 ∧ ba = move 0 ba0.

Lemma write_all_ok bss : ∀ b, wf b → room b (Z.of_nat (length (concat bss))) →
  ∃ b', write_all bss b = (Ok tt, b') ∧ writes (concat bss) b b'.
Proof.
  induction bss as [|bs bss IH]; intros b Hwf Hroom; cbn [write_all concat] in *.
  { exists b. split; [done|by apply writes_nil]. }
  rewrite length_app, Nat2Z.inj_add in Hroom.
  destruct (write_spec bs b Hwf) as (b1 & E1 & W1); [unfold room in *; lia|].
  destruct (IH b1 (wr_wf _ _ _ W1)) as (b' & E & W); [by apply (wr_room _ _ _ W1)|].
  exists b'. unfold bind. rewrite E1. split; [done|]. by eapply writes_app.
Qed.
Lemma getByteArray_ok {St} (s : ZlibStream St) : Z.of_nat (length (getResult s)) < 2 ^ 40 →
  ∃ ba, getByteArray s = Ok ba ∧ buffer_of (getResult s) ba.
Proof.
  intros Hl. destruct (write_all_ok (m_buffs s) (new_ByteArray DEFAULT_BASE_SIZE)) as (b & E & W).
  { apply new_default_wf. } { apply default_room. unfold getResult in Hl. lia. }
  destruct (fresh_rewind _ _ _ default_base_range W) as (Es & _).
  exists (move 0 b). split; [|by exists b]. unfold getByteArray, bind. rewrite E, Es. done.
Qed.

Lemma iov_bytes_ok b l : ∀ bs, gather b l = Some <$> bs → ∃ v, iov_bytes b l = Ok v ∧ concat v = bs.
Proof.
  induction l as [|x l IH]; intros bs Hg; cbn [iov_bytes].
  { destruct bs; [|done]. by exists []. }
  unfold gather in Hg. rewrite bind_cons in Hg. symmetry in Hg. apply fmap_app_inv in Hg as (b1 & b2 & Hx & Hg & ->).
  rewrite Hx, cells_val_some. cbn [obind]. destruct (IH b2) as (v & -> & <-); [done|]. cbn [obind]. by exists (b1 :: v).
Qed.
Lemma concat_short v : Z.of_nat (length (concat v)) < 2 ^ 32 → Forall short v.
Proof.
  induction v as [|d v IH]; cbn [concat]; [done|]. rewrite length_app. intros Hl. constructor; [unfold short; lia|apply IH; lia].
Qed.
(** The whole array in pieces. *)
Lemma array_pieces b bs : buffer_of bs b → bs ≠ [] → Z.of_nat (length bs) < 2 ^ 32 →
  ∃ len l v, getReadBuffers (u64 (-1)) b = Ok (len, l) ∧ l ≠ [] ∧ iov_bytes b l = Ok v ∧ concat v = bs ∧ Forall short v.
Proof.
  intros (b0 & Hw & ->) Hne Hl. destruct (fresh_rewind _ _ _ default_base_range Hw) as (_ & Hwf & Hr & _ & Hp & Hs & _).
  destruct (getReadBuffers_spec (u64 (-1)) (move 0 b0) Hwf) as (l & E & _ & Hlen & Hg); [done|]. cbn zeta in *.
  change (u64 (-1)) with (2 ^ 64 - 1) in *. rewrite Hs, Hp, Z.sub_0_r, Z.min_r in * by lia.
  unfold readable in Hr. rewrite Hp in Hr. rewrite Nat2Z.id, Hr in Hg.
  destruct (iov_bytes_ok _ _ _ Hg) as (v & Ev & Hv). exists (Z.of_nat (length bs)), l, v. split_and!; try done.
  - intros ->. cbn in Hlen. destruct bs; [done|cbn in Hlen; lia].
  - apply concat_short. by rewrite Hv.
Qed.

Section arrays.
Context {St : Type} `{ZL : ZlibLaws St}.
(** A whole array written to a new stream, and flushed. *)
Lemma compress_array fuel size type bs ba : 0 < size → buffer_of bs ba → bs ≠ [] → Z.of_nat (length bs) < 2 ^ 32 →
  (deflateBound (length bs) < fuel)%nat → Z.of_nat (deflateBound (length bs)) < 2 ^ 40 →
  ∃ s s1 s2 cs ba', Create true size type DEFAULT_COMPRESSION 15 8 0 = Ok (Some s) ∧ zs_write_array fuel ba (-1) s = Ok (Z_OK, s1) ∧
    zs_flush fuel s1 = Ok (Z_OK, s2) ∧ getByteArray s2 = Ok ba' ∧ buffer_of cs ba' ∧ gz (window_bits_of type) bs cs ∧
    (length cs ≤ deflateBound (length bs))%nat.
Proof.
  intros Hs Hb Hne Hl Hf Hlim. destruct (Create_ok true size type Hs) as (s & Ec & Hok & He & Hr & Hd).
  destruct (array_pieces ba bs Hb Hne Hl) as (len & l & v & Eg & Hlne & Ev & <- & Hv).
  destruct (encode_session fuel (window_bits_of type) v s Hok Hr Hd Hv Hf) as (s1 & s2 & E1 & He1 & E2 & Hgz & Hlc).
  destruct (getByteArray_ok s2 ltac:(lia)) as (ba' & Eb & Hbuf). exists s, s1, s2, (getResult s2), ba'.
  split_and!; try done.
  - unfold zs_write_array. rewrite Eg. cbn [obind snd]. rewrite bool_decide_false by done. rewrite Ev. cbn [obind]. by rewrite He.
  - unfold zs_flush. by rewrite He1, He.
Qed.
Lemma decompress_array fuel size type plain cs ba : 0 < size → buffer_of cs ba → gz (window_bits_of type) plain cs →
  Z.of_nat (length cs) < 2 ^ 32 → (length plain < fuel)%nat → Z.of_nat (length plain) < 2 ^ 40 →
  ∃ s s1 s2 ba', Create false size type DEFAULT_COMPRESSION 15 8 0 = Ok (Some s) ∧ zs_write_array fuel ba (-1) s = Ok (Z_OK, s1) ∧
    zs_flush fuel s1 = Ok (Z_OK, s2) ∧ getByteArray s2 = Ok ba' ∧ buffer_of plain ba'.
Proof.
  intros Hs Hb Hgz Hl Hf Hlim. destruct (Create_ok false size type Hs) as (s & Ec & Hok & He & Hr & Hd).
  destruct (array_pieces ba cs Hb (gz_some _ _ _ Hgz) Hl) as (len & l & v & Eg & Hlne & Ev & <- & Hv).
  destruct (decode_session fuel (window_bits_of type) plain v s Hok Hr Hd Hv Hgz Hf) as (s1 & s2 & E1 & He1 & E2 & Hres).
  destruct (getByteArray_ok s2) as (ba' & Eb & Hbuf); [by rewrite Hres|]. rewrite Hres in Hbuf. exists s, s1, s2, ba'.
  split_and!; try done.
  - unfold zs_write_array. rewrite Eg. cbn [obind snd]. rewrite bool_decide_false by done. rewrite Ev. cbn [obind]. by rewrite He.
  - unfold zs_flush. by rewrite He1, He.
Qed.

Lemma inflated_ok fuel (gzip : bool) plain cs : gz (window_bits_of (if gzip then GZIP else DEFLATE)) plain cs → short cs →
  (length plain < fuel)%nat → inflated fuel gzip cs = Ok plain.
Proof.
  intros Hgz Hs Hf. unfold inflated, CreateGzip, CreateDeflate.
  destruct (Create_ok false 4096 (if gzip then GZIP else DEFLATE) ltac:(lia)) as (s & Ec & Hok & He & Hr & Hd).
  destruct (decode_session fuel _ plain [cs] s Hok Hr Hd) as (s1 & s2 & E1 & He1 & E2 & Hres); [by constructor|cbn; by rewrite app_nil_r|done|].
  unfold zs_write, zs_flush. destruct gzip; rewrite Ec; cbn [obind]; rewrite He, E1; cbn [obind snd]; rewrite He1, He, E2; cbn [obind snd]; by rewrite Hres.
Qed.
End arrays.

(** ** A zlib for examples

    Its streams are a byte 31 and the bytes as they are.  [inflate] refuses data that
    does not start so. *)
Record copier := Copier { cp_pending : list Z; cp_started : bool; cp_bad : bool }.
Definition Z_DATA_ERROR : Z := -3.
Definition hand_over (n : Z) (pending : list Z) (started : bool) : Z * (list Z * list Z * copier) :=
  (Z_OK, ([], take (Z.to_nat n) pending, Copier (drop (Z.to_nat n) pending) started false)).
#[export] Instance copier_zlib : Zlib copier := {
  deflateInit2 _ _ _ _ := (Z_OK, Copier [31] true false);
  inflateInit2 _ := (Z_OK, Copier [] false false);
  deflate z next_in n _ := hand_over n (cp_pending z ++ next_in) true;
  inflate z next_in n _ :=
    if cp_bad z then (Z_DATA_ERROR, (next_in, [], z)) else
    match cp_started z, next_in with
    | true, _ => hand_over n (cp_pending z ++ next_in) true
    | false, [] => hand_over n [] false
    | false, c :: next_in' => if c =? 31 then hand_over n next_in' true else (Z_DATA_ERROR, (next_in, [], Copier [] true true))
    end;
  deflateEnd z := z;
  inflateEnd z := z
}.
Lemma copied n (pending : list Z) : 0 < n → Z.of_nat (length (take (Z.to_nat n) pending)) ≤ n ∧
  (Z.of_nat (length (take (Z.to_nat n) pending)) < n → take (Z.to_nat n) pending = pending).
Proof. intros Hn. rewrite length_take. split; [lia|]. intros. apply take_ge. lia. Qed.
#[export] Instance copier_laws : ZlibLaws copier.
Proof.
  refine {| gz _ plain cs := cs = 31 :: plain;
    deflating _ _ z xs ys := ys ++ cp_pending z = 31 :: xs;
    inflating _ z xs ys := cp_bad z = false ∧ ys ++ cp_pending z = tail xs ∧ cp_started z = negb (bool_decide (xs = []));
    deflateBound := S |}.
  - by intros _ plain cs ->.
  - lia.
  - intros. by eexists.
  - intros. by eexists.
  - intros _ _ z xs ys inp n fl Hd Hn _. cbn [deflate copier_zlib]. unfold hand_over.
    destruct (copied n (cp_pending z ++ inp) Hn) as [Hl Hall]. set (out := take _ _) in *.
    assert (ys ++ out ++ drop (Z.to_nat n) (cp_pending z ++ inp) = 31 :: (xs ++ inp)) as He
      by (subst out; rewrite take_drop, app_assoc, Hd; done).
    exists Z_OK, inp, [], out, (Copier (drop (Z.to_nat n) (cp_pending z ++ inp)) true false). split_and!; try done.
    + by rewrite app_nil_r.
    + cbn [cp_pending]. by rewrite <- app_assoc.
    + apply (f_equal length) in He. rewrite !length_app in *. cbn [length] in He. rewrite length_app in He. lia.
    + intros Hlt. split; [done|]. intros _. rewrite (Hall Hlt). by rewrite app_assoc, Hd.
  - intros _ plain cs z xs ys inp n fl -> (Hbad & Hd & Hst) Hp Hn. cbn [inflate copier_zlib]. rewrite Hbad.
    assert (∃ pend st, (match cp_started z, inp with
        | true, _ => hand_over n (cp_pending z ++ inp) true
        | false, [] => hand_over n [] false
        | false, c :: next_in' => if c =? 31 then hand_over n next_in' true else (Z_DATA_ERROR, (inp, [], Copier [] true true))
        end) = hand_over n pend st ∧ ys ++ pend = tail (xs ++ inp) ∧ st = negb (bool_decide (xs ++ inp = []))) as (pend & st & -> & He & Hst').
    { rewrite Hst. case_bool_decide as Ex; cbn [negb].
      - subst xs. cbn [app tail] in *. apply app_nil in Hd as [-> Hpz]. destruct inp as [|c inp]; [by exists [], false|].
        apply prefix_cons_inv_1 in Hp as ->. rewrite Z.eqb_refl. by exists inp, true.
      - eexists _, true. split; [done|]. split; [|by rewrite bool_decide_false by by intros [? _]%app_nil].
        rewrite app_assoc, Hd. by destruct xs. }
    destruct (copied n pend Hn) as [Hl Hall]. unfold hand_over. set (out := take _ _) in *.
    assert (tail (xs ++ inp) `prefix_of` plain) as Hpp.
    { destruct (xs ++ inp) as [|c r]; [apply prefix_nil|]. by apply prefix_cons_inv_2 in Hp. }
    exists Z_OK, inp, [], out, (Copier (drop (Z.to_nat n) pend) st false). split_and!; try done.
    + by rewrite app_nil_r.
    + cbn [cp_pending]. rewrite <- app_assoc. subst out. by rewrite take_drop.
    + etrans; [|exact Hpp]. rewrite <- He. apply prefix_app. subst out. apply prefix_take.
    + intros Hlt. split; [done|]. intros E. rewrite (Hall Hlt), He, E. done.
Defined.

(** Data that [inflate] refuses is no error to a stream: [decode] looks for
    [Z_STREAM_ERROR] only. *)
Example bad_data_no_error :
  match CreateGzip false 4096 with
  | Ok (Some s) => obind (zs_write 9 [1; 2; 3] s) (λ r, obind (zs_flush 9 (r.2)) (λ r', Ok (r.1, r'.1, getResult (r'.2))))
  | _ => Fuel
  end = Ok (Z_OK, Z_OK, []).
Proof. reflexivity. Qed.
