(* ===== verification/Rock.v ===== *)
(** * The Rock protocol (Helens/protocol.{h,cc}, Helens/rock/rock_protocol.{h,cc})

    Requests, responses and notifications, their encoding in a [ByteArray] and
    the framed decoder and encoder over a stream. *)
From S2P Require Import Prelude ByteArray ByteArraySpec ByteArrayCodec ByteArrayBulk ByteArrayThms.
From S2P Require Import Stream ZlibStream.

(** ** Messages *)
Definition REQUEST : Z := 1.
Definition RESPONSE : Z := 2.
Definition NOTIFY : Z := 3.

Record Request := mkRequest { req_sn : Z; req_cmd : Z }.
Record Response := mkResponse { res_sn : Z; res_cmd : Z; m_result : Z; m_resultStr : list Z }.
Record Notify := mkNotify { m_notify : Z }.

(** The three classes that derive from [RockBody]; the last argument is [m_body]. *)
Inductive message :=
| RockRequest (r : Request) (m_body : list Z)
| RockResponse (r : Response) (m_body : list Z)
| RockNotify (n : Notify) (m_body : list Z).

(** The constructors. *)
Definition new_Request : Request := mkRequest 0 0.
Definition new_Response : Response := mkResponse 0 0 404 (bytes_of_string "unhandle").
Definition new_Notify : Notify := mkNotify 0.

Definition getType (m : message) : Z :=
  match m with RockRequest _ _ => REQUEST | RockResponse _ _ => RESPONSE | RockNotify _ _ => NOTIFY end.

(** [RockRequest::createResponse] *)
Definition createResponse (r : Request) : message :=
  RockResponse (mkResponse (req_sn r) (req_cmd r) (m_result new_Response) (m_resultStr new_Response)) [].

Definition Request_serializeToByteArray (type : Z) (r : Request) : M ByteArray bool :=
  writeFuint8 type ;;! writeUint32 (req_sn r) ;;! writeUint32 (req_cmd r) ;;! ret true.
Definition Request_parseFromByteArray : M ByteArray Request :=
  let! sn := readUint32 in let! cmd := readUint32 in ret (mkRequest sn cmd).

Definition Response_serializeToByteArray (type : Z) (r : Response) : M ByteArray bool :=
  writeFuint8 type ;;! writeUint32 (res_sn r) ;;! writeUint32 (res_cmd r) ;;!
  writeUint32 (m_result r) ;;! writeStringVint (m_resultStr r) ;;! ret true.
Definition Response_parseFromByteArray : M ByteArray Response :=
  let! sn := readUint32 in let! cmd := readUint32 in let! result := readUint32 in
  let! str := readStringVint in ret (mkResponse sn cmd result str).

Definition Notify_serializeToByteArray (type : Z) (n : Notify) : M ByteArray bool :=
  writeFuint8 type ;;! writeUint32 (m_notify n) ;;! ret true.
Definition Notify_parseFromByteArray : M ByteArray Notify :=
  let! n := readUint32 in ret (mkNotify n).

Definition RockBody_serializeToByteArray (body : list Z) : M ByteArray bool :=
  writeStringVint body ;;! ret true.
Definition RockBody_parseFromByteArray : M ByteArray (list Z) := readStringVint.

(** The overriding [serializeToByteArray]s: base class, then body, [false] on
    any exception. *)
Definition serializeToByteArray (m : message) : M ByteArray bool :=
  catch
    (match m with
     | RockRequest r body =>
       let! v1 := Request_serializeToByteArray (getType m) r in
       let! v2 := RockBody_serializeToByteArray body in ret (v1 && v2)
     | RockResponse r body =>
       let! v1 := Response_serializeToByteArray (getType m) r in
       let! v2 := RockBody_serializeToByteArray body in ret (v1 && v2)
     | RockNotify n body =>
       let! v1 := Notify_serializeToByteArray (getType m) n in
       let! v2 := RockBody_serializeToByteArray body in ret (v1 && v2)
     end) false.

(** The message object the type byte selects, parsed; [None] for an unknown
    type or a failed parse. *)
Definition parseFromByteArray (type : Z) : M ByteArray (option message) :=
  if type =? REQUEST then
    catch (let! r := Request_parseFromByteArray in
           let! body := RockBody_parseFromByteArray in ret (Some (RockRequest r body))) None
  else if type =? RESPONSE then
    catch (let! r := Response_parseFromByteArray in
           let! body := RockBody_parseFromByteArray in ret (Some (RockResponse r body))) None
  else if type =? NOTIFY then
    catch (let! n := Notify_parseFromByteArray in
           let! body := RockBody_parseFromByteArray in ret (Some (RockNotify n body))) None
  else ret None.

(** [Message::toByteArray]; a null pointer is dereferenced by its only caller. *)
Definition toByteArray (m : message) : outcome ByteArray :=
  match serializeToByteArray m (new_ByteArray DEFAULT_BASE_SIZE) with
  | (Ok true, ba) => Ok ba
  | (Ok false, _) => Undef NullDeref
  | (Throw e, _) => Throw e
  | (Undef u, _) => Undef u
  | (Fuel, _) => Fuel
  end.

(** ** Frames *)
Record RockMsgHeader := mkRockMsgHeader {
  magic : list Z; version : Z; flag : Z; hdr_length : Z }.
Definition s_rock_magic : list Z := [171; 205].
Definition new_RockMsgHeader : RockMsgHeader := mkRockMsgHeader s_rock_magic 1 0 0.

(** The eight bytes of the struct on the host. *)
Definition header_bytes (h : RockMsgHeader) : list Z :=
  magic h ++ [version h; flag h] ++ le_bytes 4 (hdr_length h).
Definition header_of_bytes (bs : list Z) : RockMsgHeader :=
  mkRockMsgHeader (take 2 bs) (nth 2 bs 0) (nth 3 bs 0) (i32 (le_val (take 4 (drop 4 bs)))).

(** Running buffer operations on a fresh [ByteArray] beside the stream. *)
Definition with_ba {S A} (b : ByteArray) (m : M (S * ByteArray) A) : M S (A * ByteArray) := λ s,
  match m (s, b) with
  | (Ok a, (s', b')) => (Ok (a, b'), s')
  | (Throw e, (s', _)) => (Throw e, s')
  | (Undef u, (s', _)) => (Undef u, s')
  | (Fuel, (s', _)) => (Fuel, s')
  end.

Section decoder.
Context {Sk : Type} `{Socket Sk}.
(** [rock.protocol.max_length] and [rock.protocol.gzip_min_length] *)
Variables max_length gzip_min_length : Z.
Context {St : Type} `{Zlib St}.
(** Fuel for the loops of [ZlibStream]. *)
Variable fuel : nat.

(** The use both functions make of a [ZlibStream]: the whole buffer is written to it,
    it is flushed and its [ByteArray] taken.  [inr] says which step failed: [write]
    ([false]) or [flush]. *)
Definition gzip_array (encode : bool) (ba : ByteArray) : outcome (ByteArray + bool) :=
  obind (CreateGzip encode 4096) (λ z,
  match z with
  | None => Undef NullDeref
  | Some zs =>
    obind (zs_write_array fuel ba (-1) zs) (λ r, if negb (r.1 =? Z_OK) then Ok (inr false) else
    obind (zs_flush fuel (r.2)) (λ r, if negb (r.1 =? Z_OK) then Ok (inr true) else
    obind (getByteArray (r.2)) (λ ba, Ok (inl ba))))
  end).

(** The payload once it is in memory, from [ba->setPosition(0)] on. *)
Definition parse_payload (flag : Z) (ba : ByteArray) : outcome (option message) :=
  match setPosition 0 ba with
  | (Ok tt, ba) =>
    let decode ba := (let! type := readFuint8 in parseFromByteArray type) ba in
    if Z.land flag 1 =? 1 then
      obind (gzip_array false ba) (λ r, match r with inr _ => Ok None | inl ba => (decode ba).1 end)
    else (decode ba).1
  | (Throw e, _) => Throw e
  | (Undef u, _) => Undef u
  | (Fuel, _) => Fuel
  end.

Definition parseFrom : M Sk (option message) :=
  catch (
    let! r := readFixSize 8 in
    if r.1 <=? 0 then ret None else
    let h := header_of_bytes (r.2) in
    if negb (bool_decide (magic h = s_rock_magic)) then ret None else
    if negb (version h =? 1) then ret None else
    let len := sbyteswap 4 (hdr_length h) in
    if max_length <=? u32 len then ret None else
    let! rb := with_ba (new_ByteArray DEFAULT_BASE_SIZE) (readFixSize_ba (u64 len)) in
    if rb.1 <=? 0 then ret None else
    lift (parse_payload (flag h) (rb.2))) None.

Definition serializeTo (m : message) : M Sk Z :=
  let! ba := lift (toByteArray m) in
  let! ba := lift (let (o, ba) := setPosition 0 ba in obind o (λ _, Ok ba)) in
  let len := i32 (getSize ba) in
  let! packed :=
    (if gzip_min_length <=? u32 len then
       let! r := lift (gzip_array true ba) in
       ret match r with
           | inr wrote => inr (if wrote then -2 else -1)
           | inl ba => inl (ba, 1, i32 (getSize ba))
           end
     else ret (inl (ba, 0, len))) in
  match packed with
  | inr err => ret err
  | inl (ba, fl, len) =>
    let h := mkRockMsgHeader s_rock_magic 1 fl (sbyteswap 4 len) in
    let! rt := writeFixSize (header_bytes h) in
    if rt <=? 0 then ret (-3) else
    let! rb := with_ba ba (writeFixSize_ba (getReadSize ba)) in
    if rb.1 <=? 0 then ret (-4) else
    ret (i32 (8 + getSize ba))
  end.
End decoder.

(** ** The fields of a message *)
Definition base_fields (m : message) : list field :=
  match m with
  | RockRequest r _ => [Uint32 (req_sn r); Uint32 (req_cmd r)]
  | RockResponse r _ =>
    [Uint32 (res_sn r); Uint32 (res_cmd r); Uint32 (m_result r); StringVint (m_resultStr r)]
  | RockNotify n _ => [Uint32 (m_notify n)]
  end.
Definition body_of (m : message) : list Z :=
  match m with RockRequest _ b | RockResponse _ b | RockNotify _ b => b end.
Definition message_fields (m : message) : list field :=
  Fuint8 (getType m) :: base_fields m ++ [StringVint (body_of m)].

(** A C++ message object: its integers are [uint32_t]s. *)
Definition message_ok (m : message) : Prop := Forall field_dom (message_fields m).
(** Its encoding, in the byte order of a fresh buffer. *)
Definition payload (m : message) : list Z := fields_enc BIG_ENDIAN (message_fields m).

Lemma serialize_fields m b b' :
  write_fields (message_fields m) b = (Ok tt, b') → serializeToByteArray m b = (Ok true, b').
Proof.
  unfold serializeToByteArray, catch.
  destruct m; cbn [message_fields base_fields body_of app write_fields write_field getType];
    unfold Request_serializeToByteArray, Response_serializeToByteArray, Notify_serializeToByteArray,
      RockBody_serializeToByteArray, bind, ret;
    repeat match goal with
    | |- context [match ?m ?b with _ => _ end] =>
        lazymatch type of (m b) with (outcome _ * _)%type =>
          destruct (m b) as [[[]| | |] ?]; cbn beta iota end
    end; cbn [andb]; congruence.
Qed.

Lemma parse_fields m b b' :
  read_fields (message_fields m) b = (Ok (message_fields m), b') →
  (let! type := readFuint8 in parseFromByteArray type) b = (Ok (Some m), b').
Proof.
  destruct m as [[sn cmd] body|[sn cmd res str] body|[n] body];
    cbn [message_fields base_fields body_of app read_fields read_field getType req_sn req_cmd
         res_sn res_cmd m_result m_resultStr m_notify]; unfold bind, ret; intros Hr;
    repeat match type of Hr with
    | context [match ?m ?b with _ => _ end] =>
        lazymatch type of (m b) with (outcome _ * _)%type =>
          let E := fresh "E" in destruct (m b) as [[?| | |] ?] eqn:E; cbn beta iota in Hr; try discriminate Hr end
    end; injection Hr; intros; subst;
    unfold parseFromByteArray, catch, Request_parseFromByteArray, Response_parseFromByteArray,
      Notify_parseFromByteArray, RockBody_parseFromByteArray, bind, ret;
    cbn [Z.eqb REQUEST RESPONSE NOTIFY Pos.eqb];
    repeat match goal with E : ?m ?b = (Ok _, _) |- context [?m ?b] => rewrite E end; done.
Qed.

Lemma message_last_solid m : body_of m ≠ [] → last_solid (message_fields m).
Proof.
  intros Hb f. unfold message_fields. rewrite app_comm_cons, last_snoc. by intros [= <-].
Qed.

(** ** Serialisation into a buffer *)
Lemma toByteArray_ok m :
  message_ok m → Z.of_nat (length (payload m)) < 2 ^ 32 →
  ∃ ba, toByteArray m = Ok ba ∧ writes (payload m) (new_ByteArray DEFAULT_BASE_SIZE) ba.
Proof.
  intros Hm Hlen.
  destruct (write_fields_ok (message_fields m) (new_ByteArray DEFAULT_BASE_SIZE)) as (ba & E & W).
  - apply new_default_wf.
  - done.
  - unfold room, payload in *. cbn [m_capacity m_baseSize m_position m_endian new_ByteArray].
    unfold DEFAULT_BASE_SIZE. lia.
  - exists ba. split; [|done]. unfold toByteArray. by erewrite serialize_fields.
Qed.

(** ** Header bytes *)
Lemma header_roundtrip h :
  length (magic h) = 2%nat → is_sint 32 (hdr_length h) → header_of_bytes (header_bytes h) = h.
Proof.
  destruct h as [mg v f n]. cbn. intros Hm Hn. destruct mg as [|x [|y [|]]]; try done.
  unfold header_of_bytes, header_bytes. cbn [magic version flag hdr_length app take drop nth].
  f_equal. change [u8 n; _; _; _] with (le_bytes 4 n). rewrite le_val_bytes.
  by rewrite <- (to_signed_wrap 32 n) at 2 by (done || lia).
Qed.

Lemma header_bytes_length h : length (magic h) = 2%nat → length (header_bytes h) = 8%nat.
Proof. intros. unfold header_bytes. rewrite !length_app, le_bytes_length, H. done. Qed.

Lemma i32_wrap_small n : 0 ≤ n < 2 ^ 31 → u32 n = n ∧ i32 n = n.
Proof. intros. split; [apply wrap_small; lia|by apply i32_small]. Qed.

(** The length travels in network byte order. *)
Lemma sbyteswap_twice n : is_sint 32 n → is_sint 32 (sbyteswap 4 n) ∧ sbyteswap 4 (sbyteswap 4 n) = n.
Proof.
  intros Hn. unfold sbyteswap. change (8 * Z.of_nat 4) with 32. split; [by apply to_signed_is_sint|].
  rewrite wrap_to_signed by lia. rewrite (wrap_small 32 (bswap _ _)) by apply (bswap_bound 4).
  rewrite (bswap_involutive 4). change (8 * Z.of_nat 4) with 32. rewrite wrap_wrap by lia.
  by apply to_signed_wrap.
Qed.

(** ** Payloads *)
Lemma decode_buffer m ba :
  message_ok m → body_of m ≠ [] → buffer_of (payload m) ba →
  ((let! type := readFuint8 in parseFromByteArray type) ba).1 = Ok (Some m).
Proof.
  intros Hm Hb (ba0 & Hw & ->).
  destruct (fresh_rewind _ _ _ default_base_range Hw) as (_ & Hwf & Hr & He & _ & _ & _).
  erewrite parse_fields; [done|]. apply read_fields_ok; try done.
  - by rewrite He.
  - left. by apply message_last_solid.
Qed.

Section frames.
Context {Sk : Type} `{SocketLaws Sk}.
Context {St : Type} `{ZL : ZlibLaws St}.
Variables max_length gzip_min_length : Z.
Variable fuel : nat.

Lemma parse_payload_plain m ba :
  message_ok m → body_of m ≠ [] → writes (payload m) (new_ByteArray DEFAULT_BASE_SIZE) ba →
  parse_payload fuel 0 ba = Ok (Some m).
Proof.
  intros Hm Hb Hw. unfold parse_payload.
  destruct (fresh_rewind _ _ _ default_base_range Hw) as (-> & _). cbn [Z.land Z.eqb].
  apply decode_buffer; try done. by exists ba.
Qed.

(** zlib's [window_bits] for gzip. *)
Definition gzip_bits : Z := window_bits_of GZIP.
Lemma gzip_array_compress bs ba : buffer_of bs ba → bs ≠ [] → Z.of_nat (length bs) < 2 ^ 32 →
  (deflateBound (length bs) < fuel)%nat → Z.of_nat (deflateBound (length bs)) < 2 ^ 40 →
  ∃ cs ba', gzip_array fuel true ba = Ok (inl ba') ∧ buffer_of cs ba' ∧ gz gzip_bits bs cs ∧ (length cs ≤ deflateBound (length bs))%nat.
Proof.
  intros Hb Hne Hl Hf Hlim.
  destruct (compress_array fuel 4096 GZIP bs ba ltac:(lia) Hb Hne Hl Hf Hlim) as (z & z1 & z2 & cs & ba' & E1 & E2 & E3 & E4 & Hbuf & Hgz & Hlc).
  exists cs, ba'. split; [|done]. unfold gzip_array, CreateGzip. rewrite E1. cbn [obind]. rewrite E2. cbn [obind fst snd Z.eqb Z_OK negb].
  rewrite E3. cbn [obind fst snd Z.eqb Z_OK negb]. by rewrite E4.
Qed.
Lemma gzip_array_decompress plain cs ba : buffer_of cs ba → gz gzip_bits plain cs → Z.of_nat (length cs) < 2 ^ 32 →
  (length plain < fuel)%nat → Z.of_nat (length plain) < 2 ^ 40 →
  ∃ ba', gzip_array fuel false ba = Ok (inl ba') ∧ buffer_of plain ba'.
Proof.
  intros Hb Hgz Hl Hf Hlim.
  destruct (decompress_array fuel 4096 GZIP plain cs ba ltac:(lia) Hb Hgz Hl Hf Hlim) as (z & z1 & z2 & ba' & E1 & E2 & E3 & E4 & Hbuf).
  exists ba'. split; [|done]. unfold gzip_array, CreateGzip. rewrite E1. cbn [obind]. rewrite E2. cbn [obind fst snd Z.eqb Z_OK negb].
  rewrite E3. cbn [obind fst snd Z.eqb Z_OK negb]. by rewrite E4.
Qed.

Lemma parse_payload_zipped m cs ba :
  message_ok m → body_of m ≠ [] → writes cs (new_ByteArray DEFAULT_BASE_SIZE) ba → gz gzip_bits (payload m) cs →
  Z.of_nat (length cs) < 2 ^ 32 → (length (payload m) < fuel)%nat → Z.of_nat (length (payload m)) < 2 ^ 40 →
  parse_payload fuel 1 ba = Ok (Some m).
Proof.
  intros Hm Hb Hw Hgz Hl Hf Hlim. unfold parse_payload.
  destruct (fresh_rewind _ _ _ default_base_range Hw) as (-> & _).
  change (Z.land 1 1 =? 1) with true. cbn iota.
  destruct (gzip_array_decompress (payload m) cs (move 0 ba)) as (ba' & -> & Hbuf); [by exists ba|done..|].
  cbn [obind]. by apply decode_buffer.
Qed.

(** The frame of a payload. *)
Definition frame_header (fl : Z) (n : Z) : RockMsgHeader :=
  mkRockMsgHeader s_rock_magic 1 fl (sbyteswap 4 n).
Definition frame_bytes (fl : Z) (cs : list Z) : list Z :=
  header_bytes (frame_header fl (Z.of_nat (length cs))) ++ cs.

Lemma send_frame fl cs ba s :
  isConnected s = true → Z.of_nat (length cs) + 8 < 2 ^ 31 → cs ≠ [] → buffer_of cs ba →
  ∃ s', (let! rt := writeFixSize (header_bytes (frame_header fl (i32 (getSize ba)))) in
         if rt <=? 0 then ret (-3) else
         let! rb := with_ba ba (writeFixSize_ba (getReadSize ba)) in
         if rb.1 <=? 0 then ret (-4) else ret (i32 (8 + getSize ba))) s =
        (Ok (8 + Z.of_nat (length cs)), s') ∧
    incoming s' = incoming s ∧ outgoing s' = outgoing s ++ frame_bytes fl cs ∧ isConnected s' = true.
Proof.
  intros Hconn Hlen Hne (ba0 & Hw & ->).
  destruct (fresh_rewind _ _ _ default_base_range Hw) as (_ & Hwf & Hr & He & Hp & Hsz & _).
  rewrite getReadSize_eq by done. unfold getSize. rewrite Hsz, Hp, Z.sub_0_r.
  rewrite (i32_small (Z.of_nat (length cs))) by lia. rewrite (i32_small (8 + _)) by lia.
  set (h := frame_header fl (Z.of_nat (length cs))).
  destruct (writeFixSize_ok (header_bytes h) s Hconn) as (s1 & Ew & Hin1 & Hout1 & Hc1);
    [by rewrite header_bytes_length|].
  rewrite header_bytes_length in Ew by done. mstep Ew. change (Z.of_nat 8 <=? 0) with false. cbn iota.
  destruct (writeFixSize_ba_ok cs s1 (move 0 ba0)) as (s2 & Eb & Hin2 & Hout2 & Hc2); try done; [lia|].
  exists s2. split; [|split; [congruence|split; [|done]]].
  - unfold bind, with_ba. rewrite Eb. cbn [fst snd].
    destruct (Z.leb_spec (Z.of_nat (length cs)) 0); [destruct cs; [done|cbn in *; lia]|done].
  - by rewrite Hout2, Hout1, <- app_assoc.
Qed.

(** The receiver takes a frame shorter than [max_length] and drops a longer one after
    its header. *)
Lemma receive_frame fl cs rest m r :
  isConnected r = true → incoming r = frame_bytes fl cs ++ rest → cs ≠ [] → Z.of_nat (length cs) < 2 ^ 31 →
  (∀ ba, writes cs (new_ByteArray DEFAULT_BASE_SIZE) ba → parse_payload fuel fl ba = Ok (Some m)) →
  let fits := Z.of_nat (length cs) <? max_length in
  ∃ r', parseFrom max_length fuel r = (Ok (if fits then Some m else None), r') ∧
    incoming r' = (if fits then rest else cs ++ rest) ∧ isConnected r' = true.
Proof.
  intros Hconn Hin Hne Hlen Hparse. set (h := frame_header fl (Z.of_nat (length cs))).
  assert (is_sint 32 (Z.of_nat (length cs))) as Hsint by (unfold is_sint; lia).
  destruct (sbyteswap_twice _ Hsint) as [Hs1 Hs2].
  pose proof (header_bytes_length h eq_refl) as Hhl.
  destruct (readFixSize_ok 8 r Hconn) as (r1 & Er & Hin1 & _ & Hc1); [|done|].
  { rewrite Hin. unfold frame_bytes. fold h. rewrite !length_app, Hhl. lia. }
  assert (take 8 (incoming r) = header_bytes h ∧ drop 8 (incoming r) = cs ++ rest) as [Et Ed].
  { rewrite Hin. unfold frame_bytes. fold h. rewrite <- app_assoc, <- Hhl.
    by rewrite take_app_length, drop_app_length. }
  unfold parseFrom, catch. erewrite bind_ok by exact Er. cbn [fst snd].
  change (Z.of_nat 8 <=? 0) with false. cbn iota. rewrite Et, header_roundtrip by done.
  rewrite bool_decide_true by done. change (version h =? 1) with true. cbn [negb].
  cbn [hdr_length h frame_header flag]. rewrite Hs2.
  rewrite (wrap_small 32), (wrap_small 64) by lia. rewrite Ed in Hin1.
  cbn zeta. rewrite Z.leb_antisym. destruct (Z.ltb_spec (Z.of_nat (length cs)) max_length); cbn [negb]; [|by exists r1].
  destruct (readFixSize_ba_ok (length cs) r1 (new_ByteArray DEFAULT_BASE_SIZE))
    as (r2 & ba & Eb & Hin2 & _ & Hc2 & Hw); try done.
  { rewrite Hin1, length_app. lia. } { apply new_default_wf. } { apply default_room. lia. }
  rewrite Hin1, take_app_length in Hw. rewrite Hin1, drop_app_length in Hin2.
  exists r2. split; [|done]. unfold bind at 1, with_ba. rewrite Eb. cbn [fst snd].
  destruct (Z.leb_spec (Z.of_nat (length cs)) 0); [destruct cs; [done|cbn in *; lia]|].
  unfold lift. by rewrite Hparse.
Qed.

(** ** The round trip over a connection *)
Lemma payload_some m : message_ok m → payload m ≠ [].
Proof.
  intros Hm E. pose proof (field_enc_pos BIG_ENDIAN (Fuint8 (getType m))) as Hpos.
  unfold message_ok, message_fields in Hm. apply Forall_cons in Hm as [Hm _].
  specialize (Hpos Hm). unfold payload, fields_enc, message_fields in E.
  rewrite bind_cons in E. apply app_nil in E as [E _]. rewrite E in Hpos. cbn in Hpos. lia.
Qed.
(** What goes into a frame: the payload compressed when it reaches [gzip_min_length],
    and the flag that says so. *)
Definition packs (m : message) (fl : Z) (cs : list Z) : Prop :=
  if gzip_min_length <=? Z.of_nat (length (payload m)) then fl = 1 ∧ gz gzip_bits (payload m) cs else fl = 0 ∧ cs = payload m.
(** The lengths are [int]s, and the loops of the compression have fuel. *)
Definition fits (m : message) : Prop :=
  let n := length (payload m) in
  Z.of_nat n + 8 < 2 ^ 31 ∧
  (gzip_min_length ≤ Z.of_nat n → Z.of_nat (deflateBound n) + 8 < 2 ^ 31 ∧ (deflateBound n < fuel ∧ n < fuel)%nat).

(** C19: A message whose body is not empty, sent by [serializeTo] over any
    fragmentation of the connection, puts one frame on the wire and reports its size:
    a header and the payload, compressed by a [ZlibStream] when it reaches
    [rock.protocol.gzip_min_length].  A peer whose input starts with that frame and
    whose [rock.protocol.max_length] it is shorter than gets, from [parseFrom], the
    same message back and is left exactly at the bytes after the frame; a longer frame
    gives no message, and the peer is left behind its header.  This is for messages
    whose payload, with the header, stays below 2^31 bytes, compressed
    ([deflateBound]) or not, the fuel of the loops over zlib being above both; zlib is
    any that does what its manual says ([ZlibLaws]). *)
Theorem rock_roundtrip (m : message) (s : Sk) :
  message_ok m → body_of m ≠ [] → fits m → isConnected s = true →
  ∃ fl cs s', packs m fl cs ∧ let frame := frame_bytes fl cs in
    serializeTo gzip_min_length fuel m s = (Ok (Z.of_nat (length frame)), s') ∧
    outgoing s' = outgoing s ++ frame ∧ incoming s' = incoming s ∧
    ∀ r rest, isConnected r = true → incoming r = frame ++ rest →
      let short := Z.of_nat (length cs) <? max_length in
      ∃ r', parseFrom max_length fuel r = (Ok (if short then Some m else None), r') ∧
        incoming r' = (if short then rest else cs ++ rest).
Proof.
  intros Hm Hb [Hn Hfit] Hconn.
  destruct (toByteArray_ok m Hm ltac:(lia)) as (ba & Eba & Hw).
  destruct (fresh_rewind _ _ _ default_base_range Hw) as (Eset & _ & _ & _ & _ & Hsz & Hstr).
  pose proof (payload_some m Hm) as Hne.
  assert (∀ fl cs, length (frame_bytes fl cs) = (8 + length cs)%nat) as Hfl.
  { intros. unfold frame_bytes. rewrite length_app, header_bytes_length by done. done. }
  unfold packs, serializeTo. unfold bind at 1, lift. rewrite Eba. unfold bind at 1. rewrite Eset. cbn [obind].
  unfold getSize at 1. rewrite Hsz. rewrite (i32_small (Z.of_nat (length (payload m)))) by lia.
  rewrite (wrap_small 32) by lia.
  destruct (Z.leb_spec gzip_min_length (Z.of_nat (length (payload m)))).
  - destruct Hfit as (Hbound & Hf1 & Hf2); [done|].
    destruct (gzip_array_compress (payload m) (move 0 ba)) as (cs & za & Ez & Hbuf & Hgz & Hlc); [by exists ba|done|lia|done|lia|].
    pose proof (gz_some _ _ _ Hgz) as Hcs.
    destruct (send_frame 1 cs za s Hconn ltac:(lia) Hcs Hbuf) as (s' & E & Hin & Hout & _).
    exists 1, cs, s'. split; [done|]. split; [|split; [done|split; [done|]]].
    + unfold bind at 1. unfold bind at 1. unfold lift. rewrite Ez. unfold ret at 1. rewrite Hfl, Nat2Z.inj_add. exact E.
    + intros r rest Hcr Hinr. destruct (receive_frame 1 cs rest m r) as (r' & ? & ? & _); try done; [lia| |by eauto].
      intros ba1 Hw1. apply (parse_payload_zipped m cs ba1); done || lia.
  - destruct (send_frame 0 (payload m) (move 0 ba) s Hconn ltac:(lia) Hne) as (s' & E & Hin & Hout & _).
    { by exists ba. }
    exists 0, (payload m), s'. split; [done|]. split; [|split; [done|split; [done|]]].
    + unfold bind at 1. unfold ret at 1. rewrite Hfl, Nat2Z.inj_add. exact E.
    + intros r rest Hcr Hinr. destruct (receive_frame 0 (payload m) rest m r) as (r' & ? & ? & _); try done; [lia| |by eauto].
      intros ba1 Hw1. by apply parse_payload_plain.
Qed.
End frames.

Definition sample_message : message :=
  RockResponse (mkResponse 7 300 0 (bytes_of_string "ok")) (bytes_of_string "payload").

(** Over a connection that moves three bytes at a time, compressed. *)
Lemma rock_roundtrip_witness :
  ∃ fl cs s', packs (St := copier) 10 sample_message fl cs ∧ let frame := frame_bytes fl cs in
    serializeTo (St := copier) 10 100 sample_message (mkPipe [] [] 2) = (Ok (Z.of_nat (length frame)), s') ∧
    outgoing s' = outgoing (mkPipe [] [] 2) ++ frame ∧ incoming s' = incoming (mkPipe [] [] 2) ∧
    ∀ r rest, isConnected r = true → incoming r = frame ++ rest →
      let short := Z.of_nat (length cs) <? 1000 in
      ∃ r', parseFrom (St := copier) 1000 100 r = (Ok (if short then Some sample_message else None), r') ∧
        incoming r' = (if short then rest else cs ++ rest).
Proof.
  assert (fits (St := copier) 10 100 sample_message) as Hfits 
    by (split; [done|]; intros _; split_and!; [done|by apply Nat.ltb_lt..]).
  assert (message_ok sample_message) as Hok.
  { unfold message_ok. cbn [message_fields base_fields sample_message app].
    repeat (apply Forall_cons; split); try apply Forall_nil; vm_compute; intuition discriminate. }
  exact (rock_roundtrip (St := copier) 1000 10 100 sample_message (mkPipe [] [] 2) Hok ltac:(done) Hfits eq_refl).
Defined.

(** ** A frame that crashes its receiver *)
(** A response with an empty body whose payload fills whole nodes. *)
Definition crash_message : message :=
  RockResponse (mkResponse 1 1 0 (replicate 4089 65)) [].

(** A well-formed frame of 4096 payload bytes whose body is the empty string
    makes the receiver dereference a null node pointer: after the length byte of
    the body the cursor is past the last node, and the empty [read] looks at
    [m_cur->size] anyway. *)
Theorem empty_body_crash :
  length (payload crash_message) = 4096%nat ∧
  (parseFrom (St := copier) (2 ^ 26) 0
     (mkPipe (frame_bytes 0 (payload crash_message)) [] 4103)).1 = Undef NullDeref.
Proof. vm_compute. done. Qed.
