(* ===== verification/Timer.v ===== *)
(** * Timers (Helens/timer.{h,cc})

    A [TimerManager] keeps its live timers in a [std::set] ordered by deadline
    and address.  Every operation runs under the manager's mutex, so each is one
    atomic step; the clock is the argument [now] of the steps that read it. *)
From S2P Require Import Prelude OrderedSet.

(** ** State *)
(** A callback: an identity, and the object a condition timer watches. *)
Record callback := mkCallback { cb_id : Z; cb_cond : option nat }.
#[export] Instance callback_eq_dec : EqDecision callback.
Proof. solve_decision. Defined.

Record Timer := mkTimer {
  m_recurring : bool;
  m_ms : Z;
  m_next : Z;
  m_cb : option callback
}.

(** Timers are heap objects; [m_timers] lists the addresses in the set, in
    iteration order. *)
Record TimerManager := mkTimerManager {
  heap : gmap nat Timer;
  m_timers : list nat;
  m_tickled : bool;
  m_previouseTime : Z
}.

Definition with_heap (h : gmap nat Timer) (m : TimerManager) : TimerManager :=
  mkTimerManager h (m_timers m) (m_tickled m) (m_previouseTime m).
Definition with_timers (l : list nat) (m : TimerManager) : TimerManager :=
  mkTimerManager (heap m) l (m_tickled m) (m_previouseTime m).
Definition with_tickled (v : bool) (m : TimerManager) : TimerManager :=
  mkTimerManager (heap m) (m_timers m) v (m_previouseTime m).
Definition with_previous (v : Z) (m : TimerManager) : TimerManager :=
  mkTimerManager (heap m) (m_timers m) (m_tickled m) v.

Definition set_next (v : Z) (t : Timer) : Timer := mkTimer (m_recurring t) (m_ms t) v (m_cb t).
Definition set_ms (v : Z) (t : Timer) : Timer := mkTimer (m_recurring t) v (m_next t) (m_cb t).
Definition set_cb (v : option callback) (t : Timer) : Timer :=
  mkTimer (m_recurring t) (m_ms t) (m_next t) v.

Definition new_TimerManager (now : Z) : TimerManager := mkTimerManager ∅ [] false now.

(** The two [Timer] constructors. *)
Definition new_Timer (now ms : Z) (cb : callback) (recurring : bool) : Timer :=
  mkTimer recurring ms (u64 (now + ms)) (Some cb).
Definition new_Timer_at (next : Z) : Timer := mkTimer false 0 next None.

(** ** The ordered set *)
Definition next_of (h : gmap nat Timer) (a : nat) : Z :=
  match h !! a with Some t => m_next t | None => 0 end.

(** [Timer::Comparator]; no null pointer is ever stored. *)
Definition comparator (h : gmap nat Timer) (lhs rhs : nat) : bool :=
  if next_of h lhs <? next_of h rhs then true
  else if next_of h rhs <? next_of h lhs then false
  else (lhs <? rhs)%nat.

(** ** Operations *)
Definition cancel (a : nat) (m : TimerManager) : outcome bool * TimerManager :=
  match heap m !! a with
  | None => (Undef NullDeref, m)
  | Some t =>
    match m_cb t with
    | Some _ =>
      let m := with_heap (<[a := set_cb None t]> (heap m)) m in
      match set_find (comparator (heap m)) a (m_timers m) with
      | Some i => (Ok true, with_timers (set_erase i (m_timers m)) m)
      | None => (Undef OutOfBounds, m)
      end
    | None => (Ok false, m)
    end
  end.

Definition refresh (now : Z) (a : nat) (m : TimerManager) : outcome bool * TimerManager :=
  match heap m !! a with
  | None => (Undef NullDeref, m)
  | Some t =>
    match m_cb t with
    | None => (Ok false, m)
    | Some _ =>
      match set_find (comparator (heap m)) a (m_timers m) with
      | None => (Ok false, m)
      | Some i =>
        let m := with_timers (set_erase i (m_timers m)) m in
        let m := with_heap (<[a := set_next (u64 (now + m_ms t)) t]> (heap m)) m in
        (Ok true, with_timers (set_insert (comparator (heap m)) a (m_timers m)) m)
      end
    end
  end.

(** [addTimer(val, lock)]; the answer is whether [onTimerInsertedAtFront] runs. *)
Definition insertTimer (a : nat) (m : TimerManager) : bool * TimerManager :=
  let m := with_timers (set_insert (comparator (heap m)) a (m_timers m)) m in
  let at_front := bool_decide (head (m_timers m) = Some a) && negb (m_tickled m) in
  (at_front, if at_front then with_tickled true m else m).

(** [a] is the address [new] returns. *)
Definition addTimer (now : Z) (a : nat) (ms : Z) (cb : callback) (recurring : bool)
    (m : TimerManager) : bool * TimerManager :=
  insertTimer a (with_heap (<[a := new_Timer now ms cb recurring]> (heap m)) m).

(** [addConditionTimer] binds [OnTimer]: the callback runs if the object is
    still alive. *)
Definition addConditionTimer (now : Z) (a : nat) (ms : Z) (id : Z) (weak_cond : nat)
    (recurring : bool) (m : TimerManager) : bool * TimerManager :=
  addTimer now a ms (mkCallback id (Some weak_cond)) recurring m.
Definition OnTimer (alive : nat → bool) (cb : callback) : option Z :=
  match cb_cond cb with
  | None => Some (cb_id cb)
  | Some o => if alive o then Some (cb_id cb) else None
  end.

Definition reset (now ms : Z) (from_now : bool) (a : nat) (m : TimerManager)
    : outcome bool * TimerManager :=
  match heap m !! a with
  | None => (Undef NullDeref, m)
  | Some t =>
    if (ms =? m_ms t) && negb from_now then (Ok true, m) else
    match m_cb t with
    | None => (Ok false, m)
    | Some _ =>
      match set_find (comparator (heap m)) a (m_timers m) with
      | None => (Ok false, m)
      | Some i =>
        let m := with_timers (set_erase i (m_timers m)) m in
        let start := if from_now then now else u64 (m_next t - m_ms t) in
        let t := set_next (u64 (start + ms)) (set_ms ms t) in
        let m := with_heap (<[a := t]> (heap m)) m in
        (Ok true, (insertTimer a m).2)
      end
    end
  end.

(** [~0ull] when there is no timer. *)
Definition getNextTimer (now : Z) (m : TimerManager) : Z * TimerManager :=
  let m := with_tickled false m in
  match m_timers m with
  | [] => (2 ^ 64 - 1, m)
  | a :: _ =>
    let next := next_of (heap m) a in
    (if next <=? now then 0 else u64 (next - now), m)
  end.

Definition detectClockRollover (now : Z) (m : TimerManager) : bool * TimerManager :=
  let rollover := (now <? m_previouseTime m) &&
                  (now <? u64 (m_previouseTime m - 60 * 60 * 1000)) in
  (rollover, with_previous now m).

(** The timers due at [now], and the rest of the set.  [probe] is the address
    [new] gave [now_timer]. *)
Definition split_expired (rollover : bool) (now : Z) (probe : nat) (m : TimerManager)
    : list nat * list nat :=
  let h := <[probe := new_Timer_at now]> (heap m) in
  let (before, it) := if rollover then (m_timers m, [])
                      else span (λ x, comparator h x probe) (m_timers m) in
  let (equal, it) := span (λ x, next_of (heap m) x =? now) it in
  (before ++ equal, it).

(** The loop that collects the callbacks and reschedules. *)
Fixpoint fire_loop (now : Z) (expired : list nat) (m : TimerManager)
    : list (option callback) * TimerManager :=
  match expired with
  | [] => ([], m)
  | a :: expired =>
    match heap m !! a with
    | None => ([], m)
    | Some t =>
      let m :=
        if m_recurring t then
          let m := with_heap (<[a := set_next (u64 (now + m_ms t)) t]> (heap m)) m in
          with_timers (set_insert (comparator (heap m)) a (m_timers m)) m
        else with_heap (<[a := set_cb None t]> (heap m)) m in
      let (cbs, m) := fire_loop now expired m in
      (m_cb t :: cbs, m)
    end
  end.

Definition listExpiredCb (now : Z) (probe : nat) (m : TimerManager)
    : list (option callback) * TimerManager :=
  match m_timers m with
  | [] => ([], m)
  | a :: _ =>
    let (rollover, m) := detectClockRollover now m in
    if negb rollover && (now <? next_of (heap m) a) then ([], m) else
    let (expired, rest) := split_expired rollover now probe m in
    fire_loop now expired (with_timers rest m)
  end.

Definition hasTimer (m : TimerManager) : bool := negb (bool_decide (m_timers m = [])).

(** ** The invariant *)
(** Strict order of the set. *)
Definition before (h : gmap nat Timer) (a b : nat) : Prop :=
  next_of h a < next_of h b ∨ (next_of h a = next_of h b ∧ (a < b)%nat).

(** The set is strictly sorted, and holds exactly the timers with a callback;
    [E] are timers taken out of it for the time being. *)
Record timers_ok_but (E : list nat) (m : TimerManager) : Prop := {
  to_sorted : StronglySorted (before (heap m)) (m_timers m);
  to_live a : a ∈ m_timers m → ∃ t, heap m !! a = Some t ∧ is_Some (m_cb t);
  to_all a t : heap m !! a = Some t → is_Some (m_cb t) → a ∈ m_timers m ∨ a ∈ E
}.
Abbreviation timers_ok := (timers_ok_but []).

Lemma comparator_spec h a b : comparator h a b = true ↔ before h a b.
Proof.
  unfold comparator, before. destruct (Z.ltb_spec (next_of h a) (next_of h b)); [split; [lia|done]|].
  destruct (Z.ltb_spec (next_of h b) (next_of h a)).
  - split; [done|lia].
  - rewrite Nat.ltb_lt. lia.
Qed.

Lemma comparator_false h a b : comparator h a b = false ↔ ¬ before h a b.
Proof. rewrite <- comparator_spec. by destruct (comparator h a b). Qed.

Lemma before_total h a b : ¬ before h a b → ¬ before h b a → a = b.
Proof. unfold before. lia. Qed.
Lemma before_trans h a b c : before h a b → before h b c → before h a c.
Proof. unfold before. lia. Qed.
Lemma before_irrefl h a : ¬ before h a a.
Proof. unfold before. lia. Qed.

(** The order only looks at the timers compared. *)
Lemma before_ext h h' a b :
  next_of h a = next_of h' a → next_of h b = next_of h' b → before h a b ↔ before h' a b.
Proof. unfold before. by intros -> ->. Qed.

Lemma next_of_insert_ne h a b t : a ≠ b → next_of (<[a := t]> h) b = next_of h b.
Proof. intros. unfold next_of. by rewrite lookup_insert_ne. Qed.
Lemma next_of_insert h a t : next_of (<[a := t]> h) a = m_next t.
Proof. unfold next_of. by rewrite lookup_insert_eq. Qed.

Lemma sorted_ext h h' l :
  (∀ a, a ∈ l → next_of h a = next_of h' a) →
  StronglySorted (before h) l → StronglySorted (before h') l.
Proof.
  intros He. induction 1 as [|x l Hs IH Hf]; constructor.
  - apply IH. intros. apply He. set_solver.
  - rewrite Forall_forall in *. intros y Hy.
    apply (before_ext h h'); [apply He; set_solver..|]. by apply Hf.
Qed.

(** ** The set is ordered by [before] *)
Lemma before_separates h a l : separates (before h) a l.
Proof. intros x _ H1 H2. by eapply before_total. Qed.
#[local] Hint Resolve before_separates : core.

Lemma timers_insert_elem h a l x : x ∈ set_insert (comparator h) a l ↔ x = a ∨ x ∈ l.
Proof. apply (set_insert_elem _ (before h)); [apply comparator_spec|done]. Qed.
Lemma timers_insert_sorted h a l :
  StronglySorted (before h) l → StronglySorted (before h) (set_insert (comparator h) a l).
Proof. apply set_insert_sorted; [apply comparator_spec|apply before_trans]. Qed.
Lemma timers_find h a l :
  StronglySorted (before h) l → a ∈ l → ∃ i, set_find (comparator h) a l = Some i ∧ l !! i = Some a.
Proof.
  intros. apply (set_find_sorted _ (before h));
    [apply comparator_spec|apply before_irrefl|apply before_trans|done|done|done].
Qed.
Lemma timers_NoDup h l : StronglySorted (before h) l → NoDup l.
Proof. apply sorted_NoDup. apply before_irrefl. Qed.

(** ** Operations preserve the invariant *)
(** Changing a timer that is out of the set. *)
Lemma ok_update E m a t :
  timers_ok_but E m → a ∉ m_timers m → (is_Some (m_cb t) → a ∈ E) →
  timers_ok_but E (with_heap (<[a := t]> (heap m)) m).
Proof.
  intros [Hs Hl Ha] Hn Hcb. split; cbn.
  - eapply sorted_ext; [|done]. intros b Hb. symmetry. apply next_of_insert_ne. by intros ->.
  - intros b Hb. rewrite lookup_insert_ne by (by intros ->). by apply Hl.
  - intros b t' Hb Hc. destruct (decide (a = b)) as [<-|].
    + rewrite lookup_insert_eq in Hb. injection Hb as <-. right. by apply Hcb.
    + rewrite lookup_insert_ne in Hb by done. by eapply Ha.
Qed.

Lemma ok_insert E m a t :
  timers_ok_but (a :: E) m → heap m !! a = Some t → is_Some (m_cb t) →
  timers_ok_but E (with_timers (set_insert (comparator (heap m)) a (m_timers m)) m).
Proof.
  intros [Hs Hl Ha] Ht Hcb. split; cbn.
  - by apply timers_insert_sorted.
  - intros b [->|Hb]%timers_insert_elem; [by exists t|by apply Hl].
  - intros b t' Hb Hc. rewrite timers_insert_elem. destruct (Ha b t' Hb Hc) as [?|?]; set_solver.
Qed.

Lemma ok_erase E m a i :
  timers_ok_but E m → m_timers m !! i = Some a →
  timers_ok_but (a :: E) (with_timers (set_erase i (m_timers m)) m) ∧
  a ∉ set_erase i (m_timers m).
Proof.
  intros [Hs Hl Ha] Hi. pose proof (timers_NoDup _ _ Hs) as Hnd.
  pose proof (set_erase_spec i a _ Hnd Hi) as He. split; [|rewrite He; naive_solver].
  split; cbn.
  - by apply set_erase_sorted.
  - intros b [Hb _]%He. by apply Hl.
  - intros b t Hb Hc. rewrite He. destruct (decide (b = a)) as [->|]; [right; set_solver|].
    destruct (Ha b t Hb Hc); [by left|right; set_solver].
Qed.

Lemma ok_weaken E m a :
  timers_ok_but (a :: E) m → (∀ t, heap m !! a = Some t → m_cb t = None) → timers_ok_but E m.
Proof.
  intros [Hs Hl Ha] Hn. split; [done|done|]. intros b t Hb Hc.
  destruct (Ha b t Hb Hc) as [?|[->|?]%elem_of_cons]; [by left| |by right].
  rewrite (Hn t Hb) in Hc. by destruct Hc.
Qed.

Lemma ok_strengthen E m a : timers_ok_but E m → timers_ok_but (a :: E) m.
Proof. intros [Hs Hl Ha]. split; [done|done|]. intros b t Hb Hc. destruct (Ha b t Hb Hc); set_solver. Qed.

Lemma insertTimer_ok m a t :
  timers_ok_but [a] m → heap m !! a = Some t → is_Some (m_cb t) → timers_ok (insertTimer a m).2.
Proof.
  intros Hok Ht Hcb. pose proof (ok_insert [] m a t Hok Ht Hcb) as [].
  unfold insertTimer. cbn. destruct (_ && _); by split.
Qed.

Lemma set_cb_next_of h a t v b :
  h !! a = Some t → next_of (<[a := set_cb v t]> h) b = next_of h b.
Proof.
  intros Ht. destruct (decide (a = b)) as [<-|].
  - rewrite next_of_insert. unfold next_of. by rewrite Ht.
  - by rewrite next_of_insert_ne.
Qed.

Lemma cancel_ok m a t :
  timers_ok m → heap m !! a = Some t →
  ∃ m', cancel a m = (Ok (bool_decide (is_Some (m_cb t))), m') ∧ timers_ok m' ∧
    heap m' = <[a := set_cb None t]> (heap m) ∧
    (∀ b, b ∈ m_timers m' ↔ b ∈ m_timers m ∧ b ≠ a).
Proof.
  intros Hok Ht. unfold cancel. rewrite Ht. pose proof Hok as [Hs Hl Ha].
  destruct (m_cb t) as [cb|] eqn:Hcb.
  - destruct (Ha a t Ht) as [Hin|?]; [by rewrite Hcb|..|set_solver]. cbn.
    destruct (timers_find (<[a := set_cb None t]> (heap m)) a (m_timers m)) as (i & -> & Hi).
    { eapply sorted_ext; [|done]. intros. symmetry. by apply set_cb_next_of. } { done. }
    destruct (ok_erase [] m a i Hok Hi) as [Hok' Hn].
    eexists. split; [reflexivity|]. split; [|split; [done|]].
    + apply (ok_weaken [] _ a); [|intros t' Ht'; cbn in Ht'].
      * apply (ok_update [a] _ a (set_cb None t) Hok' Hn). intros [? [=]].
      * rewrite lookup_insert_eq in Ht'. by injection Ht' as <-.
    + intros b. cbn. apply set_erase_spec; [by eapply timers_NoDup|done].
  - exists m. rewrite bool_decide_false by (by intros [? ?]). split; [done|]. split; [done|]. split.
    + rewrite insert_id; [done|]. rewrite Ht. f_equal. destruct t; cbn in *. by subst.
    + intros b. split; [|tauto]. intros Hb. split; [done|]. intros ->.
      destruct (Hl a Hb) as (t' & Ht' & Hc). rewrite Ht in Ht'. injection Ht' as <-.
      rewrite Hcb in Hc. by destruct Hc.
Qed.

Lemma live_find m a t :
  timers_ok m → heap m !! a = Some t → is_Some (m_cb t) →
  ∃ i, set_find (comparator (heap m)) a (m_timers m) = Some i ∧ m_timers m !! i = Some a.
Proof.
  intros [Hs Hl Ha] Ht Hcb. apply timers_find; [done|].
  destruct (Ha a t Ht Hcb); [done|set_solver].
Qed.

(** Taking a live timer out, changing its deadline and putting it back. *)
Lemma reinsert_ok m a i t' :
  timers_ok m → m_timers m !! i = Some a → is_Some (m_cb t') →
  timers_ok_but [a] (with_heap (<[a := t']> (heap m)) (with_timers (set_erase i (m_timers m)) m)).
Proof.
  intros Hok Hi Hcb. destruct (ok_erase [] m a i Hok Hi) as [Hok' Hn].
  apply (ok_update [a] _ a t' Hok' Hn). intros _. set_solver.
Qed.

Lemma refresh_ok m now a t :
  timers_ok m → heap m !! a = Some t →
  ∃ m', refresh now a m = (Ok (bool_decide (is_Some (m_cb t))), m') ∧ timers_ok m' ∧
    (is_Some (m_cb t) → heap m' = <[a := set_next (u64 (now + m_ms t)) t]> (heap m)).
Proof.
  intros Hok Ht. unfold refresh. rewrite Ht. destruct (m_cb t) as [cb|] eqn:Hcb.
  - destruct (live_find m a t Hok Ht) as (i & Hf & Hi); [by rewrite Hcb|]. rewrite Hf.
    eexists. split; [reflexivity|]. split; [|done].
    eapply (ok_insert [] _ a); [apply (reinsert_ok m a i); [done|done|]| |]; cbn.
    + by rewrite Hcb.
    + apply lookup_insert_eq.
    + cbn. by rewrite Hcb.
  - exists m. split; [done|]. split; [done|]. by intros [? ?].
Qed.

Lemma reset_ok m now ms from_now a t :
  timers_ok m → heap m !! a = Some t →
  ∃ r m', reset now ms from_now a m = (Ok r, m') ∧ timers_ok m'.
Proof.
  intros Hok Ht. unfold reset. rewrite Ht.
  destruct (_ && _); [by exists true, m|].
  destruct (m_cb t) as [cb|] eqn:Hcb; [|by exists false, m].
  destruct (live_find m a t Hok Ht) as (i & Hf & Hi); [by rewrite Hcb|]. rewrite Hf.
  do 2 eexists. split; [reflexivity|].
  eapply insertTimer_ok; [apply (reinsert_ok m a i); [done|done|]| |]; cbn.
  - by rewrite Hcb.
  - apply lookup_insert_eq.
  - cbn. by rewrite Hcb.
Qed.

Lemma fresh_not_in m a : timers_ok m → heap m !! a = None → a ∉ m_timers m.
Proof. intros [_ Hl _] Hn Ha. destruct (Hl a Ha) as (t & Ht & _). congruence. Qed.

Lemma addTimer_ok m now a ms cb recurring :
  timers_ok m → heap m !! a = None → timers_ok (addTimer now a ms cb recurring m).2.
Proof.
  intros Hok Hn. unfold addTimer. eapply insertTimer_ok; cbn.
  - apply (ok_update [a] m a (new_Timer now ms cb recurring)).
    + by apply ok_strengthen.
    + by apply fresh_not_in.
    + intros _. set_solver.
  - apply lookup_insert_eq.
  - done.
Qed.

(** ** Expiry *)
Lemma fire_loop_ok now expired : ∀ m,
  timers_ok_but expired m → NoDup expired → (∀ a, a ∈ expired → a ∉ m_timers m) →
  (∀ a, a ∈ expired → ∃ t, heap m !! a = Some t ∧ is_Some (m_cb t)) →
  timers_ok (fire_loop now expired m).2 ∧
  (fire_loop now expired m).1 = omap (λ a, m_cb <$> heap m !! a) expired ∧
  (∀ b, b ∉ expired → heap (fire_loop now expired m).2 !! b = heap m !! b) ∧
  (∀ a t, a ∈ expired → heap m !! a = Some t →
     heap (fire_loop now expired m).2 !! a =
       Some (if m_recurring t then set_next (u64 (now + m_ms t)) t else set_cb None t)) ∧
  m_previouseTime (fire_loop now expired m).2 = m_previouseTime m ∧
  m_tickled (fire_loop now expired m).2 = m_tickled m.
Proof.
  induction expired as [|a expired IH]; intros m Hok Hnd Hnot Hlive; cbn [fire_loop].
  { split_and!; try done. set_solver. }
  apply NoDup_cons in Hnd as [Ha Hnd].
  destruct (Hlive a ltac:(set_solver)) as (t & Ht & Hcb). rewrite Ht.
  set (t' := if m_recurring t then set_next (u64 (now + m_ms t)) t else set_cb None t).
  set (m1 := with_heap (<[a := t']> (heap m)) m).
  set (m2 := if m_recurring t then with_timers (set_insert (comparator (heap m1)) a (m_timers m1)) m1 else m1).
  match goal with |- context [fire_loop now expired ?x] => assert (x = m2) as -> end.
  { subst m2 m1 t'. by destruct (m_recurring t). }
  assert (timers_ok_but (a :: expired) m1) as Hok1.
  { apply ok_update; [done|apply Hnot; set_solver|set_solver]. }
  assert (timers_ok_but expired m2 ∧ heap m2 = <[a := t']> (heap m) ∧
          m_previouseTime m2 = m_previouseTime m ∧ m_tickled m2 = m_tickled m ∧
          ∀ b, b ∈ m_timers m2 → b ∈ m_timers m ∨ b = a) as (Hok2 & Hh2 & Hp2 & Htk2 & Hin2).
  { subst m2. destruct (m_recurring t) eqn:Hr.
    - split_and!; try done.
      + eapply ok_insert; [done|apply lookup_insert_eq|]. subst t'. by destruct t.
      + intros b. cbn. rewrite timers_insert_elem. set_solver.
    - split_and!; try done; [|set_solver]. apply (ok_weaken _ _ a); [done|].
      intros t1 Ht1. cbn in Ht1. rewrite lookup_insert_eq in Ht1. injection Ht1 as <-. subst t'.
      by destruct t. }
  assert (∀ b, b ∈ expired → heap m2 !! b = heap m !! b) as Hsame.
  { intros b Hb. rewrite Hh2, lookup_insert_ne; [done|]. by intros ->. }
  destruct (IH m2 Hok2 Hnd) as (H1 & H2 & H3 & H4 & H5 & H6).
  { intros b Hb [Hb'| ->]%Hin2; [|done]. by apply (Hnot b); [set_solver|]. }
  { intros b Hb. rewrite Hsame by done. apply Hlive. set_solver. }
  destruct (fire_loop now expired m2) as [cbs m3]. cbn [fst snd] in *.
  split_and!; try done; try congruence.
  - cbn. rewrite Ht. cbn. f_equal. rewrite H2. apply list_omap_ext.
    apply Forall_Forall2_diag, Forall_forall. intros b Hb. by rewrite Hsame.
  - intros b Hb. rewrite H3 by set_solver. rewrite Hh2. apply lookup_insert_ne. set_solver.
  - intros b tb [->|Hb]%elem_of_cons Htb.
    + rewrite Ht in Htb. injection Htb as <-. rewrite H3 by done. by rewrite Hh2, lookup_insert_eq.
    + apply H4; [done|]. by rewrite Hsame.
Qed.

Lemma span_equal h now l :
  StronglySorted (before h) l → (∀ x, x ∈ l → now ≤ next_of h x) →
  span (λ x, next_of h x =? now) l =
    (filter (λ x, next_of h x ≤ now) l, filter (λ x, ¬ next_of h x ≤ now) l).
Proof.
  induction 1 as [|x l Hs IH Hf]; intros Hge; [done|]. cbn [span].
  pose proof (Hge x ltac:(set_solver)) as Hx.
  destruct (Z.eqb_spec (next_of h x) now) as [E|E].
  - rewrite IH by (intros; apply Hge; set_solver).
    rewrite filter_cons_True by lia. rewrite filter_cons_False by lia. done.
  - assert (∀ y, y ∈ x :: l → ¬ next_of h y ≤ now) as Hall.
    { rewrite Forall_forall in Hf. intros y [->|Hy]%elem_of_cons; [lia|].
      apply Hf in Hy. unfold before in Hy. lia. }
    by rewrite filter_none, filter_all.
Qed.

Lemma split_expired_spec now probe m :
  timers_ok m → heap m !! probe = None →
  split_expired false now probe m =
    (filter (λ x, next_of (heap m) x ≤ now) (m_timers m),
     filter (λ x, ¬ next_of (heap m) x ≤ now) (m_timers m)).
Proof.
  intros [Hs Hl _] Hn. unfold split_expired. set (h := heap m) in *. set (l := m_timers m) in *.
  assert (∀ x, x ∈ l → x ≠ probe) as Hne.
  { intros x Hx ->. destruct (Hl _ Hx) as (? & ? & _). congruence. }
  clearbody l. clear Hl. induction Hs as [|x l Hs IH Hf]; [done|]. cbn [span].
  assert (next_of (<[probe:=new_Timer_at now]> h) x = next_of h x) as En.
  { apply next_of_insert_ne. symmetry. apply Hne. set_solver. }
  destruct (comparator _ x probe) eqn:Hc.
  - apply comparator_spec in Hc. unfold before in Hc. rewrite En, next_of_insert in Hc. cbn in Hc.
    specialize (IH ltac:(intros; apply Hne; set_solver)).
    destruct (span (λ x, comparator _ x probe) l) as [b it]. destruct (span _ it) as [e it'].
    injection IH as E1 E2. rewrite filter_cons_True by lia. rewrite filter_cons_False by lia.
    cbn. by rewrite E1, E2.
  - apply comparator_false in Hc. unfold before in Hc. rewrite En, next_of_insert in Hc. cbn in Hc.
    rewrite span_equal; [done|by constructor|]. rewrite Forall_forall in Hf.
    intros y [->|Hy]%elem_of_cons; [lia|]. apply Hf in Hy. unfold before in Hy. lia.
Qed.

(** The timers a tick at [now] hands out. *)
Definition clock_rolled (now : Z) (m : TimerManager) : Prop :=
  now < m_previouseTime m ∧ now < u64 (m_previouseTime m - 60 * 60 * 1000).
#[export] Instance clock_rolled_dec now m : Decision (clock_rolled now m).
Proof. unfold clock_rolled. apply _. Defined.
Definition due (now : Z) (m : TimerManager) : list nat :=
  if decide (clock_rolled now m) then m_timers m
  else filter (λ a, next_of (heap m) a ≤ now) (m_timers m).

Lemma detectClockRollover_spec now m :
  detectClockRollover now m = (bool_decide (clock_rolled now m), with_previous now m).
Proof.
  unfold detectClockRollover. f_equal. unfold clock_rolled.
  destruct (Z.ltb_spec now (m_previouseTime m)), (Z.ltb_spec now (u64 (m_previouseTime m - 60 * 60 * 1000)));
    symmetry; rewrite ?bool_decide_eq_true, ?bool_decide_eq_false; cbn [andb]; lia.
Qed.

(** And those that stay in the set. *)
Definition kept (now : Z) (m : TimerManager) : list nat :=
  if decide (clock_rolled now m) then []
  else filter (λ a, ¬ next_of (heap m) a ≤ now) (m_timers m).

Lemma due_or_kept now m a : a ∈ m_timers m ↔ a ∈ due now m ∨ a ∈ kept now m.
Proof.
  unfold due, kept. destruct (decide _); [set_solver|]. rewrite !list_elem_of_filter.
  destruct (decide (next_of (heap m) a ≤ now)); tauto.
Qed.
Lemma due_not_kept now m a : a ∈ due now m → a ∉ kept now m.
Proof. unfold due, kept. destruct (decide _); [set_solver|]. rewrite !list_elem_of_filter. tauto. Qed.

Lemma listExpiredCb_run now probe m :
  timers_ok m → heap m !! probe = None → due now m ≠ [] →
  listExpiredCb now probe m =
    fire_loop now (due now m) (with_timers (kept now m) (with_previous now m)).
Proof.
  intros Hok Hn Hdue. pose proof Hok as [Hs Hl _]. unfold listExpiredCb.
  assert (timers_ok (with_previous now m)) as Hok' by (destruct Hok; by split).
  destruct (m_timers m) as [|a l] eqn:El.
  { exfalso. apply Hdue. unfold due. rewrite El. by destruct (decide _). }
  rewrite detectClockRollover_spec. unfold due, kept in *. rewrite El in *.
  destruct (decide (clock_rolled now m)) as [Hr|Hr].
  - rewrite bool_decide_true by done. cbn [negb andb]. unfold split_expired.
    cbn [m_timers with_previous]. rewrite El. cbn [span]. by rewrite app_nil_r.
  - rewrite bool_decide_false by done. cbn [negb andb].
    destruct (Z.ltb_spec now (next_of (heap (with_previous now m)) a)) as [Hlt|Hge].
    + exfalso. apply Hdue, filter_none. apply StronglySorted_inv in Hs as [_ Hf].
      rewrite Forall_forall in Hf. cbn in Hlt.
      intros y [->|Hy]%elem_of_cons; [lia|]. apply Hf in Hy. unfold before in Hy. lia.
    + rewrite split_expired_spec by done. cbn [m_timers with_previous heap]. by rewrite El.
Qed.

(** With nothing due a tick only records the time, if it looks at it at all. *)
Lemma listExpiredCb_idle now probe m :
  timers_ok m → heap m !! probe = None → due now m = [] →
  ∃ p, listExpiredCb now probe m = ([], with_previous p m).
Proof.
  intros Hok Hn Hdue. unfold listExpiredCb. destruct (m_timers m) as [|a l] eqn:El.
  { exists (m_previouseTime m). by destruct m. }
  exists now. rewrite detectClockRollover_spec. unfold due in Hdue. rewrite El in Hdue.
  destruct (decide (clock_rolled now m)) as [Hr|Hr]; [done|].
  rewrite bool_decide_false by done. cbn [negb andb].
  destruct (Z.ltb_spec now (next_of (heap (with_previous now m)) a)) as [|Hge]; [done|].
  exfalso. cbn in Hge. rewrite filter_cons_True in Hdue by done. done.
Qed.

(** What a tick does to one timer. *)
Definition ticked (now : Z) (m : TimerManager) (a : nat) (t : Timer) : Timer :=
  if decide (a ∈ due now m)
  then if m_recurring t then set_next (u64 (now + m_ms t)) t else set_cb None t
  else t.

Lemma listExpiredCb_spec now probe m :
  timers_ok m → heap m !! probe = None →
  let (cbs, m') := listExpiredCb now probe m in
  cbs = omap (λ a, m_cb <$> heap m !! a) (due now m) ∧ Forall is_Some cbs ∧
  length cbs = length (due now m) ∧
  timers_ok m' ∧ (∀ a, heap m' !! a = ticked now m a <$> heap m !! a).
Proof.
  intros Hok Hn.
  assert (Forall is_Some (omap (λ a, m_cb <$> heap m !! a) (due now m)) ∧
          length (omap (λ a, m_cb <$> heap m !! a) (due now m)) = length (due now m)) as [Hall Hlen].
  { assert (∀ a, a ∈ due now m → ∃ t, heap m !! a = Some t ∧ is_Some (m_cb t)) as Hd.
    { intros a Ha. apply (to_live _ _ Hok), (due_or_kept now m). by left. }
    revert Hd. generalize (due now m) as l. induction l as [|a l IH]; intros Hd; [done|].
    destruct (Hd a ltac:(set_solver)) as (t & Ht & Hc). destruct (IH ltac:(set_solver)) as [H1 H2].
    cbn. rewrite Ht. cbn. split; [by constructor|by rewrite H2]. }
  destruct (decide (due now m = [])) as [E|Hne].
  - destruct (listExpiredCb_idle now probe m Hok Hn E) as [p ->]. rewrite E. cbn.
    split_and!; try done; [destruct Hok; by split|]. intros a. unfold ticked. rewrite E.
    destruct (heap m !! a); [cbn|done]. by rewrite decide_False by set_solver.
  - rewrite listExpiredCb_run by done. pose proof Hok as [Hs Hl Ha].
    destruct (fire_loop_ok now (due now m) (with_timers (kept now m) (with_previous now m)))
      as (H1 & H2 & H3 & H4 & _).
    + split; cbn.
      * unfold kept. destruct (decide _); [constructor|by apply filter_sorted].
      * intros a Hk. apply Hl, (due_or_kept now m). by right.
      * intros a t Ht Hc. destruct (Ha a t Ht Hc) as [Hin|]; [|set_solver].
        apply (due_or_kept now m) in Hin. tauto.
    + apply (timers_NoDup (heap m)). unfold due. destruct (decide _); [done|by apply filter_sorted].
    + intros a. apply due_not_kept.
    + intros a Hd. apply Hl, (due_or_kept now m). by left.
    + destruct (fire_loop _ _ _) as [cbs m']. cbn [fst snd heap with_timers with_previous] in *.
      split_and!; try done; try congruence. intros a. unfold ticked.
      destruct (decide (a ∈ due now m)) as [Hd|Hd].
      * destruct (heap m !! a) as [t|] eqn:Ht; [by erewrite H4|].
        exfalso. destruct (Hl a) as (t & Ht' & _); [apply (due_or_kept now m); by left|congruence].
      * rewrite H3 by done. by destruct (heap m !! a).
Qed.

(** ** Runs *)
(** One atomic operation, with the addresses of the timers it hands out. *)
Inductive step (m : TimerManager) : list nat → TimerManager → Prop :=
| step_add now a ms cb recurring :
    heap m !! a = None → step m [] (addTimer now a ms cb recurring m).2
| step_cancel a m' r : cancel a m = (r, m') → is_Some (heap m !! a) → step m [] m'
| step_refresh now a m' r : refresh now a m = (r, m') → is_Some (heap m !! a) → step m [] m'
| step_reset now ms from_now a m' r :
    reset now ms from_now a m = (r, m') → is_Some (heap m !! a) → step m [] m'
| step_next now : step m [] (getNextTimer now m).2
| step_tick now probe cbs m' :
    heap m !! probe = None → listExpiredCb now probe m = (cbs, m') → step m (due now m) m'.

Inductive run (m : TimerManager) : list nat → TimerManager → Prop :=
| run_nil : run m [] m
| run_step f m' fs m'' : run m f m' → step m' fs m'' → run m (f ++ fs) m''.

Lemma new_TimerManager_ok now : timers_ok (new_TimerManager now).
Proof. split; cbn; [constructor|set_solver|]. intros a t H. by rewrite lookup_empty in H. Qed.

Lemma getNextTimer_ok now m : timers_ok m → timers_ok (getNextTimer now m).2.
Proof. intros []. unfold getNextTimer. cbn. destruct (m_timers m) eqn:E; split; cbn; rewrite ?E; done. Qed.

Lemma step_ok m fs m' : timers_ok m → step m fs m' → timers_ok m'.
Proof.
  intros Hok [now a ms cb rec Hn|a m1 r E [t Ht]|now a m1 r E [t Ht]|now ms fn a m1 r E [t Ht]|now|now probe cbs m1 Hn E].
  - by apply addTimer_ok.
  - destruct (cancel_ok m a t Hok Ht) as (m2 & E2 & ? & _). congruence.
  - destruct (refresh_ok m now a t Hok Ht) as (m2 & E2 & ? & _). congruence.
  - destruct (reset_ok m now ms fn a t Hok Ht) as (r2 & m2 & E2 & ?). congruence.
  - by apply getNextTimer_ok.
  - pose proof (listExpiredCb_spec now probe m Hok Hn) as HH. rewrite E in HH. apply HH.
Qed.

Lemma run_ok m fs m' : timers_ok m → run m fs m' → timers_ok m'.
Proof. intros Hok. induction 1; [done|]. by eapply step_ok. Qed.

(** A timer whose callback was cleared: cancelled, or a one-shot that fired. *)
Definition dead (a : nat) (m : TimerManager) : Prop := ∃ t, heap m !! a = Some t ∧ m_cb t = None.

Lemma dead_step m fs m' a : timers_ok m → dead a m → step m fs m' → dead a m' ∧ a ∉ fs.
Proof.
  intros Hok (t & Ht & Hcb) Hstep.
  assert (a ∉ m_timers m) as Hout.
  { intros Ha. destruct (to_live _ _ Hok a Ha) as (t' & Ht' & Hc). rewrite Ht in Ht'.
    injection Ht' as <-. rewrite Hcb in Hc. by destruct Hc. }
  destruct Hstep as [now b ms cb rec Hn|b m1 r E [tb Hb]|now b m1 r E [tb Hb]|now ms fn b m1 r E [tb Hb]|now|now probe cbs m1 Hn E].
  - split; [|set_solver]. exists t. split; [|done]. unfold addTimer, insertTimer. cbn.
    destruct (_ && _); cbn; rewrite lookup_insert_ne; [done|congruence|done|congruence].
  - split; [|set_solver]. destruct (cancel_ok m b tb Hok Hb) as (m2 & E2 & _ & Hh & _).
    rewrite E in E2. injection E2 as _ ->. unfold dead. rewrite Hh. destruct (decide (b = a)) as [->|].
    + rewrite lookup_insert_eq. by exists (set_cb None tb).
    + rewrite lookup_insert_ne by done. by exists t.
  - split; [|set_solver]. destruct (decide (b = a)) as [->|].
    + unfold refresh in E. rewrite Ht, Hcb in E. injection E as _ <-. by exists t.
    + unfold refresh in E. rewrite Hb in E. destruct (m_cb tb); [|injection E as _ <-; by exists t].
      destruct (set_find _ _ _); [|injection E as _ <-; by exists t]. injection E as _ <-.
      exists t. cbn. by rewrite lookup_insert_ne.
  - split; [|set_solver]. destruct (decide (b = a)) as [->|].
    + unfold reset in E. rewrite Ht, Hcb in E. destruct (_ && _); injection E as _ <-; by exists t.
    + unfold reset in E. rewrite Hb in E. destruct (_ && _); [injection E as _ <-; by exists t|].
      destruct (m_cb tb); [|injection E as _ <-; by exists t].
      destruct (set_find _ _ _); [|injection E as _ <-; by exists t]. injection E as _ <-.
      exists t. unfold insertTimer. cbn. destruct (_ && _); cbn; by rewrite lookup_insert_ne.
  - split; [|set_solver]. exists t. unfold getNextTimer. cbn. by destruct (m_timers m).
  - assert (a ∉ due now m) as Hd.
    { intros Hd. apply Hout. apply (due_or_kept now m). by left. }
    split; [|done]. pose proof (listExpiredCb_spec now probe m Hok Hn) as HH. rewrite E in HH.
    destruct HH as (_ & _ & _ & _ & Hh). exists t. rewrite Hh, Ht. cbn. unfold ticked.
    by rewrite decide_False.
Qed.

(** ** Properties *)
(** C32: Through any sequence of additions, cancellations, refreshes, resets and
    ticks the set stays strictly ordered by deadline and address and holds
    exactly the timers whose callback is set; so no operation ever erases an end
    iterator or dereferences a missing timer. *)
Theorem timers_invariant (now0 : Z) (fs : list nat) (m : TimerManager) :
  run (new_TimerManager now0) fs m →
  timers_ok m ∧
  ∀ a, is_Some (heap m !! a) →
    (∃ r, (cancel a m).1 = Ok r) ∧ (∀ now, ∃ r, (refresh now a m).1 = Ok r) ∧
    (∀ now ms from_now, ∃ r, (reset now ms from_now a m).1 = Ok r).
Proof.
  intros Hrun. assert (timers_ok m) as Hok by (eapply run_ok; [apply new_TimerManager_ok|done]).
  split; [done|]. intros a [t Ht]. split_and!.
  - destruct (cancel_ok m a t Hok Ht) as (? & -> & _). by eexists.
  - intros now. destruct (refresh_ok m now a t Hok Ht) as (? & -> & _). by eexists.
  - intros now ms fn. destruct (reset_ok m now ms fn a t Hok Ht) as (? & ? & -> & _). by eexists.
Qed.

Definition sample_timers : TimerManager :=
  (addTimer 100 2 30 (mkCallback 8 None) true
     (addTimer 100 1 50 (mkCallback 7 None) false (new_TimerManager 100)).2).2.

Lemma sample_timers_run : run (new_TimerManager 100) [] sample_timers.
Proof.
  eapply (run_step _ [] _ []); [|by apply step_add].
  eapply (run_step _ [] _ []); [|by apply step_add]. apply run_nil.
Qed.

Lemma timers_invariant_witness :
  timers_ok sample_timers ∧
  ∀ a, is_Some (heap sample_timers !! a) →
    (∃ r, (cancel a sample_timers).1 = Ok r) ∧ (∀ now, ∃ r, (refresh now a sample_timers).1 = Ok r) ∧
    (∀ now ms from_now, ∃ r, (reset now ms from_now a sample_timers).1 = Ok r).
Proof. apply (timers_invariant 100 []). apply sample_timers_run. Defined.

(** C33: [listExpiredCb] hands out, in order of deadline and address, the
    callbacks of exactly the timers whose deadline is reached (of all of them
    when the clock jumped back by more than an hour), never an empty callback
    and whatever address its probe timer got; a recurring timer is set to one
    period from now, a one-shot is cleared, every other timer is untouched. *)
Theorem listExpiredCb_exact (now : Z) (probe : nat) (m : TimerManager) :
  timers_ok m → heap m !! probe = None →
  let (cbs, m') := listExpiredCb now probe m in
  cbs = omap (λ a, m_cb <$> heap m !! a) (due now m) ∧ Forall is_Some cbs ∧
  length cbs = length (due now m) ∧ StronglySorted (before (heap m)) (due now m) ∧
  (¬ clock_rolled now m → ∀ a, a ∈ due now m ↔ a ∈ m_timers m ∧ next_of (heap m) a ≤ now) ∧
  (∀ a, heap m' !! a = ticked now m a <$> heap m !! a).
Proof.
  intros Hok Hn. pose proof (listExpiredCb_spec now probe m Hok Hn) as HH.
  destruct (listExpiredCb now probe m) as [cbs m']. destruct HH as (H1 & H2 & H3 & _ & H4).
  split_and!; try done.
  - unfold due. destruct (decide _); [apply Hok|apply filter_sorted, Hok].
  - intros Hr a. unfold due. rewrite decide_False by done. rewrite list_elem_of_filter. tauto.
Qed.

Lemma listExpiredCb_exact_witness :
  let (cbs, m') := listExpiredCb 140 9 sample_timers in
  cbs = omap (λ a, m_cb <$> heap sample_timers !! a) (due 140 sample_timers) ∧ Forall is_Some cbs ∧
  length cbs = length (due 140 sample_timers) ∧
  StronglySorted (before (heap sample_timers)) (due 140 sample_timers) ∧
  (¬ clock_rolled 140 sample_timers → ∀ a, a ∈ due 140 sample_timers ↔
     a ∈ m_timers sample_timers ∧ next_of (heap sample_timers) a ≤ 140) ∧
  (∀ a, heap m' !! a = ticked 140 sample_timers a <$> heap sample_timers !! a).
Proof.
  apply (listExpiredCb_exact 140 9 sample_timers); [|done].
  eapply run_ok; [apply new_TimerManager_ok|apply sample_timers_run].
Defined.

(** A timer that was cancelled, or a one-shot that fired, never fires again:
    no later tick hands out its callback, whatever else happens, and cancelling
    it again answers [false]. *)
Theorem dead_timers_never_fire (m m' : TimerManager) (a : nat) (fs : list nat) :
  timers_ok m → dead a m → run m fs m' → (a ∉ fs) ∧ dead a m' ∧ (cancel a m').1 = Ok false.
Proof.
  intros Hok Hd Hrun. assert (timers_ok m' ∧ dead a m' ∧ a ∉ fs) as (Hok' & Hd' & Hf).
  { induction Hrun as [|f m1 fs m2 Hr IH Hs]; [set_solver|]. destruct IH as (H1 & H2 & H3).
    destruct (dead_step m1 fs m2 a H1 H2 Hs). split; [by eapply step_ok|]. set_solver. }
  split; [done|]. split; [done|]. destruct Hd' as (t & Ht & Hc). unfold cancel. by rewrite Ht, Hc.
Qed.

Lemma dead_timers_never_fire_witness :
  let m := (cancel 1 sample_timers).2 in
  let m' := (listExpiredCb 1000 9 m).2 in
  (1%nat ∉ due 1000 m) ∧ dead 1 m' ∧ (cancel 1 m').1 = Ok false.
Proof.
  intros m m'.
  assert (timers_ok sample_timers) as Hok0
    by (eapply run_ok; [apply new_TimerManager_ok|apply sample_timers_run]).
  apply (dead_timers_never_fire m m' 1 (due 1000 m)).
  - destruct (cancel_ok sample_timers 1 (new_Timer 100 50 (mkCallback 7 None) false) Hok0 eq_refl)
      as (m2 & E & Hok & _). subst m. by rewrite E.
  - by exists (set_cb None (new_Timer 100 50 (mkCallback 7 None) false)).
  - apply (run_step m [] m (due 1000 m) m'); [constructor|].
    apply (step_tick m 1000 9 (listExpiredCb 1000 9 m).1); [done|]. subst m'.
    by destruct (listExpiredCb 1000 9 m).
Defined.

(** The wait [getNextTimer] advises is the time to the earliest deadline: no
    timer is due before it has passed, and once it has passed one is due (or it
    is [~0ull] and there is no timer). *)
Theorem getNextTimer_exact (now : Z) (m : TimerManager) :
  timers_ok m → (∀ a, 0 ≤ next_of (heap m) a < 2 ^ 64) → 0 ≤ now →
  let w := (getNextTimer now m).1 in
  (m_timers m = [] ∧ w = 2 ^ 64 - 1) ∨
  ((∀ a, a ∈ m_timers m → next_of (heap m) a ≤ now ∨ now + w ≤ next_of (heap m) a) ∧
   (∃ a, a ∈ m_timers m ∧ next_of (heap m) a ≤ now + w) ∧ 0 ≤ w).
Proof.
  intros [Hs _ _] Hb Hnow. unfold getNextTimer. cbn.
  destruct (m_timers m) as [|a l]; [by left|right]. cbn.
  apply StronglySorted_inv in Hs as [_ Hf]. rewrite Forall_forall in Hf.
  assert (∀ b, b ∈ a :: l → next_of (heap m) a ≤ next_of (heap m) b) as Hmin.
  { intros b [->|Hin]%elem_of_cons; [lia|]. apply Hf in Hin. unfold before in Hin. lia. }
  pose proof (Hb a). destruct (Z.leb_spec (next_of (heap m) a) now).
  - split_and!; [intros; lia|exists a; split; [set_solver|lia]|lia].
  - rewrite wrap_small by lia. split_and!; [|exists a; split; [set_solver|lia]|lia].
    intros b Hin. apply Hmin in Hin. lia.
Qed.

Lemma getNextTimer_exact_witness :
  let w := (getNextTimer 110 sample_timers).1 in
  (m_timers sample_timers = [] ∧ w = 2 ^ 64 - 1) ∨
  ((∀ a, a ∈ m_timers sample_timers →
      next_of (heap sample_timers) a ≤ 110 ∨ 110 + w ≤ next_of (heap sample_timers) a) ∧
   (∃ a, a ∈ m_timers sample_timers ∧ next_of (heap sample_timers) a ≤ 110 + w) ∧ 0 ≤ w).
Proof.
  apply (getNextTimer_exact 110 sample_timers).
  - eapply run_ok; [apply new_TimerManager_ok|apply sample_timers_run].
  - intros a. unfold next_of.
    change (heap sample_timers) with
      (<[2%nat := new_Timer 100 30 (mkCallback 8 None) true]>
         (<[1%nat := new_Timer 100 50 (mkCallback 7 None) false]> (∅ : gmap nat Timer))).
    destruct (decide (a = 1%nat)) as [->|]; [by vm_compute|].
    destruct (decide (a = 2%nat)) as [->|]; [by vm_compute|].
    rewrite lookup_insert_ne, lookup_insert_ne, lookup_empty by done. lia.
  - lia.
Defined.
