(* ===== verification/CacheStatus.v ===== *)
(** * Cache counters (Helens/ds/cache_status.h)

    The counters every cache updates; several caches may share one object, so the
    operations of a cache take it as part of their state. *)
From S2P Require Import Prelude.

Record CacheStatus := mkCacheStatus {
  m_get : Z; m_set : Z; m_del : Z; m_timeout : Z; m_prune : Z; m_hit : Z }.

Definition new_CacheStatus : CacheStatus := mkCacheStatus 0 0 0 0 0 0.

(** [Atomic::addFetch] and [subFetch] on an [int64_t] wrap around. *)
Definition addFetch (x v : Z) : Z := i64 (x + v).
Definition subFetch (x v : Z) : Z := i64 (x - v).

Definition incGet (v : Z) (s : CacheStatus) : CacheStatus :=
  mkCacheStatus (addFetch (m_get s) v) (m_set s) (m_del s) (m_timeout s) (m_prune s) (m_hit s).
Definition incSet (v : Z) (s : CacheStatus) : CacheStatus :=
  mkCacheStatus (m_get s) (addFetch (m_set s) v) (m_del s) (m_timeout s) (m_prune s) (m_hit s).
Definition incDel (v : Z) (s : CacheStatus) : CacheStatus :=
  mkCacheStatus (m_get s) (m_set s) (addFetch (m_del s) v) (m_timeout s) (m_prune s) (m_hit s).
Definition incTimeout (v : Z) (s : CacheStatus) : CacheStatus :=
  mkCacheStatus (m_get s) (m_set s) (m_del s) (addFetch (m_timeout s) v) (m_prune s) (m_hit s).
Definition incPrune (v : Z) (s : CacheStatus) : CacheStatus :=
  mkCacheStatus (m_get s) (m_set s) (m_del s) (m_timeout s) (addFetch (m_prune s) v) (m_hit s).
Definition incHit (v : Z) (s : CacheStatus) : CacheStatus :=
  mkCacheStatus (m_get s) (m_set s) (m_del s) (m_timeout s) (m_prune s) (addFetch (m_hit s) v).

Definition decGet (v : Z) (s : CacheStatus) : CacheStatus :=
  mkCacheStatus (subFetch (m_get s) v) (m_set s) (m_del s) (m_timeout s) (m_prune s) (m_hit s).
Definition decSet (v : Z) (s : CacheStatus) : CacheStatus :=
  mkCacheStatus (m_get s) (subFetch (m_set s) v) (m_del s) (m_timeout s) (m_prune s) (m_hit s).
Definition decDel (v : Z) (s : CacheStatus) : CacheStatus :=
  mkCacheStatus (m_get s) (m_set s) (subFetch (m_del s) v) (m_timeout s) (m_prune s) (m_hit s).
Definition decTimeout (v : Z) (s : CacheStatus) : CacheStatus :=
  mkCacheStatus (m_get s) (m_set s) (m_del s) (subFetch (m_timeout s) v) (m_prune s) (m_hit s).
Definition decPrune (v : Z) (s : CacheStatus) : CacheStatus :=
  mkCacheStatus (m_get s) (m_set s) (m_del s) (m_timeout s) (subFetch (m_prune s) v) (m_hit s).
Definition decHit (v : Z) (s : CacheStatus) : CacheStatus :=
  mkCacheStatus (m_get s) (m_set s) (m_del s) (m_timeout s) (m_prune s) (subFetch (m_hit s) v).

(** [merge] adds counter by counter; signed overflow has no defined behaviour. *)
Definition add_i64 (x y : Z) : outcome Z :=
  if decide (is_sint 64 (x + y)) then Ok (x + y) else Undef Overflow.
Definition merge (s o : CacheStatus) : outcome CacheStatus :=
  obind (add_i64 (m_get s) (m_get o)) (λ g,
  obind (add_i64 (m_set s) (m_set o)) (λ st,
  obind (add_i64 (m_del s) (m_del o)) (λ d,
  obind (add_i64 (m_timeout s) (m_timeout o)) (λ t,
  obind (add_i64 (m_prune s) (m_prune o)) (λ p,
  obind (add_i64 (m_hit s) (m_hit o)) (λ h,
  Ok (mkCacheStatus g st d t p h))))))).

(** [merge] is commutative where it is defined. *)
Lemma merge_comm s o : merge s o = merge o s.
Proof.
  unfold merge, add_i64. rewrite (Z.add_comm (m_get s)), (Z.add_comm (m_set s)),
    (Z.add_comm (m_del s)), (Z.add_comm (m_timeout s)), (Z.add_comm (m_prune s)),
    (Z.add_comm (m_hit s)). done.
Qed.
