(* ===== verification/LruCache.v ===== *)
(** * LruCache and HashLruCache (Helens/ds/lru_cache.h)

    [m_keys] holds the items, most recently used first; [m_cache] maps a key to
    an iterator into it.  The specification is an association list ordered by
    recency. *)
From S2P Require Import Prelude NodeList CacheStatus.

Section lru.
Context {K V : Type} `{Countable K}.
(** The value a value-initialised [V()] has. *)
Context (V_default : V).

(** ** State *)
Record LruCache := mkLruCache {
  m_cache : gmap K nat;
  m_keys : list (nat * (K * V));
  m_maxSize : Z;
  m_elasticity : Z;
  (** whether [m_cb] is set, and the calls it received, latest last *)
  m_cb : bool;
  pruned : list (K * V);
  (** the identity the next node gets *)
  fresh_node : nat
}.

Definition with_cache (v : gmap K nat) (c : LruCache) : LruCache :=
  mkLruCache v (m_keys c) (m_maxSize c) (m_elasticity c) (m_cb c) (pruned c) (fresh_node c).
Definition with_keys (v : list (nat * (K * V))) (c : LruCache) : LruCache :=
  mkLruCache (m_cache c) v (m_maxSize c) (m_elasticity c) (m_cb c) (pruned c) (fresh_node c).

Definition new_LruCache (max_size elasticity : Z) : LruCache :=
  mkLruCache ∅ [] max_size elasticity false [] 0.

Definition setMaxSize (v : Z) (c : LruCache) : LruCache :=
  mkLruCache (m_cache c) (m_keys c) v (m_elasticity c) (m_cb c) (pruned c) (fresh_node c).
Definition setElasticity (v : Z) (c : LruCache) : LruCache :=
  mkLruCache (m_cache c) (m_keys c) (m_maxSize c) v (m_cb c) (pruned c) (fresh_node c).
Definition setPruneCallback (v : bool) (c : LruCache) : LruCache :=
  mkLruCache (m_cache c) (m_keys c) (m_maxSize c) (m_elasticity c) v (pruned c) (fresh_node c).
Definition getMaxAllowedSize (c : LruCache) : Z := u64 (m_maxSize c + m_elasticity c).

(** A cache and the [CacheStatus] it points to. *)
Abbreviation LruM := (M (CacheStatus * LruCache)).
Definition status (f : CacheStatus → CacheStatus) : LruM unit := modst (λ w, (f (w.1), w.2)).
Definition cache : LruM LruCache := λ w, (Ok (w.2), w).
Definition put_cache (c : LruCache) : LruM unit := modst (λ w, (w.1, c)).

(** ** Operations *)
(** [m_keys.splice(m_keys.begin(), m_keys, it)] *)
Definition touch (id : nat) : LruM unit :=
  let! c := cache in
  let! l := lift (of_option OutOfBounds (node_to_front id (m_keys c))) in
  put_cache (with_keys l c).

(** The loop of [prune]; [back()] of an empty list has no defined value. *)
Fixpoint prune_loop (fuel : nat) (count : Z) : LruM Z :=
  let! c := cache in
  if Z.of_nat (size (m_cache c)) <=? m_maxSize c then ret count else
  match fuel with
  | O => lift Fuel
  | S fuel =>
    let! back := lift (of_option EmptyAccess (last (m_keys c))) in
    let calls := if m_cb c then pruned c ++ [back.2] else pruned c in
    put_cache (mkLruCache (delete (back.2.1) (m_cache c)) (removelast (m_keys c)) (m_maxSize c)
                 (m_elasticity c) (m_cb c) calls (fresh_node c)) ;;!
    prune_loop fuel (count + 1)
  end.
Definition prune : LruM Z :=
  let! c := cache in
  if (m_maxSize c =? 0) || (Z.of_nat (size (m_cache c)) <? getMaxAllowedSize c) then ret 0 else
  let! count := prune_loop (size (m_cache c)) 0 in
  status (incPrune count) ;;! ret count.

Definition set (k : K) (v : V) : LruM unit :=
  status (incSet 1) ;;!
  let! c := cache in
  match m_cache c !! k with
  | Some id =>
    put_cache (with_keys (node_update id (λ kv, (kv.1, v)) (m_keys c)) c) ;;! touch id
  | None =>
    put_cache (mkLruCache (<[k := fresh_node c]> (m_cache c)) ((fresh_node c, (k, v)) :: m_keys c)
                 (m_maxSize c) (m_elasticity c) (m_cb c) (pruned c) (S (fresh_node c))) ;;!
    prune ;;! ret tt
  end.

(** [bool get(const K&, V&)]: the value stored through the reference. *)
Definition get (k : K) : LruM (option V) :=
  status (incGet 1) ;;!
  let! c := cache in
  match m_cache c !! k with
  | None => ret None
  | Some id =>
    touch id ;;!
    let! c := cache in
    let! kv := lift (of_option OutOfBounds (node_get id (m_keys c))) in
    status (incHit 1) ;;! ret (Some (kv.2))
  end.

(** [V get(const K&)] *)
Definition get_or_default (k : K) : LruM V :=
  let! r := get k in ret (default V_default r).

Definition del (k : K) : LruM bool :=
  status (incDel 1) ;;!
  let! c := cache in
  match m_cache c !! k with
  | None => ret false
  | Some id =>
    let! _ := lift (of_option OutOfBounds (node_get id (m_keys c))) in
    put_cache (with_cache (delete k (m_cache c)) (with_keys (node_erase id (m_keys c)) c)) ;;!
    ret true
  end.

Definition exists_ (k : K) (c : LruCache) : bool := bool_decide (is_Some (m_cache c !! k)).
Definition size_ (c : LruCache) : Z := Z.of_nat (size (m_cache c)).
Definition empty_ (c : LruCache) : bool := bool_decide (m_cache c = ∅).
Definition clear (c : LruCache) : LruCache := with_cache ∅ (with_keys [] c).

(** ** Specification

    The items by recency; an operation answers with the new list and the items
    it evicts, in eviction order. *)
Fixpoint find_key (k : K) (l : list (K * V)) : option V :=
  match l with
  | [] => None
  | (k', v) :: l => if decide (k = k') then Some v else find_key k l
  end.
Definition remove_key (k : K) (l : list (K * V)) : list (K * V) := filter (λ kv, kv.1 ≠ k) l.

Definition spec_prune (mx el : Z) (l : list (K * V)) : list (K * V) * list (K * V) :=
  if decide (mx = 0 ∨ Z.of_nat (length l) < u64 (mx + el)) then (l, [])
  else (take (Z.to_nat mx) l, reverse (drop (Z.to_nat mx) l)).
Definition spec_set (mx el : Z) (k : K) (v : V) (l : list (K * V)) : list (K * V) * list (K * V) :=
  match find_key k l with
  | Some _ => ((k, v) :: remove_key k l, [])
  | None => spec_prune mx el ((k, v) :: l)
  end.
Definition spec_get (k : K) (l : list (K * V)) : option V * list (K * V) :=
  match find_key k l with
  | Some v => (Some v, (k, v) :: remove_key k l)
  | None => (None, l)
  end.

(** ** Representation *)
Record rep (c : LruCache) (l : list (K * V)) : Prop := {
  rep_ids : NoDup ((m_keys c).*1);
  rep_keys : NoDup (l.*1);
  rep_list : (m_keys c).*2 = l;
  rep_map k id : m_cache c !! k = Some id ↔ ∃ v, (id, (k, v)) ∈ m_keys c;
  rep_fresh id : id ∈ (m_keys c).*1 → (id < fresh_node c)%nat
}.

Lemma find_key_elem k v l : NoDup (l.*1) → find_key k l = Some v ↔ (k, v) ∈ l.
Proof.
  induction l as [|[k' v'] l IH]; cbn; intros Hnd; [set_solver|].
  apply NoDup_cons in Hnd as [Hk Hnd]. destruct (decide (k = k')) as [->|Hne].
  - rewrite elem_of_cons. split; [intros [= ->]; by left|]. intros [[= ->]|Hin]; [done|].
    exfalso. apply Hk, list_elem_of_fmap. by exists (k', v).
  - rewrite IH by done. rewrite elem_of_cons. split; [by right|]. intros [[= -> _]|?]; done.
Qed.

Lemma rep_find c l k id :
  rep c l → m_cache c !! k = Some id →
  ∃ v, node_get id (m_keys c) = Some (k, v) ∧ find_key k l = Some v.
Proof.
  intros [Hi Hk <- Hm _] Hc. apply Hm in Hc as [v Hv]. exists v. split; [by apply node_get_elem|].
  apply find_key_elem; [done|]. apply list_elem_of_fmap. by exists (id, (k, v)).
Qed.

Lemma rep_find_None c l k : rep c l → m_cache c !! k = None → find_key k l = None.
Proof.
  intros [Hi Hk <- Hm _] Hc. destruct (find_key k (m_keys c).*2) as [v|] eqn:E; [|done].
  apply find_key_elem in E; [|done]. apply list_elem_of_fmap in E as ([id [k' v']] & [= <- <-] & Hin).
  rewrite (proj2 (Hm k id)) in Hc; [done|by exists v].
Qed.

Lemma rep_size c l : rep c l → size (m_cache c) = length l.
Proof.
  intros [Hi Hk <- Hm _].
  assert (m_cache c = list_to_map ((λ n, (n.2.1, n.1)) <$> m_keys c)) as ->.
  { apply map_eq. intros k. apply option_eq. intros id. rewrite Hm.
    rewrite <- elem_of_list_to_map.
    - rewrite list_elem_of_fmap. split.
      + intros [v Hv]. by exists (id, (k, v)).
      + intros ([id' [k' v]] & [= -> ->] & Hv). by exists v.
    - rewrite <- list_fmap_compose. rewrite <- list_fmap_compose in Hk. exact Hk. }
  rewrite map_size_list_to_map.
  - by rewrite !length_fmap.
  - rewrite <- list_fmap_compose. rewrite <- list_fmap_compose in Hk. exact Hk.
Qed.

(** Removing the node of a key removes the key. *)
Lemma remove_key_split k v (l1 l2 : list (K * V)) :
  NoDup ((l1 ++ (k, v) :: l2).*1) → remove_key k (l1 ++ (k, v) :: l2) = l1 ++ l2.
Proof.
  rewrite fmap_app, fmap_cons. intros (_ & Hd & Hc)%NoDup_app. apply NoDup_cons in Hc as [Hk _].
  unfold remove_key. rewrite filter_app, filter_cons_False by (cbn; tauto).
  cbn in Hd, Hk. f_equal; apply filter_all; intros [k' v'] Hin; cbn; intros ->.
  - apply (Hd k); [|set_solver]. apply list_elem_of_fmap. by exists (k, v').
  - apply Hk, list_elem_of_fmap. by exists (k, v').
Qed.

(** The same cache with other keys: the configuration is untouched. *)
Definition same_config (c c' : LruCache) : Prop :=
  m_maxSize c' = m_maxSize c ∧ m_elasticity c' = m_elasticity c ∧ m_cb c' = m_cb c.

Lemma rep_split c l id k v :
  rep c l → node_get id (m_keys c) = Some (k, v) →
  ∃ n1 n2, m_keys c = n1 ++ (id, (k, v)) :: n2 ∧ l = n1.*2 ++ (k, v) :: n2.*2 ∧
    node_erase id (m_keys c) = n1 ++ n2 ∧ remove_key k l = n1.*2 ++ n2.*2 ∧
    (∀ f, node_update id f (m_keys c) = n1 ++ (id, f (k, v)) :: n2).
Proof.
  intros [Hi Hk Hl Hm _] Hg. destruct (node_split id (m_keys c) (k, v) Hg Hi) as (n1 & n2 & E & Ee & Eu).
  exists n1, n2. rewrite <- Hl, E, fmap_app, fmap_cons. cbn [snd]. rewrite <- E.
  split_and!; try done. rewrite <- Hl, E, fmap_app, fmap_cons in Hk. by apply remove_key_split.
Qed.

#[local] Ltac norm_fmap H := rewrite ?fmap_app, ?fmap_cons in H; cbn [fst snd] in H;
  rewrite ?fmap_app, ?fmap_cons in H; cbn [fst snd] in H.

(** Moving a node to the front, with any value. *)
Lemma rep_front c l id k v w n1 n2 :
  rep c l → m_keys c = n1 ++ (id, (k, v)) :: n2 →
  rep (with_keys ((id, (k, w)) :: n1 ++ n2) c) ((k, w) :: n1.*2 ++ n2.*2).
Proof.
  intros [Hi Hk Hl Hm Hf] E. rewrite <- Hl in Hk. rewrite E in Hi, Hk. norm_fmap Hi. norm_fmap Hk.
  split; cbn.
  - rewrite fmap_app. by rewrite <- Permutation_middle in Hi.
  - rewrite fmap_app. by rewrite <- Permutation_middle in Hk.
  - by rewrite fmap_app.
  - intros k' id'. rewrite Hm, E. setoid_rewrite elem_of_cons. setoid_rewrite elem_of_app.
    setoid_rewrite elem_of_cons. naive_solver.
  - intros id'. rewrite fmap_app. intros Hin. apply Hf. rewrite E, fmap_app, fmap_cons. set_solver.
Qed.

Lemma touch_spec c l id k v s :
  rep c l → node_get id (m_keys c) = Some (k, v) →
  ∃ c', touch id (s, c) = (Ok tt, (s, c')) ∧ rep c' ((k, v) :: remove_key k l) ∧ same_config c c' ∧
    pruned c' = pruned c ∧ node_get id (m_keys c') = Some (k, v).
Proof.
  intros Hr Hg. destruct (rep_split c l id k v Hr Hg) as (n1 & n2 & E & _ & Ee & Er & _).
  unfold touch, bind, cache, lift, put_cache, modst. cbn [snd fst]. unfold node_to_front.
  rewrite Hg. cbn [of_option]. rewrite Ee, Er. eexists; split; [done|].
  split; [by eapply rep_front|]. split; [done|]. split; [done|]. cbn. by rewrite decide_True.
Qed.

Lemma rep_insert c l k v :
  rep c l → m_cache c !! k = None →
  rep (mkLruCache (<[k := fresh_node c]> (m_cache c)) ((fresh_node c, (k, v)) :: m_keys c)
         (m_maxSize c) (m_elasticity c) (m_cb c) (pruned c) (S (fresh_node c))) ((k, v) :: l).
Proof.
  intros Hr Hn. pose proof (rep_find_None c l k Hr Hn) as Hf. destruct Hr as [Hi Hk Hl Hm Hfr].
  split; cbn.
  - constructor; [|done]. intros Hin. apply Hfr in Hin. lia.
  - constructor; [|done]. intros Hin. apply list_elem_of_fmap in Hin as ([k' v'] & [= <-] & Hin).
    apply (find_key_elem k v') in Hin; [congruence|done].
  - by rewrite Hl.
  - intros k' id. setoid_rewrite elem_of_cons. destruct (decide (k = k')) as [<-|Hne].
    + rewrite lookup_insert_eq. split.
      * intros [= <-]. exists v. by left.
      * intros [w [[= -> _]|Hin]]; [done|]. exfalso.
        assert (m_cache c !! k = Some id) by (apply Hm; by exists w). congruence.
    + rewrite lookup_insert_ne, Hm by done. naive_solver.
  - intros id [->|Hin]%elem_of_cons; [lia|]. apply Hfr in Hin. lia.
Qed.

(** Taking a node out anywhere, and its key out of the map. *)
Lemma rep_remove c l id k v n1 n2 calls :
  rep c l → m_keys c = n1 ++ (id, (k, v)) :: n2 →
  rep (mkLruCache (delete k (m_cache c)) (n1 ++ n2) (m_maxSize c) (m_elasticity c) (m_cb c) calls
         (fresh_node c)) (n1.*2 ++ n2.*2).
Proof.
  intros [Hi Hk Hl Hm Hf] E. rewrite <- Hl in Hk.
  rewrite E in Hi, Hk. norm_fmap Hi. norm_fmap Hk.
  rewrite <- Permutation_middle in Hi. rewrite <- Permutation_middle in Hk.
  apply NoDup_cons in Hi as [_ Hi]. apply NoDup_cons in Hk as [Hkn Hk]. split; cbn.
  - by rewrite fmap_app.
  - by rewrite fmap_app.
  - by rewrite fmap_app.
  - intros k' id'. destruct (decide (k = k')) as [<-|Hne].
    + rewrite lookup_delete_eq. split; [done|]. intros [w Hw]. exfalso. apply Hkn.
      rewrite <- fmap_app. apply list_elem_of_fmap. exists (k, w). split; [done|].
      rewrite <- fmap_app. apply list_elem_of_fmap. by exists (id', (k, w)).
    + rewrite lookup_delete_ne, Hm, E by done. setoid_rewrite elem_of_app.
      setoid_rewrite elem_of_cons. naive_solver.
  - intros id' Hin. apply Hf. rewrite E. rewrite fmap_app in *. set_solver.
Qed.

Lemma prune_loop_spec fuel : ∀ count c l s,
  rep c l → 0 ≤ m_maxSize c → (length l ≤ fuel)%nat →
  ∃ c', prune_loop fuel count (s, c) =
      (Ok (count + Z.of_nat (length (drop (Z.to_nat (m_maxSize c)) l))), (s, c')) ∧
    rep c' (take (Z.to_nat (m_maxSize c)) l) ∧ same_config c c' ∧
    pruned c' = pruned c ++ if m_cb c then reverse (drop (Z.to_nat (m_maxSize c)) l) else [].
Proof.
  induction fuel as [|fuel IH]; intros count c l s Hr Hmx Hf; cbn [prune_loop];
    unfold bind at 1, cache; cbn [snd]; rewrite (rep_size c l Hr);
    destruct (Z.leb_spec (Z.of_nat (length l)) (m_maxSize c)); [|lia| |].
  1,2: rewrite drop_ge, take_ge by lia; exists c; cbn [length]; rewrite Z.add_0_r; unfold ret;
    split_and!; try done; by destruct (m_cb c); rewrite ?reverse_nil, app_nil_r.
  pose proof (rep_list c l Hr) as Hl.
  destruct (exists_last (l := m_keys c)) as (ns & [id [k v]] & E).
  { intros E. rewrite E in Hl. cbn in Hl. subst l. cbn in *. lia. }
  unfold bind at 1, lift at 1. rewrite E, last_snoc, removelast_last. cbn [of_option snd fst].
  rewrite E, fmap_app in Hl. cbn in Hl. rewrite <- Hl in *. clear Hl.
  rewrite length_app in *. cbn [length] in *. rewrite length_fmap in *.
  rewrite take_app_le, drop_app_le by (rewrite length_fmap; lia).
  set (calls := if m_cb c then pruned c ++ [(k, v)] else pruned c).
  pose proof (rep_remove c _ id k v ns [] calls Hr E) as Hr'. rewrite !app_nil_r in Hr'.
  unfold bind at 1, put_cache, modst. cbn [fst snd].
  destruct (IH (count + 1) _ (ns.*2) s Hr' Hmx) as (c' & Hrun & Hrep & (S1 & S2 & S3) & Hp).
  { rewrite length_fmap. lia. }
  cbn [m_maxSize m_cb pruned] in *. exists c'. split_and!; try done.
  - rewrite Hrun. f_equal. f_equal. rewrite length_app. cbn [length]. lia.
  - rewrite Hp. subst calls. rewrite reverse_snoc. destruct (m_cb c); [|done]. by rewrite <- app_assoc.
Qed.

(** ** Each operation refines its specification *)
Definition evictions (c : LruCache) (ev : list (K * V)) : list (K * V) :=
  pruned c ++ if m_cb c then ev else [].

Lemma prune_spec c l s :
  rep c l → 0 ≤ m_maxSize c →
  ∃ n s' c', prune (s, c) = (Ok n, (s', c')) ∧
    rep c' (spec_prune (m_maxSize c) (m_elasticity c) l).1 ∧ same_config c c' ∧
    pruned c' = evictions c (spec_prune (m_maxSize c) (m_elasticity c) l).2 ∧
    n = Z.of_nat (length (spec_prune (m_maxSize c) (m_elasticity c) l).2).
Proof.
  intros Hr Hmx. unfold prune, bind at 1, cache. cbn [snd]. unfold spec_prune, getMaxAllowedSize, evictions.
  rewrite (rep_size c l Hr).
  destruct (Z.eqb_spec (m_maxSize c) 0); cbn [orb].
  { rewrite decide_True by tauto. exists 0, s, c. cbn. destruct (m_cb c); by rewrite app_nil_r. }
  destruct (Z.ltb_spec (Z.of_nat (length l)) (u64 (m_maxSize c + m_elasticity c))).
  { rewrite decide_True by tauto. exists 0, s, c. cbn. destruct (m_cb c); by rewrite app_nil_r. }
  rewrite decide_False by lia. cbn [fst snd].
  destruct (prune_loop_spec (length l) 0 c l s Hr Hmx ltac:(lia)) as (c' & Hrun & Hrep & Hsc & Hp).
  mstep Hrun. unfold bind, status, modst, ret. cbn [fst snd].
  do 3 eexists. split; [reflexivity|]. split_and!; try done. by rewrite length_reverse.
Qed.

Lemma set_spec k v c l s :
  rep c l → 0 ≤ m_maxSize c →
  ∃ s' c', set k v (s, c) = (Ok tt, (s', c')) ∧
    rep c' (spec_set (m_maxSize c) (m_elasticity c) k v l).1 ∧ same_config c c' ∧
    pruned c' = evictions c (spec_set (m_maxSize c) (m_elasticity c) k v l).2.
Proof.
  intros Hr Hmx. unfold set, bind at 1, status, modst. cbn [fst snd]. unfold bind at 1, cache. cbn [snd].
  unfold spec_set. destruct (m_cache c !! k) as [id|] eqn:Hc.
  - destruct (rep_find c l k id Hr Hc) as (v0 & Hg & Hf). rewrite Hf.
    destruct (rep_split c l id k v0 Hr Hg) as (n1 & n2 & E & El & Ee & Er & Eu).
    unfold bind at 1, put_cache, modst. cbn [fst snd]. rewrite Eu. cbn [fst].
    pose proof (node_split id (m_keys c) (k, v0) Hg (rep_ids c l Hr)) as _.
    unfold touch, bind, cache, lift, put_cache, modst. cbn [snd fst]. unfold node_to_front.
    assert (node_get id (n1 ++ (id, (k, v)) :: n2) = Some (k, v) ∧
            node_erase id (n1 ++ (id, (k, v)) :: n2) = n1 ++ n2) as [Hg' He'].
    { pose proof (rep_ids c l Hr) as Hnd. rewrite E in Hnd. clear -Hnd.
      induction n1 as [|[j b] n1 IH]; cbn.
      - by rewrite !decide_True.
      - cbn in Hnd. apply NoDup_cons in Hnd as [Hj Hnd].
        assert (id ≠ j) by (intros ->; apply Hj; rewrite fmap_app, fmap_cons; set_solver).
        rewrite !decide_False by done. destruct (IH Hnd) as [-> ->]. done. }
    cbn [m_keys with_keys]. rewrite Hg', He'. cbn [of_option]. do 2 eexists. split; [reflexivity|].
    cbn [fst snd]. rewrite Er. split; [|split; [done|]].
    + by apply (rep_front c l id k v0 v n1 n2).
    + unfold evictions. cbn. destruct (m_cb c); by rewrite app_nil_r.
  - rewrite (rep_find_None c l k Hr Hc). unfold bind at 1, put_cache, modst. cbn [fst snd].
    pose proof (rep_insert c l k v Hr Hc) as Hr'.
    match goal with |- context [(_, ?x)] =>
      destruct (prune_spec x ((k, v) :: l) (incSet 1 s) Hr' Hmx) as (n & s' & c' & Hp & Hrep & Hsc & Hpr & _) end.
    mstep Hp. by exists s', c'.
Qed.

Lemma get_spec k c l s :
  rep c l →
  ∃ s' c', get k (s, c) = (Ok (spec_get k l).1, (s', c')) ∧ rep c' (spec_get k l).2 ∧
    same_config c c' ∧ pruned c' = pruned c.
Proof.
  intros Hr. unfold get, bind at 1, status, modst. cbn [fst snd]. unfold bind at 1, cache. cbn [snd].
  unfold spec_get. destruct (m_cache c !! k) as [id|] eqn:Hc.
  - destruct (rep_find c l k id Hr Hc) as (v & Hg & Hf). rewrite Hf.
    destruct (touch_spec c l id k v (incGet 1 s) Hr Hg) as (c' & Ht & Hrep & Hsc & Hp & Hg').
    mstep Ht. unfold bind, cache, lift, modst, ret. cbn [snd fst]. rewrite Hg'. cbn.
    by do 2 eexists.
  - rewrite (rep_find_None c l k Hr Hc). by exists (incGet 1 s), c.
Qed.

Lemma del_spec k c l s :
  rep c l →
  ∃ s' c', del k (s, c) = (Ok (bool_decide (is_Some (find_key k l))), (s', c')) ∧
    rep c' (remove_key k l) ∧ same_config c c' ∧ pruned c' = pruned c.
Proof.
  intros Hr. unfold del, bind at 1, status, modst. cbn [fst snd]. unfold bind at 1, cache. cbn [snd].
  destruct (m_cache c !! k) as [id|] eqn:Hc.
  - destruct (rep_find c l k id Hr Hc) as (v & Hg & Hf). rewrite Hf, bool_decide_true by done.
    destruct (rep_split c l id k v Hr Hg) as (n1 & n2 & E & _ & Ee & Er & _).
    unfold bind, lift, put_cache, modst, ret. rewrite Hg. cbn [of_option fst snd].
    do 2 eexists. split; [reflexivity|]. rewrite Er. split_and!; try done.
    unfold with_cache, with_keys. cbn. rewrite Ee. by apply (rep_remove c l id k v n1 n2).
  - pose proof (rep_find_None c l k Hr Hc) as Hf. rewrite Hf.
    rewrite bool_decide_false by (by intros [? ?]). exists (incDel 1 s), c. split; [done|].
    split_and!; try done. unfold remove_key. rewrite filter_all; [done|].
    intros [k' v'] Hin Heq. cbn in Heq. subst k'. apply (find_key_elem k v' l (rep_keys c l Hr)) in Hin.
    congruence.
Qed.

(** ** Sequences of calls *)
Inductive call := CSet (k : K) (v : V) | CGet (k : K) | CDel (k : K) | CClear.
Inductive answer := ASet | AGet (v : option V) | ADel (b : bool) | AClear.

Definition run_call (o : call) : LruM answer :=
  match o with
  | CSet k v => set k v ;;! ret ASet
  | CGet k => let! v := get k in ret (AGet v)
  | CDel k => let! b := del k in ret (ADel b)
  | CClear => let! c := cache in put_cache (clear c) ;;! ret AClear
  end.
Fixpoint run_calls (os : list call) : LruM (list answer) :=
  match os with
  | [] => ret []
  | o :: os => let! a := run_call o in let! r := run_calls os in ret (a :: r)
  end.

(** The same on the association list: answer, list, evictions. *)
Definition spec_call (mx el : Z) (o : call) (l : list (K * V)) : answer * list (K * V) * list (K * V) :=
  match o with
  | CSet k v => let (l', ev) := spec_set mx el k v l in (ASet, l', ev)
  | CGet k => let (r, l') := spec_get k l in (AGet r, l', [])
  | CDel k => (ADel (bool_decide (is_Some (find_key k l))), remove_key k l, [])
  | CClear => (AClear, [], [])
  end.
Fixpoint spec_calls (mx el : Z) (os : list call) (l : list (K * V))
    : list answer * list (K * V) * list (K * V) :=
  match os with
  | [] => ([], l, [])
  | o :: os =>
    let '(a, l', ev) := spec_call mx el o l in
    let '(r, l'', ev') := spec_calls mx el os l' in (a :: r, l'', ev ++ ev')
  end.

Lemma empty_rep c : m_cache c = ∅ → m_keys c = [] → rep c [].
Proof.
  intros Hc Hk. split; rewrite ?Hc, ?Hk; try done; try apply NoDup_nil_2.
  - intros k id. rewrite lookup_empty. split; [done|]. intros [v Hv]. by apply elem_of_nil in Hv.
  - intros id Hid. by apply elem_of_nil in Hid.
Qed.

Lemma run_call_spec o c l s :
  rep c l → 0 ≤ m_maxSize c →
  ∃ s' c', run_call o (s, c) = (Ok (spec_call (m_maxSize c) (m_elasticity c) o l).1.1, (s', c')) ∧
    rep c' (spec_call (m_maxSize c) (m_elasticity c) o l).1.2 ∧ same_config c c' ∧
    pruned c' = evictions c (spec_call (m_maxSize c) (m_elasticity c) o l).2.
Proof.
  intros Hr Hmx.
  assert (∀ c' : LruCache, pruned c' = pruned c → pruned c' = evictions c []) as Hev.
  { intros c' ->. unfold evictions. destruct (m_cb c); by rewrite app_nil_r. }
  destruct o as [k v|k|k|]; cbn [run_call spec_call].
  - destruct (set_spec k v c l s Hr Hmx) as (s' & c' & E & Hr' & Hsc & Hp).
    destruct (spec_set _ _ k v l) as [l' ev]. exists s', c'. by mstep E.
  - destruct (get_spec k c l s Hr) as (s' & c' & E & Hr' & Hsc & Hp).
    destruct (spec_get k l) as [r l']. exists s', c'. mstep E. split_and!; try done. by apply Hev.
  - destruct (del_spec k c l s Hr) as (s' & c' & E & Hr' & Hsc & Hp).
    exists s', c'. mstep E. split_and!; try done. by apply Hev.
  - exists s, (clear c). split_and!; try done; [by apply empty_rep|]. by apply Hev.
Qed.

Lemma spec_prune_bound mx el l :
  0 < mx → 0 ≤ el → mx + el < 2 ^ 64 → Z.of_nat (length (spec_prune mx el l).1) < mx + Z.max 1 el.
Proof.
  intros Hmx Hel Hb. unfold spec_prune. rewrite wrap_small by lia. destruct (decide _) as [Hd|Hd]; cbn [fst].
  - lia.
  - rewrite length_take. lia.
Qed.

Lemma remove_key_length k l : (length (remove_key k l) ≤ length l)%nat.
Proof. apply length_filter. Qed.

Lemma remove_key_shorter k v l :
  NoDup (l.*1) → find_key k l = Some v → (length (remove_key k l) < length l)%nat.
Proof.
  intros Hnd Hf. apply find_key_elem in Hf; [|done]. apply (length_filter_lt _ _ (k, v)); [done|]. cbn. tauto.
Qed.

(** The capacity bound is kept by every call. *)
Lemma spec_call_bound mx el o l :
  0 < mx → 0 ≤ el → mx + el < 2 ^ 64 → NoDup (l.*1) → Z.of_nat (length l) < mx + Z.max 1 el →
  Z.of_nat (length (spec_call mx el o l).1.2) < mx + Z.max 1 el.
Proof.
  intros Hmx Hel Hb Hnd Hl. destruct o as [k v|k|k|]; cbn [spec_call].
  - unfold spec_set. destruct (find_key k l) as [w|] eqn:Hf; cbn [fst snd].
    + pose proof (remove_key_shorter k w l Hnd Hf). cbn [length]. lia.
    + pose proof (spec_prune_bound mx el ((k, v) :: l) Hmx Hel Hb). by destruct (spec_prune _ _ _).
  - unfold spec_get. destruct (find_key k l) as [w|] eqn:Hf; cbn [fst snd]; [|done].
    pose proof (remove_key_shorter k w l Hnd Hf). cbn [length]. lia.
  - cbn [fst snd]. pose proof (remove_key_length k l). lia.
  - cbn. lia.
Qed.

Lemma run_calls_spec os : ∀ c l s,
  rep c l → 0 ≤ m_maxSize c →
  ∃ s' c', run_calls os (s, c) = (Ok (spec_calls (m_maxSize c) (m_elasticity c) os l).1.1, (s', c')) ∧
    rep c' (spec_calls (m_maxSize c) (m_elasticity c) os l).1.2 ∧ same_config c c' ∧
    pruned c' = evictions c (spec_calls (m_maxSize c) (m_elasticity c) os l).2 ∧
    (0 < m_maxSize c → 0 ≤ m_elasticity c → m_maxSize c + m_elasticity c < 2 ^ 64 →
     Z.of_nat (length l) < m_maxSize c + Z.max 1 (m_elasticity c) →
     size_ c' < m_maxSize c + Z.max 1 (m_elasticity c)).
Proof.
  induction os as [|o os IH]; intros c l s Hr Hmx; cbn [run_calls spec_calls].
  { exists s, c. unfold evictions, size_. cbn. rewrite (rep_size c l Hr).
    split_and!; try done. destruct (m_cb c); by rewrite app_nil_r. }
  destruct (run_call_spec o c l s Hr Hmx) as (s1 & c1 & E1 & Hr1 & (C1 & C2 & C3) & P1).
  pose proof (spec_call_bound (m_maxSize c) (m_elasticity c) o l) as Hbound.
  destruct (spec_call _ _ o l) as [[a l1] ev]. cbn [fst snd] in *.
  destruct (IH c1 l1 s1 Hr1) as (s2 & c2 & E2 & Hr2 & (D1 & D2 & D3) & P2 & B2); [lia|].
  rewrite C1, C2 in *. destruct (spec_calls _ _ os l1) as [[r l2] ev']. cbn [fst snd] in *.
  exists s2, c2. split; [by mstep E1; mstep E2|]. split; [done|].
  split; [unfold same_config; split_and!; congruence|]. split.
  - rewrite P2. unfold evictions in *. rewrite P1, C3. destruct (m_cb c); by rewrite ?app_nil_r, ?app_assoc.
  - intros. apply B2; try done. apply Hbound; try done. apply Hr.
Qed.

Lemma new_LruCache_rep mx el : rep (new_LruCache mx el) [].
Proof. by apply empty_rep. Qed.

(** *** All calls, those that change the limits included *)
Inductive op :=
| OCall (o : call) | OGetDefault (k : K) | OExists (k : K) | OSize | OEmpty
| OMaxSize (v : Z) | OElasticity (v : Z) | OPruneCallback (b : bool).
Inductive result := RAnswer (a : answer) | RValue (v : V) | RBool (b : bool) | RSize (n : Z) | RNone.
Definition run_op (o : op) : LruM result :=
  match o with
  | OCall o => let! a := run_call o in ret (RAnswer a)
  | OGetDefault k => let! v := get_or_default k in ret (RValue v)
  | OExists k => let! c := cache in ret (RBool (exists_ k c))
  | OSize => let! c := cache in ret (RSize (size_ c))
  | OEmpty => let! c := cache in ret (RBool (empty_ c))
  | OMaxSize v => let! c := cache in put_cache (setMaxSize v c) ;;! ret RNone
  | OElasticity v => let! c := cache in put_cache (setElasticity v c) ;;! ret RNone
  | OPruneCallback b => let! c := cache in put_cache (setPruneCallback b c) ;;! ret RNone
  end.
Fixpoint run_ops (os : list op) : LruM (list result) :=
  match os with
  | [] => ret []
  | o :: os => let! a := run_op o in let! r := run_ops os in ret (a :: r)
  end.

(** The limits, and whether there is a callback; a call on them and the list, with
    what the callback is given. *)
Record limits := mkLimits { sp_max : Z; sp_el : Z; sp_cb : bool }.
Definition spec_op (q : limits) (o : op) (l : list (K * V)) : result * limits * list (K * V) * list (K * V) :=
  match o with
  | OCall o => let '(a, l', ev) := spec_call (sp_max q) (sp_el q) o l in (RAnswer a, q, l', if sp_cb q then ev else [])
  | OGetDefault k => let (r, l') := spec_get k l in (RValue (default V_default r), q, l', [])
  | OExists k => (RBool (bool_decide (is_Some (find_key k l))), q, l, [])
  | OSize => (RSize (Z.of_nat (length l)), q, l, [])
  | OEmpty => (RBool (bool_decide (l = [])), q, l, [])
  | OMaxSize v => (RNone, mkLimits v (sp_el q) (sp_cb q), l, [])
  | OElasticity v => (RNone, mkLimits (sp_max q) v (sp_cb q), l, [])
  | OPruneCallback b => (RNone, mkLimits (sp_max q) (sp_el q) b, l, [])
  end.
Fixpoint spec_ops (q : limits) (os : list op) (l : list (K * V)) : list result * limits * list (K * V) * list (K * V) :=
  match os with
  | [] => ([], q, l, [])
  | o :: os =>
    let '(a, q', l', ev) := spec_op q o l in
    let '(r, q'', l'', ev') := spec_ops q' os l' in (a :: r, q'', l'', ev ++ ev')
  end.
(** The limits are of an unsigned type. *)
Definition op_ok (o : op) : Prop := match o with OMaxSize v | OElasticity v => 0 ≤ v < 2 ^ 64 | _ => True end.
(** The limits set are at most these, and there is a capacity. *)
Definition within (M E : Z) (o : op) : Prop :=
  match o with OMaxSize v => 0 < v ≤ M | OElasticity v => 0 ≤ v ≤ E | _ => True end.
Definition limits_of (c : LruCache) : limits := mkLimits (m_maxSize c) (m_elasticity c) (m_cb c).

Lemma limits_eq c c' : same_config c c' → limits_of c' = limits_of c.
Proof. intros (E1 & E2 & E3). unfold limits_of. by rewrite E1, E2, E3. Qed.
Lemma run_op_spec o c l s : rep c l → 0 ≤ m_maxSize c → op_ok o →
  let '(a, q', l', ev) := spec_op (limits_of c) o l in
  ∃ s' c', run_op o (s, c) = (Ok a, (s', c')) ∧ rep c' l' ∧ limits_of c' = q' ∧ pruned c' = pruned c ++ ev ∧ 0 ≤ m_maxSize c'.
Proof.
  intros Hr Hmx Ho. destruct o as [o|k|k| | |v|v|b]; cbn [run_op spec_op limits_of sp_max sp_el sp_cb].
  - destruct (run_call_spec o c l s Hr Hmx) as (s' & c' & E & Hr' & Hsc & Hp). destruct (spec_call _ _ o l) as [[a l'] ev].
    exists s', c'. mstep E. split_and!; [done|done|by apply limits_eq|exact Hp|]. destruct Hsc as [-> _]. done.
  - destruct (get_spec k c l s Hr) as (s' & c' & E & Hr' & Hsc & Hp). destruct (spec_get k l) as [r l'].
    exists s', c'. split_and!; [unfold get_or_default, bind; by rewrite E|done|by apply limits_eq|by rewrite app_nil_r|].
    destruct Hsc as [-> _]. done.
  - exists s, c. rewrite app_nil_r. split_and!; try done. unfold bind, cache, ret, exists_. cbn [snd].
    do 3 f_equal. apply bool_decide_ext. destruct (m_cache c !! k) as [id|] eqn:Hc.
    + destruct (rep_find c l k id Hr Hc) as (v & _ & ->). by split.
    + by rewrite (rep_find_None c l k Hr Hc).
  - exists s, c. rewrite app_nil_r. split_and!; try done. unfold bind, cache, ret, size_. cbn [snd]. by rewrite (rep_size c l Hr).
  - exists s, c. rewrite app_nil_r. split_and!; try done. unfold bind, cache, ret, empty_. cbn [snd].
    do 3 f_equal. apply bool_decide_ext. rewrite <- map_size_empty_iff, (rep_size c l Hr). apply length_zero_iff_nil.
  - exists s, (setMaxSize v c). rewrite app_nil_r. split_and!; try done; [by destruct Hr|]. apply Ho.
  - exists s, (setElasticity v c). rewrite app_nil_r. split_and!; try done. by destruct Hr.
  - exists s, (setPruneCallback b c). rewrite app_nil_r. split_and!; try done. by destruct Hr.
Qed.
Lemma run_ops_spec os : ∀ c l s, rep c l → 0 ≤ m_maxSize c → Forall op_ok os →
  let '(r, q', l', ev) := spec_ops (limits_of c) os l in
  ∃ s' c', run_ops os (s, c) = (Ok r, (s', c')) ∧ rep c' l' ∧ limits_of c' = q' ∧ pruned c' = pruned c ++ ev.
Proof.
  induction os as [|o os IH]; intros c l s Hr Hmx Hok; cbn [run_ops spec_ops].
  { exists s, c. by rewrite app_nil_r. }
  apply Forall_cons in Hok as [Ho Hok]. pose proof (run_op_spec o c l s Hr Hmx Ho) as H1.
  destruct (spec_op (limits_of c) o l) as [[[a q1] l1] ev]. destruct H1 as (s1 & c1 & E1 & Hr1 & <- & P1 & Hmx1).
  pose proof (IH c1 l1 s1 Hr1 Hmx1 Hok) as H2. destruct (spec_ops (limits_of c1) os l1) as [[[r q2] l2] ev2].
  destruct H2 as (s2 & c2 & E2 & Hr2 & Hq & P2). exists s2, c2. mstep E1. mstep E2. by rewrite P2, P1, app_assoc.
Qed.

(** The size stays below any bound on the limits. *)
Lemma spec_op_bound M E q o l : M + E < 2 ^ 64 → 0 < sp_max q ≤ M → 0 ≤ sp_el q ≤ E → within M E o → NoDup (l.*1) →
  Z.of_nat (length l) < M + Z.max 1 E →
  let '(_, q', l', _) := spec_op q o l in
  0 < sp_max q' ≤ M ∧ 0 ≤ sp_el q' ≤ E ∧ Z.of_nat (length l') < M + Z.max 1 E.
Proof.
  intros Hb Hm He Hw Hnd Hl.
  assert (∀ k, Z.of_nat (length (spec_get k l).2) < M + Z.max 1 E) as Hget.
  { intros k. unfold spec_get. destruct (find_key k l) as [w|] eqn:Hf; [|done].
    pose proof (remove_key_shorter k w l Hnd Hf). cbn [snd length]. lia. }
  destruct o as [o|k|k| | |v|v|b]; cbn [spec_op within sp_max sp_el] in *; try (split_and!; done || lia).
  - destruct o as [k v|k|k|]; cbn [spec_call].
    + unfold spec_set. destruct (find_key k l) as [w|] eqn:Hf.
      * pose proof (remove_key_shorter k w l Hnd Hf). cbn [length]. split_and!; lia.
      * pose proof (spec_prune_bound (sp_max q) (sp_el q) ((k, v) :: l) ltac:(lia) ltac:(lia) ltac:(lia)) as Hp.
        destruct (spec_prune _ _ _). cbn [fst] in Hp. split_and!; lia.
    + specialize (Hget k). destruct (spec_get k l). cbn [snd] in Hget. split_and!; lia.
    + pose proof (remove_key_length k l). split_and!; lia.
    + cbn [length]. split_and!; lia.
  - specialize (Hget k). destruct (spec_get k l). cbn [snd] in Hget. split_and!; lia.
Qed.
Lemma spec_ops_bound M E os : ∀ c l (s : CacheStatus), M + E < 2 ^ 64 → rep c l → 0 < m_maxSize c ≤ M → 0 ≤ m_elasticity c ≤ E →
  Forall (within M E) os → Forall op_ok os → Z.of_nat (length l) < M + Z.max 1 E →
  let '(_, _, l', _) := spec_ops (limits_of c) os l in Z.of_nat (length l') < M + Z.max 1 E.
Proof.
  induction os as [|o os IH]; intros c l s Hb Hr Hm He Hw Hok Hl; [done|].
  apply Forall_cons in Hok as [Ho Hok]. apply Forall_cons in Hw as [Hwo Hw]. cbn [spec_ops].
  pose proof (run_op_spec o c l s Hr ltac:(lia) Ho) as H1.
  pose proof (spec_op_bound M E (limits_of c) o l Hb Hm He Hwo (rep_keys c l Hr) Hl) as H2.
  destruct (spec_op (limits_of c) o l) as [[[a q1] l1] ev]. destruct H1 as (s1 & c1 & _ & Hr1 & <- & _ & _), H2 as (H2 & H3 & H4).
  specialize (IH c1 l1 s1 Hb Hr1 H2 H3 Hw Hok H4). by destruct (spec_ops (limits_of c1) os l1) as [[[r q2] l2] ev2].
Qed.

(** C34: Whatever calls an [LruCache] receives - [set], both [get]s, [del], [clear],
    [exists], [size], [empty], and those that change the maximum, the elasticity or the
    prune callback - its answers, its contents and the items its prune callback is
    given are those of an association list kept in order of use: hits move to the
    front, and inserting a new key when the list has grown to the maximum and the
    elasticity drops the items beyond the maximum, least recently used first.  No
    iterator is ever stale.  With a capacity, the cache never holds as many items as
    the largest maximum it was given plus the largest elasticity (at least 1);
    lowering a limit evicts nothing until the next new key. *)
Theorem lru_refines (os : list op) (mx el : Z) (s : CacheStatus) :
  0 ≤ mx → Forall op_ok os →
  let '(r, q, l, ev) := spec_ops (mkLimits mx el false) os [] in
  ∃ s' c', run_ops os (s, new_LruCache mx el) = (Ok r, (s', c')) ∧
    (m_keys c').*2 = l ∧ NoDup (l.*1) ∧ pruned c' = ev ∧ limits_of c' = q ∧ size_ c' = Z.of_nat (length l) ∧
    ∀ M E, 0 < mx ≤ M → 0 ≤ el ≤ E → M + E < 2 ^ 64 → Forall (within M E) os → size_ c' < M + Z.max 1 E.
Proof.
  intros Hmx Hok. pose proof (new_LruCache_rep mx el) as Hr. pose proof (run_ops_spec os _ [] s Hr Hmx Hok) as H1.
  assert (∀ M E, 0 < mx ≤ M → 0 ≤ el ≤ E → M + E < 2 ^ 64 → Forall (within M E) os →
    let '(_, _, l', _) := spec_ops (limits_of (new_LruCache mx el)) os [] in Z.of_nat (length l') < M + Z.max 1 E) as H2.
  { intros M E Hm He Hb Hw. apply (spec_ops_bound M E os _ [] s); try done. cbn. lia. }
  change (limits_of (new_LruCache mx el)) with (mkLimits mx el false) in *.
  destruct (spec_ops (mkLimits mx el false) os []) as [[[r q] l] ev].
  destruct H1 as (s' & c' & E & Hr' & Hq & Hp). exists s', c'. pose proof (rep_size _ _ Hr') as Hz. unfold size_. rewrite Hz.
  split_and!; try done; apply Hr'.
Qed.

(** A value just set is found by the next [get], even when the insertion
    evicted others. *)
Theorem lru_set_get (k : K) (v : V) (c : LruCache) (l : list (K * V)) (s : CacheStatus) :
  rep c l → 0 ≤ m_maxSize c →
  ∃ w, (set k v ;;! get k) (s, c) = (Ok (Some v), w).
Proof.
  intros Hr Hmx. destruct (set_spec k v c l s Hr Hmx) as (s1 & c1 & E1 & Hr1 & _ & _). mstep E1.
  destruct (get_spec k c1 _ s1 Hr1) as (s2 & c2 & E2 & _). rewrite E2. eexists. f_equal. f_equal.
  assert (∃ l', (spec_set (m_maxSize c) (m_elasticity c) k v l).1 = (k, v) :: l') as [l' ->].
  { unfold spec_set, spec_prune. destruct (find_key k l); [by eexists|].
    destruct (decide (m_maxSize c = 0 ∨ _)) as [|Hd]; [by eexists|]. cbn [fst].
    destruct (Z.to_nat (m_maxSize c)) as [|n] eqn:En; [lia|]. by eexists. }
  unfold spec_get. cbn. by rewrite decide_True.
Qed.

(** ** HashLruCache: an array of caches that share one status *)
Section hash.
(** [Hash], a [size_t] *)
Context (m_hash : K → Z).

Record HashLruCache := mkHashLruCache {
  m_datas : list LruCache; h_maxSize : Z; m_bucket : Z; h_elasticity : Z; m_status : CacheStatus }.

(** [std::ceil(x * 1.0 / bucket)], exact while [x < 2^53]. *)
Definition ceil_div (x bucket : Z) : Z := (x + bucket - 1) / bucket.

Definition new_HashLruCache (bucket max_size elasticity : Z) : HashLruCache :=
  let pre_max_size := ceil_div max_size bucket in
  let pre_elasiticity := ceil_div elasticity bucket in
  mkHashLruCache (replicate (Z.to_nat bucket) (new_LruCache pre_max_size pre_elasiticity))
    (pre_max_size * bucket) bucket (pre_elasiticity * bucket) new_CacheStatus.

(** [m_datas[m_hash(k) % m_bucket]->op] *)
Definition on_bucket {A} (k : K) (op : LruM A) : M HashLruCache A := λ h,
  if m_bucket h =? 0 then (Undef DivByZero, h) else
  let i := Z.to_nat (m_hash k mod m_bucket h) in
  match m_datas h !! i with
  | None => (Undef OutOfBounds, h)
  | Some c =>
    let '(o, (s, c)) := op (m_status h, c) in
    (o, mkHashLruCache (<[i := c]> (m_datas h)) (h_maxSize h) (m_bucket h) (h_elasticity h) s)
  end.
Definition hash_set (k : K) (v : V) : M HashLruCache unit := on_bucket k (set k v).
Definition hash_get (k : K) : M HashLruCache (option V) := on_bucket k (get k).
Definition hash_get_or_default (k : K) : M HashLruCache V := on_bucket k (get_or_default k).
Definition hash_del (k : K) : M HashLruCache bool := on_bucket k (del k).
Definition hash_exists (k : K) : M HashLruCache bool :=
  on_bucket k (let! c := cache in ret (exists_ k c)).
Definition hash_size (h : HashLruCache) : Z := foldr Z.add 0 (size_ <$> m_datas h).
Definition hash_empty (h : HashLruCache) : bool := forallb empty_ (m_datas h).
Definition hash_clear (h : HashLruCache) : HashLruCache :=
  mkHashLruCache (clear <$> m_datas h) (h_maxSize h) (m_bucket h) (h_elasticity h) (m_status h).
Definition hash_setMaxSize (v : Z) (h : HashLruCache) : HashLruCache :=
  let pre := ceil_div v (m_bucket h) in
  mkHashLruCache (setMaxSize pre <$> m_datas h) (pre * m_bucket h) (m_bucket h) (h_elasticity h)
    (m_status h).
Definition hash_setElasticity (v : Z) (h : HashLruCache) : HashLruCache :=
  let pre := ceil_div v (m_bucket h) in
  mkHashLruCache (setElasticity pre <$> m_datas h) (h_maxSize h) (m_bucket h) (pre * m_bucket h)
    (m_status h).
Definition hash_setPruneCallback (v : bool) (h : HashLruCache) : HashLruCache :=
  mkHashLruCache (setPruneCallback v <$> m_datas h) (h_maxSize h) (m_bucket h) (h_elasticity h)
    (m_status h).

Definition call_key (o : call) : option K :=
  match o with CSet k _ | CGet k | CDel k => Some k | CClear => None end.
Definition run_hash_call (o : call) : M HashLruCache answer :=
  match call_key o with
  | Some k => on_bucket k (run_call o)
  | None => modst hash_clear ;;! ret AClear
  end.
Fixpoint run_hash_calls (os : list call) : M HashLruCache (list answer) :=
  match os with
  | [] => ret []
  | o :: os => let! a := run_hash_call o in let! r := run_hash_calls os in ret (a :: r)
  end.

(** Specification: one association list per bucket. *)
Definition bucket_index (bucket : Z) (k : K) : nat := Z.to_nat (m_hash k mod bucket).
Definition spec_hash_call (bucket mx el : Z) (o : call) (ls : list (list (K * V)))
    : answer * list (list (K * V)) :=
  match call_key o with
  | Some k =>
    let i := bucket_index bucket k in
    let r := spec_call mx el o (default [] (ls !! i)) in (r.1.1, <[i := r.1.2]> ls)
  | None => (AClear, (λ _, []) <$> ls)
  end.
Fixpoint spec_hash_calls (bucket mx el : Z) (os : list call) (ls : list (list (K * V)))
    : list answer * list (list (K * V)) :=
  match os with
  | [] => ([], ls)
  | o :: os =>
    let (a, ls) := spec_hash_call bucket mx el o ls in
    let (r, ls) := spec_hash_calls bucket mx el os ls in (a :: r, ls)
  end.

Record hash_rep (bucket mx el : Z) (h : HashLruCache) (ls : list (list (K * V))) : Prop := {
  hr_bucket : m_bucket h = bucket;
  hr_length : Z.of_nat (length (m_datas h)) = bucket;
  hr_all : Forall2 (λ c l, rep c l ∧ m_maxSize c = mx ∧ m_elasticity c = el) (m_datas h) ls
}.

Lemma hash_call_spec bucket mx el o h ls :
  0 < bucket → 0 ≤ mx → hash_rep bucket mx el h ls →
  ∃ h', run_hash_call o h = (Ok (spec_hash_call bucket mx el o ls).1, h') ∧
    hash_rep bucket mx el h' (spec_hash_call bucket mx el o ls).2.
Proof.
  intros Hb Hmx [Hbk Hlen Hall]. unfold run_hash_call, spec_hash_call.
  destruct (call_key o) as [k|] eqn:Hk; cbn [fst snd].
  - unfold on_bucket. rewrite Hbk. destruct (Z.eqb_spec bucket 0); [lia|].
    fold (bucket_index bucket k). set (i := bucket_index bucket k).
    assert (i < length (m_datas h))%nat as Hi.
    { subst i. unfold bucket_index. pose proof (Z.mod_pos_bound (m_hash k) bucket Hb). lia. }
    destruct (lookup_lt_is_Some_2 _ _ Hi) as [c Hc]. rewrite Hc.
    destruct (Forall2_lookup_l _ _ _ _ _ Hall Hc) as (l & Hl & Hr & Hm & He). rewrite Hl. cbn [default].
    destruct (run_call_spec o c l (m_status h) Hr ltac:(lia)) as (s' & c' & E & Hr' & (C1 & C2 & _) & _).
    rewrite Hm, He in *. rewrite E. eexists. split; [done|]. split; cbn; [done|by rewrite length_insert|].
    apply Forall2_insert; [done|]. split; [done|]. split; congruence.
  - destruct o; try done. eexists. split; [done|]. split; cbn; [done|by rewrite length_fmap|].
    apply Forall2_fmap. eapply Forall2_impl; [done|]. intros c l (Hr & Hm & He).
    split; [by apply empty_rep|done].
Qed.

Lemma hash_calls_spec bucket mx el os : ∀ h ls,
  0 < bucket → 0 ≤ mx → hash_rep bucket mx el h ls →
  ∃ h', run_hash_calls os h = (Ok (spec_hash_calls bucket mx el os ls).1, h') ∧
    hash_rep bucket mx el h' (spec_hash_calls bucket mx el os ls).2.
Proof.
  induction os as [|o os IH]; intros h ls Hb Hmx Hr; cbn [run_hash_calls spec_hash_calls].
  { by exists h. }
  destruct (hash_call_spec bucket mx el o h ls Hb Hmx Hr) as (h1 & E1 & Hr1).
  destruct (spec_hash_call bucket mx el o ls) as [a ls1]. cbn [fst snd] in *.
  destruct (IH h1 ls1 Hb Hmx Hr1) as (h2 & E2 & Hr2).
  destruct (spec_hash_calls bucket mx el os ls1) as [r ls2]. exists h2. by mstep E1; mstep E2.
Qed.

(** A [HashLruCache] answers every sequence of calls like an array of
    independent recency lists, one per hash bucket, each with its share of the
    capacity; the number of items it reports is the total of the lists. *)
Theorem hash_lru_refines (os : list call) (bucket max_size elasticity : Z) :
  0 < bucket → 0 ≤ max_size →
  let mx := ceil_div max_size bucket in
  let el := ceil_div elasticity bucket in
  ∃ h', run_hash_calls os (new_HashLruCache bucket max_size elasticity) =
      (Ok (spec_hash_calls bucket mx el os (replicate (Z.to_nat bucket) [])).1, h') ∧
    (λ c, (m_keys c).*2) <$> m_datas h' = (spec_hash_calls bucket mx el os (replicate (Z.to_nat bucket) [])).2 ∧
    hash_size h' = Z.of_nat (length (concat (spec_hash_calls bucket mx el os (replicate (Z.to_nat bucket) [])).2)).
Proof.
  intros Hb Hm mx el. assert (0 ≤ mx) as Hmx by (apply Z.div_pos; lia).
  destruct (hash_calls_spec bucket mx el os (new_HashLruCache bucket max_size elasticity)
    (replicate (Z.to_nat bucket) []) Hb Hmx) as (h' & E & [_ _ Hall]).
  { split; cbn; [done|rewrite length_replicate; lia|].
    apply Forall2_replicate. split; [apply new_LruCache_rep|done]. }
  exists h'. split; [done|]. revert Hall. unfold hash_size.
  generalize (spec_hash_calls bucket mx el os (replicate (Z.to_nat bucket) [])).2 as ls.
  intros ls Hall. induction Hall as [|c l cs ls (Hr & _) _ [IH1 IH2]]; [done|].
  cbn. rewrite length_app, IH1, IH2. unfold size_. rewrite (rep_size c l Hr).
  split; [by rewrite (rep_list c l Hr)|lia].
Qed.
End hash.
End lru.

Definition sample_calls : list (call (K := Z) (V := Z)) :=
  [CSet 1 10; CSet 2 20; CGet 1; CSet 3 30; CSet 4 40; CGet 2; CDel 3; CGet 1].
(** The maximum is lowered to 1 while the cache holds two items. *)
Definition sample_ops : list (op (K := Z) (V := Z)) :=
  OPruneCallback true :: (OCall <$> take 4 sample_calls) ++ [OMaxSize 1; OSize; OGetDefault 7; OCall (CSet 5 50); OSize].

Lemma lru_refines_witness :
  ∃ s' c', run_ops 0 sample_ops (new_CacheStatus, new_LruCache 2 0) =
      (Ok [RNone; RAnswer ASet; RAnswer ASet; RAnswer (AGet (Some 10)); RAnswer ASet; RNone; RSize 2; RValue 0; RAnswer ASet; RSize 1], (s', c')) ∧
    (m_keys c').*2 = [(5, 50)] ∧ pruned c' = [(2, 20); (1, 10); (3, 30)] ∧ size_ c' < 2 + Z.max 1 0.
Proof.
  assert (Forall op_ok sample_ops) as Hok by (repeat constructor; cbn; lia).
  destruct (lru_refines 0 sample_ops 2 0 new_CacheStatus ltac:(lia) Hok) as (s' & c' & E & Hk & _ & Hp & _ & _ & Hb).
  exists s', c'. split; [exact E|]. split; [exact Hk|]. split; [exact Hp|]. apply Hb; try lia.
  repeat constructor; cbn; lia.
Defined.

Lemma lru_set_get_witness :
  ∃ w, (set 7 70 ;;! get 7) (new_CacheStatus, new_LruCache (K := Z) 1 0) = (Ok (Some 70), w).
Proof. apply (lru_set_get 7 70 _ []); [apply new_LruCache_rep|done]. Defined.

Lemma hash_lru_refines_witness :
  ∃ h', run_hash_calls id sample_calls (new_HashLruCache 2 3 0) =
      (Ok (spec_hash_calls id 2 2 0 sample_calls [[]; []]).1, h') ∧
    (λ c, (m_keys c).*2) <$> m_datas h' = (spec_hash_calls id 2 2 0 sample_calls [[]; []]).2 ∧
    hash_size h' = Z.of_nat (length (concat (spec_hash_calls id 2 2 0 sample_calls [[]; []]).2)).
Proof. exact (hash_lru_refines id sample_calls 2 3 0 ltac:(lia) ltac:(lia)). Defined.
