(* ===== verification/TimedLruCache.v ===== *)
(** * TimedLruCache (Helens/ds/timed_lru_cache.h)

    An [LruCache] whose items carry a deadline, with a [std::set] of iterators
    ordered by deadline and key beside the recency list.  The fields it shares
    with [LruCache] are kept in a record of that type, the value paired with the
    deadline [ts]. *)
From S2P Require Import Prelude OrderedSet NodeList CacheStatus LruCache.

(** The order on keys, [operator<]. *)
Class KeyOrder (K : Type) := {
  key_ltb : K → K → bool;
  key_irrefl k : key_ltb k k = false;
  key_trans k1 k2 k3 : key_ltb k1 k2 = true → key_ltb k2 k3 = true → key_ltb k1 k3 = true;
  key_total k1 k2 : key_ltb k1 k2 = false → key_ltb k2 k1 = false → k1 = k2
}.

Section timed.
Context {K V : Type} `{Countable K} `{KeyOrder K}.

(** An item: key, value, deadline. *)
Abbreviation item := (K * (V * Z))%type.
Definition item_ts (x : item) : Z := x.2.2.

Record TimedLruCache := mkTimedLruCache {
  lru : LruCache (K := K) (V := V * Z);
  m_timed : list nat
}.
Abbreviation TimedM := (M (CacheStatus * TimedLruCache)).
Definition keys (t : TimedLruCache) : list (nat * item) := m_keys (lru t).
Definition with_lru (c : LruCache) (t : TimedLruCache) : TimedLruCache := mkTimedLruCache c (m_timed t).
Definition with_timed (l : list nat) (t : TimedLruCache) : TimedLruCache := mkTimedLruCache (lru t) l.

Definition new_TimedLruCache (max_size elasticity : Z) : TimedLruCache :=
  mkTimedLruCache (new_LruCache max_size elasticity) [].

(** [ItemTimeOp] *)
Definition item_ltb (l : list (nat * item)) (a b : nat) : bool :=
  if decide (a = b) then false else
  match node_get a l, node_get b l with
  | Some x, Some y =>
    if negb (item_ts x =? item_ts y) then item_ts x <? item_ts y else key_ltb (x.1) (y.1)
  | _, _ => false
  end.

Definition tstatus (f : CacheStatus → CacheStatus) : TimedM unit := modst (λ w, (f (w.1), w.2)).
Definition tcache : TimedM TimedLruCache := λ w, (Ok (w.2), w).
Definition put_tcache (t : TimedLruCache) : TimedM unit := modst (λ w, (w.1, t)).

(** [m_keys.splice(m_keys.begin(), m_keys, it)] *)
Definition ttouch (id : nat) : TimedM unit :=
  let! t := tcache in
  let! l := lift (of_option OutOfBounds (node_to_front id (keys t))) in
  put_tcache (with_lru (with_keys l (lru t)) t).
(** [m_timed.erase(it)] by value, and [m_timed.insert(it)] *)
Definition timed_erase (id : nat) (t : TimedLruCache) : TimedLruCache :=
  match set_find (item_ltb (keys t)) id (m_timed t) with
  | Some i => with_timed (set_erase i (m_timed t)) t
  | None => t
  end.
Definition timed_insert (id : nat) (t : TimedLruCache) : TimedLruCache :=
  with_timed (set_insert (item_ltb (keys t)) id (m_timed t)) t.

Fixpoint tprune_loop (fuel : nat) (count : Z) : TimedM Z :=
  let! t := tcache in
  if Z.of_nat (size (m_cache (lru t))) <=? m_maxSize (lru t) then ret count else
  match fuel with
  | O => lift Fuel
  | S fuel =>
    let! back := lift (of_option EmptyAccess (last (keys t))) in
    let c := lru t in
    let calls := if m_cb c then pruned c ++ [back.2] else pruned c in
    let t := with_lru (mkLruCache (delete (back.2.1) (m_cache c)) (m_keys c) (m_maxSize c)
                         (m_elasticity c) (m_cb c) calls (fresh_node c)) t in
    let t := timed_erase (back.1) t in
    put_tcache (with_lru (with_keys (removelast (keys t)) (lru t)) t) ;;!
    tprune_loop fuel (count + 1)
  end.
Definition tprune : TimedM Z :=
  let! t := tcache in
  if (m_maxSize (lru t) =? 0) || (Z.of_nat (size (m_cache (lru t))) <? getMaxAllowedSize (lru t))
  then ret 0 else
  let! count := tprune_loop (size (m_cache (lru t))) 0 in
  tstatus (incPrune count) ;;! ret count.

Definition tset (now : Z) (k : K) (v : V) (expired : Z) : TimedM unit :=
  tstatus (incSet 1) ;;!
  let! t := tcache in
  match m_cache (lru t) !! k with
  | Some id =>
    ttouch id ;;!
    let! t := tcache in
    let t := timed_erase id t in
    let l := node_update id (λ kv, (kv.1, (v, u64 (expired + now)))) (keys t) in
    put_tcache (timed_insert id (with_lru (with_keys l (lru t)) t))
  | None =>
    let c := lru t in
    let id := fresh_node c in
    let c := mkLruCache (<[k := id]> (m_cache c)) ((id, (k, (v, u64 (expired + now)))) :: m_keys c)
               (m_maxSize c) (m_elasticity c) (m_cb c) (pruned c) (S id) in
    put_tcache (timed_insert id (with_lru c t)) ;;!
    tprune ;;! ret tt
  end.

Definition tget (k : K) : TimedM (option V) :=
  tstatus (incGet 1) ;;!
  let! t := tcache in
  match m_cache (lru t) !! k with
  | None => ret None
  | Some id =>
    ttouch id ;;!
    let! t := tcache in
    let! x := lift (of_option OutOfBounds (node_get id (keys t))) in
    tstatus (incHit 1) ;;! ret (Some (x.2.1))
  end.

Definition tdel (k : K) : TimedM bool :=
  tstatus (incDel 1) ;;!
  let! t := tcache in
  match m_cache (lru t) !! k with
  | None => ret false
  | Some id =>
    let t := timed_erase id t in
    let! _ := lift (of_option OutOfBounds (node_get id (keys t))) in
    let c := lru t in
    put_tcache (with_lru (with_cache (delete k (m_cache c)) (with_keys (node_erase id (m_keys c)) c)) t) ;;!
    ret true
  end.

Definition texists (k : K) (t : TimedLruCache) : bool := bool_decide (is_Some (m_cache (lru t) !! k)).
Definition tsize (t : TimedLruCache) : Z := Z.of_nat (size (m_cache (lru t))).
Definition tempty (t : TimedLruCache) : bool := bool_decide (m_cache (lru t) = ∅).
Definition tclear (t : TimedLruCache) : TimedLruCache := mkTimedLruCache (clear (lru t)) [].

Definition tsetMaxSize (v : Z) (t : TimedLruCache) : TimedLruCache := with_lru (setMaxSize v (lru t)) t.
Definition tsetElasticity (v : Z) (t : TimedLruCache) : TimedLruCache := with_lru (setElasticity v (lru t)) t.
Definition tsetPruneCallback (b : bool) (t : TimedLruCache) : TimedLruCache := with_lru (setPruneCallback b (lru t)) t.

(** The loop of [checkTimeout] over [m_timed] from its beginning. *)
Fixpoint timeout_loop (fuel : nat) (ts count : Z) : TimedM Z :=
  let! t := tcache in
  match m_timed t with
  | [] => ret count
  | id :: rest =>
    match fuel with
    | O => lift Fuel
    | S fuel =>
      let! x := lift (of_option OutOfBounds (node_get id (keys t))) in
      if item_ts x <=? ts then
        let c := lru t in
        let calls := if m_cb c then pruned c ++ [x] else pruned c in
        put_tcache (mkTimedLruCache
          (mkLruCache (delete (x.1) (m_cache c)) (node_erase id (m_keys c)) (m_maxSize c)
             (m_elasticity c) (m_cb c) calls (fresh_node c)) rest) ;;!
        timeout_loop fuel ts (count + 1)
      else ret count
    end
  end.
Definition checkTimeout (ts : Z) : TimedM Z :=
  let! t := tcache in timeout_loop (length (m_timed t)) ts 0.

(** ** The order of the set *)
Definition item_before (l : list (nat * item)) (a b : nat) : Prop :=
  ∃ x y, node_get a l = Some x ∧ node_get b l = Some y ∧
    (item_ts x < item_ts y ∨ (item_ts x = item_ts y ∧ key_ltb (x.1) (y.1) = true)).

Lemma item_before_irrefl l a : ¬ item_before l a a.
Proof.
  intros (x & y & Hx & Hy & Hlt). rewrite Hx in Hy. injection Hy as <-.
  destruct Hlt as [?|[_ Hk]]; [lia|]. by rewrite key_irrefl in Hk.
Qed.
Lemma item_before_trans l a b c : item_before l a b → item_before l b c → item_before l a c.
Proof.
  intros (x & y & Hx & Hy & H1) (y' & z & Hy' & Hz & H2). rewrite Hy in Hy'. injection Hy' as <-.
  exists x, z. split_and!; [done|done|]. destruct H1 as [?|[? ?]], H2 as [?|[? ?]]; [left; lia..|].
  right. split; [lia|]. by eapply key_trans.
Qed.

Lemma item_ltb_spec l a b : item_ltb l a b = true ↔ item_before l a b.
Proof.
  unfold item_ltb. destruct (decide (a = b)) as [->|Hne].
  { split; [done|]. intros Hb. by apply item_before_irrefl in Hb. }
  destruct (node_get a l) as [x|] eqn:Ha; [|split; [done|]; intros (? & ? & ? & _); congruence].
  destruct (node_get b l) as [y|] eqn:Hb; [|split; [done|]; intros (? & ? & _ & ? & _); congruence].
  unfold item_before. rewrite Ha, Hb. destruct (Z.eqb_spec (item_ts x) (item_ts y)); cbn [negb].
  - split; [intros ?; exists x, y; tauto|]. intros (? & ? & [= <-] & [= <-] & [?|[_ ?]]); [lia|done].
  - rewrite Z.ltb_lt. split; [intros ?; exists x, y; tauto|].
    intros (? & ? & [= <-] & [= <-] & [?|[? _]]); [done|lia].
Qed.

(** Items are told apart by their keys. *)
Lemma item_separates (l : list (nat * item)) a m :
  NoDup (l.*1) → NoDup (l.*2.*1) → is_Some (node_get a l) → (∀ x, x ∈ m → is_Some (node_get x l)) →
  separates (item_before l) a m.
Proof.
  intros Hi Hk [x Hx] Hm b Hb H1 H2. destruct (Hm b Hb) as [y Hy].
  assert (x.1 = y.1) as Hxy.
  { unfold item_before in H1, H2. assert (item_ts x = item_ts y) as Ets.
    { destruct (Z.lt_total (item_ts x) (item_ts y)) as [?|[?|?]]; [|done|].
      - exfalso. apply H2. exists x, y. tauto.
      - exfalso. apply H1. exists y, x. tauto. }
    apply key_total.
    - destruct (key_ltb (x.1) (y.1)) eqn:E; [|done]. exfalso. apply H2. exists x, y. tauto.
    - destruct (key_ltb (y.1) (x.1)) eqn:E; [|done]. exfalso. apply H1. exists y, x.
      split_and!; [done|done|]. right. by split. }
  apply node_get_elem in Hx, Hy; [|done..].
  clear -Hk Hi Hx Hy Hxy. induction l as [|[j z] l IH]; [by apply elem_of_nil in Hx|].
  cbn in Hi, Hk. apply NoDup_cons in Hi as [_ Hi]. apply NoDup_cons in Hk as [Hz Hk].
  apply elem_of_cons in Hx as [[= -> ->]|Hx]; apply elem_of_cons in Hy as [[= -> ->]|Hy].
  - done.
  - exfalso. apply Hz. rewrite Hxy. apply list_elem_of_fmap. exists y. split; [done|].
    apply list_elem_of_fmap. by exists (b, y).
  - exfalso. apply Hz. rewrite <- Hxy. apply list_elem_of_fmap. exists x. split; [done|].
    apply list_elem_of_fmap. by exists (a, x).
  - by apply IH.
Qed.

(** ** The invariant *)
Record trep (t : TimedLruCache) (l : list item) : Prop := {
  tr_lru : rep (lru t) l;
  tr_sorted : StronglySorted (item_before (keys t)) (m_timed t);
  tr_elem id : id ∈ m_timed t ↔ id ∈ (keys t).*1
}.

Lemma node_get_some (l : list (nat * item)) id : id ∈ l.*1 ↔ is_Some (node_get id l).
Proof.
  induction l as [|[j x] l IH]; cbn; [split; [set_solver|by intros [? ?]]|].
  rewrite elem_of_cons, IH. destruct (decide (id = j)) as [->|Hne]; [naive_solver|].
  split; [by intros [?|?]|by right].
Qed.

Lemma rep_items c (l : list item) : rep c l → NoDup ((m_keys c).*2.*1).
Proof. intros Hr. rewrite (rep_list c l Hr). apply Hr. Qed.

Lemma trep_separates t l a :
  trep t l → a ∈ (keys t).*1 → separates (item_before (keys t)) a (m_timed t).
Proof.
  intros [Hr Hs He] Ha. apply item_separates; [apply Hr|by eapply rep_items|by apply node_get_some|].
  intros x Hx. by apply node_get_some, He.
Qed.

(** Erasing a present iterator from the set. *)
Lemma timed_erase_spec t l id :
  trep t l → id ∈ (keys t).*1 →
  ∃ m, timed_erase id t = with_timed m t ∧ StronglySorted (item_before (keys t)) m ∧
    (∀ x, x ∈ m ↔ x ∈ (keys t).*1 ∧ x ≠ id).
Proof.
  intros Ht Hid. pose proof (trep_separates t l id Ht Hid) as Hsep. destruct Ht as [Hr Hs He].
  destruct (set_find_sorted (item_ltb (keys t)) (item_before (keys t)) (item_ltb_spec _)
    (item_before_irrefl _) (item_before_trans _) id (m_timed t) Hs Hsep) as (i & Hf & Hi); [by apply He|].
  exists (set_erase i (m_timed t)). unfold timed_erase. rewrite Hf. split_and!; [done|by apply set_erase_sorted|].
  intros x. rewrite (set_erase_spec i id), He; [done| |done].
  by eapply sorted_NoDup, Hs; apply item_before_irrefl.
Qed.

(** Only the nodes in the set matter to its order. *)
Lemma timed_change (l l' : list (nat * item)) m :
  (∀ x, x ∈ m → node_get x l' = node_get x l) →
  StronglySorted (item_before l) m → StronglySorted (item_before l') m.
Proof.
  intros He. apply sorted_change. intros x y Hx Hy. unfold item_before. by rewrite !He.
Qed.

(** Inserting an iterator into a set of other iterators. *)
Lemma timed_insert_ok c l m id :
  rep c l → StronglySorted (item_before (m_keys c)) m →
  (∀ x, x ∈ m ↔ x ∈ (m_keys c).*1 ∧ x ≠ id) → id ∈ (m_keys c).*1 →
  trep (timed_insert id (mkTimedLruCache c m)) l.
Proof.
  intros Hr Hs He Hid. unfold timed_insert, keys. cbn [lru m_timed].
  split; unfold keys; cbn [lru m_timed with_timed]; [done| |].
  - apply set_insert_sorted; [apply item_ltb_spec|apply item_before_trans|done].
  - intros x. rewrite (set_insert_elem _ (item_before (m_keys c)) (item_ltb_spec _)).
    + rewrite He. destruct (decide (x = id)) as [->|]; tauto.
    + apply item_separates; [apply Hr|by eapply rep_items|by apply node_get_some|].
      intros y Hy. apply node_get_some. by apply He in Hy as [? _].
Qed.

(** ** Operations *)
Lemma ttouch_spec t l id x s :
  trep t l → node_get id (keys t) = Some x →
  ∃ c' n, ttouch id (s, t) = (Ok tt, (s, with_lru c' t)) ∧ trep (with_lru c' t) (x :: remove_key (x.1) l) ∧
    m_keys c' = (id, x) :: n ∧ m_cache c' = m_cache (lru t) ∧ same_config (lru t) c' ∧
    pruned c' = pruned (lru t) ∧ fresh_node c' = fresh_node (lru t).
Proof.
  intros [Hr Hs He] Hg. destruct x as [k v].
  destruct (rep_split (lru t) l id k v Hr Hg) as (n1 & n2 & E & _ & Ee & Er & _).
  unfold ttouch, bind, tcache, lift, put_tcache, modst. cbn [snd fst]. unfold node_to_front.
  rewrite Hg. cbn [of_option]. unfold keys. rewrite Ee. do 2 eexists. split; [done|].
  cbn [fst]. rewrite Er.
  assert (keys t ≡ₚ (id, (k, v)) :: n1 ++ n2) as Hp by (unfold keys; by rewrite E, Permutation_middle).
  split; [|done]. split; unfold keys; cbn [lru with_lru m_timed m_keys with_keys].
  - by apply (rep_front _ l id k v v n1 n2).
  - eapply timed_change; [|exact Hs]. intros y _. symmetry. apply node_get_perm; [apply Hr|done].
  - intros y. rewrite He. unfold keys in *. by rewrite Hp.
Qed.

Lemma tprune_loop_spec fuel : ∀ count t l s,
  trep t l → 0 ≤ m_maxSize (lru t) → (length l ≤ fuel)%nat →
  ∃ n t', tprune_loop fuel count (s, t) = (Ok n, (s, t')) ∧
    trep t' (take (Z.to_nat (m_maxSize (lru t))) l) ∧ same_config (lru t) (lru t') ∧
    pruned (lru t') = pruned (lru t) ++
      if m_cb (lru t) then reverse (drop (Z.to_nat (m_maxSize (lru t))) l) else [].
Proof.
  induction fuel as [|fuel IH]; intros count t l s Ht Hmx Hf; pose proof Ht as [Hr Hs He]; cbn [tprune_loop];
    unfold bind at 1, tcache; cbn [snd]; rewrite (rep_size _ l Hr);
    destruct (Z.leb_spec (Z.of_nat (length l)) (m_maxSize (lru t))); [|lia| |].
  1,2: rewrite drop_ge, take_ge by lia; exists count, t; unfold ret;
    split_and!; try done; by destruct (m_cb (lru t)); rewrite ?reverse_nil, app_nil_r.
  pose proof (rep_list _ l Hr) as Hl.
  destruct (exists_last (l := m_keys (lru t))) as (ns & [id [k v]] & E).
  { intros E. rewrite E in Hl. cbn in Hl. subst l. cbn in *. lia. }
  unfold keys at 1. unfold bind at 1, lift at 1. rewrite E, last_snoc. cbn [of_option snd fst].
  rewrite E, fmap_app in Hl. cbn in Hl. rewrite <- Hl in *. clear Hl.
  rewrite length_app in *. cbn [length] in *. rewrite length_fmap in *.
  rewrite take_app_le, drop_app_le by (rewrite length_fmap; lia).
  set (calls := if m_cb (lru t) then pruned (lru t) ++ [(k, v)] else pruned (lru t)).
  assert (id ∈ (keys t).*1) as Hid by (unfold keys; rewrite E, fmap_app; set_solver).
  destruct (timed_erase_spec t _ id Ht Hid) as (m & Hte & Hms & Hme).
  assert (∀ c, m_keys c = m_keys (lru t) → timed_erase id (with_lru c t) = with_timed m (with_lru c t)) as Hte'.
  { intros c Hc. unfold timed_erase, keys in *. cbn [lru with_lru m_timed] in *. rewrite Hc.
    by destruct (set_find _ id (m_timed t)); apply (f_equal m_timed) in Hte; cbn in Hte; rewrite <- Hte. }
  rewrite Hte' by done. unfold keys at 1. cbn [lru with_timed with_lru m_keys].
  rewrite removelast_last.
  pose proof (rep_remove (lru t) _ id k v ns [] calls Hr E) as Hr'. rewrite !app_nil_r in Hr'.
  unfold bind at 1, put_tcache, modst. cbn [fst snd].
  match goal with |- context [tprune_loop fuel _ (_, ?x)] => set (t1 := x) end.
  assert (trep t1 (ns.*2)) as Ht1.
  { split; subst t1; unfold keys; cbn [lru with_lru with_timed with_keys m_timed m_keys].
    - exact Hr'.
    - eapply timed_change; [|exact Hms]. intros x [_ Hx]%Hme. unfold keys. rewrite E.
      symmetry. pose proof (rep_ids _ _ Hr) as Hnd. rewrite E in Hnd.
      rewrite (node_get_perm x _ ((id, (k, v)) :: ns)); [by apply node_get_cons_ne|done|].
      by rewrite <- Permutation_cons_append.
    - intros x. rewrite Hme. unfold keys. rewrite E, fmap_app. cbn.
      pose proof (rep_ids _ _ Hr) as Hnd. rewrite E, fmap_app in Hnd. cbn in Hnd.
      apply NoDup_app in Hnd as (_ & Hnd & _). rewrite elem_of_app. set_solver. }
  destruct (IH (count + 1) t1 (ns.*2) s Ht1 Hmx) as (n & t' & Hrun & Hrep & (S1 & S2 & S3) & Hp).
  { rewrite length_fmap. lia. }
  exists n, t'. split_and!; try done. rewrite Hp. subst t1 calls. cbn. rewrite reverse_snoc.
  destruct (m_cb (lru t)); [|done]. by rewrite <- app_assoc.
Qed.

Lemma tprune_spec t l s :
  trep t l → 0 ≤ m_maxSize (lru t) →
  ∃ n s' t', tprune (s, t) = (Ok n, (s', t')) ∧
    trep t' (spec_prune (m_maxSize (lru t)) (m_elasticity (lru t)) l).1 ∧ same_config (lru t) (lru t') ∧
    pruned (lru t') = evictions (lru t) (spec_prune (m_maxSize (lru t)) (m_elasticity (lru t)) l).2.
Proof.
  intros Ht Hmx. pose proof Ht as [Hr _ _]. unfold tprune, bind at 1, tcache. cbn [snd].
  unfold spec_prune, getMaxAllowedSize, evictions. rewrite (rep_size _ l Hr).
  destruct (Z.eqb_spec (m_maxSize (lru t)) 0); cbn [orb].
  { rewrite decide_True by tauto. exists 0, s, t. cbn. destruct (m_cb (lru t)); by rewrite app_nil_r. }
  destruct (Z.ltb_spec (Z.of_nat (length l)) (u64 (m_maxSize (lru t) + m_elasticity (lru t)))).
  { rewrite decide_True by tauto. exists 0, s, t. cbn. destruct (m_cb (lru t)); by rewrite app_nil_r. }
  rewrite decide_False by lia. cbn [fst snd].
  destruct (tprune_loop_spec (length l) 0 t l s Ht Hmx ltac:(lia)) as (cnt & t' & Hrun & Hrep & Hsc & Hp).
  mstep Hrun. unfold bind, tstatus, modst, ret. cbn [fst snd]. by do 3 eexists.
Qed.

Lemma tset_spec now k v expired t l s :
  trep t l → 0 ≤ m_maxSize (lru t) →
  let r := spec_set (m_maxSize (lru t)) (m_elasticity (lru t)) k (v, u64 (expired + now)) l in
  ∃ s' t', tset now k v expired (s, t) = (Ok tt, (s', t')) ∧ trep t' r.1 ∧
    same_config (lru t) (lru t') ∧ pruned (lru t') = evictions (lru t) r.2.
Proof.
  intros Ht Hmx. pose proof Ht as [Hr Hs He]. cbn zeta. unfold tset.
  unfold bind at 1, tstatus, modst. cbn [fst snd]. unfold bind at 1, tcache. cbn [snd].
  set (w := (v, u64 (expired + now))). unfold spec_set.
  destruct (m_cache (lru t) !! k) as [id|] eqn:Hc.
  - destruct (rep_find _ l k id Hr Hc) as (v0 & Hg & Hf). rewrite Hf.
    destruct (ttouch_spec t l id (k, v0) (incSet 1 s) Ht Hg) as (c1 & n & Et & Ht1 & Ek & Ec & Hsc & Hp & _).
    mstep Et. unfold bind at 1, tcache. cbn [snd]. pose proof Ht1 as [Hr1 _ _]. cbn [lru with_lru] in Hr1.
    destruct (timed_erase_spec _ _ id Ht1) as (m & Hte & Hms & Hme).
    { unfold keys. cbn. rewrite Ek. set_solver. }
    rewrite Hte. unfold keys in *. cbn [lru with_lru with_timed m_timed] in *. rewrite Ek in *.
    cbn [node_update]. rewrite decide_True by done. cbn [fst]. unfold put_tcache, modst. cbn [fst].
    assert (rep (with_keys ((id, (k, w)) :: n) c1) ((k, w) :: remove_key k l)) as Hr2.
    { pose proof (rep_front c1 _ id k v0 w [] n Hr1 Ek) as Hr2. cbn [app fmap list_fmap] in Hr2.
      pose proof (rep_list _ _ Hr1) as Hl. rewrite Ek in Hl. cbn in Hl. injection Hl as Hl.
      by rewrite Hl in Hr2. }
    do 2 eexists. split; [reflexivity|]. cbn [fst snd]. split; [|split; [done|]].
    + apply (timed_insert_ok _ _ m id Hr2); cbn [m_keys with_keys].
      * eapply timed_change; [|exact Hms]. intros x [_ Hx]%Hme. by rewrite !node_get_cons_ne.
      * intros x. by rewrite Hme.
      * set_solver.
    + unfold timed_insert, evictions. cbn. rewrite Hp. destruct (m_cb (lru t)); by rewrite app_nil_r.
  - rewrite (rep_find_None _ l k Hr Hc). set (id := fresh_node (lru t)).
    pose proof (rep_insert _ l k w Hr Hc) as Hr'.
    assert (id ∉ (keys t).*1) as Hfr by (intros Hin; apply (rep_fresh _ _ Hr) in Hin; subst id; lia).
    unfold bind at 1, put_tcache, modst. cbn [fst snd].
    match goal with |- context [timed_insert id ?x] => set (t1 := timed_insert id x) end.
    assert (trep t1 ((k, w) :: l)) as Ht1.
    { apply (timed_insert_ok _ _ (m_timed t) id Hr'); cbn [m_keys].
      - eapply timed_change; [|exact Hs]. intros x Hx%He. apply node_get_cons_ne. by intros ->.
      - intros x. rewrite He. unfold keys in *. cbn [fmap list_fmap fst]. fold id. set_solver.
      - cbn. set_solver. }
    destruct (tprune_spec t1 _ (incSet 1 s) Ht1 Hmx) as (n & s' & t' & Et & Hrep & Hsc & Hp).
    mstep Et. exists s', t'. by split_and!.
Qed.

Lemma tget_spec k t l s :
  trep t l →
  ∃ s' t', tget k (s, t) = (Ok (fst <$> (spec_get k l).1), (s', t')) ∧ trep t' (spec_get k l).2 ∧
    same_config (lru t) (lru t') ∧ pruned (lru t') = pruned (lru t).
Proof.
  intros Ht. pose proof Ht as [Hr _ _]. unfold tget, bind at 1, tstatus, modst. cbn [fst snd].
  unfold bind at 1, tcache. cbn [snd]. unfold spec_get.
  destruct (m_cache (lru t) !! k) as [id|] eqn:Hc.
  - destruct (rep_find _ l k id Hr Hc) as (v & Hg & Hf). rewrite Hf.
    destruct (ttouch_spec t l id (k, v) (incGet 1 s) Ht Hg) as (c1 & n & Et & Ht1 & Ek & _ & Hsc & Hp & _).
    mstep Et. unfold bind, tcache, lift, modst, ret, keys. cbn [snd fst lru with_lru]. rewrite Ek.
    cbn [node_get]. rewrite decide_True by done. cbn. by do 2 eexists.
  - rewrite (rep_find_None _ l k Hr Hc). by exists (incGet 1 s), t.
Qed.

Lemma tdel_spec k t l s :
  trep t l →
  ∃ s' t', tdel k (s, t) = (Ok (bool_decide (is_Some (find_key k l))), (s', t')) ∧
    trep t' (remove_key k l) ∧ same_config (lru t) (lru t') ∧ pruned (lru t') = pruned (lru t).
Proof.
  intros Ht. pose proof Ht as [Hr Hs He]. unfold tdel, bind at 1, tstatus, modst. cbn [fst snd].
  unfold bind at 1, tcache. cbn [snd].
  destruct (m_cache (lru t) !! k) as [id|] eqn:Hc.
  - destruct (rep_find _ l k id Hr Hc) as (v & Hg & Hf). rewrite Hf, bool_decide_true by done.
    destruct (rep_split _ l id k v Hr Hg) as (n1 & n2 & E & _ & Ee & Er & _).
    destruct (timed_erase_spec t l id Ht) as (m & Hte & Hms & Hme); [by apply node_get_some; eexists|].
    rewrite Hte. unfold bind, lift, put_tcache, modst, ret, keys. cbn [lru with_timed]. rewrite Hg.
    cbn [of_option fst snd]. do 2 eexists. split; [reflexivity|]. cbn [snd fst lru with_lru]. rewrite Er.
    split; [|done]. rewrite Ee. pose proof (rep_ids _ _ Hr) as Hnd. rewrite E in Hnd.
    rewrite fmap_app, fmap_cons in Hnd. cbn in Hnd.
    split; unfold keys; cbn [lru m_timed with_lru with_timed m_keys with_cache with_keys].
    + exact (rep_remove (lru t) l id k v n1 n2 (pruned (lru t)) Hr E).
    + eapply timed_change; [|exact Hms]. intros x [_ Hx]%Hme. unfold keys. rewrite <- Ee.
      by apply node_get_erase_ne.
    + intros x. rewrite Hme. unfold keys. rewrite E, !fmap_app, fmap_cons. cbn.
      rewrite <- Permutation_middle in Hnd. apply NoDup_cons in Hnd as [Hnd _]. set_solver.
  - pose proof (rep_find_None _ l k Hr Hc) as Hf. rewrite Hf.
    rewrite bool_decide_false by (by intros [? ?]). exists (incDel 1 s), t. split; [done|].
    split_and!; try done. unfold remove_key. rewrite filter_all; [done|].
    intros [k' v'] Hin Heq. cbn in Heq. subst k'. apply (find_key_elem k v' l (rep_keys _ l Hr)) in Hin.
    congruence.
Qed.

(** ** Expiry *)
(** The first iterator of the set designates a least deadline. *)
Lemma first_is_least t l id rest x y :
  trep t l → m_timed t = id :: rest → node_get id (keys t) = Some x → y ∈ l → item_ts x ≤ item_ts y.
Proof.
  intros [Hr Hs He] Hm Hg Hy. rewrite <- (rep_list _ l Hr) in Hy.
  apply list_elem_of_fmap in Hy as ([j z] & -> & Hin). cbn.
  assert (node_get j (keys t) = Some z) as Hz by (apply node_get_elem; [apply Hr|done]).
  assert (j ∈ m_timed t) as Hj by (apply He, node_get_some; by eexists).
  rewrite Hm in Hj, Hs. apply elem_of_cons in Hj as [->|Hj].
  - rewrite Hg in Hz. injection Hz as <-. lia.
  - apply StronglySorted_inv in Hs as [_ Hf]. rewrite Forall_forall in Hf.
    destruct (Hf j Hj) as (x' & z' & Hx' & Hz' & Hlt). rewrite Hg in Hx'. rewrite Hz in Hz'.
    injection Hx' as <-. injection Hz' as <-. lia.
Qed.

(** What a sweep up to [ts] must achieve. *)
Definition swept (ts : Z) (t t' : TimedLruCache) (l xs : list item) : Prop :=
  trep t' (filter (λ x, ¬ item_ts x ≤ ts) l) ∧ xs ≡ₚ filter (λ x, item_ts x ≤ ts) l ∧
  StronglySorted (λ x y, item_ts x ≤ item_ts y) xs ∧ same_config (lru t) (lru t') ∧
  pruned (lru t') = pruned (lru t) ++ if m_cb (lru t) then xs else [].

Lemma swept_nothing ts t l : trep t l → (∀ x, x ∈ l → ¬ item_ts x ≤ ts) → swept ts t t l [].
Proof.
  intros Ht Hx. unfold swept. rewrite filter_all, filter_none by done.
  split_and!; try done; [constructor|]. by destruct (m_cb (lru t)); rewrite app_nil_r.
Qed.

Lemma timeout_loop_spec ts fuel : ∀ count t l s,
  trep t l → (length (m_timed t) ≤ fuel)%nat →
  ∃ xs t', timeout_loop fuel ts count (s, t) = (Ok (count + Z.of_nat (length xs)), (s, t')) ∧
    swept ts t t' l xs.
Proof.
  induction fuel as [|fuel IH]; intros count t l s Ht Hf; pose proof Ht as [Hr Hs He];
    cbn [timeout_loop]; unfold bind at 1, tcache; cbn [snd]; destruct (m_timed t) as [|id rest] eqn:Hm.
  1,3: exists [], t; cbn [length]; rewrite Z.add_0_r; split; [done|]; apply swept_nothing; [done|];
    intros x Hx; rewrite <- (rep_list _ l Hr) in Hx;
    apply list_elem_of_fmap in Hx as ([j z] & -> & Hin); exfalso;
    apply (elem_of_nil j), He, list_elem_of_fmap; by exists (j, z).
  { cbn in Hf. lia. }
  destruct (proj1 (node_get_some (keys t) id)) as [[k v] Hg]; [apply He; set_solver|].
  unfold bind at 1, lift at 1. rewrite Hg. cbn [of_option].
  destruct (Z.leb_spec (item_ts (k, v)) ts) as [Hle|Hgt].
  2:{ exists [], t. cbn [length]. rewrite Z.add_0_r. split; [done|]. apply swept_nothing; [done|].
      intros y Hy. pose proof (first_is_least t l id rest _ y Ht Hm Hg Hy). lia. }
  destruct (rep_split _ l id k v Hr Hg) as (n1 & n2 & E & El & Ee & _ & _).
  unfold bind at 1, put_tcache, modst. cbn [fst snd]. rewrite Ee.
  set (calls := if m_cb (lru t) then pruned (lru t) ++ [(k, v)] else pruned (lru t)).
  match goal with |- context [timeout_loop fuel _ _ (_, ?x)] => set (t1 := x) end.
  pose proof (rep_ids _ _ Hr) as Hnd. rewrite E, fmap_app, fmap_cons in Hnd. cbn in Hnd.
  rewrite <- Permutation_middle in Hnd. apply NoDup_cons in Hnd as [Hnid _].
  assert (NoDup (id :: rest)) as Hnr by (by eapply sorted_NoDup, Hs; apply item_before_irrefl).
  apply NoDup_cons in Hnr as [Hnr _].
  assert (trep t1 (n1.*2 ++ n2.*2)) as Ht1.
  { split; subst t1; unfold keys; cbn [lru m_timed m_keys].
    - by apply (rep_remove _ l id k v n1 n2).
    - apply StronglySorted_inv in Hs as [Hs _]. eapply timed_change; [|exact Hs].
      intros x Hx. rewrite <- Ee. apply node_get_erase_ne. by intros ->.
    - intros x. pose proof (He x) as Hx. unfold keys in Hx. rewrite E, fmap_app, fmap_cons in Hx.
      cbn in Hx. rewrite elem_of_cons, elem_of_app, elem_of_cons in Hx. rewrite fmap_app, elem_of_app.
      rewrite elem_of_app in Hnid. assert (x = id → x ∉ rest) by (by intros ->).
      assert (x = id → ¬ (x ∈ n1.*1 ∨ x ∈ n2.*1)) by (by intros ->). tauto. }
  destruct (IH (count + 1) t1 _ s Ht1) as (xs & t' & Hrun & Hrep & Hperm & Hsort & (S1 & S2 & S3) & Hp).
  { subst t1. cbn in *. lia. }
  exists ((k, v) :: xs), t'. split; [rewrite Hrun; f_equal; f_equal; cbn [length]; lia|].
  unfold swept. rewrite El, !filter_app, filter_cons_False, filter_cons_True by tauto.
  rewrite filter_app in Hrep, Hperm. split_and!; try done.
  - rewrite Hperm. by apply Permutation_middle.
  - constructor; [done|]. apply Forall_forall. intros y Hy. rewrite Hperm in Hy.
    eapply first_is_least; [exact Ht|exact Hm|exact Hg|]. rewrite El.
    apply elem_of_app in Hy as [Hy|Hy]; apply list_elem_of_filter in Hy as [_ Hy]; set_solver.
  - rewrite Hp. subst t1 calls. cbn. destruct (m_cb (lru t)); [by rewrite <- app_assoc|done].
Qed.

Lemma checkTimeout_spec ts t l s :
  trep t l →
  ∃ xs t', checkTimeout ts (s, t) = (Ok (Z.of_nat (length xs)), (s, t')) ∧ swept ts t t' l xs.
Proof. intros Ht. by apply (timeout_loop_spec ts (length (m_timed t)) 0 t l s). Qed.

(** ** Sequences of calls *)
Inductive tcall :=
| TSet (now : Z) (k : K) (v : V) (expired : Z) | TGet (k : K) | TDel (k : K) | TTimeout (ts : Z) | TClear.
Inductive tanswer := TASet | TAGet (v : option V) | TADel (b : bool) | TATimeout (n : Z) | TAClear.

Definition run_tcall (o : tcall) : TimedM tanswer :=
  match o with
  | TSet now k v e => tset now k v e ;;! ret TASet
  | TGet k => let! v := tget k in ret (TAGet v)
  | TDel k => let! b := tdel k in ret (TADel b)
  | TTimeout ts => let! n := checkTimeout ts in ret (TATimeout n)
  | TClear => let! t := tcache in put_tcache (tclear t) ;;! ret TAClear
  end.
Fixpoint run_tcalls (os : list tcall) : TimedM (list tanswer) :=
  match os with
  | [] => ret []
  | o :: os => let! a := run_tcall o in let! r := run_tcalls os in ret (a :: r)
  end.

(** The same on the list of items by recency. *)
Definition spec_tcall (mx el : Z) (o : tcall) (l : list item) : tanswer * list item :=
  match o with
  | TSet now k v e => (TASet, (spec_set mx el k (v, u64 (e + now)) l).1)
  | TGet k => (TAGet (fst <$> (spec_get k l).1), (spec_get k l).2)
  | TDel k => (TADel (bool_decide (is_Some (find_key k l))), remove_key k l)
  | TTimeout ts => (TATimeout (Z.of_nat (length (filter (λ x, item_ts x ≤ ts) l))),
                    filter (λ x, ¬ item_ts x ≤ ts) l)
  | TClear => (TAClear, [])
  end.
Fixpoint spec_tcalls (mx el : Z) (os : list tcall) (l : list item) : list tanswer * list item :=
  match os with
  | [] => ([], l)
  | o :: os =>
    let (a, l') := spec_tcall mx el o l in
    let (r, l'') := spec_tcalls mx el os l' in (a :: r, l'')
  end.

Lemma run_tcall_spec o t l s :
  trep t l → 0 ≤ m_maxSize (lru t) →
  let r := spec_tcall (m_maxSize (lru t)) (m_elasticity (lru t)) o l in
  ∃ s' t', run_tcall o (s, t) = (Ok r.1, (s', t')) ∧ trep t' r.2 ∧ same_config (lru t) (lru t').
Proof.
  intros Ht Hmx. destruct o as [now k v e|k|k|ts|]; cbn [run_tcall spec_tcall fst snd].
  - destruct (tset_spec now k v e t l s Ht Hmx) as (s' & t' & E & ? & ? & _). exists s', t'. by mstep E.
  - destruct (tget_spec k t l s Ht) as (s' & t' & E & ? & ? & _). exists s', t'. by mstep E.
  - destruct (tdel_spec k t l s Ht) as (s' & t' & E & ? & ? & _). exists s', t'. by mstep E.
  - destruct (checkTimeout_spec ts t l s Ht) as (xs & t' & E & H1 & H2 & _ & H3 & _). exists s, t'.
    mstep E. split_and!; try done. unfold ret. by rewrite H2.
  - exists s, (tclear t). split_and!; try done. split; cbn; [by apply empty_rep|constructor|done].
Qed.

Lemma run_tcalls_spec os : ∀ t l s,
  trep t l → 0 ≤ m_maxSize (lru t) →
  let r := spec_tcalls (m_maxSize (lru t)) (m_elasticity (lru t)) os l in
  ∃ s' t', run_tcalls os (s, t) = (Ok r.1, (s', t')) ∧ trep t' r.2.
Proof.
  induction os as [|o os IH]; intros t l s Ht Hmx; cbn [run_tcalls spec_tcalls]; [by exists s, t|].
  destruct (run_tcall_spec o t l s Ht Hmx) as (s1 & t1 & E1 & Ht1 & (C1 & C2 & C3)).
  destruct (spec_tcall _ _ o l) as [a l1]. cbn [fst snd] in *.
  destruct (IH t1 l1 s1 Ht1) as (s2 & t2 & E2 & Ht2); [lia|]. rewrite C1, C2 in *. cbn zeta in *.
  destruct (spec_tcalls _ _ os l1) as [r l2]. exists s2, t2. by mstep E1; mstep E2.
Qed.

Lemma new_TimedLruCache_rep mx el : trep (new_TimedLruCache mx el) [].
Proof. split; cbn; [by apply empty_rep|constructor|done]. Qed.

(** Whatever calls a [TimedLruCache] receives, it answers like a list of
    items in order of use whose timed-out items [checkTimeout] filters out and
    counts; its map, its list and its set of deadlines stay in step, so no
    iterator is ever stale. *)
Theorem timed_lru_refines (os : list tcall) (mx el : Z) (s : CacheStatus) :
  0 ≤ mx →
  ∃ s' t', run_tcalls os (s, new_TimedLruCache mx el) = (Ok (spec_tcalls mx el os []).1, (s', t')) ∧
    (keys t').*2 = (spec_tcalls mx el os []).2 ∧
    (∀ id, id ∈ m_timed t' ↔ id ∈ (keys t').*1) ∧ length (m_timed t') = size (m_cache (lru t')).
Proof.
  intros Hmx. destruct (run_tcalls_spec os (new_TimedLruCache mx el) [] s (new_TimedLruCache_rep mx el) Hmx)
    as (s' & t' & E & [Hr Hs He]).
  exists s', t'. split; [done|]. split; [by apply rep_list in Hr|]. split; [done|].
  rewrite (rep_size _ _ Hr), <- (rep_list _ _ Hr), length_fmap.
  rewrite <- (length_fmap fst (m_keys (lru t'))). apply Permutation_length, NoDup_Permutation.
  - eapply sorted_NoDup; [|exact Hs]. apply item_before_irrefl.
  - apply Hr.
  - exact He.
Qed.

(** [checkTimeout ts] removes exactly the items whose deadline is at most
    [ts], passes them to the prune callback in order of deadline, keeps the
    others in their order of use, and returns how many it removed. *)
Theorem checkTimeout_exact (ts : Z) (t : TimedLruCache) (l : list item) (s : CacheStatus) :
  trep t l → m_cb (lru t) = true →
  ∃ xs t', checkTimeout ts (s, t) = (Ok (Z.of_nat (length xs)), (s, t')) ∧
    xs ≡ₚ filter (λ x, item_ts x ≤ ts) l ∧ StronglySorted (λ x y, item_ts x ≤ item_ts y) xs ∧
    pruned (lru t') = pruned (lru t) ++ xs ∧
    (keys t').*2 = filter (λ x, ¬ item_ts x ≤ ts) l ∧
    (∀ k v, find_key k l = Some v → (∃ w, find_key k (keys t').*2 = Some w) ↔ ts < v.2).
Proof.
  intros Ht Hcb. destruct (checkTimeout_spec ts t l s Ht) as (xs & t' & E & H1 & H2 & H3 & _ & H4).
  exists xs, t'. rewrite Hcb in H4. pose proof Ht as [Hr _ _]. pose proof H1 as [Hr' _ _].
  pose proof (rep_list _ _ Hr') as Hl. unfold keys. rewrite Hl. split_and!; try done.
  intros k v Hf. apply find_key_elem in Hf; [|apply Hr]. split.
  - intros [w Hw]. apply find_key_elem in Hw; [|apply Hr'].
    apply list_elem_of_filter in Hw as [Hlt Hw]. apply find_key_elem in Hf, Hw; try apply Hr.
    rewrite Hf in Hw. injection Hw as <-. unfold item_ts in Hlt. cbn in Hlt. lia.
  - intros Hlt. exists v. apply find_key_elem; [apply Hr'|]. apply list_elem_of_filter.
    split; [unfold item_ts; cbn; lia|done].
Qed.

(** ** HashTimedLruCache *)
Section hash.
Context (m_hash : K → Z).

Record HashTimedLruCache := mkHashTimedLruCache {
  t_datas : list TimedLruCache; t_maxSize : Z; t_bucket : Z; t_elasticity : Z; t_status : CacheStatus }.

Definition new_HashTimedLruCache (bucket max_size elasticity : Z) : HashTimedLruCache :=
  let pre_max_size := ceil_div max_size bucket in
  let pre_elasiticity := ceil_div elasticity bucket in
  mkHashTimedLruCache (replicate (Z.to_nat bucket) (new_TimedLruCache pre_max_size pre_elasiticity))
    (pre_max_size * bucket) bucket (pre_elasiticity * bucket) new_CacheStatus.

(** [m_datas[m_hash(k) % m_bucket]->op] *)
Definition on_tbucket {A} (k : K) (op : TimedM A) : M HashTimedLruCache A := λ h,
  if t_bucket h =? 0 then (Undef DivByZero, h) else
  let i := Z.to_nat (m_hash k mod t_bucket h) in
  match t_datas h !! i with
  | None => (Undef OutOfBounds, h)
  | Some t =>
    let '(o, (s, t)) := op (t_status h, t) in
    (o, mkHashTimedLruCache (<[i := t]> (t_datas h)) (t_maxSize h) (t_bucket h) (t_elasticity h) s)
  end.
Definition hash_tset (now : Z) (k : K) (v : V) (expired : Z) : M HashTimedLruCache unit :=
  on_tbucket k (tset now k v expired).
Definition hash_tget (k : K) : M HashTimedLruCache (option V) := on_tbucket k (tget k).
Definition hash_tdel (k : K) : M HashTimedLruCache bool := on_tbucket k (tdel k).
Definition hash_texists (k : K) : M HashTimedLruCache bool :=
  on_tbucket k (let! t := tcache in ret (texists k t)).
Definition hash_tsize (h : HashTimedLruCache) : Z := foldr Z.add 0 (tsize <$> t_datas h).
Definition hash_tempty (h : HashTimedLruCache) : bool := forallb tempty (t_datas h).
Definition hash_tclear (h : HashTimedLruCache) : HashTimedLruCache :=
  mkHashTimedLruCache (tclear <$> t_datas h) (t_maxSize h) (t_bucket h) (t_elasticity h) (t_status h).
Definition hash_tsetMaxSize (v : Z) (h : HashTimedLruCache) : HashTimedLruCache :=
  let pre_max_size := ceil_div v (t_bucket h) in
  mkHashTimedLruCache (tsetMaxSize pre_max_size <$> t_datas h) (pre_max_size * t_bucket h) (t_bucket h)
    (t_elasticity h) (t_status h).
Definition hash_tsetElasticity (v : Z) (h : HashTimedLruCache) : HashTimedLruCache :=
  let pre_elasiticity := ceil_div v (t_bucket h) in
  mkHashTimedLruCache (tsetElasticity pre_elasiticity <$> t_datas h) (t_maxSize h) (t_bucket h)
    (pre_elasiticity * t_bucket h) (t_status h).
Definition hash_tsetPruneCallback (b : bool) (h : HashTimedLruCache) : HashTimedLruCache :=
  mkHashTimedLruCache (tsetPruneCallback b <$> t_datas h) (t_maxSize h) (t_bucket h) (t_elasticity h) (t_status h).
(** [checkTimeout] over the caches in turn. *)
Fixpoint hash_timeout_loop (ts : Z) (size : Z) (todo done : list TimedLruCache) (s : CacheStatus)
    : outcome Z * (list TimedLruCache * CacheStatus) :=
  match todo with
  | [] => (Ok size, (done, s))
  | t :: todo =>
    match checkTimeout ts (s, t) with
    | (Ok n, (s, t)) => hash_timeout_loop ts (size + n) todo (done ++ [t]) s
    | (o, (s, t)) => (o, (done ++ t :: todo, s))
    end
  end.
Definition hash_checkTimeout (ts : Z) : M HashTimedLruCache Z := λ h,
  let '(o, (l, s)) := hash_timeout_loop ts 0 (t_datas h) [] (t_status h) in
  (o, mkHashTimedLruCache l (t_maxSize h) (t_bucket h) (t_elasticity h) s).

Lemma hash_timeout_loop_spec ts todo : ∀ ls size before s,
  Forall2 trep todo ls →
  ∃ todo', hash_timeout_loop ts size todo before s =
      (Ok (size + Z.of_nat (length (filter (λ x, item_ts x ≤ ts) (concat ls)))), (before ++ todo', s)) ∧
    Forall2 trep todo' (filter (λ x, ¬ item_ts x ≤ ts) <$> ls).
Proof.
  induction todo as [|t todo IH]; intros ls size before s Hall; cbn [hash_timeout_loop].
  { apply Forall2_nil_inv_l in Hall as ->. exists []. cbn. rewrite Z.add_0_r, app_nil_r. done. }
  apply Forall2_cons_inv_l in Hall as (l & ls' & Ht & Hall & ->).
  destruct (checkTimeout_spec ts t l s Ht) as (xs & t' & -> & H1 & H2 & _).
  destruct (IH ls' (size + Z.of_nat (length xs)) (before ++ [t']) s Hall) as (todo' & -> & Hall').
  exists (t' :: todo'). split; [|by constructor]. cbn [concat]. rewrite filter_app, length_app, <- H2, <- app_assoc.
  f_equal. f_equal. lia.
Qed.

(** The sharded sweep returns the number of items over all buckets whose
    deadline is at most [ts], and leaves in every bucket exactly the others. *)
Theorem hash_checkTimeout_exact (ts : Z) (h : HashTimedLruCache) (ls : list (list item)) :
  Forall2 trep (t_datas h) ls →
  ∃ h', hash_checkTimeout ts h =
      (Ok (Z.of_nat (length (filter (λ x, item_ts x ≤ ts) (concat ls)))), h') ∧
    (λ t, (keys t).*2) <$> t_datas h' = filter (λ x, ¬ item_ts x ≤ ts) <$> ls ∧
    hash_tsize h' = Z.of_nat (length (filter (λ x, ¬ item_ts x ≤ ts) (concat ls))).
Proof.
  intros Hall. destruct (hash_timeout_loop_spec ts (t_datas h) ls 0 [] (t_status h) Hall) as (l & E & Hl).
  unfold hash_checkTimeout. rewrite E. eexists. split; [done|]. cbn [t_datas app]. unfold hash_tsize. cbn [t_datas].
  clear -Hl. revert l Hl. induction ls as [|x ls IH]; intros l Hl.
  - apply Forall2_nil_inv_r in Hl as ->. done.
  - apply Forall2_cons_inv_r in Hl as (t & l' & Ht & Hl & ->). destruct (IH l' Hl) as [IH1 IH2].
    cbn [fmap list_fmap concat foldr]. cbn in IH1, IH2. rewrite filter_app, length_app.
    pose proof (tr_lru _ _ Ht) as Hr. pose proof (rep_list _ _ Hr) as Hk.
    split; [f_equal; [exact Hk|exact IH1]|]. unfold tsize at 1. rewrite (rep_size _ _ Hr), Nat2Z.inj_add.
    f_equal. exact IH2.
Qed.
End hash.
End timed.

#[export] Instance Z_key_order : KeyOrder Z.
Proof.
  refine {| key_ltb := Z.ltb |}; intros *; rewrite ?Z.ltb_lt, ?Z.ltb_ge; try lia.
Defined.

Definition sample_tcalls : list (tcall (K := Z) (V := Z)) :=
  [TSet 100 1 10 50; TSet 100 2 20 30; TGet 1; TSet 110 3 30 5; TTimeout 130; TSet 140 1 11 100;
   TTimeout 200; TGet 1; TDel 1].

Lemma timed_lru_refines_witness :
  ∃ s' t', run_tcalls sample_tcalls (new_CacheStatus, new_TimedLruCache 2 1) =
      (Ok (spec_tcalls 2 1 sample_tcalls []).1, (s', t')) ∧
    (keys t').*2 = (spec_tcalls 2 1 sample_tcalls []).2 ∧
    (∀ id, id ∈ m_timed t' ↔ id ∈ (keys t').*1) ∧ length (m_timed t') = size (m_cache (lru t')).
Proof. apply (timed_lru_refines sample_tcalls 2 1 new_CacheStatus). lia. Defined.

Definition sample_timed : TimedLruCache (K := Z) (V := Z) :=
  with_lru (setPruneCallback true (new_LruCache 0 0)) (new_TimedLruCache 0 0).
Lemma sample_timed_rep : trep sample_timed [].
Proof. split; cbn; [by apply empty_rep|constructor|done]. Qed.

Definition sample_timed_set := (tset 5 1 10 20 (new_CacheStatus, sample_timed)).2.2.

Lemma sample_timed_set_rep : trep sample_timed_set [(1, (10, 25))].
Proof.
  destruct (tset_spec 5 1 10 20 sample_timed [] new_CacheStatus sample_timed_rep)
    as (s' & t' & E & Ht & _); [cbn; lia|].
  unfold sample_timed_set. rewrite E. exact Ht.
Qed.

Lemma checkTimeout_exact_witness :
  ∃ xs t', checkTimeout 25 (new_CacheStatus, sample_timed_set) =
      (Ok (Z.of_nat (length xs)), (new_CacheStatus, t')) ∧
    xs ≡ₚ filter (λ x, item_ts x ≤ 25) [(1, (10, 25))] ∧
    StronglySorted (λ x y, item_ts x ≤ item_ts y) xs ∧
    pruned (lru t') = pruned (lru sample_timed_set) ++ xs ∧
    (keys t').*2 = filter (λ x, ¬ item_ts x ≤ 25) [(1, (10, 25))] ∧
    (∀ k v, find_key k [(1, (10, 25))] = Some v →
       (∃ w, find_key k (keys t').*2 = Some w) ↔ 25 < v.2).
Proof. apply (checkTimeout_exact 25 sample_timed_set); [apply sample_timed_set_rep|done]. Defined.

Lemma hash_checkTimeout_exact_witness :
  let h := mkHashTimedLruCache [sample_timed_set; sample_timed] 0 2 0 new_CacheStatus in
  ∃ h', hash_checkTimeout 30 h =
      (Ok (Z.of_nat (length (filter (λ x, item_ts x ≤ 30) (concat [[(1, (10, 25))]; []])))), h') ∧
    (λ t, (keys t).*2) <$> t_datas h' = filter (λ x, ¬ item_ts x ≤ 30) <$> [[(1, (10, 25))]; []] ∧
    hash_tsize h' = Z.of_nat (length (filter (λ x, ¬ item_ts x ≤ 30) (concat [[(1, (10, 25))]; []]))).
Proof.
  apply hash_checkTimeout_exact. apply Forall2_cons. split; [apply sample_timed_set_rep|].
  apply Forall2_cons. split; [apply sample_timed_rep|constructor].
Defined.
