(* ===== verification/TimedCache.v ===== *)
(** * TimedCache (Helens/ds/timed_cache.h)

    Items live in a [std::set] ordered by deadline and key; [m_cache] maps a key
    to an iterator into it.  [set] on a key that is present leaves the old item
    in the set: the model keeps such leftovers, and the theorems say what they
    do. *)
From S2P Require Import Prelude OrderedSet NodeList CacheStatus LruCache TimedLruCache.

Section timed_cache.
Context {K V : Type} `{Countable K} `{KeyOrder K}.

(** A node of the set: identity, and key, value, deadline. *)
Abbreviation node := (nat * (K * (V * Z)))%type.

Record TimedCache := mkTimedCache {
  c_cache : gmap K nat;
  c_timed : list node;
  c_maxSize : Z;
  c_elasticity : Z;
  (** whether [m_cb] is set *)
  c_cb : bool;
  (** the calls [m_cb] received *)
  c_pruned : list (K * (V * Z));
  c_fresh : nat
}.
Abbreviation CacheM := (M (CacheStatus * TimedCache)).

Definition new_TimedCache (max_size elasticity : Z) : TimedCache :=
  mkTimedCache ∅ [] max_size elasticity false [] 0.
Definition c_allowed (c : TimedCache) : Z := u64 (c_maxSize c + c_elasticity c).

(** [Item::operator<] *)
Definition node_ltb (a b : node) : bool :=
  if negb (item_ts (a.2) =? item_ts (b.2)) then item_ts (a.2) <? item_ts (b.2)
  else key_ltb (a.2.1) (b.2.1).

Definition cstatus (f : CacheStatus → CacheStatus) : CacheM unit := modst (λ w, (f (w.1), w.2)).
Definition ccache : CacheM TimedCache := λ w, (Ok (w.2), w).
Definition put_ccache (c : TimedCache) : CacheM unit := modst (λ w, (w.1, c)).

(** [m_timed.insert(item).first]: the iterator of the element equivalent to
    [item], which is the new one only when there was none. *)
Definition timed_put (x : K * (V * Z)) (c : TimedCache) : nat * TimedCache :=
  let n := (c_fresh c, x) in
  let l := set_insert node_ltb n (c_timed c) in
  let id := match set_find node_ltb n (c_timed c) with
            | Some i => default (c_fresh c) (fst <$> c_timed c !! i)
            | None => c_fresh c
            end in
  (id, mkTimedCache (c_cache c) l (c_maxSize c) (c_elasticity c) (c_cb c) (c_pruned c) (S (c_fresh c))).

Definition with_ccache (m : gmap K nat) (c : TimedCache) : TimedCache :=
  mkTimedCache m (c_timed c) (c_maxSize c) (c_elasticity c) (c_cb c) (c_pruned c) (c_fresh c).
Definition with_ctimed (l : list node) (c : TimedCache) : TimedCache :=
  mkTimedCache (c_cache c) l (c_maxSize c) (c_elasticity c) (c_cb c) (c_pruned c) (c_fresh c).
(** Calling [m_cb] on an item, taking its key out of the map and the first node
    out of the set. *)
Definition drop_first (x : K * (V * Z)) (rest : list node) (c : TimedCache) : TimedCache :=
  mkTimedCache (delete (x.1) (c_cache c)) rest (c_maxSize c) (c_elasticity c)
    (c_cb c) (if c_cb c then c_pruned c ++ [x] else c_pruned c) (c_fresh c).

Fixpoint cprune_loop (fuel : nat) (count : Z) : CacheM Z :=
  let! c := ccache in
  if Z.of_nat (size (c_cache c)) <=? c_maxSize c then ret count else
  match fuel with
  | O => lift Fuel
  | S fuel =>
    match c_timed c with
    | [] => undef EmptyAccess
    | (_, x) :: rest => put_ccache (drop_first x rest c) ;;! cprune_loop fuel (count + 1)
    end
  end.
Definition cprune : CacheM Z :=
  let! c := ccache in
  if (c_maxSize c =? 0) || (Z.of_nat (size (c_cache c)) <? c_allowed c) then ret 0 else
  let! count := cprune_loop (S (length (c_timed c))) 0 in
  cstatus (incPrune count) ;;! ret count.

Definition cset (now : Z) (k : K) (v : V) (expired : Z) : CacheM unit :=
  cstatus (incSet 1) ;;!
  let! c := ccache in
  let c := match c_cache c !! k with Some _ => with_ccache (delete k (c_cache c)) c | None => c end in
  let (id, c) := timed_put (k, (v, u64 (expired + now))) c in
  put_ccache (with_ccache (<[k := id]> (c_cache c)) c) ;;!
  cprune ;;! ret tt.

Definition cget (k : K) : CacheM (option V) :=
  cstatus (incGet 1) ;;!
  let! c := ccache in
  match c_cache c !! k with
  | None => ret None
  | Some id =>
    let! x := lift (of_option OutOfBounds (node_get id (c_timed c))) in
    cstatus (incHit 1) ;;! ret (Some (x.2.1))
  end.

(** [del]: the path that found the key has no [return]. *)
Definition cdel (k : K) : CacheM bool :=
  cstatus (incDel 1) ;;!
  let! c := ccache in
  match c_cache c !! k with
  | None => ret false
  | Some id =>
    let! _ := lift (of_option OutOfBounds (node_get id (c_timed c))) in
    put_ccache (with_ccache (delete k (c_cache c)) (with_ctimed (node_erase id (c_timed c)) c)) ;;!
    cstatus (incHit 1) ;;! undef MissingReturn
  end.

Definition cexpired (now : Z) (k : K) (ts : Z) : CacheM bool :=
  let! c := ccache in
  match c_cache c !! k with
  | None => ret false
  | Some id =>
    let tts := u64 (ts + now) in
    let! x := lift (of_option OutOfBounds (node_get id (c_timed c))) in
    if item_ts x =? tts then ret true else
    let (id, c) := timed_put x (with_ctimed (node_erase id (c_timed c)) c) in
    put_ccache (with_ccache (<[k := id]> (c_cache c)) c) ;;! ret true
  end.

Definition cexists (k : K) (c : TimedCache) : bool := bool_decide (is_Some (c_cache c !! k)).
Definition csize (c : TimedCache) : Z := Z.of_nat (size (c_cache c)).
Definition cempty (c : TimedCache) : bool := bool_decide (c_cache c = ∅).
Definition cclear (c : TimedCache) : TimedCache := with_ccache ∅ (with_ctimed [] c).

Fixpoint ctimeout_loop (l : list node) (ts size : Z) (c : TimedCache) : Z * TimedCache :=
  match l with
  | [] => (size, c)
  | (_, x) :: rest =>
    if item_ts x <=? ts then ctimeout_loop rest ts (size + 1) (drop_first x rest c) else (size, c)
  end.
Definition ccheckTimeout (ts : Z) : CacheM Z :=
  let! c := ccache in
  let (n, c) := ctimeout_loop (c_timed c) ts 0 c in put_ccache c ;;! ret n.

Definition csetMaxSize (v : Z) (c : TimedCache) : TimedCache :=
  mkTimedCache (c_cache c) (c_timed c) v (c_elasticity c) (c_cb c) (c_pruned c) (c_fresh c).
Definition csetElasticity (v : Z) (c : TimedCache) : TimedCache :=
  mkTimedCache (c_cache c) (c_timed c) (c_maxSize c) v (c_cb c) (c_pruned c) (c_fresh c).
Definition csetPruneCallback (b : bool) (c : TimedCache) : TimedCache :=
  mkTimedCache (c_cache c) (c_timed c) (c_maxSize c) (c_elasticity c) b (c_pruned c) (c_fresh c).

(** ** The invariant *)
Definition node_before (a b : node) : Prop :=
  item_ts (a.2) < item_ts (b.2) ∨ (item_ts (a.2) = item_ts (b.2) ∧ key_ltb (a.2.1) (b.2.1) = true).

Lemma node_ltb_spec a b : node_ltb a b = true ↔ node_before a b.
Proof.
  unfold node_ltb, node_before. destruct (Z.eqb_spec (item_ts a.2) (item_ts b.2)); cbn [negb].
  - split; [by right|]. intros [?|[_ ?]]; [lia|done].
  - rewrite Z.ltb_lt. split; [by left|]. intros [?|[? _]]; [done|lia].
Qed.
Lemma node_before_irrefl a : ¬ node_before a a.
Proof. intros [?|[_ Hk]]; [lia|]. by rewrite key_irrefl in Hk. Qed.
Lemma node_before_trans a b c : node_before a b → node_before b c → node_before a c.
Proof.
  intros [?|[? ?]] [?|[? ?]]; [left; lia..|]. right. split; [lia|]. by eapply key_trans.
Qed.
Lemma node_equiv a b : ¬ node_before a b → ¬ node_before b a → a.2.1 = b.2.1 ∧ item_ts (a.2) = item_ts (b.2).
Proof.
  unfold node_before. intros H1 H2. assert (item_ts a.2 = item_ts b.2) by lia. split; [|done].
  apply key_total; apply not_true_is_false; intros E; [apply H1|apply H2]; right; by split.
Qed.

(** Sorted set, distinct nodes, and every iterator of the map designates a node
    that carries its key. *)
Record cache_ok (c : TimedCache) : Prop := {
  co_sorted : StronglySorted node_before (c_timed c);
  co_ids : NoDup ((c_timed c).*1);
  co_fresh id : id ∈ (c_timed c).*1 → (id < c_fresh c)%nat;
  co_map k id : c_cache c !! k = Some id → ∃ w, (id, (k, w)) ∈ c_timed c
}.

(** What the map and the set say of a key. *)
Definition view (c : TimedCache) (k : K) : option (V * Z) :=
  match c_cache c !! k with
  | Some id => snd <$> node_get id (c_timed c)
  | None => None
  end.

Lemma view_spec c k w :
  cache_ok c → view c k = Some w ↔ ∃ id, c_cache c !! k = Some id ∧ (id, (k, w)) ∈ c_timed c.
Proof.
  intros Hc. unfold view. destruct (c_cache c !! k) as [id|] eqn:E; [|naive_solver].
  destruct (co_map _ Hc k id E) as [w' Hw]. pose proof Hw as Hg.
  apply node_get_elem in Hg as ->; [|apply Hc]. cbn. split.
  - intros [= ->]. by exists id.
  - intros (id' & [= <-] & Hw'). apply node_get_elem in Hw, Hw'; try apply Hc. congruence.
Qed.
Lemma view_None c k : cache_ok c → view c k = None ↔ c_cache c !! k = None.
Proof.
  intros Hc. unfold view. destruct (c_cache c !! k) as [id|] eqn:E; [|done].
  destruct (co_map _ Hc k id E) as [w' Hw]. apply node_get_elem in Hw as ->; [|apply Hc]. done.
Qed.
Lemma view_node c k id : cache_ok c → c_cache c !! k = Some id →
  ∃ w, view c k = Some w ∧ node_get id (c_timed c) = Some (k, w) ∧ (id, (k, w)) ∈ c_timed c.
Proof.
  intros Hc E. destruct (co_map _ Hc k id E) as [w Hw]. exists w. split_and!; [|by apply node_get_elem; [apply Hc|]|done].
  apply view_spec; [done|]. by exists id.
Qed.

Lemma cache_ok_size c : cache_ok c → (size (c_cache c) ≤ length (c_timed c))%nat.
Proof.
  intros Hc. rewrite <- length_map_to_list.
  transitivity (length ((map_to_list (c_cache c)).*1)); [by rewrite length_fmap|].
  transitivity (length ((c_timed c).*2.*1)); [|by rewrite !length_fmap].
  apply submseteq_length, NoDup_submseteq; [apply NoDup_fst_map_to_list|].
  intros k Hk. apply list_elem_of_fmap in Hk as ([k' id] & -> & Hk). apply elem_of_map_to_list in Hk.
  destruct (co_map _ Hc _ _ Hk) as [w Hw]. apply list_elem_of_fmap. exists (k', w). split; [done|].
  apply list_elem_of_fmap. by exists (id, (k', w)).
Qed.

Lemma empty_ok m e : cache_ok (new_TimedCache m e).
Proof. split; cbn; [constructor|constructor|set_solver|]. intros k id. set_solver. Qed.

(** The fields a call does not touch play no part in the invariant. *)
Lemma cache_ok_ext c c' :
  c_cache c' = c_cache c → c_timed c' = c_timed c → (c_fresh c ≤ c_fresh c')%nat → cache_ok c → cache_ok c'.
Proof.
  intros E1 E2 Hf [H1 H2 H3 H4]. split; rewrite ?E1, ?E2; try done.
  intros id Hid. specialize (H3 id Hid). lia.
Qed.

(** Taking a key out of the map leaves its item behind. *)
Lemma forget_ok k c : cache_ok c → cache_ok (with_ccache (delete k (c_cache c)) c).
Proof. intros [H1 H2 H3 H4]. split; cbn; try done. intros k' id [_ Hl]%lookup_delete_Some. by apply H4. Qed.

Lemma node_erase_sorted (R : node → node → Prop) i (l : list node) a :
  node_get i l = Some a → NoDup (l.*1) → StronglySorted R l →
  StronglySorted R (node_erase i l) ∧ NoDup ((node_erase i l).*1).
Proof.
  intros Hg Hnd Hs. destruct (node_split i l a Hg Hnd) as (l1 & l2 & -> & -> & _). split.
  - apply StronglySorted_app_iff in Hs as (H1 & H2 & H3). apply StronglySorted_inv in H2 as [H2 _].
    apply StronglySorted_app_iff. split_and!; [done|done|]. intros. apply H3; set_solver.
  - rewrite fmap_app, fmap_cons in Hnd. rewrite fmap_app.
    apply NoDup_app in Hnd as (H1 & H2 & H3). apply NoDup_cons in H3 as [_ H3].
    apply NoDup_app. split_and!; [done| |done]. intros y Hy. specialize (H2 y Hy). set_solver.
Qed.

(** A live node belongs to one key. *)
Lemma live_inj c k k' id : cache_ok c → c_cache c !! k = Some id → c_cache c !! k' = Some id → k = k'.
Proof.
  intros Hc E E'. destruct (view_node c k id Hc E) as (? & _ & H1 & _).
  destruct (view_node c k' id Hc E') as (? & _ & H2 & _). congruence.
Qed.

Lemma erase_ok k id c :
  cache_ok c → c_cache c !! k = Some id →
  let c' := with_ccache (delete k (c_cache c)) (with_ctimed (node_erase id (c_timed c)) c) in
  cache_ok c' ∧ view c' k = None ∧ ∀ k', k' ≠ k → view c' k' = view c k'.
Proof.
  intros Hc E c'. destruct (view_node c k id Hc E) as (w & Hv & Hg & Hin).
  destruct (node_erase_sorted node_before id _ _ Hg (co_ids _ Hc) (co_sorted _ Hc)) as [Hs Hnd].
  assert (∀ k' id', k' ≠ k → c_cache c !! k' = Some id' → id' ≠ id) as Hne.
  { intros k' id' Hk E' ->. apply Hk. by eapply live_inj. }
  assert (cache_ok c') as Hc'.
  { split; cbn; [done|done| |].
    - intros i Hi. apply (co_fresh _ Hc). apply list_elem_of_fmap in Hi as (x & -> & Hx).
      apply node_erase_elem in Hx as [Hx _]; [|apply Hc]. apply list_elem_of_fmap. by exists x.
    - intros k' id' [Hk E']%lookup_delete_Some. destruct (co_map _ Hc _ _ E') as [w' Hw]. exists w'.
      apply node_erase_elem; [apply Hc|]. split; [done|]. cbn. by apply (Hne k'). }
  split_and!; [done| |].
  - apply view_None; [done|]. cbn. by rewrite lookup_delete_eq.
  - intros k' Hk. unfold view. cbn. rewrite lookup_delete_ne by done.
    destruct (c_cache c !! k') as [id'|] eqn:E'; [|done]. f_equal.
    apply node_get_erase_ne. by apply (Hne k').
Qed.

(** [m_cache[k] = m_timed.insert(item).first]: the item, or the one with the
    same key and deadline that was there. *)
Lemma timed_put_ok k v ts c :
  cache_ok c → ∃ id c' w,
    timed_put (k, (v, ts)) c = (id, c') ∧ c_cache c' = c_cache c ∧
    let c'' := with_ccache (<[k := id]> (c_cache c')) c' in
    cache_ok c'' ∧ view c'' k = Some w ∧ (∀ k', k' ≠ k → view c'' k' = view c k') ∧
    c_maxSize c'' = c_maxSize c ∧ c_elasticity c'' = c_elasticity c ∧
    w.2 = ts ∧
    ((w = (v, ts) ∧ (∀ id' v', (id', (k, (v', ts))) ∉ c_timed c) ∧ c_timed c'' ≡ₚ (id, (k, w)) :: c_timed c) ∨
     ((id, (k, w)) ∈ c_timed c ∧ c_timed c'' = c_timed c)).
Proof.
  intros Hc. set (n := (c_fresh c, (k, (v, ts)))).
  pose proof (set_insert_sorted _ _ node_ltb_spec node_before_trans n (c_timed c) (co_sorted _ Hc)) as Hs.
  destruct (set_insert_find _ _ node_ltb_spec node_before_trans n (c_timed c) (co_sorted _ Hc))
    as [(i & [id [k' w]] & Hf & Hi & H1 & H2 & Hins)|(Hf & Hp & Hn)].
  - destruct (node_equiv _ _ H1 H2) as [Ek Et]. cbn in Ek, Et. subst k'.
    apply list_elem_of_lookup_2 in Hi as Hin.
    exists id. unfold timed_put. fold n. rewrite Hf, Hi, Hins. cbn [fmap option_fmap option_map default fst].
    eexists _, w. split; [done|]. split; [done|]. cbn.
    assert (cache_ok (mkTimedCache (<[k:=id]> (c_cache c)) (c_timed c) (c_maxSize c) (c_elasticity c) (c_cb c)
              (c_pruned c) (S (c_fresh c)))) as Hc'.
    { destruct Hc as [G1 G2 G3 G4]. split; cbn; [done|done| |].
      - intros j Hj. specialize (G3 j Hj). lia.
      - intros k1 id1 [[<- <-]|[Hne E]]%lookup_insert_Some; [by exists w|by apply G4]. }
    split_and!; [done| | |done|done|done|by right].
    + apply view_spec; [done|]. exists id. cbn. by rewrite lookup_insert_eq.
    + intros k1 Hk. unfold view. cbn. by rewrite lookup_insert_ne by done.
  - exists (c_fresh c). unfold timed_put. fold n. rewrite Hf. eexists _, (v, ts).
    split; [done|]. split; [done|]. cbn.
    set (c' := with_ccache _ _).
    assert (c_fresh c ∉ (c_timed c).*1) as Hfr by (intros Hi; apply (co_fresh _ Hc) in Hi; lia).
    assert (NoDup ((set_insert node_ltb n (c_timed c)).*1)) as Hnd
      by (rewrite Hp; cbn; constructor; [done|apply Hc]).
    assert (cache_ok c') as Hc'.
    { split; cbn; [done|done| |].
      - intros j. rewrite Hp. cbn. intros [->|Hj]%elem_of_cons; [lia|]. apply (co_fresh _ Hc) in Hj. lia.
      - intros k1 id1 [[<- <-]|[Hne E]]%lookup_insert_Some.
        + exists (v, ts). rewrite Hp. by left.
        + destruct (co_map _ Hc _ _ E) as [w Hw]. exists w. rewrite Hp. by right. }
    split_and!; [done| | |done|done|done|left; split_and!; [done| |done]].
    + apply view_spec; [done|]. exists (c_fresh c). cbn. rewrite lookup_insert_eq. split; [done|]. rewrite Hp. by left.
    + intros k1 Hk. unfold view. cbn. rewrite lookup_insert_ne by done.
      destruct (c_cache c !! k1) as [id1|] eqn:E; [|done]. f_equal.
      rewrite (node_get_perm _ _ _ Hnd Hp). apply node_get_cons_ne.
      destruct (co_map _ Hc _ _ E) as [w Hw]. intros ->. apply Hfr, list_elem_of_fmap. by exists (c_fresh c, (k1, w)).
    + intros id' v' Hin. destruct (Hn _ Hin) as [[Hlt|[_ Hlt]]|[Hlt|[_ Hlt]]]; cbn in Hlt;
        try (unfold item_ts in Hlt; cbn in Hlt; lia); by rewrite key_irrefl in Hlt.
Qed.

(** Evicting the first node takes the entry of its key out of the map, live or
    not. *)
Lemma drop_first_ok id x rest c :
  cache_ok c → c_timed c = (id, x) :: rest →
  cache_ok (drop_first x rest c) ∧ view (drop_first x rest c) (x.1) = None ∧
  ∀ k, k ≠ x.1 → view (drop_first x rest c) k = view c k.
Proof.
  intros Hc Hl. pose proof Hc as [H1 H2 H3 H4]. rewrite Hl in H1, H2, H3, H4.
  cbn in H2. apply NoDup_cons in H2 as [Hid H2]. apply StronglySorted_inv in H1 as [H1 _].
  assert (∀ k id', k ≠ x.1 → c_cache c !! k = Some id' → id' ≠ id) as Hne.
  { intros k id' Hk E ->. destruct (H4 _ _ E) as [w [Ew|Hw]%elem_of_cons].
    - injection Ew as <-. done.
    - apply Hid, list_elem_of_fmap. by exists (id, (k, w)). }
  assert (cache_ok (drop_first x rest c)) as Hd.
  { split; cbn; [done|done| |].
    - intros i Hi. apply H3. cbn. by right.
    - intros k id' [Hk E]%lookup_delete_Some. destruct (H4 _ _ E) as [w [Ew|Hw]%elem_of_cons].
      + injection Ew as -> Ex. subst x. done.
      + by exists w. }
  split_and!; [done| |].
  - apply view_None; [done|]. cbn. by rewrite lookup_delete_eq.
  - intros k Hk. unfold view. cbn. rewrite lookup_delete_ne by done.
    destruct (c_cache c !! k) as [id'|] eqn:E; [|done]. f_equal. rewrite Hl. symmetry.
    destruct x as [kx wx]. apply node_get_cons_ne. by apply (Hne k).
Qed.

Definition shrinks (c c' : TimedCache) : Prop := ∀ k, view c' k = None ∨ view c' k = view c k.
#[local] Instance shrinks_preorder : PreOrder shrinks.
Proof.
  split; [intros c k; by right|]. intros c1 c2 c3 H1 H2 k.
  destruct (H1 k) as [E1|E1], (H2 k) as [E2|E2]; rewrite ?E2, ?E1; auto.
Qed.

Lemma drop_first_shrinks id x rest c :
  cache_ok c → c_timed c = (id, x) :: rest → shrinks c (drop_first x rest c).
Proof.
  intros Hc Hl k. destruct (drop_first_ok id x rest c Hc Hl) as (_ & H1 & H2).
  destruct (decide (k = x.1)) as [->|]; [by left|right; auto].
Qed.

(** The pruning loop never runs off the set, whose length is enough fuel. *)
Lemma cprune_loop_ok fuel : ∀ count s c,
  cache_ok c → (length (c_timed c) < fuel)%nat → 0 ≤ c_maxSize c →
  ∃ n c', cprune_loop fuel count (s, c) = (Ok n, (s, c')) ∧ cache_ok c' ∧ shrinks c c' ∧
    Z.of_nat (size (c_cache c')) ≤ c_maxSize c' ∧ c_maxSize c' = c_maxSize c ∧ c_elasticity c' = c_elasticity c.
Proof.
  induction fuel as [|fuel IH]; intros count s c Hc Hf Hm; [lia|]. cbn [cprune_loop].
  unfold bind, ccache. cbn [snd].
  destruct (Z.leb_spec (Z.of_nat (size (c_cache c))) (c_maxSize c)) as [Hle|Hgt].
  { exists count, c. split_and!; try done. }
  pose proof (cache_ok_size c Hc) as Hsz. destruct (c_timed c) as [|[id x] rest] eqn:El; cbn in Hsz; [lia|].
  destruct (drop_first_ok id x rest c Hc El) as (Hd & _).
  edestruct (IH (count + 1) s (drop_first x rest c)) as (n & c' & E & H1 & H2 & H3 & H4 & H5);
    [done|cbn in Hf |- *; lia|done|].
  exists n, c'. split_and!; [exact E|done| |done|done|done].
  etrans; [by eapply drop_first_shrinks|done].
Qed.

Lemma cprune_ok s c :
  cache_ok c → 0 ≤ c_maxSize c →
  ∃ n s' c', cprune (s, c) = (Ok n, (s', c')) ∧ cache_ok c' ∧ shrinks c c' ∧
    c_maxSize c' = c_maxSize c ∧ c_elasticity c' = c_elasticity c ∧
    (c_maxSize c = 0 → c' = c) ∧
    (0 < c_maxSize c → Z.of_nat (size (c_cache c')) < c_allowed c ∨ Z.of_nat (size (c_cache c')) ≤ c_maxSize c).
Proof.
  intros Hc Hm. unfold cprune. unfold bind at 1, ccache. cbn [snd].
  destruct (Z.eqb_spec (c_maxSize c) 0) as [E0|E0]; cbn [orb].
  { exists 0, s, c. split_and!; try done. lia. }
  destruct (Z.ltb_spec (Z.of_nat (size (c_cache c))) (c_allowed c)) as [Hlt|Hge].
  { exists 0, s, c. split_and!; try done. by left. }
  destruct (cprune_loop_ok (S (length (c_timed c))) 0 s c) as (n & c' & E & H1 & H2 & H3 & H4 & H5); [done|lia|lia|].
  unfold bind. rewrite E. cbn. exists n, (incPrune n s), c'. split_and!; try done. intros _. right. lia.
Qed.

(** ** What the operations do *)
Lemma cset_ok now k v e s c :
  cache_ok c → 0 ≤ c_maxSize c →
  ∃ s' c', cset now k v e (s, c) = (Ok tt, (s', c')) ∧ cache_ok c' ∧ c_maxSize c' = c_maxSize c ∧
    (∀ k', k' ≠ k → view c' k' = None ∨ view c' k' = view c k') ∧
    (c_maxSize c = 0 → (∀ k', k' ≠ k → view c' k' = view c k') ∧
       ∃ w, view c' k = Some w ∧ w.2 = u64 (e + now) ∧
         ((∀ id v', (id, (k, (v', u64 (e + now)))) ∉ c_timed c) ∧ w.1 = v ∨
          ∃ id, (id, (k, w)) ∈ c_timed c)) ∧
    (0 < c_maxSize c → Z.of_nat (size (c_cache c')) < c_allowed c ∨ Z.of_nat (size (c_cache c')) ≤ c_maxSize c).
Proof.
  intros Hc Hm. unfold cset, cstatus. unfold bind at 1, modst. unfold bind at 1, ccache. cbn [fst snd].
  set (c1 := match c_cache c !! k with Some _ => _ | None => c end).
  assert (cache_ok c1) as Hc1 by (subst c1; destruct (c_cache c !! k); [by apply forget_ok|done]).
  assert (c_timed c1 = c_timed c ∧ c_maxSize c1 = c_maxSize c ∧ c_elasticity c1 = c_elasticity c) as (Et & Em & Ee)
    by (subst c1; by destruct (c_cache c !! k)).
  assert (∀ k', k' ≠ k → view c1 k' = view c k') as Hv1.
  { intros k' Hk. subst c1. destruct (c_cache c !! k); [|done]. unfold view. cbn. by rewrite lookup_delete_ne. }
  destruct (timed_put_ok k v (u64 (e + now)) c1 Hc1) as (id & c2 & w & -> & _ & H2). cbn zeta in H2.
  set (c3 := with_ccache _ c2) in *. destruct H2 as (Hc3 & Hv & Hv' & Em3 & Ee3 & Hw & Hcase).
  unfold bind at 1, put_ccache, modst. cbn [fst snd]. fold c3.
  edestruct (cprune_ok (incSet 1 s) c3) as (n & s' & c' & E & Hc' & Hsh & Em' & Ee' & Hz & Hb); [done|lia|].
  unfold bind. rewrite E. exists s', c'. unfold c_allowed in *. rewrite Em3, Ee3, Em, Ee in *.
  split_and!; [done|done|lia| | |done].
  - intros k' Hk. destruct (Hsh k') as [?|Hs]; [by left|right]. rewrite Hs, Hv', Hv1; done.
  - intros E0. rewrite (Hz E0). split; [intros k' Hk; rewrite Hv', Hv1; done|]. exists w.
    split_and!; [done|done|]. rewrite Et in Hcase. destruct Hcase as [(-> & Hn & _)|[Hin _]]; [by left|right; by exists id].
Qed.

Lemma cget_ok k s c :
  cache_ok c → cget k (s, c) =
    (Ok (fst <$> view c k), ((if bool_decide (is_Some (view c k)) then incHit 1 else id) (incGet 1 s), c)).
Proof.
  intros Hc. unfold cget, cstatus. unfold bind at 1, modst. unfold bind at 1, ccache. cbn [fst snd].
  destruct (c_cache c !! k) as [i|] eqn:E.
  - destruct (view_node c k i Hc E) as (w & -> & Hg & _). unfold bind, lift. by rewrite Hg.
  - rewrite (proj2 (view_None c k Hc) E). done.
Qed.


(** A set holds one item per key and deadline. *)
Lemma cache_ok_unique c x y :
  cache_ok c → x ∈ c_timed c → y ∈ c_timed c → x.2.1 = y.2.1 → item_ts (x.2) = item_ts (y.2) → x = y.
Proof.
  intros Hc Hx Hy Ek Et. assert (x = y ∨ node_before x y ∨ node_before y x) as [?|Hb].
  { pose proof (co_sorted _ Hc) as Hs. induction Hs as [|z l Hs IH Hf]; [set_solver|].
    rewrite Forall_forall in Hf. apply elem_of_cons in Hx as [->|Hx], Hy as [->|Hy]; auto. }
  - done.
  - unfold node_before in Hb. rewrite <- Ek, <- Et, key_irrefl in Hb. naive_solver lia.
Qed.

Lemma timed_put_cache x m c :
  timed_put x (with_ccache m c) = ((timed_put x c).1, with_ccache m (timed_put x c).2).
Proof. done. Qed.
Lemma with_ccache_twice m m' c : with_ccache m (with_ccache m' c) = with_ccache m c.
Proof. done. Qed.

Lemma cexpired_ok now k ts s c :
  cache_ok c → ∃ c', cexpired now k ts (s, c) = (Ok (bool_decide (is_Some (view c k))), (s, c')) ∧ cache_ok c' ∧
    (∀ k', view c' k' = view c k') ∧ c_maxSize c' = c_maxSize c ∧ c_elasticity c' = c_elasticity c.
Proof.
  intros Hc. unfold cexpired. unfold bind at 1, ccache. cbn [fst snd].
  destruct (c_cache c !! k) as [i|] eqn:E; [|exists c; rewrite (proj2 (view_None c k Hc) E); done].
  destruct (view_node c k i Hc E) as (w & Hv & Hg & Hin). rewrite Hv, bool_decide_true by done.
  unfold bind at 1, lift. rewrite Hg. cbn [of_option].
  destruct (item_ts (k, w) =? u64 (ts + now)); [by exists c|].
  destruct (erase_ok k i c Hc E) as (Hc1 & Hv1 & Hv1'). cbn zeta in Hc1, Hv1, Hv1'.
  destruct w as [v t]. edestruct (timed_put_ok k v t) as (id & c2 & w & Ep & Ec & H2); [exact Hc1|].
  cbn zeta in H2. rewrite timed_put_cache in Ep.
  destruct (timed_put (k, (v, t)) (with_ctimed (node_erase i (c_timed c)) c)) as [id' c0] eqn:Ep0.
  injection Ep as -> <-. destruct H2 as (Hc3 & Hv3 & Hv3' & Em & Ee & Hw & Hcase).
  rewrite !with_ccache_twice in *. cbn [c_cache with_ccache] in *.
  assert (c_cache c0 = c_cache c) as -> by (unfold timed_put in Ep0; by injection Ep0 as _ <-).
  clear Ep0. rewrite insert_delete_eq in *. eexists. split; [done|].
  split_and!; [done| |done|done]. intros k'. destruct (decide (k' = k)) as [->|Hk].
  - rewrite Hv. rewrite Hv3. f_equal. destruct Hcase as [[-> _]|[Hin' _]]; [done|].
    apply node_erase_elem in Hin' as [Hin' Hne]; [|apply Hc].
    pose proof (cache_ok_unique c _ _ Hc Hin Hin' eq_refl) as Hu. unfold item_ts in Hu. cbn in Hu.
    specialize (Hu (eq_sym Hw)). by injection Hu as _ <-.
  - rewrite Hv3' by done. by apply Hv1'.
Qed.

Lemma cdel_ok k s c :
  cache_ok c →
  (view c k = None ∧ cdel k (s, c) = (Ok false, (incDel 1 s, c))) ∨
  (is_Some (view c k) ∧ ∃ s' c', cdel k (s, c) = (Undef MissingReturn, (s', c')) ∧ cache_ok c' ∧ view c' k = None ∧
    (∀ k', k' ≠ k → view c' k' = view c k') ∧ c_maxSize c' = c_maxSize c).
Proof.
  intros Hc. unfold cdel, cstatus, bind, modst, ccache, lift. cbn [fst snd].
  destruct (c_cache c !! k) as [i|] eqn:E; [|left; by rewrite (proj2 (view_None c k Hc) E)].
  right. destruct (view_node c k i Hc E) as (w & -> & -> & Hin). split; [done|].
  destruct (erase_ok k i c Hc E) as (Hc1 & Hv1 & Hv1').
  eexists _, _. split; [done|]. split_and!; done.
Qed.

Lemma ctimeout_loop_ok ts l : ∀ n c,
  cache_ok c → c_timed c = l →
  ∃ xs rest c', l = xs ++ rest ∧ Forall (λ x, item_ts (x.2) ≤ ts) xs ∧ Forall (λ x, ts < item_ts (x.2)) rest ∧
    ctimeout_loop l ts n c = (n + Z.of_nat (length xs), c') ∧ cache_ok c' ∧ c_timed c' = rest ∧
    c_maxSize c' = c_maxSize c ∧ c_cb c' = c_cb c ∧
    c_pruned c' = (if c_cb c then c_pruned c ++ xs.*2 else c_pruned c) ∧
    (∀ k, (k ∈ xs.*2.*1 → view c' k = None) ∧ (k ∉ xs.*2.*1 → view c' k = view c k)).
Proof.
  induction l as [|[id x] l IH]; intros n c Hc Hl; cbn [ctimeout_loop].
  { exists [], [], c. cbn. rewrite Z.add_0_r, app_nil_r. split_and!; try done; try constructor; try done; [by destruct (c_cb c)|set_solver]. }
  destruct (Z.leb_spec (item_ts x) ts) as [Hle|Hgt].
  - destruct (drop_first_ok id x l c Hc Hl) as (Hd & Hv & Hv').
    destruct (IH (n + 1) (drop_first x l c) Hd eq_refl) as (xs & rest & c' & -> & H1 & H2 & E & H3 & H4 & H5 & H6 & H7 & H8).
    exists ((id, x) :: xs), rest, c'. rewrite E. cbn [length fmap list_fmap snd].
    split_and!; [done|by constructor|done|f_equal; lia|done|done|done|done| |].
    + rewrite H7. cbn. destruct (c_cb c); [|done]. by rewrite <- app_assoc.
    + intros k. destruct (H8 k) as [G1 G2]. rewrite elem_of_cons. split.
      * destruct (decide (k ∈ xs.*2.*1)) as [Hin|Hin]; [by auto|]. intros [->|?]; [|done]. rewrite G2; done.
      * intros Hn. rewrite G2 by tauto. apply Hv'. tauto.
  - exists [], ((id, x) :: l), c. cbn. rewrite Z.add_0_r, app_nil_r.
    split_and!; try done; try constructor; try done; [| by destruct (c_cb c)|set_solver].
    pose proof (co_sorted _ Hc) as Hs. rewrite Hl in Hs. apply StronglySorted_inv in Hs as [_ Hf].
    eapply Forall_impl; [exact Hf|]. cbn. intros y [?|[? _]]; cbn in *; lia.
Qed.

(** The items whose deadline is at most [ts], by deadline. *)
Definition due (ts : Z) (c : TimedCache) : list (K * (V * Z)) := filter (λ x, item_ts x ≤ ts) (c_timed c).*2.

Lemma due_split ts c xs rest :
  c_timed c = xs ++ rest → Forall (λ x, item_ts (x.2) ≤ ts) xs → Forall (λ x, ts < item_ts (x.2)) rest →
  due ts c = xs.*2 ∧ filter (λ x, ¬ item_ts x ≤ ts) (c_timed c).*2 = rest.*2.
Proof.
  intros El Hxs Hrest. unfold due.
  assert (∀ x, x ∈ xs.*2 → item_ts x ≤ ts) as H1.
  { intros x Hx. apply list_elem_of_fmap in Hx as (y & -> & Hy). rewrite Forall_forall in Hxs. by apply Hxs. }
  assert (∀ x, x ∈ rest.*2 → ¬ item_ts x ≤ ts) as H2.
  { intros x Hx. apply list_elem_of_fmap in Hx as (y & -> & Hy). rewrite Forall_forall in Hrest.
    specialize (Hrest _ Hy). cbn in Hrest. lia. }
  rewrite El, fmap_app, !filter_app. split.
  - by rewrite filter_all, filter_none, app_nil_r by done.
  - rewrite filter_none, filter_all; [done|done|]. intros x Hx. specialize (H1 x Hx). tauto.
Qed.

(** ** Sequences of calls *)
Inductive ccall :=
| CSet (now : Z) (k : K) (v : V) (expired : Z)
| CGet (k : K)
| CDel (k : K)
| CExpired (now : Z) (k : K) (ts : Z)
| CTimeout (ts : Z)
| CClear
| CMaxSize (v : Z)
| CElasticity (v : Z).
Definition ccall_ok (o : ccall) : Prop := match o with CMaxSize v => 0 ≤ v | _ => True end.
Definition is_del (o : ccall) : bool := match o with CDel _ => true | _ => false end.

Definition run_ccall (o : ccall) : CacheM unit :=
  match o with
  | CSet now k v e => cset now k v e
  | CGet k => cget k ;;! ret tt
  | CDel k => cdel k ;;! ret tt
  | CExpired now k ts => cexpired now k ts ;;! ret tt
  | CTimeout ts => ccheckTimeout ts ;;! ret tt
  | CClear => let! c := ccache in put_ccache (cclear c)
  | CMaxSize v => let! c := ccache in put_ccache (csetMaxSize v c)
  | CElasticity v => let! c := ccache in put_ccache (csetElasticity v c)
  end.
Fixpoint run_ccalls (l : list ccall) : CacheM unit :=
  match l with [] => ret tt | o :: l => run_ccall o ;;! run_ccalls l end.

Lemma run_ccall_ok o s c :
  ccall_ok o → cache_ok c → 0 ≤ c_maxSize c →
  ∃ r s' c', run_ccall o (s, c) = (r, (s', c')) ∧ cache_ok c' ∧ 0 ≤ c_maxSize c' ∧
    (r = Ok tt ∨ (r = Undef MissingReturn ∧ ∃ k, o = CDel k ∧ is_Some (view c k))).
Proof.
  intros Ho Hc Hm. destruct o as [now k v e|k|k|now k ts|ts| |v|v]; cbn [run_ccall].
  - destruct (cset_ok now k v e s c Hc Hm) as (s' & c' & E & H1 & H2 & _). exists (Ok tt), s', c'.
    split_and!; [done|done|lia|by left].
  - unfold bind. rewrite cget_ok by done. eexists _, _, c. split; [done|]. by auto.
  - unfold bind. destruct (cdel_ok k s c Hc) as [[_ ->]|(Hv & s' & c' & -> & H1 & _ & _ & H2)].
    + eexists _, _, c. split; [done|]. auto.
    + eexists _, s', c'. split; [done|]. split_and!; [done|lia|]. right. split; [done|]. by exists k.
  - unfold bind. destruct (cexpired_ok now k ts s c Hc) as (c' & -> & H1 & _ & H2 & _).
    eexists _, s, c'. split; [done|]. split_and!; [done|lia|by left].
  - unfold ccheckTimeout. destruct (ctimeout_loop_ok ts (c_timed c) 0 c Hc eq_refl)
      as (xs & rest & c' & _ & _ & _ & E & H1 & _ & H2 & _).
    unfold bind, ccache, put_ccache, modst. cbn [snd fst]. rewrite E. eexists _, s, c'. split; [done|].
    split_and!; [done|lia|by left].
  - eexists _, s, (cclear c). split; [done|]. split_and!; [|done|by left].
    split; cbn; [constructor|constructor|set_solver|]. intros k id. by rewrite lookup_empty.
  - eexists _, s, (csetMaxSize v c). split; [done|]. split_and!; [by apply (cache_ok_ext c)|done|by left].
  - eexists _, s, (csetElasticity v c). split; [done|]. split_and!; [by apply (cache_ok_ext c)|done|by left].
Qed.

Lemma run_ccalls_ok l : ∀ s c,
  Forall ccall_ok l → cache_ok c → 0 ≤ c_maxSize c →
  ∃ r s' c', run_ccalls l (s, c) = (r, (s', c')) ∧ cache_ok c' ∧ 0 ≤ c_maxSize c' ∧
    (r = Ok tt ∨ (r = Undef MissingReturn ∧ existsb is_del l = true)).
Proof.
  induction l as [|o l IH]; intros s c Hl Hc Hm; cbn [run_ccalls].
  { eexists _, s, c. split; [done|]. auto. }
  apply Forall_cons in Hl as [Ho Hl].
  destruct (run_ccall_ok o s c Ho Hc Hm) as (r & s1 & c1 & E & H1 & H2 & Hr). unfold bind. rewrite E.
  destruct Hr as [->|(-> & k & -> & _)].
  - destruct (IH s1 c1 Hl H1 H2) as (r & s' & c' & -> & H3 & H4 & Hr).
    eexists _, s', c'. split; [done|]. split_and!; [done|done|]. cbn [existsb].
    destruct Hr as [->|[-> ->]]; [by left|right]. by rewrite orb_true_r.
  - eexists _, s1, c1. split; [done|]. split_and!; [done|done|]. by right.
Qed.

(** No sequence of calls makes a [TimedCache] follow an invalid iterator or
    run off its set: every iterator in the map designates an item of the set
    that carries its key, and the only call whose behaviour the language leaves
    undefined is a [del] that found its key. *)
Theorem timed_cache_safe (l : list ccall) (max_size elasticity : Z) (s : CacheStatus) :
  0 ≤ max_size → Forall ccall_ok l →
  ∃ r s' c', run_ccalls l (s, new_TimedCache max_size elasticity) = (r, (s', c')) ∧
    (r = Ok tt ∨ r = Undef MissingReturn ∧ existsb is_del l = true) ∧
    (∀ k id, c_cache c' !! k = Some id → ∃ v ts, node_get id (c_timed c') = Some (k, (v, ts))) ∧
    (size (c_cache c') ≤ length (c_timed c'))%nat ∧
    StronglySorted (λ a b, item_ts (a.2) ≤ item_ts (b.2)) (c_timed c').
Proof.
  intros Hm Hl. destruct (run_ccalls_ok l s (new_TimedCache max_size elasticity) Hl (empty_ok _ _) Hm)
    as (r & s' & c' & E & Hc & _ & Hr).
  exists r, s', c'. split_and!; [done|done| |by apply cache_ok_size|].
  - intros k id Hk. destruct (view_node c' k id Hc Hk) as ([v ts] & _ & Hg & _). by exists v, ts.
  - eapply sorted_change; [|apply (co_sorted _ Hc)]. intros x y _ _ [?|[? _]]; lia.
Qed.

(** After [set] on a cache without size limit, [get] of that key answers the
    value just set, unless the set still holds an item with the same key and
    the same deadline, whose value it answers instead; [expired] then answers
    true and changes neither value nor deadline of any key; other keys keep
    what they had. *)
Theorem timed_cache_set_expired_get (now k' : Z) (k : K) (v : V) (e now' ts : Z) (s : CacheStatus) (c : TimedCache) :
  cache_ok c → c_maxSize c = 0 →
  let deadline := u64 (e + now) in
  ∃ s1 c1 c2 s2 w,
    cset now k v e (s, c) = (Ok tt, (s1, c1)) ∧
    cexpired now' k ts (s1, c1) = (Ok true, (s1, c2)) ∧
    cget k (s1, c2) = (Ok (Some w), (s2, c2)) ∧
    view c2 k = Some (w, deadline) ∧
    (w = v ∨ ∃ id, (id, (k, (w, deadline))) ∈ c_timed c) ∧
    ((∀ id v', (id, (k, (v', deadline))) ∉ c_timed c) → w = v) ∧
    ∀ k', k' ≠ k → view c2 k' = view c k'.
Proof.
  intros Hc Hm deadline. destruct (cset_ok now k v e s c Hc) as (s1 & c1 & E & Hc1 & Em & _ & Hz & _); [lia|].
  destruct (Hz Hm) as (Hv' & [w t] & Hv & Hw & Hcase). cbn in Hw, Hcase. fold deadline in Hw, Hcase. clearbody deadline. subst t.
  destruct (cexpired_ok now' k ts s1 c1 Hc1) as (c2 & E2 & Hc2 & Hv2 & _).
  rewrite Hv, bool_decide_true in E2 by done.
  exists s1, c1, c2. rewrite (cget_ok k s1 c2 Hc2), Hv2, Hv. eexists _, w. split; [exact E|].
  split; [exact E2|]. split; [done|]. split; [done|]. split_and!.
  - destruct Hcase as [[_ ->]|?]; auto.
  - intros Hn. destruct Hcase as [[_ ->]|[id Hid]]; [done|]. by apply Hn in Hid.
  - intros k1 Hk. rewrite Hv2. by apply Hv'.
Qed.

(** [checkTimeout ts] takes every item whose deadline is at most [ts] out of
    the set, gives them to the prune callback in order of deadline, counts
    them, and drops exactly the keys that occur in one of them - also a key
    whose current item expires later but that still has an older item in the
    set. *)
Theorem ccheckTimeout_exact (ts : Z) (s : CacheStatus) (c : TimedCache) :
  cache_ok c →
  ∃ c', ccheckTimeout ts (s, c) = (Ok (Z.of_nat (length (due ts c))), (s, c')) ∧ cache_ok c' ∧
    (c_timed c').*2 = filter (λ x, ¬ item_ts x ≤ ts) (c_timed c).*2 ∧
    c_pruned c' = (if c_cb c then c_pruned c ++ due ts c else c_pruned c) ∧
    (∀ k, view c' k = if decide (k ∈ (due ts c).*1) then None else view c k).
Proof.
  intros Hc. destruct (ctimeout_loop_ok ts (c_timed c) 0 c Hc eq_refl)
    as (xs & rest & c' & El & Hxs & Hrest & E & Hc' & Et & Em & Ecb & Ep & Hv).
  destruct (due_split ts c xs rest El Hxs Hrest) as [-> ->]. exists c'. split_and!.
  - unfold ccheckTimeout, bind, ccache, put_ccache, modst. cbn [snd fst]. rewrite E. cbn. by rewrite length_fmap.
  - done.
  - by rewrite Et.
  - done.
  - intros k. destruct (Hv k) as [H1 H2]. case_decide; auto.
Qed.

(** ** HashTimedCache *)
Section hash.
Context (m_hash : K → Z).

Record HashTimedCache := mkHashTimedCache {
  hc_datas : list TimedCache; hc_maxSize : Z; hc_bucket : Z; hc_elasticity : Z; hc_status : CacheStatus }.

Definition new_HashTimedCache (bucket max_size elasticity : Z) : HashTimedCache :=
  let pre_max_size := ceil_div max_size bucket in
  let pre_elasiticity := ceil_div elasticity bucket in
  mkHashTimedCache (replicate (Z.to_nat bucket) (new_TimedCache pre_max_size pre_elasiticity))
    (pre_max_size * bucket) bucket (pre_elasiticity * bucket) new_CacheStatus.

(** [m_datas[m_hash(k) % m_bucket]->op] *)
Definition on_cbucket {A} (k : K) (op : CacheM A) : M HashTimedCache A := λ h,
  if hc_bucket h =? 0 then (Undef DivByZero, h) else
  let i := Z.to_nat (m_hash k mod hc_bucket h) in
  match hc_datas h !! i with
  | None => (Undef OutOfBounds, h)
  | Some c =>
    let '(o, (s, c)) := op (hc_status h, c) in
    (o, mkHashTimedCache (<[i := c]> (hc_datas h)) (hc_maxSize h) (hc_bucket h) (hc_elasticity h) s)
  end.
Definition hash_cset (now : Z) (k : K) (v : V) (expired : Z) : M HashTimedCache unit :=
  on_cbucket k (cset now k v expired).
Definition hash_cexpired (now : Z) (k : K) (ts : Z) : M HashTimedCache bool := on_cbucket k (cexpired now k ts).
Definition hash_cget (k : K) : M HashTimedCache (option V) := on_cbucket k (cget k).
Definition hash_cdel (k : K) : M HashTimedCache bool := on_cbucket k (cdel k).
Definition hash_cexists (k : K) : M HashTimedCache bool := on_cbucket k (let! c := ccache in ret (cexists k c)).
Definition hash_csize (h : HashTimedCache) : Z := foldr Z.add 0 (csize <$> hc_datas h).
Definition hash_cempty (h : HashTimedCache) : bool := forallb cempty (hc_datas h).
Definition with_hdatas (f : TimedCache → TimedCache) (h : HashTimedCache) : HashTimedCache :=
  mkHashTimedCache (f <$> hc_datas h) (hc_maxSize h) (hc_bucket h) (hc_elasticity h) (hc_status h).
Definition hash_cclear : HashTimedCache → HashTimedCache := with_hdatas cclear.
Definition hash_csetPruneCallback (b : bool) : HashTimedCache → HashTimedCache := with_hdatas (csetPruneCallback b).
Definition hash_csetMaxSize (v : Z) (h : HashTimedCache) : HashTimedCache :=
  let pre_max_size := ceil_div v (hc_bucket h) in
  mkHashTimedCache (csetMaxSize pre_max_size <$> hc_datas h) (pre_max_size * hc_bucket h)
    (hc_bucket h) (hc_elasticity h) (hc_status h).
Definition hash_csetElasticity (v : Z) (h : HashTimedCache) : HashTimedCache :=
  let pre_elasiticity := ceil_div v (hc_bucket h) in
  mkHashTimedCache (csetElasticity pre_elasiticity <$> hc_datas h) (hc_maxSize h)
    (hc_bucket h) (pre_elasiticity * hc_bucket h) (hc_status h).
(** [checkTimeout] over the caches in turn. *)
Fixpoint hash_ctimeout_loop (ts size : Z) (l : list TimedCache) : Z * list TimedCache :=
  match l with
  | [] => (size, [])
  | c :: l =>
    let (n, c) := ctimeout_loop (c_timed c) ts 0 c in
    let (size, l) := hash_ctimeout_loop ts (size + n) l in (size, c :: l)
  end.
Definition hash_ccheckTimeout (ts : Z) (h : HashTimedCache) : Z * HashTimedCache :=
  let (n, l) := hash_ctimeout_loop ts 0 (hc_datas h) in
  (n, mkHashTimedCache l (hc_maxSize h) (hc_bucket h) (hc_elasticity h) (hc_status h)).

(** The caches of a hash cache are well formed, and there is one per bucket. *)
Definition hash_ok (h : HashTimedCache) : Prop :=
  0 < hc_bucket h ∧ length (hc_datas h) = Z.to_nat (hc_bucket h) ∧
  Forall (λ c, cache_ok c ∧ 0 ≤ c_maxSize c) (hc_datas h).
Definition hash_view (h : HashTimedCache) (k : K) : option (V * Z) :=
  match hc_datas h !! Z.to_nat (m_hash k mod hc_bucket h) with Some c => view c k | None => None end.

Lemma new_hash_ok bucket max_size elasticity :
  0 < bucket → 0 ≤ max_size → hash_ok (new_HashTimedCache bucket max_size elasticity).
Proof.
  intros Hb Hm. split_and!; [done|by cbn; rewrite length_replicate|]. cbn. apply Forall_replicate.
  split; [apply empty_ok|]. cbn. unfold ceil_div. apply Z.div_pos; lia.
Qed.

Lemma hash_timeout_ok ts l : ∀ size,
  Forall (λ c, cache_ok c ∧ 0 ≤ c_maxSize c) l →
  ∃ l', hash_ctimeout_loop ts size l = (size + Z.of_nat (length (concat (due ts <$> l))), l') ∧
    Forall2 (λ c c', cache_ok c' ∧ 0 ≤ c_maxSize c' ∧
      ∀ k, view c' k = if decide (k ∈ (due ts c).*1) then None else view c k) l l'.
Proof.
  induction l as [|c l IH]; intros size Hl; cbn [hash_ctimeout_loop].
  { exists []. split; [f_equal; cbn; lia|constructor]. }
  apply Forall_cons in Hl as [[Hc Hm] Hl].
  destruct (ctimeout_loop_ok ts (c_timed c) 0 c Hc eq_refl)
    as (xs & rest & c' & El & Hxs & Hrest & -> & Hc' & Et & Em & _ & _ & Hv).
  destruct (due_split ts c xs rest El Hxs Hrest) as [Hg _].
  edestruct (IH (size + (0 + Z.of_nat (length xs))) Hl) as (l' & -> & Hl'). exists (c' :: l'). split.
  - f_equal. cbn [fmap list_fmap concat]. rewrite Hg, length_app, length_fmap. lia.
  - constructor; [|done]. split_and!; [done|lia|]. intros k. rewrite Hg. destruct (Hv k). case_decide; auto.
Qed.

(** The sharded cache: [checkTimeout ts] answers how many items over all
    buckets have a deadline of at most [ts], and afterwards a key answers what
    it did before, or nothing when an item of its bucket with that key and
    such a deadline was there. *)
Theorem hash_ccheckTimeout_exact (ts : Z) (h : HashTimedCache) :
  hash_ok h →
  ∃ h', hash_ccheckTimeout ts h = (Z.of_nat (length (concat (due ts <$> hc_datas h))), h') ∧ hash_ok h' ∧
    ∀ k c, hc_datas h !! Z.to_nat (m_hash k mod hc_bucket h) = Some c →
      hash_view h' k = if decide (k ∈ (due ts c).*1) then None else hash_view h k.
Proof.
  intros (Hb & Hn & Hl). destruct (hash_timeout_ok ts (hc_datas h) 0 Hl) as (l' & E & Hl').
  unfold hash_ccheckTimeout. rewrite E. eexists. split; [done|]. split.
  - split_and!; cbn; [done|by rewrite <- (Forall2_length _ _ _ Hl')|].
    clear -Hl'. induction Hl'; constructor; naive_solver.
  - intros k c Hc. unfold hash_view. cbn. rewrite Hc.
    destruct (Forall2_lookup_l _ _ _ _ _ Hl' Hc) as (c' & -> & _ & _ & Hv). apply Hv.
Qed.
End hash.
End timed_cache.

(** ** Concrete runs *)

(** The newer value of a key goes with its older item. *)
Example stale_item_evicts_fresh_entry :
  let c := (cset 0 1 20 100 ((cset 0 1 10 5 (new_CacheStatus, new_TimedCache 0 0)).2)).2 in
  (cget 1 c).1 = Ok (Some 20) ∧
  (cget 1 (ccheckTimeout 5 c).2).1 = Ok (None : option Z).
Proof. by vm_compute. Qed.
(** Setting again with the same deadline keeps the value that was there. *)
Example same_deadline_keeps_value :
  let c := (cset 0 1 20 5 ((cset 0 1 10 5 (new_CacheStatus, new_TimedCache 0 0)).2)).2 in
  (cget 1 c).1 = Ok (Some 10).
Proof. by vm_compute. Qed.

Definition sample_ccalls : list (ccall (K := Z) (V := Z)) :=
  [CSet 0 1 10 5; CSet 0 1 20 100; CSet 0 2 30 7; CSet 0 3 30 1; CGet 1; CExpired 0 2 50; CTimeout 5; CMaxSize 1;
   CSet 3 4 40 9; CClear].
Lemma timed_cache_safe_witness :
  ∃ r s' c', run_ccalls sample_ccalls (new_CacheStatus, new_TimedCache 2 0) = (r, (s', c')) ∧
    (r = Ok tt ∨ r = Undef MissingReturn ∧ existsb is_del sample_ccalls = true) ∧
    (∀ k id, c_cache c' !! k = Some id → ∃ v ts, node_get id (c_timed c') = Some (k, (v, ts))) ∧
    (size (c_cache c') ≤ length (c_timed c'))%nat ∧
    StronglySorted (λ a b, item_ts (a.2) ≤ item_ts (b.2)) (c_timed c').
Proof. apply (timed_cache_safe sample_ccalls); [lia|]. repeat constructor; cbn; lia. Defined.

Definition sample_cache : TimedCache (K := Z) (V := Z) := new_TimedCache 0 0.
Lemma timed_cache_set_expired_get_witness :
  ∃ s1 c1 c2 s2 w,
    cset 10 1 7 5 (new_CacheStatus, sample_cache) = (Ok tt, (s1, c1)) ∧
    cexpired 20 1 100 (s1, c1) = (Ok true, (s1, c2)) ∧
    cget 1 (s1, c2) = (Ok (Some w), (s2, c2)) ∧ view c2 1 = Some (w, u64 (5 + 10)) ∧
    (w = 7 ∨ ∃ id, (id, (1, (w, u64 (5 + 10)))) ∈ c_timed sample_cache) ∧
    ((∀ id v', (id, (1, (v', u64 (5 + 10)))) ∉ c_timed sample_cache) → w = 7) ∧
    ∀ k', k' ≠ 1 → view c2 k' = view sample_cache k'.
Proof. exact (timed_cache_set_expired_get 10 0 1 7 5 20 100 new_CacheStatus sample_cache (empty_ok 0 0) eq_refl). Defined.

Lemma sample_set_ok : cache_ok (cset 10 1 7 5 (new_CacheStatus, sample_cache)).2.2.
Proof.
  destruct (cset_ok 10 1 7 5 new_CacheStatus sample_cache) as (s' & c' & E & H & _); [apply empty_ok|cbn; lia|].
  by rewrite E.
Qed.
Lemma ccheckTimeout_exact_witness :
  let c := (cset 10 1 7 5 (new_CacheStatus, sample_cache)).2.2 in
  ∃ c', ccheckTimeout 15 (new_CacheStatus, c) = (Ok (Z.of_nat (length (due 15 c))), (new_CacheStatus, c')) ∧
    cache_ok c' ∧
    (c_timed c').*2 = filter (λ x, ¬ item_ts x ≤ 15) (c_timed c).*2 ∧
    c_pruned c' = (if c_cb c then c_pruned c ++ due 15 c else c_pruned c) ∧
    (∀ k, view c' k = if decide (k ∈ (due 15 c).*1) then None else view c k).
Proof. exact (ccheckTimeout_exact 15 new_CacheStatus _ sample_set_ok). Defined.

Definition sample_hash : HashTimedCache (K := Z) (V := Z) := (hash_cset (λ k : Z, k) 10 1 7 5 (new_HashTimedCache 4 16 0)).2.
Lemma sample_hash_ok : hash_ok sample_hash.
Proof.
  split_and!; [done|done|].
  change (hc_datas sample_hash) with
    [new_TimedCache 4 0; (cset 10 1 7 5 (new_CacheStatus, new_TimedCache 4 0)).2.2; new_TimedCache 4 0;
     new_TimedCache 4 0 : TimedCache (K := Z) (V := Z)].
  assert (cache_ok (new_TimedCache 4 0 : TimedCache (K := Z) (V := Z)) ∧ 0 ≤ 4) by (split; [apply empty_ok|lia]).
  destruct (cset_ok 10 1 7 5 new_CacheStatus (new_TimedCache 4 0)) as (s' & c' & E & Hc & Hm & _);
    [apply empty_ok|cbn; lia|].
  rewrite E. cbn [snd]. rewrite !Forall_cons, Forall_nil. cbn in Hm.
  split_and!; try apply H; [done|lia|done].
Qed.
Lemma hash_ccheckTimeout_exact_witness :
  ∃ h', hash_ccheckTimeout 20 sample_hash = (Z.of_nat (length (concat (due 20 <$> hc_datas sample_hash))), h') ∧
    hash_ok h' ∧
    ∀ k c, hc_datas sample_hash !! Z.to_nat (k mod hc_bucket sample_hash) = Some c →
      hash_view (λ k, k) h' k = if decide (k ∈ (due 20 c).*1) then None else hash_view (λ k, k) sample_hash k.
Proof. exact (hash_ccheckTimeout_exact (λ k : Z, k) 20 sample_hash sample_hash_ok). Defined.
