(* ===== verification/Bitmap.v ===== *)
(** * Bitmap (Helens/ds/bitmap.h, Helens/ds/bitmap.cc)

    Words of [base_type] (uint16_t as configured) hold [VALUE_SIZE] = 14 bits;
    the two top bits mark run-length words of a compressed bitmap.  Loops that
    step through the words eight bytes at a time read and write [uint64_t]s of
    four words. *)
From S2P Require Import Prelude Loops.

Definition VALUE_SIZE : Z := 14.
Definition COMPRESS_MASK : Z := Z.shiftl 1 15.
Definition VALUE_MASK : Z := Z.shiftl 1 14.
Definition COUNT_MASK : Z := Z.shiftl 1 14 - 1.
Definition NOT_VALUE_MASK : Z := u16 (Z.lnot VALUE_MASK).
Definition U64_DIV_BASE : Z := 4.
Definition U64_VALUE_SIZE : Z := VALUE_SIZE * U64_DIV_BASE.

(** The tables [init] fills. *)
Definition POS (i : Z) : Z := Z.shiftl 1 i.
Definition NPOS (i : Z) : Z := u16 (Z.lnot (POS i)).
Definition MASK (i : Z) : Z := POS i - 1.

(** [bm_data] is [None] for a null pointer; [malloc(0)] is not null. *)
Record Bitmap := mkBitmap {
  bm_compress : bool;
  bm_size : Z;
  bm_dataSize : Z;
  bm_data : option (list Z)
}.
Definition with_data (d : list Z) (b : Bitmap) : Bitmap := mkBitmap (bm_compress b) (bm_size b) (bm_dataSize b) (Some d).

(** [ceil(size * 1.0 / VALUE_SIZE)] *)
Definition words_for (size : Z) : Z := (size + 13) / 14.
Definition new_Bitmap (size def : Z) : Bitmap :=
  let n := words_for size in
  mkBitmap false size n (if n =? 0 then None else Some (replicate (Z.to_nat n) (def + 256 * def))).
Definition empty_Bitmap : Bitmap := mkBitmap true 0 0 None.
(** The copy constructor and [operator=]: the copy's data is never null. *)
Definition copy (b : Bitmap) : Bitmap := with_data (default [] (bm_data b)) b.

(** [m_data[i]] *)
Definition rd (b : Bitmap) (i : Z) : outcome Z :=
  match bm_data b with
  | None => Undef NullDeref
  | Some d => if Z.of_nat (length d) <=? i then Undef OutOfBounds else of_option OutOfBounds (d !! Z.to_nat i)
  end.
Definition wr (b : Bitmap) (i v : Z) : outcome Bitmap :=
  obind (rd b i) (λ _, Ok (with_data (<[Z.to_nat i := v]> (default [] (bm_data b))) b)).

(** [((uint64_t* )m_data)[i]] *)
Definition join64 (w0 w1 w2 w3 : Z) : Z :=
  Z.lor w0 (Z.lor (Z.shiftl w1 16) (Z.lor (Z.shiftl w2 32) (Z.shiftl w3 48))).
Definition rd64 (b : Bitmap) (i : Z) : outcome Z :=
  obind (rd b (4 * i)) (λ w0, obind (rd b (4 * i + 1)) (λ w1,
  obind (rd b (4 * i + 2)) (λ w2, obind (rd b (4 * i + 3)) (λ w3, Ok (join64 w0 w1 w2 w3))))).
Definition wr64 (b : Bitmap) (i v : Z) : outcome Bitmap :=
  obind (wr b (4 * i) (u16 v)) (λ b, obind (wr b (4 * i + 1) (u16 (Z.shiftr v 16))) (λ b,
  obind (wr b (4 * i + 2) (u16 (Z.shiftr v 32))) (λ b, wr b (4 * i + 3) (u16 (Z.shiftr v 48))))).

Definition is_set (x mask : Z) : bool := negb (Z.land x mask =? 0).

Definition get (b : Bitmap) (idx : Z) : outcome bool :=
  obind (rd b (idx / VALUE_SIZE)) (λ w, Ok (is_set w (POS (idx mod VALUE_SIZE)))).
Definition set (idx : Z) (v : bool) (b : Bitmap) : outcome Bitmap :=
  let cur := idx / VALUE_SIZE in
  let pos := idx mod VALUE_SIZE in
  obind (rd b cur) (λ w, wr b cur (if v then Z.lor w (POS pos) else Z.land w (NPOS pos))).

Definition set_range (from size : Z) (v : bool) (b : Bitmap) : outcome Bitmap :=
  if size =? 0 then Ok b else
  let cur_from := from / VALUE_SIZE in
  let pos_from := from mod VALUE_SIZE in
  let cur_to := u32 (from + size) / VALUE_SIZE in
  let pos_to := u32 (from + size) mod VALUE_SIZE in
  obind (assert (pos_from =? 0)) (λ _, obind (assert (pos_to =? 0)) (λ _,
  for_loop (Z.to_nat (cur_to - cur_from)) cur_from (λ i b, wr b i (if v then COUNT_MASK else 0)) b)).
Definition get_range (from size : Z) (v : bool) (b : Bitmap) : outcome bool :=
  if size =? 0 then Ok false else
  let cur_from := from / VALUE_SIZE in
  let pos_from := from mod VALUE_SIZE in
  let cur_to := u32 (from + size) / VALUE_SIZE in
  let pos_to := u32 (from + size) mod VALUE_SIZE in
  obind (assert (pos_from =? 0)) (λ _, obind (assert (pos_to =? 0)) (λ _,
  obind (for_ret (Z.to_nat (cur_to - cur_from)) cur_from (λ i _,
           obind (rd b i) (λ w,
           Ok (if (if v then is_set w COUNT_MASK else negb (is_set w COUNT_MASK)) then inl true else inr tt))) tt)
    (λ r, Ok (match r with inl r => r | inr _ => false end)))).

(** ** Walking a compressed bitmap

    [operator&=], [operator|=], [uncompress] and [compressCross] share the loop
    that reads a run ([count], low digits first, over the words that carry the
    same value) or a literal word.  [run_tail] is its inner loop over the words
    after the first one of a run, [k] being [n - tmp_i]. *)
Fixpoint run_tail (v : bool) (k count : Z) (l : list Z) : outcome (Z * list Z) :=
  match l with
  | [] => Ok (count, [])
  | w :: l' =>
    if is_set w COMPRESS_MASK && eqb v (is_set w VALUE_MASK) then
      if 32 <=? VALUE_SIZE * k then Undef Overflow
      else run_tail v (k + 1) (Z.lor (u32 (Z.shiftl (Z.land w COUNT_MASK) (VALUE_SIZE * k))) count) l'
    else Ok (count, w :: l')
  end.

Section walk.
Context {St R : Type} (on_run : Z → Z → bool → St → outcome (R + St)) (on_word : Z → Z → St → outcome (R + St)).

(** [cur_pos] before each item goes to the handlers. *)
Fixpoint walk (fuel : nat) (l : list Z) (cur_pos : Z) (s : St) : outcome (R + St) :=
  match l with
  | [] => Ok (inr s)
  | cur :: l =>
    match fuel with
    | O => Fuel
    | S fuel =>
      if is_set cur COMPRESS_MASK then
        let v := is_set cur VALUE_MASK in
        obind (run_tail v 1 (Z.land cur COUNT_MASK) l) (λ cl,
        obind (on_run cur_pos (cl.1) v s) (λ r,
        match r with inl r => Ok (inl r) | inr s => walk fuel (cl.2) (u32 (cur_pos + cl.1)) s end))
      else
        obind (on_word cur_pos (Z.land cur COUNT_MASK) s) (λ r,
        match r with inl r => Ok (inl r) | inr s => walk fuel l (u32 (cur_pos + VALUE_SIZE)) s end)
    end
  end.
End walk.

(** The words a loop [for(i = 0; i < m_dataSize; ++i)] over [m_data] reads. *)
Definition words (b : Bitmap) : outcome (list Z) :=
  match bm_data b with
  | Some d => if Z.of_nat (length d) <? bm_dataSize b then Undef OutOfBounds else Ok (take (Z.to_nat (bm_dataSize b)) d)
  | None => if bm_dataSize b =? 0 then Ok [] else Undef NullDeref
  end.
Definition keep {St} (o : outcome St) : outcome (Empty_set + St) := obind o (λ s, Ok (inr s)).
Definition walk_all {St} on_run on_word (b : Bitmap) (s : St) : outcome St :=
  obind (words b) (λ l, obind (walk on_run on_word (length l) l 0 s) (λ r,
  match r with inl r => match r : Empty_set with end | inr s => Ok s end)).

(** ** The bitwise operators *)
Definition and_compressed (b : Bitmap) (a : Bitmap) : outcome Bitmap :=
  walk_all (λ cur_pos count v a, keep (if v then Ok a else set_range cur_pos count false a))
    (λ cur_pos count a, keep (obind (rd a (cur_pos / VALUE_SIZE)) (λ w, wr a (cur_pos / VALUE_SIZE) (Z.land w count))))
    b a.
Definition or_compressed (b : Bitmap) (a : Bitmap) : outcome Bitmap :=
  walk_all (λ cur_pos count v a, keep (if v then set_range cur_pos count true a else Ok a))
    (λ cur_pos count a, keep (obind (rd a (cur_pos / VALUE_SIZE)) (λ w, wr a (cur_pos / VALUE_SIZE) (Z.lor w count))))
    b a.
(** The two loops over uncompressed data: four words at a time, then the rest. *)
Definition zip_words (op : Z → Z → Z) (a b : Bitmap) : outcome Bitmap :=
  let max_size := bm_size a / U64_VALUE_SIZE in
  obind (for_loop (Z.to_nat max_size) 0 (λ i a,
           obind (rd64 a i) (λ x, obind (rd64 b i) (λ y, wr64 a i (op x y)))) a) (λ a,
  for_loop (Z.to_nat (bm_dataSize a - max_size * U64_DIV_BASE)) (max_size * U64_DIV_BASE) (λ i a,
    obind (rd a i) (λ x, obind (rd b i) (λ y, wr a i (op x y)))) a).
Definition and_assign (a b : Bitmap) : outcome Bitmap :=
  if negb (bm_size a =? bm_size b) then Throw LogicError else
  if negb (bm_compress a) && negb (bm_compress b) then zip_words Z.land a b
  else if negb (eqb (bm_compress a) (bm_compress b)) then
    if bm_compress a then Throw LogicError else and_compressed b a
  else Throw LogicError.
Definition or_assign (a b : Bitmap) : outcome Bitmap :=
  if negb (bm_size a =? bm_size b) then Throw LogicError else
  if negb (bm_compress a) && negb (bm_compress b) then zip_words Z.lor a b
  else if negb (eqb (bm_compress a) (bm_compress b)) then
    if bm_compress a then Throw LogicError else or_compressed b a
  else Throw LogicError.
Definition and_op (a b : Bitmap) : outcome Bitmap := and_assign (copy a) b.
Definition or_op (a b : Bitmap) : outcome Bitmap := or_assign (copy a) b.

Definition not_word (cur : Z) : Z :=
  if is_set cur COMPRESS_MASK then
    if is_set cur VALUE_MASK then Z.land cur NOT_VALUE_MASK else Z.lor cur VALUE_MASK
  else Z.land (Z.lnot cur) COUNT_MASK.
Definition complement (a : Bitmap) : outcome Bitmap :=
  if negb (bm_compress a) then
    let max_size := bm_size a / U64_VALUE_SIZE in
    obind (for_loop (Z.to_nat max_size) 0 (λ i a, obind (rd64 a i) (λ x, wr64 a i (u64 (Z.lnot x)))) a) (λ a,
    for_loop (Z.to_nat (bm_dataSize a - max_size * U64_DIV_BASE)) (max_size * U64_DIV_BASE) (λ i a,
      obind (rd a i) (λ x, wr a i (u16 (Z.lnot x)))) a)
  else for_loop (Z.to_nat (bm_dataSize a)) 0 (λ i a, obind (rd a i) (λ x, wr a i (not_word x))) a.

(** [operator==] of two bitmaps that are not the same object. *)
Definition equals (a b : Bitmap) : outcome bool :=
  if negb (eqb (bm_compress a) (bm_compress b)) || negb (bm_size a =? bm_size b) || negb (bm_dataSize a =? bm_dataSize b)
  then Ok false else
  obind (words a) (λ da, obind (words b) (λ db,
  if negb (bool_decide (da = db)) then Ok false else
  let left := bm_size a mod VALUE_SIZE in
  if negb (left =? 0) then
    obind (rd a (u32 (bm_dataSize a - 1))) (λ x, obind (rd b (u32 (bm_dataSize b - 1))) (λ y,
    Ok (Z.land x (MASK left) =? Z.land y (MASK left))))
  else Ok true)).

(** ** Compression *)

(** Storing into the buffer of [m_dataSize] words at [dst_cur_pos]. *)
Definition emit (cap w : Z) (out : list Z) : outcome (list Z) :=
  if Z.of_nat (length out) <? cap then Ok (out ++ [w]) else Undef OutOfBounds.
Fixpoint emit_run (fuel : nat) (cap : Z) (cur_value : bool) (cur_count : Z) (out : list Z) : outcome (list Z) :=
  if cur_count =? 0 then Ok out else
  match fuel with
  | O => Fuel
  | S fuel =>
    obind (emit cap (if cur_value then Z.lor (Z.lor COMPRESS_MASK VALUE_MASK) (Z.land cur_count COUNT_MASK)
                     else Z.lor COMPRESS_MASK (Z.land cur_count COUNT_MASK)) out)
      (emit_run fuel cap cur_value (Z.shiftr cur_count VALUE_SIZE))
  end.
(** A 64-bit count has at most five digits. *)
Definition flush (cap : Z) (cur_value : bool) (cur_count : Z) (out : list Z) : outcome (list Z) :=
  if 1 <? cur_count / VALUE_SIZE then emit_run 5 cap cur_value cur_count out
  else if negb (cur_count =? 0) then emit cap (if cur_value then COUNT_MASK else 0) out else Ok out.

(** [__builtin_popcount] of an [n]-bit value *)
Fixpoint popcount (n : nat) (z : Z) : Z :=
  match n with O => 0 | S n => Z.b2z (Z.odd z) + popcount n (Z.shiftr z 1) end.

Definition compress_step (cap cur : Z) (st : bool * Z * list Z) : outcome (bool * Z * list Z) :=
  let '(cur_value, cur_count, out) := st in
  let c := popcount 32 (Z.land cur COUNT_MASK) in
  if (c =? 0) && eqb cur_value false then Ok (cur_value, u64 (cur_count + VALUE_SIZE), out)
  else if negb (c =? 0) && (c =? VALUE_SIZE) && eqb cur_value true then
    Ok (cur_value, u64 (cur_count + VALUE_SIZE), out)
  else
    obind (if 1 <? cur_count / VALUE_SIZE then assert (cur_count mod VALUE_SIZE =? 0) else Ok tt) (λ _,
    obind (flush cap cur_value cur_count out) (λ out,
    if (c =? 0) || (c =? VALUE_SIZE) then Ok (c =? VALUE_SIZE, VALUE_SIZE, out)
    else obind (emit cap cur out) (λ out, Ok (cur_value, 0, out)))).
Fixpoint compress_loop (cap : Z) (l : list Z) (st : bool * Z * list Z) : outcome (bool * Z * list Z) :=
  match l with [] => Ok st | cur :: l => obind (compress_step cap cur st) (compress_loop cap l) end.
Definition compress (b : Bitmap) : outcome Bitmap :=
  if bm_compress b then Ok (copy b) else
  obind (words b) (λ l,
  obind (compress_loop (bm_dataSize b) l (false, 0, [])) (λ '(cur_value, cur_count, out),
  obind (if 0 <? cur_count then flush (bm_dataSize b) cur_value cur_count out else Ok out) (λ out,
  Ok (mkBitmap true (bm_size b) (Z.of_nat (length out)) (Some out))))).

Definition uncompress (b : Bitmap) : outcome Bitmap :=
  if negb (bm_compress b) then Ok (copy b) else
  walk_all (λ cur_pos count v a, keep (set_range cur_pos count v a))
    (λ cur_pos count a, keep (wr a (cur_pos / VALUE_SIZE) count))
    b (new_Bitmap (bm_size b) 0).

(** ** Queries *)

(** [cur] is a [uint8_t] in the compressed branch. *)
Definition any (b : Bitmap) : outcome bool :=
  match bm_data b with
  | None => Ok false
  | Some _ =>
    if negb (bm_compress b) then
      obind (for_ret (Z.to_nat (u32 (bm_dataSize b - 1))) 0 (λ i _,
               obind (rd b i) (λ w, Ok (if negb (w =? 0) then inl tt else inr tt))) tt) (λ r,
      match r with
      | inl _ => Ok true
      | inr _ => obind (rd b (u32 (bm_dataSize b - 1))) (λ w, Ok (is_set w (MASK (bm_size b mod VALUE_SIZE))))
      end)
    else
      obind (for_ret (Z.to_nat (bm_dataSize b)) 0 (λ i _,
               obind (rd b i) (λ w, let cur := u8 w in
               Ok (if is_set cur COMPRESS_MASK then if is_set cur VALUE_MASK then inl tt else inr tt
                   else if negb (cur =? 0) then inl tt else inr tt))) tt) (λ r,
      Ok (match r with inl _ => true | inr _ => false end))
  end.

Definition resize (size : Z) (v : bool) (b : Bitmap) : outcome Bitmap :=
  if bm_compress b then Throw LogicError else
  let len := words_for size in
  obind (if bm_dataSize b <? len then
           obind (words b) (λ d,
           let b := with_data (d ++ replicate (Z.to_nat (len - bm_dataSize b)) (if v then 65535 else 0)) b in
           let left := bm_size b mod VALUE_SIZE in
           let last := u32 (bm_dataSize b - 1) in
           obind (rd b last) (λ w, wr b last (if v then Z.lor w (MASK left) else Z.land w (MASK left))))
         else Ok b) (λ b,
  Ok (mkBitmap (bm_compress b) size len (bm_data b))).

(** The loop [for(n = ...; n < VALUE_SIZE && cur_pos < m_size; ++n, ++cur_pos)]
    over the bits of one word, [cb] being called with the position of those
    that are set until it answers false. *)
Section visit.
Context {St : Type} (cb : Z → St → bool * St).

Fixpoint up_bits (k : nat) (m_size tmp n cur_pos : Z) (s : St) : St + (Z * St) :=
  match k with
  | O => inr (cur_pos, s)
  | S k =>
    if cur_pos <? m_size then
      if is_set tmp (POS n) then
        let (go, s) := cb cur_pos s in
        if go then up_bits k m_size tmp (n + 1) (u32 (cur_pos + 1)) s else inl s
      else up_bits k m_size tmp (n + 1) (u32 (cur_pos + 1)) s
    else inr (cur_pos, s)
  end.
Definition up_word (b : Bitmap) (i : Z) (st : Z * St) : outcome (St + (Z * St)) :=
  obind (rd b i) (λ tmp, Ok (up_bits 14 (bm_size b) tmp 0 (st.1) (st.2))).

Definition foreach (b : Bitmap) (s : St) : outcome St :=
  let max_size := bm_size b / U64_VALUE_SIZE in
  obind (for_ret (Z.to_nat max_size) 0 (λ i st,
           obind (rd64 b i) (λ tmp,
           if tmp =? 0 then Ok (inr (u32 (st.1 + U64_VALUE_SIZE), st.2))
           else for_ret 4 0 (λ n, up_word b (i * U64_DIV_BASE + n)) st)) (0, s)) (λ r,
  match r with
  | inl s => Ok s
  | inr st =>
    obind (for_ret (Z.to_nat (bm_dataSize b - max_size * U64_DIV_BASE)) (max_size * U64_DIV_BASE) (λ i st,
             obind (rd b i) (λ tmp,
             if tmp =? 0 then Ok (inr (u32 (st.1 + VALUE_SIZE), st.2)) else up_word b i st)) st) (λ r,
    Ok (match r with inl s => s | inr st => st.2 end))
  end).

(** [for(n = k - 1; n >= 0; --n, --cur_pos)] *)
Fixpoint down_bits (k : nat) (tmp cur_pos : Z) (s : St) : St + (Z * St) :=
  match k with
  | O => inr (cur_pos, s)
  | S k =>
    if is_set tmp (POS (Z.of_nat k)) then
      let (go, s) := cb cur_pos s in
      if go then down_bits k tmp (u32 (cur_pos - 1)) s else inl s
    else down_bits k tmp (u32 (cur_pos - 1)) s
  end.
Definition rforeach (b : Bitmap) (s : St) : outcome St :=
  let max_size := bm_size b / U64_VALUE_SIZE in
  let start := bm_dataSize b - 1 in
  let left := bm_size b mod VALUE_SIZE in
  let lowest := max_size * U64_DIV_BASE in
  obind (if negb (bm_size b mod U64_VALUE_SIZE =? 0) then
           for_ret (Z.to_nat (start - lowest + 1)) 0 (λ j st,
             let i := start - j in
             obind (rd b i) (λ tmp, Ok (
             if tmp =? 0 then
               inr (u32 (st.1 - (if (i =? start) && negb (left =? 0) then left else VALUE_SIZE)), st.2)
             else if (i =? start) && negb (left =? 0) then
               down_bits (S (Z.to_nat left)) tmp (u32 (st.1 + 1)) (st.2)
             else down_bits 14 tmp (st.1) (st.2)))) (u32 (bm_size b - 1), s)
         else Ok (inr (u32 (bm_size b - 1), s))) (λ r,
  match r with
  | inl s => Ok s
  | inr st =>
    obind (for_ret (Z.to_nat max_size) 0 (λ j st,
             let i := max_size - 1 - j in
             obind (rd64 b i) (λ tmp,
             if tmp =? 0 then Ok (inr (u32 (st.1 - U64_VALUE_SIZE), st.2))
             else for_ret 4 0 (λ n st,
               obind (rd b ((i + 1) * U64_DIV_BASE - 1 - n)) (λ tmp, Ok (down_bits 14 tmp (st.1) (st.2)))) st)) st)
      (λ r, Ok (match r with inl s => s | inr st => st.2 end))
  end).
End visit.

(** The loops of [listPosAsc] are those of [foreach] with [pos.push_back]. *)
Definition listPosAsc (b : Bitmap) (pos : list Z) : outcome (list Z) :=
  foreach (λ p pos, (true, pos ++ [p])) b pos.

Definition compressCross (a b : Bitmap) : outcome bool :=
  obind (words b) (λ l,
  obind (walk (λ cur_pos count v _,
                 if v then obind (get_range cur_pos count true a) (λ r, Ok (if r then inl true else inr tt)) else Ok (inr tt))
              (λ cur_pos count _,
                 obind (rd a (cur_pos / VALUE_SIZE)) (λ w, Ok (if is_set w count then inl true else inr tt)))
              (length l) l 0 tt) (λ r,
  Ok (match r with inl r => r | inr _ => false end))).
Definition normalCross (a b : Bitmap) : outcome bool :=
  let max_size := bm_size a / U64_VALUE_SIZE in
  obind (for_ret (Z.to_nat max_size) 0 (λ i _,
           obind (rd64 a i) (λ x, if negb (x =? 0) then obind (rd64 b i) (λ y, Ok (if is_set x y then inl true else inr tt))
                                  else Ok (inr tt))) tt) (λ r,
  match r with
  | inl r => Ok r
  | inr _ =>
    obind (for_ret (Z.to_nat (bm_dataSize a - max_size * U64_DIV_BASE)) (max_size * U64_DIV_BASE) (λ i _,
             obind (rd a i) (λ x, obind (rd b i) (λ y, Ok (if is_set x y then inl true else inr tt)))) tt) (λ r,
    Ok (match r with inl r => r | inr _ => false end))
  end).
Definition cross (a b : Bitmap) : outcome bool :=
  if negb (bm_compress a) && bm_compress b then compressCross a b
  else if negb (bm_compress a) && negb (bm_compress b) then normalCross a b
  else Ok false.

Definition getCount (b : Bitmap) : outcome Z :=
  if negb (bm_compress b) then
    let len := bm_dataSize b / U64_DIV_BASE in
    obind (for_loop (Z.to_nat len) 0 (λ i st,
             obind (rd64 b i) (λ tmp, Ok (u32 (st.1 + popcount 64 tmp), u32 (st.2 + U64_VALUE_SIZE)))) (0, 0)) (λ st,
    obind (for_loop (Z.to_nat (bm_dataSize b - len * U64_DIV_BASE)) (len * U64_DIV_BASE) (λ i st,
             obind (rd b i) (λ tmp,
             if tmp =? 0 then Ok (st.1, u32 (st.2 + VALUE_SIZE)) else
             Ok (match up_bits (λ _ c, (true, u32 (c + 1))) 14 (bm_size b) tmp 0 (st.2) (st.1) with
                 | inl c => (c, st.2)
                 | inr r => (r.2, r.1)
                 end))) st) (λ st,
    Ok (st.1)))
  else
    for_loop (Z.to_nat (bm_dataSize b)) 0 (λ i count,
      obind (rd b i) (λ tmp, Ok (
      if is_set tmp COMPRESS_MASK then
        if is_set tmp VALUE_MASK then u32 (count + Z.land tmp COUNT_MASK) else count
      else u32 (count + popcount 32 tmp)))) 0.

(** ** Iterators

    [m_pos] is an [int32_t]; the sizes the iterators are used with fit one. *)
Record iterator := mkIterator { it_pos : Z; it_bitmap : Bitmap }.
(** [operator!]: true while the iterator designates a position. *)
Definition it_valid (t : iterator) : bool :=
  negb ((bm_size (it_bitmap t) <=? it_pos t) || (it_pos t <? 0)).
Fixpoint next_bits (k : nat) (m_size v n pos : Z) : bool * Z :=
  match k with
  | O => (false, pos)
  | S k =>
    if pos <? m_size then
      if is_set v (POS n) then (true, pos) else next_bits k m_size v (n + 1) (pos + 1)
    else (false, pos)
  end.
Definition next_words (b : Bitmap) (pos : Z) : outcome Z :=
  let first := pos / VALUE_SIZE in
  obind (for_ret (Z.to_nat (bm_dataSize b - first)) first (λ i pos,
           if bm_size b <=? pos then Ok (inl pos) else
           obind (rd b i) (λ v,
           if v =? 0 then Ok (inr (pos + VALUE_SIZE)) else
           let (found, pos) := next_bits 14 (bm_size b) v 0 pos in
           Ok (if found then inl pos else inr pos))) pos) (λ r,
  Ok (match r with inl p => p | inr p => p end)).
Definition next_pos (b : Bitmap) (pos : Z) : outcome Z :=
  let pos := pos + 1 in
  let left := pos mod VALUE_SIZE in
  if negb (left =? 0) then
    obind (rd b (pos / VALUE_SIZE)) (λ v,
    let (found, pos) := next_bits (Z.to_nat (VALUE_SIZE - left)) (bm_size b) v left pos in
    if found then Ok pos else next_words b pos)
  else next_words b pos.
Definition iterator_next (t : iterator) : outcome iterator :=
  obind (next_pos (it_bitmap t) (it_pos t)) (λ p, Ok (mkIterator p (it_bitmap t))).
Definition begin (b : Bitmap) : outcome iterator := iterator_next (mkIterator (-1) b).

Fixpoint prev_bits (k : nat) (v pos : Z) : bool * Z :=
  match k with
  | O => (false, pos)
  | S k =>
    if 0 <=? pos then if is_set v (POS (Z.of_nat k)) then (true, pos) else prev_bits k v (pos - 1)
    else (false, pos)
  end.
Definition prev_words (b : Bitmap) (from pos : Z) : outcome Z :=
  obind (for_ret (Z.to_nat (from + 1)) 0 (λ j pos,
           let i := from - j in
           if pos <? 0 then Ok (inl pos) else
           obind (rd b i) (λ v,
           if v =? 0 then Ok (inr (pos - VALUE_SIZE)) else
           let (found, pos) := prev_bits 14 v pos in
           Ok (if found then inl pos else inr pos))) pos) (λ r,
  Ok (match r with inl p => p | inr p => p end)).
Definition prev_pos (b : Bitmap) (pos : Z) : outcome Z :=
  if pos <=? 0 then Ok (-1) else
  let pos := pos - 1 in
  let left := pos mod VALUE_SIZE in
  if negb (left =? VALUE_SIZE - 1) then
    obind (rd b (pos / VALUE_SIZE)) (λ v,
    let (found, pos') := prev_bits (S (Z.to_nat left)) v pos in
    if found then Ok pos' else prev_words b (pos / VALUE_SIZE - 1) pos')
  else prev_words b (pos / VALUE_SIZE) pos.
Definition iterator_reverse_next (t : iterator) : outcome iterator :=
  obind (prev_pos (it_bitmap t) (it_pos t)) (λ p, Ok (mkIterator p (it_bitmap t))).
Definition rbegin (b : Bitmap) : outcome iterator := iterator_reverse_next (mkIterator (bm_size b) b).

(** ** Concrete runs *)
Definition of_bits (size : Z) (ps : list Z) : outcome Bitmap :=
  foldl (λ b p, obind b (set p true)) (Ok (new_Bitmap size 0)) ps.
Example compress_sample :
  obind (of_bits 100 [3; 5; 70; 99]) compress = Ok (mkBitmap true 100 5 (Some [40; 32768 + 56; 1; 0; 2])).
Proof. by vm_compute. Qed.
(** [MASK[0]] is zero: a last word that is full is not looked at. *)
Example any_full_last_word : obind (of_bits 28 [27]) any = Ok false.
Proof. by vm_compute. Qed.
(** The count of a run of zeros is taken for bits. *)
Example any_compressed_zeros : obind (compress (new_Bitmap 28 0)) any = Ok true.
Proof. by vm_compute. Qed.
(** Only the low digit of a long run is counted. *)
Example getCount_long_run :
  obind (set_range 0 (14 * 1300) true (new_Bitmap (14 * 1300) 0)) (λ b, obind (compress b) getCount) = Ok 1817.
Proof. by vm_compute. Qed.
(** Growing a bitmap of two full words clears the second one. *)
Example resize_clears_last_word :
  obind (of_bits 28 [20]) (λ b, obind (resize 50 false b) (λ b, get b 20)) = Ok false.
Proof. by vm_compute. Qed.
(** Growing with ones sets the bits that were there and not the new ones. *)
Example resize_true_sets_old_bits :
  obind (resize 30 true (new_Bitmap 5 0)) (λ b, listPosAsc b []) =
    Ok ([0; 1; 2; 3; 4] ++ seqZ 14 16).
Proof. by vm_compute. Qed.
Example resize_empty : resize 50 false (new_Bitmap 0 0) = Undef OutOfBounds.
Proof. by vm_compute. Qed.
(** The complement of a bitmap sets the flag bits of its words, which
    [compress] copies: the result does not uncompress. *)
Example complement_then_compress :
  obind (of_bits 28 [3]) (λ b, obind (complement b) (λ b, obind (compress b) uncompress)) = Undef AssertFail.
Proof. by vm_compute. Qed.
