(* ===== verification/BitmapSpec.v ===== *)
(** * What the words of a bitmap mean

    A well-formed uncompressed bitmap is a list of 14-bit words.  This file has
    the reads and writes on that list and the loops over it. *)
From S2P Require Import Prelude Loops Bitmap.

Definition word_ok (w : Z) : Prop := is_uint 14 w.

(** [b] holds the words [l]. *)
Record plain (b : Bitmap) (l : list Z) : Prop := {
  pl_mode : bm_compress b = false;
  pl_data : bm_data b = match l with [] => None | _ => Some l end;
  pl_size : 0 ≤ bm_size b < 2 ^ 32 - 14;
  pl_len : bm_dataSize b = Z.of_nat (length l);
  pl_words_for : bm_dataSize b = words_for (bm_size b);
  pl_words : Forall word_ok l
}.

(** The bit at position [p]. *)
Definition bit (l : list Z) (p : Z) : bool :=
  match l !! Z.to_nat (p / VALUE_SIZE) with Some w => Z.testbit w (p mod VALUE_SIZE) | None => false end.

(** ** Masks *)
Lemma is_set_testbit w n : 0 ≤ n → is_set w (POS n) = Z.testbit w n.
Proof.
  intros Hn. unfold is_set, POS. rewrite Z.shiftl_1_l.
  destruct (Z.testbit w n) eqn:E.
  - destruct (Z.eqb_spec (Z.land w (2 ^ n)) 0) as [E0|]; [|done]. exfalso.
    assert (Z.testbit (Z.land w (2 ^ n)) n = true) as Ht by (rewrite Z.land_spec, E, Z.pow2_bits_true; done).
    by rewrite E0, Z.bits_0 in Ht.
  - replace (Z.land w (2 ^ n)) with 0; [done|]. symmetry. apply Z.bits_inj'. intros m Hm.
    rewrite Z.land_spec, Z.bits_0. destruct (decide (m = n)) as [->|]; [by rewrite E|].
    rewrite Z.pow2_bits_false by lia. apply andb_false_r.
Qed.

Lemma land_COUNT_MASK w : Z.land w COUNT_MASK = w mod 2 ^ 14.
Proof. change COUNT_MASK with (Z.ones 14). by apply Z.land_ones. Qed.
Lemma word_land_COUNT w : word_ok w → Z.land w COUNT_MASK = w.
Proof. intros Hw. rewrite land_COUNT_MASK. apply Z.mod_small, Hw. Qed.
Lemma word_not_flag w : word_ok w → is_set w COMPRESS_MASK = false.
Proof.
  intros Hw. change COMPRESS_MASK with (POS 15). rewrite is_set_testbit by lia.
  apply Z.bits_above_log2; [apply Hw|]. destruct (decide (w = 0)) as [->|]; [done|].
  apply Z.log2_lt_pow2; unfold word_ok, is_uint in Hw; [lia|]. change (2 ^ 15) with (2 * 2 ^ 14). lia.
Qed.

(** ** Reading and writing words *)
Lemma rd_at b d pre w post :
  bm_data b = Some d → d = pre ++ w :: post → rd b (Z.of_nat (length pre)) = Ok w.
Proof.
  intros E ->. unfold rd. rewrite E, length_app. cbn [length].
  destruct (Z.leb_spec (Z.of_nat (length pre + S (length post))) (Z.of_nat (length pre))); [lia|].
  rewrite Nat2Z.id. by rewrite list_lookup_middle.
Qed.
Lemma rd_data b pre w post i :
  i = Z.of_nat (length pre) → rd (with_data (pre ++ w :: post) b) i = Ok w.
Proof. intros ->. by eapply rd_at. Qed.
Lemma wr_data b pre w post i v :
  i = Z.of_nat (length pre) →
  wr (with_data (pre ++ w :: post) b) i v = Ok (with_data (pre ++ v :: post) b).
Proof.
  intros ->. unfold wr. erewrite rd_data by done. cbn [obind bm_data with_data default].
  rewrite Nat2Z.id. unfold id. replace (length pre) with (length pre + 0)%nat by lia. by rewrite insert_app_r.
Qed.

Lemma rd_lookup b l n w : plain b l → l !! n = Some w → rd b (Z.of_nat n) = Ok w.
Proof.
  intros Hb Hn. pose proof (lookup_lt_Some _ _ _ Hn) as Hlt.
  replace n with (length (take n l)) by (rewrite length_take; lia).
  eapply rd_at; [|symmetry; by apply take_drop_middle]. rewrite (pl_data _ _ Hb). by destruct l.
Qed.
Lemma plain_data b l : plain b l → l ≠ [] → with_data l b = b.
Proof. intros [_ H _ _ _ _] Hn. destruct b. cbn in H |- *. unfold with_data. cbn. by destruct l; subst. Qed.
Lemma plain_word b l n w : plain b l → l !! n = Some w → word_ok w.
Proof. intros [_ _ _ _ _ H]. rewrite Forall_lookup in H. apply H. Qed.
Lemma plain_length b l : plain b l → Z.of_nat (length l) = (bm_size b + 13) / 14.
Proof. intros [_ _ _ H1 H2 _]. rewrite <- H1, H2. done. Qed.

(** Every position below the size has a word. *)
Lemma plain_lookup b l p :
  plain b l → 0 ≤ p < bm_size b → ∃ w, l !! Z.to_nat (p / 14) = Some w ∧ word_ok w.
Proof.
  intros Hb Hp. pose proof (plain_length b l Hb). destruct (lookup_lt_is_Some_2 l (Z.to_nat (p / 14))) as [w Hw].
  - Z.to_euclidean_division_equations; lia.
  - exists w. split; [done|]. by eapply plain_word.
Qed.

Lemma plain_update b l l' :
  plain b l → length l' = length l → Forall word_ok l' → plain (with_data l' b) l' ∨ l' = [].
Proof.
  intros [H1 H2 H3 H4 H5 H6] Hl Hw. destruct l' as [|w l']; [by right|left].
  split; cbn; try done. cbn [length] in Hl. lia.
Qed.

Lemma new_Bitmap_plain size :
  0 ≤ size < 2 ^ 32 - 14 → plain (new_Bitmap size 0) (replicate (Z.to_nat (words_for size)) 0).
Proof.
  intros Hs. assert (0 ≤ words_for size) by (unfold words_for; Z.to_euclidean_division_equations; lia).
  unfold new_Bitmap. cbn zeta. change (0 + 256 * 0) with 0. split; cbn.
  - done.
  - destruct (Z.eqb_spec (words_for size) 0) as [->|]; [done|].
    destruct (Z.to_nat (words_for size)) eqn:E; [lia|done].
  - lia.
  - rewrite length_replicate. lia.
  - done.
  - apply Forall_replicate. unfold word_ok, is_uint. lia.
Qed.

(** ** [get] and [set] *)
Lemma get_bit b l p : plain b l → 0 ≤ p < bm_size b → get b p = Ok (bit l p).
Proof.
  intros Hb Hp. destruct (plain_lookup b l p Hb Hp) as (w & Hw & _).
  unfold get, bit, VALUE_SIZE. replace (p / 14) with (Z.of_nat (Z.to_nat (p / 14))) at 1
    by (Z.to_euclidean_division_equations; lia).
  rewrite (rd_lookup b l _ w Hb Hw), Hw. cbn [obind]. rewrite is_set_testbit; [done|].
  Z.to_euclidean_division_equations; lia.
Qed.

(** Setting one bit of a word. *)
Definition put (w n : Z) (v : bool) : Z := if v then Z.lor w (POS n) else Z.land w (NPOS n).
Lemma put_spec w n v m : word_ok w → 0 ≤ n < 14 → 0 ≤ m →
  Z.testbit (put w n v) m = if m =? n then v else Z.testbit w m.
Proof.
  intros Hw Hn Hm. unfold put, NPOS, POS. rewrite Z.shiftl_1_l.
  assert (14 ≤ m → Z.testbit w m = false) as Hhi.
  { intros. apply (Z.bits_above_log2 w m); [apply Hw|]. unfold word_ok, is_uint in Hw.
    destruct (decide (w = 0)) as [->|]; [cbn; lia|]. assert (Z.log2 w < 14) by (apply Z.log2_lt_pow2; lia). lia. }
  destruct v.
  - rewrite Z.lor_spec. destruct (Z.eqb_spec m n) as [->|].
    + rewrite Z.pow2_bits_true by lia. apply orb_true_r.
    + rewrite Z.pow2_bits_false by lia. apply orb_false_r.
  - rewrite Z.land_spec. unfold wrap. destruct (decide (m < 16)).
    + rewrite Z.mod_pow2_bits_low by lia. rewrite Z.lnot_spec by lia. destruct (Z.eqb_spec m n) as [->|].
      * rewrite Z.pow2_bits_true by lia. apply andb_false_r.
      * rewrite Z.pow2_bits_false by lia. apply andb_true_r.
    + rewrite Hhi by lia. destruct (Z.eqb_spec m n); [lia|done].
Qed.

Lemma word_ok_bits w : 0 ≤ w → (∀ m, 14 ≤ m → Z.testbit w m = false) → word_ok w.
Proof.
  intros H0 Hb. split; [done|]. destruct (decide (w = 0)) as [->|]; [done|].
  apply Z.log2_lt_pow2; [lia|]. destruct (decide (Z.log2 w < 14)) as [|Hn]; [done|].
  specialize (Hb (Z.log2 w) ltac:(lia)). rewrite Z.bit_log2 in Hb by lia. done.
Qed.
Lemma word_bit_high w m : word_ok w → 14 ≤ m → Z.testbit w m = false.
Proof.
  intros Hw Hm. unfold word_ok, is_uint in Hw. apply Z.bits_above_log2; [lia|].
  destruct (decide (w = 0)) as [->|]; [cbn; lia|]. assert (Z.log2 w < 14) by (apply Z.log2_lt_pow2; lia). lia.
Qed.
Lemma put_ok w n v : word_ok w → 0 ≤ n < 14 → word_ok (put w n v).
Proof.
  intros Hw Hn. apply word_ok_bits.
  - unfold put. destruct v; [apply Z.lor_nonneg; split; [apply Hw|apply Z.shiftl_nonneg; lia]|].
    apply Z.land_nonneg. left. apply Hw.
  - intros m Hm. rewrite put_spec by (done || lia). destruct (Z.eqb_spec m n); [lia|]. by apply word_bit_high.
Qed.

Lemma set_bit b l p v :
  plain b l → 0 ≤ p < bm_size b →
  ∃ b' l', set p v b = Ok b' ∧ plain b' l' ∧ bm_size b' = bm_size b ∧
    ∀ q, 0 ≤ q → bit l' q = if q =? p then v else bit l q.
Proof.
  intros Hb Hp. destruct (plain_lookup b l p Hb Hp) as (w & Hw & Hwok).
  set (n := Z.to_nat (p / 14)) in *. set (l' := <[n := put w (p mod 14) v]> l).
  assert (0 ≤ p mod 14 < 14) as Hmod by (apply Z.mod_pos_bound; lia).
  assert (p / VALUE_SIZE = Z.of_nat n) as En by (unfold n, VALUE_SIZE; Z.to_euclidean_division_equations; lia).
  pose proof (lookup_lt_Some _ _ _ Hw) as Hlt.
  exists (with_data l' b), l'. split_and!.
  - unfold set. rewrite En, (rd_lookup b l n w Hb Hw). cbn [obind]. unfold wr.
    rewrite (rd_lookup b l n w Hb Hw). cbn [obind]. rewrite Nat2Z.id, (pl_data _ _ Hb).
    destruct l; [done|]. done.
  - destruct (plain_update b l l' Hb) as [?|E]; [by unfold l'; rewrite length_insert| |done|].
    + unfold l'. apply Forall_insert; [apply Hb|]. by apply put_ok.
    + apply (f_equal length) in E. unfold l' in E. rewrite length_insert in E. cbn in E. lia.
  - done.
  - intros q Hq. unfold bit, VALUE_SIZE, l'.
    assert (0 ≤ q mod 14 < 14) by (apply Z.mod_pos_bound; lia).
    destruct (decide (Z.to_nat (q / 14) = n)) as [E|Hne].
    + rewrite E, list_lookup_insert_eq by done. rewrite put_spec by (done || lia).
      rewrite Hw. assert (q / 14 = p / 14) by (unfold n in E; Z.to_euclidean_division_equations; lia).
      destruct (Z.eqb_spec (q mod 14) (p mod 14)), (Z.eqb_spec q p); try done;
        Z.to_euclidean_division_equations; lia.
    + rewrite list_lookup_insert_ne by done. destruct (Z.eqb_spec q p) as [->|]; [done|done].
Qed.

(** ** Ranges of words *)
Lemma wr_loop b v n : ∀ pre l post i,
  i = Z.of_nat (length pre) → length l = n →
  for_loop n i (λ i b, wr b i v) (with_data (pre ++ l ++ post) b) =
    Ok (with_data (pre ++ replicate n v ++ post) b).
Proof.
  induction n as [|n IH]; intros pre l post i Hi Hl; [by destruct l|]. destruct l as [|w l]; [done|].
  cbn [for_loop app]. rewrite wr_data by done. cbn [obind].
  replace (pre ++ v :: l ++ post) with ((pre ++ [v]) ++ l ++ post) by (by rewrite <- app_assoc).
  rewrite (IH (pre ++ [v])); [|rewrite length_app; cbn; lia|by injection Hl].
  by rewrite <- app_assoc.
Qed.

(** The word the run value [v] stands for. *)
Definition full (v : bool) : Z := if v then COUNT_MASK else 0.
Lemma full_ok v : word_ok (full v).
Proof. unfold word_ok, is_uint. by destruct v. Qed.

Lemma set_range_spec b pre l post n v :
  (0 < n)%nat → length l = n → 14 * Z.of_nat (length pre + n) < 2 ^ 32 →
  set_range (14 * Z.of_nat (length pre)) (14 * Z.of_nat n) v (with_data (pre ++ l ++ post) b) =
    Ok (with_data (pre ++ replicate n (full v) ++ post) b).
Proof.
  intros Hn Hl Hb. unfold set_range, VALUE_SIZE.
  rewrite (proj2 (Z.eqb_neq _ _)) by lia. unwrap_in_goal.
  rewrite <- Z.mul_add_distr_l, !(Z.mul_comm 14), !Z.div_mul, !Z.mod_mul by lia. cbn [assert obind Z.eqb].
  replace (Z.to_nat _) with n by lia. by apply wr_loop.
Qed.

Lemma get_range_spec b pre l post n v :
  (0 < n)%nat → length l = n → 14 * Z.of_nat (length pre + n) < 2 ^ 32 →
  get_range (14 * Z.of_nat (length pre)) (14 * Z.of_nat n) v (with_data (pre ++ l ++ post) b) =
    Ok (existsb (λ w, if v then is_set w COUNT_MASK else negb (is_set w COUNT_MASK)) l).
Proof.
  intros Hn Hl Hb. unfold get_range, VALUE_SIZE.
  rewrite (proj2 (Z.eqb_neq _ _)) by lia. unwrap_in_goal.
  rewrite <- Z.mul_add_distr_l, !(Z.mul_comm 14), !Z.div_mul, !Z.mod_mul by lia. cbn [assert obind Z.eqb].
  replace (Z.to_nat _) with n by lia. clear Hn Hb. set (test := λ w, if v then is_set w COUNT_MASK else negb (is_set w COUNT_MASK)).
  enough (∀ l pre i, i = Z.of_nat (length pre) → for_ret (length l) i (λ i _,
    obind (rd (with_data (pre ++ l ++ post) b) i) (λ w, Ok (if test w then inl true else inr tt))) tt =
    Ok (if existsb test l then inl true else inr tt)) as He.
  { subst n. rewrite (He l pre) by done. cbn. by destruct (existsb test l). }
  clear pre l n Hl. intros l. induction l as [|w l IH]; intros pre i Hi; [done|].
  cbn [length for_ret app existsb]. rewrite rd_data by done. cbn [obind].
  destruct (test w); [done|]. cbn [orb].
  replace (pre ++ w :: l ++ post) with ((pre ++ [w]) ++ l ++ post) by (by rewrite <- app_assoc).
  apply IH. rewrite length_app. cbn. lia.
Qed.

(** ** Four words at a time *)
Definition word16 (w : Z) : Prop := is_uint 16 w.
Lemma word_ok_16 w : word_ok w → word16 w.
Proof. unfold word_ok, word16, is_uint. lia. Qed.

Lemma shiftl_low w n k : 0 ≤ k < n → Z.testbit (Z.shiftl w n) k = false.
Proof. intros. apply Z.shiftl_spec_low. lia. Qed.
Lemma word16_high w m : word16 w → 16 ≤ m → Z.testbit w m = false.
Proof.
  intros Hw Hm. unfold word16, is_uint in Hw. apply Z.bits_above_log2; [lia|].
  destruct (decide (w = 0)) as [->|]; [cbn; lia|]. assert (Z.log2 w < 16) by (apply Z.log2_lt_pow2; lia). lia.
Qed.

Lemma join64_bits w0 w1 w2 w3 k m :
  word16 w0 → word16 w1 → word16 w2 → word16 w3 → 0 ≤ m < 16 →
  (k = 0 → Z.testbit (join64 w0 w1 w2 w3) (m + k) = Z.testbit w0 m) ∧
  (k = 16 → Z.testbit (join64 w0 w1 w2 w3) (m + k) = Z.testbit w1 m) ∧
  (k = 32 → Z.testbit (join64 w0 w1 w2 w3) (m + k) = Z.testbit w2 m) ∧
  (k = 48 → Z.testbit (join64 w0 w1 w2 w3) (m + k) = Z.testbit w3 m).
Proof.
  intros H0 H1 H2 H3 Hm. unfold join64. rewrite !Z.lor_spec.
  split_and!; intros ->; rewrite ?Z.shiftl_spec by lia;
    repeat match goal with
    | |- context [Z.testbit ?w ?i] =>
        first [ rewrite (Z.testbit_neg_r w i) by lia | rewrite (word16_high w i) by (done || lia) ]
    end;
    cbn [orb]; rewrite ?orb_false_r; f_equal; lia.
Qed.

(** The four words of a [uint64_t]. *)
Definition part (x k : Z) : Z := u16 (Z.shiftr x k).
Lemma part_bits x k m : 0 ≤ k → 0 ≤ m → Z.testbit (part x k) m = (m <? 16) && Z.testbit x (m + k).
Proof.
  intros. unfold part, wrap. destruct (Z.ltb_spec m 16).
  - rewrite Z.mod_pow2_bits_low, Z.shiftr_spec by lia. done.
  - by rewrite Z.mod_pow2_bits_high by lia.
Qed.
Lemma part_join w0 w1 w2 w3 :
  word16 w0 → word16 w1 → word16 w2 → word16 w3 →
  part (join64 w0 w1 w2 w3) 0 = w0 ∧ part (join64 w0 w1 w2 w3) 16 = w1 ∧
  part (join64 w0 w1 w2 w3) 32 = w2 ∧ part (join64 w0 w1 w2 w3) 48 = w3.
Proof.
  intros H0 H1 H2 H3. split_and!; apply Z.bits_inj'; intros m Hm; rewrite part_bits by lia;
    (destruct (Z.ltb_spec m 16); [|cbn [andb]; by rewrite word16_high by (done || lia)]);
    match goal with |- context [m + ?k] =>
      destruct (join64_bits w0 w1 w2 w3 k m) as (G0 & G1 & G2 & G3); try done end; cbn [andb]; auto.
Qed.

(** An operation on words that works bit by bit. *)
Class Bitwise (op : Z → Z → Z) (f : bool → bool → bool) := {
  bitwise x y m : 0 ≤ m → Z.testbit (op x y) m = f (Z.testbit x m) (Z.testbit y m);
  bitwise_false : f false false = false
}.
#[export] Instance land_bitwise : Bitwise Z.land andb.
Proof. split; [intros; apply Z.land_spec|done]. Qed.
#[export] Instance lor_bitwise : Bitwise Z.lor orb.
Proof. split; [intros; apply Z.lor_spec|done]. Qed.

(** How many words the loops over [uint64_t]s cover. *)
Lemma quads_fit b l : plain b l → ∃ n : nat,
  bm_size b / U64_VALUE_SIZE = Z.of_nat n ∧ (4 * n ≤ length l)%nat ∧ 56 * Z.of_nat n ≤ bm_size b ∧
  (∀ i : nat, (i < length l)%nat → 14 * Z.of_nat i < bm_size b).
Proof.
  intros Hb. pose proof (plain_length b l Hb) as Hl. pose proof (pl_size b l Hb) as Hs.
  exists (Z.to_nat (bm_size b / 56)). change U64_VALUE_SIZE with 56.
  split_and!; try intros i Hi; Z.to_euclidean_division_equations; lia.
Qed.

Section bitwise.
Context (op : Z → Z → Z) (f : bool → bool → bool) `{!Bitwise op f}.

Lemma part_op x y k : 0 ≤ k → part (op x y) k = op (part x k) (part y k).
Proof using Type*.
  intros Hk. apply Z.bits_inj'. intros m Hm. rewrite (bitwise (op := op)) by done. rewrite !part_bits, (bitwise (op := op)) by lia.
  destruct (m <? 16); cbn; [done|]. by rewrite bitwise_false.
Qed.
Lemma op_ok x y : word_ok x → word_ok y → 0 ≤ op x y → word_ok (op x y).
Proof using Type*.
  intros Hx Hy H0. apply word_ok_bits; [done|]. intros m Hm. rewrite (bitwise (op := op)) by lia.
  rewrite !word_bit_high by done. apply bitwise_false.
Qed.

Lemma u16_part x : u16 x = part x 0.
Proof using Type. clear Bitwise0. done. Qed.

Lemma four_words b pre w0 w1 w2 w3 post i :
  4 * i = Z.of_nat (length pre) →
  rd64 (with_data (pre ++ w0 :: w1 :: w2 :: w3 :: post) b) i = Ok (join64 w0 w1 w2 w3).
Proof using Type.
  clear Bitwise0. intros Hi. unfold rd64. rewrite rd_data by done. cbn [obind].
  assert (∀ l, pre ++ w0 :: l = (pre ++ [w0]) ++ l) as E1 by (intros; by rewrite <- app_assoc).
  assert (∀ l, pre ++ w0 :: w1 :: l = (pre ++ [w0; w1]) ++ l) as E2 by (intros; by rewrite <- app_assoc).
  assert (∀ l, pre ++ w0 :: w1 :: w2 :: l = (pre ++ [w0; w1; w2]) ++ l) as E3 by (intros; by rewrite <- app_assoc).
  rewrite E1, rd_data by (rewrite length_app; cbn; lia). cbn [obind].
  rewrite <- E1, E2, rd_data by (rewrite length_app; cbn; lia). cbn [obind].
  rewrite <- E2, E3, rd_data by (rewrite length_app; cbn; lia). done.
Qed.
Lemma four_words_write b pre w0 w1 w2 w3 post i v :
  4 * i = Z.of_nat (length pre) →
  wr64 (with_data (pre ++ w0 :: w1 :: w2 :: w3 :: post) b) i v =
    Ok (with_data (pre ++ part v 0 :: part v 16 :: part v 32 :: part v 48 :: post) b).
Proof using Type.
  clear Bitwise0. intros Hi. unfold wr64. rewrite wr_data by done. cbn [obind]. change (u16 v) with (part v 0).
  change (u16 (Z.shiftr v ?k)) with (part v k).
  generalize (part v 0) (part v 16) (part v 32) (part v 48). intros v0 v1 v2 v3.
  assert (∀ l, pre ++ v0 :: l = (pre ++ [v0]) ++ l) as E1 by (intros; by rewrite <- app_assoc).
  assert (∀ l, pre ++ v0 :: v1 :: l = (pre ++ [v0; v1]) ++ l) as E2 by (intros; by rewrite <- app_assoc).
  assert (∀ l, pre ++ v0 :: v1 :: v2 :: l = (pre ++ [v0; v1; v2]) ++ l) as E3 by (intros; by rewrite <- app_assoc).
  rewrite E1, wr_data by (rewrite length_app; cbn; lia). cbn [obind].
  rewrite <- E1, E2, wr_data by (rewrite length_app; cbn; lia). cbn [obind].
  rewrite <- E2, E3, wr_data by (rewrite length_app; cbn; lia). by rewrite <- E3.
Qed.

(** The two loops together are the operation on every pair of words. *)
Lemma zip_quads a b n : ∀ pre la lpre lb la2 lb2 i,
  4 * i = Z.of_nat (length pre) → length lpre = length pre →
  length la = (4 * n)%nat → length lb = (4 * n)%nat → Forall word16 la → Forall word16 lb →
  for_loop n i (λ i a, obind (rd64 a i) (λ x, obind (rd64 (with_data (lpre ++ lb ++ lb2) b) i) (λ y, wr64 a i (op x y))))
    (with_data (pre ++ la ++ la2) a) = Ok (with_data (pre ++ zip_with op la lb ++ la2) a).
Proof using Type*.
  induction n as [|n IH]; intros pre la lpre lb la2 lb2 i Hi Hl Hla Hlb Fa Fb.
  { destruct la, lb; done. }
  destruct la as [|a0 [|a1 [|a2 [|a3 la]]]]; cbn [length] in Hla; try lia.
  destruct lb as [|b0 [|b1 [|b2 [|b3 lb]]]]; cbn [length] in Hlb; try lia.
  rewrite !Forall_cons in Fa, Fb. destruct Fa as (? & ? & ? & ? & Fa), Fb as (? & ? & ? & ? & Fb).
  cbn [for_loop app]. rewrite four_words by done. cbn [obind]. rewrite four_words by lia. cbn [obind].
  rewrite four_words_write by done. rewrite !part_op by lia.
  destruct (part_join a0 a1 a2 a3) as (-> & -> & -> & ->); try done.
  destruct (part_join b0 b1 b2 b3) as (-> & -> & -> & ->); try done. cbn [obind].
  assert (∀ (p : list Z) x y z w l, p ++ x :: y :: z :: w :: l = (p ++ [x; y; z; w]) ++ l) as E
    by (intros; by rewrite <- app_assoc).
  rewrite (E pre _ _ _ _ (la ++ la2)), (E lpre _ _ _ _ (lb ++ lb2)).
  rewrite IH; [by rewrite <- app_assoc|rewrite length_app; cbn [length]; lia|rewrite !length_app; cbn [length]; lia|lia|lia|done|done].
Qed.
Lemma zip_rest a b la : ∀ pre lpre lb i,
  i = Z.of_nat (length pre) → length lpre = length pre → length lb = length la →
  for_loop (length la) i (λ i a, obind (rd a i) (λ x, obind (rd (with_data (lpre ++ lb) b) i) (λ y, wr a i (op x y))))
    (with_data (pre ++ la) a) = Ok (with_data (pre ++ zip_with op la lb) a).
Proof using Type.
  clear Bitwise0. induction la as [|x la IH]; intros pre lpre lb i Hi Hl Hlb; [by destruct lb|].
  destruct lb as [|y lb]; [done|]. cbn [for_loop length zip_with]. rewrite rd_data by done. cbn [obind].
  rewrite rd_data by congruence. cbn [obind]. rewrite wr_data by done. cbn [obind].
  assert (∀ (p : list Z) x l, p ++ x :: l = (p ++ [x]) ++ l) as E by (intros; by rewrite <- app_assoc).
  rewrite (E pre _ la), (E lpre _ lb), (E pre _ (zip_with op la lb)). cbn [length] in Hlb.
  apply IH; rewrite ?length_app; cbn [length]; lia.
Qed.

Lemma zip_words_spec a b la lb :
  plain a la → plain b lb → bm_size a = bm_size b → la ≠ [] →
  zip_words op a b = Ok (with_data (zip_with op la lb) a).
Proof using Type*.
  intros Ha Hb Hs Hne. pose proof (plain_length a la Ha) as H1. pose proof (plain_length b lb Hb) as H2.
  assert (length la = length lb) as Hlen by (rewrite Hs in H1; lia).
  destruct (quads_fit a la Ha) as (n & Hn & Hle & _). unfold zip_words. cbn zeta. rewrite Hn, Nat2Z.id.
  assert (Forall word16 la) as Fa by (eapply Forall_impl; [apply Ha|apply word_ok_16]).
  assert (Forall word16 lb) as Fb by (eapply Forall_impl; [apply Hb|apply word_ok_16]).
  pose proof (zip_quads a b n [] (take (4 * n) la) [] (take (4 * n) lb) (drop (4 * n) la) (drop (4 * n) lb) 0) as E.
  cbn [app] in E. rewrite !take_drop, (plain_data b lb), (plain_data a la) in E; try done; [|by destruct lb, la].
  rewrite E; clear E; try done; try (rewrite length_take; lia); try by apply Forall_take.
  cbn [obind bm_dataSize with_data]. rewrite (pl_len _ _ Ha). change U64_DIV_BASE with 4.
  pose proof (zip_rest a b (drop (4 * n) la) (zip_with op (take (4 * n) la) (take (4 * n) lb)) (take (4 * n) lb)
    (drop (4 * n) lb) (Z.of_nat n * 4)) as E.
  rewrite take_drop, (plain_data b lb) in E; [|done|by destruct lb, la].
  replace (Z.to_nat _) with (length (drop (4 * n) la)) by (rewrite length_drop; lia).
  rewrite E; [|rewrite length_zip_with, !length_take; lia|rewrite length_zip_with, !length_take; lia|rewrite !length_drop; lia].
  f_equal. f_equal. rewrite <- zip_with_app, !take_drop; [done|]. rewrite !length_take. lia.
Qed.
End bitwise.
