(* ===== verification/BitmapCompress.v ===== *)
(** * Compressed bitmaps

    The format: a sequence of chunks, each a literal word or a run of at least
    two full or empty words, whose bit count is written in base 2^14 over
    flagged words, low digit first.  [compress] writes such a sequence, and the
    loops over a compressed operand read it back. *)
From S2P Require Import Prelude Loops Bitmap BitmapSpec.

Inductive chunk :=
| Run (v : bool) (n : nat)
| Lit (w : Z).

Definition flag (v : bool) (d : Z) : Z :=
  if v then Z.lor (Z.lor COMPRESS_MASK VALUE_MASK) d else Z.lor COMPRESS_MASK d.
Fixpoint digits (fuel : nat) (c : Z) : list Z :=
  match fuel with
  | O => []
  | S fuel => if c =? 0 then [] else Z.land c COUNT_MASK :: digits fuel (Z.shiftr c VALUE_SIZE)
  end.
Definition chunk_enc (c : chunk) : list Z :=
  match c with Run v n => flag v <$> digits 5 (14 * Z.of_nat n) | Lit w => [w] end.
Definition chunk_words (c : chunk) : list Z :=
  match c with Run v n => replicate n (full v) | Lit w => [w] end.
Definition encode (cs : list chunk) : list Z := cs ≫= chunk_enc.
Definition words_of (cs : list chunk) : list Z := cs ≫= chunk_words.

Definition chunk_ok (c : chunk) : Prop :=
  match c with Run v n => (2 ≤ n)%nat ∧ 14 * Z.of_nat n < 2 ^ 32 | Lit w => word_ok w end.
(** [c] may follow [o]: two runs of one value do not touch. *)
Definition joins (o : option chunk) (c : chunk) : Prop :=
  match o, c with Some (Run v _), Run v' _ => v ≠ v' | _, _ => True end.
Fixpoint chunks_ok (cs : list chunk) : Prop :=
  match cs with
  | [] => True
  | c :: cs => chunk_ok c ∧ match head cs with Some c' => joins (Some c) c' | None => True end ∧ chunks_ok cs
  end.

Lemma joins_lit o w : joins o (Lit w).
Proof. by destruct o as [[]|]. Qed.

Lemma chunks_ok_snoc cs c :
  chunks_ok cs → chunk_ok c → joins (last cs) c → chunks_ok (cs ++ [c]).
Proof.
  induction cs as [|c0 cs IH]; intros Hcs Hc Hj; cbn; [done|].
  destruct Hcs as (H0 & H1 & H2). destruct cs as [|c1 cs].
  - cbn in *. done.
  - split_and!; [done|exact H1|]. apply IH; [done|done|]. by rewrite last_cons_cons in Hj.
Qed.

(** ** Flagged words *)
Lemma flag_eq v d : word_ok d → flag v d = (if v then 49152 else 32768) + d.
Proof.
  intros Hd. unfold flag. destruct v.
  - change (Z.lor COMPRESS_MASK VALUE_MASK) with (Z.shiftl 3 14). rewrite lor_add; [lia|lia|apply Hd].
  - change COMPRESS_MASK with (Z.shiftl 2 14). rewrite lor_add; [lia|lia|apply Hd].
Qed.
Lemma flag_compress v d : word_ok d → is_set (flag v d) COMPRESS_MASK = true.
Proof.
  intros Hd. change COMPRESS_MASK with (POS 15) at 1. rewrite is_set_testbit by lia. unfold flag.
  destruct v; rewrite !Z.lor_spec; done.
Qed.
Lemma flag_value v d : word_ok d → is_set (flag v d) VALUE_MASK = v.
Proof.
  intros Hd. change VALUE_MASK with (POS 14) at 1. rewrite is_set_testbit by lia. unfold flag.
  destruct v; rewrite !Z.lor_spec; [done|]. by rewrite (word_bit_high d).
Qed.
Lemma flag_count v d : word_ok d → Z.land (flag v d) COUNT_MASK = d.
Proof.
  intros Hd. rewrite land_COUNT_MASK, flag_eq by done. unfold word_ok, is_uint in Hd.
  destruct v.
  - replace (49152 + d) with (d + 3 * 2 ^ 14) by lia. rewrite Z.mod_add by lia. by apply Z.mod_small.
  - replace (32768 + d) with (d + 2 * 2 ^ 14) by lia. rewrite Z.mod_add by lia. by apply Z.mod_small.
Qed.
Lemma digit_ok c : word_ok (Z.land c COUNT_MASK).
Proof. rewrite land_COUNT_MASK. apply wrap_bound. lia. Qed.

(** ** Digits *)
Lemma digits_cons fuel c : c ≠ 0 → digits (S fuel) c = Z.land c COUNT_MASK :: digits fuel (Z.shiftr c VALUE_SIZE).
Proof. intros. cbn. by rewrite (proj2 (Z.eqb_neq _ _)). Qed.
Lemma shiftr14 c : Z.shiftr c VALUE_SIZE = c / 2 ^ 14.
Proof. by rewrite Z.shiftr_div_pow2. Qed.

(** A number of bits below 2^(14 k) takes at most [k] words. *)
Lemma digits_length fuel : ∀ c k, 0 ≤ c < 2 ^ (14 * Z.of_nat k) → (length (digits fuel c) ≤ k)%nat.
Proof.
  induction fuel as [|fuel IH]; intros c k Hc; cbn [digits]; [cbn; lia|].
  destruct (Z.eqb_spec c 0); [cbn; lia|]. destruct k as [|k]; [cbn in Hc; lia|].
  cbn [length]. specialize (IH (Z.shiftr c VALUE_SIZE) k). enough (length (digits fuel (Z.shiftr c VALUE_SIZE)) ≤ k)%nat by lia.
  apply IH. rewrite shiftr14. replace (14 * Z.of_nat (S k)) with (14 + 14 * Z.of_nat k) in Hc by lia.
  rewrite Z.pow_add_r in Hc by lia. split; [apply Z.div_pos; lia|apply Z.div_lt_upper_bound; lia].
Qed.
Lemma run_digits n : (2 ≤ n)%nat → (length (digits 5 (14 * Z.of_nat n)) ≤ n)%nat.
Proof.
  intros Hn. apply digits_length. split; [lia|]. rewrite Z.pow_mul_r by lia.
  pose proof (Z.pow_gt_lin_r (2 ^ 14) (Z.of_nat n) ltac:(lia) ltac:(lia)).
  destruct n as [|n]; [lia|]. rewrite Nat2Z.inj_succ, Z.pow_succ_r by lia. clear H.
  pose proof (Z.pow_gt_lin_r (2 ^ 14) (Z.of_nat n) ltac:(lia) ltac:(lia)). lia.
Qed.

(** ** Writing *)
Lemma emit_run_spec cap v fuel : ∀ c out,
  0 ≤ c < 2 ^ (14 * Z.of_nat fuel) → Z.of_nat (length out + length (digits fuel c)) ≤ cap →
  emit_run fuel cap v c out = Ok (out ++ (flag v <$> digits fuel c)).
Proof.
  induction fuel as [|fuel IH]; intros c out Hc Hcap.
  { cbn in *. replace c with 0 by lia. by rewrite app_nil_r. }
  cbn [emit_run digits] in *. destruct (Z.eqb_spec c 0); [by rewrite app_nil_r|].
  cbn [length] in Hcap. unfold emit. rewrite (proj2 (Z.ltb_lt _ _)) by lia. cbn [obind].
  rewrite IH.
  - cbn [fmap list_fmap]. rewrite <- app_assoc. by destruct v.
  - rewrite shiftr14. replace (14 * Z.of_nat (S fuel)) with (14 + 14 * Z.of_nat fuel) in Hc by lia.
    rewrite Z.pow_add_r in Hc by lia. split; [apply Z.div_pos; lia|apply Z.div_lt_upper_bound; lia].
  - rewrite length_app. cbn [length]. lia.
Qed.

(** What a flush appends: nothing, one word, or a run. *)
Definition flushed (v : bool) (k : nat) : list chunk :=
  match k with O => [] | 1%nat => [Lit (full v)] | _ => [Run v k] end.
Lemma flushed_words v k : words_of (flushed v k) = replicate k (full v).
Proof. destruct k as [|[|k]]; [done|done|]. cbn [flushed]. unfold words_of. cbn. by rewrite app_nil_r. Qed.
Lemma encode_app cs1 cs2 : encode (cs1 ++ cs2) = encode cs1 ++ encode cs2.
Proof. apply bind_app. Qed.
Lemma words_of_app cs1 cs2 : words_of (cs1 ++ cs2) = words_of cs1 ++ words_of cs2.
Proof. apply bind_app. Qed.
Lemma encode_flushed_length v k : (length (encode (flushed v k)) ≤ k)%nat.
Proof.
  destruct k as [|[|k]]; [done|done|]. cbn [flushed]. unfold encode. cbn [mbind list_bind chunk_enc].
  rewrite app_nil_r, length_fmap. apply run_digits. lia.
Qed.

Lemma flush_spec cap v k out :
  14 * Z.of_nat k < 2 ^ 32 → Z.of_nat (length out + k) ≤ cap →
  flush cap v (14 * Z.of_nat k) out = Ok (out ++ encode (flushed v k)).
Proof.
  intros Hk Hcap. unfold flush, VALUE_SIZE. rewrite (Z.mul_comm 14), Z.div_mul by lia.
  destruct k as [|[|k]].
  - cbn. by rewrite app_nil_r.
  - cbn [flushed]. rewrite (proj2 (Z.ltb_ge _ _)) by lia. cbn [Z.of_nat]. cbn [Z.eqb negb Z.mul].
    unfold emit. rewrite (proj2 (Z.ltb_lt _ _)) by lia. by destruct v.
  - rewrite (proj2 (Z.ltb_lt _ _)) by lia. pose proof (run_digits (S (S k)) ltac:(lia)) as Hd.
    rewrite Z.mul_comm, emit_run_spec; [|cbn; lia|lia].
    f_equal. f_equal. unfold encode. cbn [flushed mbind list_bind chunk_enc]. by rewrite app_nil_r.
Qed.

(** Counting the bits of a word tells the full and the empty ones. *)
Lemma popcount_0 n : popcount n 0 = 0.
Proof. induction n; [done|]. cbn [popcount]. by rewrite Z.shiftr_0_l, IHn. Qed.
Lemma popcount_bounds m : ∀ n w, (m ≤ n)%nat → 0 ≤ w < 2 ^ Z.of_nat m →
  0 ≤ popcount n w ≤ Z.of_nat m ∧ (popcount n w = 0 ↔ w = 0) ∧
  (popcount n w = Z.of_nat m ↔ w = 2 ^ Z.of_nat m - 1).
Proof.
  induction m as [|m IH]; intros n w Hn Hw.
  { assert (w = 0) as -> by (cbn in Hw; lia). rewrite popcount_0. cbn. lia. }
  destruct n as [|n]; [lia|]. cbn [popcount]. rewrite Nat2Z.inj_succ, Z.pow_succ_r in * by lia.
  rewrite Z.shiftr_div_pow2, Z.pow_1_r by lia.
  pose proof (Z.div_mod w 2 ltac:(lia)) as Hd. rewrite Zmod_odd in Hd.
  destruct (IH n (w / 2) ltac:(lia)) as (Hb & Hz & Hf).
  { split; [apply Z.div_pos; lia|apply Z.div_lt_upper_bound; lia]. }
  destruct (Z.odd w); cbn [Z.b2z]; lia.
Qed.
Lemma popcount_word w : word_ok w →
  (popcount 32 w = 0 ↔ w = 0) ∧ (popcount 32 w = 14 ↔ w = COUNT_MASK).
Proof. intros Hw. apply (popcount_bounds 14 32 w); [lia|exact Hw]. Qed.

(** ** The compression loop *)
Record comp_inv (cap : Z) (st : bool * Z * list Z) (cs : list chunk) (k : nat) : Prop := {
  ci_count : st.1.2 = 14 * Z.of_nat k;
  ci_out : st.2 = encode cs;
  ci_ok : chunks_ok cs;
  ci_join : match k with
            | O => ∀ v n, last cs ≠ Some (Run v n)
            | _ => ∀ n, last cs ≠ Some (Run (st.1.1) n)
            end;
  ci_cap : (length (encode cs) ≤ length (words_of cs))%nat
}.

Lemma flushed_ok cs v k :
  chunks_ok cs → match k with O => ∀ v n, last cs ≠ Some (Run v n) | _ => ∀ n, last cs ≠ Some (Run v n) end →
  14 * Z.of_nat k < 2 ^ 32 →
  chunks_ok (cs ++ flushed v k) ∧
  (∀ v' n, last (cs ++ flushed v k) = Some (Run v' n) → v' = v).
Proof.
  intros Hcs Hj Hk. destruct k as [|[|k]]; cbn [flushed].
  - rewrite app_nil_r. split; [done|]. intros v' n E. by apply Hj in E.
  - split.
    + apply chunks_ok_snoc; [done|apply full_ok|]. apply joins_lit.
    + intros v' n. rewrite last_snoc. done.
  - split.
    + apply chunks_ok_snoc; [done|split; [lia|done]|]. destruct (last cs) as [[v' n|]|]; try done.
      cbn. intros ->. by apply (Hj n).
    + intros v' n. rewrite last_snoc. by intros [= -> _].
Qed.

Lemma compress_step_ok cap w st cs k done_words :
  comp_inv cap st cs k → word_ok w →
  words_of cs ++ replicate k (full (st.1.1)) = done_words →
  14 * Z.of_nat (length done_words + 1) < 2 ^ 32 → Z.of_nat (length done_words + 1) ≤ cap →
  ∃ st' cs' k', compress_step cap w st = Ok st' ∧ comp_inv cap st' cs' k' ∧
    words_of cs' ++ replicate k' (full (st'.1.1)) = done_words ++ [w].
Proof.
  intros [Hcnt Hout Hok Hj Hcp] Hw Hd Hlen Hcap. destruct st as [[cv cc] out]. cbn [fst snd] in *. subst cc out.
  assert (length done_words = length (words_of cs) + k)%nat as Hl by (subst; by rewrite length_app, length_replicate).
  destruct (popcount_word w Hw) as [P0 P14]. unfold compress_step. rewrite word_land_COUNT by done.
  set (c := popcount 32 w) in *. change VALUE_SIZE with 14.
  (* the flushed state *)
  destruct (flushed_ok cs cv k Hok Hj ltac:(lia)) as [Hok' Hlast'].
  pose proof (encode_flushed_length cv k) as Hfl.
  assert (flush cap cv (14 * Z.of_nat k) (encode cs) = Ok (encode (cs ++ flushed cv k))) as Hflush
    by (rewrite encode_app; apply flush_spec; lia).
  assert (length (encode (cs ++ flushed cv k)) ≤ length (words_of (cs ++ flushed cv k)))%nat as Hcp'
    by (rewrite encode_app, words_of_app, !length_app, flushed_words, length_replicate; lia).
  assert (words_of (cs ++ flushed cv k) = done_words) as Hdw by (by rewrite words_of_app, flushed_words).
  assert ((if 1 <? 14 * Z.of_nat k / 14 then assert ((14 * Z.of_nat k) mod 14 =? 0) else Ok tt) = Ok tt) as Has
    by (rewrite (Z.mul_comm 14), Z.mod_mul by lia; by destruct (1 <? _)).
  assert (∀ v, w = full v → v = cv → ∃ st' cs' k',
    Ok (cv, u64 (14 * Z.of_nat k + 14), encode cs) = Ok st' ∧ comp_inv cap st' cs' k' ∧
    words_of cs' ++ replicate k' (full st'.1.1) = done_words ++ [w]) as Hgrow.
  { intros v -> ->. eexists _, cs, (S k). split; [done|]. split.
    - split; cbn [fst snd]; [unwrap_in_goal; lia|done|done| |done]. destruct k; [|done]. intros n. apply Hj.
    - cbn [fst snd]. rewrite <- Hd, <- app_assoc, replicate_S_end. done. }
  assert (∀ v, w = full v → v ≠ cv → ∃ st' cs' k',
    Ok (v, 14, encode (cs ++ flushed cv k)) = Ok st' ∧ comp_inv cap st' cs' k' ∧
    words_of cs' ++ replicate k' (full st'.1.1) = done_words ++ [w]) as Hturn.
  { intros v -> Hne. eexists _, (cs ++ flushed cv k), 1%nat. split; [done|]. split.
    - split; cbn [fst snd]; [done|done|done| |done]. intros n E. apply Hlast' in E. done.
    - cbn [fst snd replicate]. by rewrite Hdw. }
  destruct (Z.eqb_spec c 0) as [E0|E0].
  { apply P0 in E0 as Ew. cbn [andb orb negb]. destruct cv; cbn [eqb andb negb].
    - rewrite Has. cbn [obind]. rewrite Hflush. cbn [obind]. rewrite (proj2 (Z.eqb_neq c 14)) by lia.
      by apply (Hturn false).
    - by apply (Hgrow false). }
  destruct (Z.eqb_spec c 14) as [E14|E14].
  { apply P14 in E14 as Ew. cbn [andb orb negb]. destruct cv; cbn [eqb andb negb].
    - by apply (Hgrow true).
    - rewrite Has. cbn [obind]. rewrite Hflush. cbn [obind]. by apply (Hturn true). }
  cbn [andb orb negb]. rewrite Has. cbn [obind]. rewrite Hflush. cbn [obind].
  unfold emit. rewrite (proj2 (Z.ltb_lt _ _)) by (rewrite Hdw in Hcp'; lia). cbn [obind].
  eexists _, ((cs ++ flushed cv k) ++ [Lit w]), 0%nat. split; [done|]. split.
  - split; cbn [fst snd]; [done|by rewrite (encode_app _ [Lit w])| | |].
    + apply chunks_ok_snoc; [done|done|]. apply joins_lit.
    + intros v n. by rewrite last_snoc.
    + rewrite (encode_app _ [Lit w]), (words_of_app _ [Lit w]), !length_app. cbn. lia.
  - rewrite (words_of_app _ [Lit w]), Hdw. cbn. by rewrite app_nil_r.
Qed.

Lemma compress_loop_ok cap l : ∀ st cs k done_words,
  comp_inv cap st cs k → Forall word_ok l →
  words_of cs ++ replicate k (full (st.1.1)) = done_words →
  14 * Z.of_nat (length done_words + length l) < 2 ^ 32 → Z.of_nat (length done_words + length l) ≤ cap →
  ∃ st' cs' k', compress_loop cap l st = Ok st' ∧ comp_inv cap st' cs' k' ∧
    words_of cs' ++ replicate k' (full (st'.1.1)) = done_words ++ l.
Proof.
  induction l as [|w l IH]; intros st cs k dw Hi Hl Hd Hlen Hcap; cbn [compress_loop].
  { exists st, cs, k. by rewrite app_nil_r. }
  apply Forall_cons in Hl as [Hw Hl]. cbn [length] in *.
  destruct (compress_step_ok cap w st cs k dw) as (st1 & cs1 & k1 & -> & Hi1 & Hd1); [done|done|done|lia|lia|].
  cbn [obind]. edestruct (IH st1 cs1 k1 (dw ++ [w])) as (st' & cs' & k' & E & Hi' & Hd');
    [done|done|done|rewrite length_app; cbn; lia|rewrite length_app; cbn; lia|].
  exists st', cs', k'. split_and!; [done|done|]. by rewrite Hd', <- app_assoc.
Qed.

Lemma words_plain b l : plain b l → words b = Ok l.
Proof.
  intros [_ H _ H' _ _]. unfold words. rewrite H, H'. destruct l; [done|].
  rewrite (proj2 (Z.ltb_ge _ _)) by lia. rewrite Nat2Z.id, take_ge by lia. done.
Qed.

(** [c] is a compressed bitmap that stands for the words [l]. *)
Definition compressed (c : Bitmap) (size : Z) (l : list Z) : Prop :=
  ∃ cs, c = mkBitmap true size (Z.of_nat (length (encode cs))) (Some (encode cs)) ∧
    chunks_ok cs ∧ words_of cs = l.

Lemma compress_spec b l :
  plain b l → ∃ c, compress b = Ok c ∧ compressed c (bm_size b) l ∧ bm_dataSize c ≤ bm_dataSize b.
Proof.
  intros Hb. pose proof (plain_length b l Hb) as Hl. pose proof (pl_size _ _ Hb) as Hs.
  assert (14 * Z.of_nat (length l) < 2 ^ 32) as Hbd by (Z.to_euclidean_division_equations; lia).
  unfold compress. rewrite (pl_mode _ _ Hb), (words_plain b l Hb). cbn [obind].
  destruct (compress_loop_ok (bm_dataSize b) l (false, 0, []) [] 0 []) as (st & cs & k & -> & Hi & Hd).
  - split; done.
  - apply Hb.
  - done.
  - cbn. lia.
  - rewrite (pl_len _ _ Hb). cbn. lia.
  - destruct st as [[cv cc] out], Hi as [Hcnt Hout Hok Hj Hcp]. cbn [fst snd app] in *. subst cc out. cbn [obind].
    assert (length l = length (words_of cs) + k)%nat as Hll by (rewrite <- Hd; by rewrite length_app, length_replicate).
    pose proof (encode_flushed_length cv k) as Hfl.
    assert ((if 0 <? 14 * Z.of_nat k then flush (bm_dataSize b) cv (14 * Z.of_nat k) (encode cs) else Ok (encode cs))
      = Ok (encode (cs ++ flushed cv k))) as ->.
    { rewrite (pl_len _ _ Hb), encode_app. destruct (Z.ltb_spec 0 (14 * Z.of_nat k)).
      - apply flush_spec; lia.
      - replace k with 0%nat by lia. cbn. by rewrite app_nil_r. }
    cbn [obind]. eexists. split; [done|]. cbn [bm_dataSize]. split.
    + exists (cs ++ flushed cv k). split; [done|].
      destruct (flushed_ok cs cv k Hok Hj ltac:(lia)) as [Hok' _]. split; [done|].
      by rewrite words_of_app, flushed_words.
    + rewrite (pl_len _ _ Hb), encode_app, length_app. lia.
Qed.

(** ** Reading *)
Definition run_ends (v : bool) (rest : list Z) : Prop :=
  match rest with [] => True | w :: _ => is_set w COMPRESS_MASK && eqb v (is_set w VALUE_MASK) = false end.

Lemma run_tail_ends v k count rest : run_ends v rest → run_tail v k count rest = Ok (count, rest).
Proof. destruct rest as [|w rest]; [done|]. cbn. by intros ->. Qed.

Lemma run_tail_spec v fuel : ∀ x k count rest,
  0 ≤ x < 2 ^ (14 * Z.of_nat fuel) → 1 ≤ k → 0 ≤ count < 2 ^ (14 * k) → x * 2 ^ (14 * k) + count < 2 ^ 32 →
  run_ends v rest →
  run_tail v k count ((flag v <$> digits fuel x) ++ rest) = Ok (x * 2 ^ (14 * k) + count, rest).
Proof.
  induction fuel as [|fuel IH]; intros x k count rest Hx Hk Hc Hb Hr; cbn [digits].
  { cbn in Hx. replace x with 0 by lia. by apply run_tail_ends. }
  destruct (Z.eqb_spec x 0) as [->|Hne]; [by apply run_tail_ends|].
  cbn [fmap list_fmap app run_tail]. rewrite flag_compress, flag_value, flag_count by apply digit_ok.
  rewrite eqb_reflx. cbn [andb]. change VALUE_SIZE with 14 at 1 2.
  assert (14 * k < 32) as Hk'. { apply (Z.pow_lt_mono_r_iff 2); [lia|lia|]. nia. }
  rewrite (proj2 (Z.leb_gt _ _)) by lia.
  set (d := Z.land x COUNT_MASK). assert (word_ok d) as Hd by apply digit_ok.
  assert (x = x / 2 ^ 14 * 2 ^ 14 + d) as Hxd
    by (unfold d; rewrite land_COUNT_MASK; pose proof (Z.div_mod x (2 ^ 14)); lia).
  assert (0 ≤ x / 2 ^ 14) by (apply Z.div_pos; lia). unfold word_ok, is_uint in Hd.
  assert (0 < 2 ^ (14 * k)) by (apply Z.pow_pos_nonneg; lia).
  rewrite Z.shiftl_mul_pow2 by lia. rewrite wrap_small by nia.
  rewrite <- Z.shiftl_mul_pow2, lor_add by lia. rewrite shiftr14.
  assert (2 ^ (14 * (k + 1)) = 2 ^ 14 * 2 ^ (14 * k)) as Hp by (rewrite <- Z.pow_add_r by lia; f_equal; lia).
  rewrite IH; try lia; [|split; [done|]|rewrite Hp; nia|done].
  - f_equal. f_equal. rewrite Hp. nia.
  - replace (14 * Z.of_nat (S fuel)) with (14 + 14 * Z.of_nat fuel) in Hx by lia.
    rewrite Z.pow_add_r in Hx by lia. apply Z.div_lt_upper_bound; lia.
Qed.

(** The first word of a run and the rest of its digits. *)
Lemma run_enc v n : (2 ≤ n)%nat →
  chunk_enc (Run v n) = flag v (Z.land (14 * Z.of_nat n) COUNT_MASK) ::
    (flag v <$> digits 4 (14 * Z.of_nat n / 2 ^ 14)).
Proof. intros Hn. cbn [chunk_enc]. rewrite digits_cons by lia. by rewrite shiftr14. Qed.

Lemma run_ends_next v n cs :
  chunks_ok (Run v n :: cs) → run_ends v (encode cs).
Proof.
  intros (_ & Hj & Hcs). destruct cs as [|[v' n'|w] cs]; [done| |].
  - cbn in Hj. destruct Hcs as ((Hn' & _) & _). change (encode (Run v' n' :: cs)) with (chunk_enc (Run v' n') ++ encode cs).
    rewrite run_enc by done. cbn. rewrite flag_compress, flag_value by apply digit_ok. by destruct v, v'.
  - destruct Hcs as (Hw & _). cbn. by rewrite word_not_flag.
Qed.

Section walk.
Context {St R : Type} (on_run : Z → Z → bool → St → outcome (R + St)) (on_word : Z → Z → St → outcome (R + St)).

(** The loop, chunk by chunk. *)
Fixpoint walk_chunks (cs : list chunk) (cur_pos : Z) (s : St) : outcome (R + St) :=
  match cs with
  | [] => Ok (inr s)
  | Run v n :: cs =>
    obind (on_run cur_pos (14 * Z.of_nat n) v s) (λ r,
    match r with inl r => Ok (inl r) | inr s => walk_chunks cs (cur_pos + 14 * Z.of_nat n) s end)
  | Lit w :: cs =>
    obind (on_word cur_pos w s) (λ r,
    match r with inl r => Ok (inl r) | inr s => walk_chunks cs (cur_pos + 14) s end)
  end.

Lemma obind_ext {A B} (m : outcome A) (k1 k2 : A → outcome B) : (∀ a, k1 a = k2 a) → obind m k1 = obind m k2.
Proof using Type. clear. intros E. by destruct m; cbn. Qed.

Lemma walk_encode cs : ∀ fuel cur_pos s,
  chunks_ok cs → (length (encode cs) ≤ fuel)%nat → 0 ≤ cur_pos →
  cur_pos + 14 * Z.of_nat (length (words_of cs)) < 2 ^ 32 →
  walk on_run on_word fuel (encode cs) cur_pos s = walk_chunks cs cur_pos s.
Proof using Type.
  induction cs as [|c cs IH]; intros fuel cur_pos s Hok Hf Hp Hb; [by destruct fuel|].
  change (encode (c :: cs)) with (chunk_enc c ++ encode cs) in *.
  change (words_of (c :: cs)) with (chunk_words c ++ words_of cs) in Hb.
  rewrite length_app in Hf, Hb. pose proof Hok as (Hc & _ & Hcs). destruct c as [v n|w].
  - destruct Hc as [Hn Hn32]. rewrite run_enc in Hf |- * by done. cbn [chunk_words length] in Hf, Hb.
    rewrite length_replicate in Hb. destruct fuel as [|fuel]; [lia|]. cbn [app walk walk_chunks].
    rewrite flag_compress, flag_value, flag_count by apply digit_ok.
    rewrite (run_tail_spec v 4 _ 1); try lia.
    2:{ split; [apply Z.div_pos; lia|]. apply Z.div_lt_upper_bound; [lia|]. change (2 ^ 14 * 2 ^ (14 * Z.of_nat 4)) with (2 ^ 70). lia. }
    2:{ apply digit_ok. }
    2:{ rewrite land_COUNT_MASK. change (14 * 1) with 14. pose proof (Z.div_mod (14 * Z.of_nat n) (2 ^ 14)). lia. }
    2:{ by eapply run_ends_next. }
    cbn [obind fst snd].
    replace (14 * Z.of_nat n / 2 ^ 14 * 2 ^ (14 * 1) + Z.land (14 * Z.of_nat n) COUNT_MASK) with (14 * Z.of_nat n)
      by (rewrite land_COUNT_MASK; change (14 * 1) with 14; pose proof (Z.div_mod (14 * Z.of_nat n) (2 ^ 14)); lia).
    apply obind_ext. intros [r|s']; [done|]. unwrap_in_goal. apply IH; [done|lia|lia|lia].
  - cbn [chunk_enc chunk_words length app] in *. destruct fuel as [|fuel]; [lia|]. cbn [walk walk_chunks].
    rewrite word_not_flag, word_land_COUNT by done. apply obind_ext. intros [r|s']; [done|].
    change VALUE_SIZE with 14. unwrap_in_goal. apply IH; [done|lia|lia|lia].
Qed.

Lemma words_ok_of cs : chunks_ok cs → Forall word_ok (words_of cs).
Proof using Type.
  clear. induction cs as [|c cs IH]; [constructor|]. intros (Hc & _ & Hcs).
  change (words_of (c :: cs)) with (chunk_words c ++ words_of cs). apply Forall_app. split; [|by apply IH].
  destruct c; cbn; [apply Forall_replicate, full_ok|by constructor].
Qed.
End walk.

(** Handlers that combine the words of the operand with those of [a]. *)
Section zip.
Context (f : Z → Z → Z) (a : Bitmap).
Context (on_run : Z → Z → bool → Bitmap → outcome (Empty_set + Bitmap)).
Context (on_word : Z → Z → Bitmap → outcome (Empty_set + Bitmap)).
Context (on_run_zip : ∀ pre l1 l2 v n, (0 < n)%nat → length l1 = n → Forall word_ok l1 →
  14 * Z.of_nat (length pre + n) < 2 ^ 32 →
  on_run (14 * Z.of_nat (length pre)) (14 * Z.of_nat n) v (with_data (pre ++ l1 ++ l2) a) =
    Ok (inr (with_data (pre ++ zip_with f l1 (replicate n (full v)) ++ l2) a))).
Context (on_word_zip : ∀ pre x l2 w, word_ok x → word_ok w →
  on_word (14 * Z.of_nat (length pre)) w (with_data (pre ++ x :: l2) a) =
    Ok (inr (with_data (pre ++ f x w :: l2) a))).

Lemma walk_zip cs : ∀ pre la,
  chunks_ok cs → length la = length (words_of cs) → Forall word_ok la →
  14 * Z.of_nat (length pre + length la) < 2 ^ 32 →
  walk_chunks on_run on_word cs (14 * Z.of_nat (length pre)) (with_data (pre ++ la) a) =
    Ok (inr (with_data (pre ++ zip_with f la (words_of cs)) a)).
Proof using Type*.
  induction cs as [|c cs IH]; intros pre la Hok Hl Hla Hb.
  { cbn in Hl. destruct la; [done|done]. }
  change (words_of (c :: cs)) with (chunk_words c ++ words_of cs) in *. rewrite length_app in Hl.
  destruct Hok as (Hc & _ & Hcs). destruct c as [v n|w]; cbn [chunk_words walk_chunks] in *.
  - destruct Hc as [Hn _]. rewrite length_replicate in Hl.
    rewrite <- (take_drop n la) at 1. rewrite <- (take_drop n la) in Hla. apply Forall_app in Hla as [Hla1 Hla2].
    rewrite on_run_zip; [|lia|rewrite length_take; lia|done|lia]. cbn [obind].
    assert (length (zip_with f (take n la) (replicate n (full v))) = n) as Hz
      by (rewrite length_zip_with, length_take, length_replicate; lia).
    replace (14 * Z.of_nat (length pre) + 14 * Z.of_nat n) with
      (14 * Z.of_nat (length (pre ++ zip_with f (take n la) (replicate n (full v))))) by (rewrite length_app; lia).
    rewrite app_assoc, IH; [|done|rewrite length_drop; lia|done|rewrite length_app, length_drop; lia].
    rewrite <- app_assoc, <- zip_with_app by (rewrite length_take, length_replicate; lia).
    by rewrite take_drop.
  - cbn [length] in Hl. destruct la as [|x la]; [done|]. cbn [length] in *. apply Forall_cons in Hla as [Hx Hla].
    rewrite on_word_zip by done. cbn [obind].
    replace (14 * Z.of_nat (length pre) + 14) with (14 * Z.of_nat (length (pre ++ [f x w])))
      by (rewrite length_app; cbn [length]; lia).
    replace (pre ++ f x w :: la) with ((pre ++ [f x w]) ++ la) by (by rewrite <- app_assoc).
    rewrite IH; [|done|lia|done|rewrite length_app; cbn [length]; lia]. by rewrite <- app_assoc.
Qed.
End zip.

Lemma words_compressed c size l : compressed c size l → words c = Ok (default [] (bm_data c)).
Proof.
  intros (cs & -> & _ & _). unfold words. cbn. rewrite (proj2 (Z.ltb_ge _ _)) by lia.
  by rewrite Nat2Z.id, take_ge.
Qed.

Lemma walk_all_zip f a c size lb la on_run on_word :
  compressed c size lb → length la = length lb → Forall word_ok la → 14 * Z.of_nat (length la) < 2 ^ 32 →
  (∀ pre l1 l2 v n, (0 < n)%nat → length l1 = n → Forall word_ok l1 → 14 * Z.of_nat (length pre + n) < 2 ^ 32 →
    on_run (14 * Z.of_nat (length pre)) (14 * Z.of_nat n) v (with_data (pre ++ l1 ++ l2) a) =
      Ok (inr (with_data (pre ++ zip_with f l1 (replicate n (full v)) ++ l2) a))) →
  (∀ pre x l2 w, word_ok x → word_ok w →
    on_word (14 * Z.of_nat (length pre)) w (with_data (pre ++ x :: l2) a) =
      Ok (inr (with_data (pre ++ f x w :: l2) a))) →
  walk_all on_run on_word c (with_data la a) = Ok (with_data (zip_with f la lb) a).
Proof.
  intros Hc Hl Hla Hb H1 H2. unfold walk_all. rewrite (words_compressed c size lb Hc).
  destruct Hc as (cs & -> & Hok & <-). cbn [bm_data default obind].
  unfold id. rewrite walk_encode; [|done|done|lia|lia].
  pose proof (walk_zip f a on_run on_word H1 H2 cs [] la) as E.
  change (14 * Z.of_nat (length (@nil Z))) with 0 in E. cbn [app length] in E.
  rewrite E; [done|done|done|done|lia].
Qed.

(** ** The loops over a compressed operand *)
Lemma zip_and_run l v n : length l = n → Forall word_ok l →
  zip_with Z.land l (replicate n (full v)) = if v then l else replicate n 0.
Proof.
  intros <- Hl. induction Hl as [|w l Hw Hl IH]; [by destruct v|]. cbn [length replicate zip_with]. rewrite IH.
  destruct v; cbn [full]; [by rewrite word_land_COUNT|by rewrite Z.land_0_r].
Qed.
Lemma lor_COUNT_MASK w : word_ok w → Z.lor w COUNT_MASK = COUNT_MASK.
Proof.
  intros Hw. change COUNT_MASK with (Z.ones 14). apply Z.lor_ones_low; [apply Hw|].
  unfold word_ok, is_uint in Hw. destruct (decide (w = 0)) as [->|]; [done|]. apply Z.log2_lt_pow2; lia.
Qed.
Lemma zip_or_run l v n : length l = n → Forall word_ok l →
  zip_with Z.lor l (replicate n (full v)) = if v then replicate n COUNT_MASK else l.
Proof.
  intros <- Hl. induction Hl as [|w l Hw Hl IH]; [by destruct v|]. cbn [length replicate zip_with]. rewrite IH.
  destruct v; cbn [full]; [by rewrite lor_COUNT_MASK|by rewrite Z.lor_0_r].
Qed.
Lemma zip_snd_run (l : list Z) v n : length l = n →
  zip_with (λ _ w, w) l (replicate n (full v)) = replicate n (full v).
Proof. intros <-. induction l as [|w l IH]; [done|]. cbn. by rewrite IH. Qed.
Lemma zip_snd {A B} (l : list A) (k : list B) : length l = length k → zip_with (λ _ w, w) l k = k.
Proof. revert k. induction l as [|x l IH]; intros [|y k]; try done. cbn. intros [= ?]. by rewrite IH. Qed.

Lemma div14 n : 14 * Z.of_nat n / VALUE_SIZE = Z.of_nat n.
Proof. unfold VALUE_SIZE. rewrite Z.mul_comm. apply Z.div_mul. lia. Qed.

Lemma plain_bound b l : plain b l → 14 * Z.of_nat (length l) < 2 ^ 32.
Proof.
  intros Hb. pose proof (plain_length b l Hb). pose proof (pl_size _ _ Hb).
  Z.to_euclidean_division_equations; lia.
Qed.
Lemma plain_same_length a b la lb : plain a la → plain b lb → bm_size a = bm_size b → length la = length lb.
Proof. intros Ha Hb Hs. pose proof (plain_length a la Ha). pose proof (plain_length b lb Hb). rewrite Hs in *. lia. Qed.

Lemma and_compressed_spec a c la lb size :
  plain a la → la ≠ [] → compressed c size lb → length la = length lb →
  and_compressed c a = Ok (with_data (zip_with Z.land la lb) a).
Proof.
  intros Ha Hne Hc Hl. unfold and_compressed. rewrite <- (plain_data a la) at 1 by done.
  eapply walk_all_zip; [done|done|apply Ha|by eapply plain_bound| |].
  - intros pre l1 l2 v n Hn Hl1 Hw Hb. rewrite zip_and_run by done. destruct v; [done|].
    cbn. by rewrite set_range_spec.
  - intros pre x l2 w Hx Hw. rewrite div14. erewrite rd_data by done. cbn [obind].
    by rewrite wr_data.
Qed.
Lemma or_compressed_spec a c la lb size :
  plain a la → la ≠ [] → compressed c size lb → length la = length lb →
  or_compressed c a = Ok (with_data (zip_with Z.lor la lb) a).
Proof.
  intros Ha Hne Hc Hl. unfold or_compressed. rewrite <- (plain_data a la) at 1 by done.
  eapply walk_all_zip; [done|done|apply Ha|by eapply plain_bound| |].
  - intros pre l1 l2 v n Hn Hl1 Hw Hb. rewrite zip_or_run by done. destruct v; [|done].
    cbn. by rewrite set_range_spec.
  - intros pre x l2 w Hx Hw. rewrite div14. erewrite rd_data by done. cbn [obind].
    by rewrite wr_data.
Qed.
Lemma uncompress_spec c l size :
  compressed c size l → 0 ≤ size < 2 ^ 32 - 14 → Z.of_nat (length l) = words_for size → l ≠ [] →
  uncompress c = Ok (mkBitmap false size (Z.of_nat (length l)) (Some l)).
Proof.
  intros Hc Hs Hl Hne. pose proof Hc as (cs & -> & Hok & Hw). unfold uncompress. cbn [bm_compress negb bm_size].
  pose proof (new_Bitmap_plain size Hs) as Hn. set (z := replicate _ 0) in Hn.
  assert (length z = length l) as Hz by (unfold z; rewrite length_replicate; lia).
  rewrite <- (plain_data _ z Hn) by (by destruct z, l).
  erewrite (walk_all_zip (λ _ w, w)); [|done|done|apply Hn|by eapply plain_bound| |].
  - rewrite zip_snd by done. rewrite Hl. unfold with_data, new_Bitmap. cbn. by rewrite <- Hl.
  - intros pre l1 l2 v n Hn' Hl1 _ Hb. rewrite zip_snd_run by done. cbn. by rewrite set_range_spec.
  - intros pre x l2 w _ _. rewrite div14. by rewrite wr_data.
Qed.

(** ** [cross] *)
Definition meets (la lb : list Z) : bool := existsb (λ xy, is_set (xy.1) (xy.2)) (zip la lb).
Lemma meets_app la1 la2 lb1 lb2 : length la1 = length lb1 →
  meets (la1 ++ la2) (lb1 ++ lb2) = meets la1 lb1 || meets la2 lb2.
Proof. intros Hl. unfold meets. rewrite zip_with_app by done. apply existsb_app. Qed.

Lemma meets_run l n v : length l = n → meets l (replicate n (full v)) = if v then existsb (λ w, is_set w COUNT_MASK) l else false.
Proof.
  intros <-. induction l as [|w l IH]; [by destruct v|]. unfold meets in *. cbn. rewrite IH.
  destruct v; [done|]. cbn. unfold is_set. by rewrite Z.land_0_r.
Qed.

Lemma compressCross_spec a c la lb size :
  plain a la → la ≠ [] → compressed c size lb → length la = length lb →
  compressCross a c = Ok (meets la lb).
Proof.
  intros Ha Hne Hc Hl. unfold compressCross. rewrite (words_compressed c size lb Hc).
  destruct Hc as (cs & -> & Hok & <-). cbn [bm_data default obind]. unfold id.
  pose proof (plain_bound a la Ha) as Hb. rewrite walk_encode; [|done|done|lia|lia].
  set (on_run := λ cur_pos count (v : bool) (_ : unit), _). set (on_word := λ cur_pos count (_ : unit), _).
  enough (∀ cs pre l, length l = length (words_of cs) → chunks_ok cs → pre ++ l = la →
    walk_chunks on_run on_word cs (14 * Z.of_nat (length pre)) tt =
      Ok (if meets l (words_of cs) then inl true else inr tt)) as He.
  { pose proof (He cs [] la Hl Hok eq_refl) as E. change (14 * Z.of_nat (length (@nil Z))) with 0 in E.
    rewrite E. cbn [obind]. by destruct (meets _ _). }
  clear cs Hok Hl. intros cs. induction cs as [|ch cs IH]; intros pre l Hl Hok El.
  { destruct l; done. }
  change (words_of (ch :: cs)) with (chunk_words ch ++ words_of cs) in *. rewrite length_app in Hl.
  destruct Hok as (Hch & _ & Hcs). subst la. rewrite length_app in Hb. destruct ch as [v n|w]; cbn [chunk_words walk_chunks] in *.
  - destruct Hch as [Hn _]. rewrite length_replicate in Hl.
    rewrite <- (take_drop n l). rewrite meets_app by (rewrite length_take, length_replicate; lia).
    assert (length (take n l) = n) as Ht by (rewrite length_take; lia). rewrite meets_run by done.
    assert (walk_chunks on_run on_word cs (14 * Z.of_nat (length pre) + 14 * Z.of_nat n) tt =
      Ok (if meets (drop n l) (words_of cs) then inl true else inr tt)) as Hrec.
    { replace (14 * Z.of_nat (length pre) + 14 * Z.of_nat n) with (14 * Z.of_nat (length (pre ++ take n l)))
        by (rewrite length_app; lia).
      apply IH; [rewrite length_drop; lia|done|by rewrite <- app_assoc, take_drop]. }
    unfold on_run at 1. destruct v; [|done]. rewrite <- (plain_data a _ Ha) at 1 by done.
    rewrite <- (take_drop n l) at 1. rewrite get_range_spec; [|lia|done|lia]. cbn [obind].
    destruct (existsb _ (take n l)); [done|]. exact Hrec.
  - cbn [length] in Hl. destruct l as [|x l]; [done|]. unfold on_word at 1. rewrite div14.
    erewrite rd_at; [|by rewrite (pl_data _ _ Ha); destruct pre|done]. cbn [obind].
    change (meets (x :: l) ([w] ++ words_of cs)) with (is_set x w || meets l (words_of cs)).
    destruct (is_set x w); [done|]. cbn [orb].
    replace (14 * Z.of_nat (length pre) + 14) with (14 * Z.of_nat (length (pre ++ [x])))
      by (rewrite length_app; cbn [length]; lia).
    apply IH; [cbn in Hl; lia|done|by rewrite <- app_assoc].
Qed.

(** The loops of [normalCross]. *)
Lemma join64_land a0 a1 a2 a3 b0 b1 b2 b3 :
  Forall word16 [a0; a1; a2; a3] → Forall word16 [b0; b1; b2; b3] →
  is_set (join64 a0 a1 a2 a3) (join64 b0 b1 b2 b3) = is_set a0 b0 || is_set a1 b1 || is_set a2 b2 || is_set a3 b3.
Proof.
  rewrite !Forall_cons. intros (A0 & A1 & A2 & A3 & _) (B0 & B1 & B2 & B3 & _).
  set (x := Z.land (join64 a0 a1 a2 a3) (join64 b0 b1 b2 b3)).
  destruct (part_join a0 a1 a2 a3) as (P0 & P1 & P2 & P3); try done.
  destruct (part_join b0 b1 b2 b3) as (Q0 & Q1 & Q2 & Q3); try done.
  assert (∀ k, 0 ≤ k → part x k = Z.land (part (join64 a0 a1 a2 a3) k) (part (join64 b0 b1 b2 b3) k)) as Hp
    by (intros; by eapply (part_op Z.land andb)).
  pose proof (Hp 0 ltac:(lia)) as Z0. pose proof (Hp 16 ltac:(lia)) as Z1.
  pose proof (Hp 32 ltac:(lia)) as Z2. pose proof (Hp 48 ltac:(lia)) as Z3.
  rewrite P0, Q0 in Z0. rewrite P1, Q1 in Z1. rewrite P2, Q2 in Z2. rewrite P3, Q3 in Z3.
  assert (∀ m, 64 ≤ m → Z.testbit x m = false) as Hhi.
  { intros m Hm. unfold x. rewrite Z.land_spec. apply andb_false_intro1. unfold join64.
    rewrite !Z.lor_spec, !Z.shiftl_spec, !word16_high by (done || lia). done. }
  unfold is_set. fold x. rewrite <- Z0, <- Z1, <- Z2, <- Z3. clearbody x. clear -Hhi.
  destruct (Z.eqb_spec x 0) as [->|E]; cbn [negb]; [done|].
  symmetry. apply not_false_is_true. intros Hn. rewrite !orb_false_iff in Hn. destruct Hn as [[[H0 H1] H2] H3].
  apply negb_false_iff, Z.eqb_eq in H0, H1, H2, H3. apply E. apply Z.bits_inj'. intros m Hm. rewrite Z.bits_0.
  assert (∀ k, 0 ≤ k → part x k = 0 → k ≤ m < k + 16 → Z.testbit x m = false) as Hz.
  { intros k Hk Ek Hr. assert (Z.testbit (part x k) (m - k) = false) as Hb by (by rewrite Ek, Z.bits_0).
    rewrite part_bits, (proj2 (Z.ltb_lt _ _)) in Hb by lia. by replace (m - k + k) with m in Hb by lia. }
  destruct (decide (m < 16)); [by apply (Hz 0); lia|]. destruct (decide (m < 32)); [by apply (Hz 16); lia|].
  destruct (decide (m < 48)); [by apply (Hz 32); lia|]. destruct (decide (m < 64)); [by apply (Hz 48); lia|].
  apply Hhi. lia.
Qed.

Lemma join64_zero a0 a1 a2 a3 b0 b1 b2 b3 :
  join64 a0 a1 a2 a3 = 0 → is_set (join64 a0 a1 a2 a3) (join64 b0 b1 b2 b3) = false.
Proof. intros ->. done. Qed.

Lemma cross_quads a b n : ∀ pre la lpre lb la2 lb2 i,
  4 * i = Z.of_nat (length pre) → length lpre = length pre →
  length la = (4 * n)%nat → length lb = (4 * n)%nat → Forall word16 la → Forall word16 lb →
  for_ret n i (λ i _,
    obind (rd64 (with_data (pre ++ la ++ la2) a) i) (λ x,
      if negb (x =? 0) then obind (rd64 (with_data (lpre ++ lb ++ lb2) b) i) (λ y, Ok (if is_set x y then inl true else inr tt))
      else Ok (inr tt))) tt = Ok (if meets la lb then inl true else inr tt).
Proof.
  induction n as [|n IH]; intros pre la lpre lb la2 lb2 i Hi Hl Hla Hlb Fa Fb.
  { destruct la, lb; done. }
  destruct la as [|a0 [|a1 [|a2 [|a3 la]]]]; cbn [length] in Hla; try lia.
  destruct lb as [|b0 [|b1 [|b2 [|b3 lb]]]]; cbn [length] in Hlb; try lia.
  rewrite !Forall_cons in Fa, Fb. destruct Fa as (? & ? & ? & ? & Fa), Fb as (? & ? & ? & ? & Fb).
  cbn [for_ret app]. rewrite four_words by done. cbn [obind].
  assert ((if negb (join64 a0 a1 a2 a3 =? 0) then
      obind (rd64 (with_data (lpre ++ b0 :: b1 :: b2 :: b3 :: lb ++ lb2) b) i) (λ y,
        Ok (if is_set (join64 a0 a1 a2 a3) y then inl true else inr ())) else Ok (inr ())) =
      Ok (if is_set a0 b0 || is_set a1 b1 || is_set a2 b2 || is_set a3 b3 then inl true else inr ())) as ->.
  { rewrite <- join64_land by (by rewrite !Forall_cons).
    destruct (Z.eqb_spec (join64 a0 a1 a2 a3) 0); cbn [negb]; [by rewrite join64_zero|].
    rewrite four_words by lia. done. }
  cbn [obind]. change (meets (a0 :: a1 :: a2 :: a3 :: la) (b0 :: b1 :: b2 :: b3 :: lb)) with
    (is_set a0 b0 || (is_set a1 b1 || (is_set a2 b2 || (is_set a3 b3 || meets la lb)))).
  rewrite !orb_assoc. destruct (is_set a0 b0 || is_set a1 b1 || is_set a2 b2 || is_set a3 b3); [done|]. cbn [orb].
  assert (∀ (p : list Z) x y z w l, p ++ x :: y :: z :: w :: l = (p ++ [x; y; z; w]) ++ l) as E
    by (intros; by rewrite <- app_assoc).
  rewrite (E pre _ _ _ _ (la ++ la2)), (E lpre _ _ _ _ (lb ++ lb2)).
  apply IH; [rewrite length_app; cbn [length]; lia|rewrite !length_app; cbn [length]; lia|lia|lia|done|done].
Qed.
Lemma cross_rest a b la : ∀ pre lpre lb i,
  i = Z.of_nat (length pre) → length lpre = length pre → length lb = length la →
  for_ret (length la) i (λ i _, obind (rd (with_data (pre ++ la) a) i) (λ x,
    obind (rd (with_data (lpre ++ lb) b) i) (λ y, Ok (if is_set x y then inl true else inr tt)))) tt =
    Ok (if meets la lb then inl true else inr tt).
Proof.
  induction la as [|x la IH]; intros pre lpre lb i Hi Hl Hlb; [by destruct lb|].
  destruct lb as [|y lb]; [done|]. cbn [for_ret length]. rewrite rd_data by done. cbn [obind].
  rewrite rd_data by congruence. cbn [obind]. change (meets (x :: la) (y :: lb)) with (is_set x y || meets la lb).
  destruct (is_set x y); [done|]. cbn [orb].
  assert (∀ (p : list Z) x l, p ++ x :: l = (p ++ [x]) ++ l) as E by (intros; by rewrite <- app_assoc).
  rewrite (E pre _ la), (E lpre _ lb). cbn [length] in Hlb.
  apply IH; rewrite ?length_app; cbn [length]; lia.
Qed.

Lemma normalCross_spec a b la lb :
  plain a la → plain b lb → bm_size a = bm_size b → la ≠ [] → normalCross a b = Ok (meets la lb).
Proof.
  intros Ha Hb Hs Hne. pose proof (plain_same_length a b la lb Ha Hb Hs) as Hlen.
  destruct (quads_fit a la Ha) as (n & Hn & Hle & _). unfold normalCross. cbn zeta. rewrite Hn, Nat2Z.id.
  assert (Forall word16 la) as Fa by (eapply Forall_impl; [apply Ha|apply word_ok_16]).
  assert (Forall word16 lb) as Fb by (eapply Forall_impl; [apply Hb|apply word_ok_16]).
  pose proof (cross_quads a b n [] (take (4 * n) la) [] (take (4 * n) lb) (drop (4 * n) la) (drop (4 * n) lb) 0) as E.
  cbn [app] in E. rewrite !take_drop, (plain_data b lb), (plain_data a la) in E; try done; [|by destruct lb, la].
  rewrite E; clear E; try done; try (rewrite length_take; lia); try by apply Forall_take.
  cbn [obind]. rewrite (pl_len _ _ Ha). change U64_DIV_BASE with 4.
  pose proof (cross_rest a b (drop (4 * n) la) (take (4 * n) la) (take (4 * n) lb)
    (drop (4 * n) lb) (Z.of_nat n * 4)) as E.
  rewrite !take_drop, (plain_data b lb), (plain_data a la) in E; [|done|done|done|by destruct lb, la].
  replace (Z.to_nat _) with (length (drop (4 * n) la)) by (rewrite length_drop; lia).
  rewrite E; [|rewrite !length_take; lia|rewrite !length_take; lia|rewrite !length_drop; lia].
  replace (meets la lb) with (meets (take (4 * n) la) (take (4 * n) lb) || meets (drop (4 * n) la) (drop (4 * n) lb))
    by (rewrite <- meets_app, !take_drop; [done|rewrite !length_take; lia]).
  by destruct (meets (take _ _) _), (meets (drop _ _) _).
Qed.

(** ** Bits *)
Lemma bit_zip op f `{!Bitwise op f} la lb p :
  length la = length lb → 0 ≤ p → bit (zip_with op la lb) p = f (bit la p) (bit lb p).
Proof.
  intros Hl Hp. unfold bit. rewrite lookup_zip_with.
  assert (0 ≤ p mod VALUE_SIZE) by (apply Z.mod_pos_bound; done).
  destruct (la !! _) as [x|] eqn:E1; cbn.
  - destruct (lookup_lt_is_Some_2 lb (Z.to_nat (p / VALUE_SIZE))) as [y E2].
    { rewrite <- Hl. by apply lookup_lt_Some in E1. }
    rewrite E2. cbn. by apply (bitwise (op := op)).
  - assert (lb !! Z.to_nat (p / VALUE_SIZE) = None) as -> by (apply lookup_ge_None in E1; apply lookup_ge_None; lia).
    symmetry. by eapply bitwise_false.
Qed.
Lemma zip_plain op f `{!Bitwise op f} a b la lb :
  (∀ x y, word_ok x → word_ok y → 0 ≤ op x y) →
  plain a la → plain b lb → length la = length lb → la ≠ [] →
  plain (with_data (zip_with op la lb) a) (zip_with op la lb).
Proof.
  intros H0 Ha Hb Hl Hne. destruct (plain_update a la (zip_with op la lb) Ha) as [?|E]; [| |done|].
  - rewrite length_zip_with. lia.
  - apply Forall_lookup. intros i w Hw. apply lookup_zip_with_Some in Hw as (x & y & -> & Hx & Hy).
    pose proof (plain_word a la i x Ha Hx). pose proof (plain_word b lb i y Hb Hy). apply (op_ok op f); auto.
  - by destruct la, lb.
Qed.
Lemma land_nonneg_ok x y : word_ok x → word_ok y → 0 ≤ Z.land x y.
Proof. intros Hx _. apply Z.land_nonneg. left. apply Hx. Qed.
Lemma lor_nonneg_ok x y : word_ok x → word_ok y → 0 ≤ Z.lor x y.
Proof. intros Hx Hy. apply Z.lor_nonneg. split; [apply Hx|apply Hy]. Qed.

(** C37: Compressing an uncompressed bitmap of 14-bit words succeeds, takes no more
    words than the bitmap has, and uncompressing gives back a bitmap with the same
    words; as the right operand of [&=], [|=] and [cross], with an uncompressed left
    operand of 14-bit words and the same size, the compressed bitmap does exactly what
    the uncompressed one does.  Both bitmaps are so ([plain]): those built by
    [Bitmap(size)] and changed by [set] are, but [Bitmap(size, 0xff)] and [operator~]
    set the two flag bits of every word as well, and with such a left operand the two
    right operands give different words ([full_bitmap_differs]). *)
Theorem compress_roundtrip_equiv (a b : Bitmap) (la lb : list Z) :
  plain a la → plain b lb → bm_size a = bm_size b → 0 < bm_size b →
  ∃ c, compress b = Ok c ∧ bm_compress c = true ∧ bm_dataSize c ≤ bm_dataSize b ∧
    uncompress c = Ok b ∧
    and_assign a c = and_assign a b ∧ or_assign a c = or_assign a b ∧ cross a c = cross a b.
Proof.
  intros Ha Hb Hs Hpos. destruct (compress_spec b lb Hb) as (c & Hcomp & Hc & Hsz).
  pose proof (plain_same_length a b la lb Ha Hb Hs) as Hl. pose proof (plain_length b lb Hb) as Hlb.
  assert (lb ≠ []) as Hne by (intros ->; cbn in Hlb; Z.to_euclidean_division_equations; lia).
  assert (la ≠ []) as Hne' by (by destruct la, lb).
  assert (bm_compress c = true ∧ bm_size c = bm_size b) as [Hm Hcs] by (by destruct Hc as (cs & -> & _)).
  exists c. split_and!; [done|done|done| | | |].
  - rewrite (uncompress_spec c lb (bm_size b) Hc); [|apply Hb|rewrite Hlb; done|done]. destruct Hb as [H1 H2 _ H4 _ _], b; cbn in *.
    destruct lb; [done|]. by subst.
  - unfold and_assign. rewrite Hm, Hcs, Hs, Z.eqb_refl, (pl_mode _ _ Ha), (pl_mode _ _ Hb). cbn [negb andb eqb].
    by erewrite and_compressed_spec, zip_words_spec by (done || apply _).
  - unfold or_assign. rewrite Hm, Hcs, Hs, Z.eqb_refl, (pl_mode _ _ Ha), (pl_mode _ _ Hb). cbn [negb andb eqb].
    by erewrite or_compressed_spec, zip_words_spec by (done || apply _).
  - unfold cross. rewrite Hm, (pl_mode _ _ Ha), (pl_mode _ _ Hb). cbn [negb andb].
    by erewrite compressCross_spec, normalCross_spec by done.
Qed.

(** On well-formed bitmaps of one size, [get] reads the bits, [set] writes
    one, [&=] and [|=] compute the conjunction and disjunction at every
    position, and [cross] tells whether some word of the two has a common bit. *)
Theorem bitmap_ops_bits (a b : Bitmap) (la lb : list Z) (p : Z) (v : bool) :
  plain a la → plain b lb → bm_size a = bm_size b → 0 ≤ p < bm_size a →
  get a p = Ok (bit la p) ∧
  (∃ s, set p v a = Ok s ∧ (∀ q, 0 ≤ q < bm_size a → get s q = if q =? p then Ok v else get a q)) ∧
  (∃ c, and_assign a b = Ok c ∧ ∀ q, 0 ≤ q < bm_size a → get c q = Ok (bit la q && bit lb q)) ∧
  (∃ c, or_assign a b = Ok c ∧ ∀ q, 0 ≤ q < bm_size a → get c q = Ok (bit la q || bit lb q)) ∧
  cross a b = Ok (existsb (λ xy, negb (Z.land (xy.1) (xy.2) =? 0)) (zip la lb)).
Proof.
  intros Ha Hb Hs Hp. pose proof (plain_same_length a b la lb Ha Hb Hs) as Hl. pose proof (plain_length a la Ha) as Hla.
  assert (la ≠ []) as Hne by (intros ->; cbn in Hla; Z.to_euclidean_division_equations; lia).
  split_and!.
  - by apply get_bit.
  - destruct (set_bit a la p v Ha Hp) as (s & l' & E & Hpl & Hsz & Hbit). exists s. split; [done|].
    intros q Hq. rewrite (get_bit s l') by (done || lia). rewrite Hbit by lia.
    destruct (q =? p); [done|]. by rewrite (get_bit a la).
  - exists (with_data (zip_with Z.land la lb) a). split.
    + unfold and_assign. rewrite Hs, Z.eqb_refl, (pl_mode _ _ Ha), (pl_mode _ _ Hb). cbn [negb andb].
      eapply zip_words_spec; (done || apply _).
    + intros q Hq. erewrite get_bit; [|eapply (zip_plain Z.land andb); (done || apply land_nonneg_ok)|done].
      by rewrite (bit_zip Z.land andb) by (done || lia).
  - exists (with_data (zip_with Z.lor la lb) a). split.
    + unfold or_assign. rewrite Hs, Z.eqb_refl, (pl_mode _ _ Ha), (pl_mode _ _ Hb). cbn [negb andb].
      eapply zip_words_spec; (done || apply _).
    + intros q Hq. erewrite get_bit; [|eapply (zip_plain Z.lor orb); (done || apply lor_nonneg_ok)|done].
      by rewrite (bit_zip Z.lor orb) by (done || lia).
  - unfold cross. rewrite (pl_mode _ _ Ha), (pl_mode _ _ Hb). cbn [negb andb].
    by rewrite (normalCross_spec a b la lb).
Qed.

(** Samples: words given by their bits. *)
Definition sample_bitmap : Bitmap := mkBitmap false 100 8 (Some [40; 0; 0; 0; 0; 1; COUNT_MASK; 2]).
Definition sample_bitmap2 : Bitmap := mkBitmap false 100 8 (Some [8; COUNT_MASK; COUNT_MASK; 0; 0; 3; 5; 0]).
Lemma sample_plain : plain sample_bitmap [40; 0; 0; 0; 0; 1; COUNT_MASK; 2].
Proof. split; try done. rewrite !Forall_cons, Forall_nil. by vm_compute. Qed.
Lemma sample_plain2 : plain sample_bitmap2 [8; COUNT_MASK; COUNT_MASK; 0; 0; 3; 5; 0].
Proof. split; try done. rewrite !Forall_cons, Forall_nil. by vm_compute. Qed.

(** [Bitmap(28, 0xff)] sets the flag bits of its words, too: and-ing in the compressed
    bitmap of 28 ones keeps them, and-ing in the plain one clears them. *)
Example full_bitmap_differs :
  let ones := set_range 0 28 true (new_Bitmap 28 0) in
  let full := new_Bitmap 28 255 in
  (obind ones (λ b, obind (and_assign full b) (λ r, Ok (bm_data r))),
   obind ones (λ b, obind (compress b) (λ c, obind (and_assign full c) (λ r, Ok (bm_data r))))) =
  (Ok (Some [16383; 16383]), Ok (Some [65535; 65535])).
Proof. by vm_compute. Qed.
Lemma compress_roundtrip_equiv_witness :
  ∃ c, compress sample_bitmap = Ok c ∧ bm_compress c = true ∧ bm_dataSize c ≤ bm_dataSize sample_bitmap ∧
    uncompress c = Ok sample_bitmap ∧
    and_assign sample_bitmap2 c = and_assign sample_bitmap2 sample_bitmap ∧
    or_assign sample_bitmap2 c = or_assign sample_bitmap2 sample_bitmap ∧
    cross sample_bitmap2 c = cross sample_bitmap2 sample_bitmap.
Proof.
  exact (compress_roundtrip_equiv sample_bitmap2 sample_bitmap _ _ sample_plain2 sample_plain eq_refl eq_refl).
Defined.
Lemma bitmap_ops_bits_witness :
  let la := [40; 0; 0; 0; 0; 1; COUNT_MASK; 2] in let lb := [8; COUNT_MASK; COUNT_MASK; 0; 0; 3; 5; 0] in
  let a := sample_bitmap in let b := sample_bitmap2 in
  get a 5 = Ok (bit la 5) ∧
  (∃ s, set 5 false a = Ok s ∧ (∀ q, 0 ≤ q < bm_size a → get s q = if q =? 5 then Ok false else get a q)) ∧
  (∃ c, and_assign a b = Ok c ∧ ∀ q, 0 ≤ q < bm_size a → get c q = Ok (bit la q && bit lb q)) ∧
  (∃ c, or_assign a b = Ok c ∧ ∀ q, 0 ≤ q < bm_size a → get c q = Ok (bit la q || bit lb q)) ∧
  cross a b = Ok (existsb (λ xy, negb (Z.land (xy.1) (xy.2) =? 0)) (zip la lb)).
Proof.
  apply (bitmap_ops_bits sample_bitmap sample_bitmap2 _ _ 5 false sample_plain sample_plain2 eq_refl).
  split; [by vm_compute|reflexivity].
Defined.
