(* ===== verification/BitmapScan.v ===== *)
(** * Scanning a bitmap

    [foreach], [listPosAsc] and the iterator visit exactly the positions whose
    bit is set, in ascending order; [any] and [resize] do what their masks say. *)
From S2P Require Import Prelude Loops Bitmap BitmapSpec.

(** The set positions in [a, a+m), cut off at [size]. *)
Definition rng (l : list Z) (size a m : Z) : list Z :=
  filter (λ p, bit l p = true) (seqZ a (Z.min m (size - a))).
Definition positions (l : list Z) (size : Z) : list Z := filter (λ p, bit l p = true) (seqZ 0 size).

Lemma rng_app l size a m m' : 0 ≤ m → 0 ≤ m' → a ≤ size → rng l size a (m + m') = rng l size a m ++ rng l size (a + m) m'.
Proof.
  intros Hm Hm' Ha. unfold rng. rewrite <- filter_app. f_equal. destruct (decide (a + m ≤ size)).
  - rewrite (Z.min_l m) by lia. replace (Z.min (m + m') (size - a)) with (m + Z.min m' (size - (a + m))) by lia.
    apply seqZ_app; lia.
  - rewrite (Z.min_r m), (Z.min_r (m + m')) by lia.
    rewrite (seqZ_nil (a + m)) by lia. by rewrite app_nil_r.
Qed.

(** Words and positions. *)
Lemma bit_in_word l i p w : l !! i = Some w → 14 * Z.of_nat i ≤ p < 14 * Z.of_nat i + 14 →
  bit l p = Z.testbit w (p - 14 * Z.of_nat i).
Proof.
  intros Hw Hp. unfold bit, VALUE_SIZE. assert (p / 14 = Z.of_nat i) as -> by (Z.to_euclidean_division_equations; lia).
  rewrite Nat2Z.id, Hw. f_equal. Z.to_euclidean_division_equations; lia.
Qed.
Lemma zero_word l size i : l !! i = Some 0 → rng l size (14 * Z.of_nat i) 14 = [].
Proof.
  intros Hw. apply filter_none. intros p Hp. apply elem_of_seqZ in Hp.
  rewrite (bit_in_word l i p 0) by (done || lia). by rewrite Z.bits_0.
Qed.

Section visits.
Context {St : Type} (cb : Z → St → bool * St).

(** Calling [cb] on a list of positions until it answers false. *)
Fixpoint visits (ps : list Z) (s : St) : St + St :=
  match ps with
  | [] => inr s
  | p :: ps => let (go, s) := cb p s in if go then visits ps s else inl s
  end.
Definition visited (ps : list Z) (s : St) : St := match visits ps s with inl s => s | inr s => s end.

Lemma visits_app ps ps' s :
  visits (ps ++ ps') s = match visits ps s with inl s => inl s | inr s => visits ps' s end.
Proof. revert s. induction ps as [|p ps IH]; intros s; [done|]. cbn. destruct (cb p s) as [[] s']; [apply IH|done]. Qed.

Lemma up_bits_spec size tmp k : ∀ n cur s,
  0 ≤ n → 0 ≤ cur ≤ size → size < 2 ^ 32 - 14 →
  up_bits cb k size tmp n cur s =
    match visits (filter (λ p, Z.testbit tmp (n + (p - cur)) = true) (seqZ cur (Z.min (Z.of_nat k) (size - cur)))) s with
    | inl s => inl s
    | inr s => inr (cur + Z.min (Z.of_nat k) (size - cur), s)
    end.
Proof.
  induction k as [|k IH]; intros n cur s Hn Hc Hs; cbn [up_bits].
  { rewrite seqZ_nil by lia. cbn. f_equal. f_equal. lia. }
  destruct (Z.ltb_spec cur size).
  2:{ rewrite seqZ_nil by lia. cbn. f_equal. f_equal. lia. }
  rewrite (seqZ_cons cur) by lia. rewrite filter_cons, Z.sub_diag, Z.add_0_r, is_set_testbit by done.
  assert (∀ s, up_bits cb k size tmp (n + 1) (u32 (cur + 1)) s =
    match visits (filter (λ p, Z.testbit tmp (n + (p - cur)) = true)
        (seqZ (Z.succ cur) (Z.pred (Z.min (Z.of_nat (S k)) (size - cur))))) s with
    | inl s => inl s
    | inr s => inr (cur + Z.min (Z.of_nat (S k)) (size - cur), s)
    end) as Hrec.
  { intros s'. unwrap_in_goal. rewrite IH by lia.
    replace (Z.pred (Z.min (Z.of_nat (S k)) (size - cur))) with (Z.min (Z.of_nat k) (size - (cur + 1))) by lia.
    rewrite <- Z.add_1_r.
    rewrite (list_filter_iff (λ p, Z.testbit tmp (n + (p - cur)) = true) (λ p, Z.testbit tmp (n + 1 + (p - (cur + 1))) = true)).
    - destruct (visits _ _); [done|]. f_equal. f_equal. lia.
    - intros p. by replace (n + 1 + (p - (cur + 1))) with (n + (p - cur)) by lia. }
  destruct (Z.testbit tmp n); [|by case_decide].
  case_decide; [|done]. cbn [visits]. destruct (cb cur s) as [[] s']; [apply Hrec|done].
Qed.

Lemma up_word_spec b l i s :
  plain b l → (i < length l)%nat → 14 * Z.of_nat i < bm_size b →
  up_word cb b (Z.of_nat i) (14 * Z.of_nat i, s) =
    Ok match visits (rng l (bm_size b) (14 * Z.of_nat i) 14) s with
       | inl s => inl s
       | inr s => inr (14 * Z.of_nat i + Z.min 14 (bm_size b - 14 * Z.of_nat i), s)
       end.
Proof.
  intros Hb Hi Hlt. destruct (lookup_lt_is_Some_2 l i Hi) as [w Hw]. unfold up_word.
  rewrite (rd_lookup b l i w Hb Hw). cbn [obind fst snd]. pose proof (pl_size _ _ Hb). rewrite up_bits_spec by lia.
  f_equal. unfold rng. change (Z.of_nat 14) with 14.
  rewrite (filter_ext_in (λ p, bit l p = true) (λ p, Z.testbit w (0 + (p - 14 * Z.of_nat i)) = true)); [done|].
  intros p Hp. apply elem_of_seqZ in Hp. rewrite (bit_in_word l i p w) by (done || lia). done.
Qed.

(** What a loop answers when it has visited [ps] and goes on from [e]. *)
Definition loop_result (size : Z) (o : outcome (St + (Z * St))) (ps : list Z) (s : St) (e : Z) : Prop :=
  match visits ps s with
  | inl s' => o = Ok (inl s')
  | inr s' => ∃ cur, o = Ok (inr (cur, s')) ∧ (e < size → cur = e)
  end.

Lemma chunk_loop l size w off body n : ∀ i cur s,
  0 < w → (∀ j, i ≤ j < i + Z.of_nat n → off + w * j < size) → (off + w * i < size → cur = off + w * i) →
  off + w * i ≤ size + w →
  (∀ j s, i ≤ j < i + Z.of_nat n → loop_result size (body j (off + w * j, s)) (rng l size (off + w * j) w) s (off + w * (j + 1))) →
  loop_result size (for_ret n i body (cur, s)) (rng l size (off + w * i) (w * Z.of_nat n)) s (off + w * (i + Z.of_nat n)).
Proof.
  induction n as [|n IH]; intros i cur s Hw Hlt Hcur Hbd Hb; cbn [for_ret].
  { unfold rng. rewrite seqZ_nil by lia. unfold loop_result. cbn. exists cur. split; [done|].
    rewrite Z.add_0_r. done. }
  assert (off + w * i < size) as Hi by (apply Hlt; lia). rewrite (Hcur Hi).
  replace (w * Z.of_nat (S n)) with (w + w * Z.of_nat n) by lia. rewrite rng_app by lia.
  specialize (Hb i s ltac:(lia)) as Hbi. unfold loop_result in Hbi |- *. rewrite visits_app.
  destruct (visits (rng l size (off + w * i) w) s) as [s'|s'].
  - by rewrite Hbi.
  - destruct Hbi as (cur' & -> & Hcur'). cbn [obind].
    replace (off + w * i + w) with (off + w * (i + 1)) by lia.
    replace (i + Z.of_nat (S n)) with (i + 1 + Z.of_nat n) by lia.
    apply IH; [done|intros; apply Hlt; lia|done|lia|]. intros j s2 Hj. apply Hb. lia.
Qed.

Lemma word_body b l i s :
  plain b l → (i < length l)%nat → 14 * Z.of_nat i < bm_size b →
  loop_result (bm_size b) (up_word cb b (Z.of_nat i) (14 * Z.of_nat i, s))
    (rng l (bm_size b) (14 * Z.of_nat i) 14) s (14 * (Z.of_nat i + 1)).
Proof.
  intros Hb Hi Hlt. unfold loop_result. rewrite (up_word_spec b l) by done.
  destruct (visits _ s) as [s'|s']; [done|]. eexists. split; [done|]. lia.
Qed.

Lemma rd64_words b l i w0 w1 w2 w3 :
  plain b l → l !! (4 * i)%nat = Some w0 → l !! (4 * i + 1)%nat = Some w1 → l !! (4 * i + 2)%nat = Some w2 →
  l !! (4 * i + 3)%nat = Some w3 → rd64 b (Z.of_nat i) = Ok (join64 w0 w1 w2 w3).
Proof.
  intros Hb H0 H1 H2 H3. unfold rd64.
  replace (4 * Z.of_nat i) with (Z.of_nat (4 * i)) by lia. rewrite (rd_lookup b l _ _ Hb H0). cbn [obind].
  replace (Z.of_nat (4 * i) + 1) with (Z.of_nat (4 * i + 1)) by lia. rewrite (rd_lookup b l _ _ Hb H1). cbn [obind].
  replace (Z.of_nat (4 * i) + 2) with (Z.of_nat (4 * i + 2)) by lia. rewrite (rd_lookup b l _ _ Hb H2). cbn [obind].
  replace (Z.of_nat (4 * i) + 3) with (Z.of_nat (4 * i + 3)) by lia. by rewrite (rd_lookup b l _ _ Hb H3).
Qed.
Lemma join64_eq0 w0 w1 w2 w3 :
  word16 w0 → word16 w1 → word16 w2 → word16 w3 → join64 w0 w1 w2 w3 = 0 → w0 = 0 ∧ w1 = 0 ∧ w2 = 0 ∧ w3 = 0.
Proof.
  intros H0 H1 H2 H3 E. destruct (part_join w0 w1 w2 w3 H0 H1 H2 H3) as (P0 & P1 & P2 & P3).
  rewrite E in P0, P1, P2, P3. cbn in *. done.
Qed.

Lemma quad_body b l (i : nat) s :
  plain b l → (4 * i + 4 ≤ length l)%nat → 56 * Z.of_nat (S i) ≤ bm_size b →
  loop_result (bm_size b)
    (obind (rd64 b (Z.of_nat i)) (λ tmp,
       if tmp =? 0 then Ok (inr (u32 ((56 * Z.of_nat i, s).1 + U64_VALUE_SIZE), (56 * Z.of_nat i, s).2))
       else for_ret 4 0 (λ n, up_word cb b (Z.of_nat i * U64_DIV_BASE + n)) (56 * Z.of_nat i, s)))
    (rng l (bm_size b) (56 * Z.of_nat i) 56) s (56 * (Z.of_nat i + 1)).
Proof.
  intros Hb Hi Hsz. pose proof (pl_size _ _ Hb) as Hsize.
  destruct (lookup_lt_is_Some_2 l (4 * i)%nat) as [w0 H0]; [lia|].
  destruct (lookup_lt_is_Some_2 l (4 * i + 1)%nat) as [w1 H1]; [lia|].
  destruct (lookup_lt_is_Some_2 l (4 * i + 2)%nat) as [w2 H2]; [lia|].
  destruct (lookup_lt_is_Some_2 l (4 * i + 3)%nat) as [w3 H3]; [lia|].
  rewrite (rd64_words b l i w0 w1 w2 w3) by done. cbn [obind fst snd]. change U64_VALUE_SIZE with 56.
  change U64_DIV_BASE with 4. destruct (Z.eqb_spec (join64 w0 w1 w2 w3) 0) as [E|E].
  - apply join64_eq0 in E as (-> & -> & -> & ->); try (by eapply word_ok_16, plain_word).
    assert (rng l (bm_size b) (56 * Z.of_nat i) 56 = []) as ->.
    { change 56 with (14 + (14 + (14 + 14))) at 2. rewrite !rng_app by lia.
      pose proof (zero_word l (bm_size b) _ H0) as Z0. pose proof (zero_word l (bm_size b) _ H1) as Z1.
      pose proof (zero_word l (bm_size b) _ H2) as Z2. pose proof (zero_word l (bm_size b) _ H3) as Z3.
      replace (14 * Z.of_nat (4 * i)) with (56 * Z.of_nat i) in Z0 by lia.
      replace (14 * Z.of_nat (4 * i + 1)) with (56 * Z.of_nat i + 14) in Z1 by lia.
      replace (14 * Z.of_nat (4 * i + 2)) with (56 * Z.of_nat i + 14 + 14) in Z2 by lia.
      replace (14 * Z.of_nat (4 * i + 3)) with (56 * Z.of_nat i + 14 + 14 + 14) in Z3 by lia.
      by rewrite Z0, Z1, Z2, Z3. }
    unfold loop_result. cbn. eexists. split; [done|]. intros _. rewrite wrap_small; lia.
  - pose proof (chunk_loop l (bm_size b) 14 (56 * Z.of_nat i) (λ n, up_word cb b (Z.of_nat i * 4 + n)) 4 0
      (56 * Z.of_nat i) s) as Hc.
    replace (56 * Z.of_nat i + 14 * 0) with (56 * Z.of_nat i) in Hc by lia.
    change (14 * Z.of_nat 4) with 56 in Hc.
    replace (56 * Z.of_nat i + 14 * (0 + Z.of_nat 4)) with (56 * (Z.of_nat i + 1)) in Hc by lia.
    apply Hc; [lia|lia|done|lia|]. intros j s2 Hj.
    pose proof (word_body b l (4 * i + Z.to_nat j) s2 Hb ltac:(lia) ltac:(lia)) as Hwb.
    replace (Z.of_nat (4 * i + Z.to_nat j)) with (Z.of_nat i * 4 + j) in Hwb by lia.
    replace (14 * (Z.of_nat i * 4 + j)) with (56 * Z.of_nat i + 14 * j) in Hwb by lia.
    replace (14 * (Z.of_nat i * 4 + j + 1)) with (56 * Z.of_nat i + 14 * (j + 1)) in Hwb by lia.
    exact Hwb.
Qed.

Lemma foreach_spec (b : Bitmap) (l : list Z) (s : St) :
  plain b l → foreach cb b s = Ok (visited (positions l (bm_size b)) s).
Proof.
  intros Hb. pose proof (pl_size _ _ Hb) as Hsize. destruct (quads_fit b l Hb) as (n & Hn & Hle & Hsz & Hall).
  pose proof (plain_length b l Hb) as Hlen. unfold foreach. cbn zeta. rewrite Hn, Nat2Z.id.
  assert (positions l (bm_size b) = rng l (bm_size b) 0 (56 * Z.of_nat n) ++
            rng l (bm_size b) (56 * Z.of_nat n) (14 * Z.of_nat (length l - 4 * n))) as ->.
  { unfold positions. pose proof (rng_app l (bm_size b) 0 (56 * Z.of_nat n) (14 * Z.of_nat (length l - 4 * n))) as E.
    rewrite Z.add_0_l in E. rewrite <- E by lia. unfold rng. f_equal. f_equal.
    Z.to_euclidean_division_equations; lia. }
  unfold visited. rewrite visits_app.
  match goal with |- context [for_ret n 0 ?body (0, s)] =>
    pose proof (chunk_loop l (bm_size b) 56 0 body n 0 0 s) as H1 end.
  cbn [Z.add Z.mul] in H1. rewrite ?Z.add_0_l in H1.
  unfold loop_result in H1 at 2. specialize (H1 ltac:(lia) ltac:(intros; lia) ltac:(done) ltac:(lia)).
  change (56 * 0) with 0 in H1.
  lapply H1.
  2:{ intros j s2 Hj. pose proof (quad_body b l (Z.to_nat j) s2 Hb ltac:(lia) ltac:(lia)) as Hq.
      rewrite Z2Nat.id in Hq by lia. exact Hq. }
  clear H1. destruct (visits (rng l (bm_size b) 0 (56 * Z.of_nat n)) s) as [s1|s1].
  { intros ->. done. }
  intros (cur & -> & Hcur). cbn [obind]. change U64_DIV_BASE with 4. rewrite (pl_len _ _ Hb).
  replace (Z.to_nat _) with (length l - 4 * n)%nat by lia.
  match goal with |- context [for_ret _ _ ?body (cur, s1)] =>
    pose proof (chunk_loop l (bm_size b) 14 0 body (length l - 4 * n) (Z.of_nat n * 4) cur s1) as H2 end.
  rewrite !Z.add_0_l in H2. replace (14 * (Z.of_nat n * 4)) with (56 * Z.of_nat n) in H2 by lia.
  unfold loop_result in H2 at 2.
  specialize (H2 ltac:(lia)). lapply H2; [clear H2; intros H2|].
  2:{ intros j Hj. specialize (Hall (Z.to_nat j)). lia. }
  specialize (H2 Hcur ltac:(lia)). lapply H2; [clear H2; intros H2|].
  - destruct (visits (rng l (bm_size b) (56 * Z.of_nat n) _) s1) as [s2|s2]; [by rewrite H2|].
    destruct H2 as (cur2 & -> & _). done.
  - intros j s2 Hj. rewrite !Z.add_0_l.
    assert (Z.to_nat j < length l)%nat as Hjl by lia. specialize (Hall _ Hjl).
    destruct (lookup_lt_is_Some_2 l (Z.to_nat j)) as [w Hw]; [lia|].
    replace j with (Z.of_nat (Z.to_nat j)) by lia. rewrite (rd_lookup b l _ w Hb Hw). cbn [obind fst snd].
    destruct (Z.eqb_spec w 0) as [->|].
    + rewrite zero_word by done. unfold loop_result. cbn. eexists. split; [done|].
      intros _. change VALUE_SIZE with 14. rewrite wrap_small; lia.
    + apply word_body; [done|lia|done].
Qed.
End visits.

Lemma visits_push ps : ∀ acc, visits (λ p pos, (true, pos ++ [p])) ps acc = inr (acc ++ ps).
Proof.
  induction ps as [|p ps IH]; intros acc; cbn; [by rewrite app_nil_r|]. by rewrite IH, <- app_assoc.
Qed.
Lemma listPosAsc_spec b l acc : plain b l → listPosAsc b acc = Ok (acc ++ positions l (bm_size b)).
Proof. intros Hb. unfold listPosAsc. rewrite (foreach_spec _ b l) by done. unfold visited. by rewrite visits_push. Qed.

(** C38: On an uncompressed bitmap of 14-bit words ([plain]) [foreach] calls the
    callback on exactly the positions whose bit is set, in ascending order, until a
    call answers false; [listPosAsc] appends these positions to the vector.  The code
    does not check that the bitmap is uncompressed, and on a compressed one it reads
    past the end or takes run lengths for bits ([compressed_scan]). *)
Theorem foreach_exact {St} (cb : Z → St → bool * St) (b : Bitmap) (l : list Z) (s : St) (pos : list Z) :
  plain b l →
  foreach cb b s = Ok (visited cb (filter (λ p, bit l p = true) (seqZ 0 (bm_size b))) s) ∧
  listPosAsc b pos = Ok (pos ++ filter (λ p, bit l p = true) (seqZ 0 (bm_size b))).
Proof. intros Hb. split; [by apply foreach_spec|by apply listPosAsc_spec]. Qed.

Definition scan_sample : Bitmap := mkBitmap false 100 8 (Some [40; 0; 0; 0; 0; 1; COUNT_MASK; 2]).
Lemma scan_sample_plain : plain scan_sample [40; 0; 0; 0; 0; 1; COUNT_MASK; 2].
Proof. split; try done. rewrite !Forall_cons, Forall_nil. by vm_compute. Qed.
(** A compressed bitmap: of 100 bits, the scan runs past its words; of 28 bits, all
    clear, the words of its run are taken for bits. *)
Example compressed_scan :
  (obind (compress (new_Bitmap 100 0)) (λ c, listPosAsc c []), obind (compress (new_Bitmap 28 0)) (λ c, listPosAsc c [])) =
  (Undef OutOfBounds, Ok [2; 3; 4]).
Proof. by vm_compute. Qed.
Lemma foreach_exact_witness :
  let l := [40; 0; 0; 0; 0; 1; COUNT_MASK; 2] in
  foreach (λ p (n : Z), (n <? 3, n + p)) scan_sample 0 =
    Ok (visited (λ p n, (n <? 3, n + p)) (filter (λ p, bit l p = true) (seqZ 0 100)) 0) ∧
  listPosAsc scan_sample [7] = Ok ([7] ++ filter (λ p, bit l p = true) (seqZ 0 100)).
Proof. exact (foreach_exact (λ p n, (n <? 3, n + p)) scan_sample _ 0 [7] scan_sample_plain). Defined.

(** ** The iterator *)

(** [q] is the first set position after [p], or past the end when there is none. *)
Definition is_next (l : list Z) (size p q : Z) : Prop :=
  (∀ r, p < r < Z.min q size → bit l r = false) ∧ p < q ∧ (q < size → bit l q = true).

Lemma next_bits_spec size v k : ∀ n pos,
  0 ≤ n → pos ≤ size → let m := pos + Z.min (Z.of_nat k) (size - pos) in
  ∃ found q, next_bits k size v n pos = (found, q) ∧ pos ≤ q ≤ m ∧
    (∀ r, pos ≤ r < q → Z.testbit v (n + (r - pos)) = false) ∧
    (if found then q < m ∧ Z.testbit v (n + (q - pos)) = true else q = m).
Proof.
  induction k as [|k IH]; intros n pos Hn Hp m; cbn [next_bits].
  { exists false, pos. split_and!; [done|lia|lia|lia|lia]. }
  destruct (Z.ltb_spec pos size); [|exists false, pos; split_and!; [done|lia|lia|lia|lia]].
  rewrite is_set_testbit by done. destruct (Z.testbit v n) eqn:E.
  - exists true, pos. split_and!; [done|lia|lia|lia|lia|]. by rewrite Z.sub_diag, Z.add_0_r.
  - destruct (IH (n + 1) (pos + 1)) as (found & q & -> & Hq & Hr & Hf); [lia|lia|]. exists found, q.
    split_and!; [done|lia|lia| |].
    + intros r Hr'. destruct (decide (r = pos)) as [->|]; [by rewrite Z.sub_diag, Z.add_0_r|].
      replace (n + (r - pos)) with (n + 1 + (r - (pos + 1))) by lia. apply Hr. lia.
    + destruct found; [|lia]. replace (n + (q - pos)) with (n + 1 + (q - (pos + 1))) by lia. split; [lia|apply Hf].
Qed.

Lemma next_words_spec b l pos :
  plain b l → 0 ≤ pos ≤ bm_size b → (pos < bm_size b → pos mod 14 = 0) →
  ∃ q, next_words b pos = Ok q ∧ is_next l (bm_size b) (pos - 1) q.
Proof.
  intros Hb Hp Hal. pose proof (plain_length b l Hb) as Hlen. pose proof (pl_size _ _ Hb) as Hsz.
  unfold next_words. cbn zeta. change VALUE_SIZE with 14. rewrite (pl_len _ _ Hb).
  destruct (decide (bm_size b ≤ pos)) as [Hge|Hlt].
  { assert (is_next l (bm_size b) (pos - 1) pos) as Hnx by (split_and!; lia).
    destruct (Z.to_nat (Z.of_nat (length l) - pos / 14)) as [|n]; [by exists pos|]. cbn [for_ret].
    rewrite (proj2 (Z.leb_le _ _)) by lia. by exists pos. }
  specialize (Hal ltac:(lia)).
  match goal with |- context [for_ret ?cnt ?start ?body pos] =>
    destruct (for_ret_inv
      (λ i p, (p = 14 * i ∨ (bm_size b ≤ 14 * i ∧ bm_size b ≤ p)) ∧ pos ≤ p ∧
              ∀ r, pos ≤ r < Z.min (14 * i) (bm_size b) → bit l r = false)
      (λ q, is_next l (bm_size b) (pos - 1) q) body cnt start pos) as [(q & -> & Hq)|(q & -> & Hq)] end.
  - split_and!; [left; Z.to_euclidean_division_equations; lia|lia|Z.to_euclidean_division_equations; lia].
  - intros i p Hi (Hpi & Hpp & Hr). destruct (Z.leb_spec (bm_size b) p) as [Hle|Hgt].
    { right. exists p. split; [done|]. split_and!; [|lia|lia]. intros r Hrr. apply Hr. lia. }
    destruct Hpi as [->|?]; [|lia]. assert (0 ≤ i) by lia.
    destruct (lookup_lt_is_Some_2 l (Z.to_nat i)) as [w Hw]; [lia|].
    replace (rd b i) with (rd b (Z.of_nat (Z.to_nat i))) by (f_equal; lia). rewrite (rd_lookup b l _ w Hb Hw). cbn [obind].
    assert (∀ r, 14 * i ≤ r < 14 * i + 14 → bit l r = Z.testbit w (0 + (r - 14 * i))) as Hbit.
    { intros r Hrr. rewrite (bit_in_word l (Z.to_nat i) r w Hw) by lia. by rewrite Z2Nat.id. }
    destruct (Z.eqb_spec w 0) as [->|].
    + left. eexists. split; [done|]. split_and!; [left; lia|lia|]. intros r Hrr.
      destruct (decide (r < 14 * i)); [apply Hr; lia|]. rewrite Hbit by lia. apply Z.bits_0.
    + destruct (next_bits_spec (bm_size b) w 14 0 (14 * i)) as (found & q & -> & Hq & Hqr & Hf); [lia|lia|].
      change (Z.of_nat 14) with 14 in *. destruct found.
      * right. exists q. split; [done|]. destruct Hf as [Hqm Hqb]. split_and!; [|lia|].
        -- intros r Hrr. destruct (decide (r < 14 * i)); [apply Hr; lia|]. rewrite Hbit by lia. apply Hqr. lia.
        -- intros _. rewrite Hbit by lia. done.
      * left. exists q. split; [done|]. subst q. split_and!; [lia|lia|]. intros r Hrr.
        destruct (decide (r < 14 * i)); [apply Hr; lia|]. rewrite Hbit by lia. apply Hqr. lia.
  - exists q. split; [done|]. destruct Hq as (Hq & Hpq & Hr).
    assert (bm_size b ≤ 14 * (pos / 14 + Z.of_nat (Z.to_nat (Z.of_nat (length l) - pos / 14)))) as Hend.
    { assert (pos / 14 ≤ Z.of_nat (length l)) by (Z.to_euclidean_division_equations; lia). rewrite Z2Nat.id by lia.
      Z.to_euclidean_division_equations; lia. }
    split_and!; [|lia|lia]. intros r Hrr. apply Hr. lia.
  - by exists q.
Qed.

Lemma next_pos_spec b l pos :
  plain b l → -1 ≤ pos < bm_size b → ∃ q, next_pos b pos = Ok q ∧ is_next l (bm_size b) pos q.
Proof.
  intros Hb Hp. pose proof (plain_length b l Hb) as Hlen. pose proof (pl_size _ _ Hb) as Hsz.
  unfold next_pos. cbn zeta. change VALUE_SIZE with 14. set (left := (pos + 1) mod 14).
  assert (0 ≤ left < 14) as Hleft by (apply Z.mod_pos_bound; lia).
  destruct (Z.eqb_spec left 0) as [E|E]; cbn [negb].
  { destruct (next_words_spec b l (pos + 1) Hb) as (q & -> & Hq); [lia|done|]. exists q. split; [done|].
    by replace (pos + 1 - 1) with pos in Hq by lia. }
  set (i := Z.to_nat ((pos + 1) / 14)).
  assert ((pos + 1) / 14 = Z.of_nat i) as Ei by (unfold i; Z.to_euclidean_division_equations; lia).
  destruct (lookup_lt_is_Some_2 l i) as [w Hw].
  { unfold i, left in *. clear Ei. Z.to_euclidean_division_equations; lia. }
  rewrite Ei, (rd_lookup b l i w Hb Hw). cbn [obind].
  destruct (next_bits_spec (bm_size b) w (Z.to_nat (14 - left)) left (pos + 1)) as (found & q & -> & Hq & Hqr & Hf); [lia|lia|].
  assert (pos + 1 = 14 * Z.of_nat i + left) as Epos by (unfold left; rewrite <- Ei; Z.to_euclidean_division_equations; lia).
  assert (∀ r, pos + 1 ≤ r < pos + 1 + (14 - left) → bit l r = Z.testbit w (left + (r - (pos + 1)))) as Hbit.
  { intros r Hrr. rewrite (bit_in_word l i r w Hw) by lia. f_equal. lia. }
  rewrite Z2Nat.id in * by lia. destruct found.
  - exists q. split; [done|]. destruct Hf as [Hqm Hqb]. split_and!; [|lia|].
    + intros r Hrr. rewrite Hbit by lia. apply Hqr. lia.
    + intros _. by rewrite Hbit by lia.
  - subst q. set (q := pos + 1 + Z.min (14 - left) (bm_size b - (pos + 1))) in *.
    destruct (next_words_spec b l q Hb) as (q2 & -> & Hn2 & Hlt2 & Hb2); [lia| |].
    { intros Hlt. assert (q = 14 * (Z.of_nat i + 1)) as -> by lia. rewrite Z.mul_comm. apply Z.mod_mul. lia. }
    exists q2. split; [done|]. split_and!; [|lia|done]. intros r Hrr.
    destruct (decide (r < q)); [rewrite Hbit by lia; apply Hqr; lia|apply Hn2; lia].
Qed.

(** The loop [for(auto it = b.begin(); !it; it.next())]. *)
Fixpoint iterate (fuel : nat) (t : iterator) : outcome (list Z) :=
  if it_valid t then
    match fuel with
    | O => Fuel
    | S fuel => obind (iterator_next t) (λ t', obind (iterate fuel t') (λ l, Ok (it_pos t :: l)))
    end
  else Ok [].

Lemma iterate_spec b l fuel : ∀ p q,
  plain b l → -1 ≤ p → p < bm_size b → is_next l (bm_size b) p q → bm_size b - q < Z.of_nat fuel →
  iterate fuel (mkIterator q b) = Ok (filter (λ p, bit l p = true) (seqZ (p + 1) (bm_size b - (p + 1)))).
Proof.
  induction fuel as [|fuel IH]; intros p q Hb Hp Hps (Hn & Hpq & Hbq) Hf; cbn [iterate]; unfold it_valid; cbn [it_pos it_bitmap].
  { rewrite (proj2 (Z.leb_le _ _)) by lia. cbn. rewrite filter_none; [done|].
    intros r Hr. apply elem_of_seqZ in Hr. rewrite Hn by lia. done. }
  destruct (Z.leb_spec (bm_size b) q) as [Hle|Hlt]; cbn [orb negb].
  { rewrite filter_none; [done|]. intros r Hr. apply elem_of_seqZ in Hr. by rewrite Hn by lia. }
  rewrite (proj2 (Z.ltb_ge _ _)) by lia. cbn [negb].
  destruct (next_pos_spec b l q Hb) as (q2 & E & Hq2); [lia|]. unfold iterator_next. cbn [it_pos it_bitmap].
  rewrite E. cbn [obind]. rewrite (IH q q2 Hb) by (done || lia || (destruct Hq2 as (_ & ? & _); lia)). cbn [obind].
  replace (bm_size b - (p + 1)) with ((q - (p + 1)) + Z.succ (bm_size b - (q + 1))) by lia.
  rewrite seqZ_app by lia. replace (p + 1 + (q - (p + 1))) with q by lia.
  rewrite filter_app, (filter_none _ (seqZ (p + 1) _)).
  - rewrite (seqZ_cons q) by lia. rewrite filter_cons_True by (apply Hbq; lia). rewrite Z.pred_succ. done.
  - intros r Hr. apply elem_of_seqZ in Hr. by rewrite Hn by lia.
Qed.

(** The forward iterator terminates and yields exactly the positions whose
    bit is set, in ascending order. *)
Theorem iterator_exact (b : Bitmap) (l : list Z) :
  plain b l →
  obind (begin b) (iterate (S (Z.to_nat (bm_size b)))) =
    Ok (filter (λ p, bit l p = true) (seqZ 0 (bm_size b))).
Proof.
  intros Hb. pose proof (pl_size _ _ Hb). destruct (decide (bm_size b = 0)) as [E0|Hpos].
  { pose proof (plain_length b l Hb) as Hl. rewrite E0 in Hl. change ((0 + 13) / 14) with 0 in Hl. destruct l; [|cbn in Hl; lia].
    assert (next_words b 0 = Ok 0) as Hw by (unfold next_words; by rewrite (pl_len _ _ Hb)).
    assert (begin b = Ok (mkIterator 0 b)) as ->.
    { unfold begin, iterator_next, next_pos. cbn [it_pos it_bitmap]. change (-1 + 1) with 0.
      change (0 mod VALUE_SIZE) with 0. cbn [Z.eqb negb]. by rewrite Hw. }
    cbn [obind]. rewrite E0. cbn [iterate]. unfold it_valid. cbn [it_bitmap it_pos]. by rewrite E0. }
  destruct (next_pos_spec b l (-1) Hb) as (q & E & Hq); [lia|]. unfold begin, iterator_next. cbn [it_pos it_bitmap].
  rewrite E. cbn [obind]. rewrite (iterate_spec b l _ (-1) q Hb); [|lia|lia|done|destruct Hq as (_ & ? & _); lia].
  by replace (bm_size b - (-1 + 1)) with (bm_size b) by lia.
Qed.
Lemma iterator_exact_witness :
  obind (begin scan_sample) (iterate (S (Z.to_nat (bm_size scan_sample)))) =
    Ok (filter (λ p, bit [40; 0; 0; 0; 0; 1; COUNT_MASK; 2] p = true) (seqZ 0 (bm_size scan_sample))).
Proof. exact (iterator_exact scan_sample _ scan_sample_plain). Defined.

(** ** [any] and [resize] *)
Lemma word_nonzero w : word_ok w → w ≠ 0 → ∃ n, 0 ≤ n < 14 ∧ Z.testbit w n = true.
Proof.
  intros Hw Hne. unfold word_ok, is_uint in Hw. exists (Z.log2 w). split; [|apply Z.bit_log2; lia].
  split; [apply Z.log2_nonneg|]. apply Z.log2_lt_pow2; lia.
Qed.
Lemma is_set_low w k : 0 ≤ k → is_set w (MASK k) = true ↔ ∃ n, 0 ≤ n < k ∧ Z.testbit w n = true.
Proof.
  intros Hk. unfold is_set, MASK, POS. rewrite Z.shiftl_1_l.
  replace (2 ^ k - 1) with (Z.ones k) by (rewrite Z.ones_equiv; lia). rewrite negb_true_iff, Z.eqb_neq.
  split.
  - intros Hne. destruct (decide (Exists (λ n, Z.testbit w n = true) (seqZ 0 k))) as [He|Hn].
    + apply Exists_exists in He as (n & Hin & Hb). apply elem_of_seqZ in Hin. exists n. split; [lia|done].
    + exfalso. apply Hne, Z.bits_inj'. intros m Hm. rewrite Z.land_spec, Z.bits_0.
      destruct (decide (m < k)); [|rewrite Z.ones_spec_high by lia; apply andb_false_r].
      rewrite Z.ones_spec_low, andb_true_r by lia. apply not_true_is_false. intros Hb. apply Hn, Exists_exists.
      exists m. split; [apply elem_of_seqZ; lia|done].
  - intros (n & Hn & Hb) E. assert (Z.testbit (Z.land w (Z.ones k)) n = true) as Ht
      by (rewrite Z.land_spec, Hb, Z.ones_spec_low by lia; done).
    by rewrite E, Z.bits_0 in Ht.
Qed.

(** On a well-formed bitmap [any] tells whether a bit is set - among all
    positions when the last word is partly used, and among all but those of the
    last word when the size is a multiple of the word size. *)
Theorem any_exact (b : Bitmap) (l : list Z) :
  plain b l → 0 < bm_size b →
  let limit := if bm_size b mod 14 =? 0 then bm_size b - 14 else bm_size b in
  ∃ r, any b = Ok r ∧ (r = true ↔ ∃ p, 0 ≤ p < limit ∧ bit l p = true).
Proof.
  intros Hb Hpos limit. pose proof (plain_length b l Hb) as Hlen. pose proof (pl_size _ _ Hb) as Hsz.
  destruct (lookup_lt_is_Some_2 l (length l - 1)) as [w Hw]; [Z.to_euclidean_division_equations; lia|].
  assert (0 < length l)%nat as Hl0 by (apply lookup_lt_Some in Hw; lia).
  assert ((bm_size b mod 14 = bm_size b - 14 * Z.of_nat (length l - 1) ∧ 0 < bm_size b mod 14) ∨
          (bm_size b mod 14 = 0 ∧ bm_size b = 14 * Z.of_nat (length l))) as Hmod
    by (Z.to_euclidean_division_equations; lia).
  assert (0 ≤ bm_size b mod 14 < 14) as Hm14 by (apply Z.mod_pos_bound; lia).
  unfold any. rewrite (pl_data _ _ Hb), (pl_mode _ _ Hb), (pl_len _ _ Hb). destruct l as [|w0 l0] eqn:El; [done|].
  rewrite <- El in *. cbn [negb]. rewrite wrap_small by (Z.to_euclidean_division_equations; lia).
  match goal with |- context [for_ret ?cnt 0 ?body tt] =>
    destruct (for_ret_inv (λ i _, ∀ p, 0 ≤ p < 14 * i → bit l p = false)
      (λ _, ∃ p, 0 ≤ p < 14 * Z.of_nat (length l - 1) ∧ bit l p = true) body cnt 0 tt)
      as [([] & -> & Hq)|(q & -> & p & Hp & Hbp)] end.
  - intros p Hp. lia.
  - intros i [] Hi Hr. destruct (lookup_lt_is_Some_2 l (Z.to_nat i)) as [x Hx]; [lia|].
    replace (rd b i) with (rd b (Z.of_nat (Z.to_nat i))) by (f_equal; lia). rewrite (rd_lookup b l _ x Hb Hx). cbn [obind].
    destruct (Z.eqb_spec x 0) as [->|Hne]; cbn [negb].
    + left. exists tt. split; [done|]. intros p Hp. destruct (decide (p < 14 * i)); [apply Hr; lia|].
      rewrite (bit_in_word l (Z.to_nat i) p 0 Hx) by lia. apply Z.bits_0.
    + right. exists tt. split; [done|]. destruct (word_nonzero x) as (n & Hn & Hbn); [by eapply plain_word|done|].
      exists (14 * i + n). split; [lia|]. rewrite (bit_in_word l (Z.to_nat i) _ x Hx) by lia.
      rewrite <- Hbn. f_equal. lia.
  - replace (Z.of_nat (length l) - 1) with (Z.of_nat (length l - 1)) by lia. rewrite (rd_lookup b l _ w Hb Hw).
    cbn [obind]. eexists. split; [done|]. change VALUE_SIZE with 14.
    rewrite is_set_low by lia. split.
    + intros (n & Hn & Hbn). exists (14 * Z.of_nat (length l - 1) + n). split.
      * unfold limit. destruct (Z.eqb_spec (bm_size b mod 14) 0); lia.
      * rewrite (bit_in_word l (length l - 1) _ w Hw) by lia. rewrite <- Hbn. f_equal. lia.
    + intros (p & Hp & Hbp). assert (¬ p < 14 * Z.of_nat (length l - 1)) as Hge.
      { intros Hlt. rewrite Hq in Hbp by lia. done. }
      exists (p - 14 * Z.of_nat (length l - 1)). unfold limit in Hp.
      destruct (Z.eqb_spec (bm_size b mod 14) 0); split; try lia.
      rewrite <- Hbp. rewrite (bit_in_word l (length l - 1) p w Hw) by lia. done.
  - exists true. split; [done|]. split; [|done]. intros _. exists p. split; [|done]. unfold limit.
    destruct (Z.eqb_spec (bm_size b mod 14) 0); lia.
Qed.
Lemma any_exact_witness :
  let l := [40; 0; 0; 0; 0; 1; COUNT_MASK; 2] in
  let limit := if bm_size scan_sample mod 14 =? 0 then bm_size scan_sample - 14 else bm_size scan_sample in
  ∃ r, any scan_sample = Ok r ∧ (r = true ↔ ∃ p, 0 ≤ p < limit ∧ bit l p = true).
Proof. exact (any_exact scan_sample _ scan_sample_plain eq_refl). Defined.
