(* ===== verification/BitmapIO.v ===== *)
(** * Storing a bitmap in a ByteArray

    [Bitmap::writeTo] and [Bitmap::readFrom]: the fields through the fixed-width
    codecs, the words as the memory of the array. *)
From S2P Require Import Prelude ByteArray ByteArraySpec ByteArrayCodec ByteArrayThms Bitmap BitmapSpec BitmapCompress.

(** The memory of an array of [uint16_t]. *)
Definition mem_of_words (l : list Z) : list Z := l ≫= le_bytes 2.
Fixpoint words_of_mem (bs : list Z) : list Z :=
  match bs with b0 :: b1 :: bs => le_val [b0; b1] :: words_of_mem bs | _ => [] end.

Definition writeTo (b : Bitmap) : M ByteArray unit :=
  writeFuint8 (Z.b2z (bm_compress b)) ;;!
  writeFuint32 (bm_size b) ;;!
  writeFuint32 (bm_dataSize b) ;;!
  let! l := lift (words b) in
  write (mem_of_words l).

(** [fresh n] is what a block of [n] words holds when [malloc] returns it. *)
Section readFrom.
Context (fresh : nat → list Z).

Definition on_array {A} (m : M ByteArray A) : M (Bitmap * ByteArray) A := λ w,
  let (o, ba) := m (w.2) in (o, (w.1, ba)).
Definition on_bitmap (f : Bitmap → Bitmap) : M (Bitmap * ByteArray) unit := modst (λ w, (f (w.1), w.2)).

Definition readFrom : M (Bitmap * ByteArray) bool :=
  catch (
    let! c := on_array readFuint8 in
    on_bitmap (λ b, mkBitmap (negb (c =? 0)) (bm_size b) (bm_dataSize b) (bm_data b)) ;;!
    let! s := on_array readFuint32 in
    on_bitmap (λ b, mkBitmap (bm_compress b) s (bm_dataSize b) (bm_data b)) ;;!
    let! n := on_array readFuint32 in
    on_bitmap (λ b, mkBitmap (bm_compress b) (bm_size b) n (Some (fresh (Z.to_nat n)))) ;;!
    let! bs := on_array (read_bytes (n * 2)) in
    on_bitmap (with_data (words_of_mem bs)) ;;!
    ret true) false.
End readFrom.

Lemma words_of_mem_of l : Forall word16 l → words_of_mem (mem_of_words l) = l.
Proof.
  induction 1 as [|w l Hw _ IH]; [done|]. change (mem_of_words (w :: l)) with (le_bytes 2 w ++ mem_of_words l).
  cbn [le_bytes app words_of_mem]. rewrite IH. f_equal.
  change [wrap 8 w; wrap 8 (Z.shiftr w 8)] with (le_bytes 2 w). rewrite le_val_bytes. by apply wrap_small.
Qed.
Lemma mem_of_words_length l : length (mem_of_words l) = (2 * length l)%nat.
Proof. induction l as [|w l IH]; [done|]. change (mem_of_words (w :: l)) with (le_bytes 2 w ++ mem_of_words l).
  rewrite length_app, IH, le_bytes_length. cbn [length]. lia. Qed.

(** What a bitmap, compressed or not, has in common. *)
Record storable (b : Bitmap) (l : list Z) : Prop := {
  st_data : bm_data b = Some l;
  st_len : bm_dataSize b = Z.of_nat (length l);
  st_pos : l ≠ [];
  st_words : Forall word16 l;
  st_size : is_uint 32 (bm_size b);
  st_dataSize : is_uint 32 (bm_dataSize b)
}.

Definition stored (e : endianness) (b : Bitmap) (l : list Z) : list Z :=
  enc_uint 1 e (Z.b2z (bm_compress b)) ++ enc_uint 4 e (bm_size b) ++ enc_uint 4 e (bm_dataSize b) ++ mem_of_words l.

Lemma words_storable b l : storable b l → words b = Ok l.
Proof.
  intros [H1 H2 _ _ _ _]. unfold words. rewrite H1, H2, (proj2 (Z.ltb_ge _ _)) by lia.
  by rewrite Nat2Z.id, take_ge.
Qed.

Lemma b2z_uint8 c : is_uint 8 (Z.b2z c).
Proof. destruct c; split; cbn; lia. Qed.
#[export] Instance fuint32_codec : Codec writeFuint32 readFuint32 (enc_uint 4) (is_uint 32) (λ _, True).
Proof. apply (writeFuint_codec 4). lia. Qed.

Lemma writeTo_spec b l ba :
  storable b l → wf ba → room ba (Z.of_nat (length (stored (m_endian ba) b l))) →
  ∃ ba', writeTo b ba = (Ok tt, ba') ∧ writes (stored (m_endian ba) b l) ba ba'.
Proof.
  intros Hs Hwf Hroom. unfold writeTo, stored in *. apply writes_bind; [done|done| |].
  { intros ?. by apply (@codec_write _ _ _ _ _ _ writeFuint8_codec); [|apply b2z_uint8|]. }
  intros b1 Hwf1 E1 Hr1. apply writes_bind; [done|done| |].
  { intros Hr. rewrite <- E1 in *. apply (codec_write (wr := writeFuint32)); [done|apply Hs|done]. }
  intros b2 Hwf2 E2 Hr2. apply writes_bind; [done|done| |].
  { intros Hr. rewrite <- E1, <- E2 in *. apply (codec_write (wr := writeFuint32)); [done|apply Hs|done]. }
  intros b3 Hwf3 _ Hr3. unfold bind, lift. rewrite (words_storable b l Hs). by apply write_spec.
Qed.

Lemma on_array_run {A} (m : M ByteArray A) b ba a ba' :
  m ba = (Ok a, ba') → on_array m (b, ba) = (Ok a, (b, ba')).
Proof. unfold on_array. cbn [fst snd]. by intros ->. Qed.

Lemma readFrom_spec fresh b b0 l ba :
  storable b l → wf ba → readable ba (stored (m_endian ba) b l) →
  readFrom fresh (b0, ba) = (Ok true, (b, advance (length (stored (m_endian ba) b l)) ba)).
Proof.
  intros Hs Hwf Hr. unfold stored in *. set (e := m_endian ba) in *.
  apply readable_app in Hr as [Hr1 Hr]; [|done].
  set (ba1 := advance _ ba) in Hr. assert (wf ba1) as Hwf1 by (by apply advance_wf).
  apply readable_app in Hr as [Hr2 Hr]; [|done].
  set (ba2 := advance _ ba1) in Hr. assert (wf ba2) as Hwf2 by (by apply advance_wf).
  apply readable_app in Hr as [Hr3 Hr]; [|done].
  set (ba3 := advance _ ba2) in Hr. assert (wf ba3) as Hwf3 by (by apply advance_wf).
  unfold readFrom, catch.
  assert (readFuint8 ba = (Ok (Z.b2z (bm_compress b)), ba1)) as E1
    by (apply (@codec_read _ _ _ _ _ _ writeFuint8_codec ba); [done|apply b2z_uint8|done|by left]).
  assert (readFuint32 ba1 = (Ok (bm_size b), ba2)) as E2
    by (apply (codec_read (wr := writeFuint32) ba1); [done|apply Hs|done|by left]).
  assert (readFuint32 ba2 = (Ok (bm_dataSize b), ba3)) as E3
    by (apply (codec_read (wr := writeFuint32) ba2); [done|apply Hs|done|by left]).
  assert (read_bytes (bm_dataSize b * 2) ba3 = (Ok (mem_of_words l), advance (length (mem_of_words l)) ba3)) as E4.
  { apply read_bytes_spec; [done|done| |].
    - rewrite (st_len _ _ Hs), mem_of_words_length. lia.
    - left. pose proof (st_pos _ _ Hs). by destruct l. }
  erewrite bind_ok by (apply on_array_run, E1). erewrite bind_ok by done. cbn [fst snd].
  erewrite bind_ok by (apply on_array_run, E2). erewrite bind_ok by done. cbn [fst snd].
  erewrite bind_ok by (apply on_array_run, E3). erewrite bind_ok by done. cbn [fst snd].
  erewrite bind_ok by (apply on_array_run, E4). erewrite bind_ok by done. cbn [fst snd].
  unfold ret. f_equal. f_equal.
  - unfold with_data. cbn. rewrite words_of_mem_of by apply Hs. pose proof (st_data _ _ Hs). destruct b as [c ? ? ?]; cbn in *.
    subst. by destruct c.
  - unfold ba3, ba2, ba1. rewrite !advance_advance, !length_app. f_equal; lia.
Qed.

(** A bitmap written to a buffer with [writeTo], wherever the cursor stands
    and compressed or not, is read back by [readFrom] into any bitmap object
    exactly, and the cursor ends where the writer left it. *)
Theorem bitmap_store_roundtrip (fresh : nat → list Z) (b b0 : Bitmap) (l : list Z) (ba : ByteArray) :
  storable b l → wf ba → room ba (9 + 2 * bm_dataSize b) →
  ∃ ba1 ba2, writeTo b ba = (Ok tt, ba1) ∧ setPosition (m_position ba) ba1 = (Ok tt, ba2) ∧
    readFrom fresh (b0, ba2) = (Ok true, (b, ba1)).
Proof.
  intros Hs Hwf Hroom.
  assert (Z.of_nat (length (stored (m_endian ba) b l)) = 9 + 2 * bm_dataSize b) as Hlen.
  { unfold stored. rewrite !length_app, !enc_uint_length, mem_of_words_length, (st_len _ _ Hs). lia. }
  destruct (writeTo_spec b l ba Hs Hwf) as (ba1 & E & Hw); [by rewrite Hlen|].
  pose proof (wr_wf _ _ _ Hw) as Hwf1. pose proof (writes_position _ _ _ Hwf Hw) as Hp.
  pose proof Hwf1 as [Hok1 [Hs1 Hs2]]. pose proof (ok_pos ba (wf_chain ba Hwf)) as Hp0.
  exists ba1, (move (m_position ba) ba1). split; [done|]. split.
  - rewrite setPosition_spec by (done || lia). rewrite decide_True by lia. rewrite Z.max_r by lia. by destruct ba1.
  - assert (m_endian (move (m_position ba) ba1) = m_endian ba) as Ee by apply Hw.
    rewrite (readFrom_spec fresh b b0 l); rewrite ?Ee; [|done|apply move_wf; [done|lia]|by apply writes_readable].
    unfold advance. rewrite move_move. cbn. by rewrite <- Hp, move_id.
Qed.
Lemma bitmap_store_roundtrip_witness :
  let ba := new_ByteArray 7 in
  ∃ ba1 ba2, writeTo sample_bitmap ba = (Ok tt, ba1) ∧ setPosition (m_position ba) ba1 = (Ok tt, ba2) ∧
    readFrom (λ n, replicate n 7) (new_Bitmap 3 0, ba2) = (Ok true, (sample_bitmap, ba1)).
Proof.
  apply (bitmap_store_roundtrip (λ n, replicate n 7) sample_bitmap (new_Bitmap 3 0) [40; 0; 0; 0; 0; 1; COUNT_MASK; 2] (new_ByteArray 7)).
  - split; try done. rewrite !Forall_cons, Forall_nil. by vm_compute.
  - apply new_ByteArray_wf. lia.
  - unfold room. by vm_compute.
Defined.
