(* ===== verification/HashMap.v ===== *)
(** * HashMap (Helens/ds/hash_map.h, Helens/ds/util.h)

    Buckets are vectors sorted by key, searched by [BinarySearch]; the table
    grows to [basket(total)] buckets when it holds more than sixteen nodes a
    bucket.  The model is sequential: one call at a time. *)
From S2P Require Import Prelude OrderedSet TimedLruCache.

(** [basket(n)] of an [int]; the conversion of [floor(log2(0)) + 1] to [int] and
    [abs] of the least [int] are undefined. *)
Definition basket (n : Z) : outcome Z :=
  if (n =? 0) || (n =? - 2 ^ 31) then Undef Overflow else Ok (Z.shiftl 1 (Z.min (Z.log2 (Z.abs n) + 1) 30)).

Section ds_util.
Context {A : Type} (ltb : A → A → bool).

(** [std::lower_bound]: the index of the first element that is not before [v]. *)
Fixpoint lower_bound (v : A) (l : list A) : nat :=
  match l with [] => 0 | x :: l => if ltb x v then S (lower_bound v l) else 0 end.
Definition BinarySearch (v : A) (l : list A) : option nat :=
  let tmp := lower_bound v l in
  match l !! tmp with
  | None => None
  | Some x => if negb (ltb v x) then Some tmp else None
  end.

(** [SortLast]: the loop from [i = size - 2] down, swapping neighbours. *)
Fixpoint sort_last_loop (i : nat) (l : list A) : list A :=
  match l !! S i, l !! i with
  | Some y, Some x =>
    if ltb y x then
      let l := <[S i := x]> (<[i := y]> l) in
      match i with O => l | S i => sort_last_loop i l end
    else l
  | _, _ => l
  end.
Definition SortLast (l : list A) : list A :=
  if (length l <=? 1)%nat then l else sort_last_loop (length l - 2) l.
End ds_util.

Section hash_map.
Context {K V : Type} `{Countable K} `{KeyOrder K} (m_posHash : K → Z).

(** A node: key and value; [operator<] compares keys. *)
Abbreviation node := (K * V)%type.
Definition hnode_ltb (a b : node) : bool := key_ltb (a.1) (b.1).
(** [std::sort] *)
Definition hnode_le (a b : node) : Prop := key_ltb (b.1) (a.1) = false.
#[export] Instance hnode_le_dec : RelDecision hnode_le.
Proof. intros a b. unfold hnode_le. apply _. Defined.
Definition std_sort (l : list node) : list node := merge_sort hnode_le l.

Record HashMap := mkHashMap {
  h_size : Z;
  h_total : Z;
  h_datas : option (list (list node))
}.

Definition new_HashMap (size : Z) : outcome HashMap :=
  obind (basket (i32 size)) (λ n, Ok (mkHashMap n 0 (Some (replicate (Z.to_nat n) [])))).

(** [hashvalue % m_size], and [m_datas[pos]]. *)
Definition bucket (h : HashMap) (k : K) : outcome (nat * list node) :=
  if h_size h =? 0 then Undef DivByZero else
  let pos := Z.to_nat (m_posHash k mod h_size h) in
  match h_datas h with
  | None => Undef NullDeref
  | Some d => obind (of_option OutOfBounds (d !! pos)) (λ l, Ok (pos, l))
  end.
Definition with_bucket (pos : nat) (l : list node) (h : HashMap) : HashMap :=
  mkHashMap (h_size h) (h_total h) ((λ d, <[pos := l]> d) <$> h_datas h).
Definition with_total (n : Z) (h : HashMap) : HashMap := mkHashMap (h_size h) n (h_datas h).

(** The first node whose key is that of [k]; the value of [Node(k)] plays no part. *)
Definition find_key_in (k : K) (l : list node) : option nat :=
  BinarySearch (λ a b, key_ltb a b) k (l.*1).

Definition hget (k : K) (h : HashMap) : outcome (option V) :=
  obind (bucket h k) (λ '(pos, l),
  Ok (match find_key_in k l with Some i => snd <$> l !! i | None => None end)).
Definition hexists (k : K) (h : HashMap) : outcome bool :=
  obind (bucket h k) (λ '(pos, l), Ok (bool_decide (is_Some (find_key_in k l)))).

(** [getRate() > 16]: the quotient of [m_total] by a power of two is exact as a
    double, and as a float it is above 16 when it is above 16 + 2^-20. *)
Definition needRehash (h : HashMap) : bool := h_size h * (16 * 2 ^ 20 + 1) <? h_total h * 2 ^ 20.

(** The loops of [rehashUnlock] over the old buckets. *)
Definition push_back (pos : nat) (n : node) (d : list (list node)) : outcome (list (list node)) :=
  obind (of_option OutOfBounds (d !! pos)) (λ l, Ok (<[pos := l ++ [n]]> d)).
Fixpoint distribute (size : Z) (ns : list node) (d : list (list node)) : outcome (list (list node)) :=
  match ns with
  | [] => Ok d
  | n :: ns => obind (push_back (Z.to_nat (m_posHash (n.1) mod size)) n d) (distribute size ns)
  end.
(** The argument of [basket] is an [int]. *)
Definition rehashUnlock (h : HashMap) : outcome HashMap :=
  obind (basket (i32 (h_total h))) (λ size,
  if size =? h_size h then Ok h else
  match h_datas h with
  | None => if h_size h =? 0 then Ok (mkHashMap size (h_total h) (Some (replicate (Z.to_nat size) []))) else Undef NullDeref
  | Some old =>
    obind (distribute size (concat old) (replicate (Z.to_nat size) [])) (λ d,
    Ok (mkHashMap size (h_total h) (Some (std_sort <$> d))))
  end).
Definition rehash (h : HashMap) : outcome HashMap := if needRehash h then rehashUnlock h else Ok h.

Definition hset (k : K) (v : V) (h : HashMap) : outcome (bool * HashMap) :=
  obind (rehash h) (λ h,
  obind (bucket h k) (λ '(pos, l),
  match find_key_in k l with
  | None => Ok (true, with_total (u64 (h_total h + 1)) (with_bucket pos (SortLast hnode_ltb (l ++ [(k, v)])) h))
  | Some i => Ok (false, with_bucket pos (<[i := (k, v)]> l) h)
  end)).

(** [swap] with the last node; then drop it and sort. *)
Definition swap_back (i : nat) (l : list node) : list node :=
  if (1 <? length l)%nat then
    match l !! i, last l with
    | Some x, Some y => <[(length l - 1)%nat := x]> (<[i := y]> l)
    | _, _ => l
    end
  else l.
Definition drop_node (i : nat) (l : list node) : list node :=
  let l := swap_back i l in std_sort (take (length l - 1) l).
Definition hdel (k : K) (h : HashMap) : outcome (bool * HashMap) :=
  obind (bucket h k) (λ '(pos, l),
  match find_key_in k l with
  | None => Ok (false, h)
  | Some i => Ok (true, with_total (u64 (h_total h - 1)) (with_bucket pos (drop_node i l) h))
  end).

(** [m_size] is set to zero and the buckets are freed. *)
Definition hclear (h : HashMap) : HashMap := mkHashMap 0 0 None.
Definition hswap (h oth : HashMap) : HashMap * HashMap := (oth, h).

(** [rforeach]: the callback on every node until it answers false. *)
Section rforeach.
Context {St : Type} (cb : K → V → St → bool * St).
Fixpoint call_nodes (ns : list node) (s : St) : St :=
  match ns with [] => s | (k, v) :: ns => let (go, s) := cb k v s in if go then call_nodes ns s else s end.
Definition rforeach (h : HashMap) (s : St) : outcome St :=
  match h_datas h with
  | None => if h_size h =? 0 then Ok s else Undef NullDeref
  | Some d => if Z.of_nat (length d) <? h_size h then Undef OutOfBounds else Ok (call_nodes (concat (take (Z.to_nat (h_size h)) d)) s)
  end.
End rforeach.

Fixpoint set_all (ns : list node) (h : HashMap) : outcome HashMap :=
  match ns with [] => Ok h | (k, v) :: ns => obind (hset k v h) (λ r, set_all ns (r.2)) end.
Definition hmerge (oth h : HashMap) : outcome HashMap :=
  obind (rforeach (λ k v tmp, (true, tmp ++ [(k, v)])) oth []) (λ tmp, set_all tmp h).

(** ** Sorted buckets *)
Definition key_before (a b : K) : Prop := key_ltb a b = true.
Abbreviation sorted := (StronglySorted (λ a b : node, key_before (a.1) (b.1))).

Lemma key_before_irrefl a : ¬ key_before a a.
Proof. unfold key_before. by rewrite key_irrefl. Qed.
Lemma key_before_trans a b c : key_before a b → key_before b c → key_before a c.
Proof. apply key_trans. Qed.
Lemma key_before_total a b : ¬ key_before a b → ¬ key_before b a → a = b.
Proof. intros H1 H2. apply key_total; by apply not_true_is_false. Qed.

(** In a sorted bucket the search finds the node of the key, if there is one. *)
Lemma find_key_in_spec k l :
  sorted l →
  match find_key_in k l with
  | Some i => ∃ l1 v l2, l = l1 ++ (k, v) :: l2 ∧ i = length l1
  | None => ∀ v, (k, v) ∉ l
  end.
Proof.
  unfold find_key_in, BinarySearch. induction 1 as [|[k0 v0] l Hs IH Hf]; [by intros ? ?%elem_of_nil|].
  cbn [fmap list_fmap lower_bound fst]. destruct (key_ltb k0 k) eqn:E0.
  - cbn [lookup list_lookup]. destruct (_ !! lower_bound _ k _) as [x|].
    + destruct (negb (key_ltb k x)).
      * destruct IH as (l1 & v & l2 & -> & Hi). exists ((k0, v0) :: l1), v, l2. cbn. split; [done|]. lia.
      * intros v [[= -> ->]|Hin]%elem_of_cons; [by rewrite key_irrefl in E0|by apply (IH v)].
    + intros v [[= -> ->]|Hin]%elem_of_cons; [by rewrite key_irrefl in E0|by apply (IH v)].
  - cbn [lookup list_lookup]. destruct (key_ltb k k0) eqn:E1; cbn [negb].
    + rewrite Forall_forall in Hf. intros v [[= -> ->]|Hin]%elem_of_cons; [by rewrite key_irrefl in E1|].
      apply Hf in Hin. cbn in Hin. unfold key_before in Hin.
      assert (key_ltb k0 k0 = true) as Hc by (by apply (key_trans k0 k k0)). by rewrite key_irrefl in Hc.
    + rewrite (key_total k k0) by done. by exists [], v0, l.
Qed.

Lemma sorted_nodup l : sorted l → NoDup (l.*1).
Proof.
  induction 1 as [|[k v] l Hs IH Hf]; [constructor|]. constructor; [|done].
  intros ([k' v'] & E & Hin)%list_elem_of_fmap. cbn in E. subst k'. rewrite Forall_forall in Hf.
  apply Hf in Hin. by apply key_before_irrefl in Hin.
Qed.

(** [SortLast] on a sorted list followed by a node with a new key. *)
Lemma sort_last_step (l1 l2 : list node) x y :
  sort_last_loop hnode_ltb (length l1) (l1 ++ x :: y :: l2) =
    if hnode_ltb y x then
      match length l1 with O => l1 ++ y :: x :: l2 | S i => sort_last_loop hnode_ltb i (l1 ++ y :: x :: l2) end
    else l1 ++ x :: y :: l2.
Proof.
  assert ((l1 ++ x :: y :: l2) !! S (length l1) = Some y) as E1.
  { replace (S (length l1)) with (length (l1 ++ [x])) by (rewrite length_app; cbn; lia).
    replace (l1 ++ x :: y :: l2) with ((l1 ++ [x]) ++ y :: l2) by (by rewrite <- app_assoc). by apply list_lookup_middle. }
  assert ((l1 ++ x :: y :: l2) !! length l1 = Some x) as E2 by (by apply list_lookup_middle).
  assert (<[S (length l1) := x]> (<[length l1 := y]> (l1 ++ x :: y :: l2)) = l1 ++ y :: x :: l2) as E3.
  { replace (S (length l1)) with (length l1 + 1)%nat by lia. replace (length l1) with (length l1 + 0)%nat at 2 by lia.
    by rewrite !insert_app_r. }
  destruct (length l1) as [|i] eqn:El; cbn [sort_last_loop]; rewrite E1, E2, E3; done.
Qed.

Lemma sort_last_loop_spec l1 : ∀ y l2,
  sorted (l1 ++ l2) → (∀ x, x ∈ l1 → x.1 ≠ y.1) → (∀ x, x ∈ l2 → key_before (y.1) (x.1)) → l1 ≠ [] →
  ∃ l', sort_last_loop hnode_ltb (length l1 - 1) (l1 ++ y :: l2) = l' ∧ sorted l' ∧ l' ≡ₚ y :: l1 ++ l2.
Proof.
  induction l1 as [|x l1 IH] using rev_ind; intros y l2 Hs Hne Hl2 Hnn; [done|]. clear Hnn.
  rewrite length_app. cbn [length]. replace (length l1 + 1 - 1)%nat with (length l1) by lia.
  rewrite <- app_assoc. cbn [app]. rewrite sort_last_step. rewrite <- app_assoc in Hs. cbn [app] in Hs.
  apply StronglySorted_app_iff in Hs as (S1 & S2 & S3).
  unfold hnode_ltb. destruct (key_ltb (y.1) (x.1)) eqn:E.
  - apply StronglySorted_inv in S2 as [S2 Hf]. rewrite Forall_forall in Hf.
    destruct (length l1) as [|i] eqn:El.
    + destruct l1; [|done]. eexists. split; [done|]. split; [|done]. cbn [app].
      constructor; [constructor; [done|by apply Forall_forall]|]. apply Forall_cons. split; [done|].
      apply Forall_forall. intros z Hz. by apply Hl2.
    + destruct (IH y (x :: l2)) as (l' & E' & Hs' & Hp).
      * apply StronglySorted_app_iff. split_and!; [done|constructor; [done|by apply Forall_forall]|done].
      * intros z Hz. apply Hne. set_solver.
      * intros z [->|Hz]%elem_of_cons; [done|by apply Hl2].
      * intros ->. done.
      * exists l'. rewrite ?El in E'. replace (S i - 1)%nat with i in E' by lia. split; [done|]. split; [done|].
        rewrite Hp. by rewrite <- app_assoc.
  - eexists. split; [done|]. split.
    + apply StronglySorted_app_iff. apply StronglySorted_inv in S2 as [S2 Hf]. rewrite Forall_forall in Hf.
      assert (key_before (x.1) (y.1)) as Hxy.
      { destruct (key_ltb (x.1) (y.1)) eqn:E2; [done|]. exfalso. apply (Hne x); [set_solver|]. by apply key_total. }
      split_and!; [done| |].
      * constructor; [constructor; [done|by apply Forall_forall]|]. apply Forall_cons. split; [done|].
        apply Forall_forall. intros z Hz. by apply Hf.
      * intros z w Hz [->|[->|Hw]%elem_of_cons]%elem_of_cons; [apply S3; set_solver| |apply S3; set_solver].
        eapply key_before_trans; [|exact Hxy]. apply S3; set_solver.
    + solve_Permutation.
Qed.
Lemma SortLast_spec l y :
  sorted l → (∀ v, (y.1, v) ∉ l) → ∃ l', SortLast hnode_ltb (l ++ [y]) = l' ∧ sorted l' ∧ l' ≡ₚ y :: l.
Proof.
  intros Hs Hn. unfold SortLast. rewrite length_app. cbn [length].
  destruct (Nat.leb_spec (length l + 1) 1).
  - destruct l; [|cbn in *; lia]. eexists. split; [done|]. split; [by repeat constructor|done].
  - replace (length l + 1 - 2)%nat with (length l - 1)%nat by lia.
    destruct (sort_last_loop_spec l y []) as (l' & E & Hs' & Hp).
    + by rewrite app_nil_r.
    + intros [k v] Hx Ek. cbn in Ek. subst. by apply (Hn v).
    + set_solver.
    + intros ->. cbn in *. lia.
    + exists l'. split; [done|]. split; [done|]. by rewrite app_nil_r in Hp.
Qed.

(** ** The invariant: what the table says of a key *)
Definition in_bucket (h : HashMap) (pos : nat) (n : node) : Prop :=
  Z.to_nat (m_posHash (n.1) mod h_size h) = pos.
Record hrep (h : HashMap) (d : list (list node)) (m : gmap K V) : Prop := {
  hr_datas : h_datas h = Some d;
  hr_size : 0 < h_size h;
  hr_len : length d = Z.to_nat (h_size h);
  hr_sorted : Forall sorted d;
  hr_place pos l n : d !! pos = Some l → n ∈ l → in_bucket h pos n;
  hr_map k v : m !! k = Some v ↔ ∃ pos l, d !! pos = Some l ∧ (k, v) ∈ l;
  hr_total : h_total h = Z.of_nat (size m)
}.

Lemma hrep_bucket h d m k : hrep h d m → ∃ l,
  let pos := Z.to_nat (m_posHash k mod h_size h) in
  bucket h k = Ok (pos, l) ∧ d !! pos = Some l ∧ sorted l.
Proof.
  intros [Hd Hs Hl Hso _ _ _]. pose proof (Z.mod_pos_bound (m_posHash k) (h_size h) Hs).
  destruct (lookup_lt_is_Some_2 d (Z.to_nat (m_posHash k mod h_size h))) as [l E]; [lia|].
  exists l. cbn zeta. split_and!; [|done|by rewrite Forall_lookup in Hso; eapply Hso].
  unfold bucket. rewrite (proj2 (Z.eqb_neq _ _)) by lia. by rewrite Hd, E.
Qed.

(** A key is in the map when it is in its bucket. *)
Lemma hrep_lookup h d m k v l :
  hrep h d m → d !! Z.to_nat (m_posHash k mod h_size h) = Some l → m !! k = Some v ↔ (k, v) ∈ l.
Proof.
  intros Hh El. rewrite (hr_map _ _ _ Hh). split; [|by eauto].
  intros (pos & l' & E' & Hin). pose proof (hr_place _ _ _ Hh _ _ _ E' Hin) as Hp. unfold in_bucket in Hp. cbn in Hp.
  subst pos. congruence.
Qed.

Lemma find_key_in_map h d m k l :
  hrep h d m → d !! Z.to_nat (m_posHash k mod h_size h) = Some l → sorted l →
  match find_key_in k l with
  | Some i => ∃ l1 v l2, l = l1 ++ (k, v) :: l2 ∧ i = length l1 ∧ m !! k = Some v
  | None => m !! k = None ∧ ∀ v, (k, v) ∉ l
  end.
Proof.
  intros Hh El Hs. pose proof (find_key_in_spec k l Hs) as Hf. destruct (find_key_in k l) as [i|].
  - destruct Hf as (l1 & v & l2 & -> & ->). exists l1, v, l2. split_and!; [done|done|].
    apply (hrep_lookup h d m k v _ Hh El). set_solver.
  - split; [|done]. destruct (m !! k) as [v|] eqn:E; [|done]. apply (hrep_lookup h d m k v l Hh El) in E. by apply Hf in E.
Qed.

Lemma hget_ok h d m k : hrep h d m → hget k h = Ok (m !! k).
Proof.
  intros Hh. destruct (hrep_bucket h d m k Hh) as (l & E & El & Hs). unfold hget. rewrite E. cbn [obind].
  pose proof (find_key_in_map h d m k l Hh El Hs) as Hf. destruct (find_key_in k l).
  - destruct Hf as (l1 & v & l2 & -> & -> & ->). by rewrite list_lookup_middle.
  - by destruct Hf as [-> _].
Qed.
Lemma hexists_ok h d m k : hrep h d m → hexists k h = Ok (bool_decide (is_Some (m !! k))).
Proof.
  intros Hh. destruct (hrep_bucket h d m k Hh) as (l & E & El & Hs). unfold hexists. rewrite E. cbn [obind].
  pose proof (find_key_in_map h d m k l Hh El Hs) as Hf. destruct (find_key_in k l).
  - destruct Hf as (l1 & v & l2 & -> & -> & ->). by rewrite !bool_decide_true by done.
  - destruct Hf as [-> _]. by rewrite !bool_decide_false by (by intros []).
Qed.

(** Replacing one bucket by a sorted one with the right keys. *)
Lemma hrep_update h d m k l l' m' total :
  hrep h d m → d !! Z.to_nat (m_posHash k mod h_size h) = Some l → sorted l' →
  (∀ n, n ∈ l' → n ∈ l ∨ n.1 = k) →
  (∀ k' v, k' ≠ k → (k', v) ∈ l' ↔ (k', v) ∈ l) →
  (∀ k', k' ≠ k → m' !! k' = m !! k') → (∀ v, m' !! k = Some v ↔ (k, v) ∈ l') →
  total = Z.of_nat (size m') →
  let pos := Z.to_nat (m_posHash k mod h_size h) in
  hrep (with_total total (with_bucket pos l' h)) (<[pos := l']> d) m'.
Proof.
  intros Hh El Hs Hin Hne Hm Hk -> pos. pose proof (lookup_lt_Some _ _ _ El) as Hlt. pose proof Hh as [H1 H2 H3 H4 H5 H6 H7].
  split; cbn; [by rewrite H1|done|by rewrite length_insert|by apply Forall_insert| | |done].
  - intros p l0 n [(<- & <- & _)|(? & E)]%list_lookup_insert_Some Hn; [|by eapply H5].
    destruct (Hin _ Hn) as [Hl|Hl]; [by eapply H5|]. unfold in_bucket. cbn. by rewrite Hl.
  - intros k0 v0. destruct (decide (k0 = k)) as [->|Hk0].
    + rewrite Hk. split.
      * intros Hv. exists pos, l'. split; [by apply list_lookup_insert_eq|done].
      * intros (p & l0 & [(<- & <- & _)|(Hp & E)]%list_lookup_insert_Some & Hv); [done|].
        pose proof (H5 _ _ _ E Hv) as Hb. by destruct Hp.
    + rewrite Hm, H6 by done. split.
      * intros (p & l0 & E & Hv). destruct (decide (p = pos)) as [->|Hp].
        -- exists pos, l'. split; [by apply list_lookup_insert_eq|]. apply Hne; [done|].
           unfold pos in E. rewrite El in E. by injection E as <-.
        -- exists p, l0. split; [by rewrite list_lookup_insert_ne|done].
      * intros (p & l0 & [(<- & <- & _)|(Hp & E)]%list_lookup_insert_Some & Hv); [|by eauto].
        exists pos, l. split; [done|]. by apply Hne.
Qed.

Lemma sorted_unique l k v v' : sorted l → (k, v) ∈ l → (k, v') ∈ l → v = v'.
Proof.
  intros Hs H1 H2. pose proof (sorted_nodup l Hs) as Hnd.
  apply list_elem_of_lookup in H1 as [i Hi], H2 as [j Hj].
  assert (i = j) as -> by (eapply (NoDup_lookup _ i j k Hnd); rewrite list_lookup_fmap, ?Hi, ?Hj; done). congruence.
Qed.

(** [std::sort] of nodes with distinct keys. *)
#[local] Instance hnode_le_total : Total hnode_le.
Proof.
  intros a b. unfold hnode_le. destruct (key_ltb (b.1) (a.1)) eqn:E1; [|by left]. destruct (key_ltb (a.1) (b.1)) eqn:E2; [|by right].
  pose proof (key_trans _ _ _ E1 E2) as Hc. by rewrite key_irrefl in Hc.
Qed.
#[local] Instance hnode_le_trans : Transitive hnode_le.
Proof.
  intros a b c. unfold hnode_le. intros H1 H2. apply not_true_is_false. intros H3.
  destruct (key_ltb (b.1) (c.1)) eqn:E.
  - pose proof (key_trans _ _ _ E H3). congruence.
  - assert (b.1 = c.1) as Eb by (by apply key_total). rewrite Eb in *. congruence.
Qed.
Lemma std_sort_sorted l : NoDup (l.*1) → sorted (std_sort l) ∧ std_sort l ≡ₚ l.
Proof.
  intros Hnd. pose proof (merge_sort_Permutation hnode_le l) as Hp. split; [|done].
  pose proof (StronglySorted_merge_sort hnode_le l) as Hs. fold (std_sort l) in *.
  assert (NoDup ((std_sort l).*1)) as Hnd' by (by rewrite Hp). clear Hp Hnd.
  induction Hs as [|x l' Hs IH Hf]; [constructor|]. cbn in Hnd'. apply NoDup_cons in Hnd' as [Hx Hnd'].
  constructor; [by apply IH|]. rewrite Forall_forall in *. intros y Hy. specialize (Hf y Hy). unfold hnode_le in Hf.
  destruct (key_ltb (x.1) (y.1)) eqn:E; [done|]. exfalso. apply Hx. rewrite (key_total _ _ E Hf).
  apply list_elem_of_fmap. by exists y.
Qed.

(** ** Rehashing *)
Definition place (size : Z) (n : node) : nat := Z.to_nat (m_posHash (n.1) mod size).

Lemma distribute_spec size ns : ∀ d,
  0 < size → length d = Z.to_nat size →
  ∃ d', distribute size ns d = Ok d' ∧ length d' = length d ∧
    ∀ i l, d' !! i = Some l ↔ ∃ l0, d !! i = Some l0 ∧ l = l0 ++ filter (λ n, place size n = i) ns.
Proof.
  induction ns as [|n ns IH]; intros d Hs Hl; cbn [distribute].
  { exists d. split_and!; [done|done|]. intros i l. split; [intros; exists l; by rewrite app_nil_r|].
    intros (l0 & ? & ->). by rewrite app_nil_r. }
  pose proof (Z.mod_pos_bound (m_posHash (n.1)) size Hs). unfold push_back. fold (place size n).
  destruct (lookup_lt_is_Some_2 d (place size n)) as [l0 E0]; [unfold place; lia|]. rewrite E0. cbn [of_option obind].
  destruct (IH (<[place size n := l0 ++ [n]]> d)) as (d' & -> & Hl' & Hd'); [done|by rewrite length_insert|].
  exists d'. rewrite length_insert in Hl'. split_and!; [done|done|]. intros i l. rewrite Hd'.
  destruct (decide (place size n = i)) as [<-|Hne].
  - rewrite filter_cons_True by done. rewrite list_lookup_insert_eq by (by eapply lookup_lt_Some). split.
    + intros (l1 & [= <-] & ->). exists l0. by rewrite <- app_assoc.
    + intros (l1 & E1 & ->). rewrite E0 in E1. injection E1 as <-. eexists. split; [done|]. by rewrite <- app_assoc.
  - rewrite filter_cons_False by done. by rewrite list_lookup_insert_ne.
Qed.

Lemma concat_keys_nodup (d : list (list node)) (g : K → nat) : ∀ off,
  Forall (λ l, NoDup (l.*1)) d → (∀ pos l n, d !! pos = Some l → n ∈ l → g (n.1) = (off + pos)%nat) →
  NoDup ((concat d).*1).
Proof.
  induction d as [|l d IH]; intros off Hnd Hg; [constructor|]. cbn [concat]. rewrite fmap_app.
  apply Forall_cons in Hnd as [Hl Hnd]. apply NoDup_app. split_and!; [done| |].
  - intros k ([k1 v1] & -> & H1)%list_elem_of_fmap ([k2 v2] & E & H2)%list_elem_of_fmap. cbn in E. subst k2.
    apply list_elem_of_In, in_concat in H2 as (l' & Hl' & H2). apply list_elem_of_In in Hl', H2.
    apply list_elem_of_lookup in Hl' as [p Hp].
    pose proof (Hg 0%nat l (k1, v1) eq_refl H1) as G1. pose proof (Hg (S p) l' (k1, v2) Hp H2) as G2. cbn in G1, G2. lia.
  - apply (IH (S off)); [done|]. intros pos l' n E Hn. rewrite (Hg (S pos) l' n E Hn). lia.
Qed.

Lemma elem_of_concat {A} (d : list (list A)) x : x ∈ concat d ↔ ∃ pos l, d !! pos = Some l ∧ x ∈ l.
Proof.
  rewrite list_elem_of_In, in_concat. split.
  - intros (l & Hl & Hx). apply list_elem_of_In, list_elem_of_lookup in Hl as [p Hp]. exists p, l. by rewrite list_elem_of_In.
  - intros (p & l & Hp & Hx). exists l. rewrite <- !list_elem_of_In. split; [by apply list_elem_of_lookup_2 in Hp|done].
Qed.

Lemma hrep_nodup h d m : hrep h d m → NoDup ((concat d).*1).
Proof.
  intros Hh. apply (concat_keys_nodup d (λ k, Z.to_nat (m_posHash k mod h_size h)) 0).
  - eapply Forall_impl; [apply Hh|]. apply sorted_nodup.
  - intros pos l n E Hn. by eapply hr_place.
Qed.

Lemma hrep_concat h d m k v : hrep h d m → (k, v) ∈ concat d ↔ m !! k = Some v.
Proof. intros Hh. by rewrite elem_of_concat, (hr_map _ _ _ Hh). Qed.

Lemma basket_pos n : 0 < n → ∃ s, basket n = Ok s ∧ 0 < s.
Proof.
  intros Hn. unfold basket. rewrite !(proj2 (Z.eqb_neq _ _)) by lia. cbn [orb]. eexists. split; [done|].
  pose proof (Z.log2_nonneg (Z.abs n)). rewrite Z.shiftl_1_l. apply Z.pow_pos_nonneg; lia.
Qed.

Lemma rehashUnlock_ok h d m : hrep h d m → 0 < h_total h < 2 ^ 31 →
  ∃ h' d', rehashUnlock h = Ok h' ∧ hrep h' d' m.
Proof.
  intros Hh Ht. unfold rehashUnlock.
  rewrite i32_small by lia.
  destruct (basket_pos (h_total h)) as (size & -> & Hs); [lia|]. cbn [obind].
  destruct (size =? h_size h); [by exists h, d|]. rewrite (hr_datas _ _ _ Hh).
  destruct (distribute_spec size (concat d) (replicate (Z.to_nat size) [])) as (d' & -> & Hl & Hd');
    [done|by rewrite length_replicate|]. cbn [obind]. rewrite length_replicate in Hl.
  assert (∀ i l, d' !! i = Some l → l = filter (λ n, place size n = i) (concat d)) as Hd.
  { intros i l E. apply Hd' in E as (l0 & E0 & ->). by apply lookup_replicate in E0 as [-> _]. }
  assert (∀ i, NoDup ((filter (λ n, place size n = i) (concat d)).*1)) as Hnd.
  { intros i. pose proof (hrep_nodup h d m Hh) as Hnd. clear -Hnd.
    induction (concat d) as [|n l IH]; [constructor|]. cbn in Hnd. apply NoDup_cons in Hnd as [Hn Hnd].
    rewrite filter_cons. case_decide; [|by apply IH]. cbn. constructor; [|by apply IH].
    intros (y & E & Hy)%list_elem_of_fmap. apply list_elem_of_filter in Hy as [_ Hy]. apply Hn, list_elem_of_fmap. eauto. }
  eexists _, (std_sort <$> d'). split; [done|]. split; cbn.
  - done.
  - done.
  - by rewrite length_fmap.
  - apply Forall_fmap, Forall_lookup. intros i l E. cbn. apply Hd in E as ->. by apply std_sort_sorted.
  - intros pos l n (l0 & -> & E)%list_lookup_fmap_Some Hn. apply Hd in E as ->.
    destruct (std_sort_sorted _ (Hnd pos)) as [_ Hp]. rewrite Hp in Hn. by apply list_elem_of_filter in Hn as [? _].
  - intros k v. rewrite <- (hrep_concat h d m k v Hh). split.
    + intros Hin. pose proof (Z.mod_pos_bound (m_posHash k) size Hs).
      destruct (lookup_lt_is_Some_2 d' (place size (k, v))) as [l E]; [unfold place; cbn; lia|].
      exists (place size (k, v)), (std_sort l). split; [by rewrite list_lookup_fmap, E|].
      apply Hd in E as ->. destruct (std_sort_sorted _ (Hnd (place size (k, v)))) as [_ Hp]. rewrite Hp.
      by apply list_elem_of_filter.
    + intros (pos & l & (l0 & -> & E)%list_lookup_fmap_Some & Hin). apply Hd in E as ->.
      destruct (std_sort_sorted _ (Hnd pos)) as [_ Hp]. rewrite Hp in Hin. by apply list_elem_of_filter in Hin as [_ ?].
  - apply Hh.
Qed.
Lemma rehash_ok h d m : hrep h d m → h_total h < 2 ^ 31 → ∃ h' d', rehash h = Ok h' ∧ hrep h' d' m.
Proof.
  intros Hh Ht. unfold rehash, needRehash. destruct (Z.ltb_spec (h_size h * (16 * 2 ^ 20 + 1)) (h_total h * 2 ^ 20)); [|by exists h, d].
  eapply rehashUnlock_ok; [done|]. pose proof (hr_size _ _ _ Hh). lia.
Qed.

(** ** [set] and [del] *)
(** A node in place of the one with its key. *)
Lemma hrep_replace k v h d m i l1 v0 l2 :
  let pos := Z.to_nat (m_posHash k mod h_size h) in
  hrep h d m → d !! pos = Some (l1 ++ (k, v0) :: l2) → sorted (l1 ++ (k, v0) :: l2) → i = length l1 → m !! k = Some v0 →
  ∃ d', hrep (with_bucket pos (<[i := (k, v)]> (l1 ++ (k, v0) :: l2)) h) d' (<[k := v]> m).
Proof.
  intros pos Hh El Hs -> Hm. replace (<[length l1 := (k, v)]> (l1 ++ (k, v0) :: l2)) with (l1 ++ (k, v) :: l2)
    by (replace (length l1) with (length l1 + 0)%nat by lia; by rewrite insert_app_r).
  replace (with_bucket pos _ h) with (with_total (h_total h) (with_bucket pos (l1 ++ (k, v) :: l2) h)) by (by destruct h).
  eexists. apply (hrep_update h d m k _ _ _ _ Hh El).
  - apply StronglySorted_app_iff in Hs as (S1 & S2 & S3). apply StronglySorted_inv in S2 as [S2 Sf].
    apply StronglySorted_app_iff. split_and!; [done|by constructor|].
    intros x y Hx [->|Hy]%elem_of_cons; [by apply (S3 x (k, v0)); set_solver|apply S3; set_solver].
  - intros n. rewrite !elem_of_app, !elem_of_cons. naive_solver.
  - intros k' v' Hk. rewrite !elem_of_app, !elem_of_cons. naive_solver.
  - intros k' Hk. by rewrite lookup_insert_ne.
  - intros v'. rewrite lookup_insert_eq. split; [intros [= ->]; set_solver|].
    rewrite elem_of_app, elem_of_cons. intros Hin.
    assert (NoDup ((l1 ++ (k, v0) :: l2).*1)) as Hnd by (by apply sorted_nodup).
    rewrite fmap_app, fmap_cons in Hnd. apply NoDup_app in Hnd as (_ & N1 & N2). apply NoDup_cons in N2 as [N2 _].
    destruct Hin as [Hin|[[= ->]|Hin]]; [|done|].
    + exfalso. apply (N1 k); [apply list_elem_of_fmap; by exists (k, v')|set_solver].
    + exfalso. apply N2, list_elem_of_fmap. by exists (k, v').
  - rewrite map_size_insert, Hm. by rewrite (hr_total _ _ _ Hh).
Qed.
(** A node with a new key. *)
Lemma hrep_add k v h d m l :
  let pos := Z.to_nat (m_posHash k mod h_size h) in
  hrep h d m → h_total h < 2 ^ 31 → d !! pos = Some l → sorted l → m !! k = None → (∀ v, (k, v) ∉ l) →
  ∃ d', hrep (with_total (u64 (h_total h + 1)) (with_bucket pos (SortLast hnode_ltb (l ++ [(k, v)])) h)) d' (<[k := v]> m).
Proof.
  intros pos Hh Ht El Hs Hm Hn. pose proof (hr_total _ _ _ Hh) as Htot. destruct (SortLast_spec l (k, v) Hs Hn) as (l' & -> & Hs' & Hp).
  eexists. apply (hrep_update h d m k _ _ _ _ Hh El); [done| | | | |].
  - intros n. rewrite Hp, elem_of_cons. intros [->|?]; auto.
  - intros k' v' Hk. rewrite Hp, elem_of_cons. naive_solver.
  - intros k' Hk. by rewrite lookup_insert_ne.
  - intros v'. rewrite Hp, elem_of_cons, lookup_insert_eq. split; [intros [= ->]; by left|].
    intros [[= ->]|Hin]; [done|by apply Hn in Hin].
  - rewrite map_size_insert, Hm, Htot. rewrite wrap_small; lia.
Qed.
Lemma hset_ok k v h d m : hrep h d m → h_total h < 2 ^ 31 →
  ∃ h' d', hset k v h = Ok (bool_decide (m !! k = None), h') ∧ hrep h' d' (<[k := v]> m).
Proof.
  intros Hh Ht. destruct (rehash_ok h d m Hh Ht) as (h1 & d1 & E1 & Hh1). unfold hset. rewrite E1. cbn [obind].
  destruct (hrep_bucket h1 d1 m k Hh1) as (l & E & El & Hs). rewrite E. cbn [obind].
  pose proof (find_key_in_map h1 d1 m k l Hh1 El Hs) as Hf. destruct (find_key_in k l) as [i|].
  - destruct Hf as (l1 & v0 & l2 & -> & Hi & Hm). rewrite bool_decide_false by (by rewrite Hm).
    destruct (hrep_replace k v h1 d1 m i l1 v0 l2 Hh1 El Hs Hi Hm) as [d' Hd']. by eexists _, d'.
  - destruct Hf as [Hm Hn]. rewrite bool_decide_true by done. pose proof (hr_total _ _ _ Hh1). pose proof (hr_total _ _ _ Hh).
    destruct (hrep_add k v h1 d1 m l Hh1 ltac:(lia) El Hs Hm Hn) as [d' Hd']. by eexists _, d'.
Qed.

Lemma swap_back_take l1 x l2 :
  let l := swap_back (length l1) (l1 ++ x :: l2) in take (length l - 1) l ≡ₚ l1 ++ l2.
Proof.
  unfold swap_back. rewrite list_lookup_middle by done. destruct l2 as [|y l2 _] using rev_ind.
  - rewrite last_snoc, length_app. cbn [length]. destruct (Nat.ltb_spec 1 (length l1 + 1)).
    + cbn zeta. rewrite !length_insert, length_app. cbn [length].
      replace (length l1 + 1 - 1)%nat with (length l1) by lia.
      rewrite !take_insert_ge by lia. by rewrite take_app_length, app_nil_r.
    + destruct l1; [|cbn in *; lia]. done.
  - assert (∀ z, l1 ++ z :: l2 ++ [y] = (l1 ++ z :: l2) ++ [y]) as E by (intros; by rewrite <- app_assoc).
    rewrite E, last_snoc, !length_app. cbn [length]. rewrite (proj2 (Nat.ltb_lt _ _)) by lia. cbn zeta.
    rewrite !length_insert, !length_app. cbn [length].
    replace (length l1 + S (length l2) + 1 - 1)%nat with (length l1 + S (length l2))%nat by lia.
    rewrite take_insert_ge by lia. rewrite <- E. replace (length l1) with (length l1 + 0)%nat at 2 by lia.
    rewrite insert_app_r. cbn [insert list_insert]. rewrite E.
    rewrite take_app_le by (rewrite length_app; cbn [length]; lia). rewrite take_ge by (rewrite length_app; cbn [length]; lia).
    solve_Permutation.
Qed.
Lemma drop_node_spec l1 x l2 :
  sorted (l1 ++ x :: l2) → ∃ l', drop_node (length l1) (l1 ++ x :: l2) = l' ∧ sorted l' ∧ l' ≡ₚ l1 ++ l2.
Proof using H0 K V m_posHash.
  intros Hs. unfold drop_node. pose proof (sorted_nodup _ Hs) as Hnd. rewrite fmap_app, fmap_cons in Hnd.
  pose proof (swap_back_take l1 x l2) as Hp. cbn zeta in *. set (l0 := take _ _) in *.
  assert (NoDup (l0.*1)) as Hnd0.
  { rewrite Hp, fmap_app. apply NoDup_app in Hnd as (N1 & N2 & N3). apply NoDup_cons in N3 as [_ N3].
    apply NoDup_app. split_and!; [done| |done]. intros k Hk. specialize (N2 k Hk). set_solver. }
  destruct (std_sort_sorted l0 Hnd0) as [S1 S2]. exists (std_sort l0). split_and!; [done|done|]. by rewrite S2.
Qed.

(** The node of a key is dropped. *)
Lemma hrep_drop k h d m i l1 v0 l2 :
  let pos := Z.to_nat (m_posHash k mod h_size h) in
  hrep h d m → h_total h < 2 ^ 31 → d !! pos = Some (l1 ++ (k, v0) :: l2) → sorted (l1 ++ (k, v0) :: l2) → i = length l1 → m !! k = Some v0 →
  ∃ d', hrep (with_total (u64 (h_total h - 1)) (with_bucket pos (drop_node i (l1 ++ (k, v0) :: l2)) h)) d' (delete k m).
Proof.
  intros pos Hh Ht El Hs -> Hm. destruct (drop_node_spec l1 (k, v0) l2 Hs) as (l' & -> & Hs' & Hp).
  pose proof (sorted_nodup _ Hs) as Hnd. rewrite fmap_app, fmap_cons in Hnd. apply NoDup_app in Hnd as (_ & N1 & N2).
  apply NoDup_cons in N2 as [N2 _]. eexists. apply (hrep_update h d m k _ _ _ _ Hh El); [done| | | | |].
  - intros n. rewrite Hp, !elem_of_app, elem_of_cons. naive_solver.
  - intros k' v' Hk. rewrite Hp, !elem_of_app, elem_of_cons. naive_solver.
  - intros k' Hk. by rewrite lookup_delete_ne.
  - intros v'. rewrite lookup_delete_eq, Hp, elem_of_app. split; [done|]. intros [Hin|Hin]; exfalso.
    + apply (N1 k); [apply list_elem_of_fmap; by exists (k, v')|set_solver].
    + apply N2, list_elem_of_fmap. by exists (k, v').
  - pose proof (hr_total _ _ _ Hh) as Htot. rewrite Htot, map_size_delete, Hm.
    assert (size m ≠ 0)%nat by (intros E0; apply map_size_empty_inv in E0; subst; by rewrite lookup_empty in Hm).
    rewrite wrap_small; lia.
Qed.
Lemma hdel_ok k h d m : hrep h d m → h_total h < 2 ^ 31 →
  ∃ h' d', hdel k h = Ok (bool_decide (is_Some (m !! k)), h') ∧ hrep h' d' (delete k m).
Proof.
  intros Hh Ht. destruct (hrep_bucket h d m k Hh) as (l & E & El & Hs). unfold hdel. rewrite E. cbn [obind].
  pose proof (find_key_in_map h d m k l Hh El Hs) as Hf. destruct (find_key_in k l) as [i|].
  - destruct Hf as (l1 & v0 & l2 & -> & Hi & Hm). rewrite bool_decide_true by done.
    destruct (hrep_drop k h d m i l1 v0 l2 Hh Ht El Hs Hi Hm) as [d' Hd']. by eexists _, d'.
  - destruct Hf as [Hm Hn]. rewrite bool_decide_false by (rewrite Hm; by intros []).
    exists h, d. split; [done|]. by rewrite delete_id.
Qed.

Lemma new_hrep size : 0 < size < 2 ^ 31 → ∃ h d, new_HashMap size = Ok h ∧ hrep h d ∅.
Proof.
  intros Hs. unfold new_HashMap. rewrite i32_small by lia. destruct (basket_pos size) as (n & -> & Hn); [lia|].
  eexists _, (replicate (Z.to_nat n) []). split; [done|]. split; cbn; try done.
  - by rewrite length_replicate.
  - apply Forall_replicate. constructor.
  - intros pos l nd [-> _]%lookup_replicate. by intros ?%elem_of_nil.
  - intros k v. rewrite lookup_empty. split; [done|]. by intros (pos & l & [-> _]%lookup_replicate & ?%elem_of_nil).
Qed.

(** [rforeach] visits every entry once. *)
Lemma call_nodes_push ns : ∀ acc : list node, call_nodes (λ k v tmp, (true, tmp ++ [(k, v)])) ns acc = acc ++ ns.
Proof. induction ns as [|[k v] ns IH]; intros acc; cbn; [by rewrite app_nil_r|]. by rewrite IH, <- app_assoc. Qed.
Lemma rforeach_ok {St} (cb : K → V → St → bool * St) h d m s :
  hrep h d m → rforeach cb h s = Ok (call_nodes cb (concat d) s).
Proof.
  intros Hh. unfold rforeach. pose proof (hr_size _ _ _ Hh). rewrite (hr_datas _ _ _ Hh), (hr_len _ _ _ Hh).
  rewrite (proj2 (Z.ltb_ge _ _)) by lia. by rewrite <- (hr_len _ _ _ Hh), firstn_all.
Qed.
Lemma concat_map h d m : hrep h d m → concat d ≡ₚ map_to_list m.
Proof.
  intros Hh. apply NoDup_Permutation; [eapply NoDup_fmap_1, hrep_nodup, Hh|apply NoDup_map_to_list|].
  intros [k v]. by rewrite (hrep_concat _ _ _ _ _ Hh), elem_of_map_to_list.
Qed.

Fixpoint insert_all (ns : list node) (m : gmap K V) : gmap K V :=
  match ns with [] => m | (k, v) :: ns => insert_all ns (<[k := v]> m) end.
Lemma insert_all_lookup ns : ∀ m k, NoDup (ns.*1) →
  insert_all ns m !! k = match (list_to_map ns : gmap K V) !! k with Some v => Some v | None => m !! k end.
Proof.
  induction ns as [|[k0 v0] ns IH]; intros m k Hnd; cbn; [by rewrite lookup_empty|].
  cbn in Hnd. apply NoDup_cons in Hnd as [Hk Hnd]. rewrite IH by done. destruct (decide (k = k0)) as [->|].
  - rewrite (not_elem_of_list_to_map_1 ns k0 Hk), !lookup_insert_eq. done.
  - by rewrite !lookup_insert_ne by done.
Qed.
Lemma set_all_ok ns : ∀ h d m, hrep h d m → Z.of_nat (size m + length ns) < 2 ^ 31 →
  ∃ h' d', set_all ns h = Ok h' ∧ hrep h' d' (insert_all ns m).
Proof.
  induction ns as [|[k v] ns IH]; intros h d m Hh Hb; cbn [set_all insert_all]; [by exists h, d|].
  cbn [length] in Hb. destruct (hset_ok k v h d m Hh) as (h1 & d1 & -> & Hh1); [rewrite (hr_total _ _ _ Hh); lia|].
  cbn [obind snd]. apply (IH h1 d1); [done|]. rewrite map_size_insert. destruct (m !! k); unfold id; lia.
Qed.

(** ** Sequences of calls *)
Inductive hcall := HSet (k : K) (v : V) | HGet (k : K) | HExists (k : K) | HDel (k : K).
Inductive hresult := HBool (b : bool) | HValue (v : option V).

Definition run_hcall (c : hcall) (h : HashMap) : outcome (hresult * HashMap) :=
  match c with
  | HSet k v => obind (hset k v h) (λ r, Ok (HBool (r.1), r.2))
  | HGet k => obind (hget k h) (λ r, Ok (HValue r, h))
  | HExists k => obind (hexists k h) (λ r, Ok (HBool r, h))
  | HDel k => obind (hdel k h) (λ r, Ok (HBool (r.1), r.2))
  end.
Fixpoint run_hcalls (l : list hcall) (h : HashMap) : outcome (list hresult * HashMap) :=
  match l with
  | [] => Ok ([], h)
  | c :: l => obind (run_hcall c h) (λ r, obind (run_hcalls l (r.2)) (λ rs, Ok (r.1 :: rs.1, rs.2)))
  end.
(** The same calls on a finite map: [set] says whether the key is new, [del]
    whether it was there. *)
Definition spec_hcall (c : hcall) (m : gmap K V) : hresult * gmap K V :=
  match c with
  | HSet k v => (HBool (bool_decide (m !! k = None)), <[k := v]> m)
  | HGet k => (HValue (m !! k), m)
  | HExists k => (HBool (bool_decide (is_Some (m !! k))), m)
  | HDel k => (HBool (bool_decide (is_Some (m !! k))), delete k m)
  end.
Fixpoint spec_hcalls (l : list hcall) (m : gmap K V) : list hresult * gmap K V :=
  match l with
  | [] => ([], m)
  | c :: l => let '(r, m) := spec_hcall c m in let '(rs, m) := spec_hcalls l m in (r :: rs, m)
  end.

Lemma run_hcall_ok c h d m : hrep h d m → h_total h < 2 ^ 31 →
  ∃ h' d', run_hcall c h = Ok ((spec_hcall c m).1, h') ∧ hrep h' d' (spec_hcall c m).2 ∧
    h_total h' ≤ h_total h + 1.
Proof.
  intros Hh Ht. pose proof (hr_total _ _ _ Hh) as Htot. destruct c as [k v|k|k|k]; cbn [run_hcall spec_hcall fst snd].
  - destruct (hset_ok k v h d m Hh Ht) as (h' & d' & -> & Hh'). exists h', d'. split_and!; [done|done|].
    rewrite (hr_total _ _ _ Hh'), map_size_insert, Htot. destruct (m !! k); unfold id; lia.
  - rewrite (hget_ok h d m k Hh). exists h, d. split_and!; [done|done|lia].
  - rewrite (hexists_ok h d m k Hh). exists h, d. split_and!; [done|done|lia].
  - destruct (hdel_ok k h d m Hh Ht) as (h' & d' & -> & Hh'). exists h', d'. split_and!; [done|done|].
    rewrite (hr_total _ _ _ Hh'), map_size_delete, Htot. destruct (m !! k); unfold id; lia.
Qed.
Lemma run_hcalls_ok l : ∀ h d m, hrep h d m → h_total h + Z.of_nat (length l) < 2 ^ 31 →
  ∃ h' d', run_hcalls l h = Ok ((spec_hcalls l m).1, h') ∧ hrep h' d' (spec_hcalls l m).2.
Proof.
  induction l as [|c l IH]; intros h d m Hh Hb; cbn [run_hcalls spec_hcalls length] in *; [by exists h, d|].
  destruct (run_hcall_ok c h d m Hh) as (h1 & d1 & -> & Hh1 & Ht1); [lia|]. cbn [obind fst snd].
  destruct (spec_hcall c m) as [r m1]. cbn [fst snd] in *.
  destruct (IH h1 d1 m1 Hh1) as (h' & d' & -> & Hh'); [lia|]. exists h', d'. by destruct (spec_hcalls l m1).
Qed.

(** C39: Whatever the hash function, a [HashMap] made for at least one node
    answers every sequence of [set], [get], [exists] and [del] calls as a finite
    map does, across rehashing; [getTotal] is the number of keys and [rforeach]
    visits every entry exactly once. *)
Theorem hash_map_refines (l : list hcall) (n : Z) :
  0 < n < 2 ^ 31 → Z.of_nat (length l) < 2 ^ 31 →
  ∃ h h' ns, new_HashMap n = Ok h ∧ run_hcalls l h = Ok ((spec_hcalls l ∅).1, h') ∧
    h_total h' = Z.of_nat (size (spec_hcalls l ∅).2) ∧
    rforeach (λ k v tmp, (true, tmp ++ [(k, v)])) h' [] = Ok ns ∧
    ns ≡ₚ map_to_list (spec_hcalls l ∅).2.
Proof.
  intros Hn Hl. destruct (new_hrep n Hn) as (h & d & E & Hh).
  destruct (run_hcalls_ok l h d ∅ Hh) as (h' & d' & E' & Hh').
  { rewrite (hr_total _ _ _ Hh), map_size_empty. lia. }
  exists h, h', (concat d'). split_and!; [done|done|apply Hh'| |by eapply concat_map].
  rewrite (rforeach_ok _ _ _ _ _ Hh'). by rewrite call_nodes_push.
Qed.

(** [merge] sets every entry of the other map in this one: its keys take the
    other map's values, the other keys keep theirs. *)
Theorem hash_map_merge (h oth : HashMap) (d d' : list (list node)) (m m' : gmap K V) :
  hrep h d m → hrep oth d' m' → Z.of_nat (size m + size m') < 2 ^ 31 →
  ∃ r dr, hmerge oth h = Ok r ∧ hrep r dr (m' ∪ m).
Proof.
  intros Hh Ho Hb. unfold hmerge. rewrite (rforeach_ok _ _ _ _ _ Ho), call_nodes_push. cbn [obind app].
  pose proof (concat_map oth d' m' Ho) as Hp. pose proof (hrep_nodup oth d' m' Ho) as Hnd.
  destruct (set_all_ok (concat d') h d m Hh) as (r & dr & -> & Hr).
  { rewrite Hp, length_map_to_list. lia. }
  exists r, dr. split; [done|]. replace (m' ∪ m) with (insert_all (concat d') m); [done|].
  apply map_eq. intros k. rewrite insert_all_lookup by done.
  assert (list_to_map (concat d') = m') as ->.
  { rewrite (list_to_map_proper (M := gmap K) _ _ Hnd Hp). apply list_to_map_to_list. }
  rewrite lookup_union. destruct (m' !! k), (m !! k); done.
Qed.

(** After [clear] there are no buckets, and every call that needs one divides by
    zero. *)
Lemma cleared_map_crashes (k : K) (v : V) (h : HashMap) :
  hget k (hclear h) = Undef DivByZero ∧ hset k v (hclear h) = Undef DivByZero ∧ hdel k (hclear h) = Undef DivByZero.
Proof. done. Qed.
End hash_map.

(** The default argument of the constructor has no defined bucket count. *)
Example default_HashMap : new_HashMap (K := Z) (V := Z) 0 = Undef Overflow.
Proof. done. Qed.

Definition sample_hcalls : list (hcall (K := Z) (V := Z)) :=
  [HSet 5 50; HSet 3 30; HSet 1 10; HSet 3 31; HGet 3; HDel 5; HGet 5; HExists 1; HDel 9].
Lemma hash_map_refines_witness :
  ∃ h h' ns, new_HashMap 1 = Ok h ∧ run_hcalls (λ k : Z, k) sample_hcalls h = Ok ((spec_hcalls sample_hcalls ∅).1, h') ∧
    h_total h' = Z.of_nat (size (spec_hcalls sample_hcalls ∅).2) ∧
    rforeach (λ k v tmp, (true, tmp ++ [(k, v)])) h' [] = Ok ns ∧
    ns ≡ₚ map_to_list (spec_hcalls sample_hcalls ∅).2.
Proof. apply (hash_map_refines (λ k : Z, k) sample_hcalls 1); [lia|cbn; lia]. Defined.

Definition sample_map (k v : Z) : HashMap (K := Z) (V := Z) := mkHashMap 2 1 (Some (<[Z.to_nat (k mod 2) := [(k, v)]]> [[]; []])).
Lemma sample_map_rep k v : 0 ≤ k →
  hrep (λ k : Z, k) (sample_map k v) (<[Z.to_nat (k mod 2) := [(k, v)]]> [[]; []]) {[k := v]}.
Proof.
  intros Hk. pose proof (Z.mod_pos_bound k 2 ltac:(lia)).
  assert (([[]; []] : list (list (Z * Z))) !! Z.to_nat (k mod 2) = Some []) as E0
    by (assert (k mod 2 = 0 ∨ k mod 2 = 1) as [-> | ->] by lia; done).
  split; cbn; try done.
  - by rewrite length_insert.
  - apply Forall_insert; [repeat constructor|]. by repeat constructor.
  - intros pos l n [(<- & <- & _)|(_ & E)]%list_lookup_insert_Some Hn.
    + apply list_elem_of_singleton in Hn as ->. done.
    + destruct pos as [|[|pos]]; cbn in E; [injection E as <-|injection E as <-|done]; by apply elem_of_nil in Hn.
  - intros k0 v0. rewrite lookup_singleton_Some. split.
    + intros [<- <-]. exists (Z.to_nat (k mod 2)), [(k, v)]. split; [|set_solver].
      apply list_lookup_insert_eq. by eapply lookup_lt_Some.
    + intros (pos & l & [(<- & <- & _)|(_ & E)]%list_lookup_insert_Some & Hn).
      * apply list_elem_of_singleton in Hn. by injection Hn as -> ->.
      * destruct pos as [|[|pos]]; cbn in E; [injection E as <-|injection E as <-|done]; by apply elem_of_nil in Hn.
  - by rewrite map_size_singleton.
Qed.
Lemma hash_map_merge_witness :
  ∃ r dr, hmerge (λ k : Z, k) (sample_map 3 30) (sample_map 4 40) = Ok r ∧
    hrep (λ k : Z, k) r dr ({[3 := 30]} ∪ {[4 := 40]}).
Proof.
  apply (hash_map_merge (λ k : Z, k) (sample_map 4 40) (sample_map 3 30) _ _ {[4 := 40]} {[3 := 30]}
    (sample_map_rep 4 40 ltac:(lia)) (sample_map_rep 3 30 ltac:(lia))). rewrite !map_size_singleton. cbn. lia.
Defined.
