(* ===== verification/DsArray.v ===== *)
(** * Arrays (Helens/ds/array.h)

    A block of elements that grows by one; [exists], [insert] and [erase] keep it as a
    sorted set when the elements are ordered. *)
From S2P Require Import Prelude OrderedSet.

(** Moving [n] elements inside a block. *)
Definition memmove {T} (dst src n : Z) (l : list T) : outcome (list T) :=
  if (src <? 0) || (dst <? 0) || (n <? 0) || (Z.of_nat (length l) <? src + n) || (Z.of_nat (length l) <? dst + n) then Undef OutOfBounds
  else Ok (splice (Z.to_nat dst) (take (Z.to_nat n) (drop (Z.to_nat src) l)) l).

Section array.
(** The comparison, the value of zeroed bytes and what a new cell holds. *)
Context {T : Type} (ltb : T → T → bool) (zero junk : T).

(** [m_data]: the cells of the block, none for a null pointer. *)
Record Array := mkArray { m_size : Z; m_data : list T }.
Definition new_Array (size : Z) : Array := mkArray size (replicate (Z.to_nat size) zero).
Definition at_ (idx : Z) (a : Array) : outcome T :=
  if idx <? 0 then Undef OutOfBounds else of_option OutOfBounds (m_data a !! Z.to_nat idx).
Definition set (idx : Z) (v : T) (a : Array) : outcome Array :=
  obind (at_ idx a) (λ _, Ok (mkArray (m_size a) (<[Z.to_nat idx := v]> (m_data a)))).

Fixpoint isSorted_loop (fuel : nat) (i : Z) (a : Array) : outcome bool :=
  match fuel with
  | O => Fuel
  | S fuel =>
    if i <? m_size a then
      if i =? u64 (m_size a - 1) then Ok true else
      obind (at_ (i + 1) a) (λ y, obind (at_ i a) (λ x,
      if negb (ltb y x) then isSorted_loop fuel (i + 1) a else Ok false))
    else Ok true
  end.
Definition isSorted (a : Array) : outcome bool := isSorted_loop (S (Z.to_nat (m_size a))) 0 a.

(** [exists(v)] *)
Fixpoint exists_loop (fuel : nat) (v : T) (begin end_ : Z) (a : Array) : outcome Z :=
  match fuel with
  | O => Fuel
  | S fuel =>
    if begin <=? end_ then
      let m := Z.quot (begin + end_) 2 in
      obind (at_ m a) (λ x,
      if ltb v x then exists_loop fuel v begin (m - 1) a
      else if ltb x v then exists_loop fuel v (m + 1) end_ a
      else Ok m)
    else Ok (- begin - 1)
  end.
Definition exists_ (v : T) (a : Array) : outcome Z := exists_loop (S (Z.to_nat (m_size a))) v 0 (i64 (m_size a - 1)) a.
(** [exists(v, cmp)]: [end == m - 1] compares, and the loop goes on with the same end. *)
Fixpoint exists_cmp_loop (fuel : nat) (v : T) (begin end_ : Z) (a : Array) : outcome Z :=
  match fuel with
  | O => Fuel
  | S fuel =>
    if begin <=? end_ then
      let m := Z.quot (begin + end_) 2 in
      obind (at_ m a) (λ x,
      if ltb v x then exists_cmp_loop fuel v begin end_ a
      else if ltb x v then exists_cmp_loop fuel v (m + 1) end_ a
      else Ok m)
    else Ok (- begin - 1)
  end.
Definition exists_cmp (fuel : nat) (v : T) (a : Array) : outcome Z := exists_cmp_loop fuel v 0 (i64 (m_size a - 1)) a.

(** [insert(idx, v)]: [idx] as [exists] gives it. *)
Definition insert_at (idx : Z) (v : T) (a : Array) : outcome (bool * Array) :=
  let data := m_data a ++ [junk] in
  let idx := - idx - 1 in
  obind (memmove (idx + 1) idx (u64 (m_size a - idx)) data) (λ data,
  obind (set idx v (mkArray (u64 (m_size a + 1)) data)) (λ a, Ok (true, a))).
Definition insert_found (idx : Z) (v : T) (a : Array) : outcome (bool * Array) :=
  if 0 <=? idx then obind (set idx v a) (λ a, Ok (false, a)) else insert_at idx v a.
Definition insert (v : T) (a : Array) : outcome (bool * Array) := obind (exists_ v a) (λ idx, insert_found idx v a).
Definition insert_cmp (fuel : nat) (v : T) (a : Array) : outcome (bool * Array) :=
  obind (exists_cmp fuel v a) (λ idx, insert_found idx v a).
Definition erase (idx : Z) (a : Array) : outcome (bool * Array) :=
  let size := u64 (m_size a - 1) in
  obind (memmove idx (idx + 1) (u64 (size - idx)) (m_data a)) (λ data, Ok (true, mkArray size (take (Z.to_nat size) data))).
Definition append (v : T) (a : Array) : outcome Array :=
  let size := u64 (m_size a + 1) in set (size - 1) v (mkArray size (m_data a ++ [junk])).

(** [std::sort]; elements that are equivalent may come in any order, here they keep theirs. *)
Definition not_after (x y : T) : Prop := ltb y x = false.
#[export] Instance not_after_dec : RelDecision not_after.
Proof. intros x y. unfold not_after. apply _. Defined.
Definition sort (a : Array) : Array := mkArray (m_size a) (merge_sort not_after (m_data a)).

(** The file format: the size in eight bytes, then the elements, each the [sizeof_T]
    bytes that it is in memory.  [max_alloc]: the longest block that [realloc] gives;
    a longer one is a null pointer. *)
Context (sizeof_T : nat) (bytes_of : T → list Z) (of_bytes : list Z → T) (max_alloc : Z).
Definition writeTo (a : Array) : list Z := le_bytes 8 (m_size a) ++ (m_data a ≫= bytes_of).
Fixpoint read_elements (n : nat) (bs : list Z) : list T :=
  match n with O => [] | S n => of_bytes (take sizeof_T bs) :: read_elements n (drop sizeof_T bs) end.
(** [readFrom]: whether all is read, the array (bytes that are not read are as they were,
    or junk), and what is left of the stream. *)
Definition readFrom (is_ : list Z) (a : Array) : outcome (bool * Array * list Z) :=
  if (length is_ <? 8)%nat then Ok (false, a, []) else
  let size := le_val (take 8 is_) in
  let is_ := drop 8 is_ in
  let bytes := u64 (size * Z.of_nat sizeof_T) in
  let n := Z.to_nat (bytes / Z.of_nat sizeof_T) in
  if max_alloc <? bytes then (if bool_decide (is_ = []) then Ok (false, mkArray size [], []) else Undef NullDeref)
  else if Z.of_nat (length is_) <? bytes then
    let old := take n (m_data a ++ replicate n junk) in
    Ok (false, mkArray size (read_elements n (is_ ++ drop (length is_) (old ≫= bytes_of))), [])
  else Ok (true, mkArray size (read_elements n is_), drop (Z.to_nat bytes) is_).
End array.
Arguments Array : clear implicits.

(** ** The order

    A strict weak order, as [std::sort] requires. *)
Class WeakOrder {T} (ltb : T → T → bool) := {
  before_irrefl x : ltb x x = false;
  before_trans x y z : ltb x y = true → ltb y z = true → ltb x z = true;
  before_split x y z : ltb x z = true → ltb x y = true ∨ ltb y z = true
}.
Section properties.
Context {T : Type} (ltb : T → T → bool) `{!WeakOrder ltb}.
#[local] Set Default Proof Using "Type*".
Implicit Types (a : Array T) (l : list T) (v x y : T).
Abbreviation ascending := (StronglySorted (λ x y, ltb y x = false)).
Abbreviation strict := (StronglySorted (λ x y, ltb x y = true)).

Lemma not_before x y : ltb x y = true → ltb y x = false.
Proof. intros H. apply not_true_is_false. intros H2. pose proof (before_trans _ _ _ H H2) as E. by rewrite before_irrefl in E. Qed.
Lemma strict_ascending l : strict l → ascending l.
Proof. induction 1 as [|x l Hs IH Hf]; constructor; [done|]. eapply Forall_impl; [exact Hf|]. cbn. intros y. apply not_before. Qed.
Lemma ascending_at l i j x y : ascending l → (i < j)%nat → l !! i = Some x → l !! j = Some y → ltb y x = false.
Proof.
  intros Hs. revert i j. induction Hs as [|z l Hs IH Hf]; intros i j Hij Hi Hj; [done|].
  destruct j as [|j]; [lia|]. cbn in Hj. destruct i as [|i].
  - injection Hi as ->. rewrite Forall_forall in Hf. apply Hf. by eapply list_elem_of_lookup_2.
  - cbn in Hi. apply (IH i j); [lia|done|done].
Qed.
(** What comes before [v], and what comes after it. *)
Definition below v l : Prop := Forall (λ x, ltb x v = true) l.
Definition above v l : Prop := Forall (λ x, ltb v x = true) l.

Lemma above_from v l i x : ascending l → l !! i = Some x → ltb v x = true → above v (drop i l).
Proof.
  intros Hs Hi Hv. apply Forall_lookup. intros k y Hk. rewrite lookup_drop in Hk.
  destruct (decide (k = 0)%nat) as [->|]; [rewrite Nat.add_0_r in Hk; congruence|].
  destruct (before_split v y x Hv) as [?|E]; [done|]. by rewrite (ascending_at l i (i + k) x y Hs ltac:(lia) Hi Hk) in E.
Qed.
Lemma below_to v l i x : ascending l → l !! i = Some x → ltb x v = true → below v (take (S i) l).
Proof.
  intros Hs Hi Hv. apply Forall_lookup. intros k y Hk. apply lookup_take_Some in Hk as [Hk ?].
  destruct (decide (k = i)) as [->|]; [congruence|].
  destruct (before_split x y v Hv) as [E|?]; [|done]. by rewrite (ascending_at l k i y x Hs ltac:(lia) Hk Hi) in E.
Qed.

(** The array is in step with its block, and can still grow. *)
Record array_ok a : Prop := {
  ao_size : m_size a = Z.of_nat (length (m_data a));
  ao_bound : m_size a < 2 ^ 62 }.
Lemma at_ok a i : 0 ≤ i < Z.of_nat (length (m_data a)) → ∃ x, at_ i a = Ok x ∧ m_data a !! Z.to_nat i = Some x.
Proof.
  intros Hi. destruct (lookup_lt_is_Some_2 (m_data a) (Z.to_nat i)) as [x Hx]; [lia|]. exists x. split; [|done].
  unfold at_. rewrite (proj2 (Z.ltb_ge i 0)) by lia. by rewrite Hx.
Qed.

(** What a search gives: a place where [v] is, or where it belongs. *)
Definition search_result v l (r : Z) : Prop :=
  if 0 <=? r then ∃ x, l !! Z.to_nat r = Some x ∧ ltb v x = false ∧ ltb x v = false
  else let p := Z.to_nat (- r - 1) in (p ≤ length l)%nat ∧ below v (take p l) ∧ above v (drop p l).

Lemma exists_loop_ok fuel : ∀ v b e a, array_ok a → ascending (m_data a) → 0 ≤ b ≤ e + 1 → e < m_size a → e + 1 - b < Z.of_nat fuel →
  below v (take (Z.to_nat b) (m_data a)) → above v (drop (Z.to_nat (e + 1)) (m_data a)) →
  ∃ r, exists_loop ltb fuel v b e a = Ok r ∧ search_result v (m_data a) r.
Proof.
  induction fuel as [|fuel IH]; intros v b e a Ha Hs Hb He Hf Hlo Hhi; [lia|]. cbn [exists_loop].
  destruct (Z.leb_spec b e).
  - rewrite Z.quot_div_nonneg by lia. set (m := (b + e) / 2). assert (b ≤ m ≤ e) as Hm by (subst m; split; [apply Z.div_le_lower_bound; lia|apply Z.div_le_upper_bound; lia]).
    destruct (at_ok a m) as (x & -> & Hx); [rewrite <- (ao_size _ Ha); lia|]. cbn [obind]. destruct (ltb v x) eqn:E1; [|destruct (ltb x v) eqn:E2].
    + apply IH; try done; try lia. replace (m - 1 + 1) with m by lia. by eapply above_from.
    + apply IH; try done; try lia. replace (Z.to_nat (m + 1)) with (S (Z.to_nat m)) by lia. by eapply below_to.
    + exists m. split; [done|]. unfold search_result. rewrite (proj2 (Z.leb_le 0 m)) by lia. by exists x.
  - exists (- b - 1). split; [done|]. unfold search_result. rewrite (proj2 (Z.leb_gt 0 _)) by lia.
    replace (- (- b - 1) - 1) with b by lia. replace (e + 1) with b in Hhi by lia. split; [|done]. pose proof (ao_size _ Ha). lia.
Qed.
Lemma exists_ok v a : array_ok a → ascending (m_data a) → ∃ r, exists_ ltb v a = Ok r ∧ search_result v (m_data a) r.
Proof.
  intros Ha Hs. unfold exists_. pose proof (ao_size _ Ha). pose proof (ao_bound _ Ha).
  assert (i64 (m_size a - 1) = m_size a - 1) as ->.
  { destruct (decide (m_size a = 0)) as [->|]; [done|]. apply i64_small. lia. }
  apply exists_loop_ok; try done; try lia; [constructor|]. replace (m_size a - 1 + 1) with (m_size a) by lia.
  rewrite drop_ge by lia. constructor.
Qed.

(** *** The search that takes a comparison *)
Context (junk : T).
Lemma cmp_hangs fuel : ∀ v b e a x, b ≤ e → at_ (Z.quot (b + e) 2) a = Ok x → ltb v x = true → exists_cmp_loop ltb fuel v b e a = Fuel.
Proof.
  induction fuel as [|fuel IH]; intros v b e a x Hb Hx Hv; [done|]. cbn [exists_cmp_loop].
  rewrite (proj2 (Z.leb_le b e)), Hx by done. cbn [obind]. rewrite Hv. by eapply IH.
Qed.
Lemma cmp_sound fuel : ∀ v b e a r, exists_cmp_loop ltb fuel v b e a = Ok r → exists_loop ltb fuel v b e a = Ok r.
Proof.
  induction fuel as [|fuel IH]; intros v b e a r; [done|]. cbn [exists_cmp_loop exists_loop]. destruct (Z.leb_spec b e); [|done].
  destruct (at_ (Z.quot (b + e) 2) a) as [x| | |] eqn:Ex; try done. cbn [obind].
  destruct (ltb v x) eqn:Ev; [rewrite (cmp_hangs fuel v b e a x) by done; done|]. destruct (ltb x v); [apply IH|done].
Qed.
Lemma exists_loop_more fuel : ∀ fuel' v b e a r, (fuel ≤ fuel')%nat → exists_loop ltb fuel v b e a = Ok r → exists_loop ltb fuel' v b e a = Ok r.
Proof.
  induction fuel as [|fuel IH]; intros fuel' v b e a r Hf; [done|]. destruct fuel' as [|fuel']; [lia|]. cbn [exists_loop].
  destruct (Z.leb_spec b e); [|done]. destruct (at_ (Z.quot (b + e) 2) a) as [x| | |]; try done. cbn [obind].
  destruct (ltb v x); [apply IH; lia|]. destruct (ltb x v); [apply IH; lia|done].
Qed.
Lemma cmp_same fuel : ∀ v b e a, Forall (λ x, ltb v x = false) (m_data a) → exists_cmp_loop ltb fuel v b e a = exists_loop ltb fuel v b e a.
Proof.
  induction fuel as [|fuel IH]; intros v b e a Hv; [done|]. cbn [exists_cmp_loop exists_loop]. destruct (b <=? e); [|done].
  unfold at_. destruct (Z.quot (b + e) 2 <? 0); [done|]. destruct (m_data a !! _) as [x|] eqn:Ex; [|done]. cbn [of_option obind].
  rewrite (Forall_lookup_1 _ _ _ _ Hv Ex). destruct (ltb x v); [by apply IH|done].
Qed.
(** [exists] and [insert] with a comparison: what they find agrees with the search
    without one, and for a value that is before no element they end.  But for a value
    that is before the middle one of the elements they never do. *)
Theorem exists_cmp_exact v a : array_ok a → ascending (m_data a) →
  (∀ fuel r, exists_cmp ltb fuel v a = Ok r → exists_ ltb v a = Ok r) ∧
  (Forall (λ x, ltb v x = false) (m_data a) → exists_cmp ltb (S (Z.to_nat (m_size a))) v a = exists_ ltb v a) ∧
  (∀ x, m_data a !! Z.to_nat ((m_size a - 1) / 2) = Some x → ltb v x = true →
    ∀ fuel, exists_cmp ltb fuel v a = Fuel ∧ insert_cmp ltb junk fuel v a = Fuel).
Proof.
  intros Ha Hs. pose proof (ao_size _ Ha) as Hsz. pose proof (ao_bound _ Ha). split_and!.
  - intros fuel r E. apply cmp_sound in E. destruct (exists_ok v a Ha Hs) as (r0 & E0 & _). rewrite E0. f_equal. unfold exists_ in E0.
    set (n := S (Z.to_nat (m_size a))) in *.
    pose proof (exists_loop_more fuel (Nat.max fuel n) _ _ _ _ _ ltac:(lia) E) as F.
    pose proof (exists_loop_more n (Nat.max fuel n) _ _ _ _ _ ltac:(lia) E0) as F0. congruence.
  - intros Hv. by apply cmp_same.
  - intros x Hx Hv fuel. assert (0 < length (m_data a))%nat by (apply lookup_lt_Some in Hx; lia).
    assert (exists_cmp ltb fuel v a = Fuel) as E; [|split; [done|]; unfold insert_cmp; by rewrite E].
    unfold exists_cmp. rewrite i64_small by lia. apply (cmp_hangs _ _ _ _ _ x); [lia| |done].
    rewrite Z.add_0_l, Z.quot_div_nonneg by lia. unfold at_. rewrite (proj2 (Z.ltb_ge _ 0)) by (apply Z.div_pos; lia). by rewrite Hx.
Qed.

(** *** A sorted set *)
Definition add v l : list T := filter (λ x, ltb x v = true) l ++ v :: filter (λ x, ltb v x = true) l.
Definition remove v l : list T := filter (λ x, ltb x v = true) l ++ filter (λ x, ltb v x = true) l.
Definition has v l : bool := existsb (λ x, negb (ltb v x) && negb (ltb x v)) l.

Lemma strict_app l1 l2 : strict (l1 ++ l2) ↔ strict l1 ∧ strict l2 ∧ ∀ x y, x ∈ l1 → y ∈ l2 → ltb x y = true.
Proof. apply StronglySorted_app_iff. Qed.
Lemma filters_below v l : below v l → filter (λ x, ltb x v = true) l = l ∧ filter (λ x, ltb v x = true) l = [] ∧ has v l = false.
Proof.
  intros Hl. split_and!.
  - apply filter_all. intros x Hx. unfold below in Hl. rewrite Forall_forall in Hl. by apply Hl.
  - apply filter_none. intros x Hx E. unfold below in Hl. rewrite Forall_forall in Hl. apply Hl, not_before in Hx. congruence.
  - unfold has. induction Hl as [|x l Hx _ IH]; [done|]. cbn. rewrite Hx, IH. by rewrite andb_false_r.
Qed.
Lemma filters_above v l : above v l → filter (λ x, ltb x v = true) l = [] ∧ filter (λ x, ltb v x = true) l = l ∧ has v l = false.
Proof.
  intros Hl. split_and!.
  - apply filter_none. intros x Hx E. unfold above in Hl. rewrite Forall_forall in Hl. apply Hl, not_before in Hx. congruence.
  - apply filter_all. intros x Hx. unfold above in Hl. rewrite Forall_forall in Hl. by apply Hl.
  - unfold has. induction Hl as [|x l Hx _ IH]; [done|]. cbn. by rewrite Hx, IH.
Qed.
(** The parts of a strictly sorted list around [v]. *)
Inductive around v l : bool → Z → Prop :=
| found lo x hi : l = lo ++ x :: hi → ltb v x = false → ltb x v = false → below v lo → above v hi → around v l true (Z.of_nat (length lo))
| missing lo hi : l = lo ++ hi → below v lo → above v hi → around v l false (- Z.of_nat (length lo) - 1).
Lemma search_around v l r : strict l → search_result v l r → around v l (0 <=? r) r.
Proof.
  intros Hs. unfold search_result. destruct (Z.leb_spec 0 r).
  - intros (x & Hx & H1 & H2). pose proof (take_drop_middle l (Z.to_nat r) x Hx) as E.
    assert (length (take (Z.to_nat r) l) = Z.to_nat r) as Hlen by (apply lookup_lt_Some in Hx; rewrite length_take; lia).
    rewrite <- E in Hs. apply strict_app in Hs as (_ & Hs & Hc). apply StronglySorted_inv in Hs as [_ Hf].
    assert (r = Z.of_nat (length (take (Z.to_nat r) l))) as Hr by lia. rewrite Hr. apply (found v l _ x (drop (S (Z.to_nat r)) l)); try done.
    + apply Forall_forall. intros y Hy. destruct (before_split y v x) as [?|?]; [apply Hc; [done|by left]|done|congruence].
    + eapply Forall_impl; [exact Hf|]. cbn. intros y Hy. destruct (before_split x v y Hy) as [?|?]; [congruence|done].
  - intros (Hp & H1 & H2). assert (r = - Z.of_nat (length (take (Z.to_nat (- r - 1)) l)) - 1) as Hr by (rewrite length_take; lia). rewrite Hr at 1.
    apply (missing v l _ (drop (Z.to_nat (- r - 1)) l)); [by rewrite take_drop|done|done].
Qed.

Lemma around_spec v l b r : strict l → around v l b r → has v l = b ∧ strict (add v l) ∧ strict (remove v l).
Proof.
  intros Hs Hr. destruct Hr as [lo x hi -> H1 H2 Hlo Hhi|lo hi -> Hlo Hhi]; unfold add, remove, has;
    destruct (filters_below v lo Hlo) as (E1 & E2 & E3), (filters_above v hi Hhi) as (F1 & F2 & F3); unfold has in *;
    rewrite ?filter_app, ?existsb_app, E1, E2, E3.
  - rewrite !filter_cons, !decide_False, F1, F2 by (rewrite ?H1, ?H2; done). cbn [existsb app]. rewrite H1, H2, app_nil_r. split; [done|].
    apply strict_app in Hs as (S1 & S2 & S3). apply StronglySorted_inv in S2 as [S2 _]. unfold below, above in *. rewrite Forall_forall in Hlo, Hhi.
    split; apply strict_app; split_and!; try done.
    + constructor; [done|]. by apply Forall_forall.
    + intros y z Hy [-> |Hz]%elem_of_cons; [by apply Hlo|]. apply S3; [done|by right].
    + intros y z Hy Hz. apply S3; [done|by right].
  - rewrite F1, F2, F3, app_nil_r. cbn [app]. split; [done|]. split; [|done]. apply strict_app in Hs as (S1 & S2 & S3).
    unfold below, above in *. rewrite Forall_forall in Hlo, Hhi. apply strict_app. split_and!; [done|constructor; [done|by apply Forall_forall]|].
    intros y z Hy [-> |Hz]%elem_of_cons; [by apply Hlo|by apply S3].
Qed.
Lemma around_parts v lo hi : below v lo → above v hi → add v (lo ++ hi) = lo ++ v :: hi ∧ remove v (lo ++ hi) = lo ++ hi.
Proof.
  intros Hlo Hhi. unfold add, remove. destruct (filters_below v lo Hlo) as (E1 & E2 & _), (filters_above v hi Hhi) as (F1 & F2 & _).
  by rewrite !filter_app, E1, E2, F1, F2, app_nil_r.
Qed.
Lemma around_parts_mid v lo x hi : below v lo → above v hi → ltb v x = false → ltb x v = false →
  add v (lo ++ x :: hi) = lo ++ v :: hi ∧ remove v (lo ++ x :: hi) = lo ++ hi.
Proof.
  intros Hlo Hhi H1 H2. unfold add, remove. destruct (filters_below v lo Hlo) as (E1 & E2 & _), (filters_above v hi Hhi) as (F1 & F2 & _).
  by rewrite !filter_app, !filter_cons, !decide_False, E1, E2, F1, F2, app_nil_r by (rewrite ?H1, ?H2; done).
Qed.

(** Making room and closing a gap. *)
Lemma insert_at_ok v lo hi : Z.of_nat (length lo + length hi) < 2 ^ 62 →
  insert_at junk (- Z.of_nat (length lo) - 1) v (mkArray (Z.of_nat (length lo + length hi)) (lo ++ hi)) =
    Ok (true, mkArray (Z.of_nat (length lo + length hi) + 1) (lo ++ v :: hi)).
Proof.
  intros Hb. unfold insert_at. cbn [m_size m_data]. replace (- (- Z.of_nat (length lo) - 1) - 1) with (Z.of_nat (length lo)) by lia.
  rewrite !wrap_small by lia. unfold memmove. rewrite !length_app. cbn [length].
  rewrite !(proj2 (Z.ltb_ge _ _)) by lia. cbn [orb obind]. rewrite Nat2Z.id.
  replace (Z.to_nat (Z.of_nat (length lo) + 1)) with (length lo + 1)%nat by lia.
  replace (Z.to_nat (Z.of_nat (length lo + length hi) - Z.of_nat (length lo))) with (length hi) by lia.
  assert (splice (length lo + 1) (take (length hi) (drop (length lo) ((lo ++ hi) ++ [junk]))) ((lo ++ hi) ++ [junk]) =
    lo ++ take 1 (hi ++ [junk]) ++ hi) as ->.
  { rewrite <- app_assoc, drop_app_length, take_app_length. unfold splice. rewrite take_app_add. rewrite (drop_ge _ (_ + _)) by (rewrite !length_app; cbn; lia).
    by rewrite app_nil_r, <- app_assoc. }
  unfold set, at_. cbn [m_data m_size]. rewrite (proj2 (Z.ltb_ge _ 0)) by lia. rewrite Nat2Z.id.
  destruct (hi ++ [junk]) as [|y t] eqn:E; [by destruct hi|]. cbn [take app]. rewrite list_lookup_middle by done. cbn [of_option obind].
  replace (length lo) with (length lo + 0)%nat at 2 by lia. by rewrite insert_app_r.
Qed.
Lemma array_erase_ok lo x hi : Z.of_nat (length lo + length hi) < 2 ^ 62 →
  erase (Z.of_nat (length lo)) (mkArray (Z.of_nat (length lo + length hi) + 1) (lo ++ x :: hi)) =
    Ok (true, mkArray (Z.of_nat (length lo + length hi)) (lo ++ hi)).
Proof.
  intros Hb. unfold erase. cbn [m_size m_data]. rewrite Z.add_simpl_r. rewrite !(wrap_small 64 (Z.of_nat (length lo + length hi))) by lia. rewrite wrap_small by lia. unfold memmove. rewrite !length_app. cbn [length].
  rewrite !(proj2 (Z.ltb_ge _ _)) by lia. cbn [orb obind]. rewrite !Nat2Z.id.
  replace (Z.to_nat (Z.of_nat (length lo) + 1)) with (length lo + 1)%nat by lia.
  replace (Z.to_nat (Z.of_nat (length lo + length hi) - Z.of_nat (length lo))) with (length hi) by lia.
  rewrite drop_app_add. change (drop 1 (x :: hi)) with hi. rewrite firstn_all. unfold splice. rewrite take_app_length, drop_app_add.
  do 3 f_equal. rewrite app_assoc. apply take_app_length'. by rewrite length_app.
Qed.

Lemma insert_ok v a : array_ok a → strict (m_data a) → m_size a + 1 < 2 ^ 62 →
  insert ltb junk v a = Ok (negb (has v (m_data a)), mkArray (if has v (m_data a) then m_size a else m_size a + 1) (add v (m_data a))).
Proof.
  intros Ha Hs Hb. destruct (exists_ok v a Ha (strict_ascending _ Hs)) as (r & E & Hr). unfold insert. rewrite E. cbn [obind]. unfold insert_found.
  apply search_around in Hr; [|done]. destruct (around_spec _ _ _ _ Hs Hr) as (-> & _ & _). destruct Ha as [Hsz _]. destruct a as [sz l]. cbn [m_size m_data] in *.
  remember (0 <=? r) as b eqn:Hb0. destruct Hr as [lo x hi El H1 H2 Hlo Hhi|lo hi El Hlo Hhi]; cbn [negb].
  - subst l. destruct (around_parts_mid v lo x hi Hlo Hhi H1 H2) as [-> _]. unfold set, at_. cbn [m_size m_data].
    rewrite (proj2 (Z.ltb_ge _ 0)) by lia. rewrite Nat2Z.id, list_lookup_middle by done. cbn [of_option obind].
    replace (length lo) with (length lo + 0)%nat by lia. by rewrite insert_app_r.
  - subst l. rewrite length_app in Hsz. subst sz. destruct (around_parts v lo hi Hlo Hhi) as [-> _]. by apply insert_at_ok; lia.
Qed.
Lemma has_ok v a : array_ok a → strict (m_data a) → ∃ r, exists_ ltb v a = Ok r ∧ (0 <=? r) = has v (m_data a) ∧
  (has v (m_data a) = true → erase r a = Ok (true, mkArray (m_size a - 1) (remove v (m_data a)))) ∧
  (has v (m_data a) = false → remove v (m_data a) = m_data a).
Proof.
  intros Ha Hs. destruct (exists_ok v a Ha (strict_ascending _ Hs)) as (r & E & Hr). exists r. split; [done|].
  apply search_around in Hr; [|done]. destruct (around_spec _ _ _ _ Hs Hr) as (-> & _ & _). split; [done|]. destruct Ha as [Hsz Hb]. destruct a as [sz l]. cbn [m_size m_data] in *.
  remember (0 <=? r) as b eqn:Hb0. destruct Hr as [lo x hi El H1 H2 Hlo Hhi|lo hi El Hlo Hhi]; subst l; split; intros Hx; try done.
  - destruct (around_parts_mid v lo x hi Hlo Hhi H1 H2) as [_ ->]. rewrite length_app in Hsz. cbn [length] in Hsz.
    replace sz with (Z.of_nat (length lo + length hi) + 1) by lia. rewrite array_erase_ok by lia. do 3 f_equal. lia.
  - by destruct (around_parts v lo hi Hlo Hhi) as [_ ->].
Qed.

(** [isSorted] looks at neighbours only. *)
Lemma isSorted_loop_ok fuel : ∀ i a, array_ok a → 0 ≤ i ≤ m_size a → m_size a - i < Z.of_nat fuel →
  ∃ b, isSorted_loop ltb fuel i a = Ok b ∧ (b = true ↔ ascending (drop (Z.to_nat i) (m_data a))).
Proof.
  induction fuel as [|fuel IH]; intros i a Ha Hi Hf; [lia|]. cbn [isSorted_loop]. pose proof (ao_size _ Ha) as Hsz. pose proof (ao_bound _ Ha).
  destruct (Z.ltb_spec i (m_size a)).
  - rewrite wrap_small by lia. destruct (at_ok a i) as (x & Ex & Hx); [lia|].
    destruct (Z.eqb_spec i (m_size a - 1)) as [E|E].
    + exists true. split; [done|]. split; [|done]. intros _. rewrite (drop_S _ x) by done.
      rewrite drop_ge by lia. repeat constructor.
    + destruct (at_ok a (i + 1)) as (y & Ey & Hy); [lia|]. rewrite Ey, Ex. cbn [obind]. rewrite (drop_S _ x) by done.
      replace (Z.to_nat (i + 1)) with (S (Z.to_nat i)) in Hy by lia. destruct (ltb y x) eqn:Eyx; cbn [negb].
      * exists false. split; [done|]. split; [done|]. intros [_ Hf']%StronglySorted_inv. rewrite (drop_S _ y) in Hf' by done.
        apply Forall_cons in Hf' as [Hf' _]. congruence.
      * destruct (IH (i + 1) a Ha) as (b & -> & Hbb); [lia|lia|]. exists b. split; [done|]. rewrite Hbb.
        replace (Z.to_nat (i + 1)) with (S (Z.to_nat i)) by lia. split; [|by intros [? _]%StronglySorted_inv].
        intros Hs. constructor; [done|]. rewrite (drop_S _ y) in * by done. apply StronglySorted_inv in Hs as [_ Hs]. constructor; [done|].
        eapply Forall_impl; [exact Hs|]. cbn. intros z Hz. apply not_true_is_false. intros Hzx. destruct (before_split z y x Hzx); congruence.
  - exists true. split; [done|]. rewrite drop_ge by lia. split; [constructor|done].
Qed.
Lemma isSorted_ok a : array_ok a → ∃ b, isSorted ltb a = Ok b ∧ (b = true ↔ ascending (m_data a)).
Proof. intros Ha. unfold isSorted. pose proof (ao_size _ Ha). destruct (isSorted_loop_ok (S (Z.to_nat (m_size a))) 0 a Ha) as (b & E & Hb); [lia|lia|]. by exists b. Qed.

(** *** Sequences of calls *)
Context (zero : T).
Inductive acall := AInsert (v : T) | AErase (v : T) | AHas (v : T).
Definition run_acall (c : acall) a : outcome (bool * Array T) :=
  match c with
  | AInsert v => insert ltb junk v a
  | AErase v => obind (exists_ ltb v a) (λ r, if 0 <=? r then erase r a else Ok (false, a))
  | AHas v => obind (exists_ ltb v a) (λ r, Ok (0 <=? r, a))
  end.
Fixpoint run_acalls (cs : list acall) a : outcome (list bool * Array T) :=
  match cs with
  | [] => Ok ([], a)
  | c :: cs => obind (run_acall c a) (λ '(b, a), obind (run_acalls cs a) (λ '(bs, a), Ok (b :: bs, a)))
  end.
Definition spec_acall (c : acall) l : bool * list T :=
  match c with
  | AInsert v => (negb (has v l), add v l)
  | AErase v => (has v l, remove v l)
  | AHas v => (has v l, l)
  end.
Fixpoint spec_acalls (cs : list acall) l : list bool * list T :=
  match cs with
  | [] => ([], l)
  | c :: cs => let '(b, l) := spec_acall c l in let '(bs, l) := spec_acalls cs l in (b :: bs, l)
  end.
Lemma run_acall_ok c l : strict l → Z.of_nat (length l) + 1 < 2 ^ 62 →
  run_acall c (mkArray (Z.of_nat (length l)) l) =
    Ok ((spec_acall c l).1, mkArray (Z.of_nat (length (spec_acall c l).2)) (spec_acall c l).2) ∧
  strict (spec_acall c l).2 ∧ (length (spec_acall c l).2 ≤ length l + 1)%nat.
Proof.
  intros Hs Hb. set (a := mkArray (Z.of_nat (length l)) l). assert (array_ok a) as Ha by (split; [done|cbn; lia]).
  assert (∀ v, strict (add v l) ∧ strict (remove v l) ∧ length (add v l) = (length (remove v l) + 1)%nat ∧
    length l = (length (remove v l) + if has v l then 1 else 0)%nat) as Hv.
  { intros v. destruct (exists_ok v a Ha (strict_ascending _ Hs)) as (r & _ & Hr). apply search_around in Hr; [|done].
    destruct (around_spec _ _ _ _ Hs Hr) as (Hh & ? & ?). split_and!; try done; [unfold add, remove; rewrite !length_app; cbn; lia|].
    rewrite Hh. remember (0 <=? r) as b eqn:Hb0. destruct Hr as [lo x hi El H1 H2 Hlo Hhi|lo hi El Hlo Hhi]; cbn [m_data a] in El.
    - rewrite El. destruct (around_parts_mid v lo x hi Hlo Hhi H1 H2) as [_ ->]. rewrite !length_app. cbn. lia.
    - rewrite El. destruct (around_parts v lo hi Hlo Hhi) as [_ ->]. lia. }
  destruct c as [v|v|v]; cbn [run_acall spec_acall fst snd]; destruct (Hv v) as (V1 & V2 & V3 & V4).
  - rewrite insert_ok by (done || cbn; lia). cbn [m_data m_size a]. split; [|split; [done|destruct (has v l); lia]]. do 3 f_equal. destruct (has v l); lia.
  - destruct (has_ok v a Ha Hs) as (r & -> & Hr & He & Hn). cbn [obind m_data a m_size] in *. rewrite Hr.
    split; [|split; [done|lia]]. destruct (has v l).
    + rewrite He by done. do 3 f_equal. lia.
    + by rewrite Hn.
  - destruct (has_ok v a Ha Hs) as (r & -> & Hr & _). cbn [obind m_data a] in *. rewrite Hr. split; [done|]. split; [done|lia].
Qed.
(** An array that starts empty and is only changed by [insert] of a value and by
    [erase] of what [exists] found is a sorted set up to equivalence under the order:
    each call answers and changes the elements as on that set ([insert] puts the new
    value in the place of an equivalent one and says whether there was none), the
    elements stay in strict order, and [isSorted] says so. *)
Theorem array_is_sorted_set cs : Z.of_nat (length cs) + 1 < 2 ^ 62 →
  let r := spec_acalls cs [] in
  let a := mkArray (Z.of_nat (length r.2)) r.2 in
  run_acalls cs (new_Array zero 0) = Ok (r.1, a) ∧ strict r.2 ∧ isSorted ltb a = Ok true.
Proof.
  intros Hb r a.
  assert (∀ cs l, strict l → Z.of_nat (length l) + Z.of_nat (length cs) + 1 < 2 ^ 62 → let r := spec_acalls cs l in
    run_acalls cs (mkArray (Z.of_nat (length l)) l) = Ok (r.1, mkArray (Z.of_nat (length r.2)) r.2) ∧ strict r.2 ∧ Z.of_nat (length r.2) < 2 ^ 62) as H.
  { clear cs Hb r a. induction cs as [|c cs IH]; intros l Hs Hb; cbn [run_acalls spec_acalls length] in *; [cbn; split_and!; done || lia|].
    destruct (run_acall_ok c l Hs) as (-> & Hs' & Hl); [lia|]. cbn [obind]. destruct (spec_acall c l) as [b l']. cbn [fst snd] in *.
    specialize (IH l' Hs'). cbn zeta in IH. destruct IH as (-> & ? & ?); [lia|]. cbn [obind]. by destruct (spec_acalls cs l'). }
  destruct (H cs [] ltac:(constructor) ltac:(cbn; lia)) as (E & Hs & Hbb). fold r in E, Hs, Hbb. split; [exact E|]. split; [exact Hs|].
  destruct (isSorted_ok a) as (b & -> & Hb2); [by split|]. f_equal. by apply Hb2, strict_ascending.
Qed.

(** *** Sorting and growing *)
#[local] Instance not_after_total : Total (not_after ltb).
Proof. intros x y. unfold not_after. destruct (ltb y x) eqn:E; [right; by apply not_before|by left]. Qed.
#[local] Instance not_after_trans : Transitive (not_after ltb).
Proof. intros x y z H1 H2. unfold not_after in *. apply not_true_is_false. intros H3. destruct (before_split z y x H3); congruence. Qed.
Lemma sort_ok a : array_ok a → ascending (m_data (sort ltb a)) ∧ m_data (sort ltb a) ≡ₚ m_data a ∧ array_ok (sort ltb a).
Proof.
  intros [H1 H2]. pose proof (merge_sort_Permutation (not_after ltb) (m_data a)) as Hp. cbn [sort m_data]. split; [|split; [done|]].
  - exact (StronglySorted_merge_sort (not_after ltb) (m_data a)).
  - split; [|done]. cbn. by rewrite Hp.
Qed.
Lemma append_ok v a : array_ok a → m_size a + 1 < 2 ^ 62 → append junk v a = Ok (mkArray (m_size a + 1) (m_data a ++ [v])).
Proof.
  intros [H1 H2] Hb. unfold append, set, at_. cbn [m_data m_size]. rewrite wrap_small by lia. rewrite (proj2 (Z.ltb_ge _ 0)) by lia.
  replace (Z.to_nat (m_size a + 1 - 1)) with (length (m_data a)) by lia. rewrite list_lookup_middle by done. cbn [of_option obind].
  replace (length (m_data a)) with (length (m_data a) + 0)%nat by lia. by rewrite insert_app_r.
Qed.
(** A place outside the array: nothing is defined. *)
Lemma wrap_negative z : - 2 ^ 64 ≤ z < 0 → u64 z = z + 2 ^ 64.
Proof. intros Hz. unfold wrap. rewrite <- (Z.mod_add _ 1) by lia. rewrite Z.mod_small; lia. Qed.
Lemma memmove_out dst src n l : Z.of_nat (length l) < src + n → memmove dst src n l = Undef OutOfBounds.
Proof. intros H. unfold memmove. rewrite (proj2 (Z.ltb_lt _ (src + n))) by done. by destruct (src <? 0), (dst <? 0), (n <? 0). Qed.
Lemma memmove_before dst src n l : src < 0 ∨ dst < 0 → memmove dst src n l = Undef OutOfBounds.
Proof. intros [H|H]; unfold memmove; [rewrite (proj2 (Z.ltb_lt src 0)) by done|rewrite (proj2 (Z.ltb_lt dst 0)) by done; destruct (src <? 0)]; done. Qed.
Lemma out_of_range v i a : array_ok a → - 2 ^ 62 < i < 2 ^ 62 →
  (i < 0 ∨ m_size a ≤ i → at_ i a = Undef OutOfBounds ∧ set i v a = Undef OutOfBounds ∧ erase i a = Undef OutOfBounds) ∧
  (0 ≤ i ∨ i < - m_size a - 1 → insert_at junk i v a = Undef OutOfBounds).
Proof.
  intros [H1 H2] Hb. split; intros Hi.
  - assert (at_ i a = Undef OutOfBounds) as E.
    { unfold at_. destruct (Z.ltb_spec i 0); [done|]. by rewrite (proj2 (lookup_ge_None _ _)) by lia. }
    split; [done|]. unfold set. rewrite E. split; [done|]. unfold erase.
    destruct (Z.ltb_spec i 0); [by rewrite memmove_before by by right|]. destruct (decide (m_size a = 0)) as [Hz|Hz].
    + rewrite Hz, (wrap_negative (0 - 1)), wrap_small by lia. rewrite memmove_out; [done|lia].
    + rewrite (wrap_small 64 (m_size a - 1)), wrap_negative by lia. rewrite memmove_out; [done|lia].
  - unfold insert_at. destruct (Z.ltb_spec (- i - 1) 0); [by rewrite memmove_before by by left|].
    rewrite wrap_negative, memmove_out by (rewrite ?length_app; cbn; lia). done.
Qed.

End properties.

(** ** Files *)
Section files.
Context {T : Type} (junk : T) (sizeof_T : nat) (bytes_of : T → list Z) (of_bytes : list Z → T) (max_alloc : Z).
Lemma read_elements_ok l rest : (∀ x, length (bytes_of x) = sizeof_T ∧ of_bytes (bytes_of x) = x) →
  read_elements sizeof_T of_bytes (length l) ((l ≫= bytes_of) ++ rest) = l.
Proof.
  intros Hc. induction l as [|x l IH]; [done|]. cbn [length read_elements]. rewrite bind_cons, <- app_assoc. destruct (Hc x) as [Hl Hx].
  rewrite take_app_length', drop_app_length', Hx by lia. f_equal. exact IH.
Qed.
(** What [writeTo] writes, [readFrom] reads, for elements of any size that are what
    their bytes say, as long as the block can be allocated; what follows is left. *)
Theorem array_file_roundtrip a b rest : array_ok a → (0 < sizeof_T)%nat →
  (∀ x, length (bytes_of x) = sizeof_T ∧ of_bytes (bytes_of x) = x) →
  m_size a * Z.of_nat sizeof_T ≤ max_alloc < 2 ^ 64 →
  readFrom junk sizeof_T bytes_of of_bytes max_alloc (writeTo bytes_of a ++ rest) b = Ok (true, a, rest).
Proof.
  intros [H1 H2] Hs Hc Hm. unfold readFrom, writeTo. rewrite <- app_assoc, length_app, le_bytes_length.
  assert (length (le_bytes 8 (m_size a)) = 8%nat) as Hl by apply le_bytes_length.
  rewrite (proj2 (Nat.ltb_ge _ 8)) by lia. rewrite (take_app_length' (le_bytes 8 _)), (drop_app_length' (le_bytes 8 _)), le_val_bytes by lia.
  change (8 * Z.of_nat 8) with 64. assert (0 ≤ m_size a * Z.of_nat sizeof_T) by (apply Z.mul_nonneg_nonneg; lia).
  rewrite !(wrap_small 64 (m_size a)) by lia. rewrite !wrap_small by lia. rewrite Z.div_mul by lia.
  assert (length (m_data a ≫= bytes_of) = (length (m_data a) * sizeof_T)%nat) as Hb.
  { generalize (m_data a). intros l. induction l as [|x l IH]; [done|]. rewrite bind_cons, length_app, IH. destruct (Hc x) as [-> _]. cbn. lia. }
  rewrite (proj2 (Z.ltb_ge max_alloc _)), (proj2 (Z.ltb_ge _ (m_size a * _))) by (rewrite ?length_app; lia).
  do 3 f_equal; [|apply drop_app_length'; lia]. destruct a as [sz l]. cbn [m_size m_data] in *. subst sz. f_equal. rewrite Nat2Z.id. by apply read_elements_ok.
Qed.
End files.

(** ** Runs *)
#[export] Instance Z_order : WeakOrder Z.ltb.
Proof.
  split.
  - apply Z.ltb_irrefl.
  - intros x y z. rewrite !Z.ltb_lt. lia.
  - intros x y z. rewrite !Z.ltb_lt. lia.
Qed.
Definition odd_numbers : Array Z := mkArray 3 [1; 3; 5].
Example search_runs :
  (exists_ Z.ltb 3 odd_numbers, exists_ Z.ltb 4 odd_numbers, exists_cmp Z.ltb 9 4 odd_numbers, exists_cmp Z.ltb 999 2 odd_numbers) =
  (Ok 1, Ok (-3), Fuel, Fuel).
Proof. vm_compute. done. Qed.
(** [insert(idx, v)] wants the negative answer of [exists]; the index of an element is
    outside the block. *)
Example insert_at_index : insert_at 0 1 9 odd_numbers = Undef OutOfBounds.
Proof. vm_compute. done. Qed.
(** A size whose bytes wrap around: the array says that it has 2^61 elements, and has none. *)
Example size_wraps : readFrom 0 8 (le_bytes 8) le_val 1000 (le_bytes 8 (2 ^ 61)) (new_Array 0 0) = Ok (true, mkArray (2 ^ 61) [], []).
Proof. vm_compute. done. Qed.
Lemma exists_cmp_exact_witness : ∀ fuel, exists_cmp Z.ltb fuel 2 odd_numbers = Fuel ∧ insert_cmp Z.ltb 0 fuel 2 odd_numbers = Fuel.
Proof.
  assert (array_ok odd_numbers) as Ha by by split. assert (StronglySorted (λ x y, Z.ltb y x = false) (m_data odd_numbers)) as Hs by repeat constructor.
  destruct (exists_cmp_exact Z.ltb 0 2 odd_numbers Ha Hs) as (_ & _ & H). exact (H 3 eq_refl eq_refl).
Defined.
Lemma array_is_sorted_set_witness :
  run_acalls Z.ltb 0 [AInsert 5; AInsert 2; AInsert 9; AInsert 5; AErase 2; AHas 9] (new_Array 0 0) = Ok ([true; true; true; false; true; true], mkArray 2 [5; 9]).
Proof.
  assert (Z.of_nat (length [AInsert 5; AInsert 2; AInsert 9; AInsert 5; AErase 2; AHas 9]) + 1 < 2 ^ 62) as Hb by reflexivity.
  destruct (array_is_sorted_set Z.ltb 0 0 [AInsert 5; AInsert 2; AInsert 9; AInsert 5; AErase 2; AHas 9] Hb) as (E & _). rewrite E. reflexivity.
Defined.
Lemma array_file_roundtrip_witness :
  readFrom 0 1 (λ x, [x]) (λ bs, nth 0 bs 0) 1000 (writeTo (λ x, [x]) odd_numbers ++ [7]) (new_Array 0 0) = Ok (true, odd_numbers, [7]).
Proof.
  apply (array_file_roundtrip 0 1 (λ x, [x]) (λ bs, nth 0 bs 0) 1000); [by split|lia|done|cbn; lia].
Defined.
