(* ===== verification/Multimap.v ===== *)
(** * HashMultimap (Helens/ds/hash_multimap.h)

    The table of [HashMap] with an array of values for each key, kept sorted.  The
    model is sequential and an array is a value: a [get] that hands out the array
    itself is left out, and so is [del] of one value, which does not compile when it is
    used. *)
From S2P Require Import Prelude OrderedSet TimedLruCache HashMap DsArray.

Section multimap.
Context {K V : Type} `{Countable K} `{KeyOrder K} (m_posHash : K → Z) (ltb : V → V → bool).
Abbreviation node := (K * list V)%type.

Record HashMultimap := mkMultimap { m_table : HashMap.HashMap (K := K) (V := list V); m_elements : Z }.
Definition new_HashMultimap (size : Z) : outcome HashMultimap := obind (new_HashMap size) (λ t, Ok (mkMultimap t 0)).
Definition getTotal (h : HashMultimap) : Z := h_total (m_table h).
Definition getElements (h : HashMultimap) : Z := m_elements h.
Definition mm_rehash (h : HashMultimap) : outcome HashMultimap := obind (rehash m_posHash (m_table h)) (λ t, Ok (mkMultimap t (m_elements h))).

(** The bucket of a key and the node in it. *)
Definition mm_find (k : K) (h : HashMultimap) : outcome (nat * list node * option (nat * list V)) :=
  obind (bucket m_posHash (m_table h) k) (λ '(pos, l),
  Ok (pos, l, match find_key_in k l with Some i => (λ n, (i, n.2)) <$> l !! i | None => None end)).
Definition mm_get (k : K) (h : HashMultimap) : outcome (option (list V)) := obind (mm_find k h) (λ r, Ok (snd <$> r.2)).
(** [get(k, v)] into a vector. *)
Definition mm_get_vector (k : K) (v : list V) (h : HashMultimap) : outcome (bool * list V) :=
  obind (mm_find k h) (λ r, Ok (match r.2 with Some (_, vals) => (true, vals) | None => (false, v) end)).
Definition mm_exists (k : K) (h : HashMultimap) : outcome bool := obind (mm_find k h) (λ r, Ok (bool_decide (is_Some r.2))).
Definition mm_get_value (k : K) (v : V) (h : HashMultimap) : outcome (option V) :=
  obind (mm_find k h) (λ r,
  Ok (match r.2 with Some (_, vals) => match BinarySearch ltb v vals with Some j => vals !! j | None => None end | None => None end)).
Definition mm_exists_value (k : K) (v : V) (h : HashMultimap) : outcome bool :=
  obind (mm_find k h) (λ r, Ok (match r.2 with Some (_, vals) => bool_decide (is_Some (BinarySearch ltb v vals)) | None => false end)).

Definition update (pos : nat) (l : list node) (n e : Z) (h : HashMultimap) : HashMultimap :=
  mkMultimap (with_total (u64 (h_total (m_table h) + n)) (with_bucket pos l (m_table h))) (u64 (m_elements h + e)).
(** A new node at the end of the bucket, moved to its place. *)
Definition add_node (pos : nat) (l : list node) (k : K) (vals : list V) (h : HashMultimap) : HashMultimap :=
  update pos (SortLast hnode_ltb (l ++ [(k, vals)])) 1 (Z.of_nat (length vals)) h.
(** [it->val = datas] *)
Definition set_vals (pos i : nat) (l : list node) (k : K) (vals : list V) (e : Z) (h : HashMultimap) : HashMultimap :=
  update pos (<[i := (k, vals)]> l) 0 e h.

Definition mm_insert (k : K) (v : V) (h : HashMultimap) : outcome (bool * HashMultimap) :=
  obind (mm_rehash h) (λ h,
  obind (mm_find k h) (λ '(pos, l, it),
  match it with
  | None => Ok (true, add_node pos l k [v] h)
  | Some (i, vals) =>
    match BinarySearch ltb v vals with
    | Some j => Ok (true, set_vals pos i l k (<[j := v]> vals) 0 h)
    | None => Ok (true, set_vals pos i l k (SortLast ltb (vals ++ [v])) 1 h)
    end
  end)).

Definition vals_sort (l : list V) : list V := merge_sort (not_after ltb) l.
(** [std::set<V>::insert] *)
Fixpoint set_insert (v : V) (l : list V) : list V :=
  match l with [] => [v] | x :: l' => if ltb v x then v :: l else if ltb x v then x :: set_insert v l' else l end.
(** The loop over the values: those that are there are replaced, the others collected. *)
Fixpoint merge_vals (vs vals news : list V) : list V * list V :=
  match vs with
  | [] => (vals, news)
  | v :: vs =>
    match BinarySearch ltb v vals with
    | None => merge_vals vs vals (set_insert v news)
    | Some j => merge_vals vs (<[j := v]> vals) news
    end
  end.
Definition mm_insert_all (k : K) (vs : list V) (h : HashMultimap) : outcome (bool * HashMultimap) :=
  obind (mm_rehash h) (λ h,
  obind (mm_find k h) (λ '(pos, l, it),
  match it with
  | None => Ok (true, add_node pos l k (vals_sort vs) h)
  | Some (i, vals) =>
    let '(vals, news) := merge_vals vs vals [] in
    Ok (true, set_vals pos i l k (vals_sort (vals ++ news)) (Z.of_nat (length news)) h)
  end)).
(** [set]: [m_elements] only grows. *)
Definition mm_set (k : K) (vs : list V) (h : HashMultimap) : outcome (bool * HashMultimap) :=
  obind (mm_rehash h) (λ h,
  obind (mm_find k h) (λ '(pos, l, it),
  match it with
  | None => Ok (true, add_node pos l k (vals_sort vs) h)
  | Some (i, vals) => Ok (true, set_vals pos i l k (vals_sort vs) (Z.of_nat (length vs)) h)
  end)).

Definition mm_del (k : K) (h : HashMultimap) : outcome (bool * HashMultimap) :=
  obind (mm_find k h) (λ '(pos, l, it),
  match it with
  | None => Ok (false, h)
  | Some (i, vals) => Ok (true, update pos (drop_node i l) (-1) (- Z.of_nat (length vals)) h)
  end).
(** [rforeach] *)
Definition mm_foreach {St} (cb : K → list V → St → bool * St) (h : HashMultimap) (s : St) : outcome St := rforeach cb (m_table h) s.
End multimap.

(** ** Values as sets *)
Section values.
Context {V : Type} `{Countable V} `{KeyOrder V}.
Abbreviation vltb := (key_ltb (K := V)).
#[export] Instance key_weak_order : WeakOrder vltb.
Proof.
  split.
  - apply key_irrefl.
  - apply key_trans.
  - intros x y z Hxz. destruct (vltb x y) eqn:E1; [by left|]. destruct (vltb y z) eqn:E2; [by right|]. exfalso.
    destruct (vltb y x) eqn:E3.
    + pose proof (key_trans _ _ _ E3 Hxz). congruence.
    + rewrite (key_total _ _ E1 E3) in Hxz. congruence.
Qed.
(** The array of a set of values: they are in order. *)
Definition sorted_vals (X : gset V) : list V := vals_sort vltb (elements X).
Abbreviation in_order := (StronglySorted (not_after vltb)).
#[local] Instance vals_total : Total (not_after vltb).
Proof. intros x y. unfold not_after. destruct (vltb y x) eqn:E; [right; by apply (not_before vltb)|by left]. Qed.
#[local] Instance vals_trans : Transitive (not_after vltb).
Proof. intros x y z H1 H2. unfold not_after in *. apply not_true_is_false. intros H3. destruct (before_split (ltb := vltb) z y x H3); congruence. Qed.
#[local] Instance vals_antisymm : AntiSymm (=) (not_after vltb).
Proof. intros x y H1 H2. by apply key_total. Qed.
Lemma vals_sort_ok l : in_order (vals_sort vltb l) ∧ vals_sort vltb l ≡ₚ l.
Proof. split; [exact (StronglySorted_merge_sort (not_after vltb) l)|apply merge_sort_Permutation]. Qed.
Lemma sorted_vals_ok X : in_order (sorted_vals X) ∧ NoDup (sorted_vals X) ∧ ∀ v, v ∈ sorted_vals X ↔ v ∈ X.
Proof.
  destruct (vals_sort_ok (elements X)) as [Hs Hp]. unfold sorted_vals. split; [done|]. split; [rewrite Hp; apply NoDup_elements|].
  intros v. by rewrite Hp, elem_of_elements.
Qed.
(** A set has one array. *)
Lemma sorted_vals_unique l X : in_order l → NoDup l → (∀ v, v ∈ l ↔ v ∈ X) → l = sorted_vals X.
Proof.
  intros Hs Hn Hx. destruct (sorted_vals_ok X) as (S1 & S2 & S3). apply (StronglySorted_unique (not_after vltb)); [done|done|].
  apply NoDup_Permutation; [done|done|]. intros v. by rewrite Hx, S3.
Qed.
Lemma vals_sort_unique l X : NoDup l → (∀ v, v ∈ l ↔ v ∈ X) → vals_sort vltb l = sorted_vals X.
Proof. intros Hn Hx. destruct (vals_sort_ok l) as [Hs Hp]. apply sorted_vals_unique; [done|by rewrite Hp|]. intros v. by rewrite Hp. Qed.
Lemma sorted_vals_length X : length (sorted_vals X) = size X.
Proof. destruct (vals_sort_ok (elements X)) as [_ Hp]. unfold sorted_vals. by rewrite Hp. Qed.

Lemma search_vals v l : in_order l →
  match BinarySearch vltb v l with Some j => l !! j = Some v | None => v ∉ l end.
Proof.
  unfold BinarySearch. induction 1 as [|x l Hs IH Hf]; [by apply not_elem_of_nil|]. cbn [lower_bound].
  destruct (vltb x v) eqn:E.
  - cbn [lookup list_lookup]. destruct (l !! lower_bound vltb v l) as [y|]; [destruct (negb (vltb v y))|].
    + done.
    + intros [->|Hv]%elem_of_cons; [by rewrite key_irrefl in E|done].
    + intros [->|Hv]%elem_of_cons; [by rewrite key_irrefl in E|done].
  - cbn [lookup list_lookup]. destruct (vltb v x) eqn:E2; cbn [negb].
    + intros [->|Hv]%elem_of_cons; [by rewrite key_irrefl in E2|]. rewrite Forall_forall in Hf. specialize (Hf v Hv). unfold not_after in Hf. congruence.
    + by rewrite (key_total v x E2 E).
Qed.
Lemma search_set v X : match BinarySearch vltb v (sorted_vals X) with Some j => sorted_vals X !! j = Some v ∧ v ∈ X | None => v ∉ X end.
Proof.
  destruct (sorted_vals_ok X) as (S1 & S2 & S3). pose proof (search_vals v _ S1) as Hb. destruct (BinarySearch _ _ _) as [j|].
  - split; [done|]. apply S3. by eapply list_elem_of_lookup_2.
  - by rewrite <- S3.
Qed.

(** [SortLast] of values is that of nodes without values. *)
Lemma sort_last_values (l : list V) : SortLast (hnode_ltb (V := unit)) ((λ v, (v, tt)) <$> l) = (λ v, (v, tt)) <$> SortLast vltb l.
Proof.
  assert (∀ i l, sort_last_loop (hnode_ltb (V := unit)) i ((λ v, (v, tt)) <$> l) = (λ v, (v, tt)) <$> sort_last_loop vltb i l) as Hl.
  { clear l. induction i as [|i IH]; intros l; cbn [sort_last_loop]; rewrite !list_lookup_fmap;
      destruct (l !! _) as [y|]; try done; destruct (l !! _) as [x|]; try done; cbn [fmap option_fmap option_map]; unfold hnode_ltb at 1; cbn [fst];
      destruct (vltb y x); try done; [by rewrite !list_fmap_insert|]. rewrite <- IH. by rewrite !list_fmap_insert. }
  unfold SortLast. rewrite length_fmap. destruct (length l <=? 1)%nat; [done|]. apply Hl.
Qed.
Lemma SortLast_add v X : v ∉ X → SortLast vltb (sorted_vals X ++ [v]) = sorted_vals ({[v]} ∪ X).
Proof.
  intros Hv. destruct (sorted_vals_ok X) as (S1 & S2 & S3).
  assert (StronglySorted (λ a b : V * unit, key_before (a.1) (b.1)) ((λ v, (v, tt)) <$> sorted_vals X)) as Hs.
  { clear S3. induction S1 as [|x l Hs IH Hf]; [constructor|]. apply NoDup_cons in S2 as [Hx S2]. constructor; [by apply IH|].
    apply Forall_fmap. apply Forall_forall. intros y Hy. rewrite Forall_forall in Hf. specialize (Hf y Hy). cbn. unfold key_before.
    destruct (vltb x y) eqn:E; [done|]. exfalso. apply Hx. by rewrite (key_total _ _ E Hf). }
  destruct (SortLast_spec (K := V) _ (v, tt) Hs) as (l' & E & Hs' & Hp).
  { intros [] (x & [= <-] & Hin)%list_elem_of_fmap. by apply Hv, S3. }
  change [(v, tt)] with ((λ v : V, (v, tt)) <$> [v]) in E. rewrite <- fmap_app, sort_last_values in E.
  set (r := SortLast vltb (sorted_vals X ++ [v])) in *.
  assert (r ≡ₚ v :: sorted_vals X) as Hr.
  { apply (f_equal (fmap fst)) in E. rewrite <- list_fmap_compose in E. rewrite (list_fmap_id r : fst ∘ (λ v, (v, tt)) <$> r = r) in E.
    rewrite E, Hp. cbn. rewrite <- list_fmap_compose. by rewrite (list_fmap_id (sorted_vals X) : fst ∘ (λ v, (v, tt)) <$> _ = _). }
  apply sorted_vals_unique.
  - rewrite <- E in Hs'. clear -Hs'. induction r as [|x r IH]; [constructor|]. apply StronglySorted_inv in Hs' as [Hs Hf]. constructor; [by apply IH|].
    rewrite Forall_forall in Hf. apply Forall_forall. intros y Hy. apply (not_before vltb). apply (Hf (y, tt)). apply list_elem_of_fmap. by exists y.
  - rewrite Hr. constructor; [by rewrite S3|done].
  - intros w. rewrite Hr, elem_of_cons, S3. set_solver.
Qed.

(** The loop of [insert] of several values. *)
Lemma set_insert_ok v l : in_order l → NoDup l → in_order (set_insert vltb v l) ∧ NoDup (set_insert vltb v l) ∧ ∀ x, x ∈ set_insert vltb v l ↔ x = v ∨ x ∈ l.
Proof.
  induction 1 as [|y l Hs IH Hf]; intros Hn; cbn [set_insert].
  - split_and!; [repeat constructor|by apply NoDup_singleton|]. intros x. rewrite list_elem_of_singleton, elem_of_nil. tauto.
  - apply NoDup_cons in Hn as [Hy Hn]. destruct (IH Hn) as (I1 & I2 & I3). rewrite Forall_forall in Hf. destruct (vltb v y) eqn:E1; [|destruct (vltb y v) eqn:E2].
    + assert (∀ z, z ∈ y :: l → vltb v z = true) as Hv.
      { intros z [->|Hz]%elem_of_cons; [done|]. destruct (before_split (ltb := vltb) v z y E1) as [?|E]; [done|]. specialize (Hf z Hz). unfold not_after in Hf. congruence. }
      split_and!.
      * constructor; [constructor; [done|by apply Forall_forall]|]. apply Forall_forall. intros z Hz. by apply (not_before vltb), Hv.
      * constructor; [|by constructor]. intros Hin. apply Hv in Hin. by rewrite key_irrefl in Hin.
      * intros x. by rewrite !elem_of_cons.
    + split_and!.
      * constructor; [done|]. apply Forall_forall. intros z [->|Hz]%I3; [by apply (not_before vltb)|by apply Hf].
      * constructor; [|done]. intros [->|Hin]%I3; [by rewrite key_irrefl in E2|done].
      * intros x. rewrite !elem_of_cons, I3. tauto.
    + rewrite (key_total v y) by done. split_and!; [constructor; [done|by apply Forall_forall]|by constructor|]. intros x. rewrite elem_of_cons. tauto.
Qed.
Lemma merge_vals_ok vs X : ∀ news, in_order news → NoDup news →
  ∃ news', merge_vals vltb vs (sorted_vals X) news = (sorted_vals X, news') ∧ NoDup news' ∧ ∀ x, x ∈ news' ↔ x ∈ news ∨ x ∈ vs ∧ x ∉ X.
Proof.
  induction vs as [|v vs IH]; intros news Hs Hn; cbn [merge_vals].
  - exists news. split_and!; try done. intros x. rewrite elem_of_nil. tauto.
  - pose proof (search_set v X) as Hv. destruct (BinarySearch vltb v (sorted_vals X)) as [j|].
    + destruct Hv as [Hj Hv]. rewrite list_insert_id by done. destruct (IH news Hs Hn) as (n & -> & ? & Hx). exists n. split_and!; try done.
      intros x. rewrite Hx, elem_of_cons. naive_solver.
    + destruct (set_insert_ok v news Hs Hn) as (I1 & I2 & I3). destruct (IH _ I1 I2) as (n & -> & ? & Hx). exists n. split_and!; try done.
      intros x. rewrite Hx, I3, elem_of_cons. naive_solver.
Qed.
End values.

(** ** The table as a map of sets *)
Section refinement.
Context {K V : Type} `{Countable K} `{KeyOrder K} `{Countable V} `{KeyOrder V} (m_posHash : K → Z).
Abbreviation vltb := (key_ltb (K := V)).
Abbreviation hashed := (HashMap.hrep (V := list V) m_posHash).
(** How many pairs there are. *)
Definition pairs (M : gmap K (gset V)) : nat := map_fold (λ _ X n, (size X + n)%nat) 0%nat M.
Lemma pairs_insert k X M : M !! k = None → pairs (<[k := X]> M) = (size X + pairs M)%nat.
Proof. intros Hk. unfold pairs. apply (map_fold_insert_L (λ _ (X : gset V) n, (size X + n)%nat)); [intros; lia|done]. Qed.
Lemma pairs_delete k X M : M !! k = Some X → pairs M = (size X + pairs (delete k M))%nat.
Proof. intros Hk. rewrite <- (pairs_insert k X (delete k M)) by apply lookup_delete_eq. by rewrite insert_delete_id. Qed.
Lemma pairs_change k X Y M : M !! k = Some X → (pairs (<[k := Y]> M) + size X = pairs M + size Y)%nat.
Proof. intros Hk. rewrite (pairs_delete k X M Hk). rewrite <- (insert_delete_eq M), (pairs_insert k Y) by apply lookup_delete_eq. lia. Qed.

Record mrep (h : HashMultimap) (M : gmap K (gset V)) : Prop := {
  mr_table : ∃ d, hashed (m_table h) d (sorted_vals <$> M);
  mr_elements : m_elements h = Z.of_nat (pairs M);
  mr_bound : h_total (m_table h) < 2 ^ 31 ∧ m_elements h < 2 ^ 63 }.

Lemma mm_rehash_ok h M : mrep h M → ∃ h', mm_rehash m_posHash h = Ok h' ∧ mrep h' M.
Proof.
  intros [[d Hd] He [Ht Hb]]. unfold mm_rehash. destruct (rehash_ok m_posHash _ _ _ Hd Ht) as (t & d' & -> & Ht'). eexists. split; [done|].
  split; cbn; [by exists d'|done|]. by rewrite (hr_total _ _ _ _ Ht'), <- (hr_total _ _ _ _ Hd).
Qed.
Lemma mm_find_ok k h d M : hashed (m_table h) d (sorted_vals <$> M) →
  ∃ l it, let pos := Z.to_nat (m_posHash k mod h_size (m_table h)) in
    mm_find m_posHash k h = Ok (pos, l, it) ∧ d !! pos = Some l ∧ StronglySorted (λ a b : K * list V, key_before (a.1) (b.1)) l ∧
    match it with
    | None => M !! k = None ∧ ∀ v, (k, v) ∉ l
    | Some (i, vals) => ∃ l1 l2 X, l = l1 ++ (k, vals) :: l2 ∧ i = length l1 ∧ M !! k = Some X ∧ vals = sorted_vals X
    end.
Proof.
  intros Hd. destruct (hrep_bucket m_posHash _ _ _ k Hd) as (l & E & El & Hs). cbn zeta in *.
  pose proof (find_key_in_map m_posHash _ _ _ k l Hd El Hs) as Hf. unfold mm_find. rewrite E. cbn [obind]. exists l.
  destruct (find_key_in k l) as [i|].
  - destruct Hf as (l1 & vals & l2 & -> & -> & Hm). rewrite list_lookup_middle by done. eexists. split; [done|]. split; [done|]. split; [done|].
    cbn. rewrite lookup_fmap in Hm. destruct (M !! k) as [X|] eqn:EX; [|done]. injection Hm as <-. by exists l1, l2, X.
  - exists None. destruct Hf as [Hm Hn]. rewrite lookup_fmap in Hm. split_and!; try done. by destruct (M !! k).
Qed.
Lemma put_new k X h d M l : let pos := Z.to_nat (m_posHash k mod h_size (m_table h)) in
  mrep h M → hashed (m_table h) d (sorted_vals <$> M) → d !! pos = Some l → StronglySorted (λ a b : K * list V, key_before (a.1) (b.1)) l →
  M !! k = None → (∀ v, (k, v) ∉ l) → h_total (m_table h) + 1 < 2 ^ 31 → m_elements h + Z.of_nat (size X) < 2 ^ 63 →
  mrep (add_node pos l k (sorted_vals X) h) (<[k := X]> M).
Proof.
  intros pos [_ He [Ht Hb]] Hd El Hs Hk Hn Ht1 Hb1. pose proof (hr_total _ _ _ _ Hd) as Htot. split; cbn.
  - rewrite fmap_insert. eapply (hrep_add m_posHash); try done. by rewrite lookup_fmap, Hk.
  - rewrite sorted_vals_length, pairs_insert, wrap_small by (try done; lia). lia.
  - rewrite sorted_vals_length, !wrap_small by lia. lia.
Qed.
Lemma put_old k X Y e h d M l1 l2 : let pos := Z.to_nat (m_posHash k mod h_size (m_table h)) in
  mrep h M → hashed (m_table h) d (sorted_vals <$> M) → d !! pos = Some (l1 ++ (k, sorted_vals X) :: l2) →
  StronglySorted (λ a b : K * list V, key_before (a.1) (b.1)) (l1 ++ (k, sorted_vals X) :: l2) →
  M !! k = Some X → (size Y = size X + e)%nat → m_elements h + Z.of_nat e < 2 ^ 63 →
  mrep (set_vals pos (length l1) (l1 ++ (k, sorted_vals X) :: l2) k (sorted_vals Y) (Z.of_nat e) h) (<[k := Y]> M).
Proof.
  intros pos [_ He [Ht Hb]] Hd El Hs Hk HY Hb1. pose proof (hr_total _ _ _ _ Hd) as Htot. pose proof (pairs_change k X Y M Hk). split; cbn.
  - rewrite fmap_insert. destruct (hrep_replace m_posHash k (sorted_vals Y) _ d _ (length l1) l1 _ l2 Hd El Hs eq_refl) as [d' Hd'];
      [by rewrite lookup_fmap, Hk|]. exists d'. rewrite Z.add_0_r, wrap_small by lia. exact Hd'.
  - rewrite wrap_small by lia. lia.
  - rewrite Z.add_0_r, !wrap_small by lia. lia.
Qed.
Lemma put_drop k X h d M l1 l2 : let pos := Z.to_nat (m_posHash k mod h_size (m_table h)) in
  mrep h M → hashed (m_table h) d (sorted_vals <$> M) → d !! pos = Some (l1 ++ (k, sorted_vals X) :: l2) →
  StronglySorted (λ a b : K * list V, key_before (a.1) (b.1)) (l1 ++ (k, sorted_vals X) :: l2) → M !! k = Some X →
  mrep (update pos (drop_node (length l1) (l1 ++ (k, sorted_vals X) :: l2)) (-1) (- Z.of_nat (length (sorted_vals X))) h) (delete k M).
Proof.
  intros pos [_ He [Ht Hb]] Hd El Hs Hk. pose proof (hr_total _ _ _ _ Hd) as Htot. pose proof (pairs_delete k X M Hk).
  assert (0 < h_total (m_table h)).
  { rewrite Htot, map_size_fmap. assert (size M ≠ 0)%nat; [|lia]. intros E%map_size_empty_inv. subst. by rewrite lookup_empty in Hk. }
  split; cbn.
  - rewrite fmap_delete. eapply (hrep_drop m_posHash); try done. by rewrite lookup_fmap, Hk.
  - rewrite sorted_vals_length, wrap_small by lia. lia.
  - rewrite sorted_vals_length, !wrap_small by lia. lia.
Qed.

(** Each call on a map of sets. *)
Inductive mcall := MInsert (k : K) (v : V) | MInsertAll (k : K) (vs : list V) | MDel (k : K) | MExists (k : K) | MHas (k : K) (v : V) | MFind (k : K) (v : V) | MGet (k : K) | MRead (k : K) (v : list V).
Inductive mresult := MBool (b : bool) | MVal (v : option V) | MVals (vs : option (list V)) | MFilled (b : bool) (vs : list V).
Definition run_mcall (c : mcall) (h : HashMultimap) : outcome (mresult * HashMultimap) :=
  match c with
  | MInsert k v => obind (mm_insert m_posHash vltb k v h) (λ r, Ok (MBool (r.1), r.2))
  | MInsertAll k vs => obind (mm_insert_all m_posHash vltb k vs h) (λ r, Ok (MBool (r.1), r.2))
  | MDel k => obind (mm_del m_posHash k h) (λ r, Ok (MBool (r.1), r.2))
  | MExists k => obind (mm_exists m_posHash k h) (λ r, Ok (MBool r, h))
  | MHas k v => obind (mm_exists_value m_posHash vltb k v h) (λ r, Ok (MBool r, h))
  | MFind k v => obind (mm_get_value m_posHash vltb k v h) (λ r, Ok (MVal r, h))
  | MGet k => obind (mm_get m_posHash k h) (λ r, Ok (MVals r, h))
  | MRead k v => obind (mm_get_vector m_posHash k v h) (λ r, Ok (MFilled (r.1) (r.2), h))
  end.
Fixpoint run_mcalls (l : list mcall) (h : HashMultimap) : outcome (list mresult * HashMultimap) :=
  match l with
  | [] => Ok ([], h)
  | c :: l => obind (run_mcall c h) (λ r, obind (run_mcalls l (r.2)) (λ rs, Ok (r.1 :: rs.1, rs.2)))
  end.
Definition values_of (k : K) (M : gmap K (gset V)) : gset V := default ∅ (M !! k).
Definition spec_mcall (c : mcall) (M : gmap K (gset V)) : mresult * gmap K (gset V) :=
  match c with
  | MInsert k v => (MBool true, <[k := {[v]} ∪ values_of k M]> M)
  | MInsertAll k vs => (MBool true, <[k := list_to_set vs ∪ values_of k M]> M)
  | MDel k => (MBool (bool_decide (is_Some (M !! k))), delete k M)
  | MExists k => (MBool (bool_decide (is_Some (M !! k))), M)
  | MHas k v => (MBool (bool_decide (v ∈ values_of k M)), M)
  | MFind k v => (MVal (if decide (v ∈ values_of k M) then Some v else None), M)
  | MGet k => (MVals (sorted_vals <$> M !! k), M)
  | MRead k v => (match M !! k with Some X => MFilled true (sorted_vals X) | None => MFilled false v end, M)
  end.
Fixpoint spec_mcalls (l : list mcall) (M : gmap K (gset V)) : list mresult * gmap K (gset V) :=
  match l with
  | [] => ([], M)
  | c :: l => let '(r, M) := spec_mcall c M in let '(rs, M) := spec_mcalls l M in (r :: rs, M)
  end.
(** How much a call can add; and what its values must be. *)
Definition adds (c : mcall) : nat := match c with MInsertAll _ vs => 1 + length vs | _ => 1 end.
Definition distinct (c : mcall) : Prop := match c with MInsertAll _ vs => NoDup vs | _ => True end.

Lemma mm_search_ok k v h M : mrep h M →
  mm_exists_value m_posHash vltb k v h = Ok (bool_decide (v ∈ values_of k M)) ∧
  mm_get_value m_posHash vltb k v h = Ok (if decide (v ∈ values_of k M) then Some v else None).
Proof.
  intros [[d Hd] _ _]. destruct (mm_find_ok k h d M Hd) as (l & it & E & _ & _ & Hit). unfold mm_exists_value, mm_get_value, values_of.
  rewrite E. cbn [obind snd]. destruct it as [[i vals]|].
  - destruct Hit as (l1 & l2 & X & _ & _ & -> & ->). cbn [default from_option]. pose proof (search_set v X) as Hv.
    destruct (BinarySearch key_ltb v (sorted_vals X)) as [j|].
    + destruct Hv as [-> Hv]. rewrite bool_decide_true, decide_True by done. by rewrite bool_decide_true by done.
    + rewrite bool_decide_false by (by intros []). by rewrite bool_decide_false, decide_False by done.
  - destruct Hit as [-> _]. by rewrite bool_decide_false, decide_False by (apply not_elem_of_empty).
Qed.
Lemma mm_insert_ok k v h M : mrep h M → h_total (m_table h) + 1 < 2 ^ 31 → m_elements h + 1 < 2 ^ 63 →
  ∃ h', mm_insert m_posHash vltb k v h = Ok (true, h') ∧ mrep h' (<[k := {[v]} ∪ values_of k M]> M).
Proof.
  intros Hm Ht Hb. destruct (mm_rehash_ok h M Hm) as (h1 & E1 & Hm1). unfold mm_insert. rewrite E1. cbn [obind].
  pose proof Hm as [[d0 Hd0] He _]. pose proof Hm1 as [[d Hd] He1 _]. pose proof (hr_total _ _ _ _ Hd0). pose proof (hr_total _ _ _ _ Hd).
  destruct (mm_find_ok k h1 d M Hd) as (l & it & E & El & Hs & Hit). cbn zeta in *. rewrite E. cbn [obind]. unfold values_of. destruct it as [[i vals]|].
  - destruct Hit as (l1 & l2 & X & -> & -> & Hk & ->). rewrite Hk. cbn [default from_option]. pose proof (search_set v X) as Hv.
    destruct (BinarySearch vltb v (sorted_vals X)) as [j|]; eexists; (split; [done|]).
    + destruct Hv as [Hj Hv]. rewrite list_insert_id by done. replace ({[v]} ∪ X) with X by set_solver.
      eapply (put_old k X X 0); try done; lia.
    + rewrite (SortLast_add v X Hv). eapply (put_old k X ({[v]} ∪ X) 1); try done; [|lia]. rewrite size_union, size_singleton by set_solver. lia.
  - destruct Hit as [Hk Hn]. rewrite Hk. eexists. split; [done|]. replace ({[v]} ∪ default ∅ None) with ({[v]} : gset V) by set_solver.
    replace [v] with (sorted_vals {[v]}) by (symmetry; apply sorted_vals_unique; [repeat constructor|apply NoDup_singleton|set_solver]).
    eapply put_new; try done; [lia|]. rewrite size_singleton. lia.
Qed.
Lemma mm_insert_all_ok k vs h M : mrep h M → NoDup vs → h_total (m_table h) + 1 < 2 ^ 31 → m_elements h + Z.of_nat (length vs) < 2 ^ 63 →
  ∃ h', mm_insert_all m_posHash vltb k vs h = Ok (true, h') ∧ mrep h' (<[k := list_to_set vs ∪ values_of k M]> M).
Proof.
  intros Hm Hnd Ht Hb. destruct (mm_rehash_ok h M Hm) as (h1 & E1 & Hm1). unfold mm_insert_all. rewrite E1. cbn [obind].
  pose proof Hm as [[d0 Hd0] He _]. pose proof Hm1 as [[d Hd] He1 _]. pose proof (hr_total _ _ _ _ Hd0). pose proof (hr_total _ _ _ _ Hd).
  destruct (mm_find_ok k h1 d M Hd) as (l & it & E & El & Hs & Hit). cbn zeta in *. rewrite E. cbn [obind]. unfold values_of. destruct it as [[i vals]|].
  - destruct Hit as (l1 & l2 & X & -> & -> & Hk & ->). rewrite Hk. cbn [default from_option].
    destruct (merge_vals_ok vs X [] ltac:(constructor) ltac:(constructor)) as (news & -> & Hn & Hx). eexists. split; [done|].
    destruct (sorted_vals_ok X) as (S1 & S2 & S3). set (Y := list_to_set vs ∪ X : gset V).
    assert (NoDup (sorted_vals X ++ news)) as Hnn.
    { apply NoDup_app. split_and!; [done| |done]. intros y Hy%S3 [?%elem_of_nil|[_ ?]]%Hx; done. }
    assert (vals_sort vltb (sorted_vals X ++ news) = sorted_vals Y) as HY.
    { apply vals_sort_unique; [done|]. intros y. rewrite elem_of_app, S3, Hx, elem_of_nil. subst Y. rewrite elem_of_union, elem_of_list_to_set.
      destruct (decide (y ∈ X)); tauto. }
    assert (size Y = size X + length news)%nat as Hsz.
    { rewrite <- (sorted_vals_length Y), <- HY, <- (sorted_vals_length X), <- length_app. apply Permutation_length, vals_sort_ok. }
    assert (length news ≤ length vs)%nat.
    { apply submseteq_length, NoDup_submseteq; [done|]. intros y [?%elem_of_nil|[? _]]%Hx; done. }
    rewrite HY. eapply (put_old k X Y); try done. lia.
  - destruct Hit as [Hk Hn]. rewrite Hk. eexists. split; [done|]. cbn [default from_option].
    rewrite (vals_sort_unique vs (list_to_set vs ∪ ∅)) by (try done; set_solver).
    eapply put_new; try done; [lia|]. rewrite union_empty_r_L, size_list_to_set by done. lia.
Qed.
Lemma mm_del_ok k h M : mrep h M → ∃ h', mm_del m_posHash k h = Ok (bool_decide (is_Some (M !! k)), h') ∧ mrep h' (delete k M).
Proof.
  intros Hm. pose proof Hm as [[d Hd] _ _]. unfold mm_del.
  destruct (mm_find_ok k h d M Hd) as (l & it & E & El & Hs & Hit). cbn zeta in *. rewrite E. cbn [obind]. destruct it as [[i vals]|].
  - destruct Hit as (l1 & l2 & X & -> & -> & Hk & ->). rewrite bool_decide_true by (rewrite Hk; done). eexists. split; [done|]. by eapply put_drop.
  - destruct Hit as [Hk Hn]. rewrite bool_decide_false by (rewrite Hk; by intros []). exists h. split; [done|]. by rewrite delete_id.
Qed.

(** What a call adds. *)
Lemma values_insert_adds k Y M : (size (values_of k M) ≤ size Y)%nat →
  (size (<[k := Y]> M) ≤ size M + 1 ∧ pairs (<[k := Y]> M) + size (values_of k M) = pairs M + size Y)%nat.
Proof.
  unfold values_of. intros HY. rewrite map_size_insert. destruct (M !! k) as [X|] eqn:Hk; cbn [default from_option] in *; unfold id in *.
  - pose proof (pairs_change k X Y M Hk). lia.
  - rewrite (pairs_insert k Y M Hk), size_empty. lia.
Qed.
Lemma list_set_size (vs : list V) : (size (list_to_set vs : gset V) ≤ length vs)%nat.
Proof.
  induction vs as [|v vs IH]; cbn [list_to_set foldr length]; [by rewrite size_empty|].
  pose proof (size_union_alt ({[v]} : gset V) (list_to_set vs)) as Hu. rewrite size_singleton in Hu.
  pose proof (subseteq_size (list_to_set vs ∖ {[v]} : gset V) (list_to_set vs) ltac:(set_solver)). lia.
Qed.
Lemma spec_adds c M : (size (spec_mcall c M).2 ≤ size M + adds c ∧ pairs (spec_mcall c M).2 ≤ pairs M + adds c)%nat.
Proof using Type*.
  destruct c as [k v|k vs|k|k|k v|k v|k|k v]; cbn [spec_mcall snd adds]; try lia.
  - destruct (values_insert_adds k ({[v]} ∪ values_of k M) M) as [H1' H2']; [apply subseteq_size; set_solver|].
    pose proof (size_union_alt ({[v]} : gset V) (values_of k M)) as Hu. rewrite size_singleton in Hu.
    pose proof (subseteq_size (values_of k M ∖ {[v]}) (values_of k M) ltac:(set_solver)). lia.
  - destruct (values_insert_adds k (list_to_set vs ∪ values_of k M) M) as [H1' H2']; [apply subseteq_size; set_solver|].
    pose proof (size_union_alt (list_to_set vs : gset V) (values_of k M)) as Hu.
    pose proof (subseteq_size (values_of k M ∖ list_to_set vs) (values_of k M) ltac:(set_solver)).
    pose proof (list_set_size vs). lia.
  - rewrite map_size_delete. destruct (M !! k) as [X|] eqn:Hk; cbn; [rewrite (pairs_delete k X M Hk)|rewrite delete_id by done]; unfold id; lia.
Qed.
Lemma run_mcall_ok c h M : mrep h M → distinct c → Z.of_nat (size M + adds c) < 2 ^ 31 → Z.of_nat (pairs M + adds c) < 2 ^ 63 →
  ∃ h', run_mcall c h = Ok ((spec_mcall c M).1, h') ∧ mrep h' (spec_mcall c M).2.
Proof.
  intros Hm Hc Ht Hb. pose proof Hm as [[d Hd] He _]. pose proof (hr_total _ _ _ _ Hd) as Htot. rewrite map_size_fmap in Htot.
  destruct c as [k v|k vs|k|k|k v|k v|k|k v]; cbn [run_mcall spec_mcall fst snd adds distinct] in *.
  - destruct (mm_insert_ok k v h M Hm) as (h' & -> & Hm'); [lia|lia|]. by exists h'.
  - destruct (mm_insert_all_ok k vs h M Hm Hc) as (h' & -> & Hm'); [lia|lia|]. by exists h'.
  - destruct (mm_del_ok k h M Hm) as (h' & -> & Hm'). by exists h'.
  - destruct (mm_find_ok k h d M Hd) as (l & it & E & _ & _ & Hit). exists h. split; [|done]. unfold mm_exists. rewrite E. cbn [obind snd].
    destruct it as [[i vals]|]; [destruct Hit as (_ & _ & X & _ & _ & -> & _)|destruct Hit as [-> _]].
    + by rewrite !bool_decide_true by done.
    + by rewrite !bool_decide_false by by intros [].
  - destruct (mm_search_ok k v h M Hm) as [-> _]. by exists h.
  - destruct (mm_search_ok k v h M Hm) as [_ ->]. by exists h.
  - destruct (mm_find_ok k h d M Hd) as (l & it & E & _ & _ & Hit). exists h. split; [|done]. unfold mm_get. rewrite E. cbn [obind snd].
    destruct it as [[i vals]|]; [destruct Hit as (_ & _ & X & _ & _ & -> & ->)|destruct Hit as [-> _]]; done.
  - destruct (mm_find_ok k h d M Hd) as (l & it & E & _ & _ & Hit). exists h. split; [|done]. unfold mm_get_vector. rewrite E. cbn [obind snd].
    destruct it as [[i vals]|]; [destruct Hit as (_ & _ & X & _ & _ & -> & ->)|destruct Hit as [-> _]]; done.
Qed.
Lemma run_mcalls_ok l : ∀ h M, mrep h M → Forall distinct l →
  Z.of_nat (size M + sum_list (adds <$> l)) < 2 ^ 31 → Z.of_nat (pairs M + sum_list (adds <$> l)) < 2 ^ 63 →
  ∃ h', run_mcalls l h = Ok ((spec_mcalls l M).1, h') ∧ mrep h' (spec_mcalls l M).2.
Proof.
  induction l as [|c l IH]; intros h M Hm Hd Ht Hb; cbn [run_mcalls spec_mcalls] in *; [by exists h|].
  apply Forall_cons in Hd as [Hc Hd]. change (sum_list (adds <$> c :: l)) with (adds c + sum_list (adds <$> l))%nat in Ht, Hb.
  destruct (run_mcall_ok c h M Hm Hc) as (h1 & -> & Hm1); [lia|lia|]. cbn [obind fst snd].
  destruct (spec_adds c M) as [A1 A2]. destruct (spec_mcall c M) as [r M1]. cbn [fst snd] in *.
  destruct (IH h1 M1 Hm1 Hd) as (h' & -> & Hm'); [lia|lia|]. exists h'. by destruct (spec_mcalls l M1).
Qed.

(** Whatever the hash function, a [HashMultimap] made for at least one key answers
    every sequence of calls as a map from keys to sets of values does, across rehashing:
    [insert] of a value or of distinct values, [del] of a key, [exists], and [get], which
    gives the values of a key in order.  [getTotal] is the number of keys, [getElements]
    that of the pairs, and [rforeach] visits every key once. *)
Theorem multimap_refines (l : list mcall) (n : Z) :
  0 < n < 2 ^ 31 → Forall distinct l → Z.of_nat (sum_list (adds <$> l)) < 2 ^ 31 →
  ∃ h h' ns, let M := (spec_mcalls l ∅).2 in
    new_HashMultimap n = Ok h ∧ run_mcalls l h = Ok ((spec_mcalls l ∅).1, h') ∧
    getTotal h' = Z.of_nat (size M) ∧ getElements h' = Z.of_nat (pairs M) ∧
    mm_foreach (λ k vs tmp, (true, tmp ++ [(k, vs)])) h' [] = Ok ns ∧ ns ≡ₚ map_to_list (sorted_vals <$> M).
Proof.
  intros Hn Hd Hl. destruct (new_hrep (V := list V) m_posHash n Hn) as (t & d & E & Ht). unfold new_HashMultimap. rewrite E. cbn [obind].
  pose proof (hr_total _ _ _ _ Ht) as Ht0. rewrite map_size_empty in Ht0.
  assert (mrep (mkMultimap t 0) ∅) as Hm by (split; cbn; [exists d; by rewrite fmap_empty|done|lia]).
  destruct (run_mcalls_ok l _ ∅ Hm Hd) as (h' & E' & Hm').
  { by rewrite map_size_empty. }
  { unfold pairs. rewrite map_fold_empty. lia. }
  destruct Hm' as [[d' Hd'] He' _]. eexists _, h', (concat d'). cbn zeta. split; [done|]. split; [done|]. split.
  { unfold getTotal. by rewrite (hr_total _ _ _ _ Hd'), map_size_fmap. }
  split; [done|]. split; [|by eapply concat_map]. unfold mm_foreach. by rewrite (rforeach_ok _ _ _ _ _ _ Hd'), call_nodes_push.
Qed.

(** [set] of a key that is there: the values are the new ones, but [getElements] counts
    the old ones too. *)
Lemma set_keeps_counting k vs X h M : mrep h M → NoDup vs → M !! k = Some X → m_elements h + Z.of_nat (length vs) < 2 ^ 63 →
  ∃ h', mm_set m_posHash vltb k vs h = Ok (true, h') ∧ (∃ d, hashed (m_table h') d (sorted_vals <$> <[k := list_to_set vs]> M)) ∧
    getElements h' = Z.of_nat (pairs (<[k := list_to_set vs]> M) + size X).
Proof.
  intros Hm Hnd Hk Hb. destruct (mm_rehash_ok h M Hm) as (h1 & E1 & Hm1). unfold mm_set. rewrite E1. cbn [obind].
  pose proof Hm as [_ He _]. pose proof Hm1 as [[d Hd] He1 [Ht1 _]]. pose proof (hr_total _ _ _ _ Hd).
  destruct (mm_find_ok k h1 d M Hd) as (l & it & E & El & Hs & Hit). cbn zeta in *. rewrite E. cbn [obind].
  destruct it as [[i vals]|]; [|destruct Hit as [? _]; congruence]. destruct Hit as (l1 & l2 & Y & -> & -> & Hk' & ->).
  assert (Y = X) as -> by congruence. eexists. split; [done|]. split.
  - cbn. rewrite (vals_sort_unique vs (list_to_set vs)) by (try done; set_solver). rewrite fmap_insert, Z.add_0_r, wrap_small by lia.
    destruct (hrep_replace m_posHash k (sorted_vals (list_to_set vs)) _ d _ (length l1) l1 _ l2 Hd El Hs eq_refl) as [d' Hd'];
      [by rewrite lookup_fmap, Hk|]. by exists d'.
  - pose proof (pairs_change k X (list_to_set vs) M Hk) as Hp. rewrite size_list_to_set in Hp by done. unfold getElements. cbn.
    rewrite wrap_small by lia. lia.
Qed.
End refinement.

(** ** Runs *)
(** Values that are given twice for a new key are kept twice. *)
Example duplicates_kept :
  obind (new_HashMultimap 4) (λ h, obind (mm_insert_all (λ k : Z, k) Z.ltb 1 [3; 2; 3] h) (λ r,
    obind (mm_get (λ k : Z, k) 1 (r.2)) (λ vs, Ok (vs, getElements (r.2))))) = Ok (Some [2; 3; 3], 3).
Proof. vm_compute. done. Qed.
Definition sample_mcalls : list (mcall (K := Z) (V := Z)) :=
  [MInsert 5 50; MInsertAll 3 [9; 7]; MInsert 5 40; MInsertAll 3 [8; 9]; MGet 3; MHas 5 40; MDel 5; MGet 5; MFind 3 7; MRead 3 []].
Lemma multimap_refines_witness :
  ∃ h h' ns, let M := (spec_mcalls sample_mcalls ∅).2 in
    new_HashMultimap 1 = Ok h ∧ run_mcalls (λ k : Z, k) sample_mcalls h = Ok ((spec_mcalls sample_mcalls ∅).1, h') ∧
    getTotal h' = Z.of_nat (size M) ∧ getElements h' = Z.of_nat (pairs M) ∧
    mm_foreach (λ k vs tmp, (true, tmp ++ [(k, vs)])) h' [] = Ok ns ∧ ns ≡ₚ map_to_list (sorted_vals <$> M).
Proof.
  apply (multimap_refines (λ k : Z, k) sample_mcalls 1); [lia| |cbn; lia].
  repeat (apply Forall_cons_2; [cbn; first [exact I|apply (bool_decide_unpack (NoDup _)); vm_compute; exact I]|]). apply Forall_nil_2.
Defined.
