(* ===== verification/Fiber.v ===== *)
(** * Fibers (fiber.cc)

    The state of a fiber and what the switching functions do to it.  The saved
    machine context is not modelled: that a fiber that was swapped in continues
    where it swapped out is what [Running] means in [Scheduler]. *)
From S2P Require Import Prelude.

(** [Fiber::State] *)
Inductive State := INIT | HOLD | EXEC | TERM | READY | EXCEPT.
#[export] Instance State_eq_dec : EqDecision State.
Proof. solve_decision. Defined.

(** [m_state] and the name of the callback in [m_cb], if there is one. *)
Record Fiber := mkFiber { m_state : State; m_cb : option nat }.
Definition set_state (x : State) (f : Fiber) : Fiber := mkFiber x (m_cb f).

(** [Fiber(cb)] *)
Definition new_Fiber (cb : option nat) : Fiber := mkFiber INIT cb.

Definition assert_in (f : Fiber) (ok : list State) : outcome unit :=
  if bool_decide (m_state f ∈ ok) then Ok tt else Undef AssertFail.

(** A fiber that may be given another callback. *)
Definition finished (x : State) : bool := bool_decide (x = TERM ∨ x = EXCEPT).

Definition reset (cb : option nat) (f : Fiber) : outcome Fiber :=
  obind (assert_in f [TERM; EXCEPT; INIT]) (λ _, Ok (mkFiber INIT cb)).

(** [swapIn]: the assertion, then the fiber runs. *)
Definition swapIn (f : Fiber) : outcome Fiber :=
  if bool_decide (m_state f = EXEC) then Undef AssertFail else Ok (set_state EXEC f).

(** What [YieldToReady] and [YieldToHold] do before they swap out. *)
Definition YieldToReady (f : Fiber) : outcome Fiber :=
  obind (assert_in f [EXEC]) (λ _, Ok (set_state READY f)).
Definition YieldToHold (f : Fiber) : outcome Fiber :=
  obind (assert_in f [EXEC]) (λ _, Ok f).

(** The end of [MainFunc]: the callback returned ([ok]), or threw. *)
Definition MainFunc_end (ok : bool) (f : Fiber) : Fiber :=
  if ok then mkFiber TERM None else set_state EXCEPT f.

(** [~Fiber] of a fiber with a stack. *)
Definition destroy_Fiber (f : Fiber) : outcome unit := assert_in f [TERM; EXCEPT; INIT].
