(* ===== verification/Scheduler.v ===== *)
(** * The fiber scheduler (scheduler.cc, scheduler.h)

    [Scheduler::run] as the program of each worker thread, cut into steps at
    every access to state the workers share: the critical section under
    [m_mutex] is one step, each access to the atomic counters or to a fiber's
    state is another.  What the code of the fibers themselves does (schedule
    something, yield, return, throw) are steps as well, chosen by the label. *)
From S2P Require Import Prelude Fiber.

(** ** Data *)
(** [Scheduler::FiberAndThread]; the thread is [-1] for any. *)
Record FiberAndThread := mkFT { ft_fiber : option nat; ft_cb : option nat; ft_thread : Z }.
Definition fiber_task (f : nat) (thr : Z) : FiberAndThread := mkFT (Some f) None thr.
Definition cb_task (c : nat) (thr : Z) : FiberAndThread := mkFT None (Some c) thr.

(** Where a worker is in [run].  [cb] is the callback the worker's own [cb_fiber]
    runs, and [None] for a fiber that was scheduled. *)
Inductive pc :=
| Fetching                                  (* before the critical section *)
| Picked (ft : option FiberAndThread) (tickle_me : bool)  (* after it *)
| Entering (f : nat) (cb : option nat)            (* about to call swapIn *)
| Running (f : nat) (cb : option nat)             (* inside the fiber *)
| Leaving (f : nat) (cb : option nat)             (* its state is set, about to swapOut *)
| Out (f : nat) (cb : option nat)                 (* back in run, before --m_activeThreadCount *)
| Post (f : nat) (cb : option nat)                (* after it, before looking at the state *)
| Idling                                    (* inside the idle fiber *)
| IdleOut                                   (* back from it *)
| Stopped.                                  (* run has returned *)

#[export] Instance FiberAndThread_eq_dec : EqDecision FiberAndThread.
Proof. solve_decision. Defined.
#[export] Instance pc_eq_dec : EqDecision pc.
Proof. solve_decision. Defined.

Record worker := mkWorker { w_pc : pc; cb_fiber : option nat; idle_fiber : State }.
Definition new_worker : worker := mkWorker Fetching None INIT.
Definition at_pc (p : pc) (w : worker) : worker := mkWorker p (cb_fiber w) (idle_fiber w).

(** [tickles] counts the calls of the virtual [tickle]. *)
Record Scheduler := mkScheduler {
  fibers : gmap nat Fiber;
  m_fibers : list FiberAndThread;
  m_activeThreadCount : Z;
  m_idleThreadCount : Z;
  m_stopping : bool;
  m_autoStop : bool;
  workers : gmap Z worker;
  tickles : nat }.

Definition new_Scheduler : Scheduler := mkScheduler ∅ [] 0 0 true false ∅ 0.

Definition with_fibers x s := mkScheduler x (m_fibers s) (m_activeThreadCount s) (m_idleThreadCount s)
  (m_stopping s) (m_autoStop s) (workers s) (tickles s).
Definition with_queue x s := mkScheduler (fibers s) x (m_activeThreadCount s) (m_idleThreadCount s)
  (m_stopping s) (m_autoStop s) (workers s) (tickles s).
Definition with_active x s := mkScheduler (fibers s) (m_fibers s) x (m_idleThreadCount s)
  (m_stopping s) (m_autoStop s) (workers s) (tickles s).
Definition with_idle x s := mkScheduler (fibers s) (m_fibers s) (m_activeThreadCount s) x
  (m_stopping s) (m_autoStop s) (workers s) (tickles s).
Definition with_flags stopping autoStop s := mkScheduler (fibers s) (m_fibers s) (m_activeThreadCount s)
  (m_idleThreadCount s) stopping autoStop (workers s) (tickles s).
Definition with_worker t w s := mkScheduler (fibers s) (m_fibers s) (m_activeThreadCount s)
  (m_idleThreadCount s) (m_stopping s) (m_autoStop s) (<[t := w]> (workers s)) (tickles s).
Definition tickle s := mkScheduler (fibers s) (m_fibers s) (m_activeThreadCount s)
  (m_idleThreadCount s) (m_stopping s) (m_autoStop s) (workers s) (S (tickles s)).

(** ** Scheduling *)
(** [scheduleNoLock]: an empty task is dropped; the answer is whether the
    queue was empty. *)
Definition scheduleNoLock (ft : FiberAndThread) (s : Scheduler) : bool * Scheduler :=
  (bool_decide (m_fibers s = []),
   match ft_fiber ft, ft_cb ft with
   | None, None => s
   | _, _ => with_queue (m_fibers s ++ [ft]) s
   end).
Definition schedule (ft : FiberAndThread) (s : Scheduler) : Scheduler :=
  let (need_tickle, s) := scheduleNoLock ft s in if need_tickle then tickle s else s.

(** The overload for a range; [need_tickle = scheduleNoLock(...) || need_tickle]. *)
Fixpoint schedule_loop (fts : list FiberAndThread) (need_tickle : bool) (s : Scheduler) : bool * Scheduler :=
  match fts with
  | [] => (need_tickle, s)
  | ft :: fts => let (b, s) := scheduleNoLock ft s in schedule_loop fts (b || need_tickle) s
  end.
Definition schedule_all (fts : list FiberAndThread) (s : Scheduler) : Scheduler :=
  let (need_tickle, s) := schedule_loop fts false s in if need_tickle then tickle s else s.

Definition get_fiber (s : Scheduler) (f : nat) : outcome Fiber := of_option NullDeref (fibers s !! f).

(** The loop of the critical section of [run] on thread [tid]: whether to
    tickle, the task found, and the queue without it. *)
Fixpoint scan (s : Scheduler) (tid : Z) (l : list FiberAndThread)
    : outcome (bool * option FiberAndThread * list FiberAndThread) :=
  match l with
  | [] => Ok (false, None, [])
  | it :: rest =>
    let skip tickle_me :=
      obind (scan s tid rest) (λ '(t, r, rest), Ok (tickle_me || t, r, it :: rest)) in
    if negb (ft_thread it =? -1) && negb (ft_thread it =? tid) then skip true
    else match ft_fiber it, ft_cb it with
         | None, None => Undef AssertFail
         | Some f, _ =>
           obind (get_fiber s f) (λ x,
           if bool_decide (m_state x = EXEC) then skip false
           else Ok (negb (bool_decide (rest = [])), Some it, rest))
         | None, Some _ => Ok (negb (bool_decide (rest = [])), Some it, rest)
         end
  end.

(** [Scheduler::stopping] *)
Definition stopping (s : Scheduler) : bool :=
  m_autoStop s && m_stopping s && bool_decide (m_fibers s = []) && (m_activeThreadCount s =? 0).

(** The address of a fiber about to be made: one not in use. *)
Definition new_address (m : gmap nat Fiber) : nat := map_fold (λ f _ n, Nat.max (S f) n) 0%nat m.

(** ** The steps of [run] on thread [t] *)
Definition fetch (t : Z) (w : worker) (s : Scheduler) : outcome Scheduler :=
  obind (scan s t (m_fibers s)) (λ '(tickle_me, r, rest),
  let s := match r with
           | Some _ => with_active (m_activeThreadCount s + 1) (with_queue rest s)
           | None => s
           end in
  Ok (with_worker t (at_pc (Picked r tickle_me) w) s)).

(** Choosing the branch: a fiber to resume, a callback to run in [cb_fiber],
    a task whose fiber has ended, or the idle fiber. *)
Definition dispatch_cb (t : Z) (w : worker) (c : nat) (s : Scheduler) : outcome Scheduler :=
  match cb_fiber w with
  | Some f =>
    obind (get_fiber s f) (λ x, obind (reset (Some c) x) (λ x,
    Ok (with_worker t (at_pc (Entering f (Some c)) w) (with_fibers (<[f := x]> (fibers s)) s))))
  | None =>
    let f := new_address (fibers s) in
    Ok (with_worker t (mkWorker (Entering f (Some c)) (Some f) (idle_fiber w))
          (with_fibers (<[f := new_Fiber (Some c)]> (fibers s)) s))
  end.
Definition dispatch_other (t : Z) (w : worker) (is_active : bool) (s : Scheduler) : outcome Scheduler :=
  if is_active then Ok (with_worker t (at_pc Fetching w) (with_active (m_activeThreadCount s - 1) s))
  else if bool_decide (idle_fiber w = TERM) then Ok (with_worker t (at_pc Stopped w) s)
  else if bool_decide (idle_fiber w = EXEC) then Undef AssertFail
  else Ok (with_worker t (mkWorker Idling (cb_fiber w) EXEC) (with_idle (m_idleThreadCount s + 1) s)).
Definition dispatch (t : Z) (w : worker) (ft : option FiberAndThread) (tickle_me : bool) (s : Scheduler)
    : outcome Scheduler :=
  let s := if tickle_me then tickle s else s in
  match ft with
  | None => dispatch_other t w false s
  | Some ft =>
    let other := match ft_cb ft with
                 | Some c => dispatch_cb t w c s
                 | None => dispatch_other t w true s
                 end in
    match ft_fiber ft with
    | Some f =>
      obind (get_fiber s f) (λ x,
      if negb (finished (m_state x)) then Ok (with_worker t (at_pc (Entering f None) w) s) else other)
    | None => other
    end
  end.

(** [swapIn] into fiber [f]. *)
Definition enter (t : Z) (w : worker) (f : nat) (cb : option nat) (s : Scheduler) : outcome Scheduler :=
  obind (get_fiber s f) (λ x, obind (swapIn x) (λ x,
  Ok (with_worker t (at_pc (Running f cb) w) (with_fibers (<[f := x]> (fibers s)) s)))).

(** After [swapIn] returned and the count went down. *)
Definition settle (t : Z) (w : worker) (f : nat) (cb : option nat) (s : Scheduler) : outcome Scheduler :=
  obind (get_fiber s f) (λ x,
  match m_state x with
  | READY =>
    Ok (with_worker t (mkWorker Fetching (if cb is Some _ then None else cb_fiber w) (idle_fiber w))
          (schedule (fiber_task f (-1)) s))
  | TERM | EXCEPT =>
    if cb is Some _ then
      obind (reset None x) (λ x,
      Ok (with_worker t (at_pc Fetching w) (with_fibers (<[f := x]> (fibers s)) s)))
    else Ok (with_worker t (at_pc Fetching w) s)
  | _ =>
    Ok (with_worker t (mkWorker Fetching (if cb is Some _ then None else cb_fiber w) (idle_fiber w))
          (with_fibers (<[f := set_state HOLD x]> (fibers s)) s))
  end).

(** One round of the idle fiber: [while(!stopping()) YieldToHold();]. *)
Definition idle (t : Z) (w : worker) (s : Scheduler) : outcome Scheduler :=
  Ok (with_worker t (mkWorker IdleOut (cb_fiber w) (if stopping s then TERM else EXEC)) s).
Definition idle_out (t : Z) (w : worker) (s : Scheduler) : outcome Scheduler :=
  Ok (with_worker t (mkWorker Fetching (cb_fiber w) (if finished (idle_fiber w) then idle_fiber w else HOLD))
        (with_idle (m_idleThreadCount s - 1) s)).

(** What a worker does next when it is not inside a fiber's own code. *)
Definition run_step (t : Z) (w : worker) (s : Scheduler) : option (outcome Scheduler) :=
  match w_pc w with
  | Fetching => Some (fetch t w s)
  | Picked ft tickle_me => Some (dispatch t w ft tickle_me s)
  | Entering f cb => Some (enter t w f cb s)
  | Running _ _ | Stopped => None
  | Leaving f cb => Some (Ok (with_worker t (at_pc (Out f cb) w) s))
  | Out f cb => Some (Ok (with_worker t (at_pc (Post f cb) w) (with_active (m_activeThreadCount s - 1) s)))
  | Post f cb => Some (settle t w f cb s)
  | Idling => Some (idle t w s)
  | IdleOut => Some (idle_out t w s)
  end.

(** What the code of the fiber running on a thread can do to the scheduler. *)
Inductive action := YieldReady | YieldHold | Return | Raise.
Definition act (a : action) (t : Z) (w : worker) (s : Scheduler) : option (outcome Scheduler) :=
  match w_pc w with
  | Running f cb =>
    Some (obind (get_fiber s f) (λ x,
      let leave (p : pc) (x : Fiber) := Ok (with_worker t (at_pc p w) (with_fibers (<[f := x]> (fibers s)) s)) in
      match a with
      | YieldReady => obind (YieldToReady x) (leave (Leaving f cb))
      | YieldHold => obind (YieldToHold x) (leave (Out f cb))
      | Return => leave (Leaving f cb) (MainFunc_end true x)
      | Raise => leave (Leaving f cb) (MainFunc_end false x)
      end))
  | _ => None
  end.

(** [start] for the threads [ts] it creates (a thread that has been joined is no
    longer a worker); [stop], with the tickles of its [n] threads, up to the
    joins; [join], which waits for every worker to return. *)
Definition start (ts : list Z) (s : Scheduler) : outcome Scheduler :=
  if negb (m_stopping s) then Ok s
  else if negb (bool_decide (workers s = ∅)) then Undef AssertFail
  else Ok (foldr (λ t s, with_worker t new_worker s) (with_flags false (m_autoStop s) s) ts).
Definition stop (n : nat) (s : Scheduler) : Scheduler := Nat.iter n tickle (with_flags true true s).
Definition join (s : Scheduler) : option Scheduler :=
  if forallb (λ tw, match w_pc (tw.2) with Stopped => true | _ => false end) (map_to_list (workers s)) then
    Some (mkScheduler (fibers s) (m_fibers s) (m_activeThreadCount s) (m_idleThreadCount s)
            (m_stopping s) (m_autoStop s) ∅ (tickles s))
  else None.
