(* ===== verification/SchedulerSpec.v ===== *)
(** * The scheduler under the hand-over discipline

    Fibers are shared with code outside the scheduler: an event context or a
    timer keeps a pointer to a suspended fiber and schedules it later.  Here
    [held] is the set of the fibers whose wake-up is in such hands.  A fiber
    may hand out its wake-up once while it runs ([Arm]), and may return, throw
    or yield as READY only when nobody holds it.  Under this discipline the
    interleaved steps of all workers keep the invariant below. *)
From S2P Require Import Prelude Fiber Scheduler.

#[export] Instance action_eq_dec : EqDecision action.
Proof. solve_decision. Defined.

Record world := mkWorld { sys : Scheduler; held : gset nat }.
Definition with_sys s W := mkWorld s (held W).

Inductive label :=
| Run (t : Z)                       (* a step of run on thread t *)
| Act (a : action) (t : Z)          (* the fiber running on t yields or ends *)
| Arm (t : Z)                       (* it hands out its own wake-up *)
| Wake (f : nat) (thr : Z)          (* whoever holds f schedules it *)
| Forget (f : nat)                  (* or drops it *)
| Spawn (c : nat)                   (* a new fiber for callback c, held by its maker *)
| Post_cb (c : nat) (thr : Z)       (* a callback is scheduled *)
| Ask_stop (n : nat).

Definition queue_fibers (s : Scheduler) : list nat := omap ft_fiber (m_fibers s).
Definition awaited (s : Scheduler) (hd : gset nat) (f : nat) : Prop := f ∈ queue_fibers s ∨ f ∈ hd.
#[export] Instance awaited_dec s hd f : Decision (awaited s hd f).
Proof. unfold awaited. apply _. Defined.

Definition running (w : worker) : option nat :=
  match w_pc w with Running f _ => Some f | _ => None end.

Definition on_sys (W : world) (o : outcome Scheduler) : outcome world := obind o (λ s, Ok (with_sys s W)).

(** The steps the discipline allows; [None] when the label is not possible. *)
Definition wstep (l : label) (W : world) : option (outcome world) :=
  let s := sys W in
  match l with
  | Run t => w ← workers s !! t; on_sys W <$> run_step t w s
  | Act a t =>
    w ← workers s !! t; f ← running w;
    if decide (a = YieldHold ∨ ¬ awaited s (held W) f) then on_sys W <$> act a t w s else None
  | Arm t =>
    w ← workers s !! t; f ← running w;
    if decide (awaited s (held W) f) then None else Some (Ok (mkWorld s ({[f]} ∪ held W)))
  | Wake f thr =>
    if decide (f ∈ held W) then Some (Ok (mkWorld (schedule (fiber_task f thr) s) (held W ∖ {[f]}))) else None
  | Forget f => Some (Ok (mkWorld s (held W ∖ {[f]})))
  | Spawn c =>
    let f := new_address (fibers s) in
    Some (Ok (mkWorld (with_fibers (<[f := new_Fiber (Some c)]> (fibers s)) s) ({[f]} ∪ held W)))
  | Post_cb c thr => Some (Ok (with_sys (schedule (cb_task c thr) s) W))
  | Ask_stop n => Some (Ok (with_sys (stop n s) W))
  end.

(** ** The invariant *)
Definition pc_fiber (p : pc) : option nat :=
  match p with
  | Picked (Some ft) _ => ft_fiber ft
  | Entering f _ | Running f _ | Leaving f _ | Out f _ | Post f _ => Some f
  | _ => None
  end.
Definition owns (w : worker) (f : nat) : Prop := cb_fiber w = Some f ∨ pc_fiber (w_pc w) = Some f.

Definition state_in (s : Scheduler) (f : nat) (l : list State) : Prop :=
  ∃ x, fibers s !! f = Some x ∧ m_state x ∈ l.
Definition waiting : list State := [INIT; HOLD; READY].
Definition settled : list State := [READY; TERM; EXCEPT].

(** Exactly one of fiber and callback. *)
Definition task_ok (ft : FiberAndThread) : Prop := is_Some (ft_fiber ft) ↔ ft_cb ft = None.

(** A [cb_fiber] in use is the worker's own; a scheduled fiber is not. *)
Definition marked (w : worker) (f : nat) (cb : option nat) : Prop :=
  match cb with Some _ => cb_fiber w = Some f | None => cb_fiber w ≠ Some f end.

Definition pc_ok (s : Scheduler) (hd : gset nat) (w : worker) : Prop :=
  match w_pc w with
  | Picked (Some ft) _ => task_ok ft ∧ ∀ f, ft_fiber ft = Some f →
      state_in s f waiting ∧ ¬ awaited s hd f ∧ cb_fiber w ≠ Some f
  | Entering f cb => state_in s f waiting ∧ ¬ awaited s hd f ∧ marked w f cb
  | Running f cb => state_in s f [EXEC] ∧ marked w f cb
  | Leaving f cb => state_in s f settled ∧ ¬ awaited s hd f ∧ marked w f cb
  | Out f cb | Post f cb =>
      (state_in s f [EXEC] ∨ state_in s f settled ∧ ¬ awaited s hd f) ∧ marked w f cb
  | _ => True
  end.
Definition idle_ok (w : worker) : Prop :=
  match w_pc w with
  | Idling => idle_fiber w = EXEC
  | IdleOut => idle_fiber w ∈ [EXEC; TERM]
  | Stopped => idle_fiber w = TERM
  | _ => idle_fiber w ∈ [INIT; HOLD; TERM]
  end.
Record worker_ok (s : Scheduler) (hd : gset nat) (w : worker) : Prop := {
  wo_pc : pc_ok s hd w;
  wo_spare f : cb_fiber w = Some f → pc_fiber (w_pc w) ≠ Some f → state_in s f [INIT] ∧ ¬ awaited s hd f;
  wo_idle : idle_ok w }.

(** Counting workers. *)
Definition tally (P : worker → bool) (m : gmap Z worker) : nat :=
  size (filter (λ tw, P (tw.2) = true) m).
Definition active (w : worker) : bool :=
  match w_pc w with
  | Picked (Some _) _ | Entering _ _ | Running _ _ | Leaving _ _ | Out _ _ => true
  | _ => false
  end.
Definition idling (w : worker) : bool := match w_pc w with Idling | IdleOut => true | _ => false end.

Record inv (s : Scheduler) (hd : gset nat) : Prop := {
  inv_queue : Forall task_ok (m_fibers s);
  inv_nodup : NoDup (queue_fibers s);
  inv_held f : f ∈ hd → f ∉ queue_fibers s;
  inv_worker t w : workers s !! t = Some w → worker_ok s hd w;
  inv_owner t1 t2 w1 w2 f :
    workers s !! t1 = Some w1 → workers s !! t2 = Some w2 → owns w1 f → owns w2 f → t1 = t2;
  inv_free f : awaited s hd f →
    (∃ t w, workers s !! t = Some w ∧ owns w f) ∨ state_in s f waiting;
  inv_active : m_activeThreadCount s = Z.of_nat (tally active (workers s));
  inv_idle : m_idleThreadCount s = Z.of_nat (tally idling (workers s)) }.

(** ** Lemmas on tallies and on what a step leaves alone *)
Lemma tally_insert P m t w w' : m !! t = Some w →
  (tally P (<[t:=w']> m) + Nat.b2n (P w) = tally P m + Nat.b2n (P w'))%nat.
Proof.
  intros Hw. unfold tally.
  assert (∀ x, size (filter (λ tw : Z * worker, P (tw.2) = true) (<[t:=x]> m)) =
    (size (filter (λ tw : Z * worker, P (tw.2) = true) (delete t m)) + Nat.b2n (P x))%nat) as E.
  { intros x. rewrite <- insert_delete_eq. destruct (P x) eqn:Ex; cbn [Nat.b2n].
    - rewrite map_filter_insert_True by done.
      rewrite map_size_insert_None; [lia|]. apply map_lookup_filter_None. left. apply lookup_delete_eq.
    - rewrite map_filter_insert_not' by (cbn; congruence || (intros ?; rewrite lookup_delete_eq; congruence)). lia. }
  rewrite E. rewrite <- (insert_id m t w Hw) at 2. rewrite E. lia.
Qed.

Lemma state_in_ext s s' f l : fibers s' !! f = fibers s !! f → state_in s f l → state_in s' f l.
Proof. unfold state_in. by intros ->. Qed.
Lemma state_in_ne s f l l' : state_in s f l → state_in s f l' → ∃ x, x ∈ l ∧ x ∈ l'.
Proof. intros (x & E & Hx) (y & E' & Hy). exists (m_state x). naive_solver. Qed.

(** A worker whose fibers keep their state, and get no new wake-up, stays well. *)
Lemma worker_ok_ext s hd s' hd' w :
  (∀ g, owns w g → fibers s' !! g = fibers s !! g ∧ (awaited s' hd' g → awaited s hd g)) →
  worker_ok s hd w → worker_ok s' hd' w.
Proof.
  intros Hext [Hpc Hsp Hid]. split; [|intros f Hf Hne|done].
  - unfold pc_ok, owns in *. destruct (w_pc w) as [|[ft|]| f ? | f ? | f ? | f ? | f ? | | |]; cbn [pc_fiber] in *;
      try done; try (destruct (Hext f) as [E Ha]; [by right|]; unfold state_in in *; rewrite E; tauto).
    destruct Hpc as [Hft Hpc]. split; [done|]. intros f Hf. destruct (Hpc f Hf) as (? & ? & ?).
    destruct (Hext f) as [E Ha]; [by right|]. unfold state_in in *. rewrite E. tauto.
  - destruct (Hsp f Hf Hne). destruct (Hext f) as [E Ha]; [by left|].
    unfold state_in in *. rewrite E. tauto.
Qed.

(** What is common to all steps of a worker: at most one fiber, [F], changes. *)
Lemma inv_change (F : option nat) s hd s' hd' t w w' :
  inv s hd → workers s !! t = Some w → workers s' = <[t:=w']> (workers s) →
  (∀ g, F ≠ Some g → fibers s' !! g = fibers s !! g ∧ (awaited s' hd' g → awaited s hd g)) →
  (∀ f t2 w2, F = Some f → t2 ≠ t → workers s !! t2 = Some w2 → ¬ owns w2 f) →
  (∀ g, F ≠ Some g → owns w' g ↔ owns w g) →
  Forall task_ok (m_fibers s') → NoDup (queue_fibers s') → (∀ g, g ∈ hd' → g ∉ queue_fibers s') →
  worker_ok s' hd' w' →
  (∀ f, F = Some f → awaited s' hd' f → owns w' f ∨ state_in s' f waiting) →
  m_activeThreadCount s' + Z.b2z (active w) = m_activeThreadCount s + Z.b2z (active w') →
  m_idleThreadCount s' + Z.b2z (idling w) = m_idleThreadCount s + Z.b2z (idling w') →
  inv s' hd'.
Proof.
  intros Hi Hw Hws Hf Hoth Hown Hq Hnd Hh Hwo Hfree Hact Hidl.
  assert (∀ t2 w2, workers s' !! t2 = Some w2 → (t2 = t ∧ w2 = w') ∨ (t2 ≠ t ∧ workers s !! t2 = Some w2)) as Hcase.
  { intros t2 w2. rewrite Hws, lookup_insert. case_decide; naive_solver. }
  split; try done.
  - intros t2 w2 [[-> ->]|[Hne H2]]%Hcase; [done|]. apply (worker_ok_ext s hd); [|by eapply inv_worker].
    intros g Hg. apply Hf. intros ->. by eapply Hoth.
  - intros t1 t2 w1 w2 g [[-> ->]|[H1 E1]]%Hcase [[-> ->]|[H2 E2]]%Hcase Ho1 Ho2; try done.
    + destruct (decide (F = Some g)) as [->|Hg]; [by edestruct Hoth|].
      apply (inv_owner s hd Hi t t2 w w2 g); try done. by apply Hown.
    + destruct (decide (F = Some g)) as [->|Hg]; [by edestruct Hoth|].
      apply (inv_owner s hd Hi t1 t w1 w g); try done. by apply Hown.
    + by apply (inv_owner s hd Hi t1 t2 w1 w2 g).
  - intros g Hg. destruct (decide (F = Some g)) as [->|Hne].
    + destruct (Hfree g eq_refl Hg) as [Ho|?]; [left|by right]. exists t, w'. by rewrite Hws, lookup_insert_eq.
    + destruct (Hf g Hne) as [E Ha]. destruct (inv_free s hd Hi g (Ha Hg)) as [(t2 & w2 & H2 & Ho)|?].
      * left. destruct (decide (t2 = t)) as [->|Ht].
        -- exists t, w'. rewrite Hws, lookup_insert_eq. split; [done|]. apply Hown; [done|]. congruence.
        -- exists t2, w2. by rewrite Hws, lookup_insert_ne.
      * right. by apply (state_in_ext s).
  - rewrite Hws. pose proof (tally_insert active (workers s) t w w' Hw). pose proof (inv_active s hd Hi).
    destruct (active w), (active w'); cbn [Z.b2z Nat.b2n] in *; lia.
  - rewrite Hws. pose proof (tally_insert idling (workers s) t w w' Hw). pose proof (inv_idle s hd Hi).
    destruct (idling w), (idling w'); cbn [Z.b2z Nat.b2n] in *; lia.
Qed.

(** A step of the environment: no worker moves. *)
Lemma inv_outside s hd s' hd' f :
  inv s hd → workers s' = workers s →
  m_activeThreadCount s' = m_activeThreadCount s → m_idleThreadCount s' = m_idleThreadCount s →
  (∀ g, g ≠ f → fibers s' !! g = fibers s !! g ∧ (awaited s' hd' g → awaited s hd g)) →
  (fibers s' !! f = fibers s !! f ∧ (awaited s' hd' f → awaited s hd f)) ∨
  ((∀ t w, workers s !! t = Some w → ¬ owns w f) ∧ state_in s' f waiting) →
  Forall task_ok (m_fibers s') → NoDup (queue_fibers s') → (∀ g, g ∈ hd' → g ∉ queue_fibers s') →
  inv s' hd'.
Proof.
  intros Hi Hws Hac Hid Hf Hff Hq Hnd Hh. split; rewrite ?Hws, ?Hac, ?Hid; try done.
  - intros t w Hw. apply (worker_ok_ext s hd); [|by eapply inv_worker].
    intros g Hg. destruct (decide (g = f)) as [->|]; [|by apply Hf].
    destruct Hff as [?|[Hno _]]; [done|by edestruct Hno].
  - apply (inv_owner s hd Hi).
  - intros g Hg. destruct (decide (g = f)) as [->|Hne].
    + destruct Hff as [[E Ha]|[_ ?]]; [|by right].
      destruct (inv_free s hd Hi f (Ha Hg)); [by left|right; by apply (state_in_ext s)].
    + destruct (Hf g Hne) as [E Ha].
      destruct (inv_free s hd Hi g (Ha Hg)); [by left|right; by apply (state_in_ext s)].
  - apply (inv_active s hd Hi).
  - apply (inv_idle s hd Hi).
Qed.

(** ** The critical section *)
Definition mine (t : Z) (ft : FiberAndThread) : bool := (ft_thread ft =? -1) || (ft_thread ft =? t).

(** A task the scan of thread [t] takes. *)
Definition eligible (s : Scheduler) (t : Z) (ft : FiberAndThread) : Prop :=
  mine t ft = true ∧
  match ft_fiber ft with Some f => ∃ x, fibers s !! f = Some x ∧ m_state x ≠ EXEC | None => True end.

Lemma scan_spec s t l :
  Forall task_ok l → (∀ f, f ∈ omap ft_fiber l → is_Some (fibers s !! f)) →
  ∃ tk r rest, scan s t l = Ok (tk, r, rest) ∧
    match r with
    | None => rest = l ∧ Forall (λ ft, ¬ eligible s t ft) l ∧ tk = existsb (λ ft, negb (mine t ft)) l
    | Some ft => ∃ pre post, l = pre ++ ft :: post ∧ rest = pre ++ post ∧ eligible s t ft ∧
        Forall (λ ft, ¬ eligible s t ft) pre ∧
        tk = existsb (λ ft, negb (mine t ft)) pre || negb (bool_decide (post = []))
    end.
Proof.
  induction l as [|ft l IH]; intros Hok Hl; [by exists false, None, []|].
  apply Forall_cons in Hok as [Hft Hok].
  destruct IH as (tk & r & rest & E & Hr); [done| |].
  { intros f Hf. apply Hl. cbn [omap list_omap]. destruct (ft_fiber ft); [by right|done]. }
  cbn [scan]. assert (∀ b, negb (mine t ft) = b → ¬ eligible s t ft → ∃ tk' r' rest',
    obind (scan s t l) (λ '(t', r, rest), Ok (b || t', r, ft :: rest)) = Ok (tk', r', rest') ∧
    match r' with
    | None => rest' = ft :: l ∧ Forall (λ ft, ¬ eligible s t ft) (ft :: l) ∧
        tk' = existsb (λ ft, negb (mine t ft)) (ft :: l)
    | Some x => ∃ pre post, ft :: l = pre ++ x :: post ∧ rest' = pre ++ post ∧ eligible s t x ∧
        Forall (λ ft, ¬ eligible s t ft) pre ∧
        tk' = existsb (λ ft, negb (mine t ft)) pre || negb (bool_decide (post = []))
    end) as Hskip.
  { intros b Hb Hne. rewrite E. cbn [obind]. eexists _, _, _. split; [done|]. destruct r as [x|].
    - destruct Hr as (pre & post & -> & -> & He & Hpre & ->). exists (ft :: pre), post.
      split_and!; [done..|by constructor|]. cbn [existsb]. by rewrite Hb, orb_assoc.
    - destruct Hr as (-> & Hn & ->). split_and!; [done|by constructor|]. cbn [existsb]. by rewrite Hb. }
  unfold mine in Hskip. rewrite negb_orb in Hskip.
  destruct (negb (ft_thread ft =? -1) && negb (ft_thread ft =? t)) eqn:Em.
  { apply Hskip; [done|]. unfold eligible, mine. rewrite <- negb_orb, negb_true_iff in Em. rewrite Em. naive_solver. }
  assert (mine t ft = true) as Hm.
  { unfold mine. rewrite <- negb_orb in Em. by apply negb_false_iff in Em. }
  destruct (ft_fiber ft) as [f|] eqn:Ef.
  - destruct (Hl f) as [x Hx]; [cbn [omap list_omap]; rewrite Ef; by left|].
    unfold get_fiber. rewrite Hx. cbn [of_option obind]. case_bool_decide as Hs.
    + apply Hskip; [done|]. unfold eligible. rewrite Ef. intros [_ (y & Hy & ?)]. congruence.
    + eexists _, _, _. split; [done|]. exists [], l. split_and!; try done. split; [done|]. rewrite Ef. by exists x.
  - destruct (ft_cb ft) eqn:Ec; [|unfold task_ok in Hft; rewrite Ef, Ec in Hft; by destruct Hft as [_ [? ?]]].
    eexists _, _, _. split; [done|]. exists [], l. split_and!; try done. split; [done|]. by rewrite Ef.
Qed.

(** ** Each step keeps the invariant *)
Lemma awaited_fiber s hd f : inv s hd → awaited s hd f → is_Some (fibers s !! f).
Proof.
  intros Hi Ha. destruct (inv_free s hd Hi f Ha) as [(t & w & Hw & Ho)|(x & -> & _)]; [|done].
  destruct (inv_worker s hd Hi t w Hw) as [Hpc Hsp _].
  destruct (decide (pc_fiber (w_pc w) = Some f)) as [Hp|Hp].
  - unfold pc_ok in Hpc. destruct (w_pc w) as [|[ft|]| g ? | g ? | g ? | g ? | g ? | | |]; simplify_eq/=;
      unfold state_in in Hpc; naive_solver.
  - destruct Ho as [Ho|Ho]; [|done]. by destruct (Hsp f Ho Hp) as [(x & -> & _) _].
Qed.

(** A fiber that waits in the queue and is not executing belongs to no worker. *)
Lemma eligible_free s hd f x t w : inv s hd → f ∈ queue_fibers s → fibers s !! f = Some x →
  m_state x ≠ EXEC → workers s !! t = Some w → ¬ owns w f.
Proof.
  intros Hi Hq Hx Hne Hw Ho. assert (awaited s hd f) as Ha by by left.
  destruct (inv_worker s hd Hi t w Hw) as [Hpc Hsp _].
  assert (¬ state_in s f [EXEC]) as Hns.
  { intros (y & Hy & Hin). apply list_elem_of_singleton in Hin. congruence. }
  destruct (decide (pc_fiber (w_pc w) = Some f)) as [Hp|Hp].
  - unfold pc_ok in Hpc. destruct (w_pc w) as [|[ft|]| g ? | g ? | g ? | g ? | g ? | | |]; simplify_eq/=; naive_solver.
  - destruct Ho as [Ho|Ho]; [|done]. by destruct (Hsp f Ho Hp).
Qed.

Lemma state_in_find s f l : state_in s f l → ∃ x, get_fiber s f = Ok x ∧ fibers s !! f = Some x ∧ m_state x ∈ l.
Proof. intros (x & E & Hx). exists x. unfold get_fiber. by rewrite E. Qed.

Lemma others_free s hd t w f : inv s hd → workers s !! t = Some w → owns w f →
  ∀ t2 w2, t2 ≠ t → workers s !! t2 = Some w2 → ¬ owns w2 f.
Proof. intros Hi Hw Ho t2 w2 Hne H2 Ho2. apply Hne. by eapply (inv_owner s hd Hi t2 t). Qed.

(** The part of [worker_ok] about the spare fiber carries over. *)
Lemma worker_ok_move s hd s' hd' w w' :
  worker_ok s hd w → cb_fiber w' = cb_fiber w →
  (∀ g, cb_fiber w = Some g → pc_fiber (w_pc w') ≠ Some g →
    pc_fiber (w_pc w) ≠ Some g ∧ fibers s' !! g = fibers s !! g ∧ (awaited s' hd' g → awaited s hd g)) →
  pc_ok s' hd' w' → idle_ok w' → worker_ok s' hd' w'.
Proof.
  intros [_ Hsp _] Ec Hk Hp Hid. split; [done| |done]. rewrite Ec. intros g Hg Hne.
  destruct (Hk g Hg Hne) as (Hne' & E & Ha). destruct (Hsp g Hg Hne'). unfold state_in in *. rewrite E. tauto.
Qed.

Ltac count_workers Epc := unfold active, idling; cbn; rewrite ?Epc; cbn; lia.

Lemma fetch_ok s hd t w : inv s hd → workers s !! t = Some w → w_pc w = Fetching →
  ∃ s', fetch t w s = Ok s' ∧ inv s' hd.
Proof.
  intros Hi Hw Epc. pose proof (inv_worker s hd Hi t w Hw) as Hwo.
  pose proof (wo_idle _ _ _ Hwo) as Hid. unfold idle_ok in Hid. rewrite Epc in Hid.
  destruct (scan_spec s t (m_fibers s)) as (tk & r & rest & E & Hr).
  { apply (inv_queue s hd Hi). }
  { intros f Hf. apply (awaited_fiber s hd); [done|by left]. }
  unfold fetch. rewrite E. cbn [obind]. eexists. split; [done|].
  assert (option_list r ++ rest ≡ₚ m_fibers s) as Hperm.
  { destruct r as [ft|]; [|by destruct Hr as (-> & _)].
    destruct Hr as (pre & post & -> & -> & _). cbn. by rewrite <- Permutation_middle. }
  assert (Forall task_ok (option_list r ++ rest)) as [Hr1 Hq]%Forall_app.
  { rewrite Hperm. apply (inv_queue s hd Hi). }
  set (F := r ≫= ft_fiber).
  assert (option_list F ++ omap ft_fiber rest ≡ₚ queue_fibers s) as Hpf.
  { unfold queue_fibers. rewrite <- Hperm, omap_app. destruct r as [ft|]; [|done]. cbn. by destruct (ft_fiber ft). }
  assert (NoDup (option_list F ++ omap ft_fiber rest)) as (_ & Hnot & Hnd)%NoDup_app.
  { rewrite Hpf. apply (inv_nodup s hd Hi). }
  set (s' := with_worker t _ _).
  assert (queue_fibers s' = omap ft_fiber rest) as Eq.
  { unfold s', queue_fibers. destruct r; cbn; [done|]. by destruct Hr as (-> & _). }
  assert (∀ g, awaited s' hd g → awaited s hd g ∧ F ≠ Some g) as Haw.
  { intros g. unfold awaited. rewrite Eq, <- Hpf, elem_of_app. intros [Ha|Ha].
    - split; [auto|]. intros ->. by apply (Hnot g); [left|].
    - split; [auto|]. intros EF. apply (inv_held s hd Hi g Ha). rewrite <- Hpf, EF. apply elem_of_app. left. by left. }
  assert (∀ f, F = Some f → (∀ t2 w2, workers s !! t2 = Some w2 → ¬ owns w2 f) ∧ state_in s f waiting) as HF.
  { intros f EF. destruct r as [ft|]; [|done]. cbn in F. unfold F in EF.
    destruct Hr as (_ & _ & _ & _ & [_ He] & _). rewrite EF in He. destruct He as (x & Hx & Hne).
    assert (f ∈ queue_fibers s) as Hfq by (rewrite <- Hpf; unfold F; cbn; rewrite EF; by left).
    assert (∀ t2 w2, workers s !! t2 = Some w2 → ¬ owns w2 f) as Hfree by (intros; by eapply eligible_free).
    split; [done|]. destruct (inv_free s hd Hi f) as [(t2 & w2 & H2 & Ho)|?]; [by left|by edestruct Hfree|done]. }
  assert (fibers s' = fibers s) as Efib by (unfold s'; by destruct r).
  apply (inv_change F s hd s' hd t w (at_pc (Picked r tk) w)); try done.
  - unfold s'. by destruct r.
  - intros g Hg. rewrite Efib. split; [done|]. intros Ha. by apply Haw.
  - intros f t2 w2 EF _ H2. by eapply HF.
  - intros g Hg. unfold owns. cbn. rewrite Epc. unfold F in Hg. destruct r; cbn in *; naive_solver.
  - unfold s'. destruct r; [done|]. apply (inv_queue s hd Hi).
  - by rewrite Eq.
  - intros g Hg Hin. apply (inv_held s hd Hi g Hg). rewrite <- Hpf, <- Eq. apply elem_of_app. by right.
  - apply (worker_ok_move s hd s' hd w); try done.
    + intros g _ _. rewrite Epc, Efib. split_and!; [done..|]. intros Ha. by apply Haw.
    + unfold pc_ok. cbn. destruct r as [ft|]; cbn; [|exact I]. apply Forall_cons in Hr1 as [Hr1 _]. split; [done|].
      intros f Hf. destruct (HF f Hf) as [Hno Hst]. unfold state_in. rewrite Efib. split_and!; [done| |].
      * intros Ha%Haw. by destruct Ha.
      * intros Hc. apply (Hno t w Hw). by left.
  - intros f EF Ha. by destruct (Haw f Ha).
  - unfold s', active. cbn. rewrite Epc. destruct r; cbn; lia.
  - unfold s', idling. cbn. rewrite Epc. destruct r; cbn; lia.
Qed.

(** Steps that leave the queue alone. *)
Lemma inv_local (F : option nat) s hd s' t w w' :
  inv s hd → workers s !! t = Some w → workers s' = <[t:=w']> (workers s) → m_fibers s' = m_fibers s →
  (∀ g, F ≠ Some g → fibers s' !! g = fibers s !! g) →
  (∀ f t2 w2, F = Some f → t2 ≠ t → workers s !! t2 = Some w2 → ¬ owns w2 f) →
  (∀ g, F ≠ Some g → owns w' g ↔ owns w g) →
  worker_ok s' hd w' →
  (∀ f, F = Some f → awaited s hd f → owns w' f ∨ state_in s' f waiting) →
  m_activeThreadCount s' + Z.b2z (active w) = m_activeThreadCount s + Z.b2z (active w') →
  m_idleThreadCount s' + Z.b2z (idling w) = m_idleThreadCount s + Z.b2z (idling w') →
  inv s' hd.
Proof.
  intros Hi Hw Hws Hq Hf Ho Hown Hwo Hfree Ha Hid.
  assert (∀ g, awaited s' hd g ↔ awaited s hd g) as Haw by (intros; unfold awaited, queue_fibers; by rewrite Hq).
  apply (inv_change F s hd s' hd t w w'); try done.
  - intros g Hg. split; [by apply Hf|apply Haw].
  - rewrite Hq. apply (inv_queue s hd Hi).
  - unfold queue_fibers. rewrite Hq. apply (inv_nodup s hd Hi).
  - unfold queue_fibers. rewrite Hq. apply (inv_held s hd Hi).
  - intros f HF Hg. apply Hfree; [done|]. by apply Haw.
Qed.

Lemma awaited_same s s' hd g : m_fibers s' = m_fibers s → awaited s' hd g ↔ awaited s hd g.
Proof. intros E. unfold awaited, queue_fibers. by rewrite E. Qed.

Lemma pc_fiber_mine s hd w f : worker_ok s hd w → cb_fiber w = Some f → pc_fiber (w_pc w) = None →
  state_in s f [INIT] ∧ ¬ awaited s hd f.
Proof. intros [_ Hsp _] Hc Hp. apply Hsp; congruence. Qed.

Lemma new_address_free m : m !! new_address m = None.
Proof.
  assert (∀ f x, m !! f = Some x → (f < new_address m)%nat) as H.
  { unfold new_address. apply (map_fold_weak_ind (λ n m, ∀ f x, m !! f = Some x → (f < n)%nat)); [done|].
    intros g y m' r _ IH f x. rewrite lookup_insert. case_decide as E; [lia|]. intros Hf. specialize (IH f x Hf). lia. }
  destruct (m !! new_address m) as [x|] eqn:E; [|done]. specialize (H _ _ E). lia.
Qed.

(** Every fiber a worker holds exists. *)
Lemma fresh_unowned s hd t w f : inv s hd → fibers s !! f = None → workers s !! t = Some w → ¬ owns w f.
Proof.
  intros Hi Hf Hw Ho. destruct (inv_worker s hd Hi t w Hw) as [Hpc Hsp _].
  assert (∀ l, ¬ state_in s f l) as Hns by (intros l (x & Hx & _); congruence).
  destruct (decide (pc_fiber (w_pc w) = Some f)) as [Hp|Hp].
  - unfold pc_ok in Hpc. destruct (w_pc w) as [|[ft|]| g ? | g ? | g ? | g ? | g ? | | |]; simplify_eq/=; naive_solver.
  - destruct Ho as [Ho|Ho]; [|done]. by apply (Hns [INIT]), Hsp.
Qed.

Lemma dispatch_cb_ok s hd t w ft tk c : inv s hd → workers s !! t = Some w →
  w_pc w = Picked (Some ft) tk → ft_fiber ft = None →
  ∃ s', dispatch_cb t w c s = Ok s' ∧ inv s' hd.
Proof.
  intros Hi Hw Epc Eft. pose proof (inv_worker s hd Hi t w Hw) as Hwo.
  assert (pc_fiber (w_pc w) = None) as Epf by by rewrite Epc.
  pose proof (wo_idle _ _ _ Hwo) as Hid. unfold idle_ok in Hid. rewrite Epc in Hid.
  unfold dispatch_cb. destruct (cb_fiber w) as [f|] eqn:Ec.
  - destruct (pc_fiber_mine s hd w f Hwo Ec Epf) as [Hst Hna].
    destruct (state_in_find _ _ _ Hst) as (x & -> & Hx & Hin). cbn [obind].
    apply list_elem_of_singleton in Hin. unfold reset, assert_in. rewrite Hin, bool_decide_true by set_solver.
    cbn [obind]. eexists. split; [done|]. set (s' := with_worker t _ _).
    assert (state_in s' f [INIT]) as Hst' by (eexists; cbn; rewrite lookup_insert_eq; split; [done|by left]).
    assert (¬ awaited s' hd f) as Hna' by by rewrite (awaited_same s s').
    eapply (inv_local (Some f) s hd s' t w (at_pc (Entering f (Some c)) w)); try done.
    + intros g Hg. cbn. apply lookup_insert_ne. congruence.
    + intros ? ? ? [= <-]. apply (others_free s hd t w); [done..|]. by left.
    + intros g Hg. unfold owns. cbn. rewrite Epf, Ec. naive_solver.
    + apply (worker_ok_move s hd s' hd w); try done.
      * intros g Hg. cbn. rewrite Ec in Hg. naive_solver.
      * cbn. split_and!; [|done..]. destruct Hst' as (y & ? & ?). exists y. split; [done|]. set_solver.
    + intros ? [= <-] ?. left. by left.
    + count_workers Epc.
    + count_workers Epc.
  - eexists. split; [done|]. set (f := new_address _). set (s' := with_worker t _ _).
    assert (fibers s !! f = None) as Hf by apply new_address_free.
    assert (¬ awaited s hd f) as Hna.
    { intros Ha. destruct (awaited_fiber s hd f Hi Ha). congruence. }
    assert (∀ t2 w2, workers s !! t2 = Some w2 → ¬ owns w2 f) as Hno by (intros; eapply (fresh_unowned s hd); done).
    eapply (inv_local (Some f) s hd s' t w (mkWorker (Entering f (Some c)) (Some f) (idle_fiber w))); try done.
    + intros g Hg. cbn. apply lookup_insert_ne. congruence.
    + intros ? t2 w2 [= <-] _. apply Hno.
    + intros g Hg. unfold owns. cbn. rewrite Epf, Ec. naive_solver.
    + split; [|cbn; naive_solver|done]. cbn. split_and!; [|by rewrite (awaited_same s s')|done].
      exists (new_Fiber (Some c)). cbn. rewrite lookup_insert_eq. split; [done|by left].
    + intros ? [= <-] ?. left. by left.
    + count_workers Epc.
    + count_workers Epc.
Qed.

Lemma inv_tickle s hd : inv s hd → inv (tickle s) hd.
Proof. intros Hi. eapply (inv_outside s hd _ _ 0%nat); try done; [by left|apply Hi..]. Qed.

(** A move of the worker that touches no fiber. *)
Lemma inv_move s hd s' t w w' : inv s hd → workers s !! t = Some w →
  workers s' = <[t:=w']> (workers s) → m_fibers s' = m_fibers s → fibers s' = fibers s →
  cb_fiber w' = cb_fiber w → (∀ g, owns w' g ↔ owns w g) →
  (∀ g, cb_fiber w = Some g → pc_fiber (w_pc w') ≠ Some g → pc_fiber (w_pc w) ≠ Some g) →
  pc_ok s hd w' → idle_ok w' →
  m_activeThreadCount s' + Z.b2z (active w) = m_activeThreadCount s + Z.b2z (active w') →
  m_idleThreadCount s' + Z.b2z (idling w) = m_idleThreadCount s + Z.b2z (idling w') →
  inv s' hd.
Proof.
  intros Hi Hw Hws Hq Hf Hc Hown Hsp Hpc Hid Ha Hn.
  apply (inv_local None s hd s' t w w'); try done.
  - intros g _. by rewrite Hf.
  - apply (worker_ok_move s hd s' hd w); try done; [by eapply inv_worker| |].
    + intros g Hg Hne. rewrite Hf. split_and!; [by apply Hsp|done|by apply awaited_same].
    + assert (∀ g l, state_in s g l → state_in s' g l) as Hst by (intros g l; unfold state_in; by rewrite Hf).
      assert (∀ g, awaited s' hd g ↔ awaited s hd g) as Haw by (intros; by apply awaited_same).
      unfold pc_ok in *. destruct (w_pc w') as [|[ft|]| | | | | | | |]; naive_solver.
Qed.

(** Case analysis on membership in an explicit list. *)
Ltac list_cases H := repeat (apply elem_of_cons in H as [H|H]); try (by apply not_elem_of_nil in H).
Lemma waiting_unfinished x : x ∈ waiting → finished x = false.
Proof. intros H. by list_cases H; subst. Qed.
Lemma waiting_resting x : x ∈ waiting → x ≠ EXEC.
Proof. intros H. by list_cases H; subst. Qed.

Lemma dispatch_ok s hd t w ft tk : inv s hd → workers s !! t = Some w → w_pc w = Picked ft tk →
  ∃ s', dispatch t w ft tk s = Ok s' ∧ inv s' hd.
Proof.
  intros Hi0 Hw0 Epc. unfold dispatch. set (s1 := if tk then tickle s else s).
  assert (inv s1 hd) as Hi by (unfold s1; destruct tk; [by apply inv_tickle|done]).
  assert (workers s1 !! t = Some w) as Hw by (unfold s1; by destruct tk).
  clearbody s1. clear s Hi0 Hw0. rename s1 into s.
  pose proof (inv_worker s hd Hi t w Hw) as Hwo. pose proof (wo_idle _ _ _ Hwo) as Hid.
  unfold idle_ok in Hid. rewrite Epc in Hid.
  destruct ft as [ft|].
  - pose proof (wo_pc _ _ _ Hwo) as Hpc. unfold pc_ok in Hpc. rewrite Epc in Hpc. destruct Hpc as [Hft Hpc].
    destruct (ft_fiber ft) as [f|] eqn:Ef.
    + destruct (Hpc f eq_refl) as (Hst & Hna & Hc).
      destruct (state_in_find _ _ _ Hst) as (x & -> & Hx & Hin). cbn [obind].
      rewrite (waiting_unfinished _ Hin).
      cbn [negb]. eexists. split; [done|].
      eapply (inv_move s hd _ t w (at_pc (Entering f None) w)); try done.
      * intros g. unfold owns. cbn. rewrite Epc. cbn. by rewrite Ef.
      * intros g Hg. cbn. rewrite Epc. cbn. rewrite Ef. done.
      * count_workers Epc.
      * count_workers Epc.
    + destruct (ft_cb ft) as [c|] eqn:Ec.
      * by apply (dispatch_cb_ok s hd t w ft tk c).
      * unfold task_ok in Hft. rewrite Ef, Ec in Hft. by destruct Hft as [_ [? ?]].
  - unfold dispatch_other. destruct (decide (idle_fiber w = TERM)) as [Ht|Ht].
    + rewrite bool_decide_true by done. eexists. split; [done|].
      eapply (inv_move s hd _ t w (at_pc Stopped w)); try done.
      * intros g. unfold owns. cbn. by rewrite Epc.
      * intros g. by rewrite Epc.
      * count_workers Epc.
      * count_workers Epc.
    + rewrite bool_decide_false by done. rewrite bool_decide_false by (by list_cases Hid; rewrite Hid). eexists. split; [done|].
      eapply (inv_move s hd _ t w (mkWorker Idling (cb_fiber w) EXEC)); try done.
      * intros g. unfold owns. cbn. by rewrite Epc.
      * intros g. by rewrite Epc.
      * count_workers Epc.
      * count_workers Epc.
Qed.

(** Steps that change the state of the fiber the worker holds. *)
Lemma inv_switch s hd s' t w w' f cb x :
  inv s hd → workers s !! t = Some w → workers s' = <[t:=w']> (workers s) → m_fibers s' = m_fibers s →
  fibers s' = <[f:=x]> (fibers s) → marked w f cb → pc_fiber (w_pc w) = Some f →
  cb_fiber w' = cb_fiber w → pc_fiber (w_pc w') = Some f ∨ pc_fiber (w_pc w') = None →
  pc_ok s' hd w' → idle_ok w' →
  (pc_fiber (w_pc w') = None → if cb is Some _ then m_state x = INIT ∧ ¬ awaited s hd f else
     awaited s hd f → m_state x ∈ waiting) →
  m_activeThreadCount s' + Z.b2z (active w) = m_activeThreadCount s + Z.b2z (active w') →
  m_idleThreadCount s' + Z.b2z (idling w) = m_idleThreadCount s + Z.b2z (idling w') →
  inv s' hd.
Proof.
  intros Hi Hw Hws Hq Hf Hm Hp Hc Hp' Hpc Hid Hrel Ha Hn.
  assert (∀ l, m_state x ∈ l → state_in s' f l) as Hst.
  { intros l Hl. exists x. by rewrite Hf, lookup_insert_eq. }
  apply (inv_local (Some f) s hd s' t w w'); try done.
  - intros g Hg. rewrite Hf. apply lookup_insert_ne. congruence.
  - intros ? ? ? [= <-]. apply (others_free s hd t w); [done..|]. by right.
  - intros g Hg. unfold owns. rewrite Hc, Hp. destruct Hp' as [-> | ->]; naive_solver.
  - pose proof (inv_worker s hd Hi t w Hw) as [_ Hsp _]. split; [done| |done]. rewrite Hc. intros g Hg Hne.
    destruct (decide (g = f)) as [->|Hgf].
    + destruct Hp' as [Hp'|Hp']; [done|]. specialize (Hrel Hp'). destruct cb; [|done].
      destruct Hrel as [Hx Hna]. split; [apply Hst; rewrite Hx; by left|by rewrite (awaited_same s s')].
    + destruct (Hsp g Hg) as [(y & Hy & ?) ?]; [congruence|]. split; [|by rewrite (awaited_same s s')].
      exists y. by rewrite Hf, lookup_insert_ne.
  - intros ? [= <-] Haf. destruct Hp' as [Hp'|Hp']; [left; by right|]. specialize (Hrel Hp').
    destruct cb; [by destruct Hrel|]. right. by apply Hst, Hrel.
Qed.

Lemma marked_at p w f cb : marked w f cb → marked (at_pc p w) f cb.
Proof. done. Qed.

Lemma enter_ok s hd t w f cb : inv s hd → workers s !! t = Some w → w_pc w = Entering f cb →
  ∃ s', enter t w f cb s = Ok s' ∧ inv s' hd.
Proof.
  intros Hi Hw Epc. pose proof (inv_worker s hd Hi t w Hw) as [Hpc _ Hid].
  unfold pc_ok, idle_ok in Hpc, Hid. rewrite Epc in Hpc, Hid. destruct Hpc as (Hst & Hna & Hm).
  destruct (state_in_find _ _ _ Hst) as (x & E & Hx & Hin). unfold enter. rewrite E. cbn [obind].
  unfold swapIn. rewrite bool_decide_false by (by apply waiting_resting). cbn [obind]. eexists. split; [done|].
  eapply (inv_switch s hd _ t w (at_pc (Running f cb) w) f cb (set_state EXEC x)); try done.
  - by rewrite Epc.
  - by left.
  - split; [|done]. eexists. cbn. rewrite lookup_insert_eq. split; [done|by left].
  - count_workers Epc.
  - count_workers Epc.
Qed.

Lemma swap_out_ok s hd t w f cb : inv s hd → workers s !! t = Some w → w_pc w = Leaving f cb →
  inv (with_worker t (at_pc (Out f cb) w) s) hd.
Proof.
  intros Hi Hw Epc. pose proof (inv_worker s hd Hi t w Hw) as [Hpc _ Hid].
  unfold pc_ok, idle_ok in Hpc, Hid. rewrite Epc in Hpc, Hid. destruct Hpc as (Hst & Hna & Hm).
  eapply (inv_move s hd _ t w (at_pc (Out f cb) w)); try done.
  - intros g. unfold owns. cbn. by rewrite Epc.
  - intros g. by rewrite Epc.
  - split; [by right|done].
  - count_workers Epc.
  - count_workers Epc.
Qed.

Lemma count_down_ok s hd t w f cb : inv s hd → workers s !! t = Some w → w_pc w = Out f cb →
  inv (with_worker t (at_pc (Post f cb) w) (with_active (m_activeThreadCount s - 1) s)) hd.
Proof.
  intros Hi Hw Epc. pose proof (inv_worker s hd Hi t w Hw) as [Hpc _ Hid].
  unfold pc_ok, idle_ok in Hpc, Hid. rewrite Epc in Hpc, Hid.
  eapply (inv_move s hd _ t w (at_pc (Post f cb) w)); try done.
  - intros g. unfold owns. cbn. by rewrite Epc.
  - intros g. by rewrite Epc.
  - count_workers Epc.
  - count_workers Epc.
Qed.

Lemma idle_step_ok s hd t w : inv s hd → workers s !! t = Some w → w_pc w = Idling →
  ∃ s', idle t w s = Ok s' ∧ inv s' hd.
Proof.
  intros Hi Hw Epc. pose proof (inv_worker s hd Hi t w Hw) as [Hpc _ Hid].
  eexists. split; [done|]. eapply (inv_move s hd _ t w _ Hi Hw); try done.
  - intros g. unfold owns. cbn. by rewrite Epc.
  - intros g. by rewrite Epc.
  - cbn. destruct (stopping s); set_solver.
  - count_workers Epc.
  - count_workers Epc.
Qed.

Lemma idle_out_ok s hd t w : inv s hd → workers s !! t = Some w → w_pc w = IdleOut →
  ∃ s', idle_out t w s = Ok s' ∧ inv s' hd.
Proof.
  intros Hi Hw Epc. pose proof (inv_worker s hd Hi t w Hw) as [Hpc _ Hid].
  unfold idle_ok in Hid. rewrite Epc in Hid.
  eexists. split; [done|]. eapply (inv_move s hd _ t w _ Hi Hw); try done.
  - intros g. unfold owns. cbn. by rewrite Epc.
  - intros g. by rewrite Epc.
  - unfold idle_ok. cbn. list_cases Hid; rewrite Hid; cbn; set_solver.
  - count_workers Epc.
  - count_workers Epc.
Qed.

(** ** Scheduling *)
Lemma schedule_fields ft s : (is_Some (ft_fiber ft) ∨ is_Some (ft_cb ft)) →
  ∃ n, schedule ft s = Nat.iter n tickle (with_queue (m_fibers s ++ [ft]) s).
Proof.
  intros Hft. unfold schedule, scheduleNoLock.
  destruct (bool_decide (m_fibers s = [])); [exists 1%nat|exists 0%nat]; cbn;
    destruct (ft_fiber ft), (ft_cb ft); try done; by destruct Hft as [[? ?]|[? ?]].
Qed.
Lemma inv_tickles n s hd : inv s hd → inv (Nat.iter n tickle s) hd.
Proof. intros Hi. induction n; [done|]. by apply inv_tickle. Qed.

(** A fiber is given to the queue by whoever has it: a holder, or the worker
    that just put it down. *)
Lemma queue_push s f thr : queue_fibers (with_queue (m_fibers s ++ [fiber_task f thr]) s) = queue_fibers s ++ [f].
Proof. unfold queue_fibers. cbn. by rewrite omap_app. Qed.
Lemma queue_push_cb s c thr : queue_fibers (with_queue (m_fibers s ++ [cb_task c thr]) s) = queue_fibers s.
Proof. unfold queue_fibers. cbn. by rewrite omap_app, app_nil_r. Qed.
Lemma fiber_task_ok f thr : task_ok (fiber_task f thr).
Proof. unfold task_ok. cbn. split; [done|]. intros _. by eexists. Qed.
Lemma cb_task_ok c thr : task_ok (cb_task c thr).
Proof. unfold task_ok. cbn. split; [by intros [? ?]|done]. Qed.
Lemma with_worker_tickles n t w s :
  with_worker t w (Nat.iter n tickle s) = Nat.iter n tickle (with_worker t w s).
Proof. induction n as [|n IH]; [done|]. by rewrite !Nat.iter_succ, <- IH. Qed.

(** The worker gives the fiber back to the queue, or leaves it suspended. *)
Lemma settle_ready s hd t w f cb : inv s hd → workers s !! t = Some w → w_pc w = Post f cb →
  state_in s f [READY] → ¬ awaited s hd f →
  inv (with_worker t (mkWorker Fetching (if cb is Some _ then None else cb_fiber w) (idle_fiber w))
         (schedule (fiber_task f (-1)) s)) hd.
Proof.
  intros Hi Hw Epc Hst Hna. pose proof (inv_worker s hd Hi t w Hw) as [Hpc Hsp Hid].
  unfold pc_ok, idle_ok in Hpc, Hid. rewrite Epc in Hpc, Hid, Hsp. destruct Hpc as [_ Hm].
  destruct (schedule_fields (fiber_task f (-1)) s) as [n ->]; [left; by eexists|].
  rewrite with_worker_tickles. apply inv_tickles. set (w' := mkWorker _ _ _). set (s' := with_worker _ _ _).
  assert (queue_fibers s' = queue_fibers s ++ [f]) as Eq by apply queue_push.
  assert (∀ g, awaited s' hd g ↔ awaited s hd g ∨ g = f) as Haw.
  { intros g. unfold awaited. rewrite Eq, elem_of_app, list_elem_of_singleton. tauto. }
  apply (inv_change (Some f) s hd s' hd t w w'); try done.
  - intros g Hg. split; [done|]. rewrite Haw. naive_solver.
  - intros ? ? ? [= <-]. apply (others_free s hd t w); [done..|]. right. by rewrite Epc.
  - intros g Hg. unfold owns. cbn. rewrite Epc. cbn. unfold marked in Hm. destruct cb; naive_solver.
  - apply Forall_app. split; [apply (inv_queue s hd Hi)|]. repeat constructor; cbn; naive_solver.
  - rewrite Eq. apply NoDup_app. split_and!; [apply (inv_nodup s hd Hi)| |apply NoDup_singleton].
    intros g Hg ->%list_elem_of_singleton. apply Hna. by left.
  - intros g Hg. rewrite Eq, elem_of_app, list_elem_of_singleton. intros [H|Hgf].
    + by apply (inv_held s hd Hi g Hg).
    + subst g. apply Hna. by right.
  - split; [done| |done]. intros g Hg _. cbn in Hg. unfold marked in Hm. destruct cb; [done|].
    destruct (Hsp g Hg) as [H1 H2]; [cbn; naive_solver|]. split; [done|]. rewrite Haw. intros [H3|H3]; [done|by subst g].
  - intros ? [= <-] _. right. destruct Hst as (x & Hx & Hin). exists x. split; [done|]. list_cases Hin. rewrite Hin. set_solver.
  - count_workers Epc.
  - count_workers Epc.
Qed.

Lemma settle_hold s hd t w f cb x : inv s hd → workers s !! t = Some w → w_pc w = Post f cb →
  fibers s !! f = Some x →
  inv (with_worker t (mkWorker Fetching (if cb is Some _ then None else cb_fiber w) (idle_fiber w))
         (with_fibers (<[f := set_state HOLD x]> (fibers s)) s)) hd.
Proof.
  intros Hi Hw Epc Hx. pose proof (inv_worker s hd Hi t w Hw) as [Hpc Hsp Hid].
  unfold pc_ok, idle_ok in Hpc, Hid. rewrite Epc in Hpc, Hid, Hsp. destruct Hpc as [_ Hm].
  set (w' := mkWorker _ _ _). set (s' := with_worker _ _ _).
  apply (inv_local (Some f) s hd s' t w w'); try done.
  - intros g Hg. cbn. apply lookup_insert_ne. congruence.
  - intros ? ? ? [= <-]. apply (others_free s hd t w); [done..|]. right. by rewrite Epc.
  - intros g Hg. unfold owns. cbn. rewrite Epc. cbn. unfold marked in Hm. destruct cb; naive_solver.
  - split; [done| |done]. intros g Hg _. cbn in Hg. unfold marked in Hm. destruct cb; [done|].
    destruct (Hsp g Hg) as [(y & Hy & ?) H2]; [cbn; naive_solver|]. split; [|by rewrite (awaited_same s s')].
    exists y. cbn. by rewrite lookup_insert_ne by naive_solver.
  - intros ? [= <-] _. right. exists (set_state HOLD x). cbn. rewrite lookup_insert_eq. split; [done|]. set_solver.
  - count_workers Epc.
  - count_workers Epc.
Qed.

Lemma settle_ended s hd t w f cb x : inv s hd → workers s !! t = Some w → w_pc w = Post f cb →
  fibers s !! f = Some x → finished (m_state x) = true → ¬ awaited s hd f →
  ∃ s', settle t w f cb s = Ok s' ∧ inv s' hd.
Proof.
  intros Hi Hw Epc Hx Hfin Hna. pose proof (inv_worker s hd Hi t w Hw) as [Hpc Hsp Hid].
  unfold pc_ok, idle_ok in Hpc, Hid. rewrite Epc in Hpc, Hid, Hsp. destruct Hpc as [_ Hm].
  unfold finished in Hfin. apply bool_decide_eq_true in Hfin.
  assert (assert_in x [TERM; EXCEPT; INIT] = Ok tt) as Has.
  { unfold assert_in. rewrite bool_decide_true; [done|]. destruct Hfin as [-> | ->]; set_solver. }
  assert (settle t w f cb s = if cb is Some _ then
      Ok (with_worker t (at_pc Fetching w) (with_fibers (<[f := new_Fiber None]> (fibers s)) s))
    else Ok (with_worker t (at_pc Fetching w) s)) as ->.
  { unfold settle, get_fiber, reset. rewrite Hx. cbn [of_option obind]. rewrite Has. by destruct Hfin as [-> | ->]. }
  destruct cb as [c|]; (eexists; split; [done|]).
  - eapply (inv_switch s hd _ t w (at_pc Fetching w) f (Some c) (new_Fiber None)); try done.
    + by rewrite Epc.
    + by right.
    + count_workers Epc.
    + count_workers Epc.
  - eapply (inv_local (Some f) s hd _ t w (at_pc Fetching w)); try done.
    + intros ? ? ? [= <-]. apply (others_free s hd t w); [done..|]. right. by rewrite Epc.
    + intros g Hg. unfold owns. cbn. rewrite Epc. cbn. naive_solver.
    + split; [done| |done]. intros g Hg _. cbn in Hg, Hm. apply Hsp; [done|]. cbn. naive_solver.
    + intros ? [= <-] ?. done.
    + count_workers Epc.
    + count_workers Epc.
Qed.

Lemma settle_ok s hd t w f cb : inv s hd → workers s !! t = Some w → w_pc w = Post f cb →
  ∃ s', settle t w f cb s = Ok s' ∧ inv s' hd.
Proof.
  intros Hi Hw Epc. pose proof (wo_pc _ _ _ (inv_worker s hd Hi t w Hw)) as Hpc.
  unfold pc_ok in Hpc. rewrite Epc in Hpc. destruct Hpc as [[Hst|[Hst Hna]] _];
    destruct (state_in_find _ _ _ Hst) as (x & E & Hx & Hin).
  - list_cases Hin. eexists. unfold settle. rewrite E. cbn [obind]. rewrite Hin. split; [done|].
    by apply settle_hold.
  - list_cases Hin.
    + eexists. unfold settle. rewrite E. cbn [obind]. rewrite Hin. split; [done|].
      apply settle_ready; try done. exists x. rewrite Hin. split; [done|by left].
    + eapply settle_ended; try done. by rewrite Hin.
    + eapply settle_ended; try done. by rewrite Hin.
Qed.
