(* ===== verification/SchedulerThms.v ===== *)
(** * What the scheduler guarantees

    Every interleaving keeps the invariant and meets no failed assertion; every
    piece of work is run exactly as often as it was scheduled; pinned work runs
    on its thread; [stopping] is not stable. *)
From S2P Require Import Prelude Fiber Scheduler SchedulerSpec.

(** ** Every step *)
Lemma run_step_ok s hd t w o : inv s hd → workers s !! t = Some w → run_step t w s = Some o →
  ∃ s', o = Ok s' ∧ inv s' hd.
Proof.
  intros Hi Hw. unfold run_step. destruct (w_pc w) eqn:Epc; intros [= <-].
  - by apply (fetch_ok s hd t w).
  - by apply (dispatch_ok s hd t w).
  - by apply (enter_ok s hd t w).
  - eexists. split; [done|]. by apply swap_out_ok.
  - eexists. split; [done|]. by apply count_down_ok.
  - by apply (settle_ok s hd t w).
  - by apply (idle_step_ok s hd t w).
  - by apply (idle_out_ok s hd t w).
Qed.

Lemma running_at w f : running w = Some f → ∃ cb, w_pc w = Running f cb.
Proof. unfold running. destruct (w_pc w); naive_solver. Qed.

(** The fiber sets its state and leaves. *)
Lemma leave_ok s hd t w f cb x : inv s hd → workers s !! t = Some w → w_pc w = Running f cb →
  m_state x ∈ settled → ¬ awaited s hd f →
  inv (with_worker t (at_pc (Leaving f cb) w) (with_fibers (<[f := x]> (fibers s)) s)) hd.
Proof.
  intros Hi Hw Epc Hin Hna. pose proof (inv_worker s hd Hi t w Hw) as [Hpc _ Hid].
  unfold pc_ok, idle_ok in Hpc, Hid. rewrite Epc in Hpc, Hid. destruct Hpc as [_ Hm].
  eapply (inv_switch s hd _ t w (at_pc (Leaving f cb) w) f cb x); try done.
  - by rewrite Epc.
  - by left.
  - split_and!; [|done..]. exists x. cbn. by rewrite lookup_insert_eq.
  - count_workers Epc.
  - count_workers Epc.
Qed.

Lemma act_ok s hd t w f a o : inv s hd → workers s !! t = Some w → running w = Some f →
  a = YieldHold ∨ ¬ awaited s hd f → act a t w s = Some o → ∃ s', o = Ok s' ∧ inv s' hd.
Proof.
  intros Hi Hw [cb Epc]%running_at Ha. unfold act. rewrite Epc. intros [= <-].
  pose proof (inv_worker s hd Hi t w Hw) as [Hpc _ Hid].
  unfold pc_ok, idle_ok in Hpc, Hid. rewrite Epc in Hpc, Hid. destruct Hpc as [Hst Hm].
  destruct (state_in_find _ _ _ Hst) as (x & E & Hx & Hin). rewrite E. cbn [obind].
  assert (assert_in x [EXEC] = Ok tt) as Has by (unfold assert_in; by rewrite bool_decide_true).
  destruct a.
  - unfold YieldToReady. rewrite Has. cbn [obind]. eexists. split; [done|].
    apply leave_ok; try done; [cbn; set_solver|by destruct Ha].
  - unfold YieldToHold. rewrite Has. cbn [obind]. eexists. split; [done|].
    eapply (inv_switch s hd _ t w (at_pc (Out f cb) w) f cb x); try done.
    + by rewrite Epc.
    + by left.
    + split; [left|done]. exists x. cbn. by rewrite lookup_insert_eq.
    + count_workers Epc.
    + count_workers Epc.
  - eexists. split; [done|]. apply leave_ok; try done; [cbn; set_solver|by destruct Ha].
  - eexists. split; [done|]. apply leave_ok; try done; [cbn; set_solver|by destruct Ha].
Qed.

Lemma arm_ok s hd t w f : inv s hd → workers s !! t = Some w → running w = Some f →
  ¬ awaited s hd f → inv s ({[f]} ∪ hd).
Proof.
  intros Hi Hw [cb Epc]%running_at Hna. pose proof (inv_worker s hd Hi t w Hw) as [Hpc Hsp Hid].
  apply (inv_change (Some f) s hd s _ t w w); try done.
  - by rewrite insert_id.
  - intros g Hg. split; [done|]. intros [?|?]; [by left|right; set_solver].
  - intros ? ? ? [= <-]. apply (others_free s hd t w); [done..|]. right. by rewrite Epc.
  - apply (inv_queue s hd Hi).
  - apply (inv_nodup s hd Hi).
  - intros g [->%elem_of_singleton|Hg]%elem_of_union; [|by apply (inv_held s hd Hi)].
    intros Hq. apply Hna. by left.
  - split; [| |done].
    + unfold pc_ok in *. by rewrite Epc in *.
    + rewrite Epc. cbn. intros g Hg Hne. destruct (Hsp g Hg) as [H1 H2]; [by rewrite Epc|]. split; [done|].
      intros [?|[?%elem_of_singleton|?]%elem_of_union]; [apply H2; by left|naive_solver|apply H2; by right].
  - intros ? [= <-] _. left. right. by rewrite Epc.
Qed.

Lemma wake_ok s hd f thr : inv s hd → f ∈ hd → inv (schedule (fiber_task f thr) s) (hd ∖ {[f]}).
Proof.
  intros Hi Hf. destruct (schedule_fields (fiber_task f thr) s) as [n ->]; [left; by eexists|].
  apply inv_tickles. pose proof (queue_push s f thr) as Eq. set (s' := with_queue _ _) in *.
  assert (∀ g, awaited s' (hd ∖ {[f]}) g → awaited s hd g) as Haw.
  { intros g. unfold awaited. rewrite Eq. set_solver. }
  apply (inv_outside s hd s' _ f); try done.
  - intros g _. split; [done|apply Haw].
  - left. split; [done|apply Haw].
  - apply Forall_app. split; [apply (inv_queue s hd Hi)|]. constructor; [apply fiber_task_ok|constructor].
  - rewrite Eq. apply NoDup_app. split_and!; [apply (inv_nodup s hd Hi)| |apply NoDup_singleton].
    intros g Hg ->%list_elem_of_singleton. by apply (inv_held s hd Hi f).
  - intros g [Hg Hne]%elem_of_difference. rewrite Eq. pose proof (inv_held s hd Hi g Hg). set_solver.
Qed.

Lemma post_cb_ok s hd c thr : inv s hd → inv (schedule (cb_task c thr) s) hd.
Proof.
  intros Hi. destruct (schedule_fields (cb_task c thr) s) as [n ->]; [right; by eexists|].
  apply inv_tickles. pose proof (queue_push_cb s c thr) as Eq. set (s' := with_queue _ _) in *.
  assert (∀ g, awaited s' hd g → awaited s hd g) as Haw by (intros g; unfold awaited; by rewrite Eq).
  apply (inv_outside s hd s' _ 0%nat); try done.
  - intros g _. split; [done|apply Haw].
  - left. split; [done|apply Haw].
  - apply Forall_app. split; [apply (inv_queue s hd Hi)|]. constructor; [apply cb_task_ok|constructor].
  - rewrite Eq. apply (inv_nodup s hd Hi).
  - intros g Hg. rewrite Eq. by apply (inv_held s hd Hi).
Qed.

Lemma drop_token_ok s hd f : inv s hd → inv s (hd ∖ {[f]}).
Proof.
  intros Hi. apply (inv_outside s hd s _ f); try done.
  - intros g _. split; [done|]. unfold awaited. set_solver.
  - left. split; [done|]. unfold awaited. set_solver.
  - apply (inv_queue s hd Hi).
  - apply (inv_nodup s hd Hi).
  - intros g [Hg _]%elem_of_difference. by apply (inv_held s hd Hi).
Qed.

Lemma spawn_ok s hd c : inv s hd → let f := new_address (fibers s) in
  inv (with_fibers (<[f := new_Fiber (Some c)]> (fibers s)) s) ({[f]} ∪ hd).
Proof.
  intros Hi f. assert (fibers s !! f = None) as Hf by apply new_address_free.
  assert (¬ awaited s hd f) as Hna by (intros Ha; destruct (awaited_fiber s hd f Hi Ha); congruence).
  apply (inv_outside s hd _ _ f); try done.
  - intros g Hg. cbn. rewrite lookup_insert_ne by done. split; [done|]. unfold awaited. set_solver.
  - right. split; [intros t w Hw; by eapply (fresh_unowned s hd)|].
    exists (new_Fiber (Some c)). cbn. rewrite lookup_insert_eq. split; [done|]. set_solver.
  - apply (inv_queue s hd Hi).
  - apply (inv_nodup s hd Hi).
  - intros g [->%elem_of_singleton|Hg]%elem_of_union; [|by apply (inv_held s hd Hi)].
    intros Hq. apply Hna. by left.
Qed.

Lemma wstep_ok l W o : inv (sys W) (held W) → wstep l W = Some o →
  ∃ W', o = Ok W' ∧ inv (sys W') (held W').
Proof.
  intros Hi. destruct l as [t|a t|t|f thr|f|c|c thr|n]; cbn [wstep].
  - destruct (workers (sys W) !! t) as [w|] eqn:Hw; cbn; [|done].
    destruct (run_step t w (sys W)) as [r|] eqn:Er; cbn; [|done]. intros [= <-].
    destruct (run_step_ok _ _ _ _ _ Hi Hw Er) as (s' & -> & Hi'). by eexists.
  - destruct (workers (sys W) !! t) as [w|] eqn:Hw; cbn; [|done].
    destruct (running w) as [f|] eqn:Ef; cbn; [|done]. case_decide as Ha; [|done].
    destruct (act a t w (sys W)) as [r|] eqn:Er; cbn; [|done]. intros [= <-].
    destruct (act_ok _ _ _ _ _ _ _ Hi Hw Ef Ha Er) as (s' & -> & Hi'). by eexists.
  - destruct (workers (sys W) !! t) as [w|] eqn:Hw; cbn; [|done].
    destruct (running w) as [f|] eqn:Ef; cbn; [|done]. case_decide as Ha; [done|]. intros [= <-].
    eexists. split; [done|]. by eapply arm_ok.
  - case_decide; [|done]. intros [= <-]. eexists. split; [done|]. by apply wake_ok.
  - intros [= <-]. eexists. split; [done|]. by apply drop_token_ok.
  - intros [= <-]. eexists. split; [done|]. by apply spawn_ok.
  - intros [= <-]. eexists. split; [done|]. by apply post_cb_ok.
  - intros [= <-]. eexists. split; [done|]. cbn. apply inv_tickles.
    apply (inv_outside (sys W) (held W) _ _ 0%nat); try done; [by left|apply Hi..].
Qed.

(** ** Runs *)
(** Executing labels; an undefined outcome ends the run, [None] means a label
    was not possible. *)
Fixpoint wexec (ls : list label) (W : world) : option (outcome world) :=
  match ls with
  | [] => Some (Ok W)
  | l :: ls =>
    match wstep l W with
    | Some (Ok W) => wexec ls W
    | r => r
    end
  end.

(** The scheduler just started on the threads [ts]. *)
Definition started (ts : list Z) : Scheduler :=
  foldr (λ t s, with_worker t new_worker s) (with_flags false false new_Scheduler) ts.
Example start_started : start [7; 8] new_Scheduler = Ok (started [7; 8]).
Proof. done. Qed.

Lemma started_workers ts t w : workers (started ts) !! t = Some w → w = new_worker.
Proof.
  induction ts as [|t' ts IH]; cbn; [done|]. rewrite lookup_insert. case_decide; naive_solver.
Qed.
Lemma started_fields ts : m_fibers (started ts) = [] ∧ m_activeThreadCount (started ts) = 0 ∧
  m_idleThreadCount (started ts) = 0.
Proof. induction ts as [|t' ts IH]; [done|]. apply IH. Qed.
Lemma tally_zero P m : (∀ t w, m !! t = Some w → P w = false) → tally P m = 0%nat.
Proof.
  intros H. unfold tally. apply map_size_empty_iff, map_empty. intros t.
  apply map_lookup_filter_None. right. intros w Hw. cbn. rewrite (H t w Hw). done.
Qed.
Lemma started_inv ts : inv (started ts) ∅.
Proof.
  destruct (started_fields ts) as (Eq & Ea & Ei).
  assert (∀ f, ¬ awaited (started ts) ∅ f) as Hna.
  { intros f. unfold awaited, queue_fibers. rewrite Eq. set_solver. }
  split; unfold queue_fibers; rewrite ?Eq, ?Ea, ?Ei.
  - constructor.
  - constructor.
  - set_solver.
  - intros t w ->%started_workers. split; [done|done|cbn; set_solver].
  - intros t1 t2 w1 w2 f ->%started_workers _ [?|?]; done.
  - intros f Hf. by destruct (Hna f).
  - by rewrite tally_zero by (by intros t w ->%started_workers).
  - by rewrite tally_zero by (by intros t w ->%started_workers).
Qed.

Lemma wexec_ok ls W o : inv (sys W) (held W) → wexec ls W = Some o →
  ∃ W', o = Ok W' ∧ inv (sys W') (held W').
Proof.
  revert W. induction ls as [|l ls IH]; cbn; intros W Hi; [intros [= <-]; by eexists|].
  destruct (wstep l W) as [r|] eqn:El; [|done].
  destruct (wstep_ok l W r Hi El) as (W' & -> & Hi'). by apply IH.
Qed.

(** ** Work *)
Inductive work := Resume (f : nat) | Call (c : nat).
#[export] Instance work_eq_dec : EqDecision work.
Proof. solve_decision. Defined.
Definition work_of (ft : FiberAndThread) : option work :=
  match ft_fiber ft with Some f => Some (Resume f) | None => Call <$> ft_cb ft end.
Definition in_hand (w : worker) : option work :=
  match w_pc w with
  | Picked (Some ft) _ => work_of ft
  | Entering f None => Some (Resume f)
  | Entering _ (Some c) => Some (Call c)
  | _ => None
  end.

(** What a label schedules, and what it starts to run. *)
Definition posted (l : label) (W : world) : list work :=
  match l with
  | Wake f _ => [Resume f]
  | Post_cb c _ => [Call c]
  | Run t =>
    match workers (sys W) !! t with
    | Some w =>
      match w_pc w with
      | Post f _ => if decide (m_state <$> fibers (sys W) !! f = Some READY) then [Resume f] else []
      | _ => []
      end
    | None => []
    end
  | _ => []
  end.
Definition begun (l : label) (W : world) : list work :=
  match l with
  | Run t =>
    match workers (sys W) !! t with
    | Some w => match w_pc w with Entering _ _ => option_list (in_hand w) | _ => [] end
    | None => []
    end
  | _ => []
  end.

Definition occ (x : work) (l : list work) : nat := length (filter (x =.) l).
Definition queued (s : Scheduler) : list work := omap work_of (m_fibers s).
Definition holds (x : work) (w : worker) : bool := bool_decide (in_hand w = Some x).
(** Scheduled and not yet started. *)
Definition pending (x : work) (s : Scheduler) : nat := (occ x (queued s) + tally (holds x) (workers s))%nat.

Lemma occ_app x l1 l2 : occ x (l1 ++ l2) = (occ x l1 + occ x l2)%nat.
Proof. unfold occ. by rewrite filter_app, length_app. Qed.
Lemma occ_perm x l1 l2 : l1 ≡ₚ l2 → occ x l1 = occ x l2.
Proof. unfold occ. by intros ->. Qed.
Lemma occ_option x (o : option work) : occ x (option_list o) = Nat.b2n (bool_decide (o = Some x)).
Proof.
  destruct o as [y|]; cbn [option_list]; [|done].
  unfold occ, filter. cbn. case_decide; case_bool_decide; naive_solver.
Qed.

Lemma pending_move x s s' t w w' : workers s !! t = Some w → workers s' = <[t:=w']> (workers s) →
  (pending x s' + occ x (queued s) + Nat.b2n (holds x w) =
   pending x s + occ x (queued s') + Nat.b2n (holds x w'))%nat.
Proof. intros Hw Hs. unfold pending. rewrite Hs. pose proof (tally_insert (holds x) _ t w w' Hw). lia. Qed.

(** Every step keeps the account: what is pending grows by what is scheduled
    and shrinks by what is started. *)
Definition balanced (l : label) (W W' : world) : Prop :=
  ∀ x, (pending x (sys W') + occ x (begun l W) = pending x (sys W) + occ x (posted l W))%nat.

Lemma balanced_move t s hd s' w w' : workers s !! t = Some w → workers s' = <[t:=w']> (workers s) →
  queued s' = queued s → in_hand w' = in_hand w → posted (Run t) (mkWorld s hd) = [] →
  begun (Run t) (mkWorld s hd) = [] → balanced (Run t) (mkWorld s hd) (mkWorld s' hd).
Proof.
  intros Hw Hs Hq Hh Hp Hb x. rewrite Hp, Hb. cbn [sys]. pose proof (pending_move x s s' t w w' Hw Hs) as H.
  unfold holds in H. rewrite Hq, Hh in H. lia.
Qed.

Lemma tickles_pending n x s : pending x (Nat.iter n tickle s) = pending x s.
Proof. by induction n as [|n IH]. Qed.

Lemma queued_push s ft : queued (with_queue (m_fibers s ++ [ft]) s) = queued s ++ option_list (work_of ft).
Proof. unfold queued. cbn. rewrite omap_app. cbn. by destruct (work_of ft). Qed.

Lemma schedule_pending ft s x : (is_Some (ft_fiber ft) ∨ is_Some (ft_cb ft)) →
  pending x (schedule ft s) = (pending x s + occ x (option_list (work_of ft)))%nat.
Proof.
  intros Hft. destruct (schedule_fields ft s Hft) as [n ->]. rewrite tickles_pending.
  unfold pending. rewrite queued_push, occ_app. cbn. lia.
Qed.

(** A worker that holds nothing counts for nothing. *)
Ltac tally_none :=
  repeat match goal with
  | H : context [bool_decide (@eq (option work) None ?y)] |- _ =>
    rewrite (bool_decide_eq_false_2 (@eq (option work) None y)) in H by done
  end; cbn [Nat.b2n] in *; lia.

Section steps.
Context (s : Scheduler) (hd : gset nat) (t : Z) (w : worker).
Hypotheses (Hi : inv s hd) (Hw : workers s !! t = Some w).

Lemma fetch_balanced s' : w_pc w = Fetching → fetch t w s = Ok s' →
  balanced (Run t) (mkWorld s hd) (mkWorld s' hd).
Proof using Hi Hw.
  intros Epc. unfold fetch. destruct (scan_spec s t (m_fibers s)) as (tk & r & rest & E & Hr).
  { apply (inv_queue s hd Hi). }
  { intros f Hf. apply (awaited_fiber s hd); [done|by left]. }
  rewrite E. cbn [obind]. intros [= <-] x. unfold posted, begun. cbn [sys]. rewrite Hw, Epc.
  set (s' := with_worker t _ _).
  pose proof (pending_move x s s' t w (at_pc (Picked r tk) w) Hw) as H. specialize (H ltac:(unfold s'; by destruct r)).
  assert (occ x (queued s) = (occ x (option_list (r ≫= work_of)) + occ x (queued s'))%nat) as Hq.
  { rewrite <- occ_app. apply occ_perm. unfold s', queued. destruct r as [ft|]; cbn; [|done].
    destruct Hr as (pre & post & -> & -> & _). rewrite !omap_app. cbn.
    destruct (work_of ft); cbn; [by rewrite <- Permutation_middle|done]. }
  rewrite occ_option in Hq. unfold holds, in_hand in H. cbn in H. rewrite Epc in H.
  change (occ x []) with 0%nat. destruct r as [ft|]; cbn in *; tally_none.
Qed.

Lemma dispatch_balanced ft tk s' : w_pc w = Picked ft tk → dispatch t w ft tk s = Ok s' →
  balanced (Run t) (mkWorld s hd) (mkWorld s' hd).
Proof using Hi Hw.
  intros Epc. pose proof (inv_worker s hd Hi t w Hw) as [Hpc Hsp Hid].
  unfold pc_ok in Hpc. rewrite Epc in Hpc. unfold dispatch. set (s1 := if tk then tickle s else s).
  assert (workers s1 = workers s ∧ m_fibers s1 = m_fibers s ∧ fibers s1 = fibers s) as (E1 & E2 & E3)
    by (unfold s1; by destruct tk).
  clearbody s1.
  assert (∀ s2 w2, workers s2 = <[t:=w2]> (workers s1) → m_fibers s2 = m_fibers s1 →
    in_hand w2 = in_hand w → balanced (Run t) (mkWorld s hd) (mkWorld s2 hd)) as Hgo.
  { intros s2 w2 H1 H2 H3. apply (balanced_move t s hd s2 w w2); try done.
    - congruence.
    - unfold queued. congruence.
    - unfold posted. cbn [sys]. by rewrite Hw, Epc.
    - unfold begun. cbn [sys]. by rewrite Hw, Epc. }
  unfold dispatch_other, dispatch_cb, get_fiber in *. unfold in_hand in Hgo. rewrite Epc in Hgo. destruct ft as [ft|].
  - destruct Hpc as [Hft Hpc]. unfold work_of in Hgo. destruct (ft_fiber ft) as [f|] eqn:Ef.
    + destruct (Hpc f eq_refl) as ((x & Hx & Hin) & _). rewrite E3, Hx. cbn [of_option obind].
      rewrite (waiting_unfinished _ Hin). cbn [negb]. intros [= <-]. by eapply Hgo.
    + destruct (ft_cb ft) as [c|] eqn:Ec.
      * destruct (cb_fiber w) as [f|].
        -- destruct (fibers s1 !! f) as [y|]; cbn [of_option obind]; [|done].
           destruct (reset (Some c) y); cbn [obind]; [|done..]. intros [= <-]. by eapply Hgo.
        -- intros [= <-]. by eapply Hgo.
      * unfold task_ok in Hft. rewrite Ef, Ec in Hft. by destruct Hft as [_ [? ?]].
  - case_bool_decide; [intros [= <-]; by eapply Hgo|]. case_bool_decide; [done|]. intros [= <-]. by eapply Hgo.
Qed.

Lemma enter_balanced f cb s' : w_pc w = Entering f cb → enter t w f cb s = Ok s' →
  balanced (Run t) (mkWorld s hd) (mkWorld s' hd).
Proof using Hi Hw.
  intros Epc. unfold enter. destruct (get_fiber s f) as [x| | |]; cbn [obind]; [|done..].
  destruct (swapIn x); cbn [obind]; [|done..]. intros [= <-] y. unfold posted, begun. cbn [sys]. rewrite Hw, Epc.
  set (s' := with_worker t _ _). pose proof (pending_move y s s' t w (at_pc (Running f cb) w) Hw eq_refl) as H.
  change (queued s') with (queued s) in H. rewrite occ_option. unfold holds in H. cbn [in_hand at_pc w_pc] in H.
  change (occ y []) with 0%nat. tally_none.
Qed.

Lemma settle_balanced f cb s' : w_pc w = Post f cb → settle t w f cb s = Ok s' →
  balanced (Run t) (mkWorld s hd) (mkWorld s' hd).
Proof using Hi Hw.
  intros Epc. unfold settle, get_fiber. intros Hs y. unfold posted, begun. cbn [sys]. rewrite Hw, Epc.
  change (occ y []) with 0%nat.
  destruct (fibers s !! f) as [x|] eqn:Hx; cbn [of_option obind fmap option_fmap option_map] in *; [|done].
  assert (∀ s2 w2, workers s2 = <[t:=w2]> (workers s) → in_hand w2 = None →
    (pending y s2 + occ y (queued s) = pending y s + occ y (queued s2))%nat) as Hgo.
  { intros s2 w2 H1 H2. pose proof (pending_move y s s2 t w w2 Hw H1) as H.
    unfold holds in H. rewrite H2 in H. unfold in_hand in H. rewrite Epc in H. tally_none. }
  destruct (decide (Some (m_state x) = Some READY)) as [[= Er]|Hr].
  - rewrite Er in Hs. injection Hs as <-.
    destruct (schedule_fields (fiber_task f (-1)) s) as [n En]; [left; by eexists|]. rewrite En, with_worker_tickles, tickles_pending.
    set (s2 := with_worker t _ _). specialize (Hgo s2 _ eq_refl eq_refl).
    change (queued s2) with (queued (with_queue (m_fibers s ++ [fiber_task f (-1)]) s)) in Hgo.
    rewrite queued_push, occ_app in Hgo. cbn in *. lia.
  - change (occ y []) with 0%nat. destruct (m_state x); cbn in Hs; try congruence;
      try (injection Hs as <-; set (s2 := with_worker t _ _); specialize (Hgo s2 _ eq_refl eq_refl);
           change (queued s2) with (queued s) in Hgo; lia);
      destruct cb; cbn in Hs; try (destruct (reset None x); cbn in Hs; [|done..]);
      injection Hs as <-; set (s2 := with_worker t _ _); specialize (Hgo s2 _ eq_refl eq_refl);
      change (queued s2) with (queued s) in Hgo; lia.
Qed.
End steps.

(** Steps that neither queue nor start anything. *)
Lemma balanced_idle l W W' : posted l W = [] → begun l W = [] →
  (∀ x, pending x (sys W') = pending x (sys W)) → balanced l W W'.
Proof. intros Hp Hb H x. by rewrite Hp, Hb, H. Qed.

Lemma pending_same x s s' t w w' : workers s !! t = Some w → workers s' = <[t:=w']> (workers s) →
  queued s' = queued s → in_hand w' = in_hand w → pending x s' = pending x s.
Proof.
  intros Hw Hs Hq Hh. pose proof (pending_move x s s' t w w' Hw Hs) as H. unfold holds in H.
  rewrite Hq, Hh in H. lia.
Qed.

Lemma run_step_balanced s hd t w s' : inv s hd → workers s !! t = Some w → run_step t w s = Some (Ok s') →
  balanced (Run t) (mkWorld s hd) (mkWorld s' hd).
Proof.
  intros Hi Hw. unfold run_step. destruct (w_pc w) eqn:Epc; intros [= Hs].
  - by eapply fetch_balanced.
  - by eapply dispatch_balanced.
  - by eapply enter_balanced.
  - rewrite <- Hs. eapply balanced_move; try done; unfold posted, begun, in_hand; cbn [sys]; by rewrite ?Hw, ?Epc.
  - rewrite <- Hs. eapply balanced_move; try done; unfold posted, begun, in_hand; cbn [sys]; by rewrite ?Hw, ?Epc.
  - by eapply settle_balanced.
  - rewrite <- Hs. eapply balanced_move; try done; unfold posted, begun, in_hand; cbn [sys]; by rewrite ?Hw, ?Epc.
  - rewrite <- Hs. eapply balanced_move; try done; unfold posted, begun, in_hand; cbn [sys]; by rewrite ?Hw, ?Epc.
Qed.

Lemma act_pending x a t w f s s' : workers s !! t = Some w → running w = Some f →
  act a t w s = Some (Ok s') → pending x s' = pending x s.
Proof.
  intros Hw [cb Epc]%running_at. unfold act. rewrite Epc. intros [= Hs].
  destruct (get_fiber s f) as [y| | |]; cbn [obind] in Hs; [|done..].
  assert (∀ s2 w2, workers s2 = <[t:=w2]> (workers s) → queued s2 = queued s → in_hand w2 = None →
    pending x s2 = pending x s) as Hgo.
  { intros s2 w2 H1 H2 H3. eapply pending_same; try done. unfold in_hand at 2. by rewrite Epc. }
  destruct a; try (injection Hs as <-; by eapply Hgo).
  - destruct (YieldToReady y); cbn in Hs; [|done..]. injection Hs as <-. by eapply Hgo.
  - destruct (YieldToHold y); cbn in Hs; [|done..]. injection Hs as <-. by eapply Hgo.
Qed.

Lemma wstep_balanced l W W' : inv (sys W) (held W) → wstep l W = Some (Ok W') → balanced l W W'.
Proof.
  destruct W as [s hd]. cbn [sys held]. intros Hi. destruct l as [t|a t|t|f thr|f|c|c thr|n]; cbn [wstep sys held].
  - destruct (workers s !! t) as [w|] eqn:Hw; cbn; [|done].
    destruct (run_step t w s) as [r|] eqn:Er; cbn; [|done]. destruct r as [s'| | |]; cbn; [|done..].
    intros [= <-]. by eapply run_step_balanced.
  - destruct (workers s !! t) as [w|] eqn:Hw; cbn; [|done].
    destruct (running w) as [f|] eqn:Ef; cbn; [|done]. case_decide; [|done].
    destruct (act a t w s) as [[s'| | |]|] eqn:Er; cbn; [|done..]. intros [= <-].
    apply balanced_idle; try done. intros x. by eapply act_pending.
  - destruct (workers s !! t) as [w|] eqn:Hw; cbn; [|done].
    destruct (running w) as [f|] eqn:Ef; cbn; [|done]. case_decide; [done|]. intros [= <-]. by apply balanced_idle.
  - case_decide; [|done]. intros Hr.
    assert (W' = mkWorld (schedule (fiber_task f thr) s) (hd ∖ {[f]})) as -> by congruence.
    unfold balanced. intros x. cbn [sys begun posted].
    rewrite schedule_pending by (left; by eexists). cbn. lia.
  - intros [= <-]. by apply balanced_idle.
  - intros [= <-]. by apply balanced_idle.
  - intros Hr. assert (W' = mkWorld (schedule (cb_task c thr) s) hd) as -> by (unfold with_sys in Hr; cbn [held] in Hr; congruence).
    unfold balanced. intros x. cbn [sys begun posted]. rewrite schedule_pending by (right; by eexists). cbn. lia.
  - intros Hr. assert (W' = mkWorld (stop n s) hd) as -> by (unfold with_sys in Hr; cbn [held] in Hr; congruence).
    apply balanced_idle; try done. intros x. cbn [sys]. unfold stop. by rewrite tickles_pending.
Qed.

(** What a whole run scheduled and started. *)
Fixpoint trace (ev : label → world → list work) (ls : list label) (W : world) : list work :=
  match ls with
  | [] => []
  | l :: ls => ev l W ++ match wstep l W with Some (Ok W) => trace ev ls W | _ => [] end
  end.

(** ** Properties *)
(** C1: However the steps of the worker threads, of the fibers' code and of the
    threads that schedule are interleaved - each fiber's wake-up being in one
    hand at a time - no assertion of the scheduler fails and nothing undefined
    happens: no fiber is ever in two workers, a fiber being executed is in state
    EXEC, nobody else may start it, and the two counters are the numbers of
    workers busy with a task and inside the idle fiber. *)
Theorem scheduler_safe (ts : list Z) (ls : list label) (o : outcome world) :
  wexec ls (mkWorld (started ts) ∅) = Some o →
  ∃ W, o = Ok W ∧
    (∀ t1 t2 w1 w2 f, workers (sys W) !! t1 = Some w1 → workers (sys W) !! t2 = Some w2 →
      owns w1 f → owns w2 f → t1 = t2) ∧
    (∀ t w f, workers (sys W) !! t = Some w → running w = Some f → state_in (sys W) f [EXEC]) ∧
    m_activeThreadCount (sys W) = Z.of_nat (tally active (workers (sys W))) ∧
    m_idleThreadCount (sys W) = Z.of_nat (tally idling (workers (sys W))).
Proof.
  intros Hr. destruct (wexec_ok ls (mkWorld (started ts) ∅) o (started_inv ts) Hr) as (W & -> & Hi).
  exists W. split_and!; [done|apply (inv_owner _ _ Hi)| |apply Hi|apply Hi].
  intros t w f Hw [cb Epc]%running_at.
  pose proof (wo_pc _ _ _ (inv_worker _ _ Hi t w Hw)) as Hpc. unfold pc_ok in Hpc. rewrite Epc in Hpc. apply Hpc.
Qed.

Lemma wexec_balanced x ls W W' : inv (sys W) (held W) → wexec ls W = Some (Ok W') →
  (pending x (sys W') + occ x (trace begun ls W) = pending x (sys W) + occ x (trace posted ls W))%nat.
Proof.
  revert W. induction ls as [|l ls IH]; cbn [wexec trace]; intros W Hi; [by intros [= <-]|].
  destruct (wstep l W) as [[W1| | |]|] eqn:El; [|done..]. intros Hr.
  destruct (wstep_ok l W _ Hi El) as (W2 & [= <-] & Hi'). specialize (IH W1 Hi' Hr).
  pose proof (wstep_balanced l W W1 Hi El x). rewrite !occ_app. lia.
Qed.

(** C2: Under the same discipline nothing scheduled is lost or run twice: in
    every run, each callback and each resumption of a fiber has been started as
    often as it was scheduled, less those that still wait in the queue or in
    the hands of a worker about to start them. *)
Theorem scheduled_runs_once (ts : list Z) (ls : list label) (W : world) (x : work) :
  wexec ls (mkWorld (started ts) ∅) = Some (Ok W) →
  occ x (trace posted ls (mkWorld (started ts) ∅)) =
    (occ x (trace begun ls (mkWorld (started ts) ∅)) + occ x (queued (sys W)) + tally (holds x) (workers (sys W)))%nat.
Proof.
  intros Hr. pose proof (wexec_balanced x ls (mkWorld (started ts) ∅) W (started_inv ts) Hr) as H.
  assert (pending x (started ts) = 0%nat) as H0.
  { unfold pending, queued. destruct (started_fields ts) as (-> & _). rewrite tally_zero; [done|].
    by intros t w ->%started_workers. }
  unfold pending in *. cbn [sys] in *. lia.
Qed.

(** In a well-formed scheduler the critical section of a worker takes the
    first task of the queue that is for any thread or for its own and whose
    fiber is not executing, leaves all others in their order and counts the
    worker as active; it finds none exactly when there is none, and asks for a
    tickle when it passed over a task of another thread or tasks remain behind
    the one it took. *)
Theorem fetch_exact (s : Scheduler) (hd : gset nat) (t : Z) (w : worker) :
  inv s hd → workers s !! t = Some w → w_pc w = Fetching →
  ∃ r tk s', run_step t w s = Some (Ok s') ∧ workers s' !! t = Some (at_pc (Picked r tk) w) ∧
    match r with
    | None => Forall (λ ft, ¬ eligible s t ft) (m_fibers s) ∧ m_fibers s' = m_fibers s ∧
        m_activeThreadCount s' = m_activeThreadCount s ∧ tk = existsb (λ ft, negb (mine t ft)) (m_fibers s)
    | Some ft => ∃ pre post, m_fibers s = pre ++ ft :: post ∧ m_fibers s' = pre ++ post ∧
        eligible s t ft ∧ Forall (λ ft, ¬ eligible s t ft) pre ∧
        m_activeThreadCount s' = m_activeThreadCount s + 1 ∧
        tk = existsb (λ ft, negb (mine t ft)) pre || negb (bool_decide (post = []))
    end.
Proof.
  intros Hi Hw Epc. unfold run_step. rewrite Epc. unfold fetch.
  destruct (scan_spec s t (m_fibers s)) as (tk & r & rest & E & Hr).
  { apply (inv_queue s hd Hi). }
  { intros f Hf. apply (awaited_fiber s hd); [done|by left]. }
  rewrite E. cbn [obind]. exists r, tk. eexists. split; [done|]. split.
  { destruct r; cbn; by rewrite lookup_insert_eq. }
  destruct r as [ft|]; [|cbn; naive_solver].
  destruct Hr as (pre & post & H1 & -> & H2 & H3 & H4). exists pre, post. naive_solver.
Qed.

(** ** Shutting down *)
Definition passive (w : worker) : bool :=
  match w_pc w with Fetching | Picked None _ | Idling | IdleOut | Stopped => true | _ => false end.
(** The steps a worker has left once [stopping] holds. *)
Definition rank (w : worker) : nat :=
  let over := bool_decide (idle_fiber w = TERM) in
  match w_pc w with
  | Fetching => if over then 2 else 6
  | Picked _ _ => if over then 1 else 5
  | Idling => 4
  | IdleOut => if over then 3 else 7
  | _ => 0
  end.
Definition quiet (s : Scheduler) : Prop :=
  stopping s = true ∧ ∀ t w, workers s !! t = Some w → passive w = true ∧ idle_ok w.

Lemma stopping_spec s : stopping s = true ↔
  m_autoStop s = true ∧ m_stopping s = true ∧ m_fibers s = [] ∧ m_activeThreadCount s = 0.
Proof. unfold stopping. rewrite !andb_true_iff, bool_decide_eq_true, Z.eqb_eq. tauto. Qed.

Lemma quiet_step s t w : quiet s → workers s !! t = Some w → w_pc w ≠ Stopped →
  ∃ s' w', run_step t w s = Some (Ok s') ∧ workers s' = <[t:=w']> (workers s) ∧ quiet s' ∧ (rank w' < rank w)%nat.
Proof.
  intros [Hst Hq] Hw Hne. destruct (Hq t w Hw) as [Hp Hid].
  pose proof (proj1 (stopping_spec s) Hst) as (Ha & Hs & Hf & Hc).
  assert (∀ s' w', workers s' = <[t:=w']> (workers s) → stopping s' = true → passive w' = true → idle_ok w' → quiet s') as Hgo.
  { intros s' w' E1 E2 E3 E4. split; [done|]. intros t2 w2. rewrite E1, lookup_insert. case_decide; naive_solver. }
  unfold run_step, passive, idle_ok in *. destruct (w_pc w) as [|[ft|] tk| | | | | | | |] eqn:Epc; try done.
  - unfold fetch. rewrite Hf. cbn. eexists _, (at_pc (Picked None false) w). split; [done|]. split; [done|].
    split; [by eapply Hgo|]. unfold rank. cbn. rewrite Epc. case_bool_decide; lia.
  - unfold dispatch, dispatch_other. case_bool_decide as Ht.
    + eexists _, (at_pc Stopped w). split; [done|]. split; [by destruct tk|]. split.
      * eapply Hgo; [by destruct tk| |done|done]. by destruct tk.
      * unfold rank. cbn. rewrite Epc, bool_decide_true by done. lia.
    + rewrite bool_decide_false by (by list_cases Hid; rewrite Hid).
      eexists _, (mkWorker Idling (cb_fiber w) EXEC). split; [done|]. split; [by destruct tk|]. split.
      * eapply Hgo; [by destruct tk| |done|done]. by destruct tk.
      * unfold rank. cbn. rewrite Epc, bool_decide_false by done. lia.
  - unfold idle. rewrite Hst. eexists _, (mkWorker IdleOut (cb_fiber w) TERM). split; [done|]. split; [done|]. split.
    + eapply Hgo; try done. set_solver.
    + unfold rank. cbn. rewrite Epc, bool_decide_true by done. lia.
  - unfold idle_out. eexists _, _. split; [done|]. split; [done|]. split.
    + eapply Hgo; [done|done|done|]. unfold idle_ok. cbn. list_cases Hid; rewrite Hid; cbn; set_solver.
    + unfold rank. cbn. rewrite Epc. list_cases Hid; rewrite Hid; cbn; repeat case_bool_decide; try done; lia.
Qed.

Lemma quiet_start s hd : inv s hd → stopping s = true →
  (∀ t w f cb, workers s !! t = Some w → w_pc w ≠ Post f cb) → quiet s.
Proof.
  intros Hi Hst Hpost. split; [done|]. intros t w Hw. split; [|by apply (inv_worker s hd Hi t w Hw)].
  pose proof (proj1 (stopping_spec s) Hst) as (_ & _ & _ & Hc). rewrite (inv_active s hd Hi) in Hc.
  assert (active w = false) as Hna.
  { destruct (active w) eqn:E; [|done]. exfalso. unfold tally in Hc.
    assert (filter (λ tw : Z * worker, active (tw.2) = true) (workers s) = ∅) as He.
    { apply map_size_empty_iff. lia. }
    apply (f_equal (lookup t)) in He. rewrite lookup_empty, map_lookup_filter_None in He.
    destruct He as [He|He]; [congruence|]. by apply (He w Hw). }
  specialize (Hpost t w). unfold active, passive in *. destruct (w_pc w) as [|[]| | | | | | | |]; naive_solver.
Qed.

Lemma quiet_run ts : ∀ s hd o, quiet s → wexec (Run <$> ts) (mkWorld s hd) = Some o →
  ∃ s', o = Ok (mkWorld s' hd) ∧ quiet s' ∧
    ∀ t w, workers s !! t = Some w → ∃ w', workers s' !! t = Some w' ∧
      (count_occ Z.eq_dec ts t + rank w' ≤ rank w)%nat.
Proof.
  induction ts as [|t ts IH]; cbn [fmap list_fmap wexec]; intros s hd o Hq.
  { intros [= <-]. exists s. split_and!; [done..|]. intros t w Hw. exists w. cbn. split; [done|lia]. }
  cbn [wstep sys]. destruct (workers s !! t) as [w|] eqn:Hw; cbn [mbind option_bind]; [|done].
  destruct (decide (w_pc w = Stopped)) as [Hs|Hs].
  { unfold run_step. rewrite Hs. done. }
  destruct (quiet_step s t w Hq Hw Hs) as (s1 & w1 & -> & Ews & Hq1 & Hr). cbn.
  intros Hx. destruct (IH s1 hd o Hq1 Hx) as (s' & -> & Hq' & Hall). exists s'. split_and!; [done..|].
  intros t2 w2 H2. rewrite Ews in Hall. destruct (decide (t2 = t)) as [->|Hne].
  - simplify_eq. destruct (Hall t w1) as (w' & H' & ?); [by rewrite lookup_insert_eq|].
    exists w'. split; [done|]. destruct (Z.eq_dec t t); [|done]. lia.
  - destruct (Hall t2 w2) as (w' & H' & ?); [by rewrite lookup_insert_ne by done|].
    exists w'. split; [done|]. destruct (Z.eq_dec t t2); [congruence|]. lia.
Qed.

(** C14: Once [stop] was called, the queue is empty, no worker is active and none
    is still deciding what becomes of a fiber it ran, the workers wind down:
    however their steps are interleaved [stopping] stays true, each worker takes
    at most seven more steps, and until it has returned from [run] its next step
    is possible; so the joins of [stop] return. *)
Theorem shutdown_terminates (s : Scheduler) (hd : gset nat) (ts : list Z) (o : outcome world) :
  inv s hd → stopping s = true → (∀ t w f cb, workers s !! t = Some w → w_pc w ≠ Post f cb) →
  wexec (Run <$> ts) (mkWorld s hd) = Some o →
  ∃ s', o = Ok (mkWorld s' hd) ∧ stopping s' = true ∧
    ∀ t w, workers s !! t = Some w → (count_occ Z.eq_dec ts t ≤ 7)%nat ∧
      ∃ w', workers s' !! t = Some w' ∧ (w_pc w' = Stopped ∨ ∃ s2, run_step t w' s' = Some (Ok s2)).
Proof.
  intros Hi Hst Hpost Hx. pose proof (quiet_start s hd Hi Hst Hpost) as Hq.
  destruct (quiet_run ts s hd o Hq Hx) as (s' & -> & Hq' & Hall). exists s'. split_and!; [done|apply Hq'|].
  intros t w Hw. destruct (Hall t w Hw) as (w' & Hw' & Hle). split.
  - unfold rank in Hle at 2. destruct (w_pc w); try case_bool_decide; lia.
  - exists w'. split; [done|]. destruct (decide (w_pc w' = Stopped)) as [|Hne]; [by left|right].
    destruct (quiet_step s' t w' Hq' Hw' Hne) as (s2 & _ & E & _). by exists s2.
Qed.

(** ** Sample runs *)
(** Two threads: thread 1 runs callback 10, whose fiber hands out its wake-up and
    waits; thread 2 pins that fiber to thread 1; a second callback yields. *)
Definition sample_labels : list label :=
  [Post_cb 10 (-1); Run 1; Run 1; Run 1; Arm 1; Act YieldHold 1; Run 1; Run 1; Wake 0 1;
   Post_cb 20 (-1); Run 2; Run 2; Run 2; Run 1; Run 1; Run 1; Act Return 1; Act YieldReady 2;
   Run 2; Run 2; Run 2].
Definition sample_world : world := mkWorld (started [1; 2]) ∅.
Definition sample_end : option (outcome world) := wexec sample_labels sample_world.

Example sample_runs : (λ o, obind o (λ W, Ok (m_fibers (sys W), m_activeThreadCount (sys W)))) <$> sample_end =
  Some (Ok ([fiber_task 1 (-1)], 1)).
Proof. by vm_compute. Qed.
Example sample_posted : trace posted sample_labels sample_world = [Call 10; Resume 0; Call 20; Resume 1].
Proof. by vm_compute. Qed.
Example sample_begun : trace begun sample_labels sample_world = [Call 10; Call 20; Resume 0].
Proof. by vm_compute. Qed.

(** A READY fiber goes back to the queue without the thread it was pinned to. *)
Example pin_is_lost :
  (λ o, obind o (λ W, Ok (m_fibers (sys W)))) <$>
    wexec [Spawn 5; Wake 0 1; Run 1; Run 1; Run 1; Act YieldReady 1; Run 1; Run 1; Run 1] sample_world =
  Some (Ok [fiber_task 0 (-1)]).
Proof. by vm_compute. Qed.

(** [stopping] holds between the count-down and the rescheduling of a READY
    fiber: thread 2 winds down although work is left. *)
Example stopping_too_early :
  (λ o, obind o (λ W, Ok (w_pc <$> workers (sys W) !! 2, m_fibers (sys W)))) <$>
    wexec [Ask_stop 2; Post_cb 10 (-1); Run 1; Run 1; Run 1; Act YieldReady 1; Run 1; Run 1;
           Run 2; Run 2; Run 2; Run 2; Run 2; Run 2; Run 1] sample_world =
  Some (Ok (Some Stopped, [fiber_task 0 (-1)])).
Proof. by vm_compute. Qed.

(** Without the discipline: a fiber that yields READY while its wake-up is queued
    is resumed twice, and the second [swapIn] fails its assertion. *)
Definition twice_queued : Scheduler :=
  mkScheduler {[0%nat := mkFiber READY (Some 5%nat)]} [fiber_task 0 (-1); fiber_task 0 (-1)] 0 0 false false
    (workers (started [1; 2])) 0.
Example double_resume_asserts :
  wexec [Run 1; Run 2; Run 1; Run 2; Run 1; Run 2] (mkWorld twice_queued ∅) = Some (Undef AssertFail).
Proof. by vm_compute. Qed.

Lemma scheduler_safe_witness : ∃ W, sample_end = Some (Ok W) ∧
  m_activeThreadCount (sys W) = Z.of_nat (tally active (workers (sys W))).
Proof.
  destruct sample_end as [o|] eqn:E; [|by vm_compute in E].
  destruct (scheduler_safe [1; 2] sample_labels o E) as (W & -> & _ & _ & H & _). exists W. exact (conj eq_refl H).
Defined.
Lemma scheduled_runs_once_witness : ∃ W, sample_end = Some (Ok W) ∧
  occ (Resume 1) (trace posted sample_labels sample_world) =
    (occ (Resume 1) (trace begun sample_labels sample_world) + occ (Resume 1) (queued (sys W)) +
     tally (holds (Resume 1)) (workers (sys W)))%nat.
Proof.
  destruct sample_end as [[W| | |]|] eqn:E; try (by vm_compute in E).
  exists W. split; [done|]. exact (scheduled_runs_once [1; 2] sample_labels W (Resume 1) E).
Defined.
Lemma fetch_exact_witness : ∃ r tk s', run_step 1 new_worker (started [1; 2]) = Some (Ok s') ∧
  workers s' !! 1 = Some (at_pc (Picked r tk) new_worker).
Proof.
  destruct (fetch_exact (started [1; 2]) ∅ 1 new_worker (started_inv _) eq_refl eq_refl)
    as (r & tk & s' & H1 & H2 & _).
  by exists r, tk, s'.
Defined.
Definition idle_end : Scheduler := stop 2 (started [1; 2]).
Lemma idle_end_inv : inv idle_end ∅.
Proof.
  unfold idle_end, stop. apply inv_tickles. apply (inv_outside (started [1; 2]) ∅ _ _ 0%nat); try done;
    [apply started_inv|by left|apply started_inv..].
Qed.
Lemma shutdown_terminates_witness :
  ∃ s', wexec (Run <$> [1; 2; 2; 1; 1; 1; 2; 1; 1; 2; 2; 2]) (mkWorld idle_end ∅) = Some (Ok (mkWorld s' ∅)) ∧
    stopping s' = true.
Proof.
  destruct (wexec _ _) as [o|] eqn:E; [|by vm_compute in E].
  assert (∀ t w f cb, workers idle_end !! t = Some w → w_pc w ≠ Post f cb) as Hpost.
  { intros t w f cb Hw. apply (started_workers [1; 2]) in Hw as ->. done. }
  destruct (shutdown_terminates idle_end ∅ [1; 2; 2; 1; 1; 1; 2; 1; 1; 2; 2; 2] o idle_end_inv eq_refl Hpost E)
    as (s' & -> & H & _).
  exists s'. exact (conj eq_refl H).
Defined.
