(* ===== verification/IOManager.v ===== *)
(** * The I/O manager (iomanager.cc, iomanager.h)

    File descriptors, the events fibers and callbacks wait for on them, and the
    idle loop that schedules what has become ready.  A section under one lock is
    one step.  The kernel's epoll instance is a type class: its operations and
    the documented effect of a successful and of a failing call. *)
From S2P Require Import Prelude Fiber Scheduler.
From S2P Require Timer.

(** ** epoll *)
Inductive EpollCtlOp := EPOLL_CTL_ADD | EPOLL_CTL_MOD | EPOLL_CTL_DEL.
Definition EPOLLIN : Z := 1.
Definition EPOLLOUT : Z := 4.
Definition EPOLLERR : Z := 8.
Definition EPOLLHUP : Z := 16.
Definition EPOLLET : Z := 2 ^ 31.

Class Epoll (K : Type) := {
  epoll_ctl : EpollCtlOp → Z → Z → K → Z * K;
  interest : K → gmap Z Z }.
(** A call that answers 0 had the effect its operation names; another had none. *)
Class EpollLaws (K : Type) `{Epoll K} := {
  epoll_ctl_effect op fd ev k :
    interest (epoll_ctl op fd ev k).2 =
    if (epoll_ctl op fd ev k).1 =? 0 then
      match op with EPOLL_CTL_DEL => delete fd (interest k) | _ => <[fd:=ev]> (interest k) end
    else interest k }.

(** ** State *)
(** [IOManager::Event] *)
Definition NONE : Z := 0.
Definition READ : Z := 1.
Definition WRITE : Z := 4.

(** [EventContext]: [ec_scheduler] tells whether the pointer is set. *)
Record EventContext := mkEC { ec_scheduler : bool; ec_fiber : option nat; ec_cb : option nat }.
#[export] Instance EventContext_eq_dec : EqDecision EventContext.
Proof. solve_decision. Defined.
Definition empty_context : EventContext := mkEC false None None.
Record FdContext := mkFC { fc_read : EventContext; fc_write : EventContext; fc_fd : Z; fc_events : Z }.
Definition new_FdContext (fd : Z) : FdContext := mkFC empty_context empty_context fd NONE.

Section iomanager.
Context {K : Type} `{Epoll K}.

(** [io_heap] are the [FdContext] objects by address, [m_fdContexts] the vector
    of pointers. *)
Record IOManager := mkIO {
  io_sched : Scheduler;
  io_timers : Timer.TimerManager;
  io_heap : list FdContext;
  m_fdContexts : list nat;
  m_pendingEventCount : Z;
  m_epfd : K }.
Definition with_sched s io := mkIO s (io_timers io) (io_heap io) (m_fdContexts io) (m_pendingEventCount io) (m_epfd io).
Definition with_timers m io := mkIO (io_sched io) m (io_heap io) (m_fdContexts io) (m_pendingEventCount io) (m_epfd io).
Definition with_ctx a c io :=
  mkIO (io_sched io) (io_timers io) (<[a:=c]> (io_heap io)) (m_fdContexts io) (m_pendingEventCount io) (m_epfd io).
Definition with_table heap table io :=
  mkIO (io_sched io) (io_timers io) heap table (m_pendingEventCount io) (m_epfd io).
Definition with_pending n io := mkIO (io_sched io) (io_timers io) (io_heap io) (m_fdContexts io) n (m_epfd io).
Definition with_epoll k io :=
  mkIO (io_sched io) (io_timers io) (io_heap io) (m_fdContexts io) (m_pendingEventCount io) k.

(** ** Contexts *)
Definition getContext (ev : Z) (c : FdContext) : outcome EventContext :=
  if ev =? READ then Ok (fc_read c) else if ev =? WRITE then Ok (fc_write c) else Undef AssertFail.
Definition putContext (ev : Z) (x : EventContext) (c : FdContext) : FdContext :=
  if ev =? READ then mkFC x (fc_write c) (fc_fd c) (fc_events c)
  else mkFC (fc_read c) x (fc_fd c) (fc_events c).
Definition with_events (v : Z) (c : FdContext) : FdContext := mkFC (fc_read c) (fc_write c) (fc_fd c) v.
Definition resetContext (x : EventContext) : EventContext := empty_context.

(** [triggerEvent]: the callback or the fiber is moved into the scheduler's
    queue. *)
Definition triggerEvent (ev : Z) (c : FdContext) (s : Scheduler) : outcome (FdContext * Scheduler) :=
  obind (assert (negb (Z.land (fc_events c) ev =? 0))) (λ _,
  let c := with_events (Z.land (fc_events c) (Z.lnot ev)) c in
  obind (getContext ev c) (λ x,
  if negb (ec_scheduler x) then Undef NullDeref else
  match ec_cb x with
  | Some cb => Ok (putContext ev (mkEC false (ec_fiber x) None) c, schedule (mkFT None (Some cb) (-1)) s)
  | None => Ok (putContext ev (mkEC false None None) c, schedule (mkFT (ec_fiber x) None (-1)) s)
  end)).

(** ** The table *)
Definition contextResize (size : Z) (io : IOManager) : IOManager :=
  let n := length (m_fdContexts io) in
  let new := drop n (seqZ 0 size) in
  with_table (io_heap io ++ (new_FdContext <$> new))
    (take (Z.to_nat size) (m_fdContexts io) ++ ((λ i, length (io_heap io) + i)%nat <$> seq 0 (length new))) io.

(** [(int)m_fdContexts.size() > fd] *)
Definition in_table (fd : Z) (io : IOManager) : bool := fd <? i32 (Z.of_nat (length (m_fdContexts io))).
(** [m_fdContexts[fd]] *)
Definition context_at (fd : Z) (io : IOManager) : outcome nat :=
  if fd <? 0 then Undef OutOfBounds else of_option OutOfBounds (m_fdContexts io !! Z.to_nat fd).
Definition context (a : nat) (io : IOManager) : outcome FdContext := of_option NullDeref (io_heap io !! a).

(** The vector's index after [contextResize(fd * 1.5)]. *)
Definition addEvent_grow (fd : Z) : M IOManager nat :=
  modst (contextResize (fd * 3 / 2)) ;;!
  let! io := getst in lift (context_at fd io).
Definition addEvent_find (fd : Z) : M IOManager nat :=
  let! io := getst in
  if in_table fd io then lift (context_at fd io) else addEvent_grow fd.

(** [addEvent] from where it locks the context.  [this]: whether the thread has
    a scheduler; [cb]: the callback, if one is given; [cur]: the current fiber
    and its state. *)
Definition addEvent_on (a : nat) (fd ev : Z) (this : bool) (cb : option nat) (cur : nat * State) : M IOManager Z :=
  let! io := getst in
  let! c := lift (context a io) in
  if negb (Z.land (fc_events c) ev =? 0) then undef AssertFail else
  let op := if fc_events c =? 0 then EPOLL_CTL_ADD else EPOLL_CTL_MOD in
  let (rt, k) := epoll_ctl op fd (Z.lor EPOLLET (Z.lor (fc_events c) ev)) (m_epfd io) in
  putst (with_epoll k io) ;;!
  if negb (rt =? 0) then ret (-1) else
  modst (λ io, with_pending (u64 (m_pendingEventCount io + 1)) io) ;;!
  let c := with_events (Z.lor (fc_events c) ev) c in
  let! x := lift (getContext ev c) in
  lift (assert (bool_decide (x = empty_context))) ;;!
  (match cb with
   | Some cb => modst (with_ctx a (putContext ev (mkEC this None (Some cb)) c))
   | None =>
     lift (assert (bool_decide (cur.2 = EXEC))) ;;!
     modst (with_ctx a (putContext ev (mkEC this (Some (cur.1)) None) c))
   end) ;;!
  ret 0.

Definition addEvent (fd ev : Z) (this : bool) (cb : option nat) (cur : nat * State) : M IOManager Z :=
  let! a := addEvent_find fd in addEvent_on a fd ev this cb cur.

(** The table lookup of the other operations. *)
Definition find_context (fd : Z) : M IOManager (option nat) :=
  let! io := getst in
  if negb (in_table fd io) then ret None else let! a := lift (context_at fd io) in ret (Some a).

(** Taking event [ev] of context [a] out of the epoll set; [k] continues when
    the kernel agreed. *)
Definition drop_event (a : nat) (fd ev : Z) (k : FdContext → M IOManager bool) : M IOManager bool :=
  let! io := getst in
  let! c := lift (context a io) in
  if Z.land (fc_events c) ev =? 0 then ret false else
  let new_events := Z.land (fc_events c) (Z.lnot ev) in
  let op := if new_events =? 0 then EPOLL_CTL_DEL else EPOLL_CTL_MOD in
  let (rt, ep) := epoll_ctl op fd (Z.lor EPOLLET new_events) (m_epfd io) in
  putst (with_epoll ep io) ;;!
  if negb (rt =? 0) then ret false else k c.

Definition count_down : M IOManager unit :=
  modst (λ io, with_pending (u64 (m_pendingEventCount io - 1)) io).

(** [triggerEvent(ev)] on the context at [a], whose value is [c]. *)
Definition trigger_at (a : nat) (ev : Z) (c : FdContext) : M IOManager FdContext :=
  let! io := getst in
  let! cs := lift (triggerEvent ev c (io_sched io)) in
  putst (with_sched (cs.2) (with_ctx a (cs.1) io)) ;;! ret (cs.1).

(** The end of [delEvent] and of [cancelEvent]. *)
Definition forget_waiter (a : nat) (ev : Z) (c : FdContext) : M IOManager bool :=
  count_down ;;!
  let c := with_events (Z.land (fc_events c) (Z.lnot ev)) c in
  let! x := lift (getContext ev c) in
  modst (with_ctx a (putContext ev (resetContext x) c)) ;;! ret true.
Definition wake_waiter (a : nat) (ev : Z) (c : FdContext) : M IOManager bool :=
  trigger_at a ev c ;;! count_down ;;! ret true.
Definition delEvent_on (a : nat) (fd ev : Z) : M IOManager bool := drop_event a fd ev (forget_waiter a ev).
Definition cancelEvent_on (a : nat) (fd ev : Z) : M IOManager bool := drop_event a fd ev (wake_waiter a ev).
(** [if(b) { triggerEvent(ev); --m_pendingEventCount; }] *)
Definition fire_if (b : bool) (a : nat) (ev : Z) (c : FdContext) : M IOManager FdContext :=
  if b then let! c := trigger_at a ev c in count_down ;;! ret c else ret c.
Definition cancelAll_on (a : nat) (fd : Z) : M IOManager bool :=
  let! io := getst in
  let! c := lift (context a io) in
  if fc_events c =? 0 then ret false else
  let (rt, ep) := epoll_ctl EPOLL_CTL_DEL fd 0 (m_epfd io) in
  putst (with_epoll ep io) ;;!
  if negb (rt =? 0) then ret false else
  let! c := fire_if (negb (Z.land (fc_events c) READ =? 0)) a READ c in
  let! c := fire_if (negb (Z.land (fc_events c) WRITE =? 0)) a WRITE c in
  lift (assert (fc_events c =? 0)) ;;! ret true.

Definition on_context (fd : Z) (k : nat → M IOManager bool) : M IOManager bool :=
  let! a := find_context fd in match a with None => ret false | Some a => k a end.
Definition delEvent (fd ev : Z) : M IOManager bool := on_context fd (λ a, delEvent_on a fd ev).
Definition cancelEvent (fd ev : Z) : M IOManager bool := on_context fd (λ a, cancelEvent_on a fd ev).
Definition cancelAll (fd : Z) : M IOManager bool := on_context fd (λ a, cancelAll_on a fd).

(** ** The idle loop *)
(** One reported event: the context it was registered with and its mask. *)
Definition handle_event (a : nat) (events : Z) : M IOManager unit :=
  let! io := getst in
  let! c := lift (context a io) in
  let events := if negb (Z.land events (Z.lor EPOLLERR EPOLLHUP) =? 0)
                then Z.lor events (Z.land (Z.lor EPOLLIN EPOLLOUT) (fc_events c)) else events in
  let real_events := Z.lor (if negb (Z.land events EPOLLIN =? 0) then READ else NONE)
                       (if negb (Z.land events EPOLLOUT =? 0) then WRITE else NONE) in
  if Z.land (fc_events c) real_events =? NONE then ret tt else
  let left_events := Z.land (fc_events c) (Z.lnot real_events) in
  let op := if left_events =? 0 then EPOLL_CTL_DEL else EPOLL_CTL_MOD in
  let (rt2, ep) := epoll_ctl op (fc_fd c) (Z.lor EPOLLET left_events) (m_epfd io) in
  putst (with_epoll ep io) ;;!
  if negb (rt2 =? 0) then ret tt else
  let! c := fire_if (negb (Z.land real_events READ =? 0)) a READ c in
  fire_if (negb (Z.land real_events WRITE =? 0)) a WRITE c ;;! ret tt.
Fixpoint handle_events (evs : list (nat * Z)) : M IOManager unit :=
  match evs with
  | [] => ret tt
  | (a, e) :: evs => handle_event a e ;;! handle_events evs
  end.

(** [stopping(timeout)]: whether to stop, and the time to the next timer. *)
Definition stopping (now : Z) (io : IOManager) : (bool * Z) * IOManager :=
  let (timeout, m) := Timer.getNextTimer now (io_timers io) in
  let io := with_timers m io in
  ((timeout =? 2 ^ 64 - 1) && (m_pendingEventCount io =? 0) && Scheduler.stopping (io_sched io), timeout, io).

(** The argument of [epoll_wait]. *)
Definition MAX_TIMEOUT : Z := 3000.
Definition wait_time (next_timeout : Z) : Z :=
  let t := if negb (next_timeout =? 2 ^ 64 - 1)
           then (if MAX_TIMEOUT <? i32 next_timeout then MAX_TIMEOUT else next_timeout)
           else MAX_TIMEOUT in
  i32 t.

(** The callbacks of the expired timers go to the queue. *)
Definition schedule_timers (now : Z) (probe : nat) (name : Timer.callback → nat) (io : IOManager) : IOManager :=
  let (cbs, m) := Timer.listExpiredCb now probe (io_timers io) in
  let io := with_timers m io in
  match cbs with
  | [] => io
  | _ => with_sched (schedule_all ((λ cb, mkFT None (name <$> cb) (-1)) <$> cbs) (io_sched io)) io
  end.

(** One round of [idle] between two switches of its fiber: [evs] is what
    [epoll_wait] reported (the tickle pipe left out), [probe] the address of
    the timer manager's probe, [name] the identity of a timer's callback among
    the scheduler's.  The answer is whether the loop goes on. *)
Definition idle_round (now probe_time : Z) (probe : nat) (name : Timer.callback → nat) (evs : list (nat * Z))
    : M IOManager bool :=
  let! io := getst in
  let '(stop, _, io) := stopping now io in
  putst io ;;!
  if (stop : bool) then ret false else
  modst (schedule_timers probe_time probe name) ;;!
  handle_events evs ;;! ret true.

Definition new_IOManager (s : Scheduler) (now : Z) (epfd : K) : IOManager :=
  contextResize 32 (mkIO s (Timer.new_TimerManager now) [] [] 0 epfd).

(** [tickle] writes to the pipe only if some thread is idle. *)
Definition tickle_pipe (io : IOManager) : bool := 0 <? m_idleThreadCount (io_sched io).
End iomanager.
Arguments IOManager : clear implicits.
