(* ===== verification/IOManagerSpec.v ===== *)
(** * The I/O manager as a registry of waiters

    The contexts, the pending count and the epoll set are one registry: what
    waits for which event of which descriptor.  Every operation is refined to
    its effect on the registry and on the scheduler's queue. *)
From S2P Require Import Prelude Fiber Scheduler SchedulerSpec SchedulerThms IOManager.

(** ** The abstract registry *)
Abbreviation registry := (gmap (Z * Z) work).
Definition is_event (ev : Z) : Prop := ev = READ ∨ ev = WRITE.
Definition task_of (w : work) : FiberAndThread :=
  match w with Resume f => mkFT (Some f) None (-1) | Call c => mkFT None (Some c) (-1) end.
Definition bit (o : option work) (ev : Z) : Z := if o is Some _ then ev else NONE.
Definition events (m : registry) (fd : Z) : Z := Z.lor (bit (m !! (fd, READ)) READ) (bit (m !! (fd, WRITE)) WRITE).

Definition ec_of (o : option work) : EventContext :=
  match o with
  | None => empty_context
  | Some (Resume f) => mkEC true (Some f) None
  | Some (Call c) => mkEC true None (Some c)
  end.
Definition ctx_of (m : registry) (fd : Z) : FdContext :=
  mkFC (ec_of (m !! (fd, READ))) (ec_of (m !! (fd, WRITE))) fd (events m fd).

(** What the kernel watches. *)
Definition synced (k : gmap Z Z) (m : registry) : Prop :=
  ∀ fd, k !! fd = if events m fd =? 0 then None else Some (Z.lor EPOLLET (events m fd)).

(** Setting or clearing one entry. *)
Definition put (m : registry) (fd ev : Z) (o : option work) : registry := partial_alter (λ _, o) (fd, ev) m.

Lemma put_same m fd ev o : put m fd ev o !! (fd, ev) = o.
Proof. apply lookup_partial_alter_eq. Qed.
Lemma put_if_some m fd ev : (if bool_decide (is_Some (m !! (fd, ev))) then put m fd ev None else m) = put m fd ev None.
Proof.
  case_bool_decide as Hs; [done|]. symmetry. change (delete (fd, ev) m = m). apply delete_id. by apply eq_None_not_Some.
Qed.
Lemma put_other m fd ev o fd' ev' : (fd', ev') ≠ (fd, ev) → put m fd ev o !! (fd', ev') = m !! (fd', ev').
Proof. intros. by apply lookup_partial_alter_ne. Qed.
Lemma put_ctx_other m fd ev o fd' : fd' ≠ fd → ctx_of (put m fd ev o) fd' = ctx_of m fd'.
Proof. intros. unfold ctx_of, events. by rewrite !put_other by congruence. Qed.
Lemma put_events_other m fd ev o fd' : fd' ≠ fd → events (put m fd ev o) fd' = events m fd'.
Proof. intros. unfold events. by rewrite !put_other by congruence. Qed.

(** The bit arithmetic of [READ] and [WRITE], by cases. *)
Ltac event_cases := unfold events, ctx_of, bit, READ, WRITE, NONE in *; repeat case_match; simplify_eq; try done.

Lemma events_bit m fd ev : is_event ev → (Z.land (events m fd) ev =? 0) = negb (bool_decide (is_Some (m !! (fd, ev)))).
Proof.
  intros [-> | ->]; unfold events, bit;
    destruct (m !! (fd, READ)), (m !! (fd, WRITE)); done.
Qed.
Lemma events_zero m fd : events m fd = 0 ↔ m !! (fd, READ) = None ∧ m !! (fd, WRITE) = None.
Proof. unfold events, bit. destruct (m !! (fd, READ)), (m !! (fd, WRITE)); split; intros; simplify_eq/=; naive_solver. Qed.

Lemma events_put m fd ev o : is_event ev →
  events (put m fd ev o) fd =
    if o is Some _ then Z.lor (events m fd) ev else Z.land (events m fd) (Z.lnot ev).
Proof.
  intros [-> | ->]; unfold events; rewrite put_same, put_other by done;
    destruct o, (m !! (fd, READ)), (m !! (fd, WRITE)); done.
Qed.
Lemma getContext_ctx m fd ev e : is_event ev → getContext ev (with_events e (ctx_of m fd)) = Ok (ec_of (m !! (fd, ev))).
Proof. by intros [-> | ->]. Qed.
Lemma putContext_ctx m fd ev o : is_event ev →
  putContext ev (ec_of o) (with_events (events (put m fd ev o) fd) (ctx_of m fd)) = ctx_of (put m fd ev o) fd.
Proof. intros [-> | ->]; unfold ctx_of, putContext; cbn; rewrite put_same, put_other by done; done. Qed.

Lemma triggerEvent_ctx m fd ev w s : is_event ev → m !! (fd, ev) = Some w →
  triggerEvent ev (ctx_of m fd) s = Ok (ctx_of (put m fd ev None) fd, schedule (task_of w) s).
Proof.
  intros He Hw. unfold triggerEvent. cbn [fc_events ctx_of]. rewrite events_bit, Hw by done. cbn [negb bool_decide assert obind].
  rewrite bool_decide_true by done. cbn [negb assert obind].
  rewrite getContext_ctx, Hw by done. cbn [obind].
  rewrite <- (putContext_ctx m fd ev None), events_put by done.
  by destruct w.
Qed.

Lemma size_of_list (l : list (Z * Z)) : (size (list_to_set (C := gset (Z * Z)) l) ≤ length l)%nat.
Proof.
  induction l as [|x l IH]; cbn [list_to_set]; [by rewrite size_empty|].
  rewrite size_union_alt, size_singleton. cbn [length].
  pose proof (subseteq_size (list_to_set (C := gset (Z * Z)) l ∖ {[x]}) (list_to_set l) ltac:(set_solver)). lia.
Qed.

(** ** Representation *)
Section spec.
#[local] Set Default Proof Using "All".
Context {K : Type} `{EpollLaws K}.
Implicit Types io : IOManager K.

Record shape io (m : registry) : Prop := {
  sh_table : m_fdContexts io = seq 0 (length (io_heap io));
  sh_heap i : (i < length (io_heap io))%nat → io_heap io !! i = Some (ctx_of m (Z.of_nat i));
  sh_dom fd ev : is_Some (m !! (fd, ev)) → 0 ≤ fd < Z.of_nat (length (io_heap io)) ∧ is_event ev;
  sh_pending : m_pendingEventCount io = Z.of_nat (size m);
  sh_size : (32 ≤ length (io_heap io))%nat ∧ Z.of_nat (length (io_heap io)) < 2 ^ 31 }.
Definition rep io (m : registry) : Prop := shape io m ∧ synced (interest (m_epfd io)) m.

Lemma shape_bound io m : shape io m → Z.of_nat (size m) < 2 ^ 33.
Proof.
  intros Hs. destruct (sh_size io m Hs) as [_ Hn].
  assert (size m ≤ size (list_to_set (C := gset (Z * Z)) (seqZ 0 (Z.of_nat (length (io_heap io))) ≫= λ fd, [(fd, READ); (fd, WRITE)])))%nat as Hle.
  { rewrite <- (size_dom (D := gset (Z * Z)) m). apply subseteq_size. intros [fd ev] Hm%elem_of_dom.
    destruct (sh_dom io m Hs fd ev Hm) as [Hfd He]. apply elem_of_list_to_set, list_elem_of_bind.
    exists fd. split; [destruct He as [-> | ->]; set_solver|]. apply elem_of_seqZ. lia. }
  pose proof (size_of_list (seqZ 0 (Z.of_nat (length (io_heap io))) ≫= λ fd, [(fd, READ); (fd, WRITE)])) as Hl.
  assert (∀ l : list Z, length (l ≫= λ fd, [(fd, READ); (fd, WRITE)]) = (2 * length l)%nat) as E.
  { induction l as [|x l IH]; [done|]. cbn in *. lia. }
  rewrite E, length_seqZ in Hl. lia.
Qed.

(** Changing what the registry does not see. *)
Lemma shape_ext io io' m : shape io m → io_heap io' = io_heap io → m_fdContexts io' = m_fdContexts io →
  m_pendingEventCount io' = m_pendingEventCount io → shape io' m.
Proof. intros [H1 H2 H3 H4 H5] E1 E2 E3. split; by rewrite ?E1, ?E2, ?E3. Qed.

(** One context and the count follow one entry of the registry. *)
Lemma shape_put io io' m fd ev o : shape io m → is_event ev → 0 ≤ fd < Z.of_nat (length (io_heap io)) →
  io_heap io' = <[Z.to_nat fd := ctx_of (put m fd ev o) fd]> (io_heap io) → m_fdContexts io' = m_fdContexts io →
  m_pendingEventCount io' = Z.of_nat (size (put m fd ev o)) → shape io' (put m fd ev o).
Proof.
  intros Hs He Hfd E1 E2 E3. split; rewrite ?E1, ?E2, ?length_insert; try apply Hs; [| |done].
  - intros i Hi. destruct (decide (i = Z.to_nat fd)) as [->|Hne].
    + rewrite list_lookup_insert_eq by lia. by rewrite Z2Nat.id by lia.
    + rewrite list_lookup_insert_ne by done. rewrite put_ctx_other by lia. by apply Hs.
  - intros fd' ev'. destruct (decide ((fd', ev') = (fd, ev))) as [[= -> ->]|Hne]; [done|].
    rewrite put_other by done. apply Hs.
Qed.

Lemma size_put_None m fd ev w : m !! (fd, ev) = Some w → Z.of_nat (size (put m fd ev None)) = Z.of_nat (size m) - 1.
Proof.
  intros Hw. change (put m fd ev None) with (delete (fd, ev) m).
  rewrite map_size_delete_Some by (by rewrite Hw).
  assert (size m ≠ 0%nat) by (intros E%map_size_empty_inv; subst; done). lia.
Qed.
Lemma size_put_Some m fd ev w : m !! (fd, ev) = None → Z.of_nat (size (put m fd ev (Some w))) = Z.of_nat (size m) + 1.
Proof.
  intros Hw. assert (put m fd ev (Some w) = <[(fd, ev) := w]> m) as ->.
  { apply map_eq. intros [a b]. unfold put. rewrite lookup_partial_alter, lookup_insert. done. }
  rewrite map_size_insert_None by done. lia.
Qed.

(** The kernel's set after an [epoll_ctl] that fits the registry. *)
Lemma synced_put k m m' op fd e :
  synced (interest k) m → (∀ fd', fd' ≠ fd → events m' fd' = events m fd') →
  (op = EPOLL_CTL_DEL ↔ events m' fd = 0) → (op ≠ EPOLL_CTL_DEL → e = Z.lor EPOLLET (events m' fd)) →
  let r := epoll_ctl op fd e k in
  (r.1 = 0 → synced (interest (r.2)) m') ∧ (r.1 ≠ 0 → synced (interest (r.2)) m).
Proof.
  intros Hk Hm Hop He r. pose proof (epoll_ctl_effect op fd e k) as E. fold r in E. split; intros Hr.
  - rewrite (proj2 (Z.eqb_eq _ _) Hr) in E. intros fd'. rewrite E. destruct (decide (fd' = fd)) as [->|Hne].
    + destruct op; cbn.
      1,2: rewrite lookup_insert_eq, (proj2 (Z.eqb_neq _ _)), He by naive_solver; done.
      rewrite lookup_delete_eq, (proj2 (Z.eqb_eq _ _)) by naive_solver. done.
    + rewrite Hm by done. destruct op; rewrite ?lookup_insert_ne, ?lookup_delete_ne by done; apply Hk.
  - rewrite (proj2 (Z.eqb_neq _ _) Hr) in E. by rewrite E.
Qed.

(** ** The table *)
Lemma context_shape io m fd : shape io m → 0 ≤ fd < Z.of_nat (length (io_heap io)) →
  context_at fd io = Ok (Z.to_nat fd) ∧ context (Z.to_nat fd) io = Ok (ctx_of m fd) ∧ in_table fd io = true.
Proof.
  intros Hs Hfd. destruct (sh_size io m Hs). split_and!.
  - unfold context_at. rewrite (proj2 (Z.ltb_ge _ _)) by lia. rewrite (sh_table io m Hs).
    rewrite lookup_seq_lt by lia. done.
  - unfold context. rewrite (sh_heap io m Hs) by lia. by rewrite Z2Nat.id by lia.
  - unfold in_table. rewrite (sh_table io m Hs), length_seq. rewrite i32_small by lia. apply Z.ltb_lt. lia.
Qed.
Lemma not_in_table io m fd : shape io m → Z.of_nat (length (io_heap io)) ≤ fd → in_table fd io = false.
Proof.
  intros Hs Hfd. destruct (sh_size io m Hs). unfold in_table. rewrite (sh_table io m Hs), length_seq.
  rewrite i32_small by lia. apply Z.ltb_ge. lia.
Qed.

Lemma shape_none io m fd : shape io m → ¬ 0 ≤ fd < Z.of_nat (length (io_heap io)) → ctx_of m fd = new_FdContext fd.
Proof.
  intros Hs Hfd. assert (∀ ev, m !! (fd, ev) = None) as E.
  { intros ev. destruct (m !! (fd, ev)) as [w|] eqn:Ew; [|done]. exfalso. apply Hfd. apply (sh_dom io m Hs fd ev). by rewrite Ew. }
  unfold ctx_of, events. by rewrite !E.
Qed.

Lemma contextResize_shape io m n : shape io m → Z.of_nat (length (io_heap io)) < n < 2 ^ 31 →
  shape (contextResize n io) m ∧ length (io_heap (contextResize n io)) = Z.to_nat n.
Proof.
  intros Hs Hn. pose proof (sh_table io m Hs) as Et. destruct (sh_size io m Hs) as [Hlo _].
  set (L := length (io_heap io)) in *.
  assert (length (m_fdContexts io) = L) as El by (by rewrite Et, length_seq).
  assert (length (io_heap (contextResize n io)) = Z.to_nat n) as Elen.
  { unfold contextResize. cbn. rewrite length_app, length_fmap, length_drop, length_seqZ. fold L. lia. }
  split; [|done]. split; rewrite ?Elen; try apply Hs; [| | |lia].
  - unfold contextResize. cbn. rewrite El, length_drop, length_seqZ. fold L. rewrite Et, take_ge by (rewrite length_seq; lia).
    replace (Z.to_nat n) with (L + (Z.to_nat n - L))%nat at 2 by lia. rewrite seq_app. f_equal. cbn.
    apply list_eq. intros i. rewrite list_lookup_fmap. destruct (decide (i < Z.to_nat n - L)%nat).
    + by rewrite !lookup_seq_lt by lia.
    + by rewrite !lookup_seq_ge by lia.
  - intros i Hi. unfold contextResize. cbn. rewrite El. fold L. destruct (decide (i < L)%nat) as [Hl|Hl].
    + rewrite lookup_app_l by done. by apply Hs.
    + rewrite lookup_app_r by lia. fold L. rewrite list_lookup_fmap, lookup_drop. rewrite lookup_seqZ_lt by lia.
      cbn. f_equal. rewrite (shape_none io m) by (done || lia). f_equal. lia.
  - intros fd ev Hm. destruct (sh_dom io m Hs fd ev Hm) as [Hd He]. fold L in Hd. split; [lia|done].
Qed.

(** ** Firing one event *)
Definition fired io m fd ev w : IOManager K :=
  with_pending (u64 (m_pendingEventCount io - 1))
    (with_sched (schedule (task_of w) (io_sched io)) (with_ctx (Z.to_nat fd) (ctx_of (put m fd ev None) fd) io)).

Lemma fired_shape io m fd ev w : shape io m → m !! (fd, ev) = Some w → shape (fired io m fd ev w) (put m fd ev None).
Proof.
  intros Hs Hw. destruct (sh_dom io m Hs fd ev (mk_is_Some _ _ Hw)) as [Hfd He].
  apply (shape_put io); try done. cbn. rewrite (sh_pending io m Hs). pose proof (shape_bound io m Hs).
  rewrite (size_put_None _ _ _ w) by done. apply wrap_small.
  assert (size m ≠ 0%nat) by (intros E%map_size_empty_inv; subst; done). lia.
Qed.
Lemma fire_if_ok b io m fd ev : shape io m → (b = true → is_Some (m !! (fd, ev))) →
  let m' := if b then put m fd ev None else m in
  ∃ io', fire_if b (Z.to_nat fd) ev (ctx_of m fd) io = (Ok (ctx_of m' fd), io') ∧ shape io' m' ∧
    io_sched io' = foldl (λ s w, schedule (task_of w) s) (io_sched io) (if b then option_list (m !! (fd, ev)) else []) ∧
    io_timers io' = io_timers io ∧ m_epfd io' = m_epfd io.
Proof.
  intros Hs Hb. destruct b; [|by exists io]. destruct (Hb eq_refl) as [w Hw]. cbn zeta.
  destruct (sh_dom io m Hs fd ev (mk_is_Some _ _ Hw)) as [Hfd He].
  exists (fired io m fd ev w). rewrite Hw. split_and!; [|by apply fired_shape|done..].
  unfold fire_if, trigger_at, bind, getst, lift. rewrite (triggerEvent_ctx m fd ev w) by done. done.
Qed.
Lemma trigger_count_tt {B} io m fd ev w (r : B) : shape io m → m !! (fd, ev) = Some w →
  (trigger_at (Z.to_nat fd) ev (ctx_of m fd) ;;! count_down ;;! ret r) io = (Ok r, fired io m fd ev w).
Proof.
  intros Hs Hw. destruct (sh_dom io m Hs fd ev (mk_is_Some _ _ Hw)) as [Hfd He].
  unfold trigger_at, bind, getst, lift. rewrite (triggerEvent_ctx m fd ev w) by done. done.
Qed.

(** ** Calls and what they mean *)
Inductive call :=
| CAdd (fd ev : Z) (w : work)
| CDel (fd ev : Z)
| CCancel (fd ev : Z)
| CCancelAll (fd : Z)
| CReady (fd mask : Z).

Definition as_int (m : M (IOManager K) bool) : M (IOManager K) Z := let! b := m in ret (Z.b2z b).
Definition run_call (c : call) : M (IOManager K) Z :=
  match c with
  | CAdd fd ev (Call cb) => addEvent fd ev true (Some cb) (0%nat, EXEC)
  | CAdd fd ev (Resume f) => addEvent fd ev true None (f, EXEC)
  | CDel fd ev => as_int (delEvent fd ev)
  | CCancel fd ev => as_int (cancelEvent fd ev)
  | CCancelAll fd => as_int (cancelAll fd)
  | CReady fd mask => handle_event (Z.to_nat fd) mask ;;! ret 0
  end.

(** Whether the mask of a report, an error waking every waiter, names [ev]. *)
Definition reported (m : registry) (fd mask ev : Z) : bool :=
  negb (Z.land (if negb (Z.land mask (Z.lor EPOLLERR EPOLLHUP) =? 0)
                then Z.lor mask (Z.land (Z.lor READ WRITE) (events m fd)) else mask) ev =? 0).
Definition ready_waiters (m : registry) (fd mask : Z) : list work :=
  (if reported m fd mask READ then option_list (m !! (fd, READ)) else []) ++
  (if reported m fd mask WRITE then option_list (m !! (fd, WRITE)) else []).
Definition ready_left (m : registry) (fd mask : Z) : registry :=
  let m1 := if reported m fd mask READ then put m fd READ None else m in
  if reported m fd mask WRITE then put m1 fd WRITE None else m1.

(** Answer, registry and scheduled work; [ok] is the kernel's word. *)
Definition spec_call (ok : bool) (c : call) (m : registry) : Z * registry * list work :=
  match c with
  | CAdd fd ev w => if ok then (0, put m fd ev (Some w), []) else (-1, m, [])
  | CDel fd ev =>
    match m !! (fd, ev) with Some _ => if ok then (1, put m fd ev None, []) else (0, m, []) | None => (0, m, []) end
  | CCancel fd ev =>
    match m !! (fd, ev) with Some w => if ok then (1, put m fd ev None, [w]) else (0, m, []) | None => (0, m, []) end
  | CCancelAll fd =>
    if events m fd =? 0 then (0, m, [])
    else if ok then (1, put (put m fd READ None) fd WRITE None,
                     option_list (m !! (fd, READ)) ++ option_list (m !! (fd, WRITE)))
    else (0, m, [])
  | CReady fd mask => if ok then (0, ready_left m fd mask, ready_waiters m fd mask) else (0, m, [])
  end.

(** The [epoll_ctl] call that a call makes, if it makes one: its operation, descriptor
    and events, from the events waited for before and after; and the kernel's word on
    it, with the kernel after it. *)
Definition ctl (fd before after : Z) : EpollCtlOp * Z * Z :=
  (if after =? 0 then EPOLL_CTL_DEL else if before =? 0 then EPOLL_CTL_ADD else EPOLL_CTL_MOD, fd, Z.lor EPOLLET after).
Definition request (c : call) (m : registry) : option (EpollCtlOp * Z * Z) :=
  match c with
  | CAdd fd ev w => Some (ctl fd (events m fd) (events (put m fd ev (Some w)) fd))
  | CDel fd ev | CCancel fd ev =>
    match m !! (fd, ev) with Some _ => Some (ctl fd (events m fd) (events (put m fd ev None) fd)) | None => None end
  | CCancelAll fd => if events m fd =? 0 then None else Some (EPOLL_CTL_DEL, fd, 0)
  | CReady fd mask =>
    match ready_waiters m fd mask with [] => None | _ => Some (ctl fd (events m fd) (events (ready_left m fd mask) fd)) end
  end.
Definition answer (c : call) (m : registry) (k : K) : bool * K :=
  match request c m with
  | None => (true, k)
  | Some (op, fd, e) => let r := epoll_ctl op fd e k in (r.1 =? 0, r.2)
  end.

(** The caller's side: descriptors are not negative, an event is added where
    nothing waits, and a report is not stale: all it names is waited for (or
    nothing of it). *)
Definition legal (c : call) io (m : registry) : Prop :=
  match c with
  | CAdd fd ev w => 0 ≤ fd < 2 ^ 30 ∧ is_event ev ∧ m !! (fd, ev) = None
  | CDel fd ev | CCancel fd ev => 0 ≤ fd ∧ is_event ev
  | CCancelAll fd => 0 ≤ fd
  | CReady fd mask => 0 ≤ fd < Z.of_nat (length (m_fdContexts io)) ∧
      ((∀ ev, is_event ev → reported m fd mask ev = true → is_Some (m !! (fd, ev))) ∨
       (∀ ev, is_event ev → reported m fd mask ev = true → m !! (fd, ev) = None))
  end.

Definition schedule_work (ws : list work) (s : Scheduler) : Scheduler :=
  foldl (λ s w, schedule (task_of w) s) s ws.

Definition refines (c : call) io (m : registry) : Prop :=
  ∃ r m' ws io', spec_call (answer c m (m_epfd io)).1 c m = (r, m', ws) ∧ run_call c io = (Ok r, io') ∧
    rep io' m' ∧ io_sched io' = schedule_work ws (io_sched io) ∧ io_timers io' = io_timers io ∧
    m_epfd io' = (answer c m (m_epfd io)).2.

(** ** Each operation *)
Lemma contextResize_rest n io : io_sched (contextResize n io) = io_sched io ∧
  io_timers (contextResize n io) = io_timers io ∧ m_epfd (contextResize n io) = m_epfd io.
Proof. done. Qed.

Lemma addEvent_find_ok fd io m : rep io m → 0 ≤ fd < 2 ^ 30 →
  ∃ io1, addEvent_find fd io = (Ok (Z.to_nat fd), io1) ∧ rep io1 m ∧ io_sched io1 = io_sched io ∧
    io_timers io1 = io_timers io ∧ m_epfd io1 = m_epfd io ∧ fd < Z.of_nat (length (io_heap io1)).
Proof.
  intros [Hs Hk] Hfd. unfold addEvent_find, bind, getst. destruct (sh_size io m Hs) as [Hlo Hhi].
  destruct (decide (fd < Z.of_nat (length (io_heap io)))) as [Hin|Hout].
  - destruct (context_shape io m fd Hs) as (E1 & E2 & ->); [lia|]. unfold lift. rewrite E1. by exists io.
  - rewrite (not_in_table io m) by (done || lia). unfold addEvent_grow, bind, modst, getst, lift.
    assert (fd + 1 ≤ fd * 3 / 2) as Hg by (apply Z.div_le_lower_bound; lia).
    assert (fd * 3 / 2 < 2 ^ 31) as Hg' by (apply Z.div_lt_upper_bound; lia).
    destruct (contextResize_shape io m (fd * 3 / 2) Hs) as [Hs' Hl]; [lia|].
    assert (fd < Z.of_nat (length (io_heap (contextResize (fd * 3 / 2) io)))) as Hlt by (rewrite Hl; lia).
    destruct (context_shape _ m fd Hs') as (E1 & _ & _); [lia|]. rewrite E1.
    eexists. split; [done|]. split_and!; try done.
Qed.

(** The task an added event leaves in its context. *)
Lemma addEvent_on_ok fd ev w io m cb cur : rep io m → 0 ≤ fd < Z.of_nat (length (io_heap io)) → is_event ev →
  m !! (fd, ev) = None →
  (match w with Call c => cb = Some c | Resume f => cb = None ∧ cur = (f, EXEC) end) →
  ∃ r m' io', spec_call (answer (CAdd fd ev w) m (m_epfd io)).1 (CAdd fd ev w) m = (r, m', []) ∧
    addEvent_on (Z.to_nat fd) fd ev true cb cur io = (Ok r, io') ∧ rep io' m' ∧
    io_sched io' = io_sched io ∧ io_timers io' = io_timers io ∧ m_epfd io' = (answer (CAdd fd ev w) m (m_epfd io)).2.
Proof.
  intros [Hs Hk] Hfd He Hn Hw. destruct (context_shape io m fd Hs Hfd) as (E1 & E2 & _).
  unfold addEvent_on, bind, getst, lift. rewrite E2. cbn [fc_events ctx_of].
  rewrite events_bit, Hn by done. rewrite bool_decide_false by (by intros [? ?]). cbn [negb].
  set (op := if events m fd =? 0 then _ else _). set (e := Z.lor EPOLLET _).
  pose proof (events_put m fd ev (Some w) He) as Eev. cbn in Eev.
  destruct (synced_put (m_epfd io) m (put m fd ev (Some w)) op fd e Hk) as [Hok Hfail].
  { intros fd' Hne. by apply put_events_other. }
  { split; [unfold op; by destruct (events m fd =? 0)|]. intros E0. rewrite events_zero in E0.
    destruct He as [-> | ->]; rewrite put_same in E0; naive_solver. }
  { intros _. unfold e. by rewrite Eev. }
  assert (answer (CAdd fd ev w) m (m_epfd io) = let r := epoll_ctl op fd e (m_epfd io) in (r.1 =? 0, r.2)) as ->.
  { unfold answer. cbn [request]. unfold ctl. assert ((events (put m fd ev (Some w)) fd =? 0) = false) as ->.
    { apply Z.eqb_neq. intros E0. rewrite events_zero in E0. destruct He as [-> | ->]; rewrite put_same in E0; naive_solver. }
    unfold op, e. by rewrite Eev. }
  destruct (epoll_ctl op fd e (m_epfd io)) as [rt k]. cbn [fst snd] in *.
  destruct (Z.eqb_spec rt 0) as [->|Hrt]; cbn [negb].
  - exists 0, (put m fd ev (Some w)). rewrite <- Eev.
    unfold modst, putst, bind. set (io' := with_pending (u64 (m_pendingEventCount (with_epoll k io) + 1)) (with_epoll k io)).
    rewrite getContext_ctx, Hn by done. cbn [ec_of]. rewrite bool_decide_true by done. cbn [assert].
    assert (∀ x, x = ec_of (Some w) → putContext ev x (with_events (events (put m fd ev (Some w)) fd) (ctx_of m fd)) =
      ctx_of (put m fd ev (Some w)) fd) as Hp by (intros x ->; by apply putContext_ctx).
    exists (with_ctx (Z.to_nat fd) (ctx_of (put m fd ev (Some w)) fd) io').
    split_and!; [done| | |done|done|done].
    + destruct w as [f|c]; [destruct Hw as [-> ->]|rewrite Hw]; cbn -[putContext];
        rewrite Hp by done; done.
    + split; [|by apply Hok]. apply (shape_put io); try done. cbn. rewrite (sh_pending io m Hs).
      pose proof (shape_bound io m Hs). rewrite size_put_Some by done. apply wrap_small. lia.
  - exists (-1), m. eexists. unfold putst, ret. split_and!; try done.
    split; [by apply (shape_ext io)|by apply Hfail].
Qed.

Lemma add_refines fd ev w io m : rep io m → legal (CAdd fd ev w) io m → refines (CAdd fd ev w) io m.
Proof.
  intros Hr (Hfd & He & Hn). destruct (addEvent_find_ok fd io m Hr Hfd) as (io1 & E1 & Hr1 & Es & Et & Ek & Hlt).
  assert (∀ cb cur, (match w with Call c => cb = Some c | Resume f => cb = None ∧ cur = (f, EXEC) end) →
    ∃ r m' io', spec_call (answer (CAdd fd ev w) m (m_epfd io)).1 (CAdd fd ev w) m = (r, m', []) ∧ addEvent fd ev true cb cur io = (Ok r, io') ∧
      rep io' m' ∧ io_sched io' = io_sched io ∧ io_timers io' = io_timers io ∧ m_epfd io' = (answer (CAdd fd ev w) m (m_epfd io)).2) as Hgo.
  { intros cb cur Hw. destruct (addEvent_on_ok fd ev w io1 m cb cur Hr1 ltac:(lia) He Hn Hw)
      as (r & m' & io' & H1 & H2 & H3 & H4 & H5 & H6). rewrite Ek in H1, H6.
    exists r, m', io'. unfold addEvent, bind. rewrite E1. split_and!; congruence || done. }
  destruct w as [f|c].
  - destruct (Hgo None (f, EXEC)) as (r & m' & io' & H1 & H2 & H3 & H4 & H5 & H6); [done|].
    by exists r, m', [], io'.
  - destruct (Hgo (Some c) (0%nat, EXEC)) as (r & m' & io' & H1 & H2 & H3 & H4 & H5 & H6); [done|].
    by exists r, m', [], io'.
Qed.

(** Looking the context up, for the calls that never grow the table. *)
Lemma on_context_ok fd io m k : shape io m → 0 ≤ fd →
  as_int (on_context fd k) io =
    if decide (fd < Z.of_nat (length (io_heap io))) then as_int (k (Z.to_nat fd)) io else (Ok 0, io).
Proof.
  intros Hs Hfd. unfold as_int, on_context, find_context, bind, getst, lift.
  case_decide as Hlt.
  - destruct (context_shape io m fd Hs) as (E1 & _ & ->); [lia|]. cbn [negb]. by rewrite E1.
  - rewrite (not_in_table io m) by (done || lia). done.
Qed.
Lemma out_of_table io m fd ev : shape io m → ¬ fd < Z.of_nat (length (io_heap io)) → m !! (fd, ev) = None.
Proof.
  intros Hs Hlt. destruct (m !! (fd, ev)) as [w|] eqn:E; [|done]. destruct (sh_dom io m Hs fd ev); [by rewrite E|lia].
Qed.

(** [drop_event], which [delEvent] and [cancelEvent] share. *)
Lemma drop_event_ok fd ev k io m : rep io m → 0 ≤ fd < Z.of_nat (length (io_heap io)) → is_event ev →
  (m !! (fd, ev) = None → drop_event (Z.to_nat fd) fd ev k io = (Ok false, io)) ∧
  (∀ w, m !! (fd, ev) = Some w → let '(ok, ep) := answer (CDel fd ev) m (m_epfd io) in
    if ok : bool then drop_event (Z.to_nat fd) fd ev k io = k (ctx_of m fd) (with_epoll ep io) ∧ synced (interest ep) (put m fd ev None)
    else drop_event (Z.to_nat fd) fd ev k io = (Ok false, with_epoll ep io) ∧ synced (interest ep) m).
Proof.
  intros [Hs Hk] Hfd He. destruct (context_shape io m fd Hs Hfd) as (_ & E & _).
  unfold drop_event, bind, getst, lift. rewrite E. cbn [fc_events ctx_of].
  pose proof (events_bit m fd ev He) as Eb. change (events m fd) with (fc_events (ctx_of m fd)) in Eb.
  split; [intros Hn|intros w Hw]; rewrite events_bit by done.
  - rewrite Hn, bool_decide_false by (by intros [? ?]). done.
  - rewrite Hw, bool_decide_true by done. cbn [negb]. pose proof (events_put m fd ev None He) as Eev. cbn in Eev.
    rewrite <- Eev. set (op := if events (put m fd ev None) fd =? 0 then EPOLL_CTL_DEL else EPOLL_CTL_MOD).
    destruct (synced_put (m_epfd io) m (put m fd ev None) op fd (Z.lor EPOLLET (events (put m fd ev None) fd)) Hk) as [H1 H2].
    { intros fd' Hne. by apply put_events_other. }
    { unfold op. destruct (Z.eqb_spec (events (put m fd ev None) fd) 0); naive_solver. }
    { done. }
    unfold answer. cbn [request]. rewrite Hw. unfold ctl.
    assert ((events m fd =? 0) = false) as ->.
    { apply Z.eqb_neq. intros E0. rewrite events_zero in E0. destruct He as [-> | ->]; naive_solver. }
    fold op. destruct (epoll_ctl _ _ _ _) as [rt ep]. unfold putst. cbn [fst snd] in *.
    destruct (Z.eqb_spec rt 0); cbn [negb]; naive_solver.
Qed.

Lemma as_int_eq m io b io' : m io = (Ok b, io') → as_int m io = (Ok (Z.b2z b), io').
Proof. intros E. unfold as_int, bind. by rewrite E. Qed.

Lemma forget_waiter_ok fd ev w io m : shape io m → m !! (fd, ev) = Some w →
  ∃ io', forget_waiter (Z.to_nat fd) ev (ctx_of m fd) io = (Ok true, io') ∧ shape io' (put m fd ev None) ∧
    io_sched io' = io_sched io ∧ io_timers io' = io_timers io ∧ m_epfd io' = m_epfd io.
Proof.
  intros Hs Hw. destruct (sh_dom io m Hs fd ev (mk_is_Some _ _ Hw)) as [Hfd He].
  unfold forget_waiter, count_down, modst, bind, lift. cbn [fc_events ctx_of]. rewrite getContext_ctx by done.
  pose proof (events_put m fd ev None He) as Eev. cbn in Eev. rewrite <- Eev.
  change (resetContext (ec_of (m !! (fd, ev)))) with (ec_of None). rewrite (putContext_ctx m fd ev None) by done.
  eexists. split; [done|]. split; [|done].
  apply (shape_put io); try done. cbn. rewrite (sh_pending io m Hs).
  pose proof (shape_bound io m Hs). rewrite (size_put_None _ _ _ w) by done. apply wrap_small.
  assert (size m ≠ 0%nat) by (intros E0%map_size_empty_inv; subst; done). lia.
Qed.

(** [delEvent] and [cancelEvent] differ in what they do with the waiter. *)
Lemma drop_refines fd ev io m op k ws :
  rep io m → 0 ≤ fd → is_event ev → op fd ev = on_context fd (λ a, drop_event a fd ev (k a)) →
  (∀ w ep, m !! (fd, ev) = Some w → ∃ io', k (Z.to_nat fd) (ctx_of m fd) (with_epoll ep io) = (Ok true, io') ∧
    shape io' (put m fd ev None) ∧ io_sched io' = schedule_work (ws w) (io_sched io) ∧
    io_timers io' = io_timers io ∧ m_epfd io' = ep) →
  ∃ io',
    let '(ok, ep) := answer (CDel fd ev) m (m_epfd io) in
    let '(r, m', ws') := match m !! (fd, ev) with
                         | Some w => if ok : bool then (1, put m fd ev None, ws w) else (0, m, [])
                         | None => (0, m, [])
                         end in
    as_int (op fd ev) io = (Ok r, io') ∧ rep io' m' ∧ io_sched io' = schedule_work ws' (io_sched io) ∧
    io_timers io' = io_timers io ∧ m_epfd io' = ep.
Proof.
  intros Hr Hfd He -> Hk. pose proof Hr as [Hs _]. rewrite (on_context_ok fd io m) by done. case_decide as Hlt.
  - destruct (drop_event_ok fd ev (k (Z.to_nat fd)) io m Hr ltac:(lia) He) as [Hnone Hsome].
    destruct (m !! (fd, ev)) as [w|] eqn:Hw.
    + specialize (Hsome w eq_refl). destruct (answer (CDel fd ev) m (m_epfd io)) as [[] ep]; destruct Hsome as [E Hs1].
      * destruct (Hk w ep eq_refl) as (io' & E' & H1 & H2 & H3 & H4). exists io'. rewrite E' in E.
        rewrite (as_int_eq _ _ _ _ E). split_and!; try done. split; [done|by rewrite H4].
      * exists (with_epoll ep io). rewrite (as_int_eq _ _ _ _ E). split_and!; try done.
        split; [by apply (shape_ext io)|done].
    + exists io. unfold answer. cbn [request]. rewrite Hw. rewrite (as_int_eq _ _ _ _ (Hnone eq_refl)). by split_and!.
  - exists io. unfold answer. cbn [request]. rewrite (out_of_table io m fd ev Hs Hlt). by split_and!.
Qed.

Lemma del_refines fd ev io m : rep io m → legal (CDel fd ev) io m → refines (CDel fd ev) io m.
Proof.
  intros Hr [Hfd He]. destruct (drop_refines fd ev io m delEvent (λ a, forget_waiter a ev) (λ _, []) Hr Hfd He)
    as (io' & Ho); [done| |].
  { intros w ep Hw. destruct (forget_waiter_ok fd ev w (with_epoll ep io) m) as (io' & H1 & H2 & H3 & H4 & H5);
      [apply (shape_ext io); [apply Hr|done..]|done|]. by exists io'. }
  unfold refines. destruct (answer (CDel fd ev) m (m_epfd io)) as [ok ep]. cbn [run_call spec_call fst snd].
  destruct (m !! (fd, ev)) as [w|]; [destruct ok|]; by eexists _, _, _, _.
Qed.

Lemma cancel_refines fd ev io m : rep io m → legal (CCancel fd ev) io m → refines (CCancel fd ev) io m.
Proof.
  intros Hr [Hfd He]. destruct (drop_refines fd ev io m cancelEvent (λ a, wake_waiter a ev) (λ w, [w]) Hr Hfd He)
    as (io' & Ho); [done| |].
  { intros w ep Hw. assert (shape (with_epoll ep io) m) as Hs by (apply (shape_ext io); [apply Hr|done..]).
    exists (fired (with_epoll ep io) m fd ev w). unfold wake_waiter. rewrite (trigger_count_tt _ m fd ev w) by done.
    split_and!; try done. by apply fired_shape. }
  unfold refines. change (answer (CCancel fd ev) m (m_epfd io)) with (answer (CDel fd ev) m (m_epfd io)).
  destruct (answer (CDel fd ev) m (m_epfd io)) as [ok ep]. cbn [run_call spec_call fst snd].
  destruct (m !! (fd, ev)) as [w|]; [destruct ok|]; by eexists _, _, _, _.
Qed.

(** Taking both events off a descriptor. *)
Lemma cancelAll_refines fd io m : rep io m → legal (CCancelAll fd) io m → refines (CCancelAll fd) io m.
Proof.
  intros Hr Hfd. cbn in Hfd. pose proof Hr as [Hs Hk]. unfold refines. cbn [run_call spec_call]. unfold cancelAll.
  rewrite (on_context_ok fd io m) by done. case_decide as Hlt.
  2: { unfold answer. cbn [request]. rewrite (proj2 (events_zero m fd)) by (split; by apply (out_of_table io)). by eexists _, _, _, _. }
  destruct (context_shape io m fd Hs ltac:(lia)) as (_ & E & _).
  assert (∃ io', let '(r, m', ws) := spec_call (answer (CCancelAll fd) m (m_epfd io)).1 (CCancelAll fd) m in
    cancelAll_on (Z.to_nat fd) fd io = (Ok (negb (r =? 0)), io') ∧ r = Z.b2z (negb (r =? 0)) ∧ rep io' m' ∧
    io_sched io' = schedule_work ws (io_sched io) ∧ io_timers io' = io_timers io ∧ m_epfd io' = (answer (CCancelAll fd) m (m_epfd io)).2) as (io' & Ho).
  2: { unfold spec_call in Ho. destruct (events m fd =? 0), (answer (CCancelAll fd) m (m_epfd io)) as [[] ep]; destruct Ho as (Ho & E2 & H1 & H2 & H3 & H4);
       rewrite (as_int_eq _ _ _ _ Ho); by eexists _, _, _, _. }
  unfold answer. cbn [request]. unfold spec_call, cancelAll_on. unfold bind at 1, getst at 1. unfold bind at 1, lift at 1. rewrite E. cbn [fc_events ctx_of].
  destruct (Z.eqb_spec (events m fd) 0) as [E0|E0]; [exists io; by split_and!|].
  set (m2 := put (put m fd READ None) fd WRITE None).
  assert (events m2 fd = 0) as E2.
  { apply events_zero. unfold m2. rewrite put_same, put_other, put_same by done. done. }
  destruct (synced_put (m_epfd io) m m2 EPOLL_CTL_DEL fd 0 Hk) as [Hok Hfail]; [|done|done|].
  { intros fd' Hne. unfold m2. by rewrite !put_events_other by done. }
  destruct (epoll_ctl EPOLL_CTL_DEL fd 0 (m_epfd io)) as [rt ep]. cbn [fst snd] in *.
  unfold bind at 1, putst at 1. destruct (Z.eqb_spec rt 0) as [Hrt|Hrt]; cbn [negb].
  2: { exists (with_epoll ep io). split_and!; try done. split; [by apply (shape_ext io)|by apply Hfail]. }
  set (io0 := with_epoll ep io). assert (shape io0 m) as Hs0 by by apply (shape_ext io).
  rewrite events_bit by (by left). rewrite negb_involutive.
  destruct (fire_if_ok (bool_decide (is_Some (m !! (fd, READ)))) io0 m fd READ Hs0) as (io1 & E3 & Hs1 & S1 & T1 & P1).
  { apply bool_decide_eq_true. }
  rewrite put_if_some in E3, Hs1. unfold bind at 1. rewrite E3. cbn [fc_events ctx_of].
  rewrite events_bit by (by right). rewrite negb_involutive.
  destruct (fire_if_ok (bool_decide (is_Some (put m fd READ None !! (fd, WRITE)))) io1 _ fd WRITE Hs1)
    as (io2 & E4 & Hs2 & S2 & T2 & P2).
  { apply bool_decide_eq_true. }
  rewrite put_if_some in E4, Hs2. fold m2 in E4, Hs2. unfold bind at 1. rewrite E4. cbn [fc_events ctx_of]. rewrite E2.
  exists io2. split_and!; try done.
  - split; [done|]. rewrite P2, P1. by apply Hok.
  - rewrite S2, S1. unfold schedule_work. rewrite foldl_app. rewrite put_other by done.
    destruct (m !! (fd, READ)), (m !! (fd, WRITE)); done.
  - by rewrite T2, T1.
  - by rewrite P2, P1.
Qed.

(** One report of [epoll_wait]. *)
Definition real (rr rw : bool) : Z := Z.lor (if rr then READ else NONE) (if rw then WRITE else NONE).
Definition clear_if (b : bool) (m : registry) (fd ev : Z) : registry := if b then put m fd ev None else m.

Lemma real_bits rr rw : negb (Z.land (real rr rw) READ =? 0) = rr ∧ negb (Z.land (real rr rw) WRITE =? 0) = rw.
Proof. by destruct rr, rw. Qed.
Lemma real_none m fd rr rw : (Z.land (events m fd) (real rr rw) =? NONE) =
  negb (rr && bool_decide (is_Some (m !! (fd, READ))) || rw && bool_decide (is_Some (m !! (fd, WRITE)))).
Proof. unfold events, bit. destruct rr, rw, (m !! (fd, READ)), (m !! (fd, WRITE)); done. Qed.
Lemma real_left m fd rr rw :
  Z.land (events m fd) (Z.lnot (real rr rw)) = events (clear_if rw (clear_if rr m fd READ) fd WRITE) fd.
Proof.
  destruct rr, rw; unfold clear_if.
  - rewrite (events_put _ fd WRITE None) by (by right). rewrite (events_put _ fd READ None) by (by left).
    by rewrite <- Z.land_assoc.
  - by rewrite (events_put _ fd READ None) by (by left).
  - by rewrite (events_put _ fd WRITE None) by (by right).
  - unfold events, bit. by destruct (m !! (fd, READ)), (m !! (fd, WRITE)).
Qed.

(** A report of which nothing is waited for asks nothing of the kernel. *)
Lemma clear_idle m fd ev (b : bool) : b && bool_decide (is_Some (m !! (fd, ev))) = false → clear_if b m fd ev = m.
Proof.
  destruct b; [|done]. cbn [andb]. intros Hn%bool_decide_eq_false. change (delete (fd, ev) m = m).
  apply delete_id. by apply eq_None_not_Some.
Qed.
Lemma waiter_idle (b : bool) (o : option work) : b && bool_decide (is_Some o) = false → (if b then option_list o else []) = [].
Proof. by destruct b, o. Qed.
Lemma waiter_busy (b : bool) (o : option work) :
  b && bool_decide (is_Some o) = true → ∃ w, (if b then option_list o else []) = [w].
Proof. destruct b, o as [w|]; try done. by exists w. Qed.
Definition waited (m : registry) (fd mask ev : Z) : bool := reported m fd mask ev && bool_decide (is_Some (m !! (fd, ev))).
Lemma ready_idle m fd mask : waited m fd mask READ || waited m fd mask WRITE = false →
  ready_left m fd mask = m ∧ ready_waiters m fd mask = [].
Proof.
  unfold waited. intros [H1 H2]%orb_false_iff. unfold ready_left, ready_waiters. split.
  - pose proof (clear_idle m fd READ _ H1) as E1. pose proof (clear_idle m fd WRITE _ H2) as E2.
    unfold clear_if in E1, E2. by rewrite E1.
  - by rewrite (waiter_idle _ _ H1), (waiter_idle _ _ H2).
Qed.
Lemma answer_idle m fd mask (k : K) : waited m fd mask READ || waited m fd mask WRITE = false →
  answer (CReady fd mask) m k = (true, k).
Proof. intros Hi. unfold answer, request. by rewrite (proj2 (ready_idle m fd mask Hi)). Qed.
Lemma answer_busy m fd mask (k : K) : waited m fd mask READ || waited m fd mask WRITE = true →
  let after := events (ready_left m fd mask) fd in
  let r := epoll_ctl (if after =? 0 then EPOLL_CTL_DEL else EPOLL_CTL_MOD) fd (Z.lor EPOLLET after) k in
  answer (CReady fd mask) m k = (r.1 =? 0, r.2).
Proof.
  unfold waited. intros Hb. cbn zeta. unfold answer, request, ctl.
  assert ((events m fd =? 0) = false) as ->.
  { apply Z.eqb_neq. rewrite events_zero. intros [E1 E2]. rewrite E1, E2 in Hb. by rewrite !andb_false_r in Hb. }
  assert (∃ w ws, ready_waiters m fd mask = w :: ws) as (w & ws & ->); [|done].
  unfold ready_waiters. apply orb_true_iff in Hb as [[w ->]%waiter_busy|[w ->]%waiter_busy]; [by eexists _, _|].
  destruct (if reported m fd mask READ then _ else _); by eexists _, _.
Qed.

Lemma ready_refines fd mask io m : rep io m → legal (CReady fd mask) io m → refines (CReady fd mask) io m.
Proof.
  intros Hr [Hfd Hleg]. pose proof Hr as [Hs Hk]. rewrite (sh_table io m Hs), length_seq in Hfd.
  destruct (context_shape io m fd Hs Hfd) as (_ & E & _).
  set (rr := reported m fd mask READ). set (rw := reported m fd mask WRITE).
  assert (handle_event (Z.to_nat fd) mask io =
    (if Z.land (events m fd) (real rr rw) =? NONE then ret tt else
      let m2 := clear_if rw (clear_if rr m fd READ) fd WRITE in
      let op := if events m2 fd =? 0 then EPOLL_CTL_DEL else EPOLL_CTL_MOD in
      let (rt2, ep) := epoll_ctl op fd (Z.lor EPOLLET (events m2 fd)) (m_epfd io) in
      putst (with_epoll ep io) ;;!
      if negb (rt2 =? 0) then ret tt else
      let! c := fire_if rr (Z.to_nat fd) READ (ctx_of m fd) in
      fire_if rw (Z.to_nat fd) WRITE c ;;! ret tt) io) as Eh.
  { unfold handle_event. unfold bind at 1, getst at 1. unfold bind at 1, lift at 1. rewrite E. cbn [fc_events fc_fd ctx_of].
    change EPOLLIN with READ. change EPOLLOUT with WRITE.
    fold (reported m fd mask READ). fold (reported m fd mask WRITE). fold rr rw.
    change (Z.lor (if rr then READ else NONE) (if rw then WRITE else NONE)) with (real rr rw).
    destruct (real_bits rr rw) as [-> ->]. rewrite real_left. done. }
  unfold refines. cbn [run_call spec_call]. unfold bind. rewrite Eh, real_none.
  destruct (_ || _) eqn:Eb; cbn [negb].
  2: { destruct (ready_idle m fd mask Eb) as [-> ->]. rewrite (answer_idle m fd mask (m_epfd io) Eb). by eexists _, _, _, io. }
  assert ((rr = true → is_Some (m !! (fd, READ))) ∧ (rw = true → is_Some (m !! (fd, WRITE)))) as [Hrr Hrw].
  { destruct Hleg as [Hl|Hl]; [split; [apply (Hl READ); by left|apply (Hl WRITE); by right]|]. exfalso.
    apply orb_true_iff in Eb as [Eb|Eb]; apply andb_true_iff in Eb as [E1 E2]; apply bool_decide_eq_true in E2 as [w E2].
    - rewrite (Hl READ) in E2; [done|by left|done].
    - rewrite (Hl WRITE) in E2; [done|by right|done]. }
  rewrite (answer_busy m fd mask (m_epfd io) Eb).
  change (clear_if rw (clear_if rr m fd READ) fd WRITE) with (ready_left m fd mask).
  cbn zeta. set (m2 := ready_left m fd mask).
  set (op := if events m2 fd =? 0 then EPOLL_CTL_DEL else EPOLL_CTL_MOD).
  destruct (synced_put (m_epfd io) m m2 op fd (Z.lor EPOLLET (events m2 fd)) Hk) as [Hok Hfail].
  { intros fd' Hne. unfold m2, ready_left. fold rr rw. destruct rr, rw; by rewrite ?put_events_other. }
  { unfold op. destruct (Z.eqb_spec (events m2 fd) 0); naive_solver. }
  { done. }
  destruct (epoll_ctl op fd _ (m_epfd io)) as [rt ep]. cbn [fst snd] in *. unfold bind, putst.
  destruct (Z.eqb_spec rt 0) as [Hrt|Hrt]; cbn [negb].
  2: { eexists _, _, _, (with_epoll ep io). split; [done|]. split; [done|]. split_and!; try done.
       split; [by apply (shape_ext io)|by apply Hfail]. }
  set (io0 := with_epoll ep io). assert (shape io0 m) as Hs0 by by apply (shape_ext io).
  destruct (fire_if_ok rr io0 m fd READ Hs0 Hrr) as (io1 & E3 & Hs1 & S1 & T1 & P1).
  fold (clear_if rr m fd READ) in E3, Hs1.
  assert (clear_if rr m fd READ !! (fd, WRITE) = m !! (fd, WRITE)) as Ew.
  { unfold clear_if. destruct rr; [by rewrite put_other|done]. }
  destruct (fire_if_ok rw io1 _ fd WRITE Hs1) as (io2 & E4 & Hs2 & S2 & T2 & P2); [by rewrite Ew|].
  rewrite E3, E4. eexists _, _, _, io2. split; [done|]. split; [done|]. split_and!.
  - split; [done|]. rewrite P2, P1. by apply Hok.
  - rewrite S2, S1, Ew. unfold schedule_work, ready_waiters. fold rr rw. by rewrite foldl_app.
  - by rewrite T2, T1.
  - by rewrite P2, P1.
Qed.

Lemma call_refines c io m : rep io m → legal c io m → refines c io m.
Proof.
  destruct c; [apply add_refines|apply del_refines|apply cancel_refines|apply cancelAll_refines|apply ready_refines].
Qed.

Lemma new_IOManager_rep s now epfd : interest epfd = ∅ → rep (new_IOManager s now epfd) ∅.
Proof.
  intros He. split; [|intros fd; cbn; by rewrite He].
  split; try done.
  - intros i Hi. change (io_heap (new_IOManager s now epfd)) with (new_FdContext <$> seqZ 0 32) in *.
    rewrite length_fmap, length_seqZ in Hi. rewrite list_lookup_fmap, lookup_seqZ_lt by lia. done.
  - intros fd ev [? ?]. done.
Qed.
End spec.
