(* ===== verification/IOManagerThms.v ===== *)
(** * What the I/O manager guarantees

    Its operations are those of a registry of waiters; every waiter is woken
    exactly once; one round of the idle loop schedules the due timers and the
    ready waiters; and the inputs on which the code goes wrong. *)
From S2P Require Import Prelude Fiber Scheduler SchedulerSpec SchedulerThms IOManager IOManagerSpec.
From S2P Require Timer.

(** ** A kernel for the samples *)
(** The interest list alone; ADD of a known and MOD or DEL of an unknown
    descriptor fail, as EEXIST and ENOENT. *)
#[export] Instance table_epoll : Epoll (gmap Z Z) := {
  epoll_ctl op fd ev k :=
    match op, k !! fd with
    | EPOLL_CTL_ADD, None => (0, <[fd:=ev]> k)
    | EPOLL_CTL_MOD, Some _ => (0, <[fd:=ev]> k)
    | EPOLL_CTL_DEL, Some _ => (0, delete fd k)
    | _, _ => (-1, k)
    end;
  interest k := k }.
#[export] Instance table_epoll_laws : EpollLaws (gmap Z Z).
Proof. split. intros op fd ev k. cbn. by destruct op, (k !! fd). Qed.

Section thms.
#[local] Set Default Proof Using "All".
Context {K : Type} `{EpollLaws K}.
Implicit Types io : IOManager K.

(** ** The ledger *)
Definition waiters (m : registry) : list work := (map_to_list m).*2.

Lemma waiters_put_Some m fd ev w : m !! (fd, ev) = None → waiters (put m fd ev (Some w)) ≡ₚ w :: waiters m.
Proof.
  intros Hn. assert (put m fd ev (Some w) = <[(fd, ev) := w]> m) as ->.
  { apply map_eq. intros p. unfold put. by rewrite lookup_partial_alter, lookup_insert. }
  unfold waiters. by rewrite map_to_list_insert by done.
Qed.
Lemma waiters_put_None m fd ev w : m !! (fd, ev) = Some w → waiters m ≡ₚ w :: waiters (put m fd ev None).
Proof.
  intros Hw. change (put m fd ev None) with (delete (fd, ev) m). unfold waiters.
  by rewrite <- (map_to_list_delete m (fd, ev) w) by done.
Qed.
Lemma waiters_clear_if b m fd ev : (b = true → is_Some (m !! (fd, ev))) →
  waiters m ≡ₚ (if b then option_list (m !! (fd, ev)) else []) ++ waiters (clear_if b m fd ev).
Proof.
  intros Hb. destruct b; [|done]. destruct (Hb eq_refl) as [w Hw]. rewrite Hw. by apply waiters_put_None.
Qed.
Lemma waiters_clear m fd ev : waiters m ≡ₚ option_list (m !! (fd, ev)) ++ waiters (put m fd ev None).
Proof.
  destruct (m !! (fd, ev)) as [w|] eqn:Hw; [by apply waiters_put_None|].
  change (put m fd ev None) with (delete (fd, ev) m). by rewrite delete_id.
Qed.

(** The waiter a successful call registered, and the one it dropped. *)
Definition added (c : call) (r : Z) : list work :=
  match c with CAdd _ _ w => if r =? 0 then [w] else [] | _ => [] end.
Definition drops (c : call) (r : Z) : nat := match c with CDel _ _ => Z.to_nat r | _ => 0 end.

Lemma clear_if_other b m fd ev ev' : ev' ≠ ev → clear_if b m fd ev !! (fd, ev') = m !! (fd, ev').
Proof. intros. unfold clear_if. destruct b; [by rewrite put_other by congruence|done]. Qed.

Lemma spec_ledger ok c io m r m' ws : legal c io m → spec_call ok c m = (r, m', ws) →
  ∃ d, length d = drops c r ∧ added c r ++ waiters m ≡ₚ ws ++ d ++ waiters m'.
Proof.
  destruct c as [fd ev w|fd ev|fd ev|fd|fd mask]; cbn [spec_call added drops].
  - intros (_ & _ & Hn). destruct ok; intros [= <- <- <-]; exists []; split; try done.
    cbn. symmetry. by apply waiters_put_Some.
  - intros _. destruct (m !! (fd, ev)) as [w|] eqn:Hw; [destruct ok|]; intros [= <- <- <-]; try by exists [].
    exists [w]. split; [done|]. by apply waiters_put_None.
  - intros _. destruct (m !! (fd, ev)) as [w|] eqn:Hw; [destruct ok|]; intros [= <- <- <-]; exists []; split; try done.
    by apply waiters_put_None.
  - intros _. destruct (events m fd =? 0); [|destruct ok]; intros [= <- <- <-]; exists []; split; try done.
    cbn. rewrite (waiters_clear m fd READ), (waiters_clear (put m fd READ None) fd WRITE).
    rewrite put_other by done. by rewrite <- app_assoc.
  - intros (_ & Hl). destruct ok; intros [= <- <- <-]; exists []; split; try done. cbn. unfold ready_waiters, ready_left.
    destruct Hl as [Hl|Hl].
    + rewrite (waiters_clear_if (reported m fd mask READ) m fd READ) by (apply (Hl READ); by left).
      rewrite (waiters_clear_if (reported m fd mask WRITE) (clear_if (reported m fd mask READ) m fd READ) fd WRITE)
        by (rewrite clear_if_other by done; apply (Hl WRITE); by right).
      rewrite clear_if_other by done. by rewrite <- app_assoc.
    + assert (∀ ev, is_event ev → (if reported m fd mask ev then option_list (m !! (fd, ev)) else []) = [] ∧
        (if reported m fd mask ev then put m fd ev None else m) = m) as E.
      { intros ev He. destruct (reported m fd mask ev) eqn:Er; [|done]. split; [by rewrite (Hl ev He Er)|].
        change (put m fd ev None) with (delete (fd, ev) m). apply delete_id. by apply Hl. }
      destruct (E READ) as [-> ->]; [by left|]. by destruct (E WRITE) as [-> ->]; [right|].
Qed.

(** ** Runs of calls *)
(** Calls, each legal when it is made, and their answers. *)
Inductive io_run : list call → list Z → IOManager K → IOManager K → Prop :=
| io_run_nil io : io_run [] [] io io
| io_run_cons c cs io m r io1 rs io2 :
    rep io m → legal c io m → run_call c io = (Ok r, io1) → io_run cs rs io1 io2 → io_run (c :: cs) (r :: rs) io io2.

Lemma shape_inj io m m' : shape io m → shape io m' → m = m'.
Proof.
  intros H1 H2. apply map_eq. intros [fd ev].
  assert (∀ m1 m2 w, shape io m1 → shape io m2 → m1 !! (fd, ev) = Some w → m2 !! (fd, ev) = Some w) as Hle.
  { intros m1 m2 w S1 S2 Hw. destruct (sh_dom io m1 S1 fd ev (mk_is_Some _ _ Hw)) as [Hfd He].
    pose proof (sh_heap io m1 S1 (Z.to_nat fd) ltac:(lia)) as E1. rewrite (sh_heap io m2 S2) in E1 by lia.
    rewrite Z2Nat.id in E1 by lia. injection E1 as Er Ew _.
    assert (∀ o1 o2, ec_of o1 = ec_of o2 → o1 = o2) as Hinj by (intros [[]|] [[]|]; unfold ec_of, empty_context; congruence).
    apply Hinj in Er, Ew. destruct He as [-> | ->]; congruence. }
  destruct (m !! (fd, ev)) as [w|] eqn:E1, (m' !! (fd, ev)) as [w'|] eqn:E2; try done.
  - f_equal. apply (Hle m m') in E1; [|done..]. congruence.
  - apply (Hle m m') in E1; [|done..]. congruence.
  - apply (Hle m' m) in E2; [|done..]. congruence.
Qed.

Lemma schedule_work_queue ws s : m_fibers (schedule_work ws s) = m_fibers s ++ (task_of <$> ws).
Proof.
  revert s. induction ws as [|w ws IH]; intros s; [cbn; by rewrite app_nil_r|].
  change (schedule_work (w :: ws) s) with (schedule_work ws (schedule (task_of w) s)). rewrite IH.
  destruct (schedule_fields (task_of w) s) as [n ->]; [destruct w; [left|right]; by eexists|].
  assert (∀ n s, m_fibers (Nat.iter n tickle s) = m_fibers s) as -> by (intros k ?; by induction k).
  cbn. by rewrite <- app_assoc.
Qed.

Lemma io_run_ledger cs rs io io2 : io_run cs rs io io2 → ∀ m, rep io m →
  ∃ m2 ws d, rep io2 m2 ∧ m_fibers (io_sched io2) = m_fibers (io_sched io) ++ (task_of <$> ws) ∧
    length d = sum_list (zip_with drops cs rs) ∧
    concat (zip_with added cs rs) ++ waiters m ≡ₚ ws ++ d ++ waiters m2.
Proof.
  induction 1 as [io|c cs io m1 r io1 rs io2 Hr Hl Hc _ IH]; intros m Hm.
  { exists m, [], []. split_and!; try done. by rewrite app_nil_r. }
  assert (m1 = m) as -> by (eapply shape_inj; [apply Hr|apply Hm]).
  destruct (call_refines c io m Hm Hl) as (r' & m' & ws & io' & Hs & Hc' & Hr' & Hq & _).
  assert (r' = r ∧ io' = io1) as [-> ->] by (split; congruence).
  destruct (spec_ledger (answer c m (m_epfd io)).1 c io m r m' ws Hl Hs) as (d & Hd & Hp).
  destruct (IH m' Hr') as (m2 & ws2 & d2 & Hr2 & Hq2 & Hd2 & Hp2).
  exists m2, (ws ++ ws2), (d ++ d2). split_and!; [done| | |].
  - rewrite Hq2, Hq, schedule_work_queue, fmap_app. by rewrite app_assoc.
  - rewrite length_app. cbn. lia.
  - cbn [zip_with concat]. rewrite <- app_assoc, (Permutation_app_comm (concat _)), app_assoc, Hp.
    rewrite <- !app_assoc. apply Permutation_app_head.
    rewrite (Permutation_app_comm (waiters m')), Hp2. solve_Permutation.
Qed.

(** ** One round of the idle loop *)
(** The reports one after the other, each with the kernel's answer to the
    [epoll_ctl] it makes. *)
Definition reports_step (a : registry * K * list work) (e : Z * Z) : registry * K * list work :=
  let '(m, k, ws) := a in
  let '(ok, k') := answer (CReady (e.1) (e.2)) m k in
  let '(_, m', ws') := spec_call ok (CReady (e.1) (e.2)) m in (m', k', ws ++ ws').
Definition reports_spec (evs : list (Z * Z)) (m : registry) (k : K) : registry * K * list work :=
  foldl reports_step (m, k, []) evs.
Lemma reports_step_app l : ∀ m k w0 w1 m2 k2 w2, foldl reports_step (m, k, w1) l = (m2, k2, w2) →
  foldl reports_step (m, k, w0 ++ w1) l = (m2, k2, w0 ++ w2).
Proof.
  induction l as [|e l IH]; cbn [foldl]; intros m k w0 w1 m2 k2 w2; [by intros [= <- <- <-]|].
  unfold reports_step at 2 4. destruct (answer _ m k) as [ok k3], (spec_call ok _ m) as [[? m3] w3].
  rewrite <- app_assoc. apply IH.
Qed.

(** A report of a waiter that is there, or of nothing that is. *)
Definition fresh_report (m : registry) (e : Z * Z) : Prop :=
  (∀ ev, is_event ev → reported m (e.1) (e.2) ev = true → is_Some (m !! (e.1, ev))) ∨
  (∀ ev, is_event ev → reported m (e.1) (e.2) ev = true → m !! (e.1, ev) = None).

Lemma spec_ready_other ok fd mask m r m' ws fd' ev : spec_call ok (CReady fd mask) m = (r, m', ws) → fd' ≠ fd →
  m' !! (fd', ev) = m !! (fd', ev).
Proof.
  intros Hs Hne. cbn in Hs. unfold ready_left in Hs. destruct ok; injection Hs as _ <- _; [|done].
  destruct (reported m fd mask READ), (reported m fd mask WRITE); rewrite ?put_other by congruence; done.
Qed.
Lemma fresh_report_ext m m' e : (∀ ev, m' !! (e.1, ev) = m !! (e.1, ev)) → fresh_report m e → fresh_report m' e.
Proof.
  intros E. assert (∀ ev, reported m' (e.1) (e.2) ev = reported m (e.1) (e.2) ev) as Er.
  { intros ev. unfold reported, events. by rewrite !E. }
  unfold fresh_report. intros [Hl|Hl]; [left|right]; intros ev He; rewrite Er, E; by apply Hl.
Qed.

Lemma run_call_table c io r io' m m' : rep io m → rep io' m' → (∃ fd mask, c = CReady fd mask) →
  run_call c io = (Ok r, io') → length (m_fdContexts io') = length (m_fdContexts io).
Proof.
  intros _ _ (fd & mask & ->) Hc. cbn in Hc. unfold bind, handle_event, getst, lift, ret in Hc.
  unfold bind, context, of_option, putst, fire_if, trigger_at, count_down, modst, bind, getst, lift, putst, ret in Hc.
  repeat (case_match; simplify_eq/=; try done).
Qed.

Lemma handle_events_ok evs : ∀ io m, rep io m → NoDup evs.*1 →
  Forall (λ e, 0 ≤ e.1 < Z.of_nat (length (m_fdContexts io)) ∧ fresh_report m e) evs →
  ∃ m' ws io', reports_spec evs m (m_epfd io) = (m', m_epfd io', ws) ∧
    handle_events ((λ e, (Z.to_nat (e.1), e.2)) <$> evs) io = (Ok tt, io') ∧ rep io' m' ∧
    io_sched io' = schedule_work ws (io_sched io) ∧ io_timers io' = io_timers io.
Proof.
  induction evs as [|[fd mask] evs IH]; intros io m Hr Hnd Hall.
  { exists m, [], io. by split_and!. }
  apply Forall_cons in Hall as [[Hfd Hf] Hall]. cbn in Hnd. apply NoDup_cons in Hnd as [Hnin Hnd].
  destruct (call_refines (CReady fd mask) io m Hr (conj Hfd Hf)) as (r & m1 & ws1 & io1 & Hs & Hc & Hr1 & Hq & Ht & Hk).
  pose proof (run_call_table _ _ _ _ _ _ Hr Hr1 ltac:(by eexists _, _) Hc) as Hlen.
  destruct (IH io1 m1 Hr1 Hnd) as (m' & ws & io' & Hfold & He & Hr' & Hq' & Ht').
  { rewrite Hlen. eapply Forall_impl; [apply Forall_and; split; [exact Hall|]|].
    - apply (Forall_forall (λ e : Z * Z, e.1 ≠ fd)). intros e He E. apply Hnin. rewrite <- E. apply list_elem_of_fmap. by exists e.
    - intros e [[H1 H2] Hne]. split; [done|]. apply (fresh_report_ext m); [|done].
      intros ev. by eapply spec_ready_other. }
  exists m', (ws1 ++ ws), io'. split_and!.
  - unfold reports_spec. cbn [foldl]. unfold reports_step at 2. cbn [fst snd].
    destruct (answer _ m (m_epfd io)) as [ok k1]. cbn [fst snd] in Hs, Hk. rewrite Hs, <- Hk.
    pose proof (reports_step_app evs m1 (m_epfd io1) ws1 [] m' _ ws Hfold) as E. by rewrite app_nil_r in E.
  - cbn [fmap list_fmap handle_events fst snd]. unfold bind. cbn [run_call] in Hc. unfold bind in Hc.
    destruct (handle_event (Z.to_nat fd) mask io) as [[[]| | |] s1]; [|done..]. injection Hc as _ ->. done.
  - done.
  - rewrite Hq', Hq. unfold schedule_work. by rewrite foldl_app.
  - by rewrite Ht'.
Qed.

Lemma tickles_queue n s : m_fibers (Nat.iter n tickle s) = m_fibers s.
Proof. by induction n. Qed.
Lemma schedule_loop_queue fts : Forall (λ ft, is_Some (ft_cb ft)) fts → ∀ b s,
  m_fibers (schedule_loop fts b s).2 = m_fibers s ++ fts.
Proof.
  induction 1 as [|ft fts [c Hc] _ IH]; intros b s; cbn [schedule_loop]; [cbn; by rewrite app_nil_r|].
  unfold scheduleNoLock. rewrite IH, Hc. destruct (ft_fiber ft); cbn; by rewrite <- app_assoc.
Qed.
Lemma schedule_all_queue fts s : Forall (λ ft, is_Some (ft_cb ft)) fts → m_fibers (schedule_all fts s) = m_fibers s ++ fts.
Proof.
  intros Hf. unfold schedule_all. pose proof (schedule_loop_queue fts Hf false s) as E.
  destruct (schedule_loop fts false s) as [[] s']; done.
Qed.

(** The callbacks of the timers due at [now]. *)
Definition due_callbacks (now : Z) (m : Timer.TimerManager) : list Timer.callback :=
  omap (λ a, Timer.heap m !! a ≫= Timer.m_cb) (Timer.due now m).

Lemma due_tasks (name : Timer.callback → nat) (cbs : list (option Timer.callback)) :
  Forall is_Some cbs →
  (λ cb, mkFT None (name <$> cb) (-1)) <$> cbs = (λ cb, cb_task (name cb) (-1)) <$> omap id cbs.
Proof. induction 1 as [|cb cbs [c ->] _ IH]; [done|]. cbn. by rewrite IH. Qed.
Lemma omap_some {A B} (f : A → option (option B)) (l : list A) :
  omap id (omap f l) = omap (λ a, f a ≫= id) l.
Proof. induction l as [|a l IH]; [done|]. cbn. destruct (f a) as [[b|]|]; cbn; by rewrite IH. Qed.

Lemma timers_step io m now probe name : rep io m → Timer.timers_ok (io_timers io) →
  Timer.heap (io_timers io) !! probe = None →
  let io1 := schedule_timers now probe name io in
  rep io1 m ∧ m_fdContexts io1 = m_fdContexts io ∧ m_epfd io1 = m_epfd io ∧ Timer.timers_ok (io_timers io1) ∧
  m_fibers (io_sched io1) = m_fibers (io_sched io) ++ ((λ cb, cb_task (name cb) (-1)) <$> due_callbacks now (io_timers io)).
Proof.
  intros [Hs Hk] Hok Hp. cbn zeta. unfold schedule_timers. pose proof (Timer.listExpiredCb_spec now probe (io_timers io) Hok Hp) as Hl.
  destruct (Timer.listExpiredCb now probe (io_timers io)) as [cbs tm]. destruct Hl as (Ecbs & Hall & _ & Hok' & _).
  assert ((λ cb, mkFT None (name <$> cb) (-1)) <$> cbs =
    (λ cb, cb_task (name cb) (-1)) <$> due_callbacks now (io_timers io)) as Et.
  { rewrite due_tasks by done. f_equal. rewrite Ecbs, omap_some. unfold due_callbacks.
    generalize (Timer.due now (io_timers io)). intros l. induction l as [|a l IH]; [done|]. cbn.
    destruct (Timer.heap (io_timers io) !! a) as [t|]; cbn; [|done]. by destruct (Timer.m_cb t); cbn; rewrite IH. }
  destruct cbs as [|cb cbs].
  - split_and!; [split; [by apply (shape_ext io)|done]|done|done|done|]. rewrite <- Et. cbn. by rewrite app_nil_r.
  - split_and!; [split; [by apply (shape_ext io)|done]|done|done|done|].
    cbn [io_sched with_sched with_timers]. rewrite schedule_all_queue, Et; [done|].
    apply Forall_fmap. eapply Forall_impl; [exact Hall|]. intros ? [c ->]. by eexists.
Qed.

(** ** Properties *)
(** C3: Every call on the I/O manager - [addEvent], [delEvent], [cancelEvent],
    [cancelAll] and the handling of one report of [epoll_wait] - is that call on
    a registry of who waits for which event of which descriptor.  The registry
    fixes the one [epoll_ctl] the call makes, ADD, MOD or DEL with the events
    that remain, or that it makes none; the kernel's answer to that request
    decides the outcome: accepted, the call has its whole effect and its answer
    says so; refused, it has none.  The contexts, the pending count and the
    kernel's interest set stay in step with the registry, no assertion fails, the
    table grows as needed, and exactly the waiters taken out by a cancel or a
    report are put in the scheduler's queue, in order.  This is for the callers
    the code counts on ([legal]): descriptors not negative (below 2^30 where one
    is added, so that the table's size does not overflow), an event added only
    where nothing waits for it, and a report that is not stale, all or nothing of
    what it names being waited for; without these the code asserts, as
    [stale_report_asserts] and [two_readers_assert] show. *)
Theorem io_manager_refines (c : call) io (m : registry) :
  rep io m → legal c io m →
  ∃ r m' ws io', spec_call (answer c m (m_epfd io)).1 c m = (r, m', ws) ∧ run_call c io = (Ok r, io') ∧ rep io' m' ∧
    m_epfd io' = (answer c m (m_epfd io)).2 ∧ m_pendingEventCount io' = Z.of_nat (size m') ∧
    m_fibers (io_sched io') = m_fibers (io_sched io) ++ (task_of <$> ws) ∧ io_timers io' = io_timers io.
Proof.
  intros Hr Hl. destruct (call_refines c io m Hr Hl) as (r & m' & ws & io' & Hs & Hc & Hr' & Hq & Ht & Hk).
  exists r, m', ws, io'. split_and!; try done; [apply Hr'|]. by rewrite Hq, schedule_work_queue.
Qed.

(** C4: Over any sequence of calls from a fresh I/O manager, each waiter that was
    registered is woken exactly once, or was dropped by a [delEvent] that
    answered true, or is still registered: none is lost and none is scheduled
    twice. *)
Theorem waiters_woken_once (cs : list call) (rs : list Z) (s : Scheduler) (now : Z) (epfd : K) io :
  interest epfd = ∅ → io_run cs rs (new_IOManager s now epfd) io →
  ∃ m ws d, rep io m ∧ m_fibers (io_sched io) = m_fibers s ++ (task_of <$> ws) ∧
    length d = sum_list (zip_with drops cs rs) ∧
    concat (zip_with added cs rs) ≡ₚ ws ++ d ++ waiters m.
Proof.
  intros He Hrun. destruct (io_run_ledger cs rs _ io Hrun ∅ (new_IOManager_rep s now epfd He))
    as (m2 & ws & d & H1 & H2 & H3 & H4).
  exists m2, ws, d. split_and!; try done. by rewrite app_nil_r in H4.
Qed.

(** C5: A round of the idle loop that does not stop puts into the queue the
    callbacks of exactly the timers that are due, in order of deadline, and then,
    report by report, the waiters that the report names and takes these out of
    the registry, unless the kernel refuses the report's own [epoll_ctl], in
    which case that report changes nothing; and it goes on.  The loop ends only
    when there is no timer, no registered waiter, nothing queued, no active
    worker, and a stop was asked for.  Assumed: the reports name distinct
    descriptors of the table, as one [epoll_wait] does, and none is stale
    ([fresh_report], see [stale_report_asserts]); deadlines are below 2^64-1,
    which stands for no timer; and the address the timers' probe is allocated at
    is free. *)
Theorem idle_round_exact (now later : Z) (probe : nat) (name : Timer.callback → nat) (evs : list (Z * Z)) io (m : registry) :
  rep io m → Timer.timers_ok (io_timers io) → Timer.heap (io_timers io) !! probe = None → NoDup evs.*1 →
  Forall (λ e, 0 ≤ e.1 < Z.of_nat (length (m_fdContexts io)) ∧ fresh_report m e) evs →
  (∀ a, a ∈ Timer.m_timers (io_timers io) → 0 ≤ Timer.next_of (Timer.heap (io_timers io)) a < 2 ^ 64 - 1) → 0 ≤ now →
  let stop := bool_decide (Timer.m_timers (io_timers io) = []) && bool_decide (m = ∅) && Scheduler.stopping (io_sched io) in
  ∃ io', idle_round now later probe name ((λ e, (Z.to_nat (e.1), e.2)) <$> evs) io = (Ok (negb stop), io') ∧
    if stop then rep io' m ∧ io_sched io' = io_sched io
    else let '(m', k', ws) := reports_spec evs m (m_epfd io) in
      rep io' m' ∧ m_epfd io' = k' ∧
      m_fibers (io_sched io') = m_fibers (io_sched io) ++
        ((λ cb, cb_task (name cb) (-1)) <$> due_callbacks later (io_timers io)) ++ (task_of <$> ws).
Proof.
  intros Hr Hok Hp Hnd Hall Hnext Hnow stop. unfold idle_round, bind, getst.
  assert (stopping now io = (stop, (Timer.getNextTimer now (io_timers io)).1,
    with_timers (Timer.with_tickled false (io_timers io)) io)) as ->.
  { unfold stopping, Timer.getNextTimer, stop. rewrite (bool_decide_ext (m = ∅) (m_pendingEventCount io = 0)).
    2: { rewrite (sh_pending io m) by apply Hr. rewrite <- map_size_empty_iff. lia. }
    cbn [Timer.with_tickled Timer.m_timers Timer.heap].
    destruct (Timer.m_timers (io_timers io)) as [|a l] eqn:El; cbn [fst].
    - rewrite Z.eqb_refl, bool_decide_true by done. cbn [andb]. f_equal. f_equal. f_equal.
      cbn. destruct (Z.eqb_spec (m_pendingEventCount io) 0); [by rewrite bool_decide_true|by rewrite bool_decide_false].
    - pose proof (Hnext a ltac:(left)). rewrite (bool_decide_false (a :: l = [])) by done. cbn [andb].
      destruct (Z.leb_spec (Timer.next_of (Timer.heap (io_timers io)) a) now); [done|].
      rewrite wrap_small by lia. by rewrite (proj2 (Z.eqb_neq _ _)) by lia. }
  cbn [Timer.getNextTimer]. set (io0 := with_timers _ io).
  assert (rep io0 m) as Hr0 by (split; [apply (shape_ext io); [apply Hr|done..]|apply Hr]).
  assert (Timer.timers_ok (io_timers io0)) as Hok0 by (destruct Hok; by split).
  unfold putst at 1. destruct stop; cbn [negb].
  { exists io0. done. }
  unfold modst at 1. destruct (timers_step io0 m later probe name Hr0 Hok0 Hp) as (Hr1 & Et & Ek & _ & Eq).
  set (io1 := schedule_timers later probe name io0) in *.
  destruct (handle_events_ok evs io1 m Hr1 Hnd) as (m' & ws & io' & H2 & H3 & H4 & H5 & H6).
  { rewrite Et. apply Hall. }
  exists io'. rewrite H3. split; [done|]. rewrite Ek in H2. change (m_epfd io0) with (m_epfd io) in H2. rewrite H2.
  split_and!; [done..|]. rewrite H5, schedule_work_queue, Eq, <- app_assoc. done.
Qed.

End thms.

(** ** Samples and inputs on which the code fails *)
Abbreviation sample_io := (IOManager (gmap Z Z)).
Definition io_start : sample_io := new_IOManager new_Scheduler 0 ∅.
Definition run1 (c : call) (io : sample_io) : sample_io := (run_call c io).2.
(** Fiber 1 waits to read and callback 2 to write on descriptor 40. *)
Definition io_two : sample_io := run1 (CAdd 40 WRITE (Call 2)) (run1 (CAdd 40 READ (Resume 1)) io_start).

Example io_two_table : (length (m_fdContexts io_two), m_pendingEventCount io_two, m_epfd io_two !! 40) =
  (60%nat, 2, Some (Z.lor EPOLLET 5)).
Proof. by vm_compute. Qed.

(** A report that names an event which another thread deleted after
    [epoll_wait] returned: [triggerEvent] asserts. *)
Example stale_report_asserts :
  (handle_event 40 (Z.lor EPOLLIN EPOLLOUT) (run1 (CDel 40 READ) io_two)).1 = Undef AssertFail.
Proof. by vm_compute. Qed.

(** Two threads find descriptors 100 and 40 outside the table; the second
    [contextResize] shrinks it and loses the context with the event. *)
Definition raced : sample_io :=
  let (a, io) := addEvent_grow 100 io_start in
  let io := match a with Ok a => (addEvent_on a 100 READ true (Some 7%nat) (0%nat, EXEC) io).2 | _ => io end in
  (addEvent_grow 40 io).2.
Example concurrent_resize_loses_waiter :
  (length (m_fdContexts raced), m_pendingEventCount raced, (cancelEvent 100 READ raced).1) = (60%nat, 1, Ok false).
Proof. by vm_compute. Qed.

(** Outside a scheduler's thread the context has no scheduler to wake the waiter
    with. *)
Example no_scheduler_crash :
  (cancelEvent 3 READ (addEvent 3 READ false (Some 7%nat) (0%nat, EXEC) io_start).2).1 = Undef NullDeref.
Proof. by vm_compute. Qed.

(** [epoll_wait] gets a time in [0, 3000] when the next timer is less than 2^31
    milliseconds away, but a negative one - wait for ever - for a timer that is
    just beyond. *)
Lemma wait_time_bounds t : 0 ≤ t < 2 ^ 31 → 0 ≤ wait_time t ≤ Z.min t 3000.
Proof.
  intros Ht. unfold wait_time, MAX_TIMEOUT. rewrite (proj2 (Z.eqb_neq _ _)) by lia. cbn [negb].
  rewrite (i32_small t) by lia. destruct (Z.ltb_spec 3000 t); rewrite i32_small by lia; lia.
Qed.
Example far_timer_blocks : wait_time (2 ^ 31) = - 2 ^ 31.
Proof. by vm_compute. Qed.

Lemma io_start_rep : rep io_start ∅.
Proof. by apply (new_IOManager_rep new_Scheduler 0 (∅ : gmap Z Z)). Qed.
Lemma io_one_run : io_run [CAdd 40 READ (Resume 1)] [0] io_start (run1 (CAdd 40 READ (Resume 1)) io_start).
Proof.
  apply (io_run_cons _ [] io_start ∅ 0 (run1 (CAdd 40 READ (Resume 1)) io_start) []);
    [apply io_start_rep| |by vm_compute|constructor]. split; [lia|]. split; [by left|done].
Qed.

Lemma io_manager_refines_witness : ∃ io',
  run_call (CAdd 40 READ (Resume 1)) io_start = (Ok 0, io') ∧ rep io' (put ∅ 40 READ (Some (Resume 1))) ∧
  m_epfd io' !! 40 = Some (Z.lor EPOLLET READ).
Proof.
  destruct (io_manager_refines (CAdd 40 READ (Resume 1)) io_start ∅ io_start_rep) as (r & m' & ws & io' & H1 & H2 & H3 & H4 & _).
  - split; [lia|]. split; [by left|done].
  - exists io'. injection H1 as <- <- <-. split; [exact H2|]. split; [exact H3|]. rewrite H4. by vm_compute.
Defined.
Lemma waiters_woken_once_witness : ∃ m ws d,
  rep (run1 (CAdd 40 READ (Resume 1)) io_start) m ∧ length d = 0%nat ∧ [Resume 1] ≡ₚ ws ++ d ++ waiters m.
Proof.
  assert (interest (∅ : gmap Z Z) = ∅) as He by done.
  destruct (waiters_woken_once [CAdd 40 READ (Resume 1)] [0] new_Scheduler 0 (∅ : gmap Z Z)
    (run1 (CAdd 40 READ (Resume 1)) io_start) He io_one_run) as (m & ws & d & H1 & _ & H2 & H3).
  by exists m, ws, d.
Defined.
(** The two waiters, and a timer that is due. *)
Definition registry_two : registry := put (put ∅ 40 READ (Some (Resume 1))) 40 WRITE (Some (Call 2)).
Lemma io_two_rep : rep io_two registry_two.
Proof.
  destruct (call_refines (CAdd 40 READ (Resume 1)) io_start ∅ io_start_rep) as (r & m1 & ws & io1 & H1 & H2 & H3 & _).
  { split; [lia|]. split; [by left|done]. }
  injection H1 as <- <- <-.
  destruct (call_refines (CAdd 40 WRITE (Call 2)) io1 _ H3) as (r & m2 & ws & io2 & H4 & H5 & H6 & _ & _ & H7).
  { split; [lia|]. split; [by right|done]. }
  assert (io1 = run1 (CAdd 40 READ (Resume 1)) io_start) as -> by (unfold run1; by rewrite H2).
  assert (io2 = io_two) as -> by (unfold io_two, run1 at 1; by rewrite H5).
  by injection H4 as <- <- <-.
Qed.
Definition io_due : sample_io :=
  with_timers (Timer.addTimer 0 1 5 (Timer.mkCallback 7 None) false (io_timers io_two)).2 io_two.
Lemma idle_round_exact_witness :
  ∃ io', idle_round 6 6 9 (λ cb, Z.to_nat (Timer.cb_id cb)) [(40%nat, EPOLLIN)] io_due = (Ok true, io') ∧
    rep io' (put registry_two 40 READ None) ∧ m_epfd io' !! 40 = Some (Z.lor EPOLLET WRITE) ∧
    m_fibers (io_sched io') = [cb_task 7 (-1); task_of (Resume 1)].
Proof.
  destruct (idle_round_exact 6 6 9 (λ cb, Z.to_nat (Timer.cb_id cb)) [(40, EPOLLIN)] io_due registry_two) as (io' & H1 & H2).
  - split; [apply (shape_ext io_two); [apply io_two_rep|done..]|apply io_two_rep].
  - apply Timer.addTimer_ok; [apply Timer.new_TimerManager_ok|done].
  - by vm_compute.
  - apply NoDup_singleton.
  - constructor; [|constructor]. split; [by vm_compute|]. left. intros ev [-> | ->]; [by eexists|done].
  - intros a Ha. assert (a = 1%nat) as ->; [|by vm_compute].
    change (Timer.m_timers (io_timers io_due)) with [1%nat] in Ha. by apply list_elem_of_singleton in Ha.
  - lia.
  - change (bool_decide (Timer.m_timers (io_timers io_due) = [])) with false in *. cbn [andb negb] in *.
    exists io'. destruct H2 as (H2 & H3 & H4). split; [exact H1|]. split; [exact H2|].
    split; [rewrite H3; by vm_compute|]. rewrite H4. by vm_compute.
Defined.
