(* ===== verification/Text.v ===== *)
(** * Text codecs and string helpers (util/hash_util.cc, util.cc)

    Strings are lists of bytes.  base64, hexadecimal and URL coding
    with their decoders, the hashes, [split], [replace] and the trims. *)
From S2P Require Import Prelude.

Definition between (lo hi c : Z) : bool := (lo <=? c) && (c <=? hi).

(** ** base64 *)
(** The table of [base64encode]: A-Z, a-z, 0-9, +, /. *)
Definition base64_table : list Z := seqZ 65 26 ++ seqZ 97 26 ++ seqZ 48 10 ++ [43; 47].
Definition base64_char (i : Z) : Z := default 0 (base64_table !! Z.to_nat i).

(** One group of three, two or one bytes; [pad] is the number of [=]. *)
Definition base64_group (packed : Z) (pad : nat) : list Z :=
  [base64_char (Z.shiftr packed 18); base64_char (Z.land (Z.shiftr packed 12) 63)] ++
  (if (pad =? 2)%nat then [] else [base64_char (Z.land (Z.shiftr packed 6) 63)]) ++
  (if (pad =? 0)%nat then [base64_char (Z.land packed 63)] else []) ++ repeat 61 pad.
Definition pack (bs : list Z) : Z := foldl (λ p b, Z.lor (Z.shiftl p 8) b) 0 bs.
Fixpoint base64encode (bs : list Z) : list Z :=
  match bs with
  | a :: b :: c :: bs => base64_group (pack [a; b; c]) 0 ++ base64encode bs
  | [a; b] => base64_group (Z.shiftl (pack [a; b]) 8) 1
  | [a] => base64_group (Z.shiftl (Z.shiftl (pack [a]) 8) 8) 2
  | [] => []
  end.

(** The value of a character other than [=]. *)
Definition base64_value (c : Z) : option Z :=
  if between 65 90 c then Some (c - 65)
  else if between 97 122 c then Some (c - 97 + 26)
  else if between 48 57 c then Some (c - 48 + 52)
  else if c =? 43 then Some 62
  else if c =? 47 then Some 63
  else None.
(** The inner loop of [base64decode] over the next [n] characters: the characters
    left, how many were read, the padding seen and the packed value; [None] for
    the early [return ""]. *)
Fixpoint decode_group (n : nat) (s : list Z) (i : nat) (padding : nat) (packed : Z)
    : option (list Z * nat * nat * Z) :=
  match n, s with
  | S n, c :: s' =>
    if c =? 61 then decode_group n s' (S i) (S padding) (Z.shiftl packed 6)
    else if (0 <? padding)%nat then None
    else match base64_value c with
         | Some v => decode_group n s' (S i) padding (Z.lor (Z.shiftl packed 6) v)
         | None => None
         end
  | _, _ => Some (s, i, padding, packed)
  end.
Fixpoint base64decode_loop (fuel : nat) (s : list Z) : option (list Z) :=
  match s with
  | [] => Some []
  | _ =>
    match fuel with
    | O => None
    | S fuel =>
      '(s, i, padding, packed) ← decode_group 4 s 0 0 0;
      if negb (i =? 4)%nat then None
      else if (0 <? padding)%nat && negb (bool_decide (s = [])) then None
      else if (2 <? padding)%nat then None
      else
        let out := [Z.land (Z.shiftr packed 16) 255] ++
                   (if (padding =? 2)%nat then [] else [Z.land (Z.shiftr packed 8) 255]) ++
                   (if (padding =? 0)%nat then [Z.land packed 255] else []) in
        rest ← base64decode_loop fuel s; Some (out ++ rest)
    end
  end.
(** Every failure is the empty string. *)
Definition base64decode (src : list Z) : list Z := default [] (base64decode_loop (length src) src).

(** ** Hexadecimal *)
Definition hexdigit_lower (c : Z) : Z := if 9 <? c then c + 97 - 10 else c + 48.
Definition hexstring_from_data (bs : list Z) : list Z :=
  bs ≫= λ b, [hexdigit_lower (Z.land (Z.shiftr b 4) 15); hexdigit_lower (Z.land b 15)].
(** The two [switch]es of [data_from_hexstring]. *)
Definition hex_value (c : Z) : option Z :=
  if between 97 102 c then Some (c - 97 + 10)
  else if between 65 70 c then Some (c - 65 + 10)
  else if between 48 57 c then Some (c - 48)
  else None.
Fixpoint hex_loop (s : list Z) : outcome (list Z) :=
  match s with
  | [] => Ok []
  | hi :: lo :: s =>
    match hex_value hi, hex_value lo with
    | Some h, Some l => obind (hex_loop s) (λ bs, Ok (Z.lor (Z.land (Z.shiftl h 4) 255) l :: bs))
    | _, _ => Throw InvalidArgument
    end
  | [_] => Throw InvalidArgument
  end.
Definition data_from_hexstring (s : list Z) : outcome (list Z) :=
  if negb (Z.of_nat (length s) mod 2 =? 0) then Throw InvalidArgument else hex_loop s.

(** ** URL coding *)
(** [uri_chars]: digits, letters, - . _ ~ and, unlike its comment, =. *)
Definition CHAR_IS_UNRESERVED (c : Z) : bool :=
  between 48 57 c || between 65 90 c || between 97 122 c ||
  (c =? 45) || (c =? 46) || (c =? 61) || (c =? 95) || (c =? 126).
Definition hexdigit_upper (c : Z) : Z := if 9 <? c then c + 65 - 10 else c + 48.
Definition encode_char (space_as_plus : bool) (c : Z) : list Z :=
  if CHAR_IS_UNRESERVED c then [c]
  else if (c =? 32) && space_as_plus then [43]
  else [37; hexdigit_upper (Z.shiftr c 4); hexdigit_upper (Z.land c 15)].
(** The loops copy the string into [ss] at the first character they change;
    [read] is the part of [str] already read. *)
Definition copied (ss : option (list Z)) (read : list Z) : list Z := default read ss.
Fixpoint url_encode_loop (read rest : list Z) (ss : option (list Z)) (space_as_plus : bool) : list Z :=
  match rest with
  | [] => copied ss read
  | c :: rest =>
    url_encode_loop (read ++ [c]) rest
      (if negb (CHAR_IS_UNRESERVED c) then Some (copied ss read ++ encode_char space_as_plus c)
       else (.++ [c]) <$> ss) space_as_plus
  end.
Definition UrlEncode (str : list Z) (space_as_plus : bool) : list Z := url_encode_loop [] str None space_as_plus.

Definition isxdigit (c : Z) : bool := between 48 57 c || between 65 70 c || between 97 102 c.
(** [xdigit_chars] *)
Definition xdigit_chars (c : Z) : Z :=
  if between 48 57 c then c - 48 else if between 65 70 c then c - 65 + 10
  else if between 97 102 c then c - 97 + 10 else 0.
Fixpoint url_decode_loop (read rest : list Z) (ss : option (list Z)) (space_as_plus : bool) : list Z :=
  match rest with
  | [] => copied ss read
  | c :: tl =>
    if (c =? 43) && space_as_plus then url_decode_loop (read ++ [c]) tl (Some (copied ss read ++ [32])) space_as_plus
    else
      match tl with
      | h :: l :: tl' =>
        if (c =? 37) && isxdigit h && isxdigit l then
          url_decode_loop (read ++ [c; h; l]) tl'
            (Some (copied ss read ++ [Z.land (Z.lor (Z.shiftl (xdigit_chars h) 4) (xdigit_chars l)) 255]))
            space_as_plus
        else url_decode_loop (read ++ [c]) tl ((.++ [c]) <$> ss) space_as_plus
      | _ => url_decode_loop (read ++ [c]) tl ((.++ [c]) <$> ss) space_as_plus
      end
  end.
Definition UrlDecode (str : list Z) (space_as_plus : bool) : list Z := url_decode_loop [] str None space_as_plus.

(** ** Splitting, replacing, trimming *)
(** [str.find(pred, from)] on the rest of the string: the part before the first
    character of the class and the part after it. *)
Fixpoint find_char (p : Z → bool) (s : list Z) : option (list Z * list Z) :=
  match s with
  | [] => None
  | c :: s => if p c then Some ([], s) else prod_map (c ::.) id <$> find_char p s
  end.
(** Both [split]s: [--max == 1] leaves the rest whole; [max] is a [size_t]. *)
Fixpoint split_loop (fuel : nat) (p : Z → bool) (s : list Z) (max : Z) : list (list Z) :=
  match fuel, find_char p s with
  | S fuel, Some (piece, s) =>
    let max := (max - 1) mod 2 ^ 64 in
    piece :: (if max =? 1 then [s] else split_loop fuel p s max)
  | _, _ => [s]
  end.
Definition split (p : Z → bool) (s : list Z) (max : Z) : list (list Z) :=
  if bool_decide (s = []) then [] else split_loop (length s) p s max.

(** [str.find(find, from)] for a string: the part before and the part after. *)
Fixpoint find_string (find s : list Z) : option (list Z * list Z) :=
  if bool_decide (take (length find) s = find) then Some ([], drop (length find) s)
  else match s with
       | [] => None
       | c :: s => prod_map (c ::.) id <$> find_string find s
       end.
(** The three [replace]s: the search goes on after what was put in.  [None]: out of
    fuel. *)
Fixpoint replace_loop (fuel : nat) (find s replaceWith : list Z) : option (list Z) :=
  match find_string find s with
  | None => Some s
  | Some (before, after) =>
    match fuel with
    | O => None
    | S fuel => (λ rest, before ++ replaceWith ++ rest) <$> replace_loop fuel find after replaceWith
    end
  end.
Definition replace_char (fuel : nat) (s : list Z) (find replaceWith : Z) : option (list Z) :=
  replace_loop fuel [find] s [replaceWith].
Definition replace (fuel : nat) (s find replaceWith : list Z) : option (list Z) :=
  replace_loop fuel find s replaceWith.

(** [find_first_not_of] and [find_last_not_of]: positions. *)
Fixpoint find_first_not_of (p : Z → bool) (s : list Z) : option nat :=
  match s with
  | [] => None
  | c :: s => if p c then S <$> find_first_not_of p s else Some 0%nat
  end.
Definition find_last_not_of (p : Z → bool) (s : list Z) : option nat :=
  (λ i, (length s - 1 - i)%nat) <$> find_first_not_of p (reverse s).
Definition Trim (p : Z → bool) (s : list Z) : list Z :=
  match find_first_not_of p s, find_last_not_of p s with
  | Some b, Some e => take (e - b + 1) (drop b s)
  | _, _ => []
  end.
Definition TrimLeft (p : Z → bool) (s : list Z) : list Z :=
  match find_first_not_of p s with Some b => drop b s | None => [] end.
(** [substr(0, end)]: the last character kept is lost. *)
Definition TrimRight (p : Z → bool) (s : list Z) : list Z :=
  match find_last_not_of p s with Some e => take e s | None => [] end.

(** ** Hashes *)
Definition u32 (x : Z) : Z := x mod 2 ^ 32.
Definition ROTL (x r : Z) : Z := Z.lor (u32 (Z.shiftl x r)) (Z.shiftr x (32 - r)).
Definition fmix32 (h : Z) : Z :=
  let h := Z.lxor h (Z.shiftr h 16) in
  let h := u32 (h * 2246822507) in
  let h := Z.lxor h (Z.shiftr h 13) in
  let h := u32 (h * 3266489909) in
  Z.lxor h (Z.shiftr h 16).
Definition seed1 : Z := 3432918353.
Definition seed2 : Z := 461845907.
Definition mix_block (s : Z) : Z := u32 (ROTL (u32 (s * seed1)) 15 * seed2).
Definition hash_block (h s : Z) : Z := u32 (u32 (ROTL (Z.lxor h (mix_block s)) 13 * 5) + 3864292196).
(** [ptr[i]], a little-endian word, and the tail, read from its high byte. *)
Definition le_word (bs : list Z) : Z := foldr (λ b w, Z.lor b (Z.shiftl w 8)) 0 bs.
Fixpoint hash_blocks (h : Z) (bs : list Z) : Z * list Z :=
  match bs with
  | a :: b :: c :: d :: bs => hash_blocks (hash_block h (le_word [a; b; c; d])) bs
  | _ => (h, bs)
  end.
Definition murmur3_hash (bs : list Z) (seed : Z) : Z :=
  let '(h, tail) := hash_blocks seed bs in
  let h := if bool_decide (tail = []) then h else Z.lxor h (mix_block (le_word tail)) in
  fmix32 (Z.lxor h (u32 (Z.of_nat (length bs)))).
Definition murmur3_hash64 (bs : list Z) (seed seed2 : Z) : Z :=
  Z.lor (Z.shiftl (murmur3_hash bs seed) 32) (murmur3_hash bs seed2).
(** [char] is signed. *)
Definition char_value (c : Z) : Z := if c <? 128 then c else c - 256.
Definition quick_hash (bs : list Z) : Z := foldl (λ h c, u32 (31 * h + char_value c)) 0 bs.
(** With a size the pointer is not moved: every round reads the first byte. *)
Definition quick_hash_data (bs : list Z) : Z :=
  foldl (λ h _, u32 (31 * h + char_value (default 0 (head bs)))) 0 bs.

(** ** Round trips *)
(** Facts about the 64 digits, the 16 digits and the 256 bytes, by evaluation. *)
Lemma all_below (n : nat) (P : Z → bool) : forallb P (seqZ 0 (Z.of_nat n)) = true → ∀ z, 0 ≤ z < Z.of_nat n → P z = true.
Proof. intros H z Hz. rewrite forallb_forall in H. apply H, list_elem_of_In, elem_of_seqZ. lia. Qed.

Lemma base64_char_value i : 0 ≤ i < 64 → base64_value (base64_char i) = Some i ∧ (base64_char i =? 61) = false.
Proof.
  intros Hi. pose proof (all_below 64 (λ i, bool_decide (base64_value (base64_char i) = Some i) &&
    negb (base64_char i =? 61)) eq_refl i Hi) as H.
  apply andb_true_iff in H as [H1 H2]. by apply bool_decide_eq_true in H1; apply negb_true_iff in H2.
Qed.

Lemma decode_digit n i s k p v : 0 ≤ i < 64 → decode_group (S n) (base64_char i :: s) k 0 v = p →
  decode_group n s (S k) 0 (Z.lor (Z.shiftl v 6) i) = p.
Proof. intros Hi. cbn. by destruct (base64_char_value i Hi) as [-> ->]. Qed.
Lemma decode_digit' n i s k v : 0 ≤ i < 64 →
  decode_group (S n) (base64_char i :: s) k 0 v = decode_group n s (S k) 0 (Z.lor (Z.shiftl v 6) i).
Proof. intros Hi. symmetry. by apply (decode_digit n i s k). Qed.

(** The digits of a 24-bit group, and their value. *)
Lemma sextet p k : 0 ≤ k → 0 ≤ Z.land (Z.shiftr p k) 63 < 64.
Proof. intros. change 63 with (Z.ones 6). rewrite Z.land_ones by lia. apply Z.mod_pos_bound. lia. Qed.
Lemma group_value p : 0 ≤ p < 2 ^ 24 →
  Z.lor (Z.shiftl (Z.lor (Z.shiftl (Z.lor (Z.shiftl (Z.lor (Z.shiftl 0 6) (Z.shiftr p 18)) 6)
    (Z.land (Z.shiftr p 12) 63)) 6) (Z.land (Z.shiftr p 6) 63)) 6) (Z.land p 63) = p ∧
  0 ≤ Z.shiftr p 18 < 64.
Proof.
  intros Hp. pose proof (sextet p 12 ltac:(lia)). pose proof (sextet p 6 ltac:(lia)). pose proof (sextet p 0 ltac:(lia)).
  rewrite Z.shiftr_0_r in *. assert (0 ≤ Z.shiftr p 18 < 64) as Hh.
  { rewrite Z.shiftr_div_pow2 by lia. split; [apply Z.div_pos; lia|apply Z.div_lt_upper_bound; lia]. }
  split; [|done]. rewrite !lor_add by (done || lia). change 63 with (Z.ones 6) in *.
  rewrite !Z.land_ones, !Z.shiftr_div_pow2 in * by lia. change (2 ^ 24) with 16777216 in *.
  change (2 ^ 18) with 262144. change (2 ^ 12) with 4096. change (2 ^ 6) with 64.
  Z.to_euclidean_division_equations. lia.
Qed.

Lemma decode_group_spec p pad s : 0 ≤ p < 2 ^ 24 → (pad ≤ 2)%nat → p mod 2 ^ (8 * Z.of_nat pad) = 0 →
  decode_group 4 (base64_group p pad ++ s) 0 0 0 = Some (s, 4%nat, pad, p).
Proof.
  intros Hp Hpad Hlow. destruct (group_value p Hp) as [Hv Hh].
  pose proof (sextet p 12 ltac:(lia)). pose proof (sextet p 6 ltac:(lia)). pose proof (sextet p 0 ltac:(lia)).
  rewrite Z.shiftr_0_r in *.
  assert (∀ x, Z.shiftl x 6 = Z.lor (Z.shiftl x 6) 0) as Hz by (intros; by rewrite Z.lor_0_r).
  assert ((0 < pad)%nat → Z.land p 63 = 0) as H6.
  { intros Hpos. change 63 with (Z.ones 6). rewrite Z.land_ones by lia. change (2 ^ 6) with 64.
    destruct pad as [|[|[|]]]; try lia; cbn in Hlow; Z.to_euclidean_division_equations; lia. }
  assert (pad = 2%nat → Z.land (Z.shiftr p 6) 63 = 0) as H12.
  { intros ->. change 63 with (Z.ones 6). rewrite Z.land_ones, Z.shiftr_div_pow2 by lia. cbn in Hlow.
    change (2 ^ 6) with 64. Z.to_euclidean_division_equations. lia. }
  destruct pad as [|[|[|]]]; [| | |lia]; cbn [base64_group Nat.eqb app repeat]; rewrite !decode_digit' by done.
  - cbn [decode_group]. by rewrite Hv.
  - cbn [decode_group Z.eqb Pos.eqb]. rewrite H6 in Hv by lia. by rewrite (Hz (Z.lor _ (Z.land (Z.shiftr p 6) 63))), Hv.
  - cbn [decode_group Z.eqb Pos.eqb]. rewrite H6, H12 in Hv by lia.
    by rewrite (Hz (Z.shiftl _ 6)), (Hz (Z.lor _ (Z.land (Z.shiftr p 12) 63))), Hv.
Qed.

(** Packing bytes and taking them out again. *)
Lemma pack3 a b c : is_byte a → is_byte b → is_byte c → pack [a; b; c] = a * 65536 + b * 256 + c.
Proof.
  unfold is_byte, is_uint. intros. unfold pack. cbn [foldl]. rewrite !lor_add by lia. cbn. lia.
Qed.
Lemma pack2 a b : is_byte a → is_byte b → Z.shiftl (pack [a; b]) 8 = a * 65536 + b * 256.
Proof.
  unfold is_byte, is_uint. intros. unfold pack. cbn [foldl]. rewrite !lor_add, Z.shiftl_mul_pow2 by lia. cbn. lia.
Qed.
Lemma pack1 a : is_byte a → Z.shiftl (Z.shiftl (pack [a]) 8) 8 = a * 65536.
Proof.
  unfold is_byte, is_uint. intros. unfold pack. cbn [foldl]. rewrite !lor_add, !Z.shiftl_mul_pow2 by lia. cbn. lia.
Qed.
Lemma unpack a b c p : is_byte a → is_byte b → is_byte c → p = a * 65536 + b * 256 + c →
  Z.land (Z.shiftr p 16) 255 = a ∧ Z.land (Z.shiftr p 8) 255 = b ∧ Z.land p 255 = c ∧ 0 ≤ p < 2 ^ 24.
Proof.
  unfold is_byte, is_uint. change (2 ^ 8) with 256. change (2 ^ 24) with 16777216. intros Ha Hb Hc ->.
  change 255 with (Z.ones 8). rewrite !Z.land_ones, !Z.shiftr_div_pow2 by lia.
  change (2 ^ 16) with 65536. change (2 ^ 8) with 256.
  split_and!; try lia; Z.to_euclidean_division_equations; lia.
Qed.

Lemma base64_step p pad s fuel : 0 ≤ p < 2 ^ 24 → (pad ≤ 2)%nat → p mod 2 ^ (8 * Z.of_nat pad) = 0 →
  s = [] ∨ pad = 0%nat →
  base64decode_loop (S fuel) (base64_group p pad ++ s) =
    (λ rest, [Z.land (Z.shiftr p 16) 255] ++ (if (pad =? 2)%nat then [] else [Z.land (Z.shiftr p 8) 255]) ++
            (if (pad =? 0)%nat then [Z.land p 255] else []) ++ rest) <$> base64decode_loop fuel s.
Proof.
  intros Hp Hpad Hlow Hend.
  assert (base64_group p pad ++ s ≠ []) as Hne by done.
  pose proof (decode_group_spec p pad s Hp Hpad Hlow) as E. cbn [base64decode_loop].
  destruct (base64_group p pad ++ s) as [|c l]; [done|]. rewrite E. cbn [mbind option_bind].
  change (negb (4 =? 4)%nat) with false. cbn iota.
  rewrite (proj2 (Nat.ltb_ge 2 pad)) by lia.
  replace ((0 <? pad)%nat && negb (bool_decide (s = []))) with false; [|destruct Hend as [-> | ->]; by rewrite ?andb_false_r].
  cbn iota. destruct (base64decode_loop fuel s); [|done]. cbn. by rewrite <- app_assoc.
Qed.

Lemma base64_loop_ok n : ∀ bs fuel, (length bs ≤ n)%nat → bytes_ok bs → (length (base64encode bs) ≤ fuel)%nat →
  base64decode_loop fuel (base64encode bs) = Some bs.
Proof.
  induction n as [|n IH]; intros bs fuel Hn Hb Hf.
  { by destruct bs; [destruct fuel|cbn in Hn; lia]. }
  destruct bs as [|a [|b [|c bs]]]; [by destruct fuel| | |]; rewrite ?Forall_cons in Hb.
  - cbn [base64encode] in *. destruct fuel as [|fuel]; [cbn in Hf; lia|]. rewrite pack1 by apply Hb.
    destruct (unpack a 0 0 (a * 65536)) as (H1 & _ & _ & H2); [apply Hb|done..|lia|].
    pose proof (base64_step (a * 65536) 2 [] fuel H2 ltac:(lia)) as E. rewrite app_nil_r in E.
    rewrite E; [|cbn; Z.to_euclidean_division_equations; lia|by left].
    rewrite H1. by destruct fuel.
  - cbn [base64encode] in *. destruct fuel as [|fuel]; [cbn in Hf; lia|]. rewrite pack2 by apply Hb.
    destruct (unpack a b 0 (a * 65536 + b * 256)) as (H1 & H2 & _ & H3); [apply Hb|apply Hb|done|lia|].
    pose proof (base64_step (a * 65536 + b * 256) 1 [] fuel H3 ltac:(lia)) as E. rewrite app_nil_r in E.
    rewrite E; [|cbn; Z.to_euclidean_division_equations; lia|by left].
    cbn [Nat.eqb]. rewrite H1, H2. by destruct fuel.
  - change (base64encode (a :: b :: c :: bs)) with (base64_group (pack [a; b; c]) 0 ++ base64encode bs) in *.
    rewrite length_app in Hf. destruct fuel as [|fuel]; [cbn in Hf; lia|]. rewrite pack3 by apply Hb.
    destruct (unpack a b c (a * 65536 + b * 256 + c)) as (H1 & H2 & H3 & H4); [apply Hb..|done|].
    rewrite base64_step; [|done|lia|apply Z.mod_1_r|by right]. cbn [Nat.eqb]. rewrite H1, H2, H3.
    rewrite IH; [done|cbn in Hn; lia|apply Hb|cbn in Hf; lia].
Qed.

Lemma hexdigit_lower_value d : 0 ≤ d < 16 → hex_value (hexdigit_lower d) = Some d.
Proof.
  intros Hd. pose proof (all_below 16 (λ d, bool_decide (hex_value (hexdigit_lower d) = Some d)) eq_refl d Hd) as H.
  by apply bool_decide_eq_true in H.
Qed.
Lemma nibbles b : is_byte b → 0 ≤ Z.land (Z.shiftr b 4) 15 < 16 ∧ 0 ≤ Z.land b 15 < 16 ∧
  Z.lor (Z.land (Z.shiftl (Z.land (Z.shiftr b 4) 15) 4) 255) (Z.land b 15) = b.
Proof.
  intros Hb. unfold is_byte, is_uint in Hb.
  pose proof (all_below 256 (λ b, between 0 15 (Z.land (Z.shiftr b 4) 15) && between 0 15 (Z.land b 15) &&
    (Z.lor (Z.land (Z.shiftl (Z.land (Z.shiftr b 4) 15) 4) 255) (Z.land b 15) =? b)) eq_refl b ltac:(lia)) as H.
  unfold between in H. rewrite !andb_true_iff, !Z.leb_le, Z.eqb_eq in H. lia.
Qed.
Lemma hex_loop_ok bs : bytes_ok bs → hex_loop (hexstring_from_data bs) = Ok bs.
Proof.
  induction 1 as [|b bs Hb _ IH]; [done|]. destruct (nibbles b Hb) as (H1 & H2 & H3).
  change (hexstring_from_data (b :: bs)) with
    (hexdigit_lower (Z.land (Z.shiftr b 4) 15) :: hexdigit_lower (Z.land b 15) :: hexstring_from_data bs).
  cbn [hex_loop]. rewrite !hexdigit_lower_value, IH by done. cbn [obind]. by rewrite H3.
Qed.
Lemma hexstring_length bs : length (hexstring_from_data bs) = (2 * length bs)%nat.
Proof. induction bs as [|b bs IH]; [done|]. unfold hexstring_from_data in *. cbn in *. lia. Qed.


(** The lazily copied loops are character by character. *)
Lemma UrlEncode_spec str b : UrlEncode str b = str ≫= encode_char b.
Proof.
  unfold UrlEncode. change (str ≫= encode_char b) with (copied None [] ++ (str ≫= encode_char b)).
  generalize (@None (list Z)), (@nil Z). induction str as [|c rest IH]; intros ss read; cbn [url_encode_loop].
  { by rewrite app_nil_r. }
  rewrite IH; clear IH. cbn [mbind list_bind]. rewrite app_assoc. f_equal. unfold encode_char.
  by destruct (CHAR_IS_UNRESERVED c), ss.
Qed.

(** [UrlDecode] without the copy. *)
Fixpoint decode_chars (str : list Z) (space_as_plus : bool) : list Z :=
  match str with
  | [] => []
  | c :: rest =>
    if (c =? 43) && space_as_plus then 32 :: decode_chars rest space_as_plus
    else
      match rest with
      | h :: l :: rest' =>
        if (c =? 37) && isxdigit h && isxdigit l then
          Z.land (Z.lor (Z.shiftl (xdigit_chars h) 4) (xdigit_chars l)) 255 :: decode_chars rest' space_as_plus
        else c :: decode_chars rest space_as_plus
      | _ => c :: decode_chars rest space_as_plus
      end
  end.
Lemma copied_snoc ss read c : copied ((.++ [c]) <$> ss) (read ++ [c]) = copied ss read ++ [c].
Proof. by destruct ss. Qed.
Lemma UrlDecode_spec str b : UrlDecode str b = decode_chars str b.
Proof.
  unfold UrlDecode. change (decode_chars str b) with (copied None [] ++ decode_chars str b).
  generalize (@None (list Z)), (@nil Z). remember (length str) as n eqn:Hn.
  assert (length str ≤ n)%nat as Hle by lia. clear Hn. revert str Hle.
  induction n as [|n IH]; intros str Hle ss read.
  { destruct str; [cbn; by rewrite app_nil_r|cbn in Hle; lia]. }
  destruct str as [|c tl]; [cbn; by rewrite app_nil_r|]. cbn [url_decode_loop decode_chars]. cbn in Hle.
  assert (∀ ss' x, copied ss' (read ++ [c]) = copied ss read ++ [x] →
    url_decode_loop (read ++ [c]) tl ss' b = copied ss read ++ x :: decode_chars tl b) as Hone.
  { intros ss' x Hc. rewrite IH, Hc by lia. by rewrite <- app_assoc. }
  case_match; [by apply Hone|]. destruct tl as [|h [|l tl']]; try (by apply Hone, copied_snoc).
  case_match; [|by apply Hone, copied_snoc]. rewrite IH by (cbn in Hle; lia). cbn. by rewrite <- app_assoc.
Qed.

(** A coded character is decoded alone, whatever follows it. *)
Lemma url_char b c s : is_byte c → decode_chars (encode_char b c ++ s) b = c :: decode_chars s b.
Proof.
  intros Hc. unfold is_byte, is_uint in Hc.
  pose proof (all_below 256 (λ c,
    if CHAR_IS_UNRESERVED c then negb (c =? 43) && negb (c =? 37)
    else isxdigit (hexdigit_upper (Z.shiftr c 4)) && isxdigit (hexdigit_upper (Z.land c 15)) &&
      (Z.land (Z.lor (Z.shiftl (xdigit_chars (hexdigit_upper (Z.shiftr c 4))) 4)
                 (xdigit_chars (hexdigit_upper (Z.land c 15)))) 255 =? c)) eq_refl c ltac:(lia)) as H.
  cbn beta in H. unfold encode_char. destruct (CHAR_IS_UNRESERVED c).
  - apply andb_true_iff in H as [H1 H2]. apply negb_true_iff in H1, H2. cbn [app decode_chars]. rewrite H1, H2. cbn [andb].
    by destruct s as [|? [|? ?]].
  - apply andb_true_iff in H as [[H1 H2]%andb_true_iff H3%Z.eqb_eq]. revert H1 H2 H3.
    generalize (hexdigit_upper (Z.shiftr c 4)), (hexdigit_upper (Z.land c 15)). intros h l H1 H2 H3.
    destruct ((c =? 32) && b) eqn:E.
    + apply andb_true_iff in E as [->%Z.eqb_eq ->]. done.
    + cbn [app decode_chars Z.eqb Pos.eqb andb]. by rewrite H1, H2, H3.
Qed.
Lemma url_chars b str : bytes_ok str → decode_chars (str ≫= encode_char b) b = str.
Proof. induction 1 as [|c str Hc _ IH]; [done|]. cbn [mbind list_bind]. rewrite url_char by done. by f_equal. Qed.

(** C40: the three text codings are undone by their decoders, on every string of
    bytes: base64 (with its one or two bytes of padding), hexadecimal (which is
    never rejected) and URL coding, for both treatments of the blank; a coded URL
    is computed by the loops that copy the string at the first changed character,
    and hexadecimal text is twice as long. *)
Theorem text_roundtrips bs b : bytes_ok bs →
  base64decode (base64encode bs) = bs ∧
  data_from_hexstring (hexstring_from_data bs) = Ok bs ∧
  UrlDecode (UrlEncode bs b) b = bs ∧
  length (hexstring_from_data bs) = (2 * length bs)%nat.
Proof.
  intros Hb. unfold base64decode, data_from_hexstring.
  rewrite (base64_loop_ok (length bs)), UrlEncode_spec, UrlDecode_spec, url_chars, hexstring_length by done.
  replace (Z.of_nat (2 * length bs) mod 2) with 0 by (rewrite Nat2Z.inj_mul, Z.mul_comm, Z.mod_mul; lia).
  split_and!; [done|by apply hex_loop_ok|done..].
Qed.
Lemma text_roundtrips_witness :
  base64encode [104; 105] = [97; 71; 107; 61] ∧ base64decode (base64encode [104; 105; 255; 0]) = [104; 105; 255; 0].
Proof. split; [reflexivity|]. apply (text_roundtrips [104; 105; 255; 0] true). repeat constructor; done. Defined.

(** ** Splitting and replacing *)
(** The pieces put together again, with the string the delimiters made. *)
Lemma find_char_spec p s : match find_char p s with
  | Some (a, b) => ∃ c, s = a ++ c :: b ∧ p c = true ∧ Forall (λ x, p x = false) a
  | None => Forall (λ x, p x = false) s
  end.
Proof.
  induction s as [|c s IH]; cbn; [done|]. destruct (p c) eqn:E; [by exists c|].
  destruct (find_char p s) as [[a b]|]; cbn; [|by constructor].
  destruct IH as (c' & -> & Hc & Ha). exists c'. split_and!; [done..|by constructor].
Qed.
Fixpoint join (sep : list Z) (ps : list (list Z)) : list Z :=
  match ps with
  | [] => []
  | [p] => p
  | p :: ps => p ++ sep ++ join sep ps
  end.
Lemma join_cons sep p ps : ps ≠ [] → join sep (p :: ps) = p ++ sep ++ join sep ps.
Proof. by destruct ps. Qed.
Lemma removelast_cons {A} (p : A) ps : ps ≠ [] → removelast (p :: ps) = p :: removelast ps.
Proof. by destruct ps. Qed.
(** How many pieces [max] allows: 0 and 1 wrap around. *)
Definition split_limit (max : Z) : Z := (max - 2) mod 2 ^ 64 + 2.
Definition occurrences (d : Z) (s : list Z) : Z := Z.of_nat (length (List.filter (Z.eqb d) s)).

Lemma occurrences_app d a s : Forall (λ x, (d =? x) = false) a → occurrences d (a ++ s) = occurrences d s.
Proof.
  intros Ha. unfold occurrences. rewrite List.filter_app. do 2 f_equal.
  induction Ha as [|x a Hx _ IH]; cbn; [done|]. by rewrite Hx.
Qed.
Lemma split_limit_step max : 0 ≤ max < 2 ^ 64 →
  let max' := (max - 1) mod 2 ^ 64 in
  (max' = 1 → split_limit max = 2) ∧ (max' ≠ 1 → split_limit max = split_limit max' + 1).
Proof.
  unfold split_limit. intros Hm. change (2 ^ 64) with 18446744073709551616 in *.
  split; intros H; Z.to_euclidean_division_equations; lia.
Qed.

Lemma split_loop_spec d fuel : ∀ s max, (length s ≤ fuel)%nat → 0 ≤ max < 2 ^ 64 →
  let ps := split_loop fuel (Z.eqb d) s max in
  ps ≠ [] ∧ join [d] ps = s ∧ Z.of_nat (length ps) = Z.min (split_limit max) (1 + occurrences d s) ∧
  Forall (Forall (λ x, (d =? x) = false)) (removelast ps).
Proof.
  assert (∀ max, 2 ≤ split_limit max) as Hlim.
  { intros max. unfold split_limit. pose proof (Z.mod_pos_bound (max - 2) (2 ^ 64) ltac:(lia)). lia. }
  assert (∀ max s, Forall (λ x, (d =? x) = false) s →
    [s] ≠ [] ∧ join [d] [s] = s ∧ Z.of_nat (length [s]) = Z.min (split_limit max) (1 + occurrences d s) ∧
    Forall (Forall (λ x, (d =? x) = false)) (removelast [s])) as Hone.
  { intros max s Hs. split_and!; [done|done| |constructor]. specialize (Hlim max).
    pose proof (occurrences_app d s [] Hs) as H. rewrite app_nil_r in H. rewrite H. change (occurrences d []) with 0. cbn [length]. lia. }
  induction fuel as [|fuel IH]; intros s max Hf Hm; cbn [split_loop].
  { apply Hone. destruct s; [done|cbn in Hf; lia]. }
  pose proof (find_char_spec (Z.eqb d) s) as Hfind.
  destruct (find_char (Z.eqb d) s) as [[a b]|]; [|by apply Hone].
  destruct Hfind as (c & -> & <-%Z.eqb_eq & Ha). rewrite occurrences_app by done.
  rewrite length_app in Hf. cbn in Hf. cbn zeta.
  destruct (split_limit_step max Hm) as [H1 H2]. specialize (Hlim max).
  assert (occurrences d (d :: b) = 1 + occurrences d b) as ->.
  { unfold occurrences. cbn. rewrite Z.eqb_refl. cbn. lia. }
  assert (0 ≤ occurrences d b) by (unfold occurrences; lia).
  case_match eqn:E.
  - apply Z.eqb_eq in E. split_and!; [done|done| |]; [cbn; lia|by constructor].
  - apply Z.eqb_neq in E. destruct (IH b ((max - 1) mod 2 ^ 64)) as (Hne & Hj & Hl & Hp); [lia|apply Z.mod_pos_bound; lia|].
    rewrite join_cons, removelast_cons, Hj by done. split_and!; [done|done| |by constructor].
    cbn [length]. rewrite Nat2Z.inj_succ, Hl. specialize (H2 E). lia.
Qed.

Lemma find_string_spec f s : match find_string f s with
  | Some (a, b) => s = a ++ f ++ b
  | None => True
  end.
Proof.
  assert (∀ s, take (length f) s = f → s = f ++ drop (length f) s) as H.
  { intros t Ht. rewrite <- Ht at 1. by rewrite take_drop. }
  induction s as [|c s IH]; cbn; case_bool_decide as E; cbn; [by apply H|done|by apply H|].
  destruct (find_string f s) as [[a b]|]; cbn; [by rewrite IH|done].
Qed.
(** What is before the first occurrence holds none. *)
Lemma find_string_before f s a b : f ≠ [] → find_string f s = Some (a, b) → find_string f a = None.
Proof.
  intros Hf. assert (∀ t, take (length f) t = f → (length f ≤ length t)%nat) as Hlen.
  { intros t Ht. apply (f_equal length) in Ht. rewrite length_take in Ht. lia. }
  assert (find_string f [] = None) as Hnil by (destruct f; [done|]; cbn; by case_bool_decide).
  revert a b. induction s as [|c s IH]; intros a b; cbn; case_bool_decide as E; cbn; try (by intros [= <- <-]).
  pose proof (find_string_spec f s) as Hs.
  destruct (find_string f s) as [[a' b']|]; cbn; [|done]. intros [= <- <-]. cbn.
  rewrite (IH a' b') by done. case_bool_decide as E'; [|done]. exfalso. apply E.
  rewrite Hs, app_comm_cons, take_app_le; [done|]. by apply Hlen.
Qed.

Lemma replace_loop_ok f rw fuel : f ≠ [] → ∀ s, (length s ≤ fuel)%nat →
  ∃ ps, ps ≠ [] ∧ s = join f ps ∧ replace_loop fuel f s rw = Some (join rw ps) ∧
    Forall (λ p, find_string f p = None) ps.
Proof.
  intros Hf. induction fuel as [|fuel IH]; intros s Hs; cbn [replace_loop].
  - destruct s; [|cbn in Hs; lia]. exists [[]]. destruct f; [done|]. cbn. case_bool_decide; [done|].
    split_and!; [done..|]. constructor; [|done]. cbn. by case_bool_decide.
  - pose proof (find_string_spec f s) as Hspec. destruct (find_string f s) as [[a b]|] eqn:E.
    + destruct (IH b) as (ps & Hne & -> & Hr & Hps).
      { rewrite Hspec in Hs. rewrite !length_app in Hs. destruct f; [done|cbn in Hs; lia]. }
      exists (a :: ps). rewrite !join_cons, Hr by done. split_and!; [done..|].
      constructor; [by eapply find_string_before|done].
    + exists [s]. split_and!; [done..|by repeat constructor].
Qed.
Lemma replace_empty_diverges rw fuel : ∀ s, replace_loop fuel [] s rw = None.
Proof.
  induction fuel as [|fuel IH]; intros s; destruct s; cbn; rewrite bool_decide_true by done; [done..| |]; by rewrite IH.
Qed.

(** [split] loses nothing: the pieces with the delimiter between them are the
    string again, there are as many as the string has delimiters plus one, or
    [max] of them (with [max] 0, and also 1, there is no limit, as the counter
    wraps around), and no piece but the last, which is the rest, contains the
    delimiter. *)
Theorem split_exact d s max : s ≠ [] → 0 ≤ max < 2 ^ 64 →
  let ps := split (Z.eqb d) s max in
  join [d] ps = s ∧
  Z.of_nat (length ps) = Z.min (split_limit max) (1 + occurrences d s) ∧
  Forall (Forall (λ x, (d =? x) = false)) (removelast ps).
Proof.
  intros Hs Hm. unfold split. rewrite bool_decide_false by done.
  destruct (split_loop_spec d (length s) s max) as (_ & H); [lia|done|exact H].
Qed.
Lemma split_exact_witness : split (Z.eqb 44) [97; 44; 98; 44; 99] 2 = [[97]; [98; 44; 99]] ∧
  join [44] (split (Z.eqb 44) [97; 44; 98; 44; 99] 2) = [97; 44; 98; 44; 99].
Proof. split; [reflexivity|]. apply (split_exact 44 [97; 44; 98; 44; 99] 2); [done|lia]. Defined.

(** [replace] of a string that is not empty returns, within as many rounds as
    the string has characters: it cuts the string at the occurrences of the
    searched string, left to right, no piece containing one, and puts the pieces
    together with the replacement; it never looks into what it has put in.
    Searching for the empty string never returns. *)
Theorem replace_exact s find rw : find ≠ [] →
  (∃ ps, s = join find ps ∧ replace (length s) s find rw = Some (join rw ps) ∧
     Forall (λ p, find_string find p = None) ps) ∧
  (∀ fuel, replace fuel s [] rw = None).
Proof.
  intros Hf. split; [|intros; apply replace_empty_diverges].
  destruct (replace_loop_ok find rw (length s) Hf s) as (ps & _ & H); [lia|by exists ps].
Qed.
Lemma replace_exact_witness : replace 6 [97; 97; 97; 98; 97; 97] [97; 97] [97; 97; 97] = Some [97; 97; 97; 97; 98; 97; 97; 97] ∧
  ∃ ps, [97; 97; 97; 98] = join [97; 97] ps ∧ replace 4 [97; 97; 97; 98] [97; 97] [99] = Some (join [99] ps) ∧
    Forall (λ p, find_string [97; 97] p = None) ps.
Proof. split; [reflexivity|]. apply (replace_exact [97; 97; 97; 98] [97; 97] [99]). done. Defined.

(** ** Trimming *)
Lemma find_first_not_of_spec p s : match find_first_not_of p s with
  | Some i => ∃ a c b, s = a ++ c :: b ∧ length a = i ∧ Forall (λ x, p x = true) a ∧ p c = false
  | None => Forall (λ x, p x = true) s
  end.
Proof.
  induction s as [|c s IH]; cbn; [done|]. destruct (p c) eqn:E; [|by exists [], c, s].
  destruct (find_first_not_of p s); cbn; [|by constructor].
  destruct IH as (a & d & b & -> & <- & Ha & Hd). exists (c :: a), d, b. split_and!; [done..|by constructor|done].
Qed.
Lemma find_last_not_of_spec p s : match find_last_not_of p s with
  | Some i => ∃ a c b, s = a ++ c :: b ∧ length a = i ∧ Forall (λ x, p x = true) b ∧ p c = false
  | None => Forall (λ x, p x = true) s
  end.
Proof.
  unfold find_last_not_of. pose proof (find_first_not_of_spec p (reverse s)) as H.
  destruct (find_first_not_of p (reverse s)) as [i|]; cbn; [|rewrite <- (reverse_involutive s); by apply Forall_reverse].
  destruct H as (a & c & b & Hs & <- & Ha & Hc). apply (f_equal reverse) in Hs.
  rewrite reverse_involutive, reverse_app, reverse_cons, <- app_assoc in Hs.
  exists (reverse b), c, (reverse a). rewrite Hs, !length_app, !length_reverse. cbn.
  split_and!; [done|lia|by apply Forall_reverse|done].
Qed.
(** [Trim] and [TrimLeft] drop what they should, [TrimRight] one character more. *)
Lemma trims p s : (Forall (λ x, p x = true) s ∧ Trim p s = [] ∧ TrimLeft p s = [] ∧ TrimRight p s = []) ∨
  ∃ a m b, s = a ++ m ++ b ∧ m ≠ [] ∧ Forall (λ x, p x = true) a ∧ Forall (λ x, p x = true) b ∧
    (p <$> head m) = Some false ∧ (p <$> last m) = Some false ∧
    Trim p s = m ∧ TrimLeft p s = m ++ b ∧ TrimRight p s = a ++ removelast m.
Proof.
  unfold Trim, TrimLeft, TrimRight. pose proof (find_first_not_of_spec p s) as H1.
  pose proof (find_last_not_of_spec p s) as H2.
  destruct (find_first_not_of p s) as [i|]; destruct (find_last_not_of p s) as [j|]; [|exfalso|exfalso|by left].
  - right. destruct H1 as (a & c & r & -> & <- & Ha & Hc), H2 as (l & d & b & Hs & <- & Hb & Hd).
    assert (length a ≤ length l)%nat as Hle.
    { destruct (decide (length a ≤ length l)%nat) as [|Hn]; [done|exfalso].
      apply (f_equal (.!! length l)) in Hs. rewrite lookup_app_l, list_lookup_middle in Hs by lia.
      rewrite Forall_lookup in Ha. by rewrite (Ha _ _ Hs) in Hd. }
    apply app_eq_inv in Hs as [(k & -> & Hk)|(k & -> & Hk)].
    + rewrite length_app in Hle. destruct k; [|cbn in Hle; lia]. cbn in Hk. rewrite app_nil_r in *. injection Hk as -> ->.
      exists l, [c], r. rewrite !drop_app_length, take_app_length, Nat.sub_diag. cbn. by rewrite Hc, app_nil_r.
    + destruct k as [|c' k]; cbn in Hk; injection Hk as -> ->.
      * rewrite app_nil_r in *. exists a, [d], b. rewrite !drop_app_length, take_app_length, Nat.sub_diag. cbn.
        by rewrite Hd, app_nil_r.
      * exists a, (c' :: k ++ [d]), b. rewrite !drop_app_length, length_app.
        replace (length a + length (c' :: k) - length a + 1)%nat with (length (c' :: k ++ [d])) by (cbn; rewrite length_app; cbn; lia).
        rewrite (app_comm_cons k [d]), last_snoc, removelast_last. cbn [head fmap option_fmap option_map app].
        rewrite Hc, Hd, <- !app_assoc. cbn [app].
        assert (c' :: k ++ d :: b = (c' :: k ++ [d]) ++ b) as -> by (cbn; by rewrite <- app_assoc).
        rewrite take_app_length. split_and!; try done.
        assert (a ++ (c' :: k ++ [d]) ++ b = (a ++ c' :: k) ++ d :: b) as ->.
        { cbn. by rewrite <- !app_assoc. }
        by rewrite <- length_app, take_app_length.
  - destruct H1 as (a & c & b & -> & _ & _ & Hc). apply Forall_app in H2 as [_ H2%Forall_inv]. congruence.
  - destruct H2 as (a & c & b & -> & _ & _ & Hc). apply Forall_app in H1 as [_ H1%Forall_inv]. congruence.
Qed.
(** [TrimRight] of a string without anything to trim drops its last character. *)
Example trim_right_drops : TrimRight (Z.eqb 32) [97; 98; 32] = [97].
Proof. reflexivity. Qed.
(** The hash of data with a size depends on its first byte and length only. *)
Lemma quick_hash_data_first a bs bs' : length bs = length bs' → quick_hash_data (a :: bs) = quick_hash_data (a :: bs').
Proof.
  intros H. unfold quick_hash_data. cbn [foldl head default from_option id]. generalize (u32 (31 * 0 + char_value a)). revert bs' H.
  induction bs as [|b bs IH]; intros [|b' bs'] H z; [done..|]. cbn. apply IH. by injection H.
Qed.
(** Known values of MurmurHash3 x86 32. *)
Example murmur3_empty : murmur3_hash [] 1 = 1364076727.
Proof. reflexivity. Qed.
Example murmur3_test : murmur3_hash [116; 101; 115; 116] 0 = 3127628307.
Proof. reflexivity. Qed.
