(* ===== verification/Semaphore.v ===== *)
(** * Fiber semaphores (mutex.cc)

    [FiberSemaphore]: the counter, the list of suspended fibers, and what the
    critical sections of [tryWait], [wait] and [notify] do to them, on threads that
    have a scheduler.  A [wait] that
    answers [false] is followed by [Fiber::YieldToHold] outside the lock; the fiber
    [notify] answers is the one it schedules. *)
From S2P Require Import Prelude.

Record FiberSemaphore := mkSem { m_concurrency : Z; m_waiters : list nat }.
Definition new_FiberSemaphore (initial_concurrency : Z) : FiberSemaphore := mkSem initial_concurrency [].

Definition tryWait (s : FiberSemaphore) : bool * FiberSemaphore :=
  if 0 <? m_concurrency s then (true, mkSem (m_concurrency s - 1) (m_waiters s)) else (false, s).
Definition wait (f : nat) (s : FiberSemaphore) : bool * FiberSemaphore :=
  if 0 <? m_concurrency s then (true, mkSem (m_concurrency s - 1) (m_waiters s))
  else (false, mkSem (m_concurrency s) (m_waiters s ++ [f])).
Definition notify (s : FiberSemaphore) : option nat * FiberSemaphore :=
  match m_waiters s with
  | f :: fs => (Some f, mkSem (m_concurrency s) fs)
  | [] => (None, mkSem ((m_concurrency s + 1) mod 2 ^ 64) [])
  end.
Definition reset (s : FiberSemaphore) : FiberSemaphore := mkSem 0 (m_waiters s).
(** [~FiberSemaphore] *)
Definition destroy (s : FiberSemaphore) : outcome unit := assert (bool_decide (m_waiters s = [])).

(** ** Runs *)
Inductive sem_op := op_wait (f : nat) | op_tryWait | op_notify.
(** The fibers let through at once, suspended, and woken, each in order; [None] for
    the nameless caller of a [tryWait] that succeeded. *)
Record history := mkHist { passed : list (option nat); suspended : list nat; woken : list nat; notified : nat }.
Definition sem_step (o : sem_op) (st : FiberSemaphore * history) : FiberSemaphore * history :=
  let (s, h) := st in
  match o with
  | op_wait f =>
    let (now, s) := wait f s in
    (s, if now then mkHist (passed h ++ [Some f]) (suspended h) (woken h) (notified h)
        else mkHist (passed h) (suspended h ++ [f]) (woken h) (notified h))
  | op_tryWait =>
    let (now, s) := tryWait s in
    (s, if now then mkHist (passed h ++ [None]) (suspended h) (woken h) (notified h) else h)
  | op_notify =>
    let (f, s) := notify s in
    (s, mkHist (passed h) (suspended h) (woken h ++ option_list f) (S (notified h)))
  end.
Definition sem_run (ops : list sem_op) (initial : Z) : FiberSemaphore * history :=
  foldl (λ st o, sem_step o st) (new_FiberSemaphore initial, mkHist [] [] [] 0) ops.

Definition notifications (o : sem_op) : nat := match o with op_notify => 1 | _ => 0 end.

(** What holds between the counter, the list and the history. *)
Record consistent (initial : Z) (st : FiberSemaphore * history) : Prop := {
  cs_count : m_concurrency (st.1) + Z.of_nat (length (passed (st.2)) + length (woken (st.2))) =
    initial + Z.of_nat (notified (st.2));
  cs_fifo : suspended (st.2) = woken (st.2) ++ m_waiters (st.1);
  cs_some : m_waiters (st.1) = [] ∨ m_concurrency (st.1) = 0;
  cs_bound : 0 ≤ m_concurrency (st.1) ≤ initial + Z.of_nat (notified (st.2)) }.

Lemma sem_step_consistent initial o st : 0 ≤ initial → initial + Z.of_nat (notified (st.2) + notifications o) < 2 ^ 64 →
  consistent initial st → consistent initial (sem_step o st) ∧
  notified ((sem_step o st).2) = (notified (st.2) + notifications o)%nat.
Proof.
  destruct st as [[c ws] [p su wo n]]. intros Hi Hb [H1 H2 H3 H4]. cbn in *.
  unfold sem_step, wait, tryWait, notify. cbn [m_concurrency m_waiters].
  destruct o as [f| |]; [destruct (Z.ltb_spec 0 c)|destruct (Z.ltb_spec 0 c)|destruct ws as [|f ws]];
    cbn in Hb; (split; [split|]); cbn; rewrite ?length_app, ?Z.mod_small by lia; cbn; try lia; try done; try tauto.
  - left. destruct H3; [done|lia].
  - rewrite H2. by rewrite app_assoc.
  - left. destruct H3; [done|lia].
  - by rewrite !app_nil_r, H2, app_nil_r.
  - rewrite H2. by rewrite <- app_assoc.
  - right. by destruct H3.
Qed.

(** However [wait]s, [tryWait]s and [notify]s follow each other (fewer than
    2^64 of them in all with the initial count), the permits are conserved - those
    left, those given at once and those given by waking make the initial ones plus
    one per [notify] - permits are left only when nobody is suspended, so as many
    callers got through as asked or as there were permits; and the suspended fibers
    are woken in their order, each once. *)
Theorem semaphore_counts ops initial : 0 ≤ initial →
  initial + Z.of_nat (sum_list (notifications <$> ops)) < 2 ^ 64 →
  let (s, h) := sem_run ops initial in
  notified h = sum_list (notifications <$> ops) ∧
  m_concurrency s + Z.of_nat (length (passed h) + length (woken h)) = initial + Z.of_nat (notified h) ∧
  (m_waiters s = [] ∨ m_concurrency s = 0) ∧
  suspended h = woken h ++ m_waiters s ∧
  Z.of_nat (length (passed h) + length (woken h)) =
    Z.min (Z.of_nat (length (passed h) + length (suspended h))) (initial + Z.of_nat (notified h)).
Proof.
  intros Hi Hb. unfold sem_run. set (st0 := (new_FiberSemaphore initial, mkHist [] [] [] 0)).
  assert (consistent initial st0) as H0 by (split; cbn; [lia|done|by left|lia]).
  assert (initial + Z.of_nat (notified (st0.2) + sum_list (notifications <$> ops)) < 2 ^ 64) as Hb0 by done.
  change (sum_list (notifications <$> ops)) with (notified (st0.2) + sum_list (notifications <$> ops))%nat.
  clearbody st0. clear Hb. revert st0 H0 Hb0. induction ops as [|o ops IH]; intros st H Hb; cbn [foldl fmap list_fmap sum_list sum_list_with id] in *.
  - destruct st as [s h], H as [H1 H2 H3 H4]. cbn [fst snd] in *. split_and!; [lia|done|done|done|].
    rewrite H2, length_app. destruct H3 as [E|E]; rewrite E in *; cbn [length] in *; lia.
  - destruct (sem_step_consistent initial o st) as [H' E]; [done| |done|].
    { lia. }
    rewrite Nat.add_assoc, <- E. apply IH; [done|]. rewrite E. rewrite Nat.add_assoc in Hb. lia.
Qed.
Lemma semaphore_counts_witness :
  let (s, h) := sem_run [op_wait 7; op_wait 8; op_wait 9; op_notify; op_tryWait; op_notify; op_notify; op_tryWait] 1 in
  (woken h, m_concurrency s, passed h) = ([8%nat; 9%nat], 0, [Some 7%nat; None]) ∧
  suspended h = woken h ++ m_waiters s.
Proof.
  pose proof (semaphore_counts [op_wait 7; op_wait 8; op_wait 9; op_notify; op_tryWait; op_notify; op_notify; op_tryWait] 1) as H.
  destruct H as (_ & _ & _ & H & _); [lia|cbn; lia|]. split; [reflexivity|exact H].
Defined.
