(* ===== verification/AsyncStream.v ===== *)
(** * Requests over a shared connection
      (streams/async_socket_stream.cc, rock/rock_stream.cc)

    Many fibers send over one connection: a reader and a writer fiber serve it,
    a request waits suspended until a response with its sequence number, a
    time-out or the end of the connection wakes it.  Each function is a program:
    a list of instructions, one for each access to state that is shared, so that
    the steps of the fibers interleave as they may under several threads. *)
From S2P Require Import Prelude Rock Semaphore.

(** ** Data *)
(** [AsyncSocketStream::Error], as the [uint32_t] that [Ctx::result] is. *)
Definition TIMEOUT : Z := 2 ^ 32 - 1.
Definition IO_ERROR : Z := 2 ^ 32 - 2.
Definition NOT_CONNECT : Z := 2 ^ 32 - 3.

(** [Ctx] with the fields of [RockCtx]; [scheduler] tells whether the pointer is
    still set, and fibers are known by their number. *)
Record Ctx := mkCtx {
  sn : Z; result : Z; timed : bool; scheduler : bool;
  fiber : option nat; timer : option nat; response : option Response }.
Definition new_RockCtx (req : Request) (f : nat) : Ctx := mkCtx (req_sn req) 0 false true (Some f) None None.
Definition with_result v x := mkCtx (sn x) v (timed x) (scheduler x) (fiber x) (timer x) (response x).
Definition with_timed x := mkCtx (sn x) (result x) true (scheduler x) (fiber x) (timer x) (response x).
Definition no_scheduler x := mkCtx (sn x) (result x) (timed x) false (fiber x) (timer x) (response x).
Definition no_fiber x := mkCtx (sn x) (result x) (timed x) (scheduler x) None (timer x) (response x).
Definition with_timer t x := mkCtx (sn x) (result x) (timed x) (scheduler x) (fiber x) t (response x).
Definition with_response r x := mkCtx (sn x) (result x) (timed x) (scheduler x) (fiber x) (timer x) (Some r).

(** A [RockSendCtx] or a [RockCtx] in [m_queue]; contexts are known by their number. *)
Inductive SendCtx := SendMsg (m : message) | SendReq (c : nat).

(** What a fiber is suspended for. *)
Inductive reason := ForResponse (c : nat) | ForQueue | ForStart.

(** The callback of a timer. *)
Inductive timer_cb := OnTimeOut (c : nat) | OnStart.

(** The steps of the functions; what each does is [exec]. *)
Inductive instr :=
| IRequest (req : Request) | IAddCtx (c : nat) | IAddTimer (c : nat) | ISetTimer (c t : nat)
| IEnqueue (x : SendCtx) | INotify | IHold (w : reason) | IResult (c : nat)
| ISendMessage (m : message)
| IDoRsp (c : nat) | ICas (c : nat) (scd : bool) | IRspTimer (c : nat) | IRspTimed (c : nat) | ISchedule (c : nat)
| IErase (c : nat) | ITimed (c : nat)
| IReadLoop | IRecv | IGetAndDel (r : Response) | ISetResult (c : nat) (r : Response) | ISetResponse (c : nat) (r : Response)
| IReadOut | IRestart
| IHandleRequest (r : Request) | IHandleNotify (n : Rock.Notify)
| IInnerClose | ISwapCtxs | IFail (c : nat) | IClearQueue
| IWriteLoop | IWait | ISwapQueue | ISendAll (xs : list SendCtx) | IWriteOut | IWaitNotify
| IStart | ITake | ICancelStart | IConnect | IConnectCb | IStartRead | IStartWrite | IRetry
| IClose | ICloseTimer | ICloseSocket.

(** What the code outside answers to an instruction: the socket, the decoder, the
    handlers and callbacks. *)
Inductive answer :=
| Yes | No | Thrown
| Nothing | Received (m : message)
| Handled (rsp : message) (ok : bool).

(** A [RockResult], with the number of the request's context. *)
Record RockResult := mkRockResult { rr_result : Z; rr_response : option Response }.

(** The stream.  Contexts and timers are kept in lists, which only grow; a timer
    that fired or was cancelled is [None].  [ready] holds the fibers that were
    scheduled and have not yet been resumed, and [wakes], [sent] and [answered]
    record what happened. *)
Record Stream := mkStream {
  connected : bool;
  m_autoConnect : bool;
  m_requestHandler : bool;
  m_notifyHandler : bool;
  ctxs : list Ctx;
  m_ctxs : gmap Z nat;
  m_queue : list SendCtx;
  m_sem : FiberSemaphore;
  m_waitSem : FiberSemaphore;
  timers : list (option timer_cb);
  m_timer : option nat;
  ready : list nat;
  wakes : list nat;
  sent : list SendCtx;
  answered : list (nat * RockResult) }.
Definition new_Stream (isConnected autoConnect requestHandler notifyHandler : bool) : Stream :=
  mkStream isConnected autoConnect requestHandler notifyHandler [] ∅ []
    (new_FiberSemaphore 0) (new_FiberSemaphore 2) [] None [] [] [] [].

Definition set_connected v s := mkStream v (m_autoConnect s) (m_requestHandler s) (m_notifyHandler s) (ctxs s)
  (m_ctxs s) (m_queue s) (m_sem s) (m_waitSem s) (timers s) (m_timer s) (ready s) (wakes s) (sent s) (answered s).
Definition no_autoConnect s := mkStream (connected s) false (m_requestHandler s) (m_notifyHandler s) (ctxs s)
  (m_ctxs s) (m_queue s) (m_sem s) (m_waitSem s) (timers s) (m_timer s) (ready s) (wakes s) (sent s) (answered s).
Definition set_ctxs v s := mkStream (connected s) (m_autoConnect s) (m_requestHandler s) (m_notifyHandler s) v
  (m_ctxs s) (m_queue s) (m_sem s) (m_waitSem s) (timers s) (m_timer s) (ready s) (wakes s) (sent s) (answered s).
Definition set_map v s := mkStream (connected s) (m_autoConnect s) (m_requestHandler s) (m_notifyHandler s) (ctxs s)
  v (m_queue s) (m_sem s) (m_waitSem s) (timers s) (m_timer s) (ready s) (wakes s) (sent s) (answered s).
Definition set_queue v s := mkStream (connected s) (m_autoConnect s) (m_requestHandler s) (m_notifyHandler s) (ctxs s)
  (m_ctxs s) v (m_sem s) (m_waitSem s) (timers s) (m_timer s) (ready s) (wakes s) (sent s) (answered s).
Definition set_sem v s := mkStream (connected s) (m_autoConnect s) (m_requestHandler s) (m_notifyHandler s) (ctxs s)
  (m_ctxs s) (m_queue s) v (m_waitSem s) (timers s) (m_timer s) (ready s) (wakes s) (sent s) (answered s).
Definition set_waitSem v s := mkStream (connected s) (m_autoConnect s) (m_requestHandler s) (m_notifyHandler s) (ctxs s)
  (m_ctxs s) (m_queue s) (m_sem s) v (timers s) (m_timer s) (ready s) (wakes s) (sent s) (answered s).
Definition set_timers v s := mkStream (connected s) (m_autoConnect s) (m_requestHandler s) (m_notifyHandler s) (ctxs s)
  (m_ctxs s) (m_queue s) (m_sem s) (m_waitSem s) v (m_timer s) (ready s) (wakes s) (sent s) (answered s).
Definition set_m_timer v s := mkStream (connected s) (m_autoConnect s) (m_requestHandler s) (m_notifyHandler s) (ctxs s)
  (m_ctxs s) (m_queue s) (m_sem s) (m_waitSem s) (timers s) v (ready s) (wakes s) (sent s) (answered s).
Definition set_ready v s := mkStream (connected s) (m_autoConnect s) (m_requestHandler s) (m_notifyHandler s) (ctxs s)
  (m_ctxs s) (m_queue s) (m_sem s) (m_waitSem s) (timers s) (m_timer s) v (wakes s) (sent s) (answered s).
Definition add_wake c s := mkStream (connected s) (m_autoConnect s) (m_requestHandler s) (m_notifyHandler s) (ctxs s)
  (m_ctxs s) (m_queue s) (m_sem s) (m_waitSem s) (timers s) (m_timer s) (ready s) (wakes s ++ [c]) (sent s) (answered s).
Definition add_sent x s := mkStream (connected s) (m_autoConnect s) (m_requestHandler s) (m_notifyHandler s) (ctxs s)
  (m_ctxs s) (m_queue s) (m_sem s) (m_waitSem s) (timers s) (m_timer s) (ready s) (wakes s) (sent s ++ [x]) (answered s).
Definition add_answer a s := mkStream (connected s) (m_autoConnect s) (m_requestHandler s) (m_notifyHandler s) (ctxs s)
  (m_ctxs s) (m_queue s) (m_sem s) (m_waitSem s) (timers s) (m_timer s) (ready s) (wakes s) (sent s) (answered s ++ [a]).

(** ** The instructions *)
(** What a step leaves: the instructions that come next in the same fiber, the
    programs it hands to the I/O manager, and the stream. *)
Definition effect : Type := list instr * list (list instr) * Stream.
Definition go (next : list instr) (s : Stream) : option effect := Some (next, [], s).
Definition on_ctx (c : nat) (f : Ctx → Ctx) (s : Stream) : Stream := set_ctxs (alter f c (ctxs s)) s.

(** [timer->cancel()], the addition of a timer, and the wake-up of a fiber that a
    semaphore lets through. *)
Definition cancel_timer (t : nat) (s : Stream) : Stream := set_timers (<[t := None]> (timers s)) s.
Definition addTimer (cb : timer_cb) (s : Stream) : nat * Stream :=
  (length (timers s), set_timers (timers s ++ [Some cb]) s).
Definition schedule_fibers (fs : list nat) (s : Stream) : Stream := set_ready (ready s ++ fs) s.
Definition notify_sem (s : Stream) : Stream :=
  let (f, m) := notify (m_sem s) in schedule_fibers (option_list f) (set_sem m s).
Definition notify_waitSem (s : Stream) : Stream :=
  let (f, m) := notify (m_waitSem s) in schedule_fibers (option_list f) (set_waitSem m s).

Fixpoint remove_one (p : nat) (l : list nat) : list nat :=
  match l with
  | [] => []
  | q :: l => if decide (q = p) then l else q :: remove_one p l
  end.

(** [innerClose] and what [start] does after it when it fails. *)
Definition start_failed : list instr := [IInnerClose; IWaitNotify; IWaitNotify; IRetry].

Definition exec (p : nat) (i : instr) (a : answer) (s : Stream) : option effect :=
  match i with
  (* RockStream::request: the context is private until addCtx *)
  | IRequest req =>
    if connected s then
      let c := length (ctxs s) in
      go [IAddCtx c; IAddTimer c; IEnqueue (SendReq c); IHold (ForResponse c); IResult c]
         (set_ctxs (ctxs s ++ [new_RockCtx req p]) s)
    else go [] (add_answer (p, mkRockResult (to_signed 32 NOT_CONNECT) None) s)
  | IAddCtx c =>
    x ← ctxs s !! c;
    go [] (if m_ctxs s !! sn x is Some _ then s else set_map (<[sn x := c]> (m_ctxs s)) s)
  | IAddTimer c => let (t, s) := addTimer (OnTimeOut c) s in go [ISetTimer c t] s
  | ISetTimer c t => go [] (on_ctx c (with_timer (Some t)) s)
  (* enqueue; the notification is outside the lock *)
  | IEnqueue x =>
    go (if bool_decide (m_queue s = []) then [INotify] else []) (set_queue (m_queue s ++ [x]) s)
  | INotify => go [] (notify_sem s)
  (* the return from YieldToHold: when the fiber has been scheduled *)
  | IHold _ =>
    if decide (p ∈ ready s) then go [] (set_ready (remove_one p (ready s)) s) else None
  | IResult c =>
    x ← ctxs s !! c; go [] (add_answer (p, mkRockResult (to_signed 32 (result x)) (response x)) s)
  | ISendMessage m => go (if connected s then [IEnqueue (SendMsg m)] else []) s
  (* Ctx::doRsp *)
  | IDoRsp c => x ← ctxs s !! c; go [ICas c (scheduler x)] s
  | ICas c scd =>
    x ← ctxs s !! c;
    if bool_decide (scheduler x = scd) then
      go (if scd && bool_decide (is_Some (fiber x)) then [IRspTimer c] else [])
         (on_ctx c no_scheduler s)
    else go [] s
  | IRspTimer c =>
    x ← ctxs s !! c;
    go [IRspTimed c] (if timer x is Some t then on_ctx c (with_timer None) (cancel_timer t s) else s)
  | IRspTimed c =>
    x ← ctxs s !! c; go [ISchedule c] (if timed x then on_ctx c (with_result TIMEOUT) s else s)
  | ISchedule c =>
    x ← ctxs s !! c;
    go [] (if fiber x is Some f then on_ctx c no_fiber (add_wake c (schedule_fibers [f] s)) else s)
  (* onTimeOut *)
  | IErase c => x ← ctxs s !! c; go [] (set_map (delete (sn x) (m_ctxs s)) s)
  | ITimed c => go [IDoRsp c] (on_ctx c with_timed s)
  (* doRead and RockStream::doRecv *)
  | IReadLoop => go (if connected s then [IRecv] else [IReadOut]) s
  | IRecv =>
    match a with
    | Thrown => go [IReadOut] s
    | Nothing => go [IInnerClose; IReadLoop] s
    | Received (RockResponse r _) => go [IGetAndDel r; IReadLoop] s
    | Received (RockRequest r _) =>
      Some ([IReadLoop], (if m_requestHandler s then [[IHandleRequest r]] else []), s)
    | Received (RockNotify n _) =>
      Some ([IReadLoop], (if m_notifyHandler s then [[IHandleNotify n]] else []), s)
    | _ => None
    end
  | IGetAndDel r =>
    match m_ctxs s !! res_sn r with
    | Some c => go [ISetResult c r] (set_map (delete (res_sn r) (m_ctxs s)) s)
    | None => go [] s
    end
  | ISetResult c r => go [ISetResponse c r] (on_ctx c (with_result (Rock.m_result r)) s)
  | ISetResponse c r => go [IDoRsp c] (on_ctx c (with_response r) s)
  | IReadOut => go [IInnerClose; IWaitNotify; IRestart] s
  | IRestart => go [] (if m_autoConnect s then (addTimer OnStart s).2 else s)
  (* handleRequest and handleNotify *)
  | IHandleRequest r =>
    match a with
    | Handled rsp ok => go (ISendMessage rsp :: if ok then [] else [IClose]) s
    | _ => None
    end
  | IHandleNotify n =>
    match a with Yes => go [] s | No => go [IClose] s | _ => None end
  (* innerClose *)
  | IInnerClose => go [INotify; ISwapCtxs] (set_connected false s)
  | ISwapCtxs =>
    go (IClearQueue :: (IFail <$> (map_to_list (m_ctxs s)).*2)) (set_map ∅ s)
  | IFail c => go [IDoRsp c] (on_ctx c (with_result IO_ERROR) s)
  | IClearQueue => go [] (set_queue [] s)
  (* doWrite *)
  | IWriteLoop => go (if connected s then [IWait] else [IWriteOut]) s
  | IWait =>
    let (now, m) := wait p (m_sem s) in
    go (if now then [ISwapQueue] else [IHold ForQueue; ISwapQueue]) (set_sem m s)
  | ISwapQueue => go [ISendAll (m_queue s)] (set_queue [] s)
  | ISendAll [] => go [IWriteLoop] s
  | ISendAll (x :: xs) =>
    match a with
    | Yes => go [ISendAll xs] (add_sent x s)
    | No => go [IInnerClose; IWriteLoop] s
    | Thrown => go [IWriteOut] s
    | _ => None
    end
  | IWriteOut => go [IClearQueue; IWaitNotify] s
  | IWaitNotify => go [] (notify_waitSem s)
  (* start *)
  | IStart => go [ITake; ITake; ICancelStart; IConnect] s
  | ITake =>
    let (now, m) := wait p (m_waitSem s) in
    go (if now then [] else [IHold ForStart]) (set_waitSem m s)
  | ICancelStart =>
    go [] (if m_timer s is Some t then set_m_timer None (cancel_timer t s) else s)
  | IConnect =>
    if connected s then go [IConnectCb] s
    else match a with
         | Yes => go [IConnectCb] (set_connected true s)
         | No => go start_failed s
         | _ => None
         end
  | IConnectCb =>
    match a with
    | Yes => go [IStartRead; IStartWrite] s
    | No => go start_failed s
    | _ => None
    end
  | IStartRead => Some ([], [[IReadLoop]], s)
  | IStartWrite => Some ([], [[IWriteLoop]], s)
  | IRetry =>
    go [] (if m_autoConnect s then
             let s := if m_timer s is Some t then set_m_timer None (cancel_timer t s) else s in
             let (t, s) := addTimer OnStart s in set_m_timer (Some t) s
           else s)
  (* close, called from outside *)
  | IClose => go [ICloseTimer; ICloseSocket] (no_autoConnect s)
  | ICloseTimer => go [] (if m_timer s is Some t then cancel_timer t s else s)
  | ICloseSocket => go [] (set_connected false s)
  end.

(** ** The fibers *)
Record world := mkWorld { st : Stream; procs : list (list instr) }.

(** A fiber goes on; a fiber that has nothing to do enters the stream through one
    of its public functions; a timer is due. *)
Inductive label :=
| Go (p : nat) (a : answer)
| Enter (p : nat) (i : instr)
| Fire (t : nat).
Definition is_entry (i : instr) : bool :=
  match i with IRequest _ | ISendMessage _ | IClose | IStart => true | _ => false end.
Definition timer_prog (cb : timer_cb) : list instr :=
  match cb with OnTimeOut c => [IErase c; ITimed c] | OnStart => [IStart] end.

Definition step (l : label) (W : world) : option world :=
  match l with
  | Go p a =>
    match procs W !! p with
    | Some (i :: k) =>
      '(next, new, s) ← exec p i a (st W);
      Some (mkWorld s (<[p := next ++ k]> (procs W) ++ new))
    | _ => None
    end
  | Enter p i =>
    match procs W !! p with
    | Some [] => if is_entry i then Some (mkWorld (st W) (<[p := [i]]> (procs W))) else None
    | _ => None
    end
  | Fire t =>
    match timers (st W) !! t with
    | Some (Some cb) => Some (mkWorld (cancel_timer t (st W)) (procs W ++ [timer_prog cb]))
    | _ => None
    end
  end.
Fixpoint run (ls : list label) (W : world) : option world :=
  match ls with
  | [] => Some W
  | l :: ls => W ← step l W; run ls W
  end.

(** [n] fibers outside a fresh stream. *)
Definition init (n : nat) (isConnected autoConnect requestHandler notifyHandler : bool) : world :=
  mkWorld (new_Stream isConnected autoConnect requestHandler notifyHandler) (replicate n []).

(** ** Runs *)
Definition gos (p n : nat) : list label := repeat (Go p Nothing) n.
Definition answers (W : option world) : option (list (nat * RockResult)) := answered ∘ st <$> W.

(** Fiber 1 starts the stream (the reader is fiber 2, the writer fiber 3), and
    fiber 0 makes a request up to the point where it waits. *)
Definition started : list label :=
  Enter 1 IStart :: gos 1 5 ++ [Go 1 Yes] ++ gos 1 2.
Definition requested (sn : Z) : list label := Enter 0 (IRequest (mkRequest sn 1)) :: gos 0 6.
Definition a_response : Response := mkResponse 5 1 0 [].

(** The usual course: sent, answered, resumed, and the timer cancelled. *)
Example request_answered :
  let W := run (started ++ requested 5 ++ gos 3 3 ++ [Go 3 Yes] ++ [Go 2 Yes; Go 2 (Received (RockResponse a_response []))] ++
                gos 2 8 ++ gos 0 2) (init 2 true false false false) in
  answers W = Some [(0%nat, mkRockResult 0 (Some a_response))] ∧
  sent ∘ st <$> W = Some [SendReq 0] ∧ timers ∘ st <$> W = Some [None].
Proof. split_and!; reflexivity. Qed.

(** Nothing came: the time-out. *)
Example request_timed_out :
  answers (run (started ++ requested 5 ++ [Fire 0] ++ gos 4 7 ++ gos 0 2) (init 2 true false false false)) =
  Some [(0%nat, mkRockResult (-1) None)].
Proof. reflexivity. Qed.

(** The connection ends: the reader wakes every waiting request. *)
Example request_failed :
  answers (run (started ++ requested 5 ++ [Go 2 Yes; Go 2 Nothing] ++ gos 2 10 ++ gos 0 2) (init 2 true false false false)) =
  Some [(0%nat, mkRockResult (-2) None)].
Proof. reflexivity. Qed.

(** The reader has taken the context out of the map and set its result, but not
    yet its response, when the time-out wakes the request: it reads the result 0,
    success, without a response. *)
Example success_without_response :
  answers (run (started ++ requested 5 ++ [Go 2 Yes; Go 2 (Received (RockResponse a_response []))] ++ gos 2 1 ++
                [Fire 0] ++ gos 4 7 ++ gos 2 1 ++ gos 0 2) (init 2 true false false false)) =
  Some [(0%nat, mkRockResult 0 None)].
Proof. reflexivity. Qed.

(** Two requests with one sequence number: the second context is not entered in
    the map; when it times out it erases the first one's entry, whose response
    is then dropped. *)
Example duplicate_sn_loses_response :
  let W := run (started ++ requested 5 ++ Enter 1 (IRequest (mkRequest 5 2)) :: gos 1 5 ++
                [Fire 1] ++ gos 4 7 ++ gos 1 2 ++
                [Go 2 Yes; Go 2 (Received (RockResponse a_response []))] ++ gos 2 1) (init 2 true false false false) in
  answers W = Some [(1%nat, mkRockResult (-1) None)] ∧ ready ∘ st <$> W = Some [] ∧
  (λ W, procs W !! 0%nat) <$> W = Some (Some [IHold (ForResponse 0); IResult 0]).
Proof. split_and!; reflexivity. Qed.

(** Two calls of [start] at once take one token each and wait for ever. *)
Example two_starts_deadlock :
  let W := run [Enter 0 IStart; Enter 1 IStart; Go 0 Yes; Go 0 Yes; Go 1 Yes; Go 1 Yes; Go 0 Yes; Go 1 Yes]
             (init 2 true true false false) in
  (λ W, (procs W, ready (st W), timers (st W))) <$> W =
  Some ([[IHold ForStart; ICancelStart; IConnect]; [IHold ForStart; ICancelStart; IConnect]], [], []).
Proof. reflexivity. Qed.
