(* ===== verification/AsyncStreamSpec.v ===== *)
(** * Invariants of the shared connection

    Conservation laws over all pending instructions of all fibers: each context
    is woken by exactly one party, each suspended fiber is owed exactly one
    wake-up, and as long as a context is not woken somebody will do it. *)
From S2P Require Import Prelude Rock Semaphore AsyncStream.

(** ** Sums over pending instructions *)
Abbreviation total := sum_list_with.
Definition weigh (f : instr → nat) (ps : list (list instr)) : nat := total (total f) ps.
Definition cnt (x : nat) (l : list nat) : nat := total (λ y, if decide (x = y) then 1%nat else 0%nat) l.

Lemma total_app {A} (f : A → nat) l k : total f (l ++ k) = (total f l + total f k)%nat.
Proof. induction l as [|x l IH]; cbn; [done|]. rewrite IH. lia. Qed.
Lemma total_insert {A} (f : A → nat) l p (x y : A) : l !! p = Some x →
  (total f (<[p := y]> l) + f x = total f l + f y)%nat.
Proof.
  revert p. induction l as [|z l IH]; intros [|p] Hp; try done; cbn.
  - injection Hp as ->. lia.
  - specialize (IH p Hp). change (f z + total f (<[p := y]> l) + f x = f z + total f l + f y)%nat. lia.
Qed.
Lemma total_lookup {A} (f : A → nat) l p (x : A) : l !! p = Some x → (f x ≤ total f l)%nat.
Proof. intros H. rewrite <- (take_drop_middle l p x H), total_app. cbn. lia. Qed.
Lemma total_two {A} (f : A → nat) l p q (x y : A) : p ≠ q → l !! p = Some x → l !! q = Some y → (f x + f y ≤ total f l)%nat.
Proof.
  revert p q. induction l as [|z l IH]; intros [|p] [|q] Hne Hp Hq; try done; cbn in *; simplify_eq/=.
  - pose proof (total_lookup f l q y Hq). lia.
  - pose proof (total_lookup f l p x Hp). lia.
  - specialize (IH p q ltac:(lia) Hp Hq). lia.
Qed.
Lemma total_pos {A} (f : A → nat) l : (0 < total f l)%nat → ∃ p x, l !! p = Some x ∧ (0 < f x)%nat.
Proof.
  induction l as [|z l IH]; cbn; [lia|]. intros H. destruct (decide (0 < f z)%nat); [by exists 0%nat, z|].
  destruct IH as (p & x & ? & ?); [lia|]. by exists (S p), x.
Qed.
Lemma total_zero {A} (f : A → nat) l : Forall (λ x, f x = 0%nat) l → total f l = 0%nat.
Proof. induction 1; cbn; lia. Qed.
Lemma total_ext {A} (f g : A → nat) l : Forall (λ x, f x = g x) l → total f l = total g l.
Proof. induction 1; cbn; lia. Qed.

Lemma weigh_step f ps p i k next new : ps !! p = Some (i :: k) →
  (weigh f (<[p := next ++ k]> ps ++ new) + f i = weigh f ps + total f next + weigh f new)%nat.
Proof.
  intros Hp. unfold weigh. rewrite total_app. pose proof (total_insert (total f) ps p (i :: k) (next ++ k) Hp) as H.
  cbn in H. rewrite total_app in H. lia.
Qed.
Lemma weigh_other (ps new : list (list instr)) p i k next q l : ps !! p = Some (i :: k) →
  (<[p := next ++ k]> ps ++ new) !! q = Some l →
  (q = p ∧ l = next ++ k) ∨ (q ≠ p ∧ ps !! q = Some l) ∨ ((length ps ≤ q)%nat ∧ l ∈ new).
Proof.
  intros Hp Hq. assert (p < length ps)%nat by (by apply lookup_lt_Some in Hp).
  destruct (decide (q = p)) as [->|Hne].
  - left. rewrite lookup_app_l, list_lookup_insert_eq in Hq; [naive_solver|done|by rewrite length_insert].
  - right. destruct (decide (q < length ps)%nat).
    + left. rewrite lookup_app_l, list_lookup_insert_ne in Hq; [done|done|by rewrite length_insert].
    + right. rewrite lookup_app_r in Hq by (rewrite length_insert; lia). split; [lia|]. by eapply list_elem_of_lookup_2.
Qed.

Lemma cnt_app x l k : cnt x (l ++ k) = (cnt x l + cnt x k)%nat.
Proof. apply total_app. Qed.
Lemma cnt_pos x l : (0 < cnt x l)%nat ↔ x ∈ l.
Proof.
  unfold cnt. split.
  - intros (p & y & Hp & Hy)%total_pos. case_decide; [subst|lia]. by eapply list_elem_of_lookup_2.
  - intros (p & Hp)%list_elem_of_lookup_1. pose proof (total_lookup (λ y, if decide (x = y) then 1%nat else 0%nat) l p x Hp) as H.
    cbv beta in H. rewrite decide_True in H by done. lia.
Qed.
Lemma cnt_zero x l : cnt x l = 0%nat ↔ x ∉ l.
Proof. rewrite <- cnt_pos. lia. Qed.
Lemma NoDup_cnt l : (∀ x, (cnt x l ≤ 1)%nat) → NoDup l.
Proof.
  induction l as [|y l IH]; intros H; constructor.
  - rewrite <- cnt_zero. specialize (H y). cbn in H. rewrite decide_True in H by done. unfold cnt. lia.
  - apply IH. intros x. specialize (H x). cbn in H. unfold cnt. case_decide; lia.
Qed.
Lemma cnt_remove_one x p l : p ∈ l → (cnt x (remove_one p l) + (if decide (x = p) then 1 else 0) = cnt x l)%nat.
Proof.
  induction l as [|q l IH]; [set_solver|]. intros Hp. cbn. destruct (decide (q = p)) as [->|Hne].
  - unfold cnt. destruct (decide (x = p)); lia.
  - specialize (IH ltac:(set_solver)). unfold cnt in *. cbn. lia.
Qed.

Lemma cnt_snoc x l y : cnt x (l ++ [y]) = (cnt x l + if decide (x = y) then 1 else 0)%nat.
Proof. rewrite cnt_app. unfold cnt at 2. cbn. lia. Qed.
#[local] Arguments cnt : simpl never.

Definition same (c d : nat) : nat := if decide (c = d) then 1 else 0.

(** The party that won the right to wake context [c]. *)
Definition win (c : nat) (i : instr) : nat :=
  match i with IRspTimer d | IRspTimed d | ISchedule d => same c d | _ => 0 end.
(** Those that will try to wake it. *)
Definition tries (c : nat) (i : instr) : nat :=
  match i with
  | IAddTimer d | ITimed d | IDoRsp d | ICas d true => same c d | _ => 0 end.
Definition tries_timer (c : nat) (t : option timer_cb) : nat :=
  match t with Some (OnTimeOut d) => same c d | _ => 0 end.
(** Suspensions, and those that wait for context [c]. *)
Definition holds (i : instr) : nat := match i with IHold _ => 1 | _ => 0 end.
Definition holds_for (c : nat) (i : instr) : nat := match i with IHold (ForResponse d) => same c d | _ => 0 end.
(** Suspensions whose wake-up has not been given yet. *)
Definition owed (s : Stream) (i : instr) : nat :=
  match i with IHold (ForResponse c) => if decide (c ∈ wakes s) then 0 else 1 | _ => 0 end.
Definition tokens (s : Stream) (p : nat) : nat :=
  cnt p (ready s) + cnt p (m_waiters (m_sem s)) + cnt p (m_waiters (m_waitSem s)).

Lemma total_fail_win c cs : total (win c) (IFail <$> cs) = 0%nat.
Proof. induction cs; cbn; lia. Qed.
Lemma total_fail_holds cs : total holds (IFail <$> cs) = 0%nat.
Proof. induction cs; cbn; lia. Qed.

Lemma lookup_alter_ctx (f : Ctx → Ctx) (c d : nat) (l : list Ctx) :
  alter f c l !! d = (if decide (d = c) then f <$> l !! d else l !! d).
Proof. case_decide as E; [subst; apply list_lookup_alter_eq|by apply list_lookup_alter_ne]. Qed.

(** ** What an instruction changes *)
Ltac exec_case H :=
  unfold exec, go, addTimer in H;
  repeat (first [ progress simplify_eq/= | case_match | match type of H with context [ctxs ?s !! ?c] => destruct (ctxs s !! c) eqn:? end]).

Lemma notify_sem_ctxs s : ctxs (notify_sem s) = ctxs s ∧ wakes (notify_sem s) = wakes s ∧ timers (notify_sem s) = timers s ∧
  m_ctxs (notify_sem s) = m_ctxs s ∧ m_timer (notify_sem s) = m_timer s ∧ m_queue (notify_sem s) = m_queue s.
Proof. unfold notify_sem, notify. by destruct (m_waiters (m_sem s)). Qed.
Lemma notify_waitSem_ctxs s : ctxs (notify_waitSem s) = ctxs s ∧ wakes (notify_waitSem s) = wakes s ∧
  timers (notify_waitSem s) = timers s ∧ m_ctxs (notify_waitSem s) = m_ctxs s ∧ m_timer (notify_waitSem s) = m_timer s ∧
  m_queue (notify_waitSem s) = m_queue s.
Proof. unfold notify_waitSem, notify. by destruct (m_waiters (m_waitSem s)). Qed.

Definition armed (x : Ctx) : nat := Nat.b2n (scheduler x).
(** The shares of a context: armed, won by somebody, woken. *)
Ltac finish Hx :=
  left; rewrite lookup_alter_ctx in Hx; case_decide; subst;
  [ match goal with E : ctxs ?s !! ?c = Some ?x |- _ => rewrite E in Hx; injection Hx as <-; exists x end
  | match type of Hx with _ = Some ?x => exists x end ];
  (split; [done|]); rewrite ?cnt_app; unfold armed, same, cnt;
  repeat match goal with H : bool_decide _ = true |- _ => apply bool_decide_eq_true in H end; cbn;
  rewrite ?decide_True, ?decide_False by done; try match goal with H : scheduler _ = _ |- _ => rewrite H end; cbn; lia.
Lemma one_step p i a s next new s' : exec p i a s = Some (next, new, s') →
  (∀ c x, i = ISchedule c → ctxs s !! c = Some x → is_Some (fiber x)) →
  (∀ c x, ctxs s !! c = Some x → scheduler x = true → is_Some (fiber x)) →
  ∀ c x', ctxs s' !! c = Some x' →
  (∃ x, ctxs s !! c = Some x ∧
    (armed x' + total (win c) next + weigh (win c) new + cnt c (wakes s') = armed x + win c i + cnt c (wakes s))%nat) ∨
  (c = length (ctxs s) ∧ armed x' = 1%nat ∧
    (total (win c) next + weigh (win c) new + win c i = 0)%nat ∧ wakes s' = wakes s).
Proof.
  intros H Hs Hf c x' Hx'.
  assert (ctxs s' = ctxs s → wakes s' = wakes s → (total (win c) next + weigh (win c) new)%nat = win c i →
    ∃ x, ctxs s !! c = Some x ∧
    (armed x' + total (win c) next + weigh (win c) new + cnt c (wakes s') = armed x + win c i + cnt c (wakes s))%nat) as Heasy.
  { intros E1 E2 E3. exists x'. rewrite <- E1, E2. split; [done|lia]. }
  assert (∀ n : nat, cnt c (wakes s ++ [n]) = (cnt c (wakes s) + same c n)%nat) as Hw.
  { intros n. apply cnt_snoc. }
  pose proof (notify_sem_ctxs s) as (N1 & N2 & _). pose proof (notify_waitSem_ctxs s) as (N3 & N4 & _).
  destruct i; exec_case H; rewrite ?N1, ?N2, ?N3, ?N4 in *; try (left; apply Heasy; [done|done|]; rewrite ?total_fail_win; cbn; lia).
  all: try match goal with H : alter _ _ _ !! _ = Some ?y |- _ =>
    rewrite lookup_alter_ctx in H; case_decide; subst;
    [|left; exists y; split; [done|]; rewrite ?Hw; unfold same; rewrite ?decide_False by done; lia];
    destruct (ctxs s !! _) as [x|] eqn:?; [|done]; simplify_eq/=; left; exists x; split; [done|];
    rewrite ?Hw; unfold same, armed; cbn; rewrite ?decide_True by done end.
  all: try (repeat match goal with H : bool_decide _ = true |- _ => apply bool_decide_eq_true in H end; subst; cbn;
    try match goal with H : scheduler ?x = _ |- _ => rewrite H end; cbn; lia).
  - apply lookup_snoc_Some in Hx' as [[_ ?]|[-> <-]]; [left; exists x'; split; [done|lia]|by right].
  - apply andb_true_iff in H as [-> _]. rename H0 into Hc. finish Hx'.
  - assert (scd = false) as ->.
    { destruct scd; [|done]. apply bool_decide_eq_true in H0. cbn in H. apply bool_decide_eq_false in H.
      by destruct (H (Hf _ _ Heqo H0)). }
    rename H0 into Hc. finish Hx'.
  - finish Hx'.
  - finish Hx'.
  - finish Hx'.
  - exfalso. destruct (Hs _ _ eq_refl Heqo). congruence.
Qed.

(** What may happen to a context. *)
Record kept (i : instr) (c : nat) (s' : Stream) (x x' : Ctx) : Prop := {
  k_sn : sn x' = sn x;
  k_sched : scheduler x' = true → scheduler x = true;
  k_fiber : fiber x' = fiber x ∨ (c ∈ wakes s' ∧ i = ISchedule c);
  k_timer : timer x' = timer x ∨ timer x' = None ∨ ∃ t, i = ISetTimer c t ∧ timer x' = Some t;
  k_rsp : response x' = response x ∨ ∃ r, i = ISetResponse c r ∧ response x' = Some r;
  k_timed : timed x' = timed x ∨ (i = ITimed c ∧ timed x' = true);
  k_result : result x' = result x ∨ (i = IRspTimed c ∧ timed x = true ∧ result x' = TIMEOUT) ∨
    (i = IFail c ∧ result x' = IO_ERROR) ∨ ∃ r, i = ISetResult c r }.
Lemma kept_refl i c s x : kept i c s x x.
Proof. split; auto. Qed.

Lemma exec_ctx p i a s next new s' : exec p i a s = Some (next, new, s') →
  (ctxs s' = ctxs s ∧ ∀ req, i ≠ IRequest req ∨ connected s = false) ∨
  (∃ c x f, ctxs s !! c = Some x ∧ ctxs s' = alter f c (ctxs s) ∧ kept i c s' x (f x)) ∨
  (∃ req, i = IRequest req ∧ ctxs s' = ctxs s ++ [new_RockCtx req p] ∧
     next = [IAddCtx (length (ctxs s)); IAddTimer (length (ctxs s)); IEnqueue (SendReq (length (ctxs s)));
             IHold (ForResponse (length (ctxs s))); IResult (length (ctxs s))]).
Proof.
  pose proof (notify_sem_ctxs s) as (N1 & N2 & _). pose proof (notify_waitSem_ctxs s) as (N3 & N4 & _).
  assert (∀ (f : Ctx → Ctx) c, ctxs s !! c = None → alter f c (ctxs s) = ctxs s) as Hnone.
  { intros f c Hc. apply list_eq. intros j. rewrite lookup_alter_ctx. case_decide; [subst; by rewrite Hc|done]. }
  intros H. destruct i; exec_case H; try (left; split; [done|]; intros ?; (by left) || (by right)).
  { right. right. by exists req. }
  all: match goal with |- (alter ?g ?d _ = _ ∧ _) ∨ _ =>
    destruct (ctxs s !! d) as [y|] eqn:Ey;
      [simplify_eq/=; right; left; eexists d, _, g; split; [exact Ey || eassumption|]; split; [done|]; split; cbn;
        first [done | by left | right; done | right; right; left; done | right; (by left) | right; (by eexists) | right; right; (by eexists) |
               right; right; right; (by eexists) |
               right; split; [rewrite elem_of_app; right; by left|done] ]
      |first [done | left; rewrite Hnone by done; split; [done|]; intros ?; by left]] end.
Qed.

Lemma exec_ctx_old p i a s next new s' c x' : exec p i a s = Some (next, new, s') → ctxs s' !! c = Some x' →
  (∃ x, ctxs s !! c = Some x ∧ kept i c s' x x') ∨ (∃ req, i = IRequest req ∧ c = length (ctxs s) ∧ x' = new_RockCtx req p).
Proof.
  intros He Hx'. destruct (exec_ctx _ _ _ _ _ _ _ He) as [[E _]|[(d & x & f & Hx & E & Hk)|(req & -> & E & _)]]; rewrite E in Hx'.
  - left. exists x'. split; [done|apply kept_refl].
  - left. rewrite lookup_alter_ctx in Hx'. case_decide as Ed; [|exists x'; split; [done|apply kept_refl]].
    subst. rewrite Hx in Hx'. injection Hx' as <-. by exists x.
  - apply lookup_snoc_Some in Hx' as [[_ ?]|[-> <-]]; [left; exists x'; split; [done|apply kept_refl]|right; by exists req].
Qed.

Lemma exec_wakes p i a s next new s' : exec p i a s = Some (next, new, s') →
  wakes s' = wakes s ∨ ∃ c x, i = ISchedule c ∧ ctxs s !! c = Some x ∧ wakes s' = wakes s ++ [c].
Proof.
  pose proof (notify_sem_ctxs s) as (_ & N2 & _). pose proof (notify_waitSem_ctxs s) as (_ & N4 & _).
  intros H. destruct i; exec_case H; try (by left).
  right. by eexists _, _.
Qed.

(** A timer that is that callback's, or has fired or been cancelled. *)
Definition timer_for (s : Stream) (t : nat) (cb : timer_cb) : Prop :=
  timers s !! t = Some None ∨ timers s !! t = Some (Some cb).
Lemma exec_timers p i a s next new s' : exec p i a s = Some (next, new, s') →
  timers s' = timers s ∨
  (∃ t, timers s' = <[t := None]> (timers s) ∧ ((∃ c x, i = IRspTimer c ∧ ctxs s !! c = Some x ∧ timer x = Some t) ∨ m_timer s = Some t)) ∨
  (∃ cb, timers s' = timers s ++ [Some cb] ∧ ((∃ c, i = IAddTimer c ∧ cb = OnTimeOut c ∧ next = [ISetTimer c (length (timers s))]) ∨ cb = OnStart)) ∨
  (∃ t, timers s' = <[t := None]> (timers s) ++ [Some OnStart] ∧ m_timer s = Some t).
Proof.
  pose proof (notify_sem_ctxs s) as (_ & _ & N2 & _). pose proof (notify_waitSem_ctxs s) as (_ & _ & N4 & _).
  intros H. destruct i; exec_case H; try (by left).
  all: try (right; left; eexists; split; [done|]; first [by right | left; eauto 10]).
  all: try (right; right; left; eexists; split; [done|]; first [by right | left; eauto 10]).
  right; right; right. by eexists.
Qed.

Lemma exec_m_timer p i a s next new s' : exec p i a s = Some (next, new, s') →
  m_timer s' = m_timer s ∨ m_timer s' = None ∨ ∃ t, m_timer s' = Some t ∧ timers s' !! t = Some (Some OnStart).
Proof.
  pose proof (notify_sem_ctxs s) as (_ & _ & _ & _ & N & _). pose proof (notify_waitSem_ctxs s) as (_ & _ & _ & _ & N' & _).
  intros H. destruct i; exec_case H; try (by left); try (by right; left);
    right; right; eexists; split; try done; cbn.
  - by rewrite lookup_app_r, length_insert, Nat.sub_diag by (rewrite length_insert; lia).
  - by rewrite list_lookup_middle.
Qed.

Lemma timer_for_step p i a s next new s' t cb : exec p i a s = Some (next, new, s') →
  timer_for s t cb → timer_for s' t cb.
Proof.
  intros H Ht. assert (t < length (timers s))%nat as Hlt by (destruct Ht as [Ht|Ht]; by apply lookup_lt_Some in Ht).
  assert (∀ u l, timer_for s t cb → (<[u := None]> (timers s) ++ l) !! t = Some None ∨ (<[u := None]> (timers s) ++ l) !! t = Some (Some cb)) as Hins.
  { intros u l Hu. rewrite lookup_app_l by (by rewrite length_insert).
    destruct (decide (u = t)) as [->|]; [left; by apply list_lookup_insert_eq|by rewrite list_lookup_insert_ne]. }
  unfold timer_for. destruct (exec_timers _ _ _ _ _ _ _ H) as [->|[(u & -> & _)|[(cb' & -> & _)|(u & -> & _)]]]; [done| | |by apply Hins].
  - rewrite <- (app_nil_r (<[u := None]> (timers s))). by apply Hins.
  - by rewrite lookup_app_l.
Qed.

(** ** Instructions whose arguments make sense *)
Definition in_range (c : nat) (s : Stream) : Prop := is_Some (ctxs s !! c).
Definition matches (c : nat) (n : Z) (s : Stream) : Prop := ∃ x, ctxs s !! c = Some x ∧ sn x = n.
Definition instr_ok (s : Stream) (i : instr) : Prop :=
  match i with
  | IAddCtx c | IAddTimer c | IHold (ForResponse c) | IResult c | IDoRsp c | ICas c _ | IRspTimer c | IRspTimed c
  | ISchedule c | IErase c | ITimed c | IFail c | IEnqueue (SendReq c) => in_range c s
  | ISetTimer c t => in_range c s ∧ timer_for s t (OnTimeOut c)
  | ISetResult c r | ISetResponse c r => matches c (res_sn r) s
  | _ => True
  end.

Lemma matches_step p i a s next new s' c n : exec p i a s = Some (next, new, s') → matches c n s → matches c n s'.
Proof.
  intros H (x & Hx & Hn). unfold matches.
  destruct (exec_ctx _ _ _ _ _ _ _ H) as [[-> _]|[(d & y & f & Hy & -> & Hk)|(req & _ & -> & _)]]; [by exists x| |].
  - rewrite lookup_alter_ctx. case_decide as E; [|by exists x]. subst. exists (f y). rewrite Hy. split; [done|].
    rewrite (k_sn _ _ _ _ _ Hk). congruence.
  - exists x. split; [by apply lookup_app_l_Some|done].
Qed.
Lemma in_range_matches c s : in_range c s ↔ ∃ n, matches c n s.
Proof. unfold in_range, matches. split; [intros [x Hx]; by exists (sn x), x|intros (n & x & Hx & _); by exists x]. Qed.
Lemma in_range_step p i a s next new s' c : exec p i a s = Some (next, new, s') → in_range c s → in_range c s'.
Proof. intros H. rewrite !in_range_matches. intros [n Hn]. exists n. by eapply matches_step. Qed.
Lemma instr_ok_step p i a s next new s' j : exec p i a s = Some (next, new, s') → instr_ok s j → instr_ok s' j.
Proof.
  intros H. destruct j as [| | | |[]| |[]| | | | | | | | | | | | | | | | | | | | | | | | | | | | | | | | | | | | | | |]; cbn; try done;
    try (by eapply in_range_step); try (by eapply matches_step).
  intros [? ?]. split; [by eapply in_range_step|by eapply timer_for_step].
Qed.

(** ** The invariant *)
(** Instructions that only suspend the fiber they are in never, and those that
    stand only before anything that may. *)
Definition holding (i : instr) : bool := match i with IHold _ => true | _ => false end.
Definition calm (i : instr) : bool :=
  match i with IHold _ | IRequest _ | IWait | ITake | IStart | IWriteLoop | ISendAll _ | ISwapQueue
  | IReadLoop | IRecv => false | _ => true end.
Definition work (i : instr) : bool :=
  match i with
  | IAddCtx _ | IAddTimer _ | ISetTimer _ _ | INotify | IDoRsp _ | ICas _ _ | IRspTimer _ | IRspTimed _ | ISchedule _
  | IErase _ | ITimed _ | ISetResult _ _ | ISetResponse _ _ | IFail _ | IClearQueue => true
  | _ => false
  end.
(** Instructions of kind [Q] come only behind instructions of kind [P]. *)
Fixpoint behind (P Q : instr → bool) (l : list instr) : Prop :=
  match l with
  | [] => True
  | i :: l => if P i then behind P Q l else Forall (λ j, Q j = false) l
  end.

Record inv (W : world) : Prop := {
  i_ok : Forall (Forall (instr_ok (st W))) (procs W);
  i_map n c : m_ctxs (st W) !! n = Some c → matches c n (st W);
  i_wakes c : c ∈ wakes (st W) → in_range c (st W);
  i_ctx c x : ctxs (st W) !! c = Some x →
    (∀ t, timer x = Some t → timer_for (st W) t (OnTimeOut c)) ∧ (∀ r, response x = Some r → res_sn r = sn x);
  i_timers t c : timers (st W) !! t = Some (Some (OnTimeOut c)) → in_range c (st W);
  i_m_timer t : m_timer (st W) = Some t → timer_for (st W) t OnStart;
  i_one c x : ctxs (st W) !! c = Some x → (armed x + weigh (win c) (procs W) + cnt c (wakes (st W)) = 1)%nat;
  i_hold c : (weigh (holds_for c) (procs W) ≤ 1)%nat;
  i_fiber c x : ctxs (st W) !! c = Some x → c ∉ wakes (st W) →
    ∃ p l, fiber x = Some p ∧ procs W !! p = Some l ∧ (0 < total (holds_for c) l)%nat;
  i_tries c x : ctxs (st W) !! c = Some x → scheduler x = true →
    (0 < weigh (tries c) (procs W) + total (tries_timer c) (timers (st W)))%nat;
  i_tokens p : (tokens (st W) p + total (owed (st W)) (default [] (procs W !! p)) = total holds (default [] (procs W !! p)))%nat;
  i_calm : Forall (behind calm holding) (procs W);
  i_work : Forall (behind work work) (procs W) }.

(** ** Shapes *)
Lemma behind_clean (P Q : instr → bool) l : Forall (λ j, Q j = false) l → behind P Q l.
Proof.
  induction l as [|i l IH]; [done|]. intros [Hi Hl]%Forall_cons. cbn. destruct (P i); [by apply IH|done].
Qed.
Lemma behind_push (P Q : instr → bool) (i : instr) next k :
  behind P Q (i :: k) → (P i = true → Forall (λ j, P j = true) next) → behind P Q next → behind P Q (next ++ k).
Proof.
  cbn. intros Hk Hp Hn. destruct (P i).
  - specialize (Hp eq_refl). clear Hn. induction Hp as [|j next Hj _ IH]; [done|]. cbn. by rewrite Hj.
  - clear Hp. induction next as [|j next IH]; cbn in *; [by apply behind_clean|].
    destruct (P j); [by apply IH|]. by apply Forall_app.
Qed.
Lemma shape_step P Q ps p i k next new :
  ps !! p = Some (i :: k) → Forall (behind P Q) ps →
  (P i = true → Forall (λ j, P j = true) next) → behind P Q next → Forall (behind P Q) new →
  Forall (behind P Q) (<[p := next ++ k]> ps ++ new).
Proof.
  intros Hp Hps H1 H2 H3. apply Forall_app. split; [|done]. apply Forall_insert; [done|].
  eapply behind_push; [|done..]. by eapply Forall_lookup_1 in Hp.
Qed.

Lemma Forall_fails (P : instr → Prop) cs : (∀ c, P (IFail c)) → Forall P (IFail <$> cs).
Proof. intros H. induction cs; cbn; by constructor. Qed.
Lemma behind_fails P Q cs : (∀ c, P (IFail c) = true) → behind P Q (IFail <$> cs).
Proof. intros H. induction cs; cbn; [done|]. by rewrite H. Qed.

Lemma exec_shape p i a s next new s' : exec p i a s = Some (next, new, s') →
  (calm i = true → Forall (λ j, calm j = true) next) ∧ behind calm holding next ∧ Forall (behind calm holding) new ∧
  (work i = true → Forall (λ j, work j = true) next) ∧ behind work work next ∧ Forall (behind work work) new.
Proof.
  intros H. destruct i; exec_case H; cbn; split_and!; try done; try (intros _; repeat constructor; done); try (repeat constructor; done).
  - intros _. constructor; [done|]. by apply Forall_fails.
  - by apply behind_fails.
  - by apply behind_fails.
Qed.

(** ** Arguments stay sensible *)
Lemma exec_ok p i a s next new s' : exec p i a s = Some (next, new, s') → instr_ok s i →
  (∀ n c, m_ctxs s !! n = Some c → matches c n s) →
  Forall (instr_ok s') next ∧ Forall (Forall (instr_ok s')) new.
Proof.
  intros H Hi Hm. assert (∀ c, in_range c s → in_range c s') as Hr by (intros; by eapply in_range_step).
  assert (∀ n c, m_ctxs s !! n = Some c → in_range c s) as Hm'.
  { intros n c Hc. apply in_range_matches. exists n. by apply Hm. }
  assert (∀ c n, matches c n s → matches c n s') as Hma by (intros; by eapply matches_step).
  destruct i; exec_case H; rewrite ?Forall_cons, ?Forall_nil; split_and!; try done; try (by apply Hr);
    try (by repeat constructor);
    try (cbn; unfold in_range; cbn; by rewrite list_lookup_middle); try (apply Hr; by eapply Hm'); try (by apply Hma, Hm).
  - split; [by apply Hr|]. right. cbn. by rewrite list_lookup_middle.
  - by apply Hma.
  - apply Hr, in_range_matches. by eexists.
  - apply Forall_fmap, Forall_forall. intros c Hc.
    apply list_elem_of_fmap in Hc as ([n d] & -> & Hd%elem_of_map_to_list). apply Hr. by eapply Hm'.
Qed.

Lemma exec_map p i a s next new s' n c : exec p i a s = Some (next, new, s') →
  (∀ d, i = IAddCtx d → in_range d s) → (∀ n c, m_ctxs s !! n = Some c → matches c n s) →
  m_ctxs s' !! n = Some c → matches c n s'.
Proof.
  intros H Hi Hm Hc. eapply matches_step; [done|]. revert Hc.
  pose proof (notify_sem_ctxs s) as (_ & _ & _ & N & _). pose proof (notify_waitSem_ctxs s) as (_ & _ & _ & N' & _).
  destruct i; exec_case H; rewrite ?N, ?N'; try (by apply Hm); try (intros [_ ?]%lookup_delete_Some; by apply Hm).
  - intros [[<- <-]|[_ ?]]%lookup_insert_Some; [by eexists|by apply Hm].
  - by rewrite lookup_empty.
Qed.

(** ** Suspended fibers and their wake-ups *)
Lemma tokens_notify_sem s q : tokens (notify_sem s) q = tokens s q.
Proof.
  unfold notify_sem, notify, tokens. destruct (m_waiters (m_sem s)) as [|f fs]; cbn; rewrite cnt_app; unfold cnt; cbn; lia.
Qed.
Lemma tokens_notify_waitSem s q : tokens (notify_waitSem s) q = tokens s q.
Proof.
  unfold notify_waitSem, notify, tokens. destruct (m_waiters (m_waitSem s)) as [|f fs]; cbn; rewrite cnt_app; unfold cnt; cbn; lia.
Qed.

Lemma exec_tokens p i a s next new s' : exec p i a s = Some (next, new, s') →
  (∀ c, c ∈ wakes s → in_range c s) → (∀ c, i ≠ ISchedule c) → ∀ q,
  (tokens s' q + (if decide (q = p) then total (owed s) next + holds i else 0) =
   tokens s q + (if decide (q = p) then total holds next else 0))%nat.
Proof.
  intros H Hr Hi q. pose proof (tokens_notify_sem s q) as N1. pose proof (tokens_notify_waitSem s q) as N2.
  assert (∀ r, p ∈ r → cnt q (remove_one p r) + (if decide (q = p) then 1 else 0) = cnt q r)%nat as Hrm
    by (intros; by apply cnt_remove_one).
  destruct i; exec_case H; rewrite ?N1, ?N2; unfold wait in *; repeat case_match; simplify_eq/=;
    try (unfold tokens; cbn [ready m_sem m_waitSem m_waiters set_map set_ctxs set_queue set_timers set_ready set_sem
      set_waitSem set_m_timer add_wake add_sent add_answer cancel_timer on_ctx set_connected no_autoConnect];
      rewrite ?cnt_snoc; repeat case_decide; cbn; lia).
  - exfalso. destruct (Hr (length (ctxs s))) as [x Hx]; [done|]. apply lookup_lt_Some in Hx. lia.
  - specialize (Hrm (ready s)). unfold tokens. cbn. lia || (specialize (Hrm ltac:(done)); lia).
  - specialize (Hrm (ready s)). unfold tokens. cbn. lia || (specialize (Hrm ltac:(done)); lia).
  - by destruct (Hi c).
  - by destruct (Hi c).
  - rewrite total_fail_holds, total_zero; [done|]. by apply Forall_fails.
Qed.

(** No program that is handed over starts suspended, and nothing but the
    suspension of a new request is owed. *)
Lemma exec_new_holds p i a s next new s' : exec p i a s = Some (next, new, s') →
  Forall (λ l, total holds l = 0%nat) new ∧
  (∀ c, (total (holds_for c) next ≤ (if i is IRequest _ then same c (length (ctxs s)) else 0))%nat) ∧
  (∀ req, i = IRequest req → ctxs s' = ctxs s → next = []).
Proof.
  intros H. destruct i; exec_case H; (split; [by repeat constructor|]); split; try (intros; lia); try done.
  - intros _ _ Hc. apply (f_equal length) in Hc. rewrite length_app in Hc. cbn in Hc. lia.
  - intros c. rewrite total_zero; [done|]. by apply Forall_fails.
Qed.
Lemma holds_for_le c l : (total (holds_for c) l ≤ total holds l)%nat.
Proof.
  induction l as [|i l IH]; [done|]. assert (holds_for c i ≤ holds i)%nat; [|cbn; lia].
  destruct i; cbn; repeat case_match; unfold same; repeat case_decide; lia.
Qed.
Lemma owed_le s l : (total (owed s) l ≤ total holds l)%nat.
Proof.
  induction l as [|i l IH]; [done|]. assert (owed s i ≤ holds i)%nat; [|cbn; lia].
  destruct i; cbn; repeat case_match; unfold same; repeat case_decide; lia.
Qed.

(** ** Those that will wake a context *)
Lemma cancel_other c cb s t : timer_for s t cb → tries_timer c (Some cb) = 0%nat →
  total (tries_timer c) (<[t := None]> (timers s)) = total (tries_timer c) (timers s).
Proof.
  intros [Ht|Ht] Hc; pose proof (total_insert (tries_timer c) _ _ _ None Ht) as H; cbn in *; lia.
Qed.
Lemma exec_tries p i a s next new s' c x' : exec p i a s = Some (next, new, s') →
  (∀ t c x, i = IRspTimer c → ctxs s !! c = Some x → timer x = Some t → timer_for s t (OnTimeOut c)) →
  (∀ t, m_timer s = Some t → timer_for s t OnStart) →
  (∀ c x, i = IRspTimer c → ctxs s !! c = Some x → scheduler x = false) →
  ctxs s' !! c = Some x' → scheduler x' = true →
  (tries c i + total (tries_timer c) (timers s) ≤
   total (tries c) next + weigh (tries c) new + total (tries_timer c) (timers s'))%nat.
Proof.
  intros H Ht Hmt Hrt Hx' Hs'.
  pose proof (notify_sem_ctxs s) as (_ & _ & N1 & _). pose proof (notify_waitSem_ctxs s) as (_ & _ & N2 & _).
  destruct i; exec_case H; rewrite ?N1, ?N2; try lia.
  all: try (rewrite total_app; cbn; lia).
  all: try (unfold same; destruct (decide (_ = _)) as [->|]; [exfalso|lia];
    repeat match goal with H : bool_decide _ = _ |- _ => apply bool_decide_eq_true in H || apply bool_decide_eq_false in H end;
    try rewrite list_lookup_alter_eq in Hx'; match goal with E : ctxs _ !! _ = _ |- _ => rewrite E in Hx' end; simplify_eq/=; congruence).
  all: try (rewrite (cancel_other _ OnStart s) by auto; lia).
  - unfold same. destruct (decide (c = c0)) as [->|]; [congruence|lia].
  - unfold same. destruct (decide (c = c0)) as [->|]; [|lia]. apply bool_decide_eq_false in H0. congruence.
  - destruct (decide (c = c0)) as [->|Hne].
    + rewrite list_lookup_alter_eq, Heqo in Hx'. injection Hx' as <-. cbn in Hs'. by rewrite (Hrt c0 c1 eq_refl Heqo) in Hs'.
    + rewrite (cancel_other _ (OnTimeOut c0) s); [lia|by eapply Ht|]. cbn. unfold same. by rewrite decide_False.
  - pose proof (cancel_other c OnStart s n ltac:(auto) eq_refl). rewrite total_app. lia.
Qed.
