(* ===== verification/AsyncStreamThms.v ===== *)
(** * Requests over a shared connection: what holds in every interleaving *)
From S2P Require Import Prelude Rock Semaphore AsyncStream AsyncStreamSpec.
#[local] Arguments cnt : simpl never.
#[local] Arguments weigh : simpl never.

Section go.
#[local] Set Default Proof Using "All".
Context (s : Stream) (ps : list (list instr)) (p : nat) (i : instr) (k : list instr) (a : answer).
Context (next : list instr) (new : list (list instr)) (s' : Stream).
Context (Hinv : inv (mkWorld s ps)) (Hp : ps !! p = Some (i :: k)) (He : exec p i a s = Some (next, new, s')).
Abbreviation ps' := (<[p := next ++ k]> ps ++ new).

Lemma go_instr : instr_ok s i ∧ Forall (instr_ok s) k.
Proof. pose proof (Forall_lookup_1 _ _ _ _ (i_ok _ Hinv) Hp) as H. by apply Forall_cons in H. Qed.

Lemma go_ok : Forall (Forall (instr_ok s')) ps'.
Proof.
  destruct go_instr as [Hi Hk]. destruct (exec_ok _ _ _ _ _ _ _ He Hi (i_map _ Hinv)) as [Hn Hw].
  assert (∀ l, Forall (instr_ok s) l → Forall (instr_ok s') l) as Hmono.
  { intros l Hl. eapply Forall_impl; [done|]. intros j. by eapply instr_ok_step. }
  apply Forall_app. split; [|done]. apply Forall_insert; [|apply Forall_app; split; [done|by apply Hmono]].
  eapply Forall_impl; [apply (i_ok _ Hinv)|apply Hmono].
Qed.

(** Contexts keep what the invariant says of them. *)
Lemma go_ctx c x' : ctxs s' !! c = Some x' →
  (∀ t, timer x' = Some t → timer_for s' t (OnTimeOut c)) ∧ (∀ r, response x' = Some r → res_sn r = sn x').
Proof.
  assert (∀ x, ctxs s !! c = Some x →
    (∀ t, timer x = Some t → timer_for s' t (OnTimeOut c)) ∧ (∀ r, response x = Some r → res_sn r = sn x)) as Hold.
  { intros x Hx. destruct (i_ctx _ Hinv c x Hx) as [H1 H2]. split; [|done]. intros t Ht. eapply timer_for_step; [done|by apply H1]. }
  destruct (exec_ctx _ _ _ _ _ _ _ He) as [[-> _]|[(d & x & f & Hx & -> & Hk)|(req & -> & -> & _)]]; [apply Hold| |].
  - rewrite lookup_alter_ctx. case_decide as E; [subst|apply Hold].  rewrite Hx. intros [= <-].
    destruct (Hold x Hx) as [H1 H2]. destruct go_instr as [Hi _]. split.
    + intros t Ht. destruct (k_timer _ _ _ _ _ Hk) as [E|[E|(u & -> & E)]]; [apply H1; congruence|congruence|].
      assert (u = t) as -> by congruence. eapply timer_for_step; [done|apply Hi].
    + intros r Hr. rewrite (k_sn _ _ _ _ _ Hk).
      destruct (k_rsp _ _ _ _ _ Hk) as [E|(u & -> & E)]; [apply H2; congruence|].
      assert (u = r) as -> by congruence. destruct Hi as (y & Hy & <-).  congruence.
  - intros [[_ ?]|[-> <-]]%lookup_snoc_Some; [by apply Hold|done].
Qed.

Lemma go_timers t c : timers s' !! t = Some (Some (OnTimeOut c)) → in_range c s'.
Proof.
  assert (∀ u, timers s !! u = Some (Some (OnTimeOut c)) → in_range c s') as Hold.
  { intros u Hu. eapply in_range_step; [done|by eapply (i_timers _ Hinv)]. }
  assert (∀ u, <[u := None]> (timers s) !! t = Some (Some (OnTimeOut c)) → in_range c s') as Hins.
  { intros u Hu. destruct (decide (u = t)) as [->|]; [|rewrite list_lookup_insert_ne in Hu by done; by eapply Hold].
    apply list_lookup_insert_Some in Hu as [(_ & ? & _)|[? _]]; done. }
  pose proof go_instr as [Hi _].
  destruct (exec_timers _ _ _ _ _ _ _ He) as [->|[(u & -> & _)|[(cb & -> & Hcb)|(u & -> & _)]]]; [apply Hold|apply Hins| |].
  - intros [[_ ?]|[_ E]]%lookup_snoc_Some; [by eapply Hold|]. destruct Hcb as [(d & -> & -> & _)| ->]; [|done].
    injection E as ->. eapply in_range_step; [done|apply Hi].
  - intros [[_ ?]|[_ E]]%lookup_snoc_Some; [by eapply Hins|done].
Qed.

Lemma go_m_timer t : m_timer s' = Some t → timer_for s' t OnStart.
Proof.
  destruct (exec_m_timer _ _ _ _ _ _ _ He) as [->|[->|(u & -> & Hu)]]; [|done|].
  - intros Ht. eapply timer_for_step; [done|by apply (i_m_timer _ Hinv)].
  - intros [= <-]. by right.
Qed.

(** The shares. *)
Lemma weigh_range (f : nat → instr → nat) c : (∀ j, 0 < f c j → instr_ok s j → in_range c s)%nat →
  ctxs s !! c = None → weigh (f c) ps = 0%nat.
Proof.
  intros Hf Hc. destruct (decide ((weigh (f c) ps) = 0%nat)) as [|Hne]; [done|exfalso].
  destruct (total_pos (total (f c)) ps) as (q & l & Hq & Hl); [unfold weigh in Hne; lia|].
  destruct (total_pos _ _ Hl) as (n & j & Hj & Hpos).
  pose proof (Forall_lookup_1 _ _ _ _ (i_ok _ Hinv) Hq) as Hok. pose proof (Forall_lookup_1 _ _ _ _ Hok Hj) as Hjo.
  destruct (Hf j Hpos Hjo) as [x Hx]. cbn in Hx. congruence.
Qed.
Lemma win_range c j : (0 < win c j)%nat → instr_ok s j → in_range c s.
Proof. destruct j; cbn; try lia; unfold same; case_decide; try lia; by subst. Qed.
Lemma holds_range c j : (0 < holds_for c j)%nat → instr_ok s j → in_range c s.
Proof. destruct j; cbn; try lia; case_match; try lia; unfold same; case_decide; try lia; by subst. Qed.

Lemma win_share c x : (0 < win c i)%nat → ctxs s !! c = Some x → (c ∉ wakes s) ∧ scheduler x = false.
Proof.
  intros Hwin Hx. pose proof (i_one _ Hinv c x Hx) as H. cbn in H.
  pose proof (total_lookup (total (win c)) ps p _ Hp) as Hw. cbn in Hw.
  unfold weigh in H. rewrite <- cnt_zero. split; [lia|]. unfold armed in H. destruct (scheduler x); cbn in H; [lia|done].
Qed.
Lemma fiber_some c x : ctxs s !! c = Some x → c ∉ wakes s → is_Some (fiber x).
Proof. intros Hx Hc. destruct (i_fiber _ Hinv c x Hx Hc) as (q & _ & -> & _). done. Qed.
Lemma armed_not_woken c x : ctxs s !! c = Some x → scheduler x = true → c ∉ wakes s.
Proof. intros Hx Hs. pose proof (i_one _ Hinv c x Hx) as H. cbn in H. unfold armed in H. rewrite Hs in H. apply cnt_zero. cbn in H. lia. Qed.

Lemma go_one c x' : ctxs s' !! c = Some x' → (armed x' + weigh (win c) ps' + cnt c (wakes s') = 1)%nat.
Proof.
  intros Hx'. pose proof (weigh_step (win c) ps p i k next new Hp) as Hw. pose proof win_share as Hwin.
  destruct (one_step _ _ _ _ _ _ _ He) with (c := c) (x' := x') as [(x & Hx & E)|(-> & E1 & E2 & E3)]; try done.
  - intros d x Hd Hx. eapply fiber_some; [done|]. eapply (Hwin d x); [|done]. rewrite Hd. cbn. unfold same. rewrite decide_True; [lia|done].
  - intros d x Hx Hs. by eapply fiber_some, armed_not_woken.
  - pose proof (i_one _ Hinv c x Hx) as H. cbn in H. lia.
  - assert (ctxs s !! length (ctxs s) = None) as Hnone by (by apply lookup_ge_None).
    pose proof (weigh_range win _ (win_range _) Hnone) as H0. rewrite E1, E3.
    assert (cnt (length (ctxs s)) (wakes s) = 0%nat) as ->; [|lia].
    apply cnt_zero. intros Hin. destruct (i_wakes _ Hinv _ Hin) as [x Hx]. cbn in Hx. congruence.
Qed.

Lemma new_holds c : weigh (holds_for c) new = 0%nat.
Proof.
  destruct (exec_new_holds _ _ _ _ _ _ _ He) as (Hn & _). apply total_zero. eapply Forall_impl; [done|].
  cbn. intros l Hl. pose proof (holds_for_le c l). lia.
Qed.
Lemma rest_holds : calm i = false → total holds k = 0%nat.
Proof.
  intros Hc. pose proof (Forall_lookup_1 _ _ _ _ (i_calm _ Hinv) Hp) as H. cbn in H. rewrite Hc in H.
  apply total_zero. eapply Forall_impl; [done|]. by intros [].
Qed.
(** A fiber goes on from its suspension only when it has been woken for it. *)
Lemma hold_woken c : i = IHold (ForResponse c) → c ∈ wakes s.
Proof.
  intros E. pose proof (i_tokens _ Hinv p) as H. cbn in H. rewrite Hp in H. cbn in H.
  pose proof rest_holds as Hk. clear - E H He Hk. subst. cbn in *. rewrite Hk in H by done.
  destruct (decide (p ∈ ready s)) as [Hr%cnt_pos|]; [|done]. destruct (decide (c ∈ wakes s)); [done|].
  unfold tokens in H. cbn in H. lia.
Qed.
Lemma wakes_grow c : c ∈ wakes s → c ∈ wakes s'.
Proof. destruct (exec_wakes _ _ _ _ _ _ _ He) as [->|(d & _ & _ & _ & ->)]; [done|]. rewrite elem_of_app. auto. Qed.
Lemma after_p : ps' !! p = Some (next ++ k).
Proof.
  assert (p < length ps)%nat by by apply lookup_lt_Some in Hp.
  rewrite lookup_app_l, list_lookup_insert_eq; [done..|by rewrite length_insert].
Qed.
Lemma after_other q l : q ≠ p → ps !! q = Some l → ps' !! q = Some l.
Proof.
  intros Hne Hq. assert (q < length ps)%nat by by apply lookup_lt_Some in Hq.
  rewrite lookup_app_l, list_lookup_insert_ne; [done..|by rewrite length_insert].
Qed.

Lemma go_hold c : (weigh (holds_for c) ps' ≤ 1)%nat.
Proof.
  pose proof (weigh_step (holds_for c) ps p i k next new Hp) as Hw. rewrite new_holds in Hw.
  destruct (exec_new_holds _ _ _ _ _ _ _ He) as (_ & Hn & _). specialize (Hn c).
  pose proof (i_hold _ Hinv c) as H. cbn in H. unfold same in Hn.
  assert (c = length (ctxs s) → weigh (holds_for c) ps = 0%nat) as H0.
  { intros ->. apply weigh_range; [apply holds_range|by apply lookup_ge_None]. }
  repeat case_match; try lia.
Qed.

Lemma go_fiber c x' : ctxs s' !! c = Some x' → c ∉ wakes s' →
  ∃ q l, fiber x' = Some q ∧ ps' !! q = Some l ∧ (0 < total (holds_for c) l)%nat.
Proof.
  intros Hx' Hc. assert (c ∉ wakes s) as Hc0 by (intros ?; by apply Hc, wakes_grow).
  assert (∀ x, ctxs s !! c = Some x → ∃ q l, fiber x = Some q ∧ ps' !! q = Some l ∧ (0 < total (holds_for c) l)%nat) as Hold.
  { intros x Hx. destruct (i_fiber _ Hinv c x Hx Hc0) as (q & l & Hf & Hq & Hl). cbn in Hq.
    destruct (decide (q = p)) as [->|Hne]; [|exists q, l; split_and!; [done|by apply after_other|done]].
    assert (l = i :: k) as -> by congruence. exists p, (next ++ k). split_and!; [done|apply after_p|].
    rewrite total_app. cbn in Hl. destruct (decide (holds_for c i = 0)%nat); [lia|exfalso].
    apply Hc0, hold_woken. destruct i; cbn in *; try lia. case_match; try lia. unfold same in *. case_decide; [by subst|lia]. }
  pose proof after_p as Hafter.
  destruct (exec_ctx _ _ _ _ _ _ _ He) as [[E _]|[(d & x & f & Hx & E & Hk)|(req & -> & E & ->)]]; rewrite E in Hx'.
  - by apply Hold.
  - rewrite lookup_alter_ctx in Hx'. case_decide as Ed; [subst|by apply Hold]. rewrite Hx in Hx'. injection Hx' as <-.
    destruct (k_fiber _ _ _ _ _ Hk) as [->|[? _]]; [by apply Hold|done].
  - apply lookup_snoc_Some in Hx' as [[_ ?]|[-> <-]]; [by apply Hold|]. eexists p, _. split_and!; [done|exact Hafter|].
    cbn. unfold same. rewrite decide_True by done. lia.
Qed.

Lemma go_tries c x' : ctxs s' !! c = Some x' → scheduler x' = true →
  (0 < weigh (tries c) ps' + total (tries_timer c) (timers s'))%nat.
Proof.
  intros Hx' Hs'. pose proof (weigh_step (tries c) ps p i k next new Hp) as Hw. pose proof win_share as Hwin.
  pose proof (exec_tries _ _ _ _ _ _ _ c x' He) as H.
  assert (tries c i + total (tries_timer c) (timers s) ≤
    total (tries c) next + weigh (tries c) new + total (tries_timer c) (timers s'))%nat as Hle.
  { apply H; [|apply (i_m_timer _ Hinv)| |done|done].
    - intros t d x _ Hx. by apply (i_ctx _ Hinv d x Hx).
    - intros d x Hd Hx. eapply (Hwin d x); [|done]. rewrite Hd. cbn. unfold same. rewrite decide_True; [lia|done]. }
  assert (∀ x, ctxs s !! c = Some x → scheduler x = true → (0 < weigh (tries c) ps + total (tries_timer c) (timers s))%nat) as Hold.
  { apply (i_tries _ Hinv). }
  destruct (exec_ctx _ _ _ _ _ _ _ He) as [[E _]|[(d & x & f & Hx & E & Hk)|(req & -> & E & ->)]]; rewrite E in Hx'.
  - specialize (Hold _ Hx' Hs'). lia.
  - rewrite lookup_alter_ctx in Hx'. case_decide as Ed; [subst|specialize (Hold _ Hx' Hs'); lia].
    rewrite Hx in Hx'. injection Hx' as <-. specialize (Hold _ Hx (k_sched _ _ _ _ _ Hk Hs')). lia.
  - apply lookup_snoc_Some in Hx' as [[_ Hx]|[-> <-]]; [specialize (Hold _ Hx Hs'); lia|].
    change (tries (length (ctxs s)) (IRequest req)) with 0%nat in Hw.
    assert (0 < total (tries (length (ctxs s))) [IAddCtx (length (ctxs s)); IAddTimer (length (ctxs s));
      IEnqueue (SendReq (length (ctxs s))); IHold (ForResponse (length (ctxs s))); IResult (length (ctxs s))])%nat.
    { cbn. unfold same. rewrite decide_True; [lia|done]. }
    lia.
Qed.

(** Wake-ups: those given and those owed are what the fiber is suspended for. *)
Lemma owed_same j : wakes s' = wakes s → owed s' j = owed s j.
Proof. unfold owed. by intros ->. Qed.
Lemma total_owed_same l : wakes s' = wakes s → total (owed s') l = total (owed s) l.
Proof. intros E. apply total_ext, Forall_true. intros j. by apply owed_same. Qed.
Lemma no_tokens q : ps !! q = None → tokens s q = 0%nat.
Proof. intros Hq. pose proof (i_tokens _ Hinv q) as H. cbn in H. rewrite Hq in H. cbn in H. lia. Qed.
Lemma after_none q : ps' !! q = None → ps !! q = None.
Proof. rewrite !lookup_ge_None, length_app, length_insert. lia. Qed.

Lemma go_tokens_other q : wakes s' = wakes s → (∀ c, i ≠ ISchedule c) → q ≠ p →
  (tokens s' q + total (owed s') (default [] (ps' !! q)) = total holds (default [] (ps' !! q)))%nat.
Proof.
  intros Hw Hi Hq. pose proof (exec_tokens _ _ _ _ _ _ _ He (i_wakes _ Hinv) Hi q) as H.
  rewrite !decide_False in H by done. pose proof (i_tokens _ Hinv q) as Ht. cbn in Ht.
  destruct (exec_new_holds _ _ _ _ _ _ _ He) as (Hn & _).
  destruct (ps' !! q) as [l|] eqn:El; cbn [default from_option id].
  - destruct (weigh_other _ _ _ _ _ _ _ _ Hp El) as [[? _]|[[_ Eq]|[Hlen Hin]]]; [done| |].
    + rewrite Eq in Ht. cbn in Ht. rewrite total_owed_same by done. lia.
    + rewrite Forall_forall in Hn. specialize (Hn l Hin). pose proof (owed_le s' l).
      pose proof (no_tokens q ltac:(by apply lookup_ge_None)). lia.
  - pose proof (no_tokens q (after_none q El)). cbn. lia.
Qed.
Lemma go_tokens_p : wakes s' = wakes s → (∀ c, i ≠ ISchedule c) →
  (tokens s' p + total (owed s') (default [] (ps' !! p)) = total holds (default [] (ps' !! p)))%nat.
Proof.
  intros Hw Hi. pose proof (exec_tokens _ _ _ _ _ _ _ He (i_wakes _ Hinv) Hi p) as H. pose proof hold_woken as Hwok.
  rewrite !decide_True in H by done. pose proof (i_tokens _ Hinv p) as Ht. cbn in Ht. rewrite Hp in Ht.
  rewrite after_p. cbn [default from_option id] in *. rewrite !total_app, !total_owed_same by done. cbn in Ht.
  assert (owed s i = 0%nat); [|lia]. destruct i; try done. cbn. destruct w; try done.
  rewrite decide_True; [done|]. by apply Hwok.
Qed.

Lemma schedule_fiber c x f : ctxs s !! c = Some x → fiber x = Some f → c ∉ wakes s → ∀ q l,
  ps !! q = Some l → total (holds_for c) l = (if decide (q = f) then 1 else 0)%nat.
Proof.
  intros Hx Hf Hc q l Hq. destruct (i_fiber _ Hinv c x Hx Hc) as (f' & l' & Hf' & Hl' & Hpos). cbn in Hl'.
  assert (f' = f) as -> by congruence. pose proof (i_hold _ Hinv c) as H. cbn in H. unfold weigh in H.
  case_decide as E.
  - subst. assert (l' = l) as -> by congruence. pose proof (total_lookup (total (holds_for c)) ps f l Hq). lia.
  - pose proof (total_two (total (holds_for c)) ps q f l l' E Hq Hl'). lia.
Qed.
Lemma owed_wake c l : wakes s' = wakes s ++ [c] → c ∉ wakes s →
  (total (owed s') l + total (holds_for c) l = total (owed s) l)%nat.
Proof.
  intros Hw Hc. induction l as [|j l IH]; [done|]. cbn.
  assert (owed s' j + holds_for c j = owed s j)%nat; [|lia].
  destruct j; try done. destruct w as [d| |]; try done. unfold owed, holds_for, same. rewrite Hw.
  destruct (decide (c = d)) as [->|Hne].
  - rewrite decide_True, decide_False by (done || (rewrite elem_of_app; right; by left)). done.
  - destruct (decide (d ∈ wakes s)) as [Hd|Hd].
    + rewrite decide_True; [done|]. rewrite elem_of_app. by left.
    + rewrite decide_False; [done|]. rewrite elem_of_app, list_elem_of_singleton. naive_solver.
Qed.

Lemma schedule_effect c : i = ISchedule c →
  ∃ x f, ctxs s !! c = Some x ∧ fiber x = Some f ∧ (c ∉ wakes s) ∧ next = [] ∧ new = [] ∧
    wakes s' = wakes s ++ [c] ∧ ∀ q, (tokens s' q = tokens s q + if decide (q = f) then 1 else 0)%nat.
Proof.
  intros E. destruct go_instr as [Hok _]. pose proof win_share as Hwin. rewrite E in Hok. destruct Hok as [x Hx].
  destruct (Hwin c x) as [Hc _]; [|done|]. { rewrite E. cbn. unfold same. rewrite decide_True; [lia|done]. }
  destruct (fiber_some c x Hx Hc) as [f Hf]. exists x, f. pose proof He as H. rewrite E in H. cbn in H. rewrite Hx in H.
  cbn in H. rewrite Hf in H. injection H as <- <- <-. split_and!; try done.
  intros q. unfold tokens. cbn. rewrite cnt_snoc. lia.
Qed.
Lemma go_tokens q : (tokens s' q + total (owed s') (default [] (ps' !! q)) = total holds (default [] (ps' !! q)))%nat.
Proof.
  assert ((∀ c, i ≠ ISchedule c) ∨ ∃ c, i = ISchedule c) as [Hi|[c Hi]] by (destruct i; by eauto).
  { assert (wakes s' = wakes s) as Hw.
    { destruct (exec_wakes _ _ _ _ _ _ _ He) as [?|(c & x & E & _)]; [done|by destruct (Hi c)]. }
    destruct (decide (q = p)) as [->|]; [by apply go_tokens_p|by apply go_tokens_other]. }
  destruct (schedule_effect c Hi) as (x & f & Hx & Hf & Hc & En & Ew & Hw & Ht).
  pose proof (i_tokens _ Hinv q) as H. cbn in H. rewrite Ht.
  assert (∀ l, ps !! q = Some l → ∃ l', ps' !! q = Some l' ∧ total holds l' = total holds l ∧
    total (owed s) l' = total (owed s) l ∧ total (holds_for c) l' = total (holds_for c) l) as Hl.
  { intros l Hl. destruct (decide (q = p)) as [->|Hne]; [|exists l; by rewrite (after_other q l)].
    assert (l = i :: k) as -> by congruence. exists k. rewrite after_p, En, Hi. done. }
  destruct (ps !! q) as [l|] eqn:El.
  - destruct (Hl l eq_refl) as (l' & -> & E1 & E2 & E3). cbn in *. pose proof (owed_wake c l' Hw Hc).
    pose proof (schedule_fiber c x f Hx Hf Hc q l El). lia.
  - destruct (i_fiber _ Hinv c x Hx Hc) as (f' & l' & Hf' & Hl' & _). cbn in Hl'.
    assert (q ≠ f) as Hq by congruence. rewrite decide_False by done. cbn in H.
    assert (ps' !! q = None) as ->; [|cbn; lia]. rewrite Ew, app_nil_r.
    apply lookup_ge_None. rewrite length_insert. by apply lookup_ge_None.
Qed.

Lemma go_inv : inv (mkWorld s' ps').
Proof.
  destruct (exec_shape _ _ _ _ _ _ _ He) as (S1 & S2 & S3 & S4 & S5 & S6).
  pose proof go_instr as [Hi _].
  split; cbn [st procs].
  - apply go_ok.
  - intros n c. apply (exec_map _ _ _ _ _ _ _ _ _ He); [|apply (i_map _ Hinv)]. intros d ->. exact Hi.
  - intros c Hc. eapply in_range_step; [done|].
    destruct (exec_wakes _ _ _ _ _ _ _ He) as [E|(d & x & _ & Hx & E)]; rewrite E in Hc; [by apply (i_wakes _ Hinv)|].
    apply elem_of_app in Hc as [Hc|Hc]; [by apply (i_wakes _ Hinv)|]. apply list_elem_of_singleton in Hc as ->. by exists x.
  - apply go_ctx.
  - apply go_timers.
  - apply go_m_timer.
  - apply go_one.
  - apply go_hold.
  - apply go_fiber.
  - apply go_tries.
  - apply go_tokens.
  - eapply shape_step; try done. apply (i_calm _ Hinv).
  - eapply shape_step; try done. apply (i_work _ Hinv).
Qed.
End go.

(** ** Steps from outside *)
(** A new program [l] that has no share in any context, and at most a timer less
    than there was; [l] will try to wake what that timer would have. *)
Lemma outside_inv s s' ps ps' l :
  inv (mkWorld s ps) →
  ctxs s' = ctxs s → m_ctxs s' = m_ctxs s → wakes s' = wakes s → m_timer s' = m_timer s →
  (∀ q, tokens s' q = tokens s q) →
  (∀ t cb, timer_for s t cb → timer_for s' t cb) →
  (∀ t c, timers s' !! t = Some (Some (OnTimeOut c)) → in_range c s) →
  (∀ c, total (tries_timer c) (timers s) ≤ total (tries c) l + total (tries_timer c) (timers s'))%nat →
  (∀ f, weigh f ps' = weigh f ps + total f l)%nat →
  (∀ q k, ps' !! q = Some k → ps !! q = Some k ∨ k = l) →
  (∀ q k, ps !! q = Some k → (0 < total holds k)%nat → ps' !! q = Some k) →
  (∀ q k, ps' !! q = Some k → (0 < total holds k)%nat → ps !! q = Some k) →
  (∀ c, total (win c) l = 0%nat) → total holds l = 0%nat → Forall (instr_ok s) l →
  behind calm holding l → behind work work l →
  inv (mkWorld s' ps').
Proof.
  intros Hi Ec Em Ew Et Htok Htf Htl Htr Hf Hps Hh Hh' Hwin Hhold Hok Hb1 Hb2.
  assert (∀ c n, matches c n s → matches c n s') as Hma by (unfold matches; by rewrite Ec).
  assert (∀ c, in_range c s → in_range c s') as Hra by (unfold in_range; by rewrite Ec).
  assert (∀ j, instr_ok s j → instr_ok s' j) as Hio.
  { intros j. destruct j; cbn; repeat case_match; auto. intros [? ?]; auto. }
  assert (∀ P : list instr → Prop, Forall P ps → P l → Forall P ps') as Hall.
  { intros P H1 H2. apply Forall_lookup. intros q k Hk. destruct (Hps q k Hk) as [Hq| ->]; [|done].
    by eapply Forall_lookup_1 in Hq. }
  split; cbn [st procs].
  - apply Hall; [|by eapply Forall_impl]. eapply Forall_impl; [apply (i_ok _ Hi)|]. cbn. intros k Hk. by eapply Forall_impl.
  - rewrite Em. intros n c Hc. by apply Hma, (i_map _ Hi).
  - rewrite Ew. intros c Hc. by apply Hra, (i_wakes _ Hi).
  - rewrite Ec. intros c x Hx. destruct (i_ctx _ Hi c x Hx) as [H1 H2]. split; [|done]. intros t Ht. by apply Htf, H1.
  - intros t c Hc. apply Hra. by eapply Htl.
  - rewrite Et. intros t Ht. by apply Htf, (i_m_timer _ Hi).
  - rewrite Ec, Ew. intros c x Hx. rewrite Hf, Hwin, Nat.add_0_r. by apply (i_one _ Hi).
  - intros c. rewrite Hf. pose proof (i_hold _ Hi c) as H. cbn in H. pose proof (holds_for_le c l). lia.
  - rewrite Ec, Ew. intros c x Hx Hc. destruct (i_fiber _ Hi c x Hx Hc) as (q & k & E & Hq & Hk). cbn in Hq.
    exists q, k. split_and!; [done|apply Hh; [done|]|done]. pose proof (holds_for_le c k). lia.
  - rewrite Ec. intros c x Hx Hs. pose proof (i_tries _ Hi c x Hx Hs) as H. cbn in H. rewrite Hf. specialize (Htr c). lia.
  - intros q. pose proof (i_tokens _ Hi q) as H. cbn in H. rewrite Htok.
    assert (∀ k, total (owed s') k = total (owed s) k) as Eo.
    { intros k. apply total_ext, Forall_true. intros j. unfold owed. by rewrite Ew. }
    destruct (decide (0 < total holds (default [] (ps !! q)))%nat) as [Hpos|Hz].
    + destruct (ps !! q) as [k|] eqn:Eq; [|cbn in Hpos; lia]. cbn in *. rewrite (Hh q k Eq Hpos). cbn. by rewrite Eo.
    + assert (total holds (default [] (ps' !! q)) = 0%nat) as E0.
      { destruct (decide (0 < total holds (default [] (ps' !! q)))%nat) as [Hpos|]; [|lia]. exfalso.
        destruct (ps' !! q) as [k|] eqn:Eq; [|cbn in Hpos; lia]. cbn in Hpos. rewrite (Hh' q k Eq Hpos) in Hz. cbn in Hz. lia. }
      pose proof (owed_le s' (default [] (ps' !! q))). lia.
  - apply Hall; [apply (i_calm _ Hi)|done].
  - apply Hall; [apply (i_work _ Hi)|done].
Qed.

Lemma entry_facts i s : is_entry i = true → (∀ c, total (win c) [i] = 0%nat) ∧ total holds [i] = 0%nat ∧
  Forall (instr_ok s) [i] ∧ behind calm holding [i] ∧ behind work work [i].
Proof. destruct i; try done; intros _; (split_and!; [done|done|by repeat constructor|by repeat constructor|by repeat constructor]). Qed.

Lemma step_inv l W W' : inv W → step l W = Some W' → inv W'.
Proof.
  intros Hi H. destruct W as [s ps]. destruct l as [p a|p i|t]; cbn in H.
  - destruct (ps !! p) as [[|i k]|] eqn:Hp; try done. destruct (exec p i a s) as [[[next new] s']|] eqn:He; [|done].
    injection H as <-. by eapply go_inv.
  - destruct (ps !! p) as [[|]|] eqn:Hp; try done. destruct (is_entry i) eqn:Hei; [|done]. injection H as <-.
    destruct (entry_facts i s Hei) as (H1 & H2 & H3 & H4 & H5).
    assert (∀ q k, q ≠ p → <[p := [i]]> ps !! q = Some k ↔ ps !! q = Some k) as Hother.
    { intros q k Hne. by rewrite list_lookup_insert_ne. }
    assert (<[p := [i]]> ps !! p = Some [i]) as Hnew by (apply list_lookup_insert_eq; by apply lookup_lt_Some in Hp).
    eapply (outside_inv s s ps _ [i]); try done.
    + intros t c. apply (i_timers _ Hi).
    + intros c. lia.
    + intros f. unfold weigh. pose proof (total_insert (total f) ps p [] [i] Hp) as E. cbn in E. cbn. lia.
    + intros q k Hq. destruct (decide (q = p)) as [->|]; [right; congruence|left; by apply Hother].
    + intros q k Hq Hk. destruct (decide (q = p)) as [->|]; [|by apply Hother]. rewrite Hp in Hq. injection Hq as <-. cbn in Hk. lia.
    + intros q k Hq Hk. destruct (decide (q = p)) as [->|]; [|by apply Hother]. rewrite Hnew in Hq. injection Hq as <-. lia.
  - destruct (timers s !! t) as [[cb|]|] eqn:Ht; try done. injection H as <-.
    assert (∀ c, total (tries_timer c) (<[t := None]> (timers s)) + tries_timer c (Some cb) = total (tries_timer c) (timers s))%nat as Htr.
    { intros c. pose proof (total_insert (tries_timer c) _ _ _ None Ht) as E. cbn in *. lia. }
    eapply (outside_inv s _ ps _ (timer_prog cb)); try done.
    + intros u cb' Hu. unfold timer_for, cancel_timer. cbn.
      destruct (decide (u = t)) as [->|]; [|by rewrite list_lookup_insert_ne].
      left. apply list_lookup_insert_eq. by apply lookup_lt_Some in Ht.
    + intros u c. cbn. intros [(? & ? & _)|[? Hu]]%list_lookup_insert_Some; [done|]. by apply (i_timers _ Hi u).
    + intros c. cbn [cancel_timer timers set_timers]. rewrite <- (Htr c). destruct cb; cbn; lia.
    + intros f. unfold weigh. rewrite total_app. cbn. lia.
    + intros q k Hq. apply lookup_snoc_Some in Hq as [[_ ?]|[_ <-]]; auto.
    + intros q k Hq _. by apply lookup_app_l_Some.
    + intros q k Hq Hk. apply lookup_snoc_Some in Hq as [[_ ?]|[_ <-]]; [done|]. destruct cb; cbn in Hk; lia.
    + intros c. by destruct cb.
    + by destruct cb.
    + destruct cb as [c|]; [|by repeat constructor]. pose proof (i_timers _ Hi t c Ht). by repeat constructor.
    + destruct cb; cbn; repeat split; by repeat constructor.
    + destruct cb; cbn; repeat split; by repeat constructor.
Qed.

Lemma init_inv n b1 b2 b3 b4 : inv (init n b1 b2 b3 b4).
Proof.
  assert (∀ f, weigh f (replicate n []) = 0%nat) as Hw.
  { intros f. apply total_zero, Forall_replicate. done. }
  split; cbn [st procs init new_Stream ctxs m_ctxs wakes timers m_timer]; try done.
  - by apply Forall_replicate.
  - intros c Hc. by apply elem_of_nil in Hc.
  - intros c. rewrite Hw. lia.
  - intros q. destruct (replicate n [] !! q) eqn:E; [|done]. by apply lookup_replicate in E as [-> _].
  - by apply Forall_replicate.
  - by apply Forall_replicate.
Qed.
Lemma run_inv ls W W' : inv W → run ls W = Some W' → inv W'.
Proof.
  revert W. induction ls as [|l ls IH]; intros W Hi H; cbn in H; [congruence|].
  destruct (step l W) as [W1|] eqn:E; [|done]. eapply IH; [|done]. by eapply step_inv.
Qed.
