(* ===== verification/AsyncStreamResult.v ===== *)
(** * Requests over a shared connection: what a request is told

    Whoever wakes a request has given it a reason before: a time-out, the end of
    the connection, or a response. *)
From S2P Require Import Prelude Rock Semaphore AsyncStream AsyncStreamSpec AsyncStreamThms.
#[local] Arguments cnt : simpl never.
#[local] Arguments weigh : simpl never.

(** About to store a response; going to wake the context; having won and decided. *)
Definition setting (c : nat) (i : instr) : nat := match i with ISetResponse d _ => same c d | _ => 0 end.
Definition asks (c : nat) (i : instr) : nat :=
  match i with IDoRsp d | ICas d _ | IRspTimer d | IRspTimed d => same c d | _ => 0 end.
Definition calls (c : nat) (i : instr) : nat := match i with ISchedule d => same c d | _ => 0 end.

Definition answered_by (ps : list (list instr)) (c : nat) (x : Ctx) : Prop :=
  result x = IO_ERROR ∨ response x ≠ None ∨ (0 < weigh (setting c) ps)%nat.
Definition reasons (W : world) : Prop := ∀ c x, ctxs (st W) !! c = Some x →
  ((0 < weigh (asks c) (procs W))%nat → timed x = true ∨ answered_by (procs W) c x) ∧
  (c ∈ wakes (st W) ∨ (0 < weigh (calls c) (procs W))%nat → result x = TIMEOUT ∨ answered_by (procs W) c x).

Lemma exec_asks p i a s next new s' c : exec p i a s = Some (next, new, s') →
  ((0 < total (asks c) next)%nat → (0 < asks c i)%nat ∨ i = ITimed c ∨ i = IFail c ∨ ∃ r, i = ISetResponse c r) ∧
  weigh (asks c) new = 0%nat ∧
  ((0 < total (calls c) next)%nat → i = IRspTimed c) ∧
  weigh (calls c) new = 0%nat ∧
  (∀ r, i = ISetResult c r → (0 < total (setting c) next)%nat).
Proof.
  assert (∀ d n, (0 < same c d + n → n = 0 → d = c)%nat) as Hs.
  { intros d n. unfold same. case_decide; [done|lia]. }
  intros H. destruct i; exec_case H; split_and!; try done; cbn; try lia; try (intros ?%Hs; [subst; eauto|done]); eauto.
  - intros r0 [= -> ->]. unfold same. rewrite decide_True; [lia|done].
  - rewrite total_zero; [lia|]. by apply Forall_fails.
  - rewrite total_zero; [lia|]. by apply Forall_fails.
Qed.

Lemma exec_sets p i a s next new s' c x x' : exec p i a s = Some (next, new, s') →
  ctxs s !! c = Some x → ctxs s' !! c = Some x' →
  (i = ITimed c → timed x' = true) ∧ (i = IFail c → result x' = IO_ERROR) ∧
  (∀ r, i = ISetResponse c r → response x' = Some r) ∧
  (i = IRspTimed c → timed x = true → result x' = TIMEOUT).
Proof.
  intros H Hx Hx'. assert (∀ f : Ctx → Ctx, ctxs s' = alter f c (ctxs s) → x' = f x) as Hf.
  { intros f E. rewrite E, list_lookup_alter_eq, Hx in Hx'. by injection Hx'. }
  split; [|split; [|split]].
  - intros ->. injection H as <- <- <-. by rewrite (Hf with_timed).
  - intros ->. injection H as <- <- <-. by rewrite (Hf (with_result IO_ERROR)).
  - intros r ->. injection H as <- <- <-. by rewrite (Hf (with_response r)).
  - intros -> Ht. cbn in H. rewrite Hx in H. cbn in H. rewrite Ht in H. injection H as <- <- <-.
    by rewrite (Hf (with_result TIMEOUT)).
Qed.
Lemma setting_only c i : (0 < setting c i)%nat → ∃ r, i = ISetResponse c r.
Proof. destruct i; cbn; try lia. unfold same. case_decide; [subst; eauto|lia]. Qed.

Lemma go_reasons s ps p i k a next new s' :
  inv (mkWorld s ps) → reasons (mkWorld s ps) → ps !! p = Some (i :: k) →
  exec p i a s = Some (next, new, s') → reasons (mkWorld s' (<[p := next ++ k]> ps ++ new)).
Proof.
  intros Hinv Hr Hp He c x' Hx'. cbn [st procs] in *.
  destruct (exec_asks _ _ _ _ _ _ _ c He) as (A1 & A2 & A3 & A4 & A5).
  pose proof (weigh_step (asks c) ps p i k next new Hp) as WA. pose proof (weigh_step (calls c) ps p i k next new Hp) as WC.
  pose proof (weigh_step (setting c) ps p i k next new Hp) as WS.
  set (ps' := <[p := next ++ k]> ps ++ new) in *.
  destruct (exec_ctx_old _ _ _ _ _ _ _ c x' He Hx') as [(x & Hx & Hk)|(req & Hi & Hc & ->)].
  2:{ assert (ctxs s !! c = None) as Hnone by (rewrite Hc; by apply lookup_ge_None).
      assert (∀ f, (∀ j, (0 < f c j)%nat → instr_ok s j → in_range c s) → weigh (f c) ps = 0%nat) as Hz.
      { intros f Hf. by apply (weigh_range s ps p i k a next new s' Hinv Hp He f c Hf). }
      assert (weigh (asks c) ps = 0%nat ∧ weigh (calls c) ps = 0%nat) as [Z1 Z2].
      { split; apply Hz; intros j; destruct j; cbn; try lia; unfold same; case_decide; try lia; by subst. }
      assert (c ∉ wakes s) as Hw.
      { intros Hin. destruct (i_wakes _ Hinv c Hin) as [y Hy]. cbn in Hy. congruence. }
      assert (asks c i = 0%nat ∧ calls c i = 0%nat) as [Z3 Z4] by by rewrite Hi. split.
      - intros Hpos. destruct A1 as [?|[?|[?|[? ?]]]]; try lia; congruence.
      - intros [Hin|Hpos]; [exfalso; apply Hw|assert (i = IRspTimed c) by (apply A3; lia); congruence].
        destruct (exec_wakes _ _ _ _ _ _ _ He) as [<-|(d & y & E & _)]; [done|congruence]. }
  assert (∀ f, f i ≤ weigh f ps)%nat as Hin_le.
  { intros f. pose proof (total_lookup (total f) ps p _ Hp) as H. cbn in H. unfold weigh. lia. }
  destruct (Hr c x Hx) as [R1 R2]. cbn [st procs] in R1, R2.
  destruct (exec_sets _ _ _ _ _ _ _ c x x' He Hx Hx') as (T1 & T2 & T3 & T4).
  destruct Hk as [_ _ _ _ Kr Kt Kres].
  (* what was said stays said *)
  assert (answered_by ps c x → answered_by ps' c x' ∨ timed x' = true ∧ result x' = TIMEOUT) as Hans.
  { intros H. destruct (decide (0 < setting c i)%nat) as [Hs|Hs].
    { destruct (setting_only _ _ Hs) as [r E]. left. right; left. by rewrite (T3 r E). }
    destruct H as [H|[H|H]]; unfold answered_by.
    - destruct Kres as [E|[(E & Ht & E2)|[(E & E2)|(r & E)]]]; [left; left; congruence| |by left; left|].
      + right. split; [|done]. destruct Kt as [->|[_ ->]]; done.
      + left. right; right. specialize (A5 r E). rewrite E in WS. cbn in WS. lia.
    - left. right; left. destruct Kr as [->|(r & _ & ->)]; done.
    - left. right; right. lia. }
  assert (timed x = true → timed x' = true) as Htm by (destruct Kt as [->|[_ ->]]; done).
  split.
  - intros Hpos. destruct (decide (0 < weigh (asks c) ps)%nat) as [Ho|Ho].
    + destruct (R1 Ho) as [?|Ha]; [left; auto|]. destruct (Hans Ha) as [?|[? _]]; auto.
    + destruct A1 as [?|[E|[E|(r & E)]]]; [lia|specialize (Hin_le (asks c)); lia|left; auto|right; left; auto|right; right; left; by rewrite (T3 r E)].
  - intros Hor.
    assert ((0 < weigh (calls c) ps)%nat ∨ c ∈ wakes s ∨ i = IRspTimed c) as [Ho|[Ho|Ho]].
    { destruct (decide (0 < weigh (calls c) ps)%nat) as [|Hz]; [by left|right]. destruct Hor as [Hin|Hpos].
      - destruct (exec_wakes _ _ _ _ _ _ _ He) as [E|(d & y & E & _ & Ew)]; [left; congruence|]. rewrite Ew in Hin.
        apply elem_of_app in Hin as [?|Hd%list_elem_of_singleton]; [by left|]. subst d.
        exfalso. pose proof (Hin_le (calls c)) as Hle. rewrite E in Hle. cbn in Hle. unfold same in Hle. rewrite decide_True in Hle by done. lia.
      - right. apply A3. lia. }
    1,2: destruct R2 as [Ht|Ha]; [by auto| |destruct (Hans Ha) as [?|[_ ?]]; auto].
    1,2: destruct Kres as [E|[(_ & _ & E)|[(_ & E)|(r & E)]]]; [left; congruence|by left|by right; left|right; right; right];
      specialize (A5 r E); rewrite E in WS; cbn in WS; lia.
    destruct R1 as [Ht|Ha]; [|left; by apply T4|destruct (Hans Ha) as [?|[_ ?]]; auto].
    pose proof (Hin_le (asks c)) as Hle. rewrite Ho in Hle. cbn in Hle. unfold same in Hle. rewrite decide_True in Hle by done. lia.
Qed.

Lemma step_reasons l W W' : inv W → reasons W → step l W = Some W' → reasons W'.
Proof.
  intros Hi Hr H. destruct W as [s ps].
  assert (∀ s' ps' new, ctxs s' = ctxs s → wakes s' = wakes s → (∀ f, weigh f ps' = weigh f ps + total f new)%nat →
    (∀ c, total (asks c) new = 0%nat ∧ total (calls c) new = 0%nat) → reasons (mkWorld s' ps')) as Hout.
  { intros s' ps' new Ec Ew Hf Hz c x. cbn [st procs]. rewrite Ec, Ew. intros Hx. destruct (Hr c x Hx) as [H1 H2].
    cbn [st procs] in *. destruct (Hz c) as [Z1 Z2]. unfold answered_by in *. rewrite !Hf, Z1, Z2.
    split; [intros Hp; destruct (H1 ltac:(lia)) as [?|[?|[?|?]]]|intros Hp; destruct H2 as [?|[?|[?|?]]]; [destruct Hp; [auto|right; lia]|..]];
      auto; right; right; right; lia. }
  destruct l as [p a|p i|t]; cbn in H.
  - destruct (ps !! p) as [[|i k]|] eqn:Hp; try done. destruct (exec p i a s) as [[[next new] s']|] eqn:He; [|done].
    injection H as <-. by eapply go_reasons.
  - destruct (ps !! p) as [[|]|] eqn:Hp; try done. destruct (is_entry i) eqn:Hei; [|done]. injection H as <-.
    apply (Hout _ _ [i]); [done|done| |by destruct i].
    intros f. unfold weigh. pose proof (total_insert (total f) ps p [] [i] Hp) as E. cbn in E. cbn. lia.
  - destruct (timers s !! t) as [[cb|]|] eqn:Ht; try done. injection H as <-.
    apply (Hout _ _ (timer_prog cb)); [done|done| |by destruct cb].
    intros f. unfold weigh. rewrite total_app. cbn. lia.
Qed.

(** ** The queue and the writer *)
Definition notifies (i : instr) : nat := match i with INotify => 1 | _ => 0 end.
Definition takes (i : instr) : nat := match i with ISwapQueue => 1 | _ => 0 end.
(** Outside the writer's loop; the writer takes the queue only once in a round. *)
Definition no_loop (i : instr) : bool :=
  match i with
  | IWait | IWriteLoop | ISendAll _ | ISwapQueue | IStart | ITake | IHold ForStart | IReadLoop | IRecv => false
  | _ => true
  end.
Definition taking (i : instr) : bool := match i with ISwapQueue => true | _ => false end.
Record queue_inv (n : Z) (W : world) : Prop := {
  q_bound : 0 ≤ m_concurrency (m_sem (st W)) ≤ n;
  q_some : m_waiters (m_sem (st W)) = [] ∨ m_concurrency (m_sem (st W)) = 0;
  q_waits p : p ∈ m_waiters (m_sem (st W)) → ∃ k, procs W !! p = Some (IHold ForQueue :: ISwapQueue :: k);
  q_shape : Forall (behind no_loop taking) (procs W);
  q_queue : m_queue (st W) ≠ [] →
    0 < m_concurrency (m_sem (st W)) ∨ (0 < weigh notifies (procs W))%nat ∨
    ∃ p l, procs W !! p = Some l ∧ (0 < total takes l)%nat ∧ p ∉ m_waiters (m_sem (st W)) }.

Lemma exec_queue p i a s next new s' : exec p i a s = Some (next, new, s') →
  (m_sem s' = m_sem s ∧ m_queue s' = m_queue s) ∨
  (i = INotify ∧ s' = notify_sem s ∧ next = []) ∨
  (∃ x, i = IEnqueue x ∧ m_sem s' = m_sem s ∧ (m_queue s ≠ [] ∨ next = [INotify])) ∨
  (i = IWait ∧ m_queue s' = m_queue s ∧ m_sem s' = (wait p (m_sem s)).2 ∧
    next = if (wait p (m_sem s)).1 then [ISwapQueue] else [IHold ForQueue; ISwapQueue]) ∨
  (m_queue s' = [] ∧ m_sem s' = m_sem s).
Proof.
  assert (m_sem (notify_waitSem s) = m_sem s) as N.
  { unfold notify_waitSem, notify. by destruct (m_waiters (m_waitSem s)). }
  pose proof (notify_waitSem_ctxs s) as (_ & _ & _ & _ & _ & N').
  intros H. destruct i; exec_case H; rewrite ?N, ?N'; try (by left); try (right; left; done); try (by right; right; right; right).
  all: first [ right; right; left; eexists; split_and!; [done..|first [by right | left; by eapply bool_decide_eq_false]]
             | right; right; right; left; done ].
Qed.

Lemma exec_loop p i a s next new s' : exec p i a s = Some (next, new, s') →
  (no_loop i = true → Forall (λ j, no_loop j = true) next) ∧ behind no_loop taking next ∧
  Forall (behind no_loop taking) new.
Proof.
  intros H. destruct i; exec_case H; cbn; split_and!; try done; try (intros _; repeat constructor; done); try (repeat constructor; done).
  - intros _. constructor; [done|]. by apply Forall_fails.
  - by apply behind_fails.
Qed.

Section go_queue.
#[local] Set Default Proof Using "All".
Context (s : Stream) (ps : list (list instr)) (p : nat) (i : instr) (k : list instr) (a : answer).
Context (next : list instr) (new : list (list instr)) (s' : Stream) (n : Z).
Context (Hinv : inv (mkWorld s ps)) (Hq : queue_inv n (mkWorld s ps)) (Hn : n + 1 < 2 ^ 64).
Context (Hp : ps !! p = Some (i :: k)) (He : exec p i a s = Some (next, new, s')).
Abbreviation ps' := (<[p := next ++ k]> ps ++ new).

Lemma running_not_waiting : p ∉ m_waiters (m_sem s).
Proof.
  intros Hin. destruct (q_waits _ _ Hq p Hin) as [k' Hk']. cbn in Hk'.
  assert (i = IHold ForQueue) as E by congruence. assert (k = ISwapQueue :: k') as Ek by congruence.
  pose proof (rest_holds s ps p i k a next new s' Hinv Hp He) as Hr.
  pose proof (i_tokens _ Hinv p) as Ht. cbn in Ht. rewrite Hp in Ht. cbn in Ht.
  clear - E Ek He Hr Ht Hin. subst. specialize (Hr eq_refl). cbn in *. destruct (decide (p ∈ ready s)) as [H1%cnt_pos|]; [|done].
  apply cnt_pos in Hin. unfold tokens in Ht. lia.
Qed.
Lemma waiting_once q : (cnt q (m_waiters (m_sem s)) ≤ 1)%nat.
Proof.
  destruct (decide (0 < cnt q (m_waiters (m_sem s)))%nat) as [Hin%cnt_pos|]; [|lia].
  destruct (q_waits _ _ Hq q Hin) as [k' Hk']. cbn in Hk'. pose proof (i_tokens _ Hinv q) as Ht. cbn in Ht. rewrite Hk' in Ht.
  pose proof (Forall_lookup_1 _ _ _ _ (i_calm _ Hinv) Hk') as Hc. cbn in Hc. apply Forall_cons in Hc as [_ Hc].
  assert (total holds k' = 0%nat). { apply total_zero. eapply Forall_impl; [done|]. by intros []. }
  cbn in Ht. unfold tokens in Ht. lia.
Qed.
Lemma other_waits q : q ∈ m_waiters (m_sem s) → ∃ k, ps' !! q = Some (IHold ForQueue :: ISwapQueue :: k).
Proof.
  intros Hin. pose proof running_not_waiting as Hnp. destruct (q_waits _ _ Hq q Hin) as [k' Hk']. exists k'.
  eapply (after_other s ps p i k a next new s' Hinv Hp He); [by intros ->|done].
Qed.
(** The queue's guard survives a step that is neither a notification nor the
    writer's. *)
Lemma guard_kept (m : FiberSemaphore) : m_queue s ≠ [] → notifies i = 0%nat → takes i = 0%nat →
  (0 < m_concurrency (m_sem s) → 0 < m_concurrency m) → (∀ q, q ∈ m_waiters m → q ∈ m_waiters (m_sem s)) →
  0 < m_concurrency m ∨ (0 < weigh notifies ps')%nat ∨
    ∃ q l, ps' !! q = Some l ∧ (0 < total takes l)%nat ∧ q ∉ m_waiters m.
Proof.
  intros Hne Hni Hti Hc Hw. pose proof running_not_waiting as Hnp. pose proof (weigh_step notifies ps p i k next new Hp) as Hwn.
  destruct (q_queue _ _ Hq Hne) as [?|[?|(q & l & Hl & Ht & Hnin)]]; cbn in *; [auto|right; left; lia|right; right].
  destruct (decide (q = p)) as [->|Hqp].
  - assert (l = i :: k) as -> by congruence. exists p, (next ++ k). rewrite total_app. cbn in Ht.
    split_and!; [apply (after_p s ps p i k a next new s' Hinv Hp He)|lia|]. intros H%Hw. done.
  - exists q, l. split_and!; [by apply (after_other s ps p i k a next new s' Hinv Hp He)|done|]. intros H%Hw. done.
Qed.

Lemma go_queue : queue_inv (n + 1) (mkWorld s' ps').
Proof.
  pose proof Hq as [Hb Hs _ Hsh _]. cbn [st procs] in Hb, Hs, Hsh.
  destruct (exec_loop _ _ _ _ _ _ _ He) as (L1 & L2 & L3).
  assert (Forall (behind no_loop taking) ps') as Hsh' by (eapply shape_step; done).
  pose proof other_waits as Hwait. pose proof running_not_waiting as Hnp. pose proof guard_kept as Hguard. pose proof waiting_once as Hone.
  assert (takes i = 0%nat ∨ m_queue s' = []) as Htake.
  { destruct i; try (by left). right. by injection He as <- <- <-. }
  assert (notifies i = 0%nat ∨ i = INotify) as [Hnot|Hnot] by (destruct i; auto).
  2:{ assert (s' = notify_sem s ∧ next = []) as [-> ->] by (rewrite Hnot in He; by injection He as <- <- <-).
      pose proof (notify_sem_ctxs s) as (_ & _ & _ & _ & _ & Eq).
      unfold notify_sem, notify in *. destruct (m_waiters (m_sem s)) as [|f fs] eqn:Ew; split; cbn [st procs] in *.
      - cbn. rewrite Z.mod_small by lia. lia.
      - by left.
      - intros q Hin. by apply elem_of_nil in Hin.
      - done.
      - intros _. left. cbn. rewrite Z.mod_small; lia.
      - cbn. lia.
      - right. cbn. by destruct Hs.
      - intros q Hin. apply Hwait. by right.
      - done.
      - intros _. right; right. destruct (Hwait f) as [k' Hk']; [by left|]. exists f, (IHold ForQueue :: ISwapQueue :: k').
        split_and!; [done|cbn; lia|]. cbn. intros Hin%cnt_pos. specialize (Hone f). cbn in Hone.
        unfold cnt in Hone, Hin. cbn in Hone. rewrite decide_True in Hone by done. lia. }
  destruct (exec_queue _ _ _ _ _ _ _ He) as [[Es Eq]|[(E & _)|[(x & E & Es & Hor)|[(E & Eq & Es & En)|[Eq Es]]]]].
  - split; cbn [st procs]; rewrite ?Es, ?Eq; [lia|done|done|done|]. intros Hne. destruct Htake as [Ht|]; [|congruence]. by apply Hguard.
  - by rewrite E in Hnot.
  - split; cbn [st procs]; rewrite ?Es; [lia|done|done|done|]. intros _. destruct Hor as [Hne|En].
    + apply Hguard; try done. by rewrite E.
    + right; left. pose proof (weigh_step notifies ps p i k next new Hp) as Hwn. rewrite Hnot, En in Hwn. rewrite En. cbn in Hwn |- *. lia.
  - unfold wait in Es, En. destruct (Z.ltb_spec 0 (m_concurrency (m_sem s))) as [Hc|Hc]; cbn in Es, En;
      split; cbn [st procs]; rewrite ?Es, ?Eq; cbn; try done.
    + lia.
    + left. destruct Hs; [done|lia].
    + intros _. right; right. exists p, (next ++ k). split_and!; [apply (after_p s ps p i k a next new s' Hinv Hp He)| |done].
      rewrite En. cbn. lia.
    + lia.
    + right. lia.
    + intros q Hin. apply elem_of_app in Hin as [?| ->%list_elem_of_singleton]; [by apply Hwait|].
      exists k. by rewrite (after_p s ps p i k a next new s' Hinv Hp He), En.
    + intros Hne. right. destruct (q_queue _ _ Hq Hne) as [?|[Hw|(q & l & Hl & Ht & Hnin)]]; cbn in *; [lia| |right].
      * left. pose proof (weigh_step notifies ps p i k next new Hp). lia.
      * assert (q ≠ p) as Hqp.
        { intros ->. assert (l = i :: k) as -> by congruence. pose proof (Forall_lookup_1 _ _ _ _ Hsh Hp) as Hk. rewrite E in Hk, Ht.
          cbn in Hk, Ht. assert (total takes k = 0%nat); [|lia]. apply total_zero. eapply Forall_impl; [done|]. by intros []. }
        exists q, l. split_and!; [by apply (after_other s ps p i k a next new s' Hinv Hp He)|done|].
        intros Hin. apply elem_of_app in Hin as [?|Hin%list_elem_of_singleton]; done.
  - split; cbn [st procs]; rewrite ?Es, ?Eq; [lia|done..].
Qed.
End go_queue.

Lemma step_queue n l W W' : n + 1 < 2 ^ 64 → inv W → queue_inv n W → step l W = Some W' → queue_inv (n + 1) W'.
Proof.
  intros Hn Hi [Hb Hs Hw Hsh Hq] H. destruct W as [s ps]. cbn [st procs] in *.
  assert (∀ s' ps', m_sem s' = m_sem s → m_queue s' = m_queue s → (weigh notifies ps ≤ weigh notifies ps')%nat →
    (∀ q l, ps !! q = Some l → l ≠ [] → ps' !! q = Some l) → Forall (behind no_loop taking) ps' → queue_inv (n + 1) (mkWorld s' ps')) as Hout.
  { intros s' ps' Es Eq Hnt Hl Hsh'. split; cbn [st procs]; rewrite ?Es, ?Eq; [lia|done| |done|].
    - intros q Hin. destruct (Hw q Hin) as [k Hk]. exists k. by apply Hl.
    - intros Hne. destruct (Hq Hne) as [?|[?|(q & l' & Hl' & Ht & Hnin)]]; [auto|right; left; lia|right; right].
      exists q, l'. split_and!; [apply Hl; [done|]|done..]. intros ->. cbn in Ht. lia. }
  destruct l as [p a|p i|t]; cbn in H.
  - destruct (ps !! p) as [[|i k]|] eqn:Hp; try done. destruct (exec p i a s) as [[[next new] s']|] eqn:He; [|done].
    injection H as <-. by eapply go_queue.
  - destruct (ps !! p) as [[|]|] eqn:Hp; try done. destruct (is_entry i); [|done]. injection H as <-.
    apply Hout; [done|done| | |].
    + unfold weigh. pose proof (total_insert (total notifies) ps p [] [i] Hp) as E. cbn in E. lia.
    + intros q l Hl Hne. rewrite list_lookup_insert_ne; [done|]. intros ->. congruence.
    + apply Forall_insert; [done|]. cbn. by destruct (no_loop i).
  - destruct (timers s !! t) as [[cb|]|]; try done. injection H as <-. apply Hout; [done|done| | |].
    + unfold weigh. rewrite total_app. lia.
    + intros q l Hl _. by apply lookup_app_l_Some.
    + apply Forall_app. split; [done|]. constructor; [|done]. destruct cb; cbn; by repeat constructor.
Qed.

(** ** Fibers suspended in [start] *)
Definition starts_inv (W : world) : Prop := ∀ p, p ∈ m_waiters (m_waitSem (st W)) →
  ∃ k, procs W !! p = Some (IHold ForStart :: k).
Lemma exec_wait p i a s next new s' : exec p i a s = Some (next, new, s') →
  ∀ q, q ∈ m_waiters (m_waitSem s') → q ∈ m_waiters (m_waitSem s) ∨ (q = p ∧ next = [IHold ForStart]).
Proof.
  assert (m_waitSem (notify_sem s) = m_waitSem s) as N.
  { unfold notify_sem, notify. by destruct (m_waiters (m_sem s)). }
  assert (∀ q, q ∈ m_waiters (m_waitSem (notify_waitSem s)) → q ∈ m_waiters (m_waitSem s)) as N'.
  { intros q. unfold notify_waitSem, notify. destruct (m_waiters (m_waitSem s)); cbn; [done|by right]. }
  intros H q. destruct i; exec_case H; rewrite ?N; try (intros Hin; left; apply N', Hin); auto;
    unfold wait in *; repeat case_match; simplify_eq/=; auto.
  intros Hin. apply elem_of_app in Hin as [?| ->%list_elem_of_singleton]; auto.
Qed.

Lemma step_starts l W W' : inv W → starts_inv W → step l W = Some W' → starts_inv W'.
Proof.
  intros Hi Hs H. destruct W as [s ps]. unfold starts_inv in *. cbn [st procs] in *.
  destruct l as [p a|p i|t]; cbn in H.
  - destruct (ps !! p) as [[|i k]|] eqn:Hp; try done. destruct (exec p i a s) as [[[next new] s']|] eqn:He; [|done].
    injection H as <-. cbn [st procs]. intros q Hq. destruct (exec_wait _ _ _ _ _ _ _ He q Hq) as [Hin|[-> ->]].
    + destruct (Hs q Hin) as [k' Hk']. exists k'. eapply (after_other s ps p i k a next new s' Hi Hp He); [|done].
      intros ->. assert (i = IHold ForStart) as -> by congruence.
      pose proof (rest_holds s ps p _ k a next new s' Hi Hp He eq_refl) as Hr.
      pose proof (i_tokens _ Hi p) as Ht. cbn in Ht. rewrite Hp in Ht. cbn in He, Ht.
      destruct (decide (p ∈ ready s)) as [H1%cnt_pos|]; [|done]. apply cnt_pos in Hin. unfold tokens in Ht. lia.
    + exists k. apply (after_p s ps p i k a _ new s' Hi Hp He).
  - destruct (ps !! p) as [[|]|] eqn:Hp; try done. destruct (is_entry i); [|done]. injection H as <-. cbn [st procs].
    intros q Hq. destruct (Hs q Hq) as [k Hk]. exists k. rewrite list_lookup_insert_ne; [done|]. intros ->. congruence.
  - destruct (timers s !! t) as [[cb|]|]; try done. injection H as <-. cbn [st procs]. intros q Hq.
    destruct (Hs q Hq) as [k Hk]. exists k. by apply lookup_app_l_Some.
Qed.

(** ** Every reachable state *)
Record reachable (n : Z) (W : world) : Prop := {
  r_inv : inv W; r_reasons : reasons W; r_starts : starts_inv W; r_queue : n < 2 ^ 64 → queue_inv n W }.
Lemma init_reachable n b1 b2 b3 b4 : reachable 0 (init n b1 b2 b3 b4).
Proof.
  split; [apply init_inv|done| |intros _; split; cbn; try done].
  - intros p Hp. by apply elem_of_nil in Hp.
  - by left.
  - intros p Hp. by apply elem_of_nil in Hp.
  - by apply Forall_replicate.
Qed.
Lemma run_reachable ls : ∀ n W W', 0 ≤ n → reachable n W → run ls W = Some W' → reachable (n + Z.of_nat (length ls)) W'.
Proof.
  induction ls as [|l ls IH]; intros n W W' Hn HW H; cbn in H.
  { injection H as <-. cbn. by rewrite Z.add_0_r. }
  destruct (step l W) as [W1|] eqn:E; [|done]. cbn in H.
  replace (n + Z.of_nat (length (l :: ls))) with ((n + 1) + Z.of_nat (length ls)) by (cbn; lia).
  apply (IH (n + 1) W1); [lia| |done]. destruct HW as [H1 H2 H3 H4].
  split; [by eapply step_inv|by eapply step_reasons|by eapply step_starts|].
  intros Hlt. eapply step_queue; [done..| |done]. apply H4. lia.
Qed.
