(* ===== verification/AsyncStreamProps.v ===== *)
(** * Requests over a shared connection: the properties *)
From S2P Require Import Prelude Rock Semaphore AsyncStream AsyncStreamSpec AsyncStreamThms AsyncStreamResult.

Lemma start_reachable ls n b1 b2 b3 b4 W : run ls (init n b1 b2 b3 b4) = Some W → reachable (Z.of_nat (length ls)) W.
Proof. intros H. apply (run_reachable ls 0 (init n b1 b2 b3 b4) W); [lia|apply init_reachable|done]. Qed.

(** A fiber whose next instruction suspends it until somebody schedules it, or
    waits for the peer; or that has nothing to do. *)
Definition blocked (W : world) (p : nat) : Prop :=
  match procs W !! p with
  | Some (IHold _ :: _) => p ∉ ready (st W)
  | Some (IRecv :: _) | Some [] | None => True
  | _ => False
  end.
(** Nothing goes on unless the peer sends or a fiber enters the stream. *)
Definition stuck (W : world) : Prop :=
  (∀ p, blocked W p) ∧ ∀ t cb, timers (st W) !! t ≠ Some (Some cb).

(** One suspension at a time, and one wake-up for it. *)
Lemma holds_once W p l : inv W → procs W !! p = Some l → (total holds l ≤ 1)%nat.
Proof.
  intros Hi Hl. pose proof (Forall_lookup_1 _ _ _ _ (i_calm _ Hi) Hl) as H. clear Hl.
  induction l as [|i l IH]; cbn in *; [lia|]. destruct (calm i) eqn:Ec.
  - specialize (IH H). destruct i; cbn in *; done || lia.
  - assert (total holds l = 0%nat). { apply total_zero. eapply Forall_impl; [done|]. by intros []. }
    destruct i; cbn in *; lia.
Qed.
Lemma ready_once W p : inv W → (cnt p (ready (st W)) ≤ 1)%nat ∧
  (p ∈ ready (st W) → ∃ l, procs W !! p = Some l ∧ total holds l = 1%nat).
Proof.
  intros Hi. pose proof (i_tokens _ Hi p) as Ht. unfold tokens in Ht.
  destruct (procs W !! p) as [l|] eqn:El; cbn in Ht; [pose proof (holds_once W p l Hi El)|].
  - split; [lia|]. intros H1%cnt_pos. exists l. split; [done|lia].
  - split; [lia|]. intros H1%cnt_pos. lia.
Qed.
Lemma hold_ready n W p w k : n < 2 ^ 64 → reachable n W → procs W !! p = Some (IHold w :: k) →
  (p ∈ ready (st W) ↔ match w with
    | ForResponse c => c ∈ wakes (st W)
    | ForQueue => p ∉ m_waiters (m_sem (st W))
    | ForStart => p ∉ m_waiters (m_waitSem (st W)) end).
Proof.
  intros Hn [Hi _ Hs Hq] Hp. specialize (Hq Hn). pose proof (i_tokens _ Hi p) as Ht. rewrite Hp in Ht. cbn in Ht.
  pose proof (holds_once W p _ Hi Hp) as H1. cbn in H1. pose proof (owed_le (st W) k) as Ho. unfold tokens in Ht.
  assert ((0 < cnt p (m_waiters (m_sem (st W))))%nat → w = ForQueue) as HQ.
  { intros Hin%cnt_pos. destruct (q_waits _ _ Hq p Hin) as [? ?]. congruence. }
  assert ((0 < cnt p (m_waiters (m_waitSem (st W))))%nat → w = ForStart) as HS.
  { intros Hin%cnt_pos. destruct (Hs p Hin) as [? ?]. congruence. }
  rewrite <- cnt_pos. destruct w as [c| |].
  - destruct (decide (0 < cnt p (m_waiters (m_sem (st W))))%nat) as [?%HQ|]; [done|].
    destruct (decide (0 < cnt p (m_waiters (m_waitSem (st W))))%nat) as [?%HS|]; [done|]. case_decide; split; try done; lia.
  - rewrite <- cnt_zero. destruct (decide (0 < cnt p (m_waiters (m_waitSem (st W))))%nat) as [?%HS|]; [done|]. split; lia.
  - rewrite <- cnt_zero. destruct (decide (0 < cnt p (m_waiters (m_sem (st W))))%nat) as [?%HQ|]; [done|]. split; lia.
Qed.

(** C11: However the steps of the reader, the writer, the time-outs, the requests
    and the closing of the connection interleave - over fewer than 2^64 steps,
    with any answers of the socket, the decoder and the handlers - each request is
    woken by one party only: no context is scheduled twice, no fiber has two
    wake-ups pending or one it does not wait for, and a request that is suspended
    is resumed exactly when its context has been woken. *)
Theorem request_woken_once ls n b1 b2 b3 b4 W :
  run ls (init n b1 b2 b3 b4) = Some W → Z.of_nat (length ls) < 2 ^ 64 →
  NoDup (wakes (st W)) ∧ NoDup (ready (st W)) ∧
  (∀ p, p ∈ ready (st W) → ∃ l, procs W !! p = Some l ∧ total holds l = 1%nat) ∧
  (∀ p c k, procs W !! p = Some (IHold (ForResponse c) :: k) → p ∈ ready (st W) ↔ c ∈ wakes (st W)).
Proof.
  intros Hrun Hlen. pose proof (start_reachable _ _ _ _ _ _ _ Hrun) as HW. pose proof (r_inv _ _ HW) as Hi. split_and!.
  - apply NoDup_cnt. intros c. destruct (decide (c ∈ wakes (st W))) as [Hin|Hn%cnt_zero]; [|lia].
    destruct (i_wakes _ Hi c Hin) as [x Hx]. pose proof (i_one _ Hi c x Hx). lia.
  - apply NoDup_cnt. intros p. by apply ready_once.
  - intros p. by apply ready_once.
  - intros p c k Hp. by apply (hold_ready _ _ _ _ _ Hlen HW Hp).
Qed.

(** The run of a request that timed out, up to its wake-up, and where it ends. *)
Definition timed_out : list label := started ++ requested 5 ++ [Fire 0] ++ gos 4 7.
Definition timed_out_world : world :=
  Eval vm_compute in from_option id (mkWorld (new_Stream true true true true) []) (run timed_out (init 2 true false false false)).
Lemma timed_out_run : run timed_out (init 2 true false false false) = Some timed_out_world.
Proof. vm_compute. reflexivity. Qed.
Lemma timed_out_short : Z.of_nat (length timed_out) < 2 ^ 64.
Proof. vm_compute. reflexivity. Qed.
Lemma request_woken_once_witness :
  wakes (st timed_out_world) = [0%nat] ∧ NoDup (wakes (st timed_out_world)) ∧ NoDup (ready (st timed_out_world)).
Proof.
  pose proof (request_woken_once timed_out 2 true false false false timed_out_world timed_out_run timed_out_short) as (H1 & H2 & _).
  exact (conj eq_refl (conj H1 H2)).
Defined.

(** A fiber that is not blocked has a step. *)
Lemma progress W p : inv W → ¬ blocked W p → ∃ a, is_Some (step (Go p a) W).
Proof.
  intros Hi Hb. unfold blocked in Hb. destruct (procs W !! p) as [[|i k]|] eqn:Hp; try by destruct Hb.
  pose proof (Forall_lookup_1 _ _ _ _ (i_ok _ Hi) Hp) as [Hok _]%Forall_cons.
  assert (∃ a next new s', exec p i a (st W) = Some (next, new, s')) as (a & next & new & s' & He).
  { destruct i; try (exists Yes; cbn; unfold go; repeat case_match; eauto 10; done);
      try (destruct Hok as [? H0]; exists Yes; cbn; rewrite H0; cbn; unfold go; repeat case_match; eauto 10; done).
    exists (Handled (RockNotify (mkNotify 0) []) true). cbn. unfold go. eauto. }
  exists a. cbn. rewrite Hp, He. by eexists.
Qed.

Lemma no_work f W : (∀ i, (0 < f i)%nat → work i = true) → inv W → (∀ p, blocked W p) → weigh f (procs W) = 0%nat.
Proof.
  intros Hf Hi Hb. apply total_zero, Forall_lookup. intros p l Hl. apply total_zero.
  specialize (Hb p). unfold blocked in Hb. rewrite Hl in Hb. destruct l as [|i k]; [constructor|].
  pose proof (Forall_lookup_1 _ _ _ _ (i_work _ Hi) Hl) as Hw. cbn in Hw.
  assert (work i = false) as Hwi by by destruct i. rewrite Hwi in Hw.
  assert (∀ j, work j = false → f j = 0%nat) as Hz.
  { intros j Hj. destruct (decide (0 < f j)%nat) as [H%Hf|]; [congruence|lia]. }
  constructor; [by apply Hz|]. eapply Forall_impl; [done|]. done.
Qed.

(** C12: Nobody is forgotten.  A fiber of the stream that is neither suspended nor
    waiting for the peer always has a step; and when no fiber has one and no timer
    is left, no request is waiting any more - every one was woken and has
    returned - and a writer that is suspended has nothing left in the queue. *)
Theorem no_request_forgotten ls n b1 b2 b3 b4 W :
  run ls (init n b1 b2 b3 b4) = Some W → Z.of_nat (length ls) < 2 ^ 64 →
  (∀ p, ¬ blocked W p → ∃ a, is_Some (step (Go p a) W)) ∧
  (stuck W → (∀ p l c, procs W !! p = Some l → IHold (ForResponse c) ∉ l) ∧
     (∀ p, p ∈ m_waiters (m_sem (st W)) → m_queue (st W) = [])).
Proof.
  intros Hrun Hlen. pose proof (start_reachable _ _ _ _ _ _ _ Hrun) as HW. pose proof (r_inv _ _ HW) as Hi.
  split; [by intros p; apply progress|]. intros [Hb Ht].
  assert (∀ c, weigh (win c) (procs W) = 0 ∧ weigh (tries c) (procs W) = 0)%nat as Hnone.
  { intros c. split; apply no_work; try done; intros i; destruct i; cbn; try lia; done. }
  assert (∀ p i k, procs W !! p = Some (i :: k) → (∃ w, i = IHold w) ∨ i = IRecv) as Hhead.
  { intros p i k Hp. specialize (Hb p). unfold blocked in Hb. rewrite Hp in Hb. destruct i; try done; eauto. }
  assert (∀ p l c, procs W !! p = Some l → IHold (ForResponse c) ∉ l) as Hnohold.
  { intros p l c Hl Hin. pose proof (Forall_lookup_1 _ _ _ _ (i_calm _ Hi) Hl) as Hc.
    destruct l as [|i k]; [by apply elem_of_nil in Hin|].
    assert (i = IHold (ForResponse c)) as ->.
    { apply elem_of_cons in Hin as [?|Hin]; [done|exfalso].
      assert (calm i = false) as Hci by by destruct (Hhead p i k Hl) as [[w ->]| ->].
      cbn in Hc. rewrite Hci in Hc. rewrite Forall_forall in Hc. by apply Hc in Hin. }
    pose proof (hold_ready _ _ _ _ _ Hlen HW Hl) as Hr. specialize (Hb p). unfold blocked in Hb. rewrite Hl in Hb.
    pose proof (Forall_lookup_1 _ _ _ _ (i_ok _ Hi) Hl) as [[x Hx] _]%Forall_cons.
    destruct (Hnone c) as [Z1 Z2]. pose proof (i_one _ Hi c x Hx) as H1. rewrite Z1 in H1.
    assert (scheduler x = true) as Hs.
    { destruct (scheduler x) eqn:E; [done|]. exfalso. apply Hb, Hr, cnt_pos. unfold armed in H1. rewrite E in H1. cbn in H1. lia. }
    pose proof (i_tries _ Hi c x Hx Hs) as H2. rewrite Z2 in H2. destruct (total_pos (tries_timer c) (timers (st W))) as (t & cb & Hcb & Hpos); [lia|].
    destruct cb as [cb|]; [by apply Ht in Hcb|cbn in Hpos; lia]. }
  split; [done|]. intros p Hp. destruct (m_queue (st W)) as [|x xs] eqn:Eq; [done|exfalso].
    pose proof (r_queue _ _ HW Hlen) as Hq.
    destruct (q_queue _ _ Hq) as [Hc|[Hn|(q & l & Hl & Htk & Hnin)]]; [by rewrite Eq| | |].
    + destruct (q_some _ _ Hq) as [E|E]; [rewrite E in Hp; by apply elem_of_nil in Hp|lia].
    + rewrite no_work in Hn; [lia| |done|done]. intros i. destruct i; cbn; try lia; done.
    + destruct l as [|i k]; [cbn in Htk; lia|]. specialize (Hb q). unfold blocked in Hb. rewrite Hl in Hb.
      pose proof (Forall_lookup_1 _ _ _ _ (q_shape _ _ Hq) Hl) as Hsh. cbn in Hsh.
      assert (Forall (λ j, taking j = false) k → total takes k = 0%nat) as Hnt.
      { intros Hk. apply total_zero. eapply Forall_impl; [done|]. by intros []. }
      destruct (Hhead q i k Hl) as [[w ->]| ->]; [|cbn in Htk; rewrite Hnt in Htk; [lia|done]].
      pose proof (hold_ready _ _ _ _ _ Hlen HW Hl) as Hr. destruct w as [c| |].
      * eapply Hnohold; [done|by left].
      * by apply Hb, Hr.
      * cbn in Htk. rewrite Hnt in Htk; [lia|done].
Qed.


(** The run in which the request has got its answer, up to its return. *)
Definition got_response : list label :=
  started ++ requested 5 ++ gos 3 3 ++ [Go 3 Yes] ++ [Go 2 Yes; Go 2 (Received (RockResponse a_response []))] ++
  gos 2 8 ++ gos 0 2 ++ gos 3 3 ++ gos 2 1.
Definition got_response_world : world :=
  Eval vm_compute in from_option id (mkWorld (new_Stream true true true true) []) (run got_response (init 2 true false false false)).
Lemma got_response_run : run got_response (init 2 true false false false) = Some got_response_world.
Proof. vm_compute. reflexivity. Qed.
Lemma got_response_short : Z.of_nat (length got_response) < 2 ^ 64.
Proof. vm_compute. reflexivity. Qed.
Lemma got_response_stuck : stuck got_response_world.
Proof.
  split.
  - intros [|[|[|[|p]]]]; cbn; try exact I. intros Hin. by apply elem_of_nil in Hin.
  - intros [|t] cb; discriminate.
Qed.
Lemma no_request_forgotten_witness :
  stuck got_response_world ∧ m_waiters (m_sem (st got_response_world)) = [3%nat] ∧ m_queue (st got_response_world) = [].
Proof.
  pose proof (no_request_forgotten got_response 2 true false false false got_response_world got_response_run got_response_short) as [_ H].
  refine (conj got_response_stuck (conj eq_refl (proj2 (H got_response_stuck) 3%nat _))).
  by left.
Defined.

(** C13: What a request is told is about it: a response it was given carries its
    sequence number, and a request that was woken has a reason - its result says
    time-out or end of the connection, or it has a response - except while the
    reader is between storing the result and storing the response (in that window
    a time-out can resume it with a result that says success and no response). *)
Theorem request_result_exact ls n b1 b2 b3 b4 W c x :
  run ls (init n b1 b2 b3 b4) = Some W → ctxs (st W) !! c = Some x →
  (∀ r, response x = Some r → res_sn r = sn x) ∧
  (c ∈ wakes (st W) → result x = TIMEOUT ∨ result x = IO_ERROR ∨ response x ≠ None ∨
     ∃ p l r, procs W !! p = Some l ∧ ISetResponse c r ∈ l).
Proof.
  intros Hrun Hx. pose proof (start_reachable _ _ _ _ _ _ _ Hrun) as HW. split.
  - apply (i_ctx _ (r_inv _ _ HW) c x Hx).
  - intros Hc. destruct (proj2 (r_reasons _ _ HW c x Hx)) as [?|[?|[?|Hp]]]; [by left|by left|by right; left|by right; right; left|].
    right; right; right. destruct (total_pos _ _ Hp) as (p & l & Hl & Hpos).
    destruct (total_pos _ _ Hpos) as (q & i & Hi & Hset). destruct (setting_only _ _ Hset) as [r ->].
    exists p, l, r. split; [done|]. by eapply list_elem_of_lookup_2.
Qed.
Lemma request_result_exact_witness :
  ∃ x, ctxs (st timed_out_world) !! 0%nat = Some x ∧ result x = TIMEOUT ∧ ∀ r, response x = Some r → res_sn r = sn x.
Proof.
  eexists. split; [reflexivity|]. split; [reflexivity|].
  exact (proj1 (request_result_exact timed_out 2 true false false false timed_out_world 0 _ timed_out_run eq_refl)).
Defined.
