(* ===== verification/WebSocket.v ===== *)
(** * WebSocket messages (http/ws_session.cc)

    A message is sent as one or more frames over a stream; the receiver joins the
    frames, answers pings and drops whatever breaks the rules.  The stream is the
    socket interface of [Stream], with the call that closes it. *)
From S2P Require Import Prelude ByteArray ByteArraySpec ByteArrayCodec ByteArrayBulk ByteArrayThms Stream.

(** ** Data *)
Definition CONTINUE : Z := 0.
Definition TEXT_FRAME : Z := 1.
Definition BIN_FRAME : Z := 2.
Definition CLOSE : Z := 8.
Definition PING : Z := 9.
Definition PONG : Z := 10.

(** The two bytes of [WSFrameHead], whose bit-fields start at the low bit. *)
Record WSFrameHead := mkWSFrameHead {
  opcode : Z; rsv3 : bool; rsv2 : bool; rsv1 : bool; fin : bool; payload : Z; mask : bool }.
Definition ws_head_bytes (h : WSFrameHead) : list Z :=
  [opcode h + 16 * Z.b2z (rsv3 h) + 32 * Z.b2z (rsv2 h) + 64 * Z.b2z (rsv1 h) + 128 * Z.b2z (fin h);
   payload h + 128 * Z.b2z (mask h)].
Definition ws_head_of_bytes (bs : list Z) : WSFrameHead :=
  let b0 := nth 0 bs 0 in let b1 := nth 1 bs 0 in
  mkWSFrameHead (Z.land b0 15) (Z.testbit b0 4) (Z.testbit b0 5) (Z.testbit b0 6) (Z.testbit b0 7)
    (Z.land b1 127) (Z.testbit b1 7).

Record WSFrameMessage := mkWSFrameMessage { m_opcode : Z; m_data : list Z }.

(** [data[i] ^= mask[i % 4]] for every [i]. *)
Definition xor_mask (key bs : list Z) : list Z := imap (λ i b, Z.lxor b (nth (i mod 4) key 0)) bs.

(** ** Sending and receiving *)
Class Closing (S : Type) := close : S → S.

Section ws.
Context {Sk : Type} `{Socket Sk, Closing Sk}.

(** A transfer that leaves the loop when it did not come through. *)
Definition rd (n : Z) : M Sk (option (list Z)) :=
  let! r := readFixSize n in ret (if r.1 <=? 0 then None else Some (r.2)).
Definition wr (bs : list Z) : M Sk (option unit) :=
  let! rt := writeFixSize bs in ret (if rt <=? 0 then None else Some tt).
Definition or_break {A B} (m : M Sk (option A)) (k : A → M Sk (option B)) : M Sk (option B) :=
  let! o := m in match o with Some a => k a | None => ret None end.
Notation "'let?' x ':=' m 'in' k" := (or_break m (λ x, k)) (at level 10, x name, m at level 100, k at level 200).

Definition control_head (op : Z) : WSFrameHead := mkWSFrameHead op false false false true 0 false.
Definition send_control (op : Z) : M Sk Z :=
  let! v := writeFixSize (ws_head_bytes (control_head op)) in
  (if v <=? 0 then modst close else ret tt) ;;! ret v.
Definition WSPing : M Sk Z := send_control PING.
Definition WSPong : M Sk Z := send_control PONG.

(** The length that the head announces, from the bytes that follow it. *)
Definition frame_length (h : WSFrameHead) : M Sk (option Z) :=
  if payload h =? 126 then let? bs := rd 2 in ret (Some (bswap 2 (le_val bs)))
  else if payload h =? 127 then let? bs := rd 8 in ret (Some (bswap 8 (le_val bs)))
  else ret (Some (payload h)).

(** The bytes of one frame are added to [data]: [resize], the read into
    [&data[cur_len]] and the unmasking.  An index past the end of the string has
    no defined behaviour. *)
Definition append_frame (h : WSFrameHead) (length cur_len : Z) (data : list Z) : M Sk (option (list Z)) :=
  let? key := if mask h then rd 4 else ret (Some [0; 0; 0; 0]) in
  let size := u64 (cur_len + length) in
  if size <? u64 cur_len then undef OutOfBounds else
  let data := resize (Z.to_nat size) 0 data in
  let? bs := rd length in
  ret (Some (splice (Z.to_nat cur_len) (if mask h then xor_mask key bs else bs) data)).

Definition is_data (op : Z) : bool := (op =? CONTINUE) || (op =? TEXT_FRAME) || (op =? BIN_FRAME).

(** The loop of [WSRecvMessage]; [max] is the configured size. *)
Fixpoint recv_loop (fuel : nat) (max : Z) (client : bool) (op cur_len : Z) (data : list Z)
    : M Sk (option WSFrameMessage) :=
  match fuel with
  | O => lift Fuel
  | S fuel =>
    let? hb := rd 2 in
    let h := ws_head_of_bytes hb in
    if opcode h =? PING then
      let! rt := WSPong in
      if rt <=? 0 then ret None else recv_loop fuel max client op cur_len data
    else if opcode h =? PONG then recv_loop fuel max client op cur_len data
    else if is_data (opcode h) then
      if negb client && negb (mask h) then ret None else
      let? length := frame_length h in
      if max <=? u64 (cur_len + length) then ret None else
      let? data := append_frame h length cur_len data in
      let cur_len := i32 (cur_len + length) in
      let op := if (op =? 0) && negb (opcode h =? CONTINUE) then opcode h else op in
      if fin h then ret (Some (mkWSFrameMessage op data)) else recv_loop fuel max client op cur_len data
    else recv_loop fuel max client op cur_len data
  end.
Definition WSRecvMessage (fuel : nat) (max : Z) (client : bool) : M Sk (option WSFrameMessage) :=
  let! r := recv_loop fuel max client 0 0 [] in
  match r with
  | Some m => ret (Some m)
  | None => modst close ;;! ret None
  end.

(** The message is an object of the caller: with [client] its data is masked in
    place.  The message after the call is part of the result. *)
Definition data_head (msg : WSFrameMessage) (client fin : bool) : WSFrameHead :=
  let size := Z.of_nat (length (m_data msg)) in
  mkWSFrameHead (wrap 4 (m_opcode msg)) false false false fin
    (if size <? 126 then size else if size <? 65536 then 126 else 127) client.
Definition extended_length (h : WSFrameHead) (size : Z) : list Z :=
  if payload h =? 126 then le_bytes 2 (bswap 2 size)
  else if payload h =? 127 then le_bytes 8 (bswap 8 size) else [].
Definition send_frame (rand_value : Z) (msg : WSFrameMessage) (client fin : bool)
    : M Sk (option Z * WSFrameMessage) :=
  let h := data_head msg client fin in
  let size := Z.of_nat (length (m_data msg)) in
  let! ok := wr (ws_head_bytes h) in
  if negb (bool_decide (is_Some ok)) then ret (None, msg) else
  let! ok := if 126 <=? payload h then wr (extended_length h size) else ret (Some tt) in
  if negb (bool_decide (is_Some ok)) then ret (None, msg) else
  let key := le_bytes 4 rand_value in
  let msg := if client then mkWSFrameMessage (m_opcode msg) (xor_mask key (m_data msg)) else msg in
  let! ok := if client then wr key else ret (Some tt) in
  if negb (bool_decide (is_Some ok)) then ret (None, msg) else
  let! ok := wr (m_data msg) in
  ret ((λ _, i32 (size + 2)) <$> ok, msg).
Definition WSSendMessage (rand_value : Z) (msg : WSFrameMessage) (client fin : bool) : M Sk (Z * WSFrameMessage) :=
  let! r := send_frame rand_value msg client fin in
  match r.1 with
  | Some v => ret (v, r.2)
  | None => modst close ;;! ret (-1, r.2)
  end.
End ws.

(** ** A stream for examples: a pipe that can be closed, and that fails at the
    end of its input *)
Record wire := mkWire { wire_in : list Z; wire_out : list Z; wire_open : bool; wire_max : nat }.
#[export] Instance wire_socket : Socket wire := {
  isConnected := wire_open;
  recv n s :=
    let k := Nat.min (Z.to_nat n) (Nat.min (length (wire_in s)) (1 + wire_max s)) in
    ((Z.of_nat k, take k (wire_in s)), mkWire (drop k (wire_in s)) (wire_out s) (wire_open s) (wire_max s));
  send bs s :=
    let k := Nat.min (length bs) (1 + wire_max s) in
    (Z.of_nat k, mkWire (wire_in s) (wire_out s ++ take k bs) (wire_open s) (wire_max s))
}.
#[export] Instance wire_closing : Closing wire := λ s, mkWire (wire_in s) (wire_out s) false (wire_max s).

Definition fresh_wire (bs : list Z) : wire := mkWire bs [] true 2.
Definition hello : WSFrameMessage := mkWSFrameMessage TEXT_FRAME (bytes_of_string "hello").
Definition max_size : Z := 1024 * 1024 * 32.

(** A server's message in two frames with a ping between them. *)
Definition two_frames : list Z :=
  ws_head_bytes (mkWSFrameHead 1 false false false false 2 false) ++ [104; 105] ++
  ws_head_bytes (control_head PING) ++
  ws_head_bytes (mkWSFrameHead 0 false false false true 1 false) ++ [33].
Example receive_two_frames :
  WSRecvMessage 9 max_size true (fresh_wire two_frames) =
  (Ok (Some (mkWSFrameMessage 1 [104; 105; 33])), mkWire [] (ws_head_bytes (control_head PONG)) true 2).
Proof. reflexivity. Qed.

(** An empty message: the head goes out, then the call fails and closes the stream. *)
Example send_empty_fails :
  WSSendMessage 7 (mkWSFrameMessage 1 []) false true (fresh_wire []) =
  (Ok (-1, mkWSFrameMessage 1 []), mkWire [] [129; 0] false 2).
Proof. reflexivity. Qed.
(** Nor can one be received. *)
Example receive_empty_closes :
  (WSRecvMessage 9 max_size true (fresh_wire [129; 0])).1 = Ok None.
Proof. reflexivity. Qed.

(** A ping of a browser is masked and may carry data (three bytes here): only its head is taken, and
    the rest is read as frames; here as a message. *)
Example ping_payload_is_read_as_frame :
  (WSRecvMessage 9 max_size false (fresh_wire ([137; 131] ++ [129; 129; 0; 0] ++ [0; 0; 65]))).1 =
  Ok (Some (mkWSFrameMessage 1 [65])).
Proof. reflexivity. Qed.

(** A client's message is masked in place: sent again, it arrives garbled. *)
Example sent_twice_garbled :
  let r := WSSendMessage 1 hello true true (fresh_wire []) in
  match r with
  | (Ok (_, msg), w) =>
    msg ≠ hello ∧
    match WSSendMessage 0 msg true true (mkWire [] [] true 2) with
    | (Ok _, w) => (WSRecvMessage 9 max_size false (fresh_wire (wire_out w))).1 = Ok (Some msg)
    | _ => False
    end
  | _ => False
  end.
Proof. split; [discriminate|reflexivity]. Qed.

(** The sum of the size so far and an announced length may wrap, and then passes
    the check of the size. *)
Example length_wraps :
  (WSRecvMessage 9 max_size true (fresh_wire ([1; 5; 1; 2; 3; 4; 5] ++ [0; 127] ++ le_bytes 8 (bswap 8 (2 ^ 64 - 3))))).1 =
  Undef OutOfBounds.
Proof. vm_compute. reflexivity. Qed.
