(* ===== verification/WebSocketThms.v ===== *)
(** * WebSocket messages: the properties *)
From S2P Require Import Prelude ByteArray ByteArraySpec ByteArrayCodec ByteArrayBulk ByteArrayThms Stream WebSocket.

(** What the stream does at the end of its input, and after it is closed. *)
Class ClosingLaws (S : Type) `{SocketLaws S, Closing S} := {
  recv_end n s : isConnected s = true → 0 < n → incoming s = [] →
    ∃ c s', recv n s = ((c, []), s') ∧ - 2 ^ 31 ≤ c ≤ 0 ∧ outgoing s' = outgoing s;
  close_closed s : isConnected (close s) = false;
  close_outgoing s : outgoing (close s) = outgoing s
}.
#[export] Instance wire_laws : SocketLaws wire.
Proof.
  refine {| incoming := wire_in; outgoing := wire_out |}.
  - intros n s Hc Hn Hin. do 2 eexists. split; [reflexivity|].
    assert (0 < length (wire_in s))%nat by (destruct (wire_in s); [done|cbn; lia]).
    cbn [wire_in wire_out]. split_and!; try done; lia.
  - intros bs s Hc Hbs. do 2 eexists. split; [reflexivity|].
    assert (0 < length bs)%nat by (destruct bs; [done|cbn; lia]).
    cbn [wire_in wire_out]. split_and!; try done; lia.
Defined.
#[export] Instance wire_closing_laws : ClosingLaws wire.
Proof.
  split; [|done..]. intros n [inc out op mx] _ _. cbn. intros ->. do 2 eexists. split; [by rewrite Nat.min_0_r|]. cbn. split; [lia|done].
Qed.

(** ** Heads and masks *)
Lemma ws_head_roundtrip h :
  0 ≤ opcode h < 16 → 0 ≤ payload h < 128 → ws_head_of_bytes (ws_head_bytes h) = h.
Proof.
  destruct h as [op r3 r2 r1 f p m]. unfold ws_head_of_bytes, ws_head_bytes. cbn [opcode rsv3 rsv2 rsv1 fin payload mask nth].
  intros Ho Hp. change 15 with (Z.ones 4). change 127 with (Z.ones 7). rewrite !Z.land_ones by lia.
  assert (∀ z b k, 0 ≤ k → (z / 2 ^ k) mod 2 = Z.b2z b → Z.testbit z k = b) as Hb.
  { intros z b k Hk E. destruct b; [by apply Z.testbit_true|by apply Z.testbit_false]. }
  f_equal; try (apply Hb; [lia|]); destruct r3, r2, r1, f, m; cbn [Z.b2z]; Z.div_mod_to_equations; lia.
Qed.
Lemma ws_head_range bs : 0 ≤ opcode (ws_head_of_bytes bs) < 16 ∧ 0 ≤ payload (ws_head_of_bytes bs) < 128.
Proof.
  unfold ws_head_of_bytes. cbn [opcode payload]. change 15 with (Z.ones 4). change 127 with (Z.ones 7).
  rewrite !Z.land_ones by lia. split; apply Z.mod_pos_bound; lia.
Qed.
Lemma xor_mask_length key bs : length (xor_mask key bs) = length bs.
Proof. apply length_imap. Qed.
Lemma xor_mask_involutive key bs : xor_mask key (xor_mask key bs) = bs.
Proof.
  unfold xor_mask. apply list_eq. intros i. rewrite !list_lookup_imap. destruct (bs !! i); cbn; [|done].
  by rewrite Z.lxor_assoc, Z.lxor_nilpotent, Z.lxor_0_r.
Qed.

(** ** Transfers *)
Section laws.
Context {Sk : Type} `{Sock : Socket Sk, SLaws : !SocketLaws Sk, Cl : Closing Sk, Laws : !ClosingLaws Sk}.
#[local] Set Default Proof Using "All".
Implicit Types s r : Sk.

Lemma or_break_ok {A B} (m : M Sk (option A)) (k : A → M Sk (option B)) s a s' :
  m s = (Ok (Some a), s') → or_break m k s = k a s'.
Proof. unfold or_break, bind. by intros ->. Qed.
Lemma or_break_none {A B} (m : M Sk (option A)) (k : A → M Sk (option B)) s s' :
  m s = (Ok None, s') → or_break m k s = (Ok None, s').
Proof. unfold or_break, bind. by intros ->. Qed.

Lemma rd_ok n s : isConnected s = true → (0 < n ≤ length (incoming s))%nat → Z.of_nat n < 2 ^ 31 →
  ∃ s', rd (Z.of_nat n) s = (Ok (Some (take n (incoming s))), s') ∧
    incoming s' = drop n (incoming s) ∧ outgoing s' = outgoing s ∧ isConnected s' = true.
Proof.
  intros Hc Hn Hb. destruct (readFixSize_ok n s Hc) as (s' & E & ?); [lia|done|].
  exists s'. split; [|done]. unfold rd, bind. rewrite E. cbn. by destruct (Z.leb_spec (Z.of_nat n) 0); [lia|].
Qed.
Lemma readFixSize_short fuel : ∀ len n s,
  isConnected s = true → (length (incoming s) < n ≤ fuel)%nat →
  ∃ c bs s', readFixSize_loop fuel len (Z.of_nat n) s = (Ok (c, bs), s') ∧ c ≤ 0 ∧ outgoing s' = outgoing s.
Proof.
  induction fuel as [|fuel IH]; intros len n s Hc Hn; [lia|]. cbn [readFixSize_loop].
  destruct (Z.leb_spec (Z.of_nat n) 0); [lia|]. unfold read_buf. rewrite Hc.
  destruct (decide (incoming s = [])) as [E|E].
  - destruct (recv_end (Z.of_nat n) s Hc) as (c & s' & -> & Hcc & Ho); [lia|done|].
    destruct (Z.leb_spec c 0); [|lia]. do 3 eexists. split; [done|]. split; [|exact Ho].
    rewrite <- (to_signed_wrap 32 c); [|lia|unfold is_sint; lia].
    assert (to_signed 32 (u32 c) = c) as E2 by (apply to_signed_wrap; [lia|unfold is_sint; lia]).
    rewrite E2. pose proof (wrap_to_signed 32 c). unfold to_signed in E2 |- *. rewrite wrap_wrap in E2 by lia. rewrite E2. lia.
  - destruct (recv_some (Z.of_nat n) s Hc) as (k & s1 & -> & Hk & Hkn & Hin & Hout & Hc1); [lia|done|].
    destruct (Z.leb_spec (Z.of_nat k) 0); [lia|].
    replace (Z.of_nat n - Z.of_nat k) with (Z.of_nat (n - k)) by lia.
    destruct (IH len (n - k)%nat s1 Hc1) as (c & bs & s2 & -> & Hcc & Ho); [rewrite Hin, length_drop; lia|].
    do 3 eexists. split; [done|]. split; [done|congruence].
Qed.
(** Every read comes through, or reports that it did not. *)
Lemma rd_cases n s : isConnected s = true → 0 ≤ n < 2 ^ 31 →
  (∃ s', rd n s = (Ok None, s')) ∨
  (∃ s', rd n s = (Ok (Some (take (Z.to_nat n) (incoming s))), s') ∧ 0 < n ≤ Z.of_nat (length (incoming s)) ∧
     incoming s' = drop (Z.to_nat n) (incoming s) ∧ isConnected s' = true).
Proof.
  intros Hc Hn. destruct (decide (n = 0)) as [->|].
  { left. exists s. done. }
  destruct (decide (n ≤ Z.of_nat (length (incoming s)))).
  - right. destruct (rd_ok (Z.to_nat n) s Hc) as (s' & E & Hin & _ & Hc'); [lia|lia|].
    rewrite Z2Nat.id in E by lia. exists s'. split_and!; done || lia.
  - left. destruct (readFixSize_short (Z.to_nat n) n (Z.to_nat n) s Hc) as (c & bs & s' & E & Hcc & _); [lia|].
    exists s'. unfold rd, bind, readFixSize. rewrite i64_small by lia. rewrite Z2Nat.id in E by lia. rewrite E. cbn.
    by destruct (Z.leb_spec c 0); [|lia].
Qed.
Lemma wr_ok bs s : isConnected s = true → bs ≠ [] → Z.of_nat (length bs) < 2 ^ 31 →
  ∃ s', wr bs s = (Ok (Some tt), s') ∧
    incoming s' = incoming s ∧ outgoing s' = outgoing s ++ bs ∧ isConnected s' = true.
Proof.
  intros Hc Hne Hb. destruct (writeFixSize_ok bs s Hc Hb) as (s' & E & ?). exists s'. split; [|done].
  unfold wr, bind. rewrite E. cbn. destruct (Z.leb_spec (Z.of_nat (length bs)) 0); [destruct bs; [done|cbn in *; lia]|done].
Qed.
Lemma control_ok op s : isConnected s = true →
  ∃ s', send_control op s = (Ok 2, s') ∧
    incoming s' = incoming s ∧ outgoing s' = outgoing s ++ ws_head_bytes (control_head op) ∧ isConnected s' = true.
Proof.
  intros Hc. destruct (writeFixSize_ok (ws_head_bytes (control_head op)) s Hc) as (s' & E & ?); [cbn; lia|].
  exists s'. split; [|done]. unfold send_control, bind at 1. rewrite E. done.
Qed.

(** ** One data frame *)
Definition data_bytes (client : bool) (rand_value : Z) (m : WSFrameMessage) (f : bool) : list Z :=
  let h := data_head m client f in let key := le_bytes 4 rand_value in
  ws_head_bytes h ++ extended_length h (Z.of_nat (length (m_data m))) ++
  (if client then key ++ xor_mask key (m_data m) else m_data m).
Definition data_ok (m : WSFrameMessage) : Prop :=
  is_data (m_opcode m) = true ∧ m_data m ≠ [] ∧ Z.of_nat (length (m_data m)) < 2 ^ 31 - 2.
Definition next_opcode (op o : Z) : Z := if (op =? 0) && negb (o =? CONTINUE) then o else op.

Definition sent_message (client : bool) (rnd : Z) (m : WSFrameMessage) : WSFrameMessage :=
  if client then mkWSFrameMessage (m_opcode m) (xor_mask (le_bytes 4 rnd) (m_data m)) else m.
Lemma sent_length client rnd m : length (m_data (sent_message client rnd m)) = length (m_data m).
Proof. destruct client; [apply xor_mask_length|done]. Qed.

Lemma wr_if (b : bool) bs s : isConnected s = true → (b = true → bs ≠ []) → (b = false → bs = []) → Z.of_nat (length bs) < 2 ^ 31 →
  ∃ s', (if b then wr bs else ret (Some tt)) s = (Ok (Some tt), s') ∧
    incoming s' = incoming s ∧ outgoing s' = outgoing s ++ bs ∧ isConnected s' = true.
Proof.
  intros Hc H1 H2 Hlen. destruct b; [apply wr_ok; auto|]. exists s. rewrite (H2 eq_refl), app_nil_r. done.
Qed.
Lemma extended_length_bounds m client f : Z.of_nat (length (m_data m)) < 2 ^ 31 →
  let h := data_head m client f in let e := extended_length h (Z.of_nat (length (m_data m))) in
  ((126 <=? payload h) = true → e ≠ []) ∧ ((126 <=? payload h) = false → e = []) ∧ Z.of_nat (length e) < 2 ^ 31.
Proof.
  intros Hlen. cbn zeta. unfold extended_length, data_head. cbn [payload].
  split_and!; repeat case_match; try done; cbn; lia.
Qed.

Lemma send_data_ok client rnd m f s : isConnected s = true → data_ok m →
  ∃ s', WSSendMessage rnd m client f s = (Ok (Z.of_nat (length (m_data m)) + 2, sent_message client rnd m), s') ∧
    incoming s' = incoming s ∧ outgoing s' = outgoing s ++ data_bytes client rnd m f ∧ isConnected s' = true.
Proof.
  intros Hc (_ & Hne & Hlen). unfold WSSendMessage, send_frame, data_bytes.
  destruct (extended_length_bounds m client f) as (X1 & X2 & X3); [lia|]. cbn zeta in *. set (h := data_head m client f) in *.
  set (n := Z.of_nat (length (m_data m))) in *. fold (sent_message client rnd m). pose proof (sent_length client rnd m) as Hl.
  set (m' := sent_message client rnd m) in *.
  destruct (wr_ok (ws_head_bytes h) s Hc) as (s1 & E1 & Hi1 & Ho1 & Hc1); [done|cbn; lia|].
  destruct (wr_if (126 <=? payload h) (extended_length h n) s1) as (s2 & E2 & Hi2 & Ho2 & Hc2); try done.
  destruct (wr_if client (if client then le_bytes 4 rnd else []) s2) as (s3 & E3 & Hi3 & Ho3 & Hc3); try done;
    [by intros ->|by intros ->|destruct client; cbn; lia|].
  destruct (wr_ok (m_data m') s3 Hc3) as (s4 & E4 & Hi4 & Ho4 & Hc4); [by intros E; rewrite E in Hl; destruct (m_data m)|lia|].
  exists s4. split; [|split; [congruence|split; [|done]]].
  - rewrite (bind_ok _ _ _ (Some (n + 2), m') s4); [reflexivity|].
    erewrite bind_ok by exact E1. cbn [negb]. rewrite bool_decide_true by eauto. cbn [negb].
    erewrite bind_ok by exact E2. rewrite bool_decide_true by eauto. cbn [negb].
    erewrite bind_ok by (destruct client; exact E3). rewrite bool_decide_true by eauto. cbn [negb].
    erewrite bind_ok by exact E4. unfold ret. cbn. rewrite i32_small by lia. done.
  - rewrite Ho4, Ho3, Ho2, Ho1. subst m'. unfold sent_message. destruct client; by rewrite <- ?app_assoc, ?app_nil_r.
Qed.

Lemma rd_front bs rest s : isConnected s = true → bs ≠ [] → Z.of_nat (length bs) < 2 ^ 31 → incoming s = bs ++ rest →
  ∃ s', rd (Z.of_nat (length bs)) s = (Ok (Some bs), s') ∧ incoming s' = rest ∧ outgoing s' = outgoing s ∧ isConnected s' = true.
Proof.
  intros Hc Hne Hb Hin. destruct (rd_ok (length bs) s Hc) as (s' & E & Hi & Ho & Hc').
  - rewrite Hin, length_app. destruct bs; [done|cbn; lia].
  - done.
  - exists s'. rewrite E, Hi, Ho, Hin, take_app_length, drop_app_length. done.
Qed.

Lemma frame_length_ok m client f rest r :
  Z.of_nat (length (m_data m)) < 2 ^ 31 → isConnected r = true →
  incoming r = extended_length (data_head m client f) (Z.of_nat (length (m_data m))) ++ rest →
  ∃ r', frame_length (data_head m client f) r = (Ok (Some (Z.of_nat (length (m_data m)))), r') ∧
    incoming r' = rest ∧ outgoing r' = outgoing r ∧ isConnected r' = true.
Proof.
  intros Hlen Hc. set (n := Z.of_nat (length (m_data m))) in *. unfold frame_length, extended_length.
  assert (∀ k, 0 ≤ n < 2 ^ (8 * Z.of_nat k) → bswap k (le_val (le_bytes k (bswap k n))) = n) as Hb.
  { intros k Hk. rewrite le_val_bytes, (wrap_small _ (bswap k n)) by apply bswap_bound.
    rewrite bswap_involutive. by apply wrap_small. }
  destruct (Z.eqb_spec (payload (data_head m client f)) 126) as [E|E];
    [|destruct (Z.eqb_spec (payload (data_head m client f)) 127) as [E2|E2]]; intros Hin.
  - destruct (rd_front (le_bytes 2 (bswap 2 n)) rest r Hc ltac:(done) ltac:(cbn; lia) Hin) as (r' & Er & ?).
    exists r'. split; [|done]. rewrite (or_break_ok _ _ _ _ _ Er). unfold ret. rewrite Hb; [done|].
    unfold data_head in E. cbn in E. repeat case_match; lia.
  - destruct (rd_front (le_bytes 8 (bswap 8 n)) rest r Hc ltac:(done) ltac:(cbn; lia) Hin) as (r' & Er & ?).
    exists r'. split; [|done]. rewrite (or_break_ok _ _ _ _ _ Er). unfold ret. rewrite Hb; [done|lia].
  - exists r. split; [|done]. unfold ret. do 3 f_equal.
    unfold data_head in *. cbn in E, E2 |- *. repeat case_match; lia.
Qed.

Lemma append_data (data bs : list Z) (n : nat) :
  n = (length data + length bs)%nat → splice (length data) bs (resize n 0 data) = data ++ bs.
Proof.
  intros ->. unfold splice. rewrite drop_ge by (rewrite length_resize; lia). rewrite app_nil_r.
  rewrite resize_ge by lia. by rewrite take_app_length.
Qed.

Lemma append_frame_ok (client : bool) rnd m f data rest r :
  isConnected r = true → data_ok m → Z.of_nat (length data + length (m_data m)) < 2 ^ 31 →
  incoming r = (if client then le_bytes 4 rnd ++ xor_mask (le_bytes 4 rnd) (m_data m) else m_data m) ++ rest →
  ∃ r', append_frame (data_head m client f) (Z.of_nat (length (m_data m))) (Z.of_nat (length data)) data r =
      (Ok (Some (data ++ m_data m)), r') ∧
    incoming r' = rest ∧ outgoing r' = outgoing r ∧ isConnected r' = true.
Proof.
  intros Hc (_ & Hne & Hlen) Hsz Hin. unfold append_frame. cbn [mask data_head].
  assert (∃ r1 key, (if client then rd 4 else ret (Some [0; 0; 0; 0])) r = (Ok (Some key), r1) ∧
    (client = true → key = le_bytes 4 rnd) ∧
    incoming r1 = m_data (sent_message client rnd m) ++ rest ∧ outgoing r1 = outgoing r ∧ isConnected r1 = true)
    as (r1 & key & E1 & Hk & Hi1 & Ho1 & Hc1).
  { destruct client; [|by eexists _, _]. rewrite <- app_assoc in Hin.
    destruct (rd_front (le_bytes 4 rnd) _ r Hc ltac:(done) ltac:(cbn; lia) Hin) as (r1 & E1 & ?). by exists r1, (le_bytes 4 rnd). }
  rewrite (or_break_ok _ _ _ _ _ E1). rewrite !wrap_small by lia.
  destruct (Z.ltb_spec (Z.of_nat (length data) + Z.of_nat (length (m_data m))) (Z.of_nat (length data))); [lia|].
  pose proof (sent_length client rnd m) as Hl.
  assert (m_data (sent_message client rnd m) ≠ []) as Hne' by (intros E; rewrite E in Hl; by destruct (m_data m)).
  destruct (rd_front _ rest r1 Hc1 Hne' ltac:(lia) Hi1) as (r2 & E2 & Hi2 & Ho2 & Hc2). rewrite Hl in E2.
  rewrite (or_break_ok _ _ _ _ _ E2). exists r2. split; [|split_and!; congruence].
  unfold ret. rewrite Nat2Z.id. do 3 f_equal.
  assert ((if client then xor_mask key (m_data (sent_message client rnd m)) else m_data (sent_message client rnd m)) = m_data m) as ->.
  { destruct client; [|done]. rewrite Hk by done. apply xor_mask_involutive. }
  apply append_data. lia.
Qed.

Lemma data_opcode m : is_data (m_opcode m) = true →
  wrap 4 (m_opcode m) = m_opcode m ∧ (m_opcode m =? PING) = false ∧ (m_opcode m =? PONG) = false.
Proof.
  unfold is_data. intros H. assert (m_opcode m = CONTINUE ∨ m_opcode m = TEXT_FRAME ∨ m_opcode m = BIN_FRAME) as Ho.
  { destruct (Z.eqb_spec (m_opcode m) CONTINUE); [by left|]. destruct (Z.eqb_spec (m_opcode m) TEXT_FRAME); [by right; left|].
    destruct (Z.eqb_spec (m_opcode m) BIN_FRAME); [by right; right|done]. }
  destruct Ho as [->|[->| ->]]; done.
Qed.
Lemma data_head_range m client f : Z.of_nat (length (m_data m)) < 2 ^ 31 →
  0 ≤ opcode (data_head m client f) < 16 ∧ 0 ≤ payload (data_head m client f) < 128.
Proof.
  intros H. unfold data_head. cbn [opcode payload]. split; [apply (wrap_bound 4); lia|]. repeat case_match; lia.
Qed.

(** The receiver takes one data frame. *)
Lemma recv_data_ok fuel max client rnd m f op data rest r :
  isConnected r = true → data_ok m → Z.of_nat (length data + length (m_data m)) < max → max ≤ 2 ^ 31 →
  incoming r = data_bytes client rnd m f ++ rest →
  ∃ r', recv_loop (S fuel) max (negb client) op (Z.of_nat (length data)) data r =
      (if f then (Ok (Some (mkWSFrameMessage (next_opcode op (m_opcode m)) (data ++ m_data m))), r')
       else recv_loop fuel max (negb client) (next_opcode op (m_opcode m)) (Z.of_nat (length (data ++ m_data m))) (data ++ m_data m) r') ∧
    incoming r' = rest ∧ outgoing r' = outgoing r ∧ isConnected r' = true.
Proof.
  intros Hc Hm Hmax Hmax2 Hin. pose proof Hm as (Hd & Hne & Hlen). destruct (data_opcode m Hd) as (Hw & Hpi & Hpo).
  unfold data_bytes in Hin. cbn zeta in Hin. rewrite <- !app_assoc in Hin.
  destruct (rd_front (ws_head_bytes (data_head m client f)) _ r Hc ltac:(done) ltac:(cbn; lia) Hin) as (r1 & E1 & Hi1 & Ho1 & Hc1).
  destruct (frame_length_ok m client f _ r1 ltac:(lia) Hc1 Hi1) as (r2 & E2 & Hi2 & Ho2 & Hc2).
  destruct (append_frame_ok client rnd m f data rest r2 Hc2 Hm ltac:(lia) Hi2) as (r3 & E3 & Hi3 & Ho3 & Hc3).
  exists r3. split; [|split_and!; congruence].
  cbn [recv_loop]. rewrite (or_break_ok _ _ _ _ _ E1), ws_head_roundtrip by (apply data_head_range; lia).
  change (opcode (data_head m client f)) with (wrap 4 (m_opcode m)). rewrite Hw, Hpi, Hpo, Hd.
  change (mask (data_head m client f)) with client. rewrite (andb_negb_l (negb client)).
  rewrite (or_break_ok _ _ _ _ _ E2). rewrite wrap_small by lia. destruct (Z.leb_spec max (Z.of_nat (length data) + Z.of_nat (length (m_data m)))); [lia|].
  rewrite (or_break_ok _ _ _ _ _ E3). change (fin (data_head m client f)) with f.
  rewrite i32_small by lia. rewrite length_app, Nat2Z.inj_add. by destruct f.
Qed.

(** ** A conversation *)
Inductive sent := SPing | SPong | SData (rand_value : Z) (m : WSFrameMessage) (f : bool).
Definition send_one (client : bool) (x : sent) : M Sk Z :=
  match x with
  | SPing => WSPing
  | SPong => WSPong
  | SData rnd m f => let! r := WSSendMessage rnd m client f in ret (r.1)
  end.
Fixpoint send_all (client : bool) (l : list sent) : M Sk bool :=
  match l with
  | [] => ret true
  | x :: l => let! v := send_one client x in if v <=? 0 then ret false else send_all client l
  end.

(** What goes over the wire, what the receiver makes of it and what it answers. *)
Definition bytes_of (client : bool) (x : sent) : list Z :=
  match x with
  | SPing => ws_head_bytes (control_head PING)
  | SPong => ws_head_bytes (control_head PONG)
  | SData rnd m f => data_bytes client rnd m f
  end.
Definition sent_data (x : sent) : list Z := if x is SData _ m _ then m_data m else [].
Definition sent_opcode (op : Z) (x : sent) : Z := if x is SData _ m _ then next_opcode op (m_opcode m) else op.
Definition reply (x : sent) : list Z := if x is SPing then ws_head_bytes (control_head PONG) else [].
(** A frame that is not the last of a message. *)
Definition middle (x : sent) : Prop := if x is SData _ m f then data_ok m ∧ f = false else True.

Lemma send_one_ok client x s : isConnected s = true → (if x is SData _ m _ then data_ok m else True) →
  ∃ v s', send_one client x s = (Ok v, s') ∧ 0 < v ∧ outgoing s' = outgoing s ++ bytes_of client x ∧ isConnected s' = true.
Proof.
  intros Hc Hx. destruct x as [| |rnd m f]; cbn [send_one bytes_of].
  - destruct (control_ok PING s Hc) as (s' & E & _ & Ho & Hc'). by exists 2, s'.
  - destruct (control_ok PONG s Hc) as (s' & E & _ & Ho & Hc'). by exists 2, s'.
  - destruct (send_data_ok client rnd m f s Hc Hx) as (s' & E & _ & Ho & Hc').
    eexists _, s'. erewrite bind_ok by exact E. split; [done|]. split_and!; done || cbn; lia.
Qed.
Lemma send_all_ok client l : ∀ s, isConnected s = true → Forall (λ x, if x is SData _ m _ then data_ok m else True) l →
  ∃ s', send_all client l s = (Ok true, s') ∧ outgoing s' = outgoing s ++ concat (bytes_of client <$> l) ∧ isConnected s' = true.
Proof.
  induction l as [|x l IH]; intros s Hc Hl; cbn [send_all fmap list_fmap concat].
  { exists s. by rewrite app_nil_r. }
  apply Forall_cons in Hl as [Hx Hl]. destruct (send_one_ok client x s Hc Hx) as (v & s1 & E & Hv & Ho & Hc1).
  erewrite bind_ok by exact E. destruct (Z.leb_spec v 0); [lia|].
  destruct (IH s1 Hc1 Hl) as (s2 & -> & Ho2 & Hc2). exists s2. by rewrite Ho2, Ho, <- app_assoc.
Qed.

Lemma recv_control_ok fuel max client op cur data rest x r :
  isConnected r = true → (if x is SData _ _ _ then False else True) → incoming r = bytes_of (negb client) x ++ rest →
  ∃ r', recv_loop (S fuel) max client op cur data r = recv_loop fuel max client op cur data r' ∧
    incoming r' = rest ∧ outgoing r' = outgoing r ++ reply x ∧ isConnected r' = true.
Proof.
  intros Hc Hx Hin.
  destruct (rd_front (bytes_of (negb client) x) rest r Hc) as (r1 & E1 & Hi1 & Ho1 & Hc1); [by destruct x..|done|].
  replace (Z.of_nat (length (bytes_of (negb client) x))) with 2 in E1 by by destruct x.
  cbn [recv_loop]. rewrite (or_break_ok _ _ _ _ _ E1). destruct x; [| |done]; cbn [bytes_of];
    rewrite ws_head_roundtrip by (cbn; unfold PING, PONG; lia); cbn [opcode control_head reply].
  - change (PING =? PING) with true. cbn iota. destruct (control_ok PONG r1 Hc1) as (r2 & E2 & Hi2 & Ho2 & Hc2).
    exists r2. erewrite bind_ok by exact E2. split; [done|]. split_and!; congruence.
  - exists r1. change (PONG =? PING) with false. change (PONG =? PONG) with true. split; [done|].
    rewrite app_nil_r. split_and!; congruence.
Qed.

Lemma recv_middle_ok max client l : ∀ fuel op data rest r,
  isConnected r = true → Forall middle l → Z.of_nat (length (data ++ concat (sent_data <$> l))) < max → max ≤ 2 ^ 31 →
  (length l < fuel)%nat → incoming r = concat (bytes_of client <$> l) ++ rest →
  ∃ r' k, recv_loop fuel max (negb client) op (Z.of_nat (length data)) data r =
      recv_loop (S k) max (negb client) (foldl sent_opcode op l)
        (Z.of_nat (length (data ++ concat (sent_data <$> l)))) (data ++ concat (sent_data <$> l)) r' ∧
    incoming r' = rest ∧ outgoing r' = outgoing r ++ concat (reply <$> l) ∧ isConnected r' = true.
Proof.
  induction l as [|x l IH]; intros fuel op data rest r Hc Hl Hmax Hmax2 Hf Hin; cbn [fmap list_fmap concat foldl] in *.
  { rewrite !app_nil_r in *. destruct fuel as [|k]; [lia|]. by exists r, k. }
  destruct fuel as [|fuel]; [lia|]. apply Forall_cons in Hl as [Hx Hl]. rewrite <- app_assoc in Hin.
  rewrite app_assoc, length_app in Hmax.
  assert (∃ r1, recv_loop (S fuel) max (negb client) op (Z.of_nat (length data)) data r =
      recv_loop fuel max (negb client) (sent_opcode op x) (Z.of_nat (length (data ++ sent_data x))) (data ++ sent_data x) r1 ∧
      incoming r1 = concat (bytes_of client <$> l) ++ rest ∧ outgoing r1 = outgoing r ++ reply x ∧ isConnected r1 = true)
    as (r1 & E1 & Hi1 & Ho1 & Hc1).
  { destruct x as [| |rnd m f].
    1,2: cbn [sent_data sent_opcode]; rewrite app_nil_r; apply recv_control_ok; [done|done|by rewrite negb_involutive].
    destruct Hx as [Hm ->]. cbn [sent_data sent_opcode reply] in *. rewrite length_app in Hmax. rewrite app_nil_r.
    apply (recv_data_ok fuel max client rnd m false op data _ r Hc Hm); [lia|done|done]. }
  destruct (IH fuel (sent_opcode op x) (data ++ sent_data x) rest r1 Hc1 Hl) as (r2 & k & E2 & Hi2 & Ho2 & Hc2);
    [by rewrite length_app|done|cbn in Hf; lia|done|].
  exists r2, k. rewrite E1, E2, <- !app_assoc. split; [done|]. split; [done|]. split; [|done].
  by rewrite Ho2, Ho1, <- app_assoc.
Qed.

(** C20: A message that one end sends - in any number of frames, with pings and pongs
    anywhere between them, masked or not, over streams that fragment the bytes at
    will - is what the other end receives: the data of the frames joined, under the
    first opcode that is not CONTINUE; the receiver takes just these bytes and
    answers each ping.  The data of each frame is not empty and the whole is below
    the configured size. *)
Theorem ws_roundtrip client l rnd m s :
  isConnected s = true → Forall middle l → data_ok m →
  let all := l ++ [SData rnd m true] in
  ∃ bytes s', send_all client all s = (Ok true, s') ∧ outgoing s' = outgoing s ++ bytes ∧
    ∀ fuel max r rest, isConnected r = true → incoming r = bytes ++ rest → (length l < fuel)%nat →
      Z.of_nat (length (concat (sent_data <$> all))) < max → max ≤ 2 ^ 31 →
      ∃ r', WSRecvMessage fuel max (negb client) r =
          (Ok (Some (mkWSFrameMessage (foldl sent_opcode 0 all) (concat (sent_data <$> all)))), r') ∧
        incoming r' = rest ∧ outgoing r' = outgoing r ++ concat (reply <$> l) ∧ isConnected r' = true.
Proof.
  intros Hc Hl Hm all. exists (concat (bytes_of client <$> all)).
  destruct (send_all_ok client all s Hc) as (s' & E & Ho & _).
  { apply Forall_app. split; [|by constructor]. eapply Forall_impl; [done|]. intros [| |? ? ?]; [done..|]. by intros [? _]. }
  exists s'. split; [done|]. split; [done|]. intros fuel max r rest Hcr Hin Hf Hmax Hmax2. subst all.
  rewrite fmap_app, concat_app in Hin. cbn [fmap list_fmap concat] in Hin. rewrite app_nil_r, <- app_assoc in Hin.
  rewrite fmap_app, concat_app in Hmax |- *. cbn [fmap list_fmap concat sent_data] in *. rewrite app_nil_r in *.
  rewrite length_app in Hmax.
  destruct (recv_middle_ok max client l fuel 0 [] _ r Hcr Hl ltac:(cbn [app]; lia) Hmax2 Hf Hin) as (r1 & k & E1 & Hi1 & Ho1 & Hc1).
  cbn [app] in E1.
  destruct (recv_data_ok k max client rnd m true (foldl sent_opcode 0 l) (concat (sent_data <$> l)) rest r1 Hc1 Hm)
    as (r2 & E2 & Hi2 & Ho2 & Hc2); [lia|done|done|].
  exists r2. unfold WSRecvMessage. cbn [length] in E1. rewrite E2 in E1. change (Z.of_nat 0) with 0 in E1.
  erewrite bind_ok by exact E1. rewrite foldl_app. split; [done|]. split_and!; congruence.
Qed.

(** ** Whatever the peer sends *)
(** The length that the head [h] announces, in network order in the bytes after it, and
    how many bytes that takes. *)
Definition announced (h : WSFrameHead) (bs : list Z) : nat * Z :=
  if payload h =? 126 then (2%nat, bswap 2 (le_val (take 2 bs)))
  else if payload h =? 127 then (8%nat, bswap 8 (le_val (take 8 bs))) else (0%nat, payload h).
Definition mask_size (h : WSFrameHead) : nat := if mask h then 4 else 0.
(** Of the frames one after the other, [cur] bytes of data having come before: some data
    frame, with none before it that ends the message, announces a length whose sum with
    the data so far is 2^64 or more.  Of the other frames only the head is read. *)
Inductive wraps : Z → list Z → Prop :=
| wraps_here cur b0 b1 bs : let h := ws_head_of_bytes [b0; b1] in
    is_data (opcode h) = true → ((announced h bs).1 ≤ length bs)%nat → 2 ^ 64 ≤ cur + (announced h bs).2 →
    wraps cur (b0 :: b1 :: bs)
| wraps_control cur b0 b1 bs : is_data (opcode (ws_head_of_bytes [b0; b1])) = false → wraps cur bs → wraps cur (b0 :: b1 :: bs)
| wraps_later cur b0 b1 bs : let h := ws_head_of_bytes [b0; b1] in
    is_data (opcode h) = true → fin h = false →
    wraps (cur + (announced h bs).2) (drop ((announced h bs).1 + (mask_size h + Z.to_nat (announced h bs).2)) bs) →
    wraps cur (b0 :: b1 :: bs).

Lemma frame_length_cases h s : isConnected s = true → 0 ≤ payload h < 128 →
  (∃ s', frame_length h s = (Ok None, s')) ∨
  (∃ s', frame_length h s = (Ok (Some (announced h (incoming s)).2), s') ∧ is_uint 64 (announced h (incoming s)).2 ∧
     ((announced h (incoming s)).1 ≤ length (incoming s))%nat ∧ isConnected s' = true ∧
     incoming s' = drop (announced h (incoming s)).1 (incoming s)).
Proof.
  intros Hc Hp. unfold frame_length, announced.
  destruct (Z.eqb_spec (payload h) 126); [|destruct (Z.eqb_spec (payload h) 127)]; cbn [fst snd].
  - destruct (rd_cases 2 s Hc) as [(s' & E)|(s' & E & Hn & Hi & Hc')]; [lia|left; exists s'; by apply or_break_none|].
    right. exists s'. rewrite (or_break_ok _ _ _ _ _ E). split; [done|].
    pose proof (bswap_bound 2 (le_val (take 2 (incoming s)))) as Hr. unfold is_uint in *. change (8 * Z.of_nat 2) with 16 in Hr. split_and!; try done; lia.
  - destruct (rd_cases 8 s Hc) as [(s' & E)|(s' & E & Hn & Hi & Hc')]; [lia|left; exists s'; by apply or_break_none|].
    right. exists s'. rewrite (or_break_ok _ _ _ _ _ E). split; [done|].
    pose proof (bswap_bound 8 (le_val (take 8 (incoming s)))) as Hr. split; [done|]. split_and!; try done; lia.
  - right. exists s. unfold is_uint. split_and!; done || lia.
Qed.

Lemma append_frame_cases h n data max s :
  isConnected s = true → is_uint 64 n → Z.of_nat (length data) < 2 ^ 31 →
  u64 (Z.of_nat (length data) + n) < max → max ≤ 2 ^ 31 →
  (∃ s', append_frame h n (Z.of_nat (length data)) data s = (Ok None, s')) ∨
  (∃ data' s', append_frame h n (Z.of_nat (length data)) data s = (Ok (Some data'), s') ∧ 0 < n < 2 ^ 31 ∧
     Z.of_nat (length data') = Z.of_nat (length data) + n ∧ Z.of_nat (length data') < max ∧ isConnected s' = true ∧
     incoming s' = drop (mask_size h + Z.to_nat n) (incoming s)) ∨
  (∃ s', append_frame h n (Z.of_nat (length data)) data s = (Undef OutOfBounds, s') ∧ 2 ^ 64 ≤ Z.of_nat (length data) + n).
Proof.
  intros Hc Hn Hd Hmax Hmax2. unfold append_frame.
  assert ((∃ s', (if mask h then rd 4 else ret (Some [0; 0; 0; 0])) s = (Ok None, s')) ∨
    (∃ key s1, (if mask h then rd 4 else ret (Some [0; 0; 0; 0])) s = (Ok (Some key), s1) ∧ isConnected s1 = true ∧
       incoming s1 = drop (mask_size h) (incoming s))) as [(s' & E)|(key & s1 & E & Hc1 & Hi1)].
  { unfold mask_size. destruct (mask h); [|right; by eexists _, s].
    destruct (rd_cases 4 s Hc) as [(s' & E)|(s' & E & _ & Hi & Hc')]; [lia|left; by eauto|right; by eauto 10]. }
  { left. exists s'. by apply or_break_none. }
  rewrite (or_break_ok _ _ _ _ _ E). rewrite (wrap_small 64 (Z.of_nat (length data))) by lia.
  unfold is_uint in Hn. destruct (decide (Z.of_nat (length data) + n < 2 ^ 64)) as [Hs|Hs].
  - rewrite wrap_small in * by lia. destruct (Z.ltb_spec (Z.of_nat (length data) + n) (Z.of_nat (length data))); [lia|].
    destruct (rd_cases n s1 Hc1) as [(s' & E2)|(s' & E2 & Hn2 & Hi2 & Hc2)]; [lia|left; exists s'; by apply or_break_none|].
    right; left. set (bs := take (Z.to_nat n) (incoming s1)) in *.
    assert (length bs = Z.to_nat n) as Hl by (subst bs; rewrite length_take; lia).
    eexists _, s'. rewrite (or_break_ok _ _ _ _ _ E2). split; [done|].
    rewrite Nat2Z.id. assert (length (if mask h then xor_mask key bs else bs) = Z.to_nat n) as Hl2.
    { destruct (mask h); [by rewrite xor_mask_length|done]. }
    rewrite append_data by lia. rewrite length_app, Hl2. split; [lia|]. split; [lia|]. split; [lia|]. split; [done|].
    by rewrite Hi2, Hi1, drop_drop.
  - right; right. exists s1. assert (u64 (Z.of_nat (length data) + n) = Z.of_nat (length data) + n - 2 ^ 64) as ->.
    { unfold wrap. rewrite <- (Z.mod_add _ (-1)) by lia. apply Z.mod_small. lia. }
    destruct (Z.ltb_spec (Z.of_nat (length data) + n - 2 ^ 64) (Z.of_nat (length data))); [|lia]. split; [done|lia].
Qed.

(** What a call can end with. *)
Definition recv_result (max cur : Z) (bs : list Z) (o : outcome (option WSFrameMessage)) (s : Sk) : Prop :=
  match o with
  | Ok (Some m) => 0 < Z.of_nat (length (m_data m)) < max ∧ isConnected s = true
  | Ok None => True
  | Undef OutOfBounds => wraps cur bs
  | _ => False
  end.
Lemma recv_result_mono max cur cur' bs bs' o s : (wraps cur' bs' → wraps cur bs) → recv_result max cur' bs' o s → recv_result max cur bs o s.
Proof. intros Hw. destruct o as [[m|]| |u|]; cbn; try done. destruct u; done || apply Hw. Qed.

Lemma recv_loop_total max client fuel : ∀ op data s,
  isConnected s = true → (length (incoming s) < fuel)%nat →
  Z.of_nat (length data) < 2 ^ 31 → max ≤ 2 ^ 31 →
  ∃ o s', recv_loop fuel max client op (Z.of_nat (length data)) data s = (o, s') ∧
    recv_result max (Z.of_nat (length data)) (incoming s) o s'.
Proof.
  induction fuel as [|fuel IH]; intros op data s Hc Hf Hd Hmax; [lia|]. cbn [recv_loop].
  destruct (rd_cases 2 s Hc) as [(s1 & E1)|(s1 & E1 & Hn & Hi1 & Hc1)]; [lia| |].
  { eexists _, s1. by rewrite (or_break_none _ _ _ _ E1). }
  rewrite (or_break_ok _ _ _ _ _ E1).
  destruct (incoming s) as [|b0 [|b1 bs]] eqn:Es; cbn in Hn; [lia..|]. change (Z.to_nat 2) with 2%nat in *. cbn [take drop] in *.
  rewrite take_0. rewrite drop_0 in Hi1. set (h := ws_head_of_bytes [b0; b1]). pose proof (ws_head_range [b0; b1]) as [_ Hp]. fold h in Hp.
  assert (∀ op s', isConnected s' = true → incoming s' = bs → is_data (opcode h) = false →
    ∃ o s2, recv_loop fuel max client op (Z.of_nat (length data)) data s' = (o, s2) ∧
      recv_result max (Z.of_nat (length data)) (b0 :: b1 :: bs) o s2) as Hgo.
  { intros op' s' Hc' Hi Hh. destruct (IH op' data s') as (o & s2 & E & Hr); try done; [rewrite Hi; cbn in Hf; lia|].
    exists o, s2. split; [done|]. rewrite Hi in Hr. revert Hr. apply recv_result_mono. by apply wraps_control. }
  destruct (Z.eqb_spec (opcode h) PING) as [Eo|_].
  { destruct (control_ok PONG s1 Hc1) as (s2 & E2 & Hi2 & _ & Hc2). erewrite bind_ok by exact E2.
    apply Hgo; [done|congruence|by rewrite Eo]. }
  destruct (Z.eqb_spec (opcode h) PONG) as [Eo|_]; [apply Hgo; [done|done|by rewrite Eo]|].
  destruct (is_data (opcode h)) eqn:Eo; [|by apply Hgo].
  destruct (negb client && negb (mask h)); [by eexists _, s1|].
  destruct (frame_length_cases h s1 Hc1 Hp) as [(s2 & E2)|(s2 & E2 & Hn2 & Hl2 & Hc2 & Hi2)].
  { eexists _, s2. by rewrite (or_break_none _ _ _ _ E2). }
  rewrite (or_break_ok _ _ _ _ _ E2). rewrite Hi1 in Hn2, Hl2, Hi2 |- *. set (n := (announced h bs).2) in *.
  destruct (Z.leb_spec max (u64 (Z.of_nat (length data) + n))) as [Hm|Hm]; [by eexists _, s2|].
  destruct (append_frame_cases h n data max s2 Hc2 Hn2 Hd Hm Hmax)
    as [(s3 & E3)|[(data' & s3 & E3 & Hn3 & Hl3 & Hm3 & Hc3 & Hi3)|(s3 & E3 & Hbig)]].
  - eexists _, s3. by rewrite (or_break_none _ _ _ _ E3).
  - rewrite (or_break_ok _ _ _ _ _ E3). rewrite <- Hl3, i32_small by lia. destruct (fin h) eqn:Ef.
    + eexists _, s3. split; [done|]. cbn. split; [lia|done].
    + rewrite Hi2, drop_drop in Hi3.
      destruct (IH (if (op =? 0) && negb (opcode h =? CONTINUE) then opcode h else op) data' s3) as (o & s4 & E & Hr); try done; [rewrite Hi3, length_drop; cbn in Hf; lia|lia|].
      exists o, s4. split; [done|]. rewrite Hi3, Hl3 in Hr. revert Hr. apply recv_result_mono. by apply wraps_later.
  - eexists _, s3. unfold or_break, bind. rewrite E3. split; [done|]. cbn. by apply wraps_here.
Qed.

(** C21: Whatever bytes a peer sends before it closes, a call that receives a
    message ends: with a message that is not empty and below the configured size,
    and the stream open, or with no message, and the stream closed.  The one
    exception is a message in which a data frame announces a length whose sum with
    the data so far is 2^64 or more ([wraps], which follows the frames from their
    heads); the sum wraps around, and the behaviour is undefined.  The configured
    size is at most 2^31, as the length so far is kept in an [int]. *)
Theorem ws_recv_total fuel max client s :
  isConnected s = true → (length (incoming s) < fuel)%nat → max ≤ 2 ^ 31 →
  ∃ o s', WSRecvMessage fuel max client s = (o, s') ∧
    match o with
    | Ok (Some m) => 0 < Z.of_nat (length (m_data m)) < max ∧ isConnected s' = true
    | Ok None => isConnected s' = false
    | Undef OutOfBounds => wraps 0 (incoming s)
    | _ => False
    end.
Proof.
  intros Hc Hf Hmax. destruct (recv_loop_total max client fuel 0 [] s) as (o & s' & E & Hr); try done.
  cbn [length] in E, Hr. change (Z.of_nat 0) with 0 in E, Hr. unfold WSRecvMessage, bind. rewrite E.
  destruct o as [[m|]| |u|]; cbn in Hr; try done; eexists _, _; (split; [reflexivity|]); try done. cbn. apply close_closed.
Qed.
End laws.

(** ** At concrete inputs *)
Definition sample_talk : list sent := [SData 5 hello false; SPing; SPong].
Definition sample_last : WSFrameMessage := mkWSFrameMessage CONTINUE (bytes_of_string " world").
Lemma ws_roundtrip_witness :
  ∃ bytes s', send_all true (sample_talk ++ [SData 9 sample_last true]) (fresh_wire []) = (Ok true, s') ∧
    outgoing s' = bytes ∧
    ∃ r', WSRecvMessage 9 max_size false (fresh_wire bytes) =
      (Ok (Some (mkWSFrameMessage TEXT_FRAME (bytes_of_string "hello world"))), r') ∧ wire_out r' = ws_head_bytes (control_head PONG).
Proof.
  assert (Forall middle sample_talk ∧ data_ok sample_last) as [Hm Hl].
  { unfold sample_talk, sample_last, data_ok. repeat (constructor || split); done. }
  destruct (ws_roundtrip (Laws := wire_closing_laws) true sample_talk 9 sample_last (fresh_wire []) eq_refl Hm Hl) as (bytes & s' & E & Ho & Hr).
  exists bytes, s'. split; [exact E|]. split; [exact Ho|].
  destruct (Hr 9%nat max_size (fresh_wire bytes) [] eq_refl) as (r' & Er & _ & Ho' & _); [by rewrite app_nil_r|cbn; lia|done|done|].
  exists r'. split; [exact Er|exact Ho'].
Defined.
Lemma ws_recv_total_witness :
  match WSRecvMessage 99 max_size true (fresh_wire two_frames) with
  | (Ok (Some m), s') => 0 < Z.of_nat (length (m_data m)) < max_size ∧ wire_open s' = true
  | _ => False
  end.
Proof.
  destruct (ws_recv_total (Laws := wire_closing_laws) 99 max_size true (fresh_wire two_frames) eq_refl) as (o & s' & E & Hr); [cbn; lia|done|].
  change (WSRecvMessage 99 max_size true (fresh_wire two_frames)) with
    (Ok (Some (mkWSFrameMessage 1 [104; 105; 33])), mkWire [] (ws_head_bytes (control_head PONG)) true 2) in E |- *.
  injection E as <- <-. exact Hr.
Defined.
