(* ===== verification/HolderStats.v ===== *)
(** * Statistics of a connection (streams/load_balance.cc)

    A connection keeps one record of counters for each of the last seconds, in
    slots addressed by the second modulo their number; the weight of a fair
    balancer is computed from them in floating point. *)
From S2P Require Import Prelude.
From Stdlib Require Import SpecFloat.

(** ** Floating point

    [float] and [double] are IEEE binary32 and binary64, rounding to nearest even:
    the formal numbers of the Standard Library at these precisions. *)
Definition float_add := SFadd 24 128.
Definition float_sub := SFsub 24 128.
Definition float_mul := SFmul 24 128.
Definition float_div := SFdiv 24 128.
Definition double_sub := SFsub 53 1024.
Definition double_mul := SFmul 53 1024.
Definition double_div := SFdiv 53 1024.
Definition float_of (z : Z) : spec_float := binary_normalize 24 128 z 0 false.
Definition double_of (z : Z) : spec_float := binary_normalize 53 1024 z 0 false.
Definition convert (prec emax : Z) (x : spec_float) : spec_float :=
  match x with
  | S754_finite s m e => binary_normalize prec emax (if s then Zneg m else Zpos m) e s
  | _ => x
  end.
Definition to_double := convert 53 1024.
Definition to_float := convert 24 128.
(** [std::min(a, b)] is [b < a ? b : a]. *)
Definition double_min (a b : spec_float) : spec_float := if SFltb b a then b else a.
(** The conversion to [int32_t] truncates; out of range it has no defined result. *)
Definition int32_of (x : spec_float) : outcome Z :=
  match x with
  | S754_zero _ => Ok 0
  | S754_finite s m e =>
    let a := if 0 <=? e then Z.shiftl (Zpos m) e else Z.shiftr (Zpos m) (- e) in
    let v := if s then - a else a in
    if bool_decide (is_sint 32 v) then Ok v else Undef Overflow
  | _ => Undef Overflow
  end.
(** The literals [1], [4.0], [10.0], [2.0], [50.0] and [0.1]. *)
Definition lit_tenth : spec_float := double_div (double_of 1) (double_of 10).

(** ** [HolderStats] *)
Record HolderStats := mkHolderStats {
  m_usedTime : Z; m_total : Z; m_doing : Z; m_timeouts : Z; m_oks : Z; m_errs : Z }.
Definition new_HolderStats : HolderStats := mkHolderStats 0 0 0 0 0 0.
Definition incUsedTime v h := mkHolderStats (u32 (m_usedTime h + v)) (m_total h) (m_doing h) (m_timeouts h) (m_oks h) (m_errs h).
Definition incTotal v h := mkHolderStats (m_usedTime h) (u32 (m_total h + v)) (m_doing h) (m_timeouts h) (m_oks h) (m_errs h).
Definition incDoing v h := mkHolderStats (m_usedTime h) (m_total h) (u32 (m_doing h + v)) (m_timeouts h) (m_oks h) (m_errs h).
Definition incTimeouts v h := mkHolderStats (m_usedTime h) (m_total h) (m_doing h) (u32 (m_timeouts h + v)) (m_oks h) (m_errs h).
Definition incOks v h := mkHolderStats (m_usedTime h) (m_total h) (m_doing h) (m_timeouts h) (u32 (m_oks h + v)) (m_errs h).
Definition incErrs v h := mkHolderStats (m_usedTime h) (m_total h) (m_doing h) (m_timeouts h) (m_oks h) (u32 (m_errs h + v)).
Definition decDoing v h := mkHolderStats (m_usedTime h) (m_total h) (u32 (m_doing h - v)) (m_timeouts h) (m_oks h) (m_errs h).

Definition stats_getWeight (rate : spec_float) (h : HolderStats) : spec_float :=
  let base := float_of (u32 (m_total h + 20)) in
  let oks := double_min (double_mul (double_div (double_mul (double_of (m_oks h)) (double_of 1)) (double_of (u32 (m_usedTime h + 1))))
    (double_of 2)) (double_of 50) in
  let timeouts := double_sub (double_of 1) (double_div (double_mul (double_of 4) (double_of (m_timeouts h))) (to_double base)) in
  let doing := float_sub (float_of 1) (float_div (float_of (m_doing h)) base) in
  let errs := double_sub (double_of 1) (double_div (double_mul (double_of 10) (double_of (m_errs h))) (to_double base)) in
  to_float (double_mul (double_mul (double_mul (double_mul oks timeouts) (to_double doing)) errs) (to_double rate)).

(** ** [HolderStatsSet] *)
Record HolderStatsSet := mkHolderStatsSet { m_lastUpdateTime : Z; m_stats : list HolderStats }.
Definition new_HolderStatsSet (size : nat) : HolderStatsSet := mkHolderStatsSet 0 (replicate size new_HolderStats).

(** The slot of second [t]; with no slots at all the remainder is a division by zero. *)
Definition slot (t : Z) (l : list HolderStats) : nat := Z.to_nat (t mod Z.of_nat (length l)).
(** The loop of [init] over [t] and [i]; [fuel] bounds the slots it may clear. *)
Fixpoint clear_loop (fuel : nat) (t now : Z) (l : list HolderStats) : list HolderStats :=
  match fuel with
  | O => l
  | S fuel => if t <=? now then clear_loop fuel (u32 (t + 1)) now (<[slot t l := new_HolderStats]> l) else l
  end.
Definition stats_init (now : Z) (s : HolderStatsSet) : HolderStatsSet :=
  if m_lastUpdateTime s <? now then
    mkHolderStatsSet now (clear_loop (length (m_stats s)) (u32 (m_lastUpdateTime s + 1)) now (m_stats s))
  else s.

(** [get] returns a reference: the number of the slot. *)
Definition stats_get (now : Z) (s : HolderStatsSet) : outcome (nat * HolderStatsSet) :=
  let s := stats_init now s in
  if decide (m_stats s = []) then Undef DivByZero else Ok (slot now (m_stats s), s).
(** An update through a reference. *)
Definition update_slot (i : nat) (f : HolderStats → HolderStats) (s : HolderStatsSet) : HolderStatsSet :=
  mkHolderStatsSet (m_lastUpdateTime s) (alter f i (m_stats s)).

(** The sum of [getWeight]: the seconds before [now], with falling rates. *)
Definition rate_of (i : nat) : spec_float :=
  to_float (double_sub (double_of 1) (double_mul lit_tenth (double_of (Z.of_nat i)))).
Definition stats_set_getWeight (now : Z) (s : HolderStatsSet) : spec_float * HolderStatsSet :=
  let s := stats_init now s in
  let n := length (m_stats s) in
  (foldl (λ v i,
     let h := nth (Z.to_nat (u64 (now - Z.of_nat i) mod Z.of_nat n)) (m_stats s) new_HolderStats in
     float_add v (stats_getWeight (rate_of i) h)) (float_of 0) (seq 1 (n - 1)), s).

Definition add_stats (a b : HolderStats) : HolderStats :=
  mkHolderStats (u32 (m_usedTime a + m_usedTime b)) (u32 (m_total a + m_total b)) (u32 (m_doing a + m_doing b))
    (u32 (m_timeouts a + m_timeouts b)) (u32 (m_oks a + m_oks b)) (u32 (m_errs a + m_errs b)).
Definition getTotal (s : HolderStatsSet) : HolderStats := foldl add_stats new_HolderStats (m_stats s).

(** ** Runs *)
(** A connection with 100 answers at 1 ms each; the same with half of 800 more
    requests timed out and half failed weighs more, since both factors are negative. *)
Definition good_node : HolderStats := mkHolderStats 100 100 0 0 100 0.
Definition failing_node : HolderStats := mkHolderStats 100 900 0 400 100 400.
Example failing_node_weighs_more :
  int32_of (float_mul (float_of 10000) (stats_getWeight (float_of 1) good_node)) = Ok 19801 ∧
  int32_of (float_mul (float_of 10000) (stats_getWeight (float_of 1) failing_node)) = Ok 48999.
Proof. split; vm_compute; reflexivity. Qed.

(** ** The window of seconds *)
Lemma slot_lt t l : l ≠ [] → (slot t l < length l)%nat.
Proof.
  intros Hl. unfold slot. assert (0 < Z.of_nat (length l)) by (destruct l; [done|cbn; lia]).
  pose proof (Z.mod_pos_bound t (Z.of_nat (length l))). lia.
Qed.
Lemma slot_eq t u l : l ≠ [] → slot t l = slot u l ↔ t mod Z.of_nat (length l) = u mod Z.of_nat (length l).
Proof.
  intros Hl. unfold slot. assert (0 < Z.of_nat (length l)) by (destruct l; [done|cbn; lia]).
  pose proof (Z.mod_pos_bound t (Z.of_nat (length l))). pose proof (Z.mod_pos_bound u (Z.of_nat (length l))). lia.
Qed.
Lemma slot_length t l l' : length l' = length l → slot t l' = slot t l.
Proof. unfold slot. by intros ->. Qed.
Lemma slot_near t u l : l ≠ [] → t < u < t + Z.of_nat (length l) → slot t l ≠ slot u l.
Proof.
  intros Hl Hu E%slot_eq; [|done]. set (n := Z.of_nat (length l)) in *.
  assert (((u - t) mod n = 0)) as Hm by (rewrite Zminus_mod, E, Z.sub_diag; apply Z.mod_0_l; lia).
  rewrite Z.mod_small in Hm; lia.
Qed.

Lemma clear_loop_length fuel : ∀ t now l, length (clear_loop fuel t now l) = length l.
Proof.
  induction fuel as [|fuel IH]; intros; cbn [clear_loop]; [done|]. case_match; [|done]. by rewrite IH, length_insert.
Qed.
(** The loop empties the slots of the seconds it goes through and no others. *)
Lemma clear_loop_spec fuel : ∀ t now l j,
  l ≠ [] → 0 ≤ t → now < 2 ^ 32 - 1 → (j < length l)%nat →
  clear_loop fuel t now l !! j =
    if bool_decide (Exists (λ k, slot (t + Z.of_nat k) l = j ∧ t + Z.of_nat k ≤ now) (seq 0 fuel))
    then Some new_HolderStats else l !! j.
Proof.
  induction fuel as [|fuel IH]; intros t now l j Hl Ht Hnow Hj; cbn [clear_loop].
  { by rewrite bool_decide_false by by intros H%Exists_nil. }
  destruct (Z.leb_spec t now) as [Hle|Hgt].
  - rewrite wrap_small by lia. assert (<[slot t l:=new_HolderStats]> l ≠ []) as Hl'.
    { intros E%(f_equal length). rewrite length_insert in E. by destruct l. }
    rewrite IH by (done || lia || by rewrite length_insert).
    assert (∀ k, slot (t + 1 + Z.of_nat k) (<[slot t l:=new_HolderStats]> l) = slot (t + Z.of_nat (S k)) l) as Hs.
    { intros k. rewrite (slot_length _ l) by apply length_insert. f_equal. lia. }
    assert (Exists (λ k, slot (t + Z.of_nat k) l = j ∧ t + Z.of_nat k ≤ now) (seq 0 (S fuel)) ↔
      slot t l = j ∨ Exists (λ k, slot (t + 1 + Z.of_nat k) (<[slot t l:=new_HolderStats]> l) = j ∧ t + 1 + Z.of_nat k ≤ now) (seq 0 fuel)) as Hex.
    { cbn [seq]. rewrite Exists_cons. rewrite Z.add_0_r, <- fmap_S_seq, Exists_fmap. split.
      - intros [[E _]|H]; [by left|right]. eapply Exists_impl; [done|]. cbn. intros k [E ?]. rewrite Hs. split; [done|lia].
      - intros [E|H]; [left; split; [done|lia]|right]. eapply Exists_impl; [done|]. cbn. intros k [E ?]. rewrite Hs in E. split; [done|lia]. }
    rewrite (bool_decide_ext _ _ Hex). destruct (decide (slot t l = j)) as [<-|Hne].
    + rewrite (bool_decide_true (_ ∨ _)) by by left. rewrite list_lookup_insert_eq by done. by case_bool_decide.
    + rewrite list_lookup_insert_ne by done. case_bool_decide; case_bool_decide; tauto.
  - rewrite bool_decide_false; [done|]. intros (k & _ & _ & Hk)%Exists_exists. lia.
Qed.

(** Updates at their seconds, and what was recorded in one second. *)
Definition log : Type := list (Z * (HolderStats → HolderStats)).
Definition record (t : Z) (f : HolderStats → HolderStats) (s : HolderStatsSet) : outcome HolderStatsSet :=
  obind (stats_get t s) (λ r, Ok (update_slot (r.1) f (r.2))).
Definition record_all (ops : log) (s : HolderStatsSet) : outcome HolderStatsSet :=
  foldl (λ o e, obind o (record (e.1) (e.2))) (Ok s) ops.
Definition recorded (t : Z) (ops : log) : HolderStats :=
  foldl (λ h e, if e.1 =? t then e.2 h else h) new_HolderStats ops.

(** Each of the [n] seconds up to the last one has its counters in its slot. *)
Record window (n : nat) (ops : log) (s : HolderStatsSet) : Prop := {
  w_length : length (m_stats s) = n;
  w_last : 0 ≤ m_lastUpdateTime s;
  w_ops : Forall (λ e, e.1 ≤ m_lastUpdateTime s) ops;
  w_slots t : m_lastUpdateTime s - Z.of_nat n < t ≤ m_lastUpdateTime s →
    m_stats s !! slot t (m_stats s) = Some (recorded t ops) }.

Lemma recorded_none t ops : Forall (λ e, e.1 < t) ops → recorded t ops = new_HolderStats.
Proof.
  unfold recorded. generalize new_HolderStats. induction ops as [|e ops IH]; intros h H; cbn; [done|].
  apply Forall_cons in H as [? ?]. destruct (Z.eqb_spec (e.1) t); [lia|]. by apply IH.
Qed.
Lemma recorded_snoc t ops u f : recorded t (ops ++ [(u, f)]) = if u =? t then f (recorded t ops) else recorded t ops.
Proof. unfold recorded. by rewrite foldl_app. Qed.

Lemma window_init n ops s now : (0 < n)%nat → window n ops s → now < 2 ^ 32 - 1 → m_lastUpdateTime s ≤ now →
  window n ops (stats_init now s) ∧ m_lastUpdateTime (stats_init now s) = now.
Proof.
  intros Hn [Hl H0 Hops Hs] Hnow Hle. unfold stats_init.
  destruct (Z.ltb_spec (m_lastUpdateTime s) now); [|assert (m_lastUpdateTime s = now) by lia; by split].
  split; [|done]. rewrite wrap_small by lia. set (last := m_lastUpdateTime s) in *. set (l := m_stats s) in *.
  assert (l ≠ []) as Hne by by intros E; rewrite E in Hl; cbn in Hl; lia.
  split; cbn [m_stats m_lastUpdateTime]; [by rewrite clear_loop_length|lia| |].
  { eapply Forall_impl; [done|]. intros e ?. cbn beta in *. lia. }
  intros t Ht. rewrite (slot_length _ l) by apply clear_loop_length.
  rewrite clear_loop_spec by (done || lia || by apply slot_lt). case_bool_decide as Hex.
  - rewrite recorded_none; [done|]. apply Exists_exists in Hex as (k & Hk & E & Hk2).
    destruct (decide (last < t)); [eapply Forall_impl; [done|]; intros e ?; cbn beta in *; lia|].
    exfalso. symmetry in E. revert E. apply slot_near; [done|lia].
  - destruct (decide (last < t)); [|apply Hs; lia]. exfalso. apply Hex, Exists_exists.
    exists (Z.to_nat ((t - (last + 1)) mod Z.of_nat n)).
    pose proof (Z.mod_pos_bound (t - (last + 1)) (Z.of_nat n) ltac:(lia)) as Hb.
    pose proof (Z.mod_le (t - (last + 1)) (Z.of_nat n) ltac:(lia) ltac:(lia)).
    rewrite Hl. split; [apply elem_of_seq; lia|]. rewrite Z2Nat.id by lia. split; [|lia].
    apply slot_eq; [done|]. rewrite Hl. rewrite Zplus_mod_idemp_r. f_equal. lia.
Qed.

Lemma window_record n ops s t f : (0 < n)%nat → window n ops s → t < 2 ^ 32 - 1 → m_lastUpdateTime s ≤ t →
  ∃ s', record t f s = Ok s' ∧ window n (ops ++ [(t, f)]) s' ∧ m_lastUpdateTime s' = t.
Proof.
  intros Hn Hw Ht Hle. destruct (window_init n ops s t Hn Hw Ht Hle) as [[Hl H0 Hops Hs] Hlast].
  unfold record, stats_get. set (s1 := stats_init t s) in *.
  assert (m_stats s1 ≠ []) as Hne by by intros E; rewrite E in Hl; cbn in Hl; lia.
  rewrite decide_False by done. cbn [obind fst snd]. eexists. split; [done|]. split; [|done].
  split; cbn [update_slot m_stats m_lastUpdateTime]; [by rewrite length_alter|done| |].
  { apply Forall_app. split; [done|]. repeat constructor. cbn. lia. }
  intros u Hu. rewrite (slot_length _ (m_stats s1)) by apply length_alter. rewrite recorded_snoc.
  destruct (Z.eqb_spec t u) as [<-|Hne2].
  - rewrite list_lookup_alter_eq, Hs by lia. done.
  - rewrite list_lookup_alter_ne; [by apply Hs|]. intros E. symmetry in E. revert E. apply slot_near; [done|lia].
Qed.

(** The statistics of a connection are those of the last seconds: after any
    number of updates, at seconds that do not go back, [get] and the weight find in
    the slot of each of the last [n] seconds exactly what was recorded in that
    second - nothing of the seconds whose slots it reuses, however long nothing
    happened. *)
Theorem stats_window n ops :
  (0 < n)%nat → StronglySorted Z.le (ops.*1) → Forall (λ t, 0 ≤ t < 2 ^ 32 - 1) (ops.*1) →
  ∃ s, record_all ops (new_HolderStatsSet n) = Ok s ∧
    ∀ now t, Forall (λ u, u ≤ now) (ops.*1) → 0 ≤ now < 2 ^ 32 - 1 → now - Z.of_nat n < t ≤ now →
      m_stats (stats_init now s) !! slot t (m_stats (stats_init now s)) = Some (recorded t ops).
Proof.
  intros Hn Hsort Hr.
  assert (∃ s, record_all ops (new_HolderStatsSet n) = Ok s ∧ window n ops s ∧
    ∀ now, Forall (λ u, u ≤ now) (ops.*1) → 0 ≤ now → m_lastUpdateTime s ≤ now) as (s & E & Hw & Hlast).
  { induction ops as [|[t f] ops IH] using rev_ind.
    - eexists. split; [done|]. split; [|done]. split; cbn [m_stats m_lastUpdateTime new_HolderStatsSet]; [apply length_replicate|done|done|].
      intros t Ht. apply lookup_replicate. split; [done|]. rewrite <- (length_replicate n new_HolderStats) at 2. apply slot_lt.
      destruct n; [lia|discriminate].
    - rewrite fmap_app in *. cbn [fmap list_fmap fst] in *. apply Forall_app in Hr as [Hr [Ht _]%Forall_cons].
      apply StronglySorted_app in Hsort as (Hle & Hsort & _).
      destruct (IH Hsort Hr) as (s & E & Hw & Hlast). destruct (window_record n ops s t f) as (s' & E' & Hw' & Hl'); try done; [apply Ht|..].
      { apply Hlast; [|apply Ht]. apply Forall_forall. intros u Hu. apply Hle; [done|by left]. }
      exists s'. split; [|split; [done|]].
      + unfold record_all in *. rewrite foldl_app, E. done.
      + intros now [_ [Hnow _]%Forall_cons]%Forall_app _. by rewrite Hl'. }
  exists s. split; [done|]. intros now t Hle Hnow Ht. destruct (window_init n ops s now) as [Hw' Hl']; try done; [lia|apply Hlast; [done|lia]|].
  apply Hw'. by rewrite Hl'.
Qed.

Definition sample_log : log := [(100, incTotal 1); (100, incOks 1); (103, incTotal 1); (109, incErrs 2)].
Definition sample_stats : HolderStatsSet :=
  mkHolderStatsSet 109 [new_HolderStats; new_HolderStats; new_HolderStats; new_HolderStats; mkHolderStats 0 0 0 0 0 2].
Lemma sample_record : record_all sample_log (new_HolderStatsSet 5) = Ok sample_stats.
Proof. vm_compute. reflexivity. Qed.
Lemma stats_window_witness :
  m_stats (stats_init 110 sample_stats) !! slot 109 (m_stats (stats_init 110 sample_stats)) = Some (mkHolderStats 0 0 0 0 0 2) ∧
  m_stats (stats_init 110 sample_stats) !! slot 108 (m_stats (stats_init 110 sample_stats)) = Some new_HolderStats.
Proof.
  assert (StronglySorted Z.le (sample_log.*1)) as Hs by (repeat constructor; done).
  assert (Forall (λ t, 0 ≤ t < 2 ^ 32 - 1) (sample_log.*1)) as Hr by (repeat constructor; done).
  destruct (stats_window 5 sample_log ltac:(lia) Hs Hr) as (s & E & H). rewrite sample_record in E. injection E as <-.
  assert (Forall (λ u, u ≤ 110) (sample_log.*1)) as Hn by (repeat constructor; done).
  split; [exact (H 110 109 Hn ltac:(lia) ltac:(lia))|exact (H 110 108 Hn ltac:(lia) ltac:(lia))].
Defined.
