(* ===== verification/LoadBalance.v ===== *)
(** * Load balancing (streams/load_balance.cc)

    A balancer holds the connections of one service and picks one for a request: in
    rotation, or at random in proportion to weights.  [SDLoadBalance] keeps one
    balancer for each service and follows the changes of the service discovery. *)
From S2P Require Import Prelude HolderStats.

(** ** Data *)
(** [LoadBalanceItem] and [FairLoadBalanceItem]; a stream is known by its number. *)
Record LoadBalanceItem := mkLoadBalanceItem {
  m_id : Z; m_stream : option nat; m_weight : Z; item_stats : HolderStatsSet; is_fair : bool }.
Definition with_item_stats s it := mkLoadBalanceItem (m_id it) (m_stream it) (m_weight it) s (is_fair it).

Inductive Type' := ROUNDROBIN | WEIGHT | FAIR.
Inductive lb_class := RoundRobinLoadBalance | WeightLoadBalance.

(** A balancer; items are shared pointers, known by their number in a heap. *)
Record LoadBalance := mkLoadBalance {
  lb_kind : lb_class; m_datas : gmap Z nat; m_lastInitTime : Z; m_items : list nat; m_weights : list Z }.
Definition new_LoadBalance (k : lb_class) : LoadBalance := mkLoadBalance k ∅ 0 [] [].
Definition set_datas d b := mkLoadBalance (lb_kind b) d (m_lastInitTime b) (m_items b) (m_weights b).
Definition set_initTime t b := mkLoadBalance (lb_kind b) (m_datas b) t (m_items b) (m_weights b).
Definition set_items l b := mkLoadBalance (lb_kind b) (m_datas b) (m_lastInitTime b) l (m_weights b).
Definition set_weights l b := mkLoadBalance (lb_kind b) (m_datas b) (m_lastInitTime b) (m_items b) l.

(** What a call finds outside: which streams are connected, [time(0)], the clock in
    milliseconds and the value of [rand()]. *)
Record env := mkEnv { connected : nat → bool; now_s : Z; now_ms : Z; rand_value : Z }.

(** The order in which a hash table is iterated is any order of its entries. *)
Class MapOrder := {
  order : ∀ {A}, gmap Z A → list (Z * A);
  order_perm {A} (m : gmap Z A) : order m ≡ₚ map_to_list m }.

(** ** Items *)
Definition W : Type := list LoadBalanceItem * LoadBalance.
Definition get_item (p : nat) : M W LoadBalanceItem :=
  let! w := getst in lift (of_option NullDeref (w.1 !! p)).
Definition get_lb : M W LoadBalance := let! w := getst in ret (w.2).
Definition mod_lb (f : LoadBalance → LoadBalance) : M W unit := modst (λ w, (w.1, f (w.2))).

Definition isValid (e : env) (it : LoadBalanceItem) : bool :=
  if m_stream it is Some s then connected e s else false.

(** [FairLoadBalanceItem::getWeight] without the update of the statistics. *)
Definition fair_weight (e : env) (it : LoadBalanceItem) : outcome Z :=
  obind (int32_of (float_mul (float_of (m_weight it)) (stats_set_getWeight (now_s e) (item_stats it)).1)) (λ v,
  obind (of_option NullDeref (m_stream it)) (λ s,
  Ok (if connected e s then if 1 <? v then v else 1 else 1))).
Definition getWeight (e : env) (p : nat) : M W Z :=
  let! it := get_item p in
  if is_fair it then
    modst (λ w, (<[p := with_item_stats (stats_init (now_s e) (item_stats it)) it]> (w.1), w.2)) ;;!
    lift (fair_weight e it)
  else ret (m_weight it).

(** ** Balancers *)
Fixpoint valid_items (e : env) (ps : list nat) : M W (list nat) :=
  match ps with
  | [] => ret []
  | p :: ps =>
    let! it := get_item p in
    let! l := valid_items e ps in
    ret (if isValid e it then p :: l else l)
  end.
(** The running totals; they are int64_t sums of int32_t weights. *)
Fixpoint sum_weights (e : env) (total : Z) (ps : list nat) : M W (list Z) :=
  match ps with
  | [] => ret []
  | p :: ps =>
    let! w := getWeight e p in
    let! l := sum_weights e (total + w) ps in
    ret (total + w :: l)
  end.

Section balancer.
Context `{MapOrder}.

Definition initNolock (e : env) : M W unit :=
  let! b := get_lb in
  let! items := valid_items e ((order (m_datas b)).*2) in
  mod_lb (set_items items) ;;!
  match lb_kind b with
  | RoundRobinLoadBalance => ret tt
  | WeightLoadBalance => let! ws := sum_weights e 0 items in mod_lb (set_weights ws)
  end.
Definition checkInit (e : env) : M W unit :=
  let! b := get_lb in
  if 500 <? u64 (now_ms e - m_lastInitTime b) then initNolock e ;;! mod_lb (set_initTime (now_ms e)) else ret tt.

(** The search from position [r] on, round the table. *)
Fixpoint probe (e : env) (items : list nat) (r i : Z) (steps : nat) : M W (option nat) :=
  match steps with
  | O => ret None
  | S steps =>
    let! p := lift (of_option OutOfBounds (items !! Z.to_nat ((r + i) mod Z.of_nat (length items)))) in
    let! it := get_item p in
    if isValid e it then ret (Some p) else probe e items r (i + 1) steps
  end.

(** [std::upper_bound], the binary search, over the comparison of an unsigned value
    with the signed totals. *)
Fixpoint upper_bound (fuel first len : nat) (v : Z) (l : list Z) : nat :=
  match fuel with
  | O => first
  | S fuel =>
    if decide (len = 0%nat) then first else
    let half := (len / 2)%nat in let middle := (first + half)%nat in
    if v <? u64 (nth middle l 0) then upper_bound fuel first half v l
    else upper_bound fuel (S middle) (len - half - 1) v l
  end.
Definition getIdx (e : env) (v : Z) (ws : list Z) : outcome Z :=
  match last ws with
  | None => Ok (-1)
  | Some total =>
    if u64 total =? 0 then Undef DivByZero else
    let dis := (if v =? 2 ^ 64 - 1 then u64 (rand_value e) else v) mod u64 total in
    let it := upper_bound (length ws) 0 (length ws) dis ws in
    obind (assert (negb (bool_decide (it = length ws)))) (λ _, Ok (i32 (Z.of_nat it)))
  end.

(** [get(v)]; the largest [v] asks for a random pick. *)
Definition get (e : env) (v : Z) : M W (option nat) :=
  checkInit e ;;!
  let! b := get_lb in
  let n := length (m_items b) in
  match lb_kind b with
  | RoundRobinLoadBalance =>
    if decide (n = 0%nat) then ret None else
    let r := u32 ((if v =? 2 ^ 64 - 1 then u64 (rand_value e) else v) mod Z.of_nat n) in
    probe e (m_items b) r 0 n
  | WeightLoadBalance =>
    let! idx := lift (getIdx e v (m_weights b)) in
    if idx =? -1 then ret None else probe e (m_items b) idx 0 n
  end.

Definition getById (id : Z) (b : LoadBalance) : option nat := m_datas b !! id.
Definition add (e : env) (p : nat) : M W unit :=
  let! it := get_item p in
  mod_lb (λ b, set_datas (<[m_id it := p]> (m_datas b)) b) ;;! initNolock e.
Definition del (e : env) (p : nat) : M W unit :=
  let! it := get_item p in
  mod_lb (λ b, set_datas (delete (m_id it) (m_datas b)) b) ;;! initNolock e.
Fixpoint insert_all (ps : list nat) : M W unit :=
  match ps with
  | [] => ret tt
  | p :: ps =>
    let! it := get_item p in
    mod_lb (λ b, set_datas (<[m_id it := p]> (m_datas b)) b) ;;! insert_all ps
  end.
Definition set (e : env) (ps : list nat) : M W unit :=
  mod_lb (set_datas ∅) ;;! insert_all ps ;;! initNolock e.
(** [update] gives back [dels], filled with the items that were there. *)
Definition update (e : env) (adds : gmap Z nat) (dels : gmap Z (option nat)) : M W (gmap Z (option nat)) :=
  let! b := get_lb in
  let found := map_imap (λ id o, Some (if m_datas b !! id is Some p then Some p else o)) dels in
  mod_lb (set_datas (adds ∪ filter (λ x, dels !! x.1 = None) (m_datas b))) ;;!
  initNolock e ;;!
  ret found.

(** ** Service discovery *)
(** Domains and services are byte strings; [closed] lists the streams handed to the
    worker that closes them. *)
Record SDLoadBalance := mkSDLoadBalance {
  sd_items : list LoadBalanceItem;
  sd_lbs : list LoadBalance;
  sd_datas : gmap (list Z * list Z) nat;
  sd_types : gmap (list Z * list Z) Type';
  closed : list nat }.
Definition m_defaultType : Type' := FAIR.
Definition getType (domain service : list Z) (s : SDLoadBalance) : Type' := default m_defaultType (sd_types s !! (domain, service)).
Definition createLoadBalance (t : Type') : LoadBalance :=
  match t with
  | ROUNDROBIN => new_LoadBalance RoundRobinLoadBalance
  | WEIGHT | FAIR => new_LoadBalance WeightLoadBalance
  end.
Definition createLoadBalanceItem (t : Type') : LoadBalanceItem :=
  mkLoadBalanceItem 0 None 0 (new_HolderStatsSet 5) (match t with FAIR => true | _ => false end).

Definition sd_get (domain service : list Z) (auto_create : bool) : M SDLoadBalance (option nat) :=
  let! s := getst in
  match sd_datas s !! (domain, service) with
  | Some lb => ret (Some lb)
  | None =>
    if negb auto_create then ret None else
    let lb := length (sd_lbs s) in
    putst (mkSDLoadBalance (sd_items s) (sd_lbs s ++ [createLoadBalance (getType domain service s)])
      (<[(domain, service) := lb]> (sd_datas s)) (sd_types s) (closed s)) ;;!
    ret (Some lb)
  end.
Definition on_lb {A} (lb : nat) (m : M W A) : M SDLoadBalance A := λ s,
  match sd_lbs s !! lb with
  | None => (Undef NullDeref, s)
  | Some b => let '(o, (its, b)) := m (sd_items s, b) in
    (o, mkSDLoadBalance its (<[lb := b]> (sd_lbs s)) (sd_datas s) (sd_types s) (closed s))
  end.

(** The items made for the new services; [cb] makes a stream or fails. *)
Context {ServiceItemInfo : Type}.
Fixpoint create_items (t : Type') (cb : ServiceItemInfo → option nat) (l : list (Z * ServiceItemInfo))
    : M SDLoadBalance (gmap Z nat) :=
  match l with
  | [] => ret ∅
  | (id, i) :: l =>
    match cb i with
    | None => create_items t cb l
    | Some stream =>
      let! s := getst in
      let p := length (sd_items s) in
      let it := createLoadBalanceItem t in
      putst (mkSDLoadBalance (sd_items s ++ [mkLoadBalanceItem id (Some stream) 10000 (item_stats it) (is_fair it)])
        (sd_lbs s) (sd_datas s) (sd_types s) (closed s)) ;;!
      let! m := create_items t cb l in
      ret (<[id := p]> m)
    end
  end.
(** [LoadBalanceItem::close] for each entry that was found. *)
Fixpoint close_all (l : list (Z * option nat)) : M SDLoadBalance unit :=
  match l with
  | [] => ret tt
  | (_, None) :: l => close_all l
  | (_, Some p) :: l =>
    let! s := getst in
    let! it := lift (of_option NullDeref (sd_items s !! p)) in
    putst (mkSDLoadBalance (sd_items s) (sd_lbs s) (sd_datas s) (sd_types s) (closed s ++ option_list (m_stream it))) ;;!
    close_all l
  end.
Definition onServiceChange (e : env) (cb : ServiceItemInfo → option nat) (domain service : list Z)
    (old_value new_value : gmap Z ServiceItemInfo) : M SDLoadBalance unit :=
  let! s := getst in
  let t := getType domain service s in
  let! lb := sd_get domain service true in
  let! lb := lift (of_option NullDeref lb) in
  let dels : gmap Z (option nat) := (λ _, None) <$> filter (λ x, new_value !! x.1 = None) old_value in
  let add_values := filter (λ x, old_value !! x.1 = None) new_value in
  let! adds := create_items t cb (order add_values) in
  let! dels := on_lb lb (update e adds dels) in
  close_all (order dels).

(** [initConf]: the configured types replace the old ones. *)
Definition type_of (conf : list Z) : Type' :=
  if bool_decide (conf = bytes_of_string "round_robin") then ROUNDROBIN
  else if bool_decide (conf = bytes_of_string "weight") then WEIGHT else FAIR.
Definition initConf (confs : gmap (list Z * list Z) (list Z)) : M SDLoadBalance unit :=
  modst (λ s, mkSDLoadBalance (sd_items s) (sd_lbs s) (sd_datas s) (type_of <$> confs) (closed s)).
End balancer.
