(* ===== verification/LoadBalanceThms.v ===== *)
(** * Load balancing: the properties *)
From S2P Require Import Prelude HolderStats LoadBalance.

(** ** Items and their weights *)
Definition valid_at (e : env) (its : list LoadBalanceItem) (p : nat) : bool :=
  if its !! p is Some it then isValid e it else false.
Definition weight_of (e : env) (it : LoadBalanceItem) : outcome Z :=
  if is_fair it then fair_weight e it else Ok (m_weight it).
Definition weighs (e : env) (its : list LoadBalanceItem) (p : nat) (w : Z) : Prop :=
  ∃ it, its !! p = Some it ∧ weight_of e it = Ok w.
Definition in_heap (its : list LoadBalanceItem) (p : nat) : Prop := (p < length its)%nat.

(** Weighing an item moves its statistics to the present second, once. *)
Definition refreshed_item (e : env) (a b : LoadBalanceItem) : Prop :=
  b = a ∨ b = with_item_stats (stats_init (now_s e) (item_stats a)) a.
Definition refreshed (e : env) : list LoadBalanceItem → list LoadBalanceItem → Prop := Forall2 (refreshed_item e).

Lemma stats_init_idem now s : stats_init now (stats_init now s) = stats_init now s.
Proof.
  unfold stats_init at 2. destruct (Z.ltb_spec (m_lastUpdateTime s) now) as [|]; [|done].
  unfold stats_init. cbn [m_lastUpdateTime]. by rewrite Z.ltb_irrefl, (proj2 (Z.ltb_lt _ _)) by done.
Qed.
Lemma refreshed_item_same e a b : refreshed_item e a b →
  m_id b = m_id a ∧ m_stream b = m_stream a ∧ m_weight b = m_weight a ∧ is_fair b = is_fair a ∧ weight_of e b = weight_of e a.
Proof.
  intros [->| ->]; [done|]. split_and!; try done. unfold weight_of, fair_weight, stats_set_getWeight. cbn.
  by rewrite stats_init_idem.
Qed.
#[export] Instance refreshed_refl e : Reflexive (refreshed e).
Proof. intros l. induction l; constructor; [by left|done]. Qed.
#[export] Instance refreshed_trans e : Transitive (refreshed e).
Proof.
  intros l1 l2 l3 H. revert l3. induction H as [|a b l1 l2 Hab _ IH]; intros l3 H; inversion H as [|? c ? l3' Hbc]; subst; constructor; [|by apply IH].
  destruct Hab as [->| ->], Hbc as [->| ->]; [by left|by right|by right|]. right. cbn. by rewrite stats_init_idem.
Qed.
Lemma refreshed_lookup e its its' p it : refreshed e its its' → its !! p = Some it →
  ∃ it', its' !! p = Some it' ∧ refreshed_item e it it'.
Proof. intros H Hp. by eapply Forall2_lookup_l. Qed.
Lemma refreshed_valid e its its' p : refreshed e its its' → valid_at e its' p = valid_at e its p.
Proof.
  intros H. unfold valid_at. destruct (its !! p) as [it|] eqn:E.
  - destruct (refreshed_lookup e its its' p it H E) as (it' & -> & Hr). unfold isValid. by rewrite (proj1 (proj2 (refreshed_item_same e it it' Hr))).
  - apply lookup_ge_None in E. apply Forall2_length in H. rewrite H in E. by rewrite lookup_ge_None_2.
Qed.
Lemma refreshed_weighs e its its' p w : refreshed e its its' → weighs e its p w → weighs e its' p w.
Proof.
  intros H (it & Hp & Hw). destruct (refreshed_lookup e its its' p it H Hp) as (it' & Hp' & Hr).
  exists it'. split; [done|]. by destruct (refreshed_item_same e it it' Hr) as (_ & _ & _ & _ & ->).
Qed.

Lemma get_item_ok its b p it : its !! p = Some it → get_item p (its, b) = (Ok it, (its, b)).
Proof. intros H. unfold get_item, bind, getst, lift. cbn. by rewrite H. Qed.
Lemma in_heap_lookup its p : in_heap its p → ∃ it, its !! p = Some it.
Proof. intros H. by apply lookup_lt_is_Some_2. Qed.

Lemma valid_items_ok e its b ps : Forall (in_heap its) ps →
  valid_items e ps (its, b) = (Ok (filter (λ p, valid_at e its p = true) ps), (its, b)).
Proof.
  induction 1 as [|p ps Hp _ IH]; [done|]. cbn [valid_items]. destruct (in_heap_lookup its p Hp) as (it & E).
  erewrite bind_ok by by apply get_item_ok. erewrite bind_ok by exact IH. rewrite filter_cons.
  assert (valid_at e its p = isValid e it) as -> by (unfold valid_at; by rewrite E).
  unfold ret. by destruct (isValid e it).
Qed.

Fixpoint totals (t : Z) (ws : list Z) : list Z := match ws with [] => [] | w :: ws => (t + w) :: totals (t + w) ws end.
Lemma getWeight_ok e its b p w : weighs e its p w →
  ∃ its', getWeight e p (its, b) = (Ok w, (its', b)) ∧ refreshed e its its'.
Proof.
  intros (it & Hp & Hw). unfold getWeight. unfold weight_of in Hw. destruct (is_fair it) eqn:Ef.
  - exists (<[p := with_item_stats (stats_init (now_s e) (item_stats it)) it]> its). split.
    + erewrite bind_ok by by apply get_item_ok. rewrite Ef. unfold bind, modst, lift. cbn. by rewrite Hw.
    + rewrite <- (list_insert_id its p it Hp) at 1. apply Forall2_insert; [reflexivity|by right].
  - exists its. split; [|reflexivity]. erewrite bind_ok by by apply get_item_ok. rewrite Ef. by injection Hw as ->.
Qed.
Lemma sum_weights_ok e b ps : ∀ its ws t, Forall2 (weighs e its) ps ws →
  ∃ its', sum_weights e t ps (its, b) = (Ok (totals t ws), (its', b)) ∧ refreshed e its its'.
Proof.
  induction ps as [|p ps IH]; intros its ws t H; inversion H as [|? w ? ws' Hw Hws]; subst; cbn [sum_weights totals].
  { exists its. by split. }
  destruct (getWeight_ok e its b p w Hw) as (its1 & E1 & R1).
  destruct (IH its1 ws' (t + w)) as (its2 & E2 & R2).
  { eapply Forall2_impl; [exact Hws|]. intros q u Hq. by eapply refreshed_weighs. }
  exists its2. split; [|by etrans]. erewrite bind_ok by exact E1. by erewrite bind_ok by exact E2.
Qed.

Section balancer.
Context `{MO : MapOrder}.

(** The items a refresh leaves. *)
Definition live (e : env) (its : list LoadBalanceItem) (b : LoadBalance) : list nat :=
  filter (λ p, valid_at e its p = true) ((order (m_datas b)).*2).
Definition datas_ok (its : list LoadBalanceItem) (b : LoadBalance) : Prop := map_Forall (λ _ p, in_heap its p) (m_datas b).

Lemma order_in_heap its b : datas_ok its b → Forall (in_heap its) ((order (m_datas b)).*2).
Proof.
  intros Hd. apply Forall_fmap, Forall_forall. intros [id p] Hin. rewrite order_perm in Hin.
  apply elem_of_map_to_list in Hin. by apply (Hd id p).
Qed.
Lemma initNolock_rr e its b : lb_kind b = RoundRobinLoadBalance → datas_ok its b →
  initNolock e (its, b) = (Ok tt, (its, set_items (live e its b) b)).
Proof.
  intros Hk Hd. unfold initNolock, get_lb, bind, getst, ret, mod_lb, modst. cbn [snd fst].
  rewrite valid_items_ok by by apply order_in_heap. by rewrite Hk.
Qed.
Lemma initNolock_weight e its b ws : lb_kind b = WeightLoadBalance → datas_ok its b → Forall2 (weighs e its) (live e its b) ws →
  ∃ its', initNolock e (its, b) = (Ok tt, (its', set_weights (totals 0 ws) (set_items (live e its b) b))) ∧ refreshed e its its'.
Proof.
  intros Hk Hd Hw. destruct (sum_weights_ok e (set_items (live e its b) b) (live e its b) its ws 0 Hw) as (its' & E & R).
  exists its'. split; [|done]. unfold initNolock, get_lb, bind, getst, ret, mod_lb, modst. cbn [snd fst].
  rewrite valid_items_ok by by apply order_in_heap. fold (live e its b). rewrite Hk. cbn [fst snd]. by rewrite E.
Qed.

(** ** The search *)
Lemma probe_ok e its b items : ∀ steps r i, Forall (in_heap its) items → 0 ≤ r → 0 ≤ i → items ≠ [] →
  probe e items r i steps (its, b) =
    (Ok (head (filter (λ p, valid_at e its p = true)
           ((λ k, nth (Z.to_nat ((r + i + Z.of_nat k) mod Z.of_nat (length items))) items 0%nat) <$> seq 0 steps))), (its, b)).
Proof.
  induction steps as [|steps IH]; intros r i Hh Hr Hi Hne; [done|]. cbn [probe seq fmap list_fmap].
  rewrite Z.add_0_r. set (j := Z.to_nat ((r + i) mod Z.of_nat (length items))).
  assert (0 < Z.of_nat (length items)) by (destruct items; [done|cbn; lia]).
  assert (j < length items)%nat as Hj by (subst j; pose proof (Z.mod_pos_bound (r + i) (Z.of_nat (length items))); lia).
  destruct (lookup_lt_is_Some_2 items j Hj) as (p & Hp). unfold bind at 1, lift. rewrite Hp. cbn [of_option].
  rewrite (nth_lookup_Some _ _ _ _ Hp). pose proof (proj1 (Forall_lookup _ _) Hh _ _ Hp) as Hin.
  destruct (in_heap_lookup its p Hin) as (it & E). erewrite bind_ok by by apply get_item_ok. rewrite filter_cons.
  assert (valid_at e its p = isValid e it) as -> by (unfold valid_at; by rewrite E).
  destruct (isValid e it); [by rewrite decide_True|]. rewrite decide_False by done.
  rewrite IH by (done || lia). do 4 f_equal. rewrite <- fmap_S_seq, <- list_fmap_compose. apply list_fmap_ext.
  intros k x _. cbn. do 3 f_equal. lia.
Qed.

Lemma rotation (items : list nat) r : (r < length items)%nat →
  (λ k, nth (Z.to_nat ((Z.of_nat r + 0 + Z.of_nat k) mod Z.of_nat (length items))) items 0%nat) <$> seq 0 (length items) =
  drop r items ++ take r items.
Proof.
  intros Hr. apply list_eq_same_length with (n := length items); [by rewrite length_app, length_drop, length_take; lia|by rewrite length_fmap, length_seq|].
  intros k x y Hk Hx Hy. rewrite list_lookup_fmap, lookup_seq_lt in Hx by done. cbn in Hx. injection Hx as <-.
  rewrite Z.add_0_r in *. destruct (decide (r + k < length items)%nat) as [H1|H1].
  - rewrite lookup_app_l, lookup_drop in Hy by (rewrite length_drop; lia).
    rewrite Z.mod_small by lia. replace (Z.to_nat (Z.of_nat r + Z.of_nat k)) with (r + k)%nat by lia. by apply nth_lookup_Some.
  - rewrite lookup_app_r, length_drop, lookup_take_lt in Hy by (rewrite ?length_drop; lia).
    replace ((Z.of_nat r + Z.of_nat k) mod Z.of_nat (length items)) with (Z.of_nat (k - (length items - r))).
    + rewrite Nat2Z.id. by apply nth_lookup_Some.
    + apply Z.mod_unique with 1; lia.
Qed.

(** ** Rotation *)
Definition due (e : env) (b : LoadBalance) : bool := 500 <? u64 (now_ms e - m_lastInitTime b).
Definition pick (e : env) (v : Z) : Z := if v =? 2 ^ 64 - 1 then rand_value e else v.

(** The rotating balancer gives the first connected item at or after the
    position that the request chose (or the random number), round the table; the
    table is first rebuilt when it is older than half a second, and then an item is
    found whenever one of the balancer's items is connected. *)
Theorem rr_get_exact e v its b :
  lb_kind b = RoundRobinLoadBalance → datas_ok its b → Forall (in_heap its) (m_items b) →
  0 ≤ v < 2 ^ 64 → 0 ≤ rand_value e < 2 ^ 31 →
  let b' := if due e b then set_initTime (now_ms e) (set_items (live e its b) b) else b in
  let items := m_items b' in let r := Z.to_nat (pick e v mod Z.of_nat (length items)) in
  Z.of_nat (length items) < 2 ^ 32 →
  ∃ o, get e v (its, b) = (Ok o, (its, b')) ∧
    o = head (filter (λ p, valid_at e its p = true) (drop r items ++ take r items)) ∧
    (due e b = true → o = None → ∀ id p, m_datas b !! id = Some p → valid_at e its p = false).
Proof.
  intros Hk Hd Hi Hv Hr b' items r Hn.
  assert (checkInit e (its, b) = (Ok tt, (its, b'))) as E1.
  { unfold checkInit, get_lb, bind, getst, ret. cbn [snd]. fold (due e b). subst b'. destruct (due e b); [|done].
    by rewrite initNolock_rr. }
  assert (Forall (in_heap its) items) as Hh.
  { subst items b'. destruct (due e b); [|done]. apply Forall_forall. intros p [_ Hp]%list_elem_of_filter.
    pose proof (order_in_heap its b Hd) as Ho. rewrite Forall_forall in Ho. by apply Ho. }
  assert (u64 (rand_value e) = rand_value e) as Hrand by by apply wrap_small; lia.
  exists (head (filter (λ p, valid_at e its p = true) (drop r items ++ take r items))).
  split; [|split; [done|]].
  - unfold get. erewrite bind_ok by exact E1. unfold get_lb, bind at 1, bind at 1, getst, ret. cbn [snd].
    assert (lb_kind b' = RoundRobinLoadBalance) as -> by (subst b'; by destruct (due e b)). fold items.
    rewrite Hrand. change (if v =? 2 ^ 64 - 1 then rand_value e else v) with (pick e v).
    destruct (decide (length items = 0%nat)) as [Hz|Hz].
    { destruct items; [|done]. by rewrite drop_nil, take_nil. }
    pose proof (Z.mod_pos_bound (pick e v) (Z.of_nat (length items)) ltac:(lia)) as Hb.
    rewrite wrap_small by lia. rewrite <- (Z2Nat.id (pick e v mod Z.of_nat (length items))) by lia. fold r.
    rewrite probe_ok by (done || lia || by intros E; rewrite E in Hz). by rewrite rotation by lia.
  - intros Hdue Hnone id p Hp. destruct (valid_at e its p) eqn:Ev; [|done]. exfalso.
    assert (p ∈ drop r items ++ take r items) as Hin.
    { assert (p ∈ items) as Hin.
      { subst items b'. rewrite Hdue. apply list_elem_of_filter. split; [done|].
        apply list_elem_of_fmap. exists (id, p). split; [done|]. rewrite order_perm. by apply elem_of_map_to_list. }
      rewrite <- (take_drop r items) in Hin. apply elem_of_app in Hin. apply elem_of_app. tauto. }
    assert (p ∈ filter (λ p, valid_at e its p = true) (drop r items ++ take r items)) as Hf by by apply list_elem_of_filter.
    destruct (filter _ _); [by apply elem_of_nil in Hf|done].
Qed.

(** ** Weights *)
Definition sumZ (l : list Z) : Z := foldr Z.add 0 l.
Lemma sumZ_cons x l : sumZ (x :: l) = x + sumZ l.
Proof. done. Qed.
Lemma sumZ_app l k : sumZ (l ++ k) = sumZ l + sumZ k.
Proof. induction l as [|x l IH]; [done|]. cbn [app]. rewrite !sumZ_cons. lia. Qed.
Lemma sumZ_nonneg l : Forall (Z.le 0) l → 0 ≤ sumZ l.
Proof. induction 1; [done|]. rewrite sumZ_cons. lia. Qed.
Lemma sumZ_take_le i l : Forall (Z.le 0) l → sumZ (take i l) ≤ sumZ l.
Proof.
  intros H. rewrite <- (take_drop i l) at 2. rewrite sumZ_app. pose proof (sumZ_nonneg (drop i l) (Forall_drop _ _ _ H)). lia.
Qed.
Lemma sumZ_take_mono i j l : Forall (Z.le 0) l → (i ≤ j)%nat → sumZ (take i l) ≤ sumZ (take j l).
Proof. intros H Hij. rewrite <- (Nat.min_l i j), <- take_take by done. apply sumZ_take_le. by apply Forall_take. Qed.
Lemma totals_lookup t ws : ∀ i, (i < length ws)%nat → totals t ws !! i = Some (t + sumZ (take (S i) ws)).
Proof.
  revert t. induction ws as [|w ws IH]; intros t i Hi; cbn [length] in Hi; [lia|].
  change (take (S i) (w :: ws)) with (w :: take i ws). rewrite sumZ_cons. destruct i as [|i]; cbn [totals lookup list_lookup].
  - rewrite take_0. f_equal. unfold sumZ. cbn. lia.
  - rewrite IH by lia. f_equal. lia.
Qed.
Lemma totals_length t ws : length (totals t ws) = length ws.
Proof. revert t. induction ws; intros t; cbn; [done|]. by f_equal. Qed.

(** The binary search on totals that do not fall. *)
Lemma upper_bound_spec v l fuel : ∀ first len,
  (∀ i x, l !! i = Some x → 0 ≤ x < 2 ^ 64) →
  (∀ i j x y, (i ≤ j)%nat → l !! i = Some x → l !! j = Some y → x ≤ y) →
  (len ≤ fuel)%nat → (first + len ≤ length l)%nat →
  (∀ i x, (i < first)%nat → l !! i = Some x → x ≤ v) → (∀ i x, (first + len ≤ i)%nat → l !! i = Some x → v < x) →
  let k := upper_bound fuel first len v l in
  (k ≤ length l)%nat ∧ (∀ i x, (i < k)%nat → l !! i = Some x → x ≤ v) ∧ (∀ i x, (k ≤ i)%nat → l !! i = Some x → v < x).
Proof.
  induction fuel as [|fuel IH]; intros first len Hr Hs Hf Hl Hlo Hhi; cbn [upper_bound] in *.
  { assert (len = 0%nat) as -> by lia. rewrite Nat.add_0_r in *. done. }
  destruct (decide (len = 0%nat)) as [->|Hz]; [by rewrite Nat.add_0_r in *|].
  assert (len / 2 < len)%nat as Hh by (apply Nat.div_lt; lia). set (half := (len / 2)%nat) in *.
  destruct (lookup_lt_is_Some_2 l (first + half)) as (x & Hx); [lia|]. rewrite (nth_lookup_Some _ _ _ _ Hx), wrap_small by by eapply Hr.
  destruct (Z.ltb_spec v x) as [Hv|Hv].
  - apply IH; try done; try lia. intros i y Hi Hy. specialize (Hs (first + half)%nat i x y Hi Hx Hy). lia.
  - apply IH; try done; try lia.
    + intros i y Hi Hy. specialize (Hs i (first + half)%nat y x ltac:(lia) Hy Hx). lia.
    + intros i y Hi Hy. apply (Hhi i); [lia|done].
Qed.

Lemma getIdx_ok e v ws :
  Forall (Z.le 0) ws → 0 < sumZ ws < 2 ^ 63 → Z.of_nat (length ws) < 2 ^ 31 → 0 ≤ v < 2 ^ 64 - 1 →
  ∃ i, getIdx e v (totals 0 ws) = Ok (Z.of_nat i) ∧ (i < length ws)%nat ∧
    sumZ (take i ws) ≤ v mod sumZ ws < sumZ (take (S i) ws).
Proof.
  intros Hp Hsum Hlen Hv. assert (0 < length ws)%nat as Hn by (destruct ws; [cbn in Hsum; lia|cbn; lia]).
  assert (last (totals 0 ws) = Some (sumZ ws)) as Hlast.
  { rewrite last_lookup, totals_length, totals_lookup by lia. rewrite take_ge by lia. done. }
  unfold getIdx. rewrite Hlast, (wrap_small 64 (sumZ ws)) by lia. destruct (Z.eqb_spec (sumZ ws) 0); [lia|].
  destruct (Z.eqb_spec v (2 ^ 64 - 1)); [lia|]. rewrite totals_length. set (d := v mod sumZ ws).
  pose proof (Z.mod_pos_bound v (sumZ ws) ltac:(lia)) as Hd. fold d in Hd.
  assert (∀ i x, totals 0 ws !! i = Some x → x = sumZ (take (S i) ws) ∧ (i < length ws)%nat) as Ht.
  { intros i x Hx. pose proof (lookup_lt_Some _ _ _ Hx) as Hi. rewrite totals_length in Hi. rewrite totals_lookup in Hx by done.
    split; [by injection Hx as <-|done]. }
  destruct (upper_bound_spec d (totals 0 ws) (length ws) 0 (length ws)) as (Hk & Hlo & Hhi).
  - intros i x [-> _]%Ht. pose proof (sumZ_take_le (S i) ws Hp). pose proof (sumZ_nonneg _ (Forall_take _ (S i) _ Hp)). lia.
  - intros i j x y Hij [-> _]%Ht [-> _]%Ht. apply sumZ_take_mono; [done|lia].
  - done.
  - by rewrite totals_length.
  - lia.
  - intros i x Hi Hx%lookup_lt_Some. rewrite totals_length in Hx. lia.
  - set (k := upper_bound _ _ _ _ _) in *. rewrite totals_length in Hk.
    assert (k < length ws)%nat as Hk2.
    { destruct (decide (k = length ws)) as [E|]; [|lia]. exfalso.
      specialize (Hlo (length ws - 1)%nat _ ltac:(lia) (totals_lookup 0 ws (length ws - 1) ltac:(lia))). rewrite take_ge in Hlo by lia. lia. }
    exists k. rewrite bool_decide_false by lia. cbn [negb assert obind]. rewrite i32_small by lia. split; [done|]. split; [done|].
    split; [|exact (Hhi k _ (le_n k) (totals_lookup 0 ws k Hk2))].
    clearbody k. destruct k as [|k]; [rewrite take_0; change (sumZ []) with 0; lia|].
    assert (k < length ws)%nat as Hk3 by lia. exact (Hlo k _ (Nat.lt_succ_diag_r k) (totals_lookup 0 ws k Hk3)).
Qed.

Lemma getIdx_iff e d ws i :
  Forall (Z.le 0) ws → sumZ ws < 2 ^ 63 → Z.of_nat (length ws) < 2 ^ 31 → 0 ≤ d < sumZ ws →
  getIdx e d (totals 0 ws) = Ok (Z.of_nat i) ↔ sumZ (take i ws) ≤ d < sumZ (take (S i) ws).
Proof.
  intros Hp Hs Hl Hd. destruct (getIdx_ok e d ws Hp ltac:(lia) Hl ltac:(lia)) as (k & -> & Hk & Hb).
  rewrite Z.mod_small in Hb by lia. split.
  - intros [= ->%Nat2Z.inj]. done.
  - intros Hi. do 2 f_equal. destruct (Nat.lt_trichotomy k i) as [Hlt|[->|Hlt]]; [|done|].
    + pose proof (sumZ_take_mono (S k) i ws Hp Hlt). lia.
    + pose proof (sumZ_take_mono (S i) k ws Hp Hlt). lia.
Qed.

Lemma length_filter_none {A} (P : A → Prop) `{∀ x, Decision (P x)} l : Forall (λ x, ¬ P x) l → length (filter P l) = 0%nat.
Proof. induction 1; [done|]. by rewrite filter_cons_False. Qed.
Lemma length_filter_all {A} (P : A → Prop) `{∀ x, Decision (P x)} l : Forall P l → length (filter P l) = length l.
Proof. induction 1; [done|]. rewrite filter_cons_True by done. cbn. by f_equal. Qed.

(** Of the possible remainders each item has exactly its weight. *)
Lemma getIdx_count e ws i w :
  Forall (Z.le 0) ws → sumZ ws < 2 ^ 63 → Z.of_nat (length ws) < 2 ^ 31 → ws !! i = Some w →
  Z.of_nat (length (filter (λ d, getIdx e d (totals 0 ws) = Ok (Z.of_nat i)) (seqZ 0 (sumZ ws)))) = w.
Proof.
  intros Hp Hs Hl Hi. set (a := sumZ (take i ws)). set (b := sumZ (take (S i) ws)).
  assert (b = a + w) as Hb. { subst a b. rewrite (take_S_r _ _ _ Hi), sumZ_app. unfold sumZ at 2. cbn. lia. }
  pose proof (proj1 (Forall_lookup _ _) Hp _ _ Hi) as Hw. cbn in Hw.
  pose proof (sumZ_take_le (S i) ws Hp) as Hle. fold b in Hle. pose proof (sumZ_nonneg _ (Forall_take _ i _ Hp)) as Ha. fold a in Ha.
  assert (sumZ ws = a + (w + (sumZ ws - b))) as E by lia. rewrite E.
  rewrite !seqZ_app, !filter_app, !length_app by lia.
  assert (∀ l, Forall (λ d, 0 ≤ d < sumZ ws ∧ ¬ (a ≤ d < b)) l → length (filter (λ d, getIdx e d (totals 0 ws) = Ok (Z.of_nat i)) l) = 0%nat) as Hno.
  { intros l Hf. apply length_filter_none. eapply Forall_impl; [exact Hf|]. intros d [Hd Hn] Hg. apply Hn. by apply (getIdx_iff e d ws i). }
  rewrite (Hno (seqZ 0 a)), (Hno (seqZ (0 + a + w) _)) by (apply Forall_seqZ; intros; lia). rewrite length_filter_all, length_seqZ; [lia|].
  apply Forall_seqZ. intros d Hd. apply getIdx_iff; done || lia.
Qed.

(** C23: The weighted balancer picks in proportion to the weights: with the table
    just rebuilt, the item that gets the request is the one in whose share of the
    running totals the number of the request falls, and of the remainders modulo the
    total weight each item has exactly as many as its weight - so a random number
    finds it with that probability. *)
Theorem weight_get_exact e v its b ws :
  lb_kind b = WeightLoadBalance → datas_ok its b → due e b = true → Forall2 (weighs e its) (live e its b) ws →
  Forall (Z.le 0) ws → 0 < sumZ ws < 2 ^ 63 → Z.of_nat (length ws) < 2 ^ 31 → 0 ≤ v < 2 ^ 64 - 1 →
  (∃ i p its' b', get e v (its, b) = (Ok (Some p), (its', b')) ∧ refreshed e its its' ∧ m_items b' = live e its b ∧
     live e its b !! i = Some p ∧ sumZ (take i ws) ≤ v mod sumZ ws < sumZ (take (S i) ws)) ∧
  (∀ i w, ws !! i = Some w →
     Z.of_nat (length (filter (λ d, getIdx e d (totals 0 ws) = Ok (Z.of_nat i)) (seqZ 0 (sumZ ws)))) = w).
Proof.
  intros Hk Hd Hdue Hw Hp Hs Hl Hv. split; [|intros i w; by apply getIdx_count; try lia].
  destruct (initNolock_weight e its b ws Hk Hd Hw) as (its' & E & R).
  set (b' := set_initTime (now_ms e) (set_weights (totals 0 ws) (set_items (live e its b) b))).
  assert (checkInit e (its, b) = (Ok tt, (its', b'))) as E1.
  { unfold checkInit, get_lb, bind, getst, ret. cbn [snd]. fold (due e b). by rewrite Hdue, E. }
  destruct (getIdx_ok e v ws Hp Hs Hl Hv) as (i & Ei & Hi & Hb). pose proof (Forall2_length _ _ _ Hw) as Hlen.
  destruct (lookup_lt_is_Some_2 (live e its b) i) as (p & Hpi); [lia|].
  exists i, p, its', b'. split; [|done]. unfold get. erewrite bind_ok by exact E1. unfold get_lb, bind at 1, bind at 1, getst, ret. cbn [snd].
  assert (lb_kind b' = WeightLoadBalance) as -> by done. change (m_weights b') with (totals 0 ws). change (m_items b') with (live e its b).
  unfold bind at 1, lift. rewrite Ei. destruct (Z.eqb_spec (Z.of_nat i) (-1)); [lia|].
  assert (live e its b ≠ []) as Hne by by intros E0; rewrite E0 in Hpi.
  assert (Forall (λ q, valid_at e its q = true) (live e its b)) as Hv1.
  { apply Forall_forall. by intros q [Hq _]%list_elem_of_filter. }
  assert (Forall (in_heap its') (live e its b)) as Hh.
  { apply Forall_forall. intros q [_ Hq]%list_elem_of_filter. pose proof (order_in_heap its b Hd) as Ho.
    rewrite Forall_forall in Ho. unfold in_heap. rewrite <- (Forall2_length _ _ _ R). by apply Ho. }
  destruct (length (live e its b)) as [|len] eqn:En; [by apply nil_length_inv in En|].
  rewrite probe_ok by (done || lia). cbn [seq fmap list_fmap]. rewrite En, !Z.add_0_r, Z.mod_small by lia.
  rewrite Nat2Z.id, (nth_lookup_Some _ _ _ _ Hpi), filter_cons_True; [done|].
  rewrite (refreshed_valid e its its' p R). rewrite Forall_forall in Hv1. apply Hv1. by eapply list_elem_of_lookup_2.
Qed.

(** Without weights there is nothing to divide by. *)
Lemma zero_weights e v ws : ws ≠ [] → Forall (λ w, w = 0) ws → getIdx e v (totals 0 ws) = Undef DivByZero.
Proof.
  intros Hne Hz. assert (sumZ ws = 0) as Hs. { clear Hne. induction Hz; [done|]. rewrite sumZ_cons. lia. }
  assert (0 < length ws)%nat by (destruct ws; [done|cbn; lia]).
  assert (last (totals 0 ws) = Some 0) as Hlast.
  { rewrite last_lookup, totals_length, totals_lookup by lia. rewrite take_ge by lia. by rewrite Hs. }
  unfold getIdx. by rewrite Hlast.
Qed.
End balancer.

(** ** At concrete inputs *)
#[export] Instance list_order : MapOrder := {| order A := map_to_list; order_perm A m := reflexivity _ |}.

Definition sample_env : env := mkEnv (λ _, true) 1700000000 1700000000123 3.
Definition item_1 : LoadBalanceItem := mkLoadBalanceItem 1 (Some 11%nat) 100 (new_HolderStatsSet 5) false.
Definition item_2 : LoadBalanceItem := mkLoadBalanceItem 2 (Some 12%nat) 300 (new_HolderStatsSet 5) false.
Definition two_items : list LoadBalanceItem := [item_1; item_2].
Definition rr : LoadBalance := mkLoadBalance RoundRobinLoadBalance {[1 := 0%nat; 2 := 1%nat]} 0 [] [].
Definition weighted : LoadBalance := mkLoadBalance WeightLoadBalance {[1 := 0%nat; 2 := 1%nat]} 0 [] [].

Lemma two_datas_ok k : datas_ok two_items (mkLoadBalance k {[1 := 0%nat; 2 := 1%nat]} 0 [] []).
Proof. intros id p H. unfold in_heap. cbn in *. apply lookup_insert_Some in H as [[_ <-]|[_ [_ <-]%lookup_singleton_Some]]; lia. Qed.
Lemma rr_get_exact_witness : ∃ o, get sample_env 7 (two_items, rr) = (Ok o, (two_items, set_initTime 1700000000123 (set_items [1; 0]%nat rr))) ∧ o = Some 0%nat.
Proof.
  destruct (rr_get_exact sample_env 7 two_items rr eq_refl (two_datas_ok _)) as (o & E & Ho & _); [constructor|lia|cbn; lia|done|].
  exists o. split; [exact E|exact Ho].
Defined.
Lemma weight_get_exact_witness : ∃ its' b', get sample_env 150 (two_items, weighted) = (Ok (Some 1%nat), (its', b')).
Proof.
  assert (Forall2 (weighs sample_env two_items) (live sample_env two_items weighted) [300; 100]) as Hw.
  { change (live sample_env two_items weighted) with [1; 0]%nat. repeat constructor; [by exists item_2|by exists item_1]. }
  assert (Forall (Z.le 0) [300; 100]) as Hp by (repeat constructor; done).
  destruct (weight_get_exact sample_env 150 two_items weighted [300; 100] eq_refl (two_datas_ok _) eq_refl Hw Hp ltac:(done) ltac:(done) ltac:(lia))
    as [(i & p & its' & b' & E & _ & _ & Hi & Hb) _].
  exists its', b'. change (live sample_env two_items weighted) with [1; 0]%nat in Hi.
  change (150 mod sumZ [300; 100]) with 150 in Hb.
  destruct i as [|[|i]]; [injection Hi as <-; exact E|exfalso; cbn in Hb; lia|done].
Defined.
