(* ===== verification/ServiceChange.v ===== *)
(** * Load balancing: the changes of a service *)
From S2P Require Import Prelude HolderStats LoadBalance LoadBalanceThms.
From Stdlib Require Import SpecFloat.

Definition weighable (e : env) (it : LoadBalanceItem) : Prop := ∃ w, weight_of e it = Ok w.

(** ** New items can be weighed *)
Lemma clear_loop_new fuel : ∀ t now n, clear_loop fuel t now (replicate n new_HolderStats) = replicate n new_HolderStats.
Proof. induction fuel as [|fuel IH]; intros; cbn [clear_loop]; [done|]. case_match; [|done]. by rewrite insert_replicate, IH. Qed.
Lemma stats_init_new now n : m_stats (stats_init now (new_HolderStatsSet n)) = replicate n new_HolderStats.
Proof. unfold stats_init, new_HolderStatsSet. cbn [m_stats m_lastUpdateTime]. case_match; [apply clear_loop_new|done]. Qed.
Lemma nth_replicate {A} j n (x : A) : nth j (replicate n x) x = x.
Proof. revert j. induction n as [|n IH]; intros [|j]; cbn; done || apply IH. Qed.
Lemma new_weight now : (stats_set_getWeight now (new_HolderStatsSet 5)).1 = S754_zero false.
Proof.
  unfold stats_set_getWeight. rewrite stats_init_new, length_replicate. cbn [fst Nat.sub seq foldl]. rewrite !nth_replicate.
  vm_compute. reflexivity.
Qed.
Lemma new_item_weighable e id st t : weighable e
  (mkLoadBalanceItem id (Some st) 10000 (item_stats (createLoadBalanceItem t)) (is_fair (createLoadBalanceItem t))).
Proof.
  unfold weighable, weight_of. destruct t; cbn [is_fair createLoadBalanceItem m_weight]; eauto.
  unfold fair_weight. cbn [item_stats m_weight m_stream createLoadBalanceItem]. rewrite new_weight.
  replace (int32_of _) with (Ok 0) by (vm_compute; reflexivity). cbn. by destruct (connected e st); eexists.
Qed.

Section service.
Context `{MO : MapOrder}.

Lemma all_weigh e its ps : Forall (weighable e) its → Forall (in_heap its) ps → ∃ ws, Forall2 (weighs e its) ps ws.
Proof.
  intros Hw. induction 1 as [|p ps Hp _ [ws IH]]; [by exists []|]. destruct (in_heap_lookup its p Hp) as (it & Hit).
  destruct (proj1 (Forall_lookup _ _) Hw _ _ Hit) as [w Hww]. exists (w :: ws). constructor; [by exists it|done].
Qed.
Lemma live_in_heap e its b : datas_ok its b → Forall (in_heap its) (live e its b).
Proof.
  intros Hd. apply Forall_forall. intros q [_ Hq]%list_elem_of_filter. pose proof (order_in_heap its b Hd) as Ho.
  rewrite Forall_forall in Ho. by apply Ho.
Qed.
(** What a refresh makes of the table: the valid items, and for a balancer by weight
    the running totals of their weights. *)
Definition rebuilt (e : env) (its : list LoadBalanceItem) (b b' : LoadBalance) : Prop :=
  m_items b' = live e its b' ∧ m_lastInitTime b' = m_lastInitTime b ∧
  match lb_kind b with
  | RoundRobinLoadBalance => m_weights b' = m_weights b
  | WeightLoadBalance => ∃ ws, Forall2 (weighs e its) (m_items b') ws ∧ m_weights b' = totals 0 ws
  end.
Lemma live_refreshed e its its' b : refreshed e its its' → live e its' b = live e its b.
Proof. intros R. unfold live. apply list_filter_iff. intros p. by rewrite (refreshed_valid e its its' p R). Qed.
Lemma rebuilt_refreshed e its its' b b' : refreshed e its its' → rebuilt e its b b' → rebuilt e its' b b'.
Proof.
  intros R (H1 & H2 & H3). split; [by rewrite (live_refreshed e its its')|]. split; [done|].
  destruct (lb_kind b); [done|]. destruct H3 as (ws & Hw & ?). exists ws. split; [|done].
  eapply Forall2_impl; [exact Hw|]. intros p w. by apply refreshed_weighs.
Qed.
Lemma initNolock_ok e its b : datas_ok its b → Forall (weighable e) its →
  ∃ its' b', initNolock e (its, b) = (Ok tt, (its', b')) ∧ refreshed e its its' ∧
    lb_kind b' = lb_kind b ∧ m_datas b' = m_datas b ∧ rebuilt e its' b b'.
Proof.
  intros Hd Hw. destruct (lb_kind b) eqn:Hk.
  - eexists _, _. split; [by apply initNolock_rr|]. unfold rebuilt. rewrite Hk. by split_and!.
  - destruct (all_weigh e its (live e its b) Hw (live_in_heap e its b Hd)) as [ws Hws].
    destruct (initNolock_weight e its b ws Hk Hd Hws) as (its' & E & R). eexists its', _. split; [done|].
    split_and!; try done. apply (rebuilt_refreshed e its); [done|]. unfold rebuilt. rewrite Hk. split_and!; try done. by exists ws.
Qed.
Lemma update_ok e adds dels its b :
  let datas := adds ∪ filter (λ x, dels !! x.1 = None) (m_datas b) in
  map_Forall (λ _ p, in_heap its p) datas → Forall (weighable e) its →
  ∃ its' b', update e adds dels (its, b) =
      (Ok (map_imap (λ id o, Some (if m_datas b !! id is Some p then Some p else o)) dels), (its', b')) ∧
    refreshed e its its' ∧ lb_kind b' = lb_kind b ∧ m_datas b' = datas ∧ rebuilt e its' b b'.
Proof.
  intros datas Hd Hw. destruct (initNolock_ok e its (set_datas datas b) Hd Hw) as (its' & b' & E & R & Hk & Hm & Hi).
  exists its', b'. split; [|by split_and!]. unfold update, get_lb, bind, getst, ret, mod_lb, modst. cbn [fst snd]. fold datas. by rewrite E.
Qed.

Context {ServiceItemInfo : Type}.
Implicit Types cb : ServiceItemInfo → option nat.

Definition made (t : Type') (id : Z) (st : nat) : LoadBalanceItem :=
  mkLoadBalanceItem id (Some st) 10000 (item_stats (createLoadBalanceItem t)) (is_fair (createLoadBalanceItem t)).
Definition add_items (l : list LoadBalanceItem) (s : SDLoadBalance) : SDLoadBalance :=
  mkSDLoadBalance (sd_items s ++ l) (sd_lbs s) (sd_datas s) (sd_types s) (closed s).

Lemma create_items_ok t cb l : ∀ s, NoDup (l.*1) →
  ∃ m its, create_items t cb l s = (Ok m, add_items its s) ∧ Forall (λ it, ∃ id st, it = made t id st) its ∧
    (∀ id, match m !! id with
       | Some p => ∃ i st, (id, i) ∈ l ∧ cb i = Some st ∧ (sd_items s ++ its) !! p = Some (made t id st)
       | None => ∀ i, (id, i) ∈ l → cb i = None end).
Proof.
  induction l as [|[id i] l IH]; intros s Hnd; cbn [create_items].
  { exists ∅, []. split; [unfold ret, add_items; rewrite app_nil_r; by destruct s|]. split; [done|].
    intros id. rewrite lookup_empty. by intros i Hi%elem_of_nil. }
  apply NoDup_cons in Hnd as [Hid Hnd]. destruct (cb i) as [st|] eqn:Ecb.
  - destruct (IH (add_items [made t id st] s) Hnd) as (m & its & E & Hits & Hm).
    exists (<[id := length (sd_items s)]> m), (made t id st :: its). split; [|split].
    + unfold bind, getst, putst, ret. cbn beta iota. fold (made t id st). fold (add_items [made t id st] s). rewrite E.
      unfold add_items. cbn. by rewrite <- app_assoc.
    + constructor; [by eexists _, _|done].
    + intros id'. destruct (decide (id' = id)) as [->|Hne].
      * rewrite lookup_insert_eq. exists i, st. split; [by left|]. split; [done|]. by rewrite list_lookup_middle.
      * rewrite lookup_insert_ne by done. specialize (Hm id'). destruct (m !! id') as [p|].
        -- destruct Hm as (j & st' & Hin & Hcb & Hp). exists j, st'. split; [by right|]. split; [done|].
           cbn in Hp. by rewrite <- app_assoc in Hp.
        -- intros j [[= -> ->]|Hin]%elem_of_cons; [done|by apply Hm].
  - destruct (IH s Hnd) as (m & its & E & Hits & Hm). exists m, its. split; [done|]. split; [done|].
    intros id'. specialize (Hm id'). destruct (m !! id') as [p|].
    + destruct Hm as (j & st' & Hin & ?). exists j, st'. split; [by right|done].
    + intros j [[= -> ->]|Hin]%elem_of_cons; [done|by apply Hm].
Qed.

Definition closing (its : list LoadBalanceItem) (o : option nat) : list nat :=
  if o is Some p then (if its !! p is Some it then option_list (m_stream it) else []) else [].
Definition set_closed (l : list nat) (s : SDLoadBalance) : SDLoadBalance :=
  mkSDLoadBalance (sd_items s) (sd_lbs s) (sd_datas s) (sd_types s) l.
Lemma close_all_ok l : ∀ s, Forall (λ x, if x.2 is Some p then in_heap (sd_items s) p else True) l →
  close_all l s = (Ok tt, set_closed (closed s ++ (l ≫= λ x, closing (sd_items s) (x.2))) s).
Proof.
  induction l as [|[id [p|]] l IH]; intros s Hl; cbn [close_all mbind list_bind].
  { unfold ret, set_closed. rewrite app_nil_r. by destruct s. }
  - apply Forall_cons in Hl as [Hp Hl]. cbn in Hp. destruct (in_heap_lookup _ _ Hp) as (it & E).
    unfold bind, getst, lift, putst. cbn beta iota. rewrite E. cbn [of_option].
    rewrite IH by done. unfold set_closed. cbn. rewrite E. by rewrite <- app_assoc.
  - apply Forall_cons in Hl as [_ Hl]. by apply IH.
Qed.

(** ** A change of a service *)
Record sd_ok (s : SDLoadBalance) : Prop := {
  ok_datas : map_Forall (λ _ lb, (lb < length (sd_lbs s))%nat) (sd_datas s);
  ok_lbs : Forall (datas_ok (sd_items s)) (sd_lbs s) }.

(** The balancer that a change is applied to. *)
Definition balancer_of (domain service : list Z) (s : SDLoadBalance) : LoadBalance :=
  match sd_datas s !! (domain, service) with
  | Some lb => default (new_LoadBalance RoundRobinLoadBalance) (sd_lbs s !! lb)
  | None => createLoadBalance (getType domain service s)
  end.
(** The types, the other services and the other balancers are as they were. *)
Definition others_kept (domain service : list Z) (lb : nat) (s s' : SDLoadBalance) : Prop :=
  sd_types s' = sd_types s ∧ (∀ k, k ≠ (domain, service) → sd_datas s' !! k = sd_datas s !! k) ∧
  (∀ j c, j ≠ lb → sd_lbs s !! j = Some c → sd_lbs s' !! j = Some c).
Lemma sd_get_ok domain service s : sd_ok s →
  ∃ lb s', sd_get domain service true s = (Ok (Some lb), s') ∧ sd_lbs s' !! lb = Some (balancer_of domain service s) ∧
    sd_datas s' !! (domain, service) = Some lb ∧ sd_items s' = sd_items s ∧ closed s' = closed s ∧
    datas_ok (sd_items s) (balancer_of domain service s) ∧ others_kept domain service lb s s'.
Proof.
  intros [Hd Hl]. unfold sd_get, balancer_of, bind, getst. destruct (sd_datas s !! (domain, service)) as [lb|] eqn:E.
  - pose proof (Hd _ _ E) as Hlt. cbn in Hlt. destruct (lookup_lt_is_Some_2 _ _ Hlt) as (b & Hb). exists lb, s. rewrite Hb. cbn.
    split_and!; try done. by apply (proj1 (Forall_lookup _ _) Hl lb).
  - cbn [negb]. unfold putst, ret. eexists _, _. split; [done|]. cbn. split; [by apply list_lookup_middle|].
    rewrite lookup_insert_eq. split_and!; try done; [by destruct (getType domain service s)|]. split; [done|]. cbn. split.
    + intros k Hk. by rewrite lookup_insert_ne.
    + intros j c _ Hj. by apply lookup_app_l_Some.
Qed.

(** What was there under the identifiers that are gone. *)
Definition gone (b : LoadBalance) (old_value new_value : gmap Z ServiceItemInfo) : gmap Z (option nat) :=
  map_imap (λ id _, Some (m_datas b !! id)) (filter (λ x, new_value !! x.1 = None) old_value).

Lemma refreshed_closing e its its' o : refreshed e its its' → closing its' o = closing its o.
Proof.
  intros R. destruct o as [p|]; [|done]. cbn. destruct (its !! p) as [it|] eqn:E.
  - destruct (refreshed_lookup e its its' p it R E) as (it' & -> & Hr). by rewrite (proj1 (proj2 (refreshed_item_same e it it' Hr))).
  - apply lookup_ge_None in E. rewrite (Forall2_length _ _ _ R) in E. by rewrite lookup_ge_None_2.
Qed.

Lemma gone_closing its its2 b old_value new_value id o : datas_ok its b → gone b old_value new_value !! id = Some o →
  closing (its ++ its2) o = closing its o.
Proof.
  intros Hd. unfold gone. rewrite map_lookup_imap. destruct (filter _ old_value !! id); cbn; [|done]. intros [= <-].
  destruct (m_datas b !! id) as [p|] eqn:Ep; [|done]. cbn. by rewrite lookup_app_l by apply (Hd id p Ep).
Qed.
Lemma bind_ext_in {A B} (f g : A → list B) l : (∀ x, x ∈ l → f x = g x) → l ≫= f = l ≫= g.
Proof.
  induction l as [|x l IH]; intros H; [done|]. cbn. rewrite H by by left. f_equal. apply IH. intros y Hy. apply H. by right.
Qed.

(** The entries that stay. *)
Lemma kept_lookup b (old_value new_value : gmap Z ServiceItemInfo) id :
  filter (λ x, ((λ _, None : option nat) <$> filter (λ x, new_value !! x.1 = None) old_value : gmap Z (option nat)) !! x.1 = None) (m_datas b) !! id =
    match new_value !! id, old_value !! id with None, Some _ => None | _, _ => m_datas b !! id end.
Proof.
  set (dels := (λ _, None : option nat) <$> _).
  assert (dels !! id = None ↔ old_value !! id = None ∨ is_Some (new_value !! id)) as Hdel.
  { unfold dels. rewrite lookup_fmap, fmap_None, map_lookup_filter_None. split.
    - intros [?|H]; [by left|]. destruct (old_value !! id) as [j|] eqn:Eo; [right|by left]. specialize (H j eq_refl). cbn in H.
      by apply not_eq_None_Some.
    - intros [?|[j Hj]]; [by left|]. right. intros k _. cbn. congruence. }
  destruct (m_datas b !! id) as [p|] eqn:Ep.
  - destruct (decide (dels !! id = None)) as [Hn|Hn].
    + rewrite (proj2 (map_lookup_filter_Some _ _ id p)) by done. apply Hdel in Hn. destruct (new_value !! id); [done|].
      destruct (old_value !! id); [|done]. by destruct Hn as [?|[? ?]].
    + rewrite (proj2 (map_lookup_filter_None _ _ id)) by (right; by intros ? _). rewrite Hdel in Hn.
      destruct (new_value !! id); [exfalso; apply Hn; right; by eexists|]. destruct (old_value !! id); [done|]. exfalso. by apply Hn; left.
  - rewrite (proj2 (map_lookup_filter_None _ _ id)) by by left. by repeat case_match.
Qed.

(** C22: A change that the service discovery reports makes the balancer of the
    service follow it: the identifiers that are gone leave it and their streams are
    closed, those that are new enter it - each with an item made for it, on the
    stream that the callback gave, unless the callback gave none - and the other
    entries stay.  The table of items is rebuilt from the result: it lists exactly the
    entries, in the order of the map, whose stream is connected, and for a balancer by
    weight the running totals of their weights.  Nothing else changes: the configured
    types, the other services and their balancers are as before, and the items that
    were there have at most their statistics brought up to date.  Assumed is that
    every item can be weighed ([weighable]): a fair one has a stream, and its weight
    times its score fits an int. *)
Theorem service_change_exact e cb domain service old_value new_value s :
  sd_ok s → Forall (weighable e) (sd_items s) →
  let b := balancer_of domain service s in
  ∃ s' lb b', onServiceChange e cb domain service old_value new_value s = (Ok tt, s') ∧
    sd_datas s' !! (domain, service) = Some lb ∧ sd_lbs s' !! lb = Some b' ∧ lb_kind b' = lb_kind b ∧
    (∀ id, match new_value !! id, old_value !! id with
       | Some i, None =>
         match cb i with
         | Some st => ∃ p it, m_datas b' !! id = Some p ∧ sd_items s' !! p = Some it ∧ m_id it = id ∧ m_stream it = Some st ∧
             m_weight it = 10000 ∧ is_fair it = is_fair (createLoadBalanceItem (getType domain service s))
         | None => m_datas b' !! id = m_datas b !! id
         end
       | None, Some _ => m_datas b' !! id = None
       | _, _ => m_datas b' !! id = m_datas b !! id
       end) ∧
    closed s' ≡ₚ closed s ++ (map_to_list (gone b old_value new_value) ≫= λ x, closing (sd_items s) (x.2)) ∧
    m_items b' = filter (λ p, valid_at e (sd_items s') p = true) ((order (m_datas b')).*2) ∧
    (lb_kind b = WeightLoadBalance → ∃ ws, Forall2 (weighs e (sd_items s')) (m_items b') ws ∧ m_weights b' = totals 0 ws) ∧
    m_lastInitTime b' = m_lastInitTime b ∧ others_kept domain service lb s s' ∧
    (∀ p it, sd_items s !! p = Some it → ∃ it', sd_items s' !! p = Some it' ∧ refreshed_item e it it').
Proof.
  intros Hok Hw b. set (t := getType domain service s).
  destruct (sd_get_ok domain service s Hok) as (lb & s1 & E1 & Hlb & Hda & Hit1 & Hcl1 & Hdo & Hoth). fold b in Hlb, Hdo.
  set (adds := filter (λ x, old_value !! x.1 = None) new_value).
  set (dels := (λ _, None : option nat) <$> filter (λ x, new_value !! x.1 = None) old_value).
  destruct (create_items_ok t cb (order adds) s1) as (m & its & E2 & Hits & Hm).
  { rewrite order_perm. apply NoDup_fst_map_to_list. }
  set (s2 := add_items its s1) in *. assert (sd_items s2 = sd_items s ++ its) as Hit2 by (cbn; by rewrite Hit1). rewrite Hit1 in Hm.
  destruct (update_ok e m dels (sd_items s2) b) as (its' & b' & E3 & R & Hk & Hd' & Hi' & Htime & Hws).
  { rewrite Hit2. intros id p [Hp|[_ [Hp _]%map_lookup_filter_Some]]%lookup_union_Some_raw; unfold in_heap; rewrite length_app.
    - specialize (Hm id). rewrite Hp in Hm. destruct Hm as (? & ? & _ & _ & Hp2%lookup_lt_Some). by rewrite length_app in Hp2.
    - specialize (Hdo id p Hp). unfold in_heap in Hdo. cbn in Hdo. lia. }
  { rewrite Hit2. apply Forall_app. split; [done|]. eapply Forall_impl; [exact Hits|]. intros it (id & st & ->). apply new_item_weighable. }
  set (found := map_imap _ dels) in E3.
  assert (found = gone b old_value new_value) as Hfound.
  { apply map_eq. intros id. unfold found, gone, dels. rewrite !map_lookup_imap, lookup_fmap.
    destruct (filter _ old_value !! id); cbn; [|done]. by destruct (m_datas b !! id). }
  set (s3 := mkSDLoadBalance its' (<[lb := b']> (sd_lbs s2)) (sd_datas s2) (sd_types s2) (closed s2)).
  assert (Forall (λ x, if x.2 is Some p then in_heap its' p else True) (order found)) as Hin.
  { apply Forall_forall. intros [id o] Hx. rewrite order_perm in Hx. apply elem_of_map_to_list in Hx. rewrite Hfound in Hx. unfold gone in Hx.
    rewrite map_lookup_imap in Hx. destruct (filter _ old_value !! id); cbn in Hx; [|done]. injection Hx as <-.
    destruct (m_datas b !! id) as [p|] eqn:Ep; cbn; [|done]. unfold in_heap. rewrite <- (Forall2_length _ _ _ R), Hit2, length_app.
    specialize (Hdo id p Ep). unfold in_heap in Hdo. cbn in Hdo. lia. }
  pose proof (close_all_ok (order found) s3 Hin) as E4.
  eexists (set_closed _ s3), lb, b'. split; [|split; [exact Hda|split; [apply list_lookup_insert_eq; by apply lookup_lt_Some in Hlb|split; [done|split; [|split; [|split; [|split; [|split; [exact Htime|split]]]]]]]]].
  - unfold onServiceChange. unfold bind at 1, getst at 1. erewrite bind_ok by exact E1. unfold bind at 1, lift. cbn [of_option].
    fold t. fold adds. fold dels. erewrite bind_ok by exact E2. fold s2.
    assert (on_lb lb (update e m dels) s2 = (Ok found, s3)) as E3'.
    { unfold on_lb. change (sd_lbs s2) with (sd_lbs s1). rewrite Hlb. by rewrite E3. }
    erewrite bind_ok by exact E3'. exact E4.
  - intros id. rewrite Hd'. specialize (Hm id).
    assert (∀ i, (id, i) ∈ order adds ↔ new_value !! id = Some i ∧ old_value !! id = None) as Hadd.
    { intros i. rewrite order_perm, elem_of_map_to_list. unfold adds. apply map_lookup_filter_Some. }
    pose proof (kept_lookup b old_value new_value id) as Hf. fold dels in Hf.
    destruct (new_value !! id) as [i|] eqn:En; [destruct (old_value !! id) as [j|] eqn:Eo; [|destruct (cb i) as [st|] eqn:Ecb]|].
    + destruct (m !! id) as [p|] eqn:Em; [destruct Hm as (? & ? & [? ?]%Hadd & _); congruence|]. by rewrite lookup_union_r, Hf.
    + destruct (m !! id) as [p|] eqn:Em; [|specialize (Hm i (proj2 (Hadd i) (conj eq_refl eq_refl))); congruence].
      destruct Hm as (i' & st' & [? _]%Hadd & Hcb & Hp). assert (i' = i) as -> by congruence. assert (st' = st) as -> by congruence.
      rewrite <- Hit2 in Hp. destruct (refreshed_lookup e _ its' p _ R Hp) as (it & Hp' & Hr).
      destruct (refreshed_item_same e _ _ Hr) as (H1 & H2 & H3 & H4 & _). exists p, it.
      split; [by apply lookup_union_Some_l|]. split; [exact Hp'|]. by rewrite H1, H2, H3, H4.
    + destruct (m !! id) as [p|] eqn:Em; [destruct Hm as (? & ? & [? ?]%Hadd & ? & _); congruence|]. by rewrite lookup_union_r, Hf.
    + destruct (m !! id) as [p|] eqn:Em; [destruct Hm as (? & ? & [? ?]%Hadd & _); congruence|]. rewrite lookup_union_r, Hf by done.
      by destruct (old_value !! id).
  - cbn [set_closed closed]. change (closed s3) with (closed s1). rewrite Hcl1. f_equiv. rewrite order_perm, Hfound.
    apply reflexive_eq, bind_ext_in. intros [id o] Hx%elem_of_map_to_list. cbn [snd sd_items s3].
    rewrite (refreshed_closing e _ its' o R), Hit2. by eapply gone_closing.
  - exact Hi'.
  - intros Hw'. by rewrite Hw' in Hws.
  - destruct Hoth as (H1 & H2 & H3). split; [done|]. split; [done|]. intros j c Hj Hc. cbn.
    rewrite list_lookup_insert_ne by done. by apply H3.
  - intros p it Hp. apply (refreshed_lookup e _ its' p it R). rewrite Hit2. by apply lookup_app_l_Some.
Qed.
End service.

(** ** At concrete inputs *)
Definition svc : list Z := bytes_of_string "svc".
Definition two_services : SDLoadBalance := mkSDLoadBalance two_items [weighted] {[(svc, svc) := 0%nat]} ∅ [].
Lemma service_change_exact_witness : ∃ s',
  onServiceChange sample_env (λ i : nat, Some (10 + i)%nat) svc svc {[1 := 1%nat; 2 := 2%nat]} {[2 := 2%nat; 3 := 3%nat]} two_services = (Ok tt, s') ∧
  closed s' ≡ₚ [11%nat].
Proof.
  assert (sd_ok two_services) as Hok.
  { split; [|constructor; [exact (two_datas_ok _)|constructor]]. intros k lb Hk. cbn in Hk. apply lookup_singleton_Some in Hk as [_ <-]. cbn. lia. }
  assert (Forall (weighable sample_env) (sd_items two_services)) as Hw by (repeat constructor; by eexists).
  destruct (service_change_exact sample_env (λ i : nat, Some (10 + i)%nat) svc svc {[1 := 1%nat; 2 := 2%nat]} {[2 := 2%nat; 3 := 3%nat]} two_services Hok Hw)
    as (s' & lb & b' & E & _ & _ & _ & _ & Hc & _).
  exists s'. split; [exact E|]. rewrite Hc. vm_compute. reflexivity.
Defined.

(** A request that is still under way when its second has left the window ends in a
    slot that was cleared: the number of requests under way wraps. *)
Example late_end_wraps :
  match stats_get 100 (new_HolderStatsSet 5) with
  | Ok (i, s) =>
    let s := update_slot i (incDoing 1) s in
    match stats_get 105 s with
    | Ok (_, s) => m_doing (getTotal (update_slot i (decDoing 1) s)) = 2 ^ 32 - 1
    | _ => False
    end
  | _ => False
  end.
Proof. vm_compute. reflexivity. Qed.

(** Items whose weights are all zero. *)
Example no_weights :
  (get sample_env 5 ([mkLoadBalanceItem 1 (Some 11%nat) 0 (new_HolderStatsSet 5) false],
                     mkLoadBalance WeightLoadBalance {[1 := 0%nat]} 0 [] [])).1 = Undef DivByZero.
Proof. vm_compute. reflexivity. Qed.
