(* ===== verification/Http.v ===== *)
(** * HTTP messages (http/http.{h,cc})

    Requests and responses with their headers, parameters and cookies, and their
    text on the wire. *)
From S2P Require Import Prelude Text.

(** ** Methods and status codes *)
Inductive HttpMethod :=
| DELETE | GET | HEAD | POST | PUT | CONNECT | OPTIONS | TRACE | COPY | LOCK | MKCOL | MOVE | PROPFIND | PROPPATCH
| SEARCH | UNLOCK | BIND | REBIND | UNBIND | ACL | REPORT | MKACTIVITY | CHECKOUT | MERGE | MSEARCH | NOTIFY
| SUBSCRIBE | UNSUBSCRIBE | PATCH | PURGE | MKCALENDAR | LINK | UNLINK | SOURCE | INVALID_METHOD.
#[export] Instance HttpMethod_eq_dec : EqDecision HttpMethod.
Proof. solve_decision. Defined.
Definition all_methods : list HttpMethod :=
  [DELETE; GET; HEAD; POST; PUT; CONNECT; OPTIONS; TRACE; COPY; LOCK; MKCOL; MOVE; PROPFIND; PROPPATCH; SEARCH;
   UNLOCK; BIND; REBIND; UNBIND; ACL; REPORT; MKACTIVITY; CHECKOUT; MERGE; MSEARCH; NOTIFY; SUBSCRIBE; UNSUBSCRIBE;
   PATCH; PURGE; MKCALENDAR; LINK; UNLINK; SOURCE].
Definition s_method_string : list (list Z) := bytes_of_string <$>
  ["DELETE"%string; "GET"%string; "HEAD"%string; "POST"%string; "PUT"%string; "CONNECT"%string; "OPTIONS"%string;
   "TRACE"%string; "COPY"%string; "LOCK"%string; "MKCOL"%string; "MOVE"%string; "PROPFIND"%string; "PROPPATCH"%string;
   "SEARCH"%string; "UNLOCK"%string; "BIND"%string; "REBIND"%string; "UNBIND"%string; "ACL"%string; "REPORT"%string;
   "MKACTIVITY"%string; "CHECKOUT"%string; "MERGE"%string; "M-SEARCH"%string; "NOTIFY"%string; "SUBSCRIBE"%string;
   "UNSUBSCRIBE"%string; "PATCH"%string; "PURGE"%string; "MKCALENDAR"%string; "LINK"%string; "UNLINK"%string;
   "SOURCE"%string].

Definition bytes_eqb (a b : list Z) : bool := bool_decide (a = b).
(** A C string ends at the first zero byte. *)
Fixpoint c_str (s : list Z) : list Z := match s with [] => [] | c :: s => if c =? 0 then [] else c :: c_str s end.
Fixpoint find_method (p : list Z → bool) (ms : list (HttpMethod * list Z)) : HttpMethod :=
  match ms with
  | [] => INVALID_METHOD
  | (m, name) :: ms => if p name then m else find_method p ms
  end.
Definition method_table : list (HttpMethod * list Z) := zip all_methods s_method_string.
Definition StringToHttpMethod (m : list Z) : HttpMethod := find_method (λ name, bytes_eqb name (c_str m)) method_table.
(** [strncmp] over the length of the name: a name that [m] begins with. *)
Definition CharsToHttpMethod (m : list Z) : HttpMethod :=
  find_method (λ name, bytes_eqb name (take (length name) (c_str m))) method_table.
Definition method_num (m : HttpMethod) : nat := default 34%nat (fst <$> list_find (λ x, x = m) all_methods).
Definition unknown : list Z := bytes_of_string "<unknown>".
Definition HttpMethodToString (m : HttpMethod) : list Z := default unknown (s_method_string !! method_num m).

(** The codes with their texts; a status is its number. *)
Definition status_table : list (Z * String.string) :=
  [(100, "Continue"%string); (101, "Switching Protocols"%string); (102, "Processing"%string); (200, "OK"%string);
   (201, "Created"%string); (202, "Accepted"%string); (203, "Non-Authoritative Information"%string);
   (204, "No Content"%string); (205, "Reset Content"%string); (206, "Partial Content"%string);
   (207, "Multi-Status"%string); (208, "Already Reported"%string); (226, "IM Used"%string);
   (300, "Multiple Choices"%string); (301, "Moved Permanently"%string); (302, "Found"%string);
   (303, "See Other"%string); (304, "Not Modified"%string); (305, "Use Proxy"%string);
   (307, "Temporary Redirect"%string); (308, "Permanent Redirect"%string); (400, "Bad Request"%string);
   (401, "Unauthorized"%string); (402, "Payment Required"%string); (403, "Forbidden"%string);
   (404, "Not Found"%string); (405, "Method Not Allowed"%string); (406, "Not Acceptable"%string);
   (407, "Proxy Authentication Required"%string); (408, "Request Timeout"%string); (409, "Conflict"%string);
   (410, "Gone"%string); (411, "Length Required"%string); (412, "Precondition Failed"%string);
   (413, "Payload Too Large"%string); (414, "URI Too Long"%string); (415, "Unsupported Media Type"%string);
   (416, "Range Not Satisfiable"%string); (417, "Expectation Failed"%string); (421, "Misdirected Request"%string);
   (422, "Unprocessable Entity"%string); (423, "Locked"%string); (424, "Failed Dependency"%string);
   (426, "Upgrade Required"%string); (428, "Precondition Required"%string); (429, "Too Many Requests"%string);
   (431, "Request Header Fields Too Large"%string); (451, "Unavailable For Legal Reasons"%string);
   (500, "Internal Server Error"%string); (501, "Not Implemented"%string); (502, "Bad Gateway"%string);
   (503, "Service Unavailable"%string); (504, "Gateway Timeout"%string); (505, "HTTP Version Not Supported"%string);
   (506, "Variant Also Negotiates"%string); (507, "Insufficient Storage"%string); (508, "Loop Detected"%string);
   (510, "Not Extended"%string); (511, "Network Authentication Required"%string)].
Definition HttpStatusToString (s : Z) : list Z :=
  default unknown ((λ x, bytes_of_string x.2) <$> head (filter (λ x, x.1 = s) status_table)).

(** ** Case-insensitive maps *)
(** [strcasecmp] in the C locale: the strings up to their first zero byte, in lower case. *)
Definition tolower (c : Z) : Z := if between 65 90 c then c + 32 else c.
Definition fold_case (s : list Z) : list Z := tolower <$> c_str s.
Fixpoint bytes_compare (a b : list Z) : comparison :=
  match a, b with
  | [], [] => Eq
  | [], _ => Lt
  | _, [] => Gt
  | x :: a, y :: b => match Z.compare x y with Eq => bytes_compare a b | c => c end
  end.
Definition strcasecmp (a b : list Z) : comparison := bytes_compare (fold_case a) (fold_case b).

(** [std::map<std::string, std::string, CaseInsensitiveLess>], in the order of its keys. *)
Definition MapType : Type := list (list Z * list Z).
Fixpoint map_find (k : list Z) (m : MapType) : option (list Z) :=
  match m with
  | [] => None
  | (k', v) :: m => match strcasecmp k k' with Eq => Some v | Lt => None | Gt => map_find k m end
  end.
(** [m[k] = v]: an entry that is there keeps its key. *)
Fixpoint map_set (k v : list Z) (m : MapType) : MapType :=
  match m with
  | [] => [(k, v)]
  | (k', v') :: m' =>
    match strcasecmp k k' with Eq => (k', v) :: m' | Lt => (k, v) :: m | Gt => (k', v') :: map_set k v m' end
  end.
(** [m.insert({k, v})]: an entry that is there stays. *)
Definition map_insert (k v : list Z) (m : MapType) : MapType :=
  match map_find k m with Some _ => m | None => map_set k v m end.
Fixpoint map_erase (k : list Z) (m : MapType) : MapType :=
  match m with
  | [] => []
  | (k', v') :: m' => match strcasecmp k k' with Eq => m' | Lt => m | Gt => (k', v') :: map_erase k m' end
  end.

(** ** Requests *)
Record HttpRequest := mkHttpRequest {
  m_method : HttpMethod; m_version : Z; m_close : bool; m_websocket : bool; m_parserParamFlag : Z;
  m_path : list Z; m_query : list Z; m_fragment : list Z; m_body : list Z;
  m_headers : MapType; m_params : MapType; m_cookies : MapType }.
Definition new_HttpRequest (version : Z) (close : bool) : HttpRequest :=
  mkHttpRequest GET version close false 0 [47] [] [] [] [] [] [].

Definition set_close v r := mkHttpRequest (m_method r) (m_version r) v (m_websocket r) (m_parserParamFlag r) (m_path r) (m_query r)
  (m_fragment r) (m_body r) (m_headers r) (m_params r) (m_cookies r).
Definition set_flag v r := mkHttpRequest (m_method r) (m_version r) (m_close r) (m_websocket r) v (m_path r) (m_query r)
  (m_fragment r) (m_body r) (m_headers r) (m_params r) (m_cookies r).
Definition set_headers v r := mkHttpRequest (m_method r) (m_version r) (m_close r) (m_websocket r) (m_parserParamFlag r) (m_path r)
  (m_query r) (m_fragment r) (m_body r) v (m_params r) (m_cookies r).
Definition set_params v r := mkHttpRequest (m_method r) (m_version r) (m_close r) (m_websocket r) (m_parserParamFlag r) (m_path r)
  (m_query r) (m_fragment r) (m_body r) (m_headers r) v (m_cookies r).
Definition set_cookies v r := mkHttpRequest (m_method r) (m_version r) (m_close r) (m_websocket r) (m_parserParamFlag r) (m_path r)
  (m_query r) (m_fragment r) (m_body r) (m_headers r) (m_params r) v.

Definition getHeader (key def : list Z) (r : HttpRequest) : list Z := default def (map_find key (m_headers r)).
Definition setHeader (key val : list Z) (r : HttpRequest) : HttpRequest := set_headers (map_set key val (m_headers r)) r.
Definition setParam (key val : list Z) (r : HttpRequest) : HttpRequest := set_params (map_set key val (m_params r)) r.
Definition setCookie (key val : list Z) (r : HttpRequest) : HttpRequest := set_cookies (map_set key val (m_cookies r)) r.
Definition delHeader (key : list Z) (r : HttpRequest) : HttpRequest := set_headers (map_erase key (m_headers r)) r.
Definition delParam (key : list Z) (r : HttpRequest) : HttpRequest := set_params (map_erase key (m_params r)) r.
Definition delCookie (key : list Z) (r : HttpRequest) : HttpRequest := set_cookies (map_erase key (m_cookies r)) r.
Definition hasHeader (key : list Z) (r : HttpRequest) : option (list Z) := map_find key (m_headers r).

(** [PARSE_PARAM] on the rest of the string: the key is what comes before the next
    '=', whatever it holds, and the value what comes before the next [flag]. *)
Fixpoint parse_param (fuel : nat) (flag : Z) (trim : list Z → list Z) (str : list Z) (m : MapType) : MapType :=
  match fuel with
  | O => m
  | S fuel =>
    match find_char (Z.eqb 61) str with
    | None => m
    | Some (key, rest) =>
      match find_char (Z.eqb flag) rest with
      | None => map_insert (trim key) (UrlDecode rest true) m
      | Some (value, rest) => parse_param fuel flag trim rest (map_insert (trim key) (UrlDecode value true) m)
      end
    end
  end.
Definition PARSE_PARAM (flag : Z) (trim : list Z → list Z) (str : list Z) (m : MapType) : MapType :=
  parse_param (S (length str)) flag trim str m.
(** The default characters of [StringUtil::Trim]: space, tab, carriage return and newline. *)
Definition is_blank (c : Z) : bool := (c =? 32) || (c =? 9) || (c =? 13) || (c =? 10).

Definition initQueryParam (r : HttpRequest) : HttpRequest :=
  if Z.testbit (m_parserParamFlag r) 0 then r
  else set_flag (Z.lor (m_parserParamFlag r) 1) (set_params (PARSE_PARAM 38 id (m_query r) (m_params r)) r).
(** [strcasestr(s, find) != nullptr] *)
Definition contains_nocase (s find : list Z) : bool := bool_decide (is_Some (find_string (fold_case find) (fold_case s))).
Definition initBodyParam (r : HttpRequest) : HttpRequest :=
  if Z.testbit (m_parserParamFlag r) 1 then r
  else if negb (contains_nocase (getHeader (bytes_of_string "content-type") [] r) (bytes_of_string "application/x-www-form-urlencoded"))
  then set_flag (Z.lor (m_parserParamFlag r) 2) r
  else set_flag (Z.lor (m_parserParamFlag r) 2) (set_params (PARSE_PARAM 38 id (m_body r) (m_params r)) r).
Definition initCookies (r : HttpRequest) : HttpRequest :=
  if Z.testbit (m_parserParamFlag r) 2 then r
  else let cookie := getHeader (bytes_of_string "cookie") [] r in
    if bool_decide (cookie = []) then set_flag (Z.lor (m_parserParamFlag r) 4) r
    else set_flag (Z.lor (m_parserParamFlag r) 4) (set_cookies (PARSE_PARAM 59 (Trim is_blank) cookie (m_cookies r)) r).
Definition initParam (r : HttpRequest) : HttpRequest := initCookies (initBodyParam (initQueryParam r)).

(** The readers that parse first: the value and the request after the call. *)
Definition getParam (key def : list Z) (r : HttpRequest) : list Z * HttpRequest :=
  let r := initBodyParam (initQueryParam r) in (default def (map_find key (m_params r)), r).
Definition getCookie (key def : list Z) (r : HttpRequest) : list Z * HttpRequest :=
  let r := initCookies r in (default def (map_find key (m_cookies r)), r).
Definition hasParam (key : list Z) (r : HttpRequest) : option (list Z) * HttpRequest :=
  let r := initBodyParam (initQueryParam r) in (map_find key (m_params r), r).
Definition hasCookie (key : list Z) (r : HttpRequest) : option (list Z) * HttpRequest :=
  let r := initCookies r in (map_find key (m_cookies r), r).

(** [init], after a request has been read. *)
Definition init (r : HttpRequest) : HttpRequest :=
  let conn := getHeader (bytes_of_string "connection") [] r in
  if bool_decide (conn = []) then r
  else set_close (if strcasecmp conn (bytes_of_string "keep-alive") is Eq then false else true) r.

(** ** Text *)
Definition crlf : list Z := [13; 10].
(** An unsigned number in decimal. *)
Fixpoint decimal_loop (fuel : nat) (n : Z) (acc : list Z) : list Z :=
  match fuel with
  | O => acc
  | S fuel => let acc := (48 + n mod 10) :: acc in if n <? 10 then acc else decimal_loop fuel (n / 10) acc
  end.
Definition decimal (n : Z) : list Z := decimal_loop (S (Z.to_nat (Z.log2 n))) n [].
Definition version_text (v : Z) : list Z := decimal (Z.shiftr v 4) ++ [46] ++ decimal (Z.land v 15).
Definition is_connection (k : list Z) : bool := if strcasecmp k (bytes_of_string "connection") is Eq then true else false.
Definition header_line (k v : list Z) : list Z := k ++ [58; 32] ++ v ++ crlf.
Definition header_lines (websocket : bool) (m : MapType) : list Z :=
  m ≫= λ kv, if negb websocket && is_connection kv.1 then [] else header_line kv.1 kv.2.
Definition connection_line (websocket close : bool) : list Z :=
  if websocket then [] else header_line (bytes_of_string "connection") (bytes_of_string (if close then "close" else "keep-alive")).
Definition body_text (body : list Z) : list Z :=
  if bool_decide (body = []) then crlf
  else header_line (bytes_of_string "content-length") (decimal (Z.of_nat (length body))) ++ crlf ++ body.
Definition with_mark (c : Z) (s : list Z) : list Z := if bool_decide (s = []) then [] else c :: s.

Definition dump (r : HttpRequest) : list Z :=
  HttpMethodToString (m_method r) ++ [32] ++ m_path r ++ with_mark 63 (m_query r) ++ with_mark 35 (m_fragment r) ++
  bytes_of_string " HTTP/" ++ version_text (m_version r) ++ crlf ++
  connection_line (m_websocket r) (m_close r) ++ header_lines (m_websocket r) (m_headers r) ++ body_text (m_body r).

(** ** Responses *)
Record HttpResponse := mkHttpResponse {
  rsp_status : Z; rsp_version : Z; rsp_close : bool; rsp_websocket : bool; rsp_body : list Z; rsp_reason : list Z;
  rsp_headers : MapType; rsp_cookies : list (list Z) }.
Definition new_HttpResponse (version : Z) (close : bool) : HttpResponse :=
  mkHttpResponse 200 version close false [] [] [] [].
Definition createResponse (r : HttpRequest) : HttpResponse := new_HttpResponse (m_version r) (m_close r).
Definition rsp_getHeader (key def : list Z) (r : HttpResponse) : list Z := default def (map_find key (rsp_headers r)).
Definition rsp_set_headers v r := mkHttpResponse (rsp_status r) (rsp_version r) (rsp_close r) (rsp_websocket r) (rsp_body r) (rsp_reason r) v (rsp_cookies r).
Definition rsp_setHeader (key val : list Z) (r : HttpResponse) : HttpResponse := rsp_set_headers (map_set key val (rsp_headers r)) r.
Definition rsp_delHeader (key : list Z) (r : HttpResponse) : HttpResponse := rsp_set_headers (map_erase key (rsp_headers r)) r.
Definition setStatus v r := mkHttpResponse v (rsp_version r) (rsp_close r) (rsp_websocket r) (rsp_body r) (rsp_reason r) (rsp_headers r) (rsp_cookies r).
Definition setBody v r := mkHttpResponse (rsp_status r) (rsp_version r) (rsp_close r) (rsp_websocket r) v (rsp_reason r) (rsp_headers r) (rsp_cookies r).
Definition setRedirect (uri : list Z) (r : HttpResponse) : HttpResponse := rsp_setHeader (bytes_of_string "Location") uri (setStatus 302 r).
(** [time_text] is the date that [Time2Str] writes. *)
Definition rsp_setCookie (time_text : Z → list Z) (key val : list Z) (expired : Z) (path domain : list Z) (secure : bool)
    (r : HttpResponse) : HttpResponse :=
  let c := key ++ [61] ++ val ++
    (if 0 <? expired then bytes_of_string ";expires=" ++ time_text expired ++ bytes_of_string " GMT" else []) ++
    (if bool_decide (domain = []) then [] else bytes_of_string ";domain=" ++ domain) ++
    (if bool_decide (path = []) then [] else bytes_of_string ";path=" ++ path) ++
    (if secure then bytes_of_string ";secure" else []) in
  mkHttpResponse (rsp_status r) (rsp_version r) (rsp_close r) (rsp_websocket r) (rsp_body r) (rsp_reason r) (rsp_headers r) (rsp_cookies r ++ [c]).

Definition rsp_dump (r : HttpResponse) : list Z :=
  bytes_of_string "HTTP/" ++ version_text (rsp_version r) ++ [32] ++ decimal (rsp_status r) ++ [32] ++
  (if bool_decide (rsp_reason r = []) then HttpStatusToString (rsp_status r) else rsp_reason r) ++ crlf ++
  header_lines (rsp_websocket r) (rsp_headers r) ++
  (rsp_cookies r ≫= λ c, header_line (bytes_of_string "Set-Cookie") c) ++
  connection_line (rsp_websocket r) (rsp_close r) ++ body_text (rsp_body r).

(** ** Runs *)
Definition str (s : String.string) : list Z := bytes_of_string s.
Definition sample_request : HttpRequest :=
  mkHttpRequest POST 17 false false 0 (str "/a") (str "x=1&y=a+b%26") [] (str "k=v") [(str "Host", str "h"); (str "X-Id", str "7")] [] [].
Example dump_sample : dump sample_request =
  str "POST /a?x=1&y=a+b%26 HTTP/1.1" ++ crlf ++ str "connection: keep-alive" ++ crlf ++ str "Host: h" ++ crlf ++ str "X-Id: 7" ++ crlf ++
  str "content-length: 3" ++ crlf ++ crlf ++ str "k=v".
Proof. vm_compute. reflexivity. Qed.
Example param_sample : (getParam (str "Y") [] sample_request).1 = str "a b&".
Proof. vm_compute. reflexivity. Qed.
(** A parameter without '=' runs into the key of the next one. *)
Example bare_param_lost :
  m_params (initQueryParam (mkHttpRequest GET 17 true false 0 [47] (str "debug&x=1") [] [] [] [] [])) = [(str "debug&x", str "1")].
Proof. vm_compute. reflexivity. Qed.
(** A method name is only compared as far as the known one goes. *)
Example method_prefix : CharsToHttpMethod (str "GETAWAY /") = GET ∧ StringToHttpMethod (str "GETAWAY") = INVALID_METHOD.
Proof. split; vm_compute; reflexivity. Qed.
(** A message that was read and is sent on states its length twice. *)
Example length_twice :
  dump (mkHttpRequest POST 17 true true 0 [47] [] [] (str "k") [(str "Content-Length", str "1")] [] []) =
  str "POST / HTTP/1.1" ++ crlf ++ str "Content-Length: 1" ++ crlf ++ str "content-length: 1" ++ crlf ++ crlf ++ str "k".
Proof. vm_compute. reflexivity. Qed.
(** Names and values are written as they are. *)
Example header_injection :
  rsp_dump (rsp_setHeader (str "X") (str "1" ++ crlf ++ str "Set-Cookie: a=b") (new_HttpResponse 17 true)) =
  str "HTTP/1.1 200 OK" ++ crlf ++ str "X: 1" ++ crlf ++ str "Set-Cookie: a=b" ++ crlf ++ str "connection: close" ++ crlf ++ crlf.
Proof. vm_compute. reflexivity. Qed.
