(* ===== verification/HttpThms.v ===== *)
(** * HTTP messages: the properties *)
From S2P Require Import Prelude Text Http.

(** ** The order of the keys *)
Lemma bytes_compare_eq a : ∀ b, bytes_compare a b = Eq ↔ a = b.
Proof.
  induction a as [|x a IH]; intros [|y b]; cbn; try (split; congruence).
  destruct (Z.compare_spec x y) as [->| |]; [rewrite IH|..]; split; (congruence || (intros [= ? ?]; lia)).
Qed.
Lemma bytes_compare_antisym a : ∀ b, bytes_compare b a = CompOpp (bytes_compare a b).
Proof.
  induction a as [|x a IH]; intros [|y b]; cbn; try done. rewrite Z.compare_antisym. destruct (x ?= y); cbn; [apply IH|done|done].
Qed.
Lemma bytes_compare_trans a : ∀ b c, bytes_compare a b = Lt → bytes_compare b c = Lt → bytes_compare a c = Lt.
Proof.
  induction a as [|x a IH]; intros [|y b] [|z c]; cbn; try (intros; congruence).
  destruct (Z.compare_spec x y) as [->|Hxy|Hxy], (Z.compare_spec y z) as [->|Hyz|Hyz]; intros H1 H2; try congruence.
  all: try (by eapply IH); rewrite (proj2 (Z.compare_lt_iff _ _)) by lia; done.
Qed.
Lemma strcasecmp_eq a b : strcasecmp a b = Eq ↔ fold_case a = fold_case b.
Proof. apply bytes_compare_eq. Qed.
Lemma strcasecmp_gt a b : strcasecmp a b = Gt → strcasecmp b a = Lt.
Proof. unfold strcasecmp. rewrite (bytes_compare_antisym (fold_case a)). by intros ->. Qed.
Lemma strcasecmp_same a b c : fold_case a = fold_case b → strcasecmp a c = strcasecmp b c.
Proof. unfold strcasecmp. by intros ->. Qed.

(** ** Maps of headers, parameters and cookies *)
Definition before (a b : list Z * list Z) : Prop := strcasecmp a.1 b.1 = Lt.
Definition ordered (m : MapType) : Prop := StronglySorted before m.
(** The map as a finite map over the folded keys. *)
Definition view (m : MapType) : gmap (list Z) (list Z) := list_to_map (prod_map fold_case id <$> m).

Lemma view_cons k v m : view ((k, v) :: m) = <[fold_case k := v]> (view m).
Proof. done. Qed.
Lemma view_after k m : Forall (λ e, strcasecmp k e.1 = Lt) m → view m !! fold_case k = None.
Proof.
  induction 1 as [|[k' v'] m Hk _ IH]; [done|]. rewrite view_cons. cbn in Hk.
  rewrite lookup_insert_ne; [done|]. intros E. symmetry in E. apply strcasecmp_eq in E. congruence.
Qed.
Lemma ordered_after k k' v' m : ordered ((k', v') :: m) → strcasecmp k k' = Lt → Forall (λ e, strcasecmp k e.1 = Lt) ((k', v') :: m).
Proof.
  intros [_ Hf]%StronglySorted_inv Hlt. constructor; [done|]. eapply Forall_impl; [exact Hf|]. intros e He.
  unfold before in He. cbn in He. by eapply bytes_compare_trans.
Qed.
Lemma ordered_same k k' v' m : ordered ((k', v') :: m) → strcasecmp k k' = Eq → Forall (λ e, strcasecmp k e.1 = Lt) m.
Proof.
  intros [_ Hf]%StronglySorted_inv Heq%strcasecmp_eq. eapply Forall_impl; [exact Hf|]. intros e He.
  by rewrite (strcasecmp_same k k').
Qed.

Lemma map_find_view k m : ordered m → map_find k m = view m !! fold_case k.
Proof.
  induction m as [|[k' v'] m IH]; intros Ho; [done|]. cbn [map_find]. pose proof (StronglySorted_inv Ho) as [Ho' _].
  destruct (strcasecmp k k') eqn:E.
  - apply strcasecmp_eq in E. by rewrite view_cons, E, lookup_insert_eq.
  - symmetry. by apply view_after, ordered_after.
  - rewrite view_cons, lookup_insert_ne; [by apply IH|]. intros E2. symmetry in E2. apply strcasecmp_eq in E2. congruence.
Qed.

Lemma map_set_keys k v m P : P (k, v) → Forall P m → (∀ k' v', P (k', v') → P (k', v)) → Forall P (map_set k v m).
Proof.
  intros Hk Hm Hv. induction Hm as [|[k' v'] m Hk' Hm IH]; cbn; [by repeat constructor|].
  destruct (strcasecmp k k'); repeat constructor; eauto.
Qed.
Lemma map_set_ordered k v m : ordered m → ordered (map_set k v m).
Proof.
  induction m as [|[k' v'] m IH]; intros Ho; cbn; [by repeat constructor|].
  pose proof (StronglySorted_inv Ho) as [Ho' Hf]. destruct (strcasecmp k k') eqn:E.
  - constructor; [done|]. exact Hf.
  - constructor; [done|]. by eapply ordered_after in E.
  - constructor; [by apply IH|]. apply map_set_keys; [by apply strcasecmp_gt|done|done].
Qed.
Lemma map_set_view k v m : ordered m → view (map_set k v m) = <[fold_case k := v]> (view m).
Proof.
  induction m as [|[k' v'] m IH]; intros Ho; [done|]. cbn [map_set]. pose proof (StronglySorted_inv Ho) as [Ho' _].
  destruct (strcasecmp k k') eqn:E; rewrite ?view_cons; [|done|].
  - apply strcasecmp_eq in E. by rewrite E, insert_insert_eq.
  - rewrite IH by done. apply insert_insert_ne. intros E2. symmetry in E2. apply strcasecmp_eq in E2. congruence.
Qed.
Lemma map_insert_ordered k v m : ordered m → ordered (map_insert k v m).
Proof. unfold map_insert. intros. destruct (map_find k m); [done|by apply map_set_ordered]. Qed.
Lemma map_insert_view k v m : ordered m →
  view (map_insert k v m) = (if view m !! fold_case k is Some _ then view m else <[fold_case k := v]> (view m)).
Proof. intros Ho. unfold map_insert. rewrite map_find_view by done. destruct (view m !! fold_case k); [done|by apply map_set_view]. Qed.
Lemma map_erase_sub k m : ∀ P, Forall P m → Forall P (map_erase k m).
Proof.
  induction m as [|[k' v'] m IH]; intros P Hm; cbn; [done|]. apply Forall_cons in Hm as [? ?].
  destruct (strcasecmp k k'); [done|by constructor|constructor; auto].
Qed.
Lemma map_erase_ordered k m : ordered m → ordered (map_erase k m).
Proof.
  induction m as [|[k' v'] m IH]; intros Ho; cbn; [done|]. pose proof (StronglySorted_inv Ho) as [Ho' Hf].
  destruct (strcasecmp k k'); [done|done|]. constructor; [by apply IH|by apply map_erase_sub].
Qed.
Lemma map_erase_view k m : ordered m → view (map_erase k m) = delete (fold_case k) (view m).
Proof.
  induction m as [|[k' v'] m IH]; intros Ho; [symmetry; by apply delete_id|]. cbn [map_erase]. pose proof (StronglySorted_inv Ho) as [Ho' _].
  destruct (strcasecmp k k') eqn:E.
  - pose proof (ordered_same k k' v' m Ho E) as Hn. apply strcasecmp_eq in E. rewrite view_cons, <- E, delete_insert_eq.
    symmetry. apply delete_id. by apply view_after.
  - symmetry. apply delete_id, view_after. by eapply ordered_after.
  - rewrite !view_cons, IH by done. symmetry. apply delete_insert_ne. intros E2. apply strcasecmp_eq in E2. congruence.
Qed.

(** The operations in any order. *)
Inductive map_op := OpSet (k v : list Z) | OpInsert (k v : list Z) | OpErase (k : list Z).
Definition apply_op (m : MapType) (o : map_op) : MapType :=
  match o with OpSet k v => map_set k v m | OpInsert k v => map_insert k v m | OpErase k => map_erase k m end.
Definition spec_op (m : gmap (list Z) (list Z)) (o : map_op) : gmap (list Z) (list Z) :=
  match o with
  | OpSet k v => <[fold_case k := v]> m
  | OpInsert k v => if m !! fold_case k is Some _ then m else <[fold_case k := v]> m
  | OpErase k => delete (fold_case k) m
  end.

(** C30: The headers, parameters and cookies of a message are one finite map over
    the names without regard to case: whatever is set, inserted and erased, in any
    order, looking a name up finds what the same operations leave in that map, and
    the entries stay in the order of their names. *)
Theorem headers_refine ops k :
  let m := foldl apply_op [] ops in
  map_find k m = foldl spec_op ∅ ops !! fold_case k ∧ ordered m.
Proof.
  assert (∀ m, ordered m → ordered (foldl apply_op m ops) ∧ view (foldl apply_op m ops) = foldl spec_op (view m) ops) as H.
  { induction ops as [|o ops IH]; intros m Ho; [done|]. cbn [foldl].
    assert (ordered (apply_op m o) ∧ view (apply_op m o) = spec_op (view m) o) as [Ho' <-].
    { destruct o as [k' v|k' v|k']; cbn [apply_op spec_op].
      - by split; [apply map_set_ordered|apply map_set_view].
      - by split; [apply map_insert_ordered|apply map_insert_view].
      - by split; [apply map_erase_ordered|apply map_erase_view]. }
    by apply IH. }
  destruct (H []) as [Ho E]; [constructor|]. split; [|done]. by rewrite map_find_view, E.
Qed.

Definition sample_ops : list map_op := [OpSet (str "Host") (str "a"); OpInsert (str "host") (str "b"); OpSet (str "HOST") (str "c"); OpErase (str "x")].
Example headers_sample : foldl apply_op [] sample_ops = [(str "Host", str "c")].
Proof. vm_compute. reflexivity. Qed.

(** ** Parameters *)
Lemma find_char_at p a c s : Forall (λ x, p x = false) a → p c = true → find_char p (a ++ c :: s) = Some (a, s).
Proof. induction 1 as [|x a Hx _ IH]; intros Hc; cbn; [by rewrite Hc|]. by rewrite Hx, IH. Qed.
Lemma find_char_end p a : Forall (λ x, p x = false) a → find_char p a = None.
Proof. induction 1 as [|x a Hx _ IH]; cbn; [done|]. by rewrite Hx, IH. Qed.
Lemma encode_char_clean b c : is_byte c → Forall (λ x, (38 =? x) = false) (encode_char b c).
Proof.
  intros Hc. assert (∀ z, 0 ≤ z < Z.of_nat 256 → forallb (λ x, negb (38 =? x)) (encode_char b z) = true) as H.
  { destruct b; by apply all_below. }
  specialize (H c ltac:(unfold is_byte, is_uint in Hc; lia)). rewrite forallb_forall in H. apply Forall_forall.
  intros x Hx%list_elem_of_In. specialize (H x Hx). by destruct (38 =? x).
Qed.
Lemma UrlEncode_clean s b : bytes_ok s → Forall (λ x, (38 =? x) = false) (UrlEncode s b).
Proof.
  rewrite UrlEncode_spec. induction 1 as [|c s Hc _ IH]; cbn; [done|]. apply Forall_app. split; [by apply encode_char_clean|done].
Qed.
Lemma UrlDecode_encoded s b : bytes_ok s → UrlDecode (UrlEncode s b) b = s.
Proof. intros Hs. rewrite UrlDecode_spec, UrlEncode_spec. by apply url_chars. Qed.

Definition key_ok (k : list Z) : Prop := Forall (λ x, (61 =? x) = false) k.
Definition param_text (kv : list Z * list Z) : list Z := kv.1 ++ [61] ++ UrlEncode kv.2 true.
Definition insert_all (l : list (list Z * list Z)) (m : MapType) : MapType := foldl (λ m kv, map_insert kv.1 kv.2 m) m l.
Lemma parse_params fuel l : ∀ m, (length l < fuel)%nat → Forall (λ kv, key_ok kv.1 ∧ bytes_ok kv.2) l →
  parse_param fuel 38 id (join [38] (param_text <$> l)) m = insert_all l m.
Proof.
  revert fuel. induction l as [|[k v] l IH]; intros fuel m Hf Hl; (destruct fuel as [|fuel]; [cbn in Hf; lia|]); [done|].
  apply Forall_cons in Hl as [[Hk Hv] Hl]. cbn [fst snd] in *. cbn [parse_param fmap list_fmap].
  destruct l as [|kv l].
  - cbn [fmap list_fmap join]. unfold param_text. cbn [fst snd app]. rewrite find_char_at by done.
    rewrite find_char_end by by apply UrlEncode_clean. rewrite UrlDecode_encoded by done. done.
  - rewrite join_cons by done. unfold param_text at 1. cbn [fst snd]. rewrite <- !app_assoc. cbn [app].
    rewrite find_char_at by done. rewrite find_char_at by (try apply UrlEncode_clean; done). rewrite UrlDecode_encoded by done.
    apply IH; [cbn in *; lia|done].
Qed.
Lemma params_length l : (length l < S (length (join [38%Z] (param_text <$> l))))%nat.
Proof.
  induction l as [|[k v] l IH]; [cbn; lia|]. cbn [fmap list_fmap]. destruct l as [|kv l].
  - cbn [fmap list_fmap join]. unfold param_text. rewrite !length_app. cbn. lia.
  - rewrite join_cons by done. unfold param_text at 1. rewrite !length_app. cbn [length] in *. lia.
Qed.
Lemma insert_all_find l : ∀ m k, ordered m →
  map_find k (insert_all l m) =
    (if map_find k m is Some v then Some v else snd <$> head (filter (λ kv, fold_case kv.1 = fold_case k) l)) ∧ ordered (insert_all l m).
Proof.
  induction l as [|[k' v'] l IH]; intros m k Ho; [cbn; split; [by destruct (map_find k m)|done]|].
  change (insert_all ((k', v') :: l) m) with (insert_all l (map_insert k' v' m)).
  destruct (IH (map_insert k' v' m) k (map_insert_ordered k' v' m Ho)) as [E Ho']. rewrite E. split; [|done].
  rewrite !map_find_view, map_insert_view by (done || by apply map_insert_ordered). rewrite filter_cons. cbn [fst snd].
  destruct (decide (fold_case k' = fold_case k)) as [<-|Hne].
  - destruct (view m !! fold_case k') eqn:Ev; [by rewrite Ev|]. by rewrite lookup_insert_eq.
  - destruct (view m !! fold_case k') eqn:Ev; [done|]. by rewrite lookup_insert_ne.
Qed.

(** A query string of "key=value" parts, the values URL-encoded, gives back its
    parameters: asking for a name, without regard to case, returns the decoded value
    of the first part with that name, and the default when there is none. *)
Theorem query_roundtrip r l key def :
  m_parserParamFlag r = 0 → m_params r = [] →
  contains_nocase (getHeader (str "content-type") [] r) (str "application/x-www-form-urlencoded") = false →
  m_query r = join [38] (param_text <$> l) → Forall (λ kv, key_ok kv.1 ∧ bytes_ok kv.2) l →
  (getParam key def r).1 = default def (snd <$> head (filter (λ kv, fold_case kv.1 = fold_case key) l)).
Proof.
  intros Hflag Hp Hct Hq Hl. unfold getParam.
  assert (initQueryParam r = set_flag 1 (set_params (insert_all l []) r)) as ->.
  { unfold initQueryParam. rewrite Hflag. change (Z.testbit 0 0) with false. change (Z.lor 0 1) with 1. cbn iota.
    unfold PARSE_PARAM. rewrite Hq, Hp, parse_params; [done|by apply params_length|done]. }
  assert (initBodyParam (set_flag 1 (set_params (insert_all l []) r)) = set_flag 3 (set_params (insert_all l []) r)) as ->.
  { unfold initBodyParam. change (getHeader (bytes_of_string "content-type") [] (set_flag 1 (set_params (insert_all l []) r)))
      with (getHeader (str "content-type") [] r). unfold str in *. by rewrite Hct. }
  cbn [fst set_flag set_params m_params]. destruct (insert_all_find l [] key) as [-> _]; [constructor|]. done.
Qed.

Definition sample_params : list (list Z * list Z) := [(str "x", str "1"); (str "y", str "a b&"); (str "X", str "2")].
Definition query_request : HttpRequest :=
  mkHttpRequest GET 17 false false 0 [47] (join [38] (param_text <$> sample_params)) [] [] [] [] [].
Lemma query_roundtrip_witness : (getParam (str "X") [] query_request).1 = str "1" ∧ (getParam (str "z") (str "no") query_request).1 = str "no".
Proof.
  assert (Forall (λ kv, key_ok kv.1 ∧ bytes_ok kv.2) sample_params) as Hl by (repeat constructor; done).
  split.
  - exact (query_roundtrip query_request sample_params (str "X") [] eq_refl eq_refl eq_refl eq_refl Hl).
  - exact (query_roundtrip query_request sample_params (str "z") (str "no") eq_refl eq_refl eq_refl eq_refl Hl).
Defined.

(** ** Methods *)
(** The names of the methods and their codes go together: the name of a method is
    read back as that method, as a whole string and at the head of a request. *)
Theorem methods_roundtrip m rest : m ≠ INVALID_METHOD →
  StringToHttpMethod (HttpMethodToString m) = m ∧ CharsToHttpMethod (HttpMethodToString m ++ rest) = m.
Proof. intros Hm. split; destruct m; try done; vm_compute; reflexivity. Qed.
Lemma methods_roundtrip_witness : StringToHttpMethod (str "M-SEARCH") = MSEARCH ∧ CharsToHttpMethod (str "M-SEARCH * HTTP/1.1") = MSEARCH.
Proof. exact (methods_roundtrip MSEARCH (str " * HTTP/1.1") ltac:(discriminate)). Defined.

(** ** The text of a message

    A reader of messages by the book: lines end in CR LF, a header is a name, ": " and
    a value, and an empty line ends the head. *)
Definition read_header (line : list Z) : option (list Z * list Z) := find_string [58; 32] line.
Fixpoint read_head (fuel : nat) (text : list Z) : option (list (list Z * list Z) * list Z) :=
  match fuel with
  | O => None
  | S fuel =>
    l ← find_string crlf text;
    let '(line, rest) := l in
    if bool_decide (line = []) then Some ([], rest) else
    h ← read_header line;
    r ← read_head fuel rest;
    Some (h :: r.1, r.2)
  end.
Definition read_message (text : list Z) : option (list Z * list (list Z * list Z) * list Z) :=
  l ← find_string crlf text;
  let '(start, rest) := l in
  r ← read_head (length text) rest;
  Some (start, r.1, r.2).

(** No CR; names that are not empty and hold no colon. *)
Definition line_ok (s : list Z) : Prop := 13 ∉ s.
Definition header_ok (kv : list Z * list Z) : Prop := (kv.1 ≠ []) ∧ line_ok (kv.1) ∧ ¬ (58 ∈ kv.1) ∧ line_ok (kv.2).

Definition read_number (s : list Z) : Z := foldl (λ v d, 10 * v + (d - 48)) 0 s.

Lemma find_string_hit f rest : find_string f (f ++ rest) = Some ([], rest).
Proof.
  assert (∀ s, find_string f s = if bool_decide (take (length f) s = f) then Some ([], drop (length f) s)
    else match s with [] => None | c :: s => prod_map (c ::.) id <$> find_string f s end) as E by by destruct s.
  rewrite E, bool_decide_true by apply take_app_length. by rewrite drop_app_length.
Qed.
Lemma find_string_first c f s rest : c ∉ s → find_string (c :: f) (s ++ (c :: f) ++ rest) = Some (s, rest).
Proof.
  intros Hc. induction s as [|x s IH]; [exact (find_string_hit (c :: f) rest)|]. apply not_elem_of_cons in Hc as [Hx Hc].
  cbn [app find_string]. rewrite bool_decide_false by (cbn; congruence). change (c :: f ++ rest) with ((c :: f) ++ rest). by rewrite IH.
Qed.

Lemma decimal_loop_ok fuel : ∀ n acc, 0 ≤ n < 2 ^ Z.of_nat fuel → (0 < fuel)%nat →
  ∃ ds, decimal_loop fuel n acc = ds ++ acc ∧ ds ≠ [] ∧ Forall (λ d, 48 ≤ d < 58) ds ∧ read_number ds = n.
Proof.
  induction fuel as [|fuel IH]; intros n acc Hn Hf; [lia|]. cbn [decimal_loop]. pose proof (Z.mod_pos_bound n 10 ltac:(lia)).
  destruct (Z.ltb_spec n 10).
  - exists [48 + n mod 10]. split; [done|]. split; [done|]. split; [by repeat constructor; lia|].
    unfold read_number. cbn [foldl]. rewrite Z.mod_small by lia. lia.
  - assert (0 < fuel)%nat. { destruct fuel; [|lia]. change (2 ^ Z.of_nat 1) with 2 in Hn. lia. }
    rewrite Nat2Z.inj_succ, Z.pow_succ_r in Hn by lia.
    destruct (IH (n / 10) ((48 + n mod 10) :: acc)) as (ds & -> & Hne & Hd & Hv); [|done|].
    { split; [apply Z.div_pos; lia|]. apply Z.div_lt_upper_bound; lia. }
    exists (ds ++ [48 + n mod 10]). split; [by rewrite <- app_assoc|]. split; [by destruct ds|].
    split; [apply Forall_app; split; [done|repeat constructor; lia]|]. unfold read_number in *. rewrite foldl_app, Hv. cbn [foldl].
    pose proof (Z.div_mod n 10). lia.
Qed.
Lemma decimal_ok n : 0 ≤ n → decimal n ≠ [] ∧ Forall (λ d, 48 ≤ d < 58) (decimal n) ∧ read_number (decimal n) = n.
Proof.
  intros Hn. unfold decimal. destruct (decimal_loop_ok (S (Z.to_nat (Z.log2 n))) n []) as (ds & -> & ?); [|lia|by rewrite app_nil_r].
  rewrite Nat2Z.inj_succ, Z2Nat.id by apply Z.log2_nonneg. destruct (decide (n = 0)) as [->|]; [done|].
  split; [done|]. apply Z.log2_spec. lia.
Qed.

Lemma read_header_line k v : 58 ∉ k → read_header (k ++ [58; 32] ++ v) = Some (k, v).
Proof. apply find_string_first. Qed.
Lemma read_head_ok hs body : ∀ fuel, (length hs < fuel)%nat → Forall header_ok hs →
  read_head fuel ((hs ≫= λ kv, header_line kv.1 kv.2) ++ crlf ++ body) = Some (hs, body).
Proof.
  induction hs as [|[k v] hs IH]; intros fuel Hf Hh; (destruct fuel as [|fuel]; [cbn in Hf; lia|]); cbn [mbind list_bind].
  - cbn [app read_head]. change (crlf ++ body) with (crlf ++ body). rewrite (find_string_hit crlf body). done.
  - apply Forall_cons in Hh as [(Hk & Hk1 & Hk2 & Hv) Hh]. cbn [fst snd] in *. cbn [read_head]. unfold header_line at 1.
    assert (13 ∉ k ++ [58; 32] ++ v) as Hline.
    { rewrite !elem_of_app. intros [?|[Hin|?]]; [done| |done]. apply elem_of_cons in Hin as [?|Hin]; [done|].
      apply elem_of_cons in Hin as [?|Hin]; [done|by apply elem_of_nil in Hin]. }
    replace (((k ++ [58; 32] ++ v ++ crlf) ++ (hs ≫= λ kv, header_line kv.1 kv.2)) ++ crlf ++ body)
      with ((k ++ [58; 32] ++ v) ++ crlf ++ ((hs ≫= λ kv, header_line kv.1 kv.2) ++ crlf ++ body)) by by rewrite <- !app_assoc.
    unfold crlf at 1 2. rewrite find_string_first by done. cbn [mbind option_bind]. rewrite bool_decide_false by by destruct k.
    rewrite read_header_line by done. cbn [mbind option_bind]. rewrite IH by (done || cbn in Hf; lia). done.
Qed.

Definition start_line (r : HttpRequest) : list Z :=
  HttpMethodToString (m_method r) ++ [32] ++ m_path r ++ with_mark 63 (m_query r) ++ with_mark 35 (m_fragment r) ++
  bytes_of_string " HTTP/" ++ version_text (m_version r).
(** The reason, or the standard one of the status. *)
Definition reason_text (r : HttpResponse) : list Z :=
  if bool_decide (rsp_reason r = []) then HttpStatusToString (rsp_status r) else rsp_reason r.
Definition rsp_start_line (r : HttpResponse) : list Z :=
  bytes_of_string "HTTP/" ++ version_text (rsp_version r) ++ [32] ++ decimal (rsp_status r) ++ [32] ++ reason_text r.
(** What a message has for headers: its own, with one on the connection in place of
    those that were set, and the length of the body. *)
Definition length_header (body : list Z) : MapType :=
  if bool_decide (body = []) then [] else [(str "content-length", decimal (Z.of_nat (length body)))].
Definition connection_header (websocket close : bool) : MapType :=
  if websocket then [] else [(str "connection", str (if close then "close" else "keep-alive"))].
Definition own_headers (websocket : bool) (m : list (list Z * list Z)) : list (list Z * list Z) := filter (λ kv, negb websocket && is_connection kv.1 = false) m.

Lemma header_lines_own ws m : header_lines ws m = own_headers ws m ≫= λ kv, header_line kv.1 kv.2.
Proof.
  unfold header_lines, own_headers. induction m as [|kv m IH]; [done|]. rewrite filter_cons. cbn [mbind list_bind].
  change (m ≫= ?f) with (list_bind _ _ f m) in IH. destruct (negb ws && is_connection kv.1).
  - rewrite decide_False by done. exact IH.
  - rewrite decide_True by done. cbn [mbind list_bind]. f_equal. exact IH.
Qed.
Lemma message_text (start body : list Z) (hs : MapType) :
  line_ok start → Forall header_ok hs →
  read_message (start ++ crlf ++ (hs ≫= λ kv, header_line kv.1 kv.2) ++ body_text body) = Some (start, hs ++ length_header body, body).
Proof.
  intros Hs Hh. unfold read_message. unfold crlf at 1 2. rewrite find_string_first by done. cbn [mbind option_bind].
  assert (Forall header_ok (hs ++ length_header body)) as Hall.
  { apply Forall_app. split; [done|]. unfold length_header. case_bool_decide; [done|]. repeat constructor; cbn [fst snd]; try done.
    - intros H0. repeat (apply elem_of_cons in H0 as [?|H0]; [done|]). by apply elem_of_nil in H0.
    - intros H0. repeat (apply elem_of_cons in H0 as [?|H0]; [done|]). by apply elem_of_nil in H0.
    - intros H0. destruct (decimal_ok (Z.of_nat (length body)) ltac:(lia)) as (_ & Hd & _). rewrite Forall_forall in Hd. specialize (Hd _ H0). lia. }
  assert ((hs ≫= λ kv, header_line kv.1 kv.2) ++ body_text body =
    ((hs ++ length_header body) ≫= λ kv, header_line kv.1 kv.2) ++ crlf ++ body) as ->.
  { rewrite bind_app, <- app_assoc. f_equal. unfold body_text, length_header. case_bool_decide as E; [by rewrite E|].
    cbn [mbind list_bind fst snd]. by rewrite app_nil_r. }
  rewrite read_head_ok; [done| |done].
  assert (∀ l : MapType, (length l ≤ length (l ≫= λ kv, header_line kv.1 kv.2))%nat) as Hlen.
  { induction l as [|kv l IH]; [cbn; lia|]. rewrite bind_cons, length_app. cbn [length].
    assert (0 < length (header_line kv.1 kv.2))%nat by (unfold header_line, crlf; rewrite !length_app; cbn; lia). lia. }
  specialize (Hlen (hs ++ length_header body)). set (t := (hs ++ length_header body) ≫= _) in *. change (start ++ [13; 10] ++ t ++ crlf ++ body) with (start ++ [13; 10] ++ t ++ [13; 10] ++ body). rewrite (length_app start), (length_app [13; 10]), (length_app t). cbn [length app]. lia.
Qed.

Lemma header_lines_bind ws m : header_lines ws m = own_headers ws m ≫= λ kv, header_line kv.1 kv.2.
Proof. apply header_lines_own. Qed.
Lemma connection_line_bind ws close : connection_line ws close = connection_header ws close ≫= λ kv, header_line kv.1 kv.2.
Proof. destruct ws; [done|]. cbn [connection_line connection_header mbind list_bind fst snd]. by rewrite app_nil_r. Qed.
Lemma not_in (x : Z) l : forallb (λ y, negb (x =? y)) l = true → x ∉ l.
Proof. rewrite forallb_forall. intros H Hx. apply list_elem_of_In in Hx. specialize (H x Hx). by rewrite Z.eqb_refl in H. Qed.
Lemma connection_header_ok ws close : Forall header_ok (connection_header ws close).
Proof.
  destruct ws; repeat constructor; cbn [fst snd]; [done|by apply not_in..|destruct close; by apply not_in].
Qed.
Lemma own_headers_ok ws m : Forall header_ok m → Forall header_ok (own_headers ws m).
Proof. intros H. apply Forall_forall. intros kv [_ Hin]%list_elem_of_filter. rewrite Forall_forall in H. by apply H. Qed.

Lemma decimal_line_ok n : 0 ≤ n → line_ok (decimal n).
Proof. intros Hn H. destruct (decimal_ok n Hn) as (_ & Hd & _). rewrite Forall_forall in Hd. specialize (Hd _ H). lia. Qed.
Lemma version_line_ok v : 0 ≤ v → line_ok (version_text v).
Proof.
  intros Hv. unfold version_text, line_ok. rewrite !elem_of_app. intros [H|[H|H]].
  - revert H. apply decimal_line_ok. by apply Z.shiftr_nonneg.
  - apply elem_of_cons in H as [?|H]; [done|by apply elem_of_nil in H].
  - revert H. apply decimal_line_ok. apply Z.land_nonneg. by left.
Qed.
Lemma method_line_ok m : line_ok (HttpMethodToString m).
Proof. apply not_in. destruct m; vm_compute; reflexivity. Qed.
Lemma status_line_ok s : line_ok (HttpStatusToString s).
Proof.
  unfold HttpStatusToString. assert (Forall (λ x, 13 ∉ bytes_of_string x.2) status_table) as H.
  { eapply (Forall_impl (λ x, forallb (λ y, negb (13 =? y)) (bytes_of_string x.2) = true)); [|intros x; apply not_in].
    repeat (constructor; [vm_compute; reflexivity|]). constructor. }
  destruct (head (filter _ status_table)) as [x|] eqn:E; cbn; [|by apply not_in].
  rewrite Forall_forall in H. apply H. assert (x ∈ filter (λ y, y.1 = s) status_table) as Hx.
  { destruct (filter _ status_table); [done|]. injection E as ->. by left. }
  by apply list_elem_of_filter in Hx as [_ ?].
Qed.
Lemma line_ok_app a b : line_ok (a ++ b) ↔ line_ok a ∧ line_ok b.
Proof. unfold line_ok. rewrite elem_of_app. tauto. Qed.
Lemma mark_line_ok c s : c ≠ 13 → line_ok s → line_ok (with_mark c s).
Proof. intros Hc Hs. unfold with_mark. case_bool_decide; [apply not_elem_of_nil|]. by apply not_elem_of_cons. Qed.

(** C29: The text of a request and of a response is a message by the book, as long as
    no line of it holds a CR and no header's name is empty or holds a colon: its start
    line - method, target and version, or version, status in decimal and reason, the
    standard one when the response has none - then its headers - its own and one on the
    connection in place of those that were set, the cookies of a response each on a
    line - then, when there is a body, a header that states its length in decimal, an
    empty line and the body. *)
Theorem message_reads (r : HttpRequest) (p : HttpResponse) :
  (line_ok (m_path r) → line_ok (m_query r) → line_ok (m_fragment r) → 0 ≤ m_version r → Forall header_ok (m_headers r) →
   read_message (dump r) = Some (start_line r,
     connection_header (m_websocket r) (m_close r) ++ own_headers (m_websocket r) (m_headers r) ++ length_header (m_body r), m_body r)) ∧
  (line_ok (rsp_reason p) → 0 ≤ rsp_version p → 0 ≤ rsp_status p → Forall header_ok (rsp_headers p) → Forall line_ok (rsp_cookies p) →
   read_message (rsp_dump p) = Some (rsp_start_line p,
     own_headers (rsp_websocket p) (rsp_headers p) ++ ((λ c, (str "Set-Cookie", c)) <$> rsp_cookies p) ++
     connection_header (rsp_websocket p) (rsp_close p) ++ length_header (rsp_body p), rsp_body p) ∧
   read_number (decimal (rsp_status p)) = rsp_status p) ∧
  (m_body r ≠ [] → ∃ n, length_header (m_body r) = [(str "content-length", n)] ∧ read_number n = Z.of_nat (length (m_body r))).
Proof.
  split; [|split].
  - intros H1 H2 H3 Hv Hh. rewrite app_assoc. rewrite <- (message_text (start_line r)).
    + f_equal. unfold dump, start_line. rewrite bind_app, header_lines_own, connection_line_bind, <- !app_assoc. done.
    + unfold start_line. rewrite !line_ok_app. split_and!; [apply method_line_ok|by apply not_in|done|by apply mark_line_ok|by apply mark_line_ok|by apply not_in|by apply version_line_ok].
    + apply Forall_app. split; [apply connection_header_ok|by apply own_headers_ok].
  - intros H1 Hv Hs Hh Hc. split; [|by apply decimal_ok]. rewrite (app_assoc (_ <$> _)), (app_assoc (own_headers _ _)). rewrite <- (message_text (rsp_start_line p)).
    + f_equal. unfold rsp_dump, rsp_start_line, reason_text. rewrite !bind_app, header_lines_own, connection_line_bind.
      assert ((((λ c, (str "Set-Cookie", c)) <$> rsp_cookies p) ≫= λ kv, header_line kv.1 kv.2) =
        (rsp_cookies p ≫= λ c, header_line (bytes_of_string "Set-Cookie") c)) as ->.
      { rewrite list_fmap_bind. reflexivity. }
      rewrite !app_assoc. do 5 f_equal. 
    + unfold rsp_start_line, reason_text. rewrite !line_ok_app. split_and!; try (by apply not_in); try (by apply version_line_ok); try (by apply decimal_line_ok).
      case_bool_decide; [apply status_line_ok|done].
    + apply Forall_app. split; [by apply own_headers_ok|]. apply Forall_app. split; [|apply connection_header_ok].
      apply Forall_fmap. eapply Forall_impl; [exact Hc|]. intros c Hcc. cbn. unfold header_ok. cbn [fst snd].
      split_and!; [done|by apply not_in..|done].
  - intros Hb. unfold length_header. rewrite bool_decide_false by done. eexists. split; [done|]. apply decimal_ok. lia.
Qed.
Lemma message_reads_witness :
  read_message (dump sample_request) = Some (str "POST /a?x=1&y=a+b%26 HTTP/1.1",
    [(str "connection", str "keep-alive"); (str "Host", str "h"); (str "X-Id", str "7"); (str "content-length", str "3")], str "k=v").
Proof.
  assert (Forall header_ok (m_headers sample_request)) as Hh by (repeat constructor; (discriminate || by apply not_in)).
  exact (proj1 (message_reads sample_request (new_HttpResponse 17 true))
    (not_in 13 (str "/a") eq_refl) (not_in 13 (str "x=1&y=a+b%26") eq_refl) (not_in 13 [] eq_refl) ltac:(discriminate) Hh).
Defined.
