(* ===== verification/Servlet.v ===== *)
(** * Servlets (http/servlet.{h,cc})

    A dispatcher finds the servlet of a request by its path: an exact entry, else
    the first pattern that matches, else the default. *)
From S2P Require Import Prelude Http.

(** ** Data *)
(** [NotFoundServlet] keeps its page; any other servlet is a number. *)
Inductive servlet := NotFoundServlet (name : list Z) | UserServlet (n : nat).
(** A creator holds one servlet or makes a new one of its type at each call: the
    servlets that it makes are counted. *)
Inductive creator := HoldServletCreator (s : servlet) | ServletCreator (type : nat).
Inductive served := Held (s : servlet) | Fresh (type : nat).
Definition creator_get (c : creator) : served :=
  match c with HoldServletCreator s => Held s | ServletCreator t => Fresh t end.

Record ServletDispatch := mkServletDispatch {
  m_datas : gmap (list Z) creator;
  m_globs : list (list Z * creator);
  m_default : servlet }.
Definition new_ServletDispatch : ServletDispatch :=
  mkServletDispatch ∅ [] (NotFoundServlet (bytes_of_string "helens/1.0")).

(** ** Operations *)
Definition addServletCreator (uri : list Z) (c : creator) (d : ServletDispatch) : ServletDispatch :=
  mkServletDispatch (<[uri := c]> (m_datas d)) (m_globs d) (m_default d).
Definition addServlet (uri : list Z) (s : servlet) (d : ServletDispatch) : ServletDispatch :=
  addServletCreator uri (HoldServletCreator s) d.
Fixpoint erase_glob (uri : list Z) (l : list (list Z * creator)) : list (list Z * creator) :=
  match l with
  | [] => []
  | (u, c) :: l => if bool_decide (u = uri) then l else (u, c) :: erase_glob uri l
  end.
Definition addGlobServletCreator (uri : list Z) (c : creator) (d : ServletDispatch) : ServletDispatch :=
  mkServletDispatch (m_datas d) (erase_glob uri (m_globs d) ++ [(uri, c)]) (m_default d).
Definition addGlobServlet (uri : list Z) (s : servlet) (d : ServletDispatch) : ServletDispatch :=
  addGlobServletCreator uri (HoldServletCreator s) d.
Definition delServlet (uri : list Z) (d : ServletDispatch) : ServletDispatch :=
  mkServletDispatch (delete uri (m_datas d)) (m_globs d) (m_default d).
Definition delGlobServlet (uri : list Z) (d : ServletDispatch) : ServletDispatch :=
  mkServletDispatch (m_datas d) (erase_glob uri (m_globs d)) (m_default d).
Definition setDefault (s : servlet) (d : ServletDispatch) : ServletDispatch :=
  mkServletDispatch (m_datas d) (m_globs d) s.
Definition getServlet (uri : list Z) (d : ServletDispatch) : option served := creator_get <$> m_datas d !! uri.
Fixpoint find_glob (p : list Z → bool) (l : list (list Z * creator)) : option creator :=
  match l with
  | [] => None
  | (u, c) :: l => if p u then Some c else find_glob p l
  end.
Definition getGlobServlet (uri : list Z) (d : ServletDispatch) : option served :=
  creator_get <$> find_glob (λ u, bool_decide (u = uri)) (m_globs d).

Section dispatch.
(** [fnmatch(pattern, path, 0) == 0] of the C library, and what the user's servlets do
    to a response. *)
Context (fnmatch : list Z → list Z → bool) (user : served → HttpRequest → HttpResponse → HttpResponse).

Definition getMatchedServlet (uri : list Z) (d : ServletDispatch) : served :=
  match m_datas d !! uri with
  | Some c => creator_get c
  | None =>
    match find_glob (λ u, fnmatch (c_str u) (c_str uri)) (m_globs d) with
    | Some c => creator_get c
    | None => Held (m_default d)
    end
  end.

Definition not_found_page (name : list Z) : list Z :=
  bytes_of_string "<html><head><title>404 Not Found</title></head><body><center><h1>404 Not Found</h1></center><hr><center>" ++
  name ++ bytes_of_string "</center></body></html>".
Definition not_found_handle (name : list Z) (rsp : HttpResponse) : HttpResponse :=
  setBody (not_found_page name)
    (rsp_setHeader (bytes_of_string "Content-Type") (bytes_of_string "text/html")
      (rsp_setHeader (bytes_of_string "Server") (bytes_of_string "helens/1.0.0") (setStatus 404 rsp))).
Definition servlet_handle (s : served) (req : HttpRequest) (rsp : HttpResponse) : HttpResponse :=
  match s with
  | Held (NotFoundServlet name) => not_found_handle name rsp
  | _ => user s req rsp
  end.
Definition handle (d : ServletDispatch) (req : HttpRequest) (rsp : HttpResponse) : Z * HttpResponse :=
  (0, servlet_handle (getMatchedServlet (m_path req) d) req rsp).
End dispatch.

(** ** The table as a history of calls *)
Inductive call :=
| AddServlet (uri : list Z) (c : creator) | AddGlob (uri : list Z) (c : creator)
| DelServlet (uri : list Z) | DelGlob (uri : list Z) | SetDefault (s : servlet).
Definition apply_call (d : ServletDispatch) (x : call) : ServletDispatch :=
  match x with
  | AddServlet u c => addServletCreator u c d
  | AddGlob u c => addGlobServletCreator u c d
  | DelServlet u => delServlet u d
  | DelGlob u => delGlobServlet u d
  | SetDefault s => setDefault s d
  end.

(** The call that decides about an exact entry is the last one on its path. *)
Fixpoint last_exact (uri : list Z) (cs : list call) : option creator :=
  match cs with
  | [] => None
  | AddServlet u c :: cs => if decide (u = uri) then Some c else last_exact uri cs
  | DelServlet u :: cs => if decide (u = uri) then None else last_exact uri cs
  | _ :: cs => last_exact uri cs
  end.
(** The patterns that stand, the latest first: the last call on each one added it. *)
Fixpoint standing (seen : list (list Z)) (cs : list call) : list (list Z * creator) :=
  match cs with
  | [] => []
  | AddGlob u c :: cs => if decide (u ∈ seen) then standing seen cs else (u, c) :: standing (u :: seen) cs
  | DelGlob u :: cs => standing (u :: seen) cs
  | _ :: cs => standing seen cs
  end.

(** The default that stands. *)
Fixpoint last_default (cs : list call) : servlet :=
  match cs with
  | [] => m_default new_ServletDispatch
  | SetDefault s :: _ => s
  | _ :: cs => last_default cs
  end.

Lemma filter_id {A} (P : A → Prop) `{∀ x, Decision (P x)} l : Forall P l → filter P l = l.
Proof. induction 1; [done|]. rewrite filter_cons_True by done. by f_equal. Qed.
Lemma erase_glob_filter u l : NoDup (l.*1) → erase_glob u l = filter (λ x, x.1 ≠ u) l.
Proof.
  induction l as [|[v c] l IH]; intros Hn; [done|]. apply NoDup_cons in Hn as [Hv Hn]. cbn [erase_glob]. rewrite filter_cons. cbn [fst].
  case_bool_decide as E.
  - rewrite decide_False by tauto. subst u. symmetry. apply filter_id, Forall_forall. intros [w c'] Hw E. cbn in E. subst w.
    apply Hv. apply list_elem_of_fmap. by exists (v, c').
  - rewrite decide_True by done. by rewrite IH.
Qed.

Lemma standing_ext cs : ∀ s s', (∀ x, x ∈ s ↔ x ∈ s') → standing s cs = standing s' cs.
Proof.
  induction cs as [|[u c|u c|u|u|d] cs IH]; intros s s' Hs; cbn [standing]; [done|by apply IH| |by apply IH| |by apply IH].
  - destruct (decide (u ∈ s)) as [H|H], (decide (u ∈ s')) as [H'|H']; try (rewrite Hs in H; done); [by apply IH|].
    f_equal. apply IH. intros x. rewrite !elem_of_cons, Hs. done.
  - apply IH. intros x. rewrite !elem_of_cons, Hs. done.
Qed.
Lemma standing_seen s1 cs : ∀ s2, standing (s1 ++ s2) cs = filter (λ x, x.1 ∉ s1) (standing s2 cs).
Proof.
  induction cs as [|[u c|u c|u|u|d] cs IH]; intros s2; cbn [standing]; [done|by apply IH| |by apply IH| |by apply IH].
  - destruct (decide (u ∈ s2)) as [H2|H2].
    { rewrite decide_True by (apply elem_of_app; by right). apply IH. }
    rewrite filter_cons. cbn [fst]. destruct (decide (u ∈ s1)) as [H1|H1].
    + rewrite decide_True by (apply elem_of_app; by left). rewrite decide_False by tauto. rewrite <- IH.
      apply standing_ext. intros x. rewrite !elem_of_app, elem_of_cons. split; [tauto|]. intros [?|[->|?]]; tauto.
    + rewrite decide_False by (rewrite elem_of_app; tauto). rewrite decide_True by done. f_equal. rewrite <- IH.
      apply standing_ext. intros x. rewrite !elem_of_cons, !elem_of_app, elem_of_cons. tauto.
  - rewrite <- IH. apply standing_ext. intros x. rewrite !elem_of_cons, !elem_of_app, elem_of_cons. tauto.
Qed.
Lemma standing_NoDup cs : ∀ s, NoDup ((standing s cs).*1) ∧ Forall (λ x, x.1 ∉ s) (standing s cs).
Proof.
  induction cs as [|[u c|u c|u|u|d] cs IH]; intros s; cbn [standing]; [repeat constructor|by apply IH| |by apply IH| |by apply IH].
  - destruct (decide (u ∈ s)) as [H|H]; [by apply IH|]. destruct (IH (u :: s)) as [Hn Hs]. split.
    + cbn. constructor; [|done]. intros (x & E & Hx)%list_elem_of_fmap. rewrite Forall_forall in Hs. apply (Hs x Hx). rewrite <- E. by left.
    + constructor; [done|]. eapply Forall_impl; [exact Hs|]. intros x Hx Hin. apply Hx. by right.
  - destruct (IH (u :: s)) as [Hn Hs]. split; [done|]. eapply Forall_impl; [exact Hs|]. intros x Hx Hin. apply Hx. by right.
Qed.

Definition after_calls (cs : list call) : ServletDispatch := foldr (λ x d, apply_call d x) new_ServletDispatch cs.
Lemma after_calls_ok cs : (∀ uri, m_datas (after_calls cs) !! uri = last_exact uri cs) ∧
  m_globs (after_calls cs) = reverse (standing [] cs) ∧ m_default (after_calls cs) = last_default cs.
Proof.
  induction cs as [|x cs (Hd & Hg & Hf)]; [done|].
  assert (∀ u, erase_glob u (reverse (standing [] cs)) = reverse (standing [u] cs)) as He.
  { intros u. rewrite erase_glob_filter by (rewrite fmap_reverse, reverse_Permutation; apply standing_NoDup).
    rewrite filter_reverse. f_equal. rewrite <- (app_nil_r [u]), standing_seen. apply list_filter_iff. intros y.
    rewrite list_elem_of_singleton. done. }
  change (after_calls (x :: cs)) with (apply_call (after_calls cs) x).
  destruct x as [u c|u c|u|u|s]; cbn [apply_call addServletCreator addGlobServletCreator delServlet delGlobServlet setDefault
    m_datas m_globs m_default last_exact standing last_default]; (split; [intros uri; try apply Hd|split; rewrite ?Hg; try done]).
  - destruct (decide (u = uri)) as [->|]; [by rewrite lookup_insert_eq|by rewrite lookup_insert_ne, Hd].
  - rewrite decide_False by apply not_elem_of_nil. by rewrite He, reverse_cons.
  - destruct (decide (u = uri)) as [->|]; [by rewrite lookup_delete_eq|by rewrite lookup_delete_ne, Hd].
Qed.

(** C31: After any history of additions and removals, the servlet of a path is: the one
    that the last call on exactly this path added, if it was not a removal; else the
    one of the first pattern - in the order of their last additions - that matches
    and has not been removed since; else the default that was set last.  A request to
    a path with no servlet is answered 404 with the default page. *)
Theorem dispatch_exact fnmatch user cs req rsp :
  let d := after_calls cs in
  getMatchedServlet fnmatch (m_path req) d =
    match last_exact (m_path req) cs with
    | Some c => creator_get c
    | None => match find_glob (λ u, fnmatch (c_str u) (c_str (m_path req))) (reverse (standing [] cs)) with
              | Some c => creator_get c
              | None => Held (last_default cs)
              end
    end ∧
  (getMatchedServlet fnmatch (m_path req) d = Held (NotFoundServlet (bytes_of_string "helens/1.0")) →
   (handle fnmatch user d req rsp).1 = 0 ∧ rsp_status (handle fnmatch user d req rsp).2 = 404 ∧
   rsp_body (handle fnmatch user d req rsp).2 = not_found_page (bytes_of_string "helens/1.0")).
Proof.
  intros d. destruct (after_calls_ok cs) as (Hd & Hg & Hf). fold d in Hd, Hg, Hf. split.
  - unfold getMatchedServlet. by rewrite Hd, Hg, Hf.
  - intros E. unfold handle. rewrite E. by split_and!.
Qed.

(** ** A run *)
(** A pattern here ends in a star. *)
Definition star (p s : list Z) : bool :=
  match last p with
  | Some 42 => bytes_eqb (take (length p - 1) s) (take (length p - 1) p)
  | _ => bytes_eqb p s
  end.
Definition sample_calls : list call :=
  [DelServlet (str "/b"); AddGlob (str "/a*") (ServletCreator 3); AddGlob (str "/*") (HoldServletCreator (UserServlet 2));
   AddGlob (str "/a*") (ServletCreator 9); AddServlet (str "/b") (HoldServletCreator (UserServlet 1))].
Lemma dispatch_exact_witness :
  getMatchedServlet star (str "/ab") (after_calls sample_calls) = Held (UserServlet 2) ∧
  getMatchedServlet star (str "/b") (after_calls sample_calls) = Held (UserServlet 2).
Proof.
  split.
  - exact (proj1 (dispatch_exact star (λ _ _ r, r) sample_calls (mkHttpRequest GET 17 true false 0 (str "/ab") [] [] [] [] [] []) (new_HttpResponse 17 true))).
  - exact (proj1 (dispatch_exact star (λ _ _ r, r) sample_calls (mkHttpRequest GET 17 true false 0 (str "/b") [] [] [] [] [] []) (new_HttpResponse 17 true))).
Defined.
