(* ===== verification/FdManager.v ===== *)
(** * Descriptors under the hook (fd_manager.cc, fd_manager.h)

    What the library remembers of a socket: whether the user asked for
    non-blocking mode, and the time-outs.  Contexts are shared objects;
    the manager is a vector of pointers to them.  The descriptors themselves
    belong to the kernel, whose calls are a type class. *)
From S2P Require Import Prelude.

(** ** The kernel's descriptors *)
Definition O_NONBLOCK : Z := 2048.
(** Whether a word of flags has [O_NONBLOCK]. *)
Definition nonblock (flags : Z) : bool := negb (Z.land flags O_NONBLOCK =? 0).

(** [is_sock]: [fstat] and [S_ISSOCK], [None] when the call fails;
    [get_flags] and [set_flags]: the kernel's [fcntl] with [F_GETFL], [F_SETFL];
    [shares]: whether two descriptors refer to one open file description, as
    after a [dup], and so have their status flags in common. *)
Class Descriptors (D : Type) := {
  is_sock : Z → D → option bool;
  shares : Z → Z → D → bool;
  get_flags : Z → D → Z;
  set_flags : Z → Z → D → Z * D }.
(** No other descriptor refers to [fd]'s open file description. *)
Definition alone {D} `{Descriptors D} (fd : Z) (d : D) : Prop := ∀ fd', fd' ≠ fd → shares fd' fd d = false.
(** Setting the flags of an open socket succeeds and sets them for the
    descriptors that share its open file description and no other. *)
Class DescriptorLaws (D : Type) `{Descriptors D} := {
  set_flags_sock fd a fd' d : is_sock fd' (set_flags fd a d).2 = is_sock fd' d;
  set_flags_shares fd a fd1 fd2 d : shares fd1 fd2 (set_flags fd a d).2 = shares fd1 fd2 d;
  set_flags_ok fd a d : is_sock fd d = Some true → (set_flags fd a d).1 = 0;
  set_flags_same fd a d : (set_flags fd a d).1 = 0 → nonblock (get_flags fd (set_flags fd a d).2) = nonblock a;
  set_flags_other fd a fd' d : shares fd fd' d = false → fd ≠ fd' →
    get_flags fd' (set_flags fd a d).2 = get_flags fd' d }.

(** ** FdCtx *)
Record FdCtx := mkFd {
  m_isInit : bool;
  m_isSocket : bool;
  m_sysNonblock : bool;
  m_userNonblock : bool;
  m_isClosed : bool;
  m_fd : Z;
  m_recvTimeout : Z;
  m_sendTimeout : Z }.
Definition NO_TIMEOUT : Z := 2 ^ 64 - 1.

Definition setUserNonblock (v : bool) (c : FdCtx) : FdCtx :=
  mkFd (m_isInit c) (m_isSocket c) (m_sysNonblock c) v (m_isClosed c) (m_fd c) (m_recvTimeout c) (m_sendTimeout c).
(** The option's number. *)
Definition SO_RCVTIMEO : Z := 20.
Definition SO_SNDTIMEO : Z := 21.
Definition setTimeout (type v : Z) (c : FdCtx) : FdCtx :=
  if type =? SO_RCVTIMEO
  then mkFd (m_isInit c) (m_isSocket c) (m_sysNonblock c) (m_userNonblock c) (m_isClosed c) (m_fd c) (u64 v) (m_sendTimeout c)
  else mkFd (m_isInit c) (m_isSocket c) (m_sysNonblock c) (m_userNonblock c) (m_isClosed c) (m_fd c) (m_recvTimeout c) (u64 v).
Definition getTimeout (type : Z) (c : FdCtx) : Z :=
  if type =? SO_RCVTIMEO then m_recvTimeout c else m_sendTimeout c.

Section manager.
Context {D : Type} `{Descriptors D}.

(** The constructor, [init] included. *)
Definition new_FdCtx (fd : Z) (d : D) : FdCtx * D :=
  let '(isInit, isSocket) := match is_sock fd d with None => (false, false) | Some s => (true, s) end in
  if isSocket : bool then
    let flags := get_flags fd d in
    let d := if negb (nonblock flags) then (set_flags fd (Z.lor flags O_NONBLOCK) d).2 else d in
    (mkFd isInit isSocket true false false fd NO_TIMEOUT NO_TIMEOUT, d)
  else (mkFd isInit isSocket false false false fd NO_TIMEOUT NO_TIMEOUT, d).

(** ** FdManager *)
(** [fm_objs]: the contexts by address; [m_datas]: the vector; [fm_sys]: the kernel. *)
Record FdManager := mkFM { fm_objs : list FdCtx; m_datas : list (option nat); fm_sys : D }.
Definition new_FdManager (d : D) : FdManager := mkFM [] (replicate 64 None) d.
Definition with_obj (a : nat) (f : FdCtx → FdCtx) (m : FdManager) : FdManager :=
  mkFM (alter f a (fm_objs m)) (m_datas m) (fm_sys m).
Definition with_datas (l : list (option nat)) (m : FdManager) : FdManager := mkFM (fm_objs m) l (fm_sys m).
Definition with_sys (d : D) (m : FdManager) : FdManager := mkFM (fm_objs m) (m_datas m) d.

Definition datas_size (m : FdManager) : Z := i32 (Z.of_nat (length (m_datas m))).
(** [m_datas[fd]] *)
Definition datas_at (fd : Z) (m : FdManager) : outcome (option nat) :=
  if fd <? 0 then Undef OutOfBounds else of_option OutOfBounds (m_datas m !! Z.to_nat fd).
(** [m_datas.resize(n)] *)
Definition datas_resize (n : Z) (m : FdManager) : FdManager := with_datas (resize (Z.to_nat n) None (m_datas m)) m.

(** [get] under the read lock: [inl r] returns [r], [inr tt] goes on. *)
Definition get_find (fd : Z) (auto_create : bool) : M FdManager (option nat + unit) :=
  let! m := getst in
  if datas_size m <=? fd then ret (if negb auto_create then inl None else inr tt) else
  let! p := lift (datas_at fd m) in
  ret (if bool_decide (is_Some p) || negb auto_create then inl p else inr tt).
(** [get] under the write lock. *)
Definition get_create (fd : Z) : M FdManager (option nat) :=
  let! m := getst in
  let (c, d) := new_FdCtx fd (fm_sys m) in
  let a := length (fm_objs m) in
  putst (mkFM (fm_objs m ++ [c]) (m_datas m) d) ;;!
  modst (λ m, if datas_size m <=? fd then datas_resize (fd * 3 / 2) m else m) ;;!
  let! m := getst in
  lift (datas_at fd m) ;;!
  putst (with_datas (<[Z.to_nat fd := Some a]> (m_datas m)) m) ;;! ret (Some a).
Definition get (fd : Z) (auto_create : bool) : M FdManager (option nat) :=
  if fd =? -1 then ret None else
  let! r := get_find fd auto_create in
  match r with inl p => ret p | inr _ => get_create fd end.

Definition del (fd : Z) : M FdManager unit :=
  let! m := getst in
  if datas_size m <=? fd then ret tt else
  lift (datas_at fd m) ;;! putst (with_datas (<[Z.to_nat fd := None]> (m_datas m)) m).

(** ** The manager as a partial map *)
(** The context [get(fd)] finds. *)
Definition managed (m : FdManager) (fd : Z) : option nat :=
  if fd <? 0 then None else mjoin (m_datas m !! Z.to_nat fd).
Record fds_ok (m : FdManager) : Prop := {
  fo_size : (64 ≤ length (m_datas m))%nat ∧ Z.of_nat (length (m_datas m)) < 2 ^ 31;
  fo_objs fd a : managed m fd = Some a → is_Some (fm_objs m !! a) }.

Lemma new_FdManager_ok d : fds_ok (new_FdManager d).
Proof.
  split; [cbn; lia|]. intros fd a. unfold managed, new_FdManager. destruct (fd <? 0); [done|]. cbn [m_datas].
  destruct (replicate 64 None !! Z.to_nat fd) as [p|] eqn:E; [|done].
  apply lookup_replicate in E as [-> _]. done.
Qed.

Lemma datas_size_eq m : fds_ok m → datas_size m = Z.of_nat (length (m_datas m)).
Proof. intros Hm. unfold datas_size. apply i32_small. pose proof (fo_size m Hm). lia. Qed.

Lemma managed_out m fd : Z.of_nat (length (m_datas m)) ≤ fd → managed m fd = None.
Proof.
  intros Hfd. unfold managed. destruct (fd <? 0); [done|]. by rewrite lookup_ge_None_2 by lia.
Qed.
Lemma datas_at_ok m fd : 0 ≤ fd < Z.of_nat (length (m_datas m)) → datas_at fd m = Ok (managed m fd).
Proof.
  intros Hfd. unfold datas_at, managed. rewrite (proj2 (Z.ltb_ge fd 0)) by lia.
  destruct (lookup_lt_is_Some_2 (m_datas m) (Z.to_nat fd)) as [p ->]; [lia|]. done.
Qed.
Lemma datas_at_neg m fd : fd < 0 → datas_at fd m = Undef OutOfBounds.
Proof. intros. unfold datas_at. by rewrite (proj2 (Z.ltb_lt fd 0)). Qed.

Lemma managed_insert m objs d fd p fd' : 0 ≤ fd < Z.of_nat (length (m_datas m)) →
  managed (mkFM objs (<[Z.to_nat fd := p]> (m_datas m)) d) fd' = if decide (fd' = fd) then p else managed m fd'.
Proof.
  intros Hfd. unfold managed. cbn. destruct (decide (fd' = fd)) as [->|Hne].
  - rewrite (proj2 (Z.ltb_ge fd 0)) by lia. by rewrite list_lookup_insert_eq by lia.
  - destruct (Z.ltb_spec fd' 0); [done|]. by rewrite list_lookup_insert_ne by lia.
Qed.

(** The vector after the [resize] of [get], long enough for [fd]. *)
Definition enlarged (fd : Z) (m : FdManager) : FdManager :=
  if datas_size m <=? fd then datas_resize (fd * 3 / 2) m else m.
Lemma enlarged_ok m fd : fds_ok m → 0 ≤ fd < 2 ^ 30 →
  fds_ok (enlarged fd m) ∧ fd < Z.of_nat (length (m_datas (enlarged fd m))) ∧
  (∀ fd', managed (enlarged fd m) fd' = managed m fd') ∧
  fm_objs (enlarged fd m) = fm_objs m ∧ fm_sys (enlarged fd m) = fm_sys m.
Proof.
  intros Hm Hfd. unfold enlarged. rewrite datas_size_eq by done. pose proof (fo_size m Hm) as [Hlo Hhi].
  destruct (Z.leb_spec (Z.of_nat (length (m_datas m))) fd) as [Hout|Hin]; [|done].
  assert (fd + 1 ≤ fd * 3 / 2) as Hg by (apply Z.div_le_lower_bound; lia).
  assert (fd * 3 / 2 < 2 ^ 31) as Hg' by (apply Z.div_lt_upper_bound; lia).
  assert (∀ fd', managed (datas_resize (fd * 3 / 2) m) fd' = managed m fd') as Em.
  { intros fd'. unfold managed, datas_resize. cbn. destruct (Z.ltb_spec fd' 0); [done|].
    destruct (decide (Z.to_nat fd' < length (m_datas m))%nat).
    - by rewrite lookup_resize by lia.
    - rewrite (lookup_ge_None_2 (m_datas m)) by lia.
      destruct (decide (Z.to_nat fd' < Z.to_nat (fd * 3 / 2))%nat).
      + by rewrite lookup_resize_new by lia.
      + by rewrite lookup_resize_old by lia. }
  assert (length (m_datas (datas_resize (fd * 3 / 2) m)) = Z.to_nat (fd * 3 / 2)) as El by (cbn; apply length_resize).
  split_and!; [split; rewrite ?El; [lia|]|rewrite El; lia|done..].
  intros fd' a. rewrite Em. apply (fo_objs m Hm).
Qed.

(** What [get] answers and leaves. *)
Definition get_spec (fd : Z) (auto_create : bool) (m m' : FdManager) (r : option nat) : Prop :=
  r = (if decide (fd = -1) then None else
       match managed m fd with Some a => Some a | None => if auto_create then Some (length (fm_objs m)) else None end) ∧
  (∀ fd', managed m' fd' = if decide (fd' = fd) then r else managed m fd') ∧
  (fm_objs m', fm_sys m') =
    (if bool_decide (r = managed m fd) then (fm_objs m, fm_sys m)
     else (fm_objs m ++ [(new_FdCtx fd (fm_sys m)).1], (new_FdCtx fd (fm_sys m)).2)).

Lemma managed_fresh m fd : fds_ok m → managed m fd ≠ Some (length (fm_objs m)).
Proof. intros Hm E. apply (fo_objs m Hm) in E as [c E]. apply lookup_lt_Some in E. lia. Qed.

Lemma get_create_ok m fd : fds_ok m → 0 ≤ fd < 2 ^ 30 →
  ∃ m', get_create fd m = (Ok (Some (length (fm_objs m))), m') ∧ fds_ok m' ∧
  (∀ fd', managed m' fd' = if decide (fd' = fd) then Some (length (fm_objs m)) else managed m fd') ∧
  fm_objs m' = fm_objs m ++ [(new_FdCtx fd (fm_sys m)).1] ∧ fm_sys m' = (new_FdCtx fd (fm_sys m)).2.
Proof.
  intros Hm Hfd. unfold get_create, bind, getst, putst, modst, lift, ret.
  destruct (new_FdCtx fd (fm_sys m)) as [c d]. cbn [fst snd].
  set (m1 := mkFM (fm_objs m ++ [c]) (m_datas m) d).
  assert (fds_ok m1) as H1.
  { split; [apply Hm|]. intros fd' a E. apply (fo_objs m Hm) in E as [c' E]. exists c'. cbn. by apply lookup_app_l_Some. }
  destruct (enlarged_ok m1 fd H1 Hfd) as (H2 & Hlt & Em & Eo & Es). fold (enlarged fd m1).
  rewrite datas_at_ok by lia.
  eexists. split; [done|].
  assert (∀ fd', managed (with_datas (<[Z.to_nat fd := Some (length (fm_objs m))]> (m_datas (enlarged fd m1))) (enlarged fd m1)) fd' =
    if decide (fd' = fd) then Some (length (fm_objs m)) else managed m fd') as Hg.
  { intros fd'. unfold with_datas. rewrite managed_insert by lia. by rewrite Em. }
  split_and!; [|exact Hg|exact Eo|exact Es].
  split; [cbn; rewrite length_insert; apply H2|]. intros fd' a. rewrite Hg. cbn. rewrite Eo. cbn.
  destruct (decide (fd' = fd)) as [->|].
  - intros [= <-]. by rewrite lookup_app_r, Nat.sub_diag by lia.
  - intros E. apply (fo_objs m1 H1 fd' a E).
Qed.

Lemma get_find_ok m fd auto_create : fds_ok m → 0 ≤ fd →
  get_find fd auto_create m = (Ok (match managed m fd with
    | Some a => inl (Some a) | None => if auto_create then inr tt else inl None end), m).
Proof.
  intros Hm Hfd. unfold get_find, bind, getst, lift, ret. rewrite datas_size_eq by done.
  destruct (Z.leb_spec (Z.of_nat (length (m_datas m))) fd).
  - rewrite managed_out by done. by destruct auto_create.
  - rewrite datas_at_ok by lia. destruct (managed m fd); [done|]. by destruct auto_create.
Qed.
Lemma get_false_ok m fd : fds_ok m → -1 ≤ fd → get fd false m = (Ok (managed m fd), m).
Proof.
  intros Hm Hfd. unfold get. destruct (Z.eqb_spec fd (-1)) as [->|Hne]; [done|].
  unfold bind. rewrite get_find_ok by (done || lia). by destruct (managed m fd).
Qed.

Lemma get_ok m fd auto_create : fds_ok m → -1 ≤ fd < 2 ^ 30 →
  ∃ r m', get fd auto_create m = (Ok r, m') ∧ fds_ok m' ∧ get_spec fd auto_create m m' r.
Proof.
  intros Hm Hfd. unfold get, get_spec. destruct (Z.eqb_spec fd (-1)) as [->|Hne].
  { exists None, m. split_and!; try done. intros fd'. by destruct (decide (fd' = -1)) as [->|]. }
  rewrite (decide_False (P := fd = -1)) by done.
  assert (0 ≤ fd < 2 ^ 30) as Hfd' by lia. unfold bind at 1.
  rewrite get_find_ok by (done || lia).
  destruct (managed m fd) as [a|] eqn:Ea; [|destruct auto_create].
  - exists (Some a), m. split_and!; try done; [|by rewrite bool_decide_true].
    intros fd'. by destruct (decide (fd' = fd)) as [->|].
  - destruct (get_create_ok m fd Hm Hfd') as (m' & E & Hm' & Hg & Eo & Es).
    exists (Some (length (fm_objs m))), m'. split_and!; try done. by rewrite bool_decide_false, Eo, Es.
  - exists None, m. split_and!; try done. intros fd'. by destruct (decide (fd' = fd)) as [->|].
Qed.

Lemma del_ok m fd : fds_ok m → 0 ≤ fd →
  ∃ m', del fd m = (Ok tt, m') ∧ fds_ok m' ∧
  (∀ fd', managed m' fd' = if decide (fd' = fd) then None else managed m fd') ∧
  fm_objs m' = fm_objs m ∧ fm_sys m' = fm_sys m.
Proof.
  intros Hm Hfd. unfold del, bind, getst, lift, ret, putst. rewrite datas_size_eq by done.
  destruct (Z.leb_spec (Z.of_nat (length (m_datas m))) fd) as [Hout|Hin].
  - exists m. split_and!; try done. intros fd'. destruct (decide (fd' = fd)) as [->|]; [by apply managed_out|done].
  - rewrite datas_at_ok by lia. eexists. split; [done|].
    assert (∀ fd', managed (with_datas (<[Z.to_nat fd := None]> (m_datas m)) m) fd' =
      if decide (fd' = fd) then None else managed m fd') as Hg by (intros; by apply managed_insert).
    split_and!; try done. split; [cbn; rewrite length_insert; apply Hm|].
    intros fd' a. rewrite Hg. destruct (decide _); [done|]. apply (fo_objs m Hm).
Qed.

(** Changing a context in place. *)
Lemma with_obj_ok m a f : fds_ok m → fds_ok (with_obj a f m).
Proof. intros Hm. split; [apply Hm|]. intros fd b E. cbn. apply (fo_objs m Hm) in E. destruct (decide (a = b)) as [->|]; [rewrite list_lookup_alter_eq; by apply fmap_is_Some|by rewrite list_lookup_alter_ne]. Qed.

End manager.
Arguments FdManager : clear implicits.
