(* ===== verification/Hook.v ===== *)
(** * Hooked system calls (hook.cc, hook.h)

    The library replaces the system calls that would block a thread: a call that
    would block registers its descriptor with the I/O manager, arms a timer and
    suspends the fiber.  A call is a frame with a program counter; the code
    between two points where another thread can interfere is one operation. *)
From S2P Require Import Prelude Fiber Scheduler IOManager FdManager.
From S2P Require Timer.

(** ** Constants *)
Definition EINTR : Z := 4.
Definition EBADF : Z := 9.
Definition EAGAIN : Z := 11.
Definition ETIMEDOUT : Z := 110.
Definition EINPROGRESS : Z := 115.
Definition SOL_SOCKET : Z := 1.
Definition FIONBIO : Z := 21537.
Definition F_GETFL : Z := 3.
Definition F_SETFL : Z := 4.
Definition F_DUPFD : Z := 0.
Definition F_DUPFD_CLOEXEC : Z := 1030.

(** The commands [fcntl] passes with an argument: [F_DUPFD], [F_DUPFD_CLOEXEC],
    [F_SETFD], [F_SETOWN], [F_SETSIG], [F_SETLEASE], [F_NOTIFY], [F_SETPIPE_SZ];
    [F_SETLK], [F_SETLKW], [F_GETLK]; [F_GETOWN_EX], [F_SETOWN_EX]. *)
Definition fcntl_with_arg : list Z := [F_DUPFD; F_DUPFD_CLOEXEC; 2; 8; 10; 1024; 1026; 1031; 6; 7; 5; 16; 15].

(** ** The kernel's calls on descriptors *)
Class SocketCalls (D : Type) `{Descriptors D} := {
  sys_socket : Z * Z * Z → D → Z * D;
  sys_close : Z → D → Z * D;
  sys_ioctl : Z → Z → Z → D → Z * D;
  sys_fcntl : Z → Z → option Z → D → Z * D;
  sys_setsockopt : Z → Z → Z → Z * Z → D → Z * D }.

(** ** State *)
(** [timer_info]s by identity, [None] once destroyed; the closures given to
    timers, by the identity the timer manager knows them under: the time-out of
    a call on [fd] for [event], or the wake-up of a sleeping fiber. *)
Inductive closure := Timeout (info : nat) (fd event : Z) | Wake (f : nat).
Record call := mkCall { c_fd : Z; c_event : Z; c_to : Z; c_info : nat; c_connect : bool }.

Section hook.
Context {K D : Type} `{Epoll K} `{SocketCalls D}.

Record World := mkWorld {
  w_io : IOManager K;
  w_fds : FdManager D;
  w_infos : list (option Z);
  w_closures : list closure }.
Definition set_io io (w : World) : World := mkWorld io (w_fds w) (w_infos w) (w_closures w).
Definition set_fds fds (w : World) : World := mkWorld (w_io w) fds (w_infos w) (w_closures w).
Definition set_infos l (w : World) : World := mkWorld (w_io w) (w_fds w) l (w_closures w).
Definition set_closures l (w : World) : World := mkWorld (w_io w) (w_fds w) (w_infos w) l.
Definition on_io {A} (m : M (IOManager K) A) : M World A := λ w, let (r, io) := m (w_io w) in (r, set_io io w).
Definition on_fds {A} (m : M (FdManager D) A) : M World A := λ w, let (r, fds) := m (w_fds w) in (r, set_fds fds w).

(** The context at an address, and a change of it. *)
Definition fd_ctx (a : nat) : M (FdManager D) FdCtx := let! m := getst in lift (of_option NullDeref (fm_objs m !! a)).
Definition sys {A} (f : D → A * D) : M (FdManager D) A :=
  let! m := getst in let (r, d) := f (fm_sys m) in putst (with_sys d m) ;;! ret r.

(** ** Descriptor calls *)
Definition socket (hook : bool) (args : Z * Z * Z) : M (FdManager D) Z :=
  if negb hook then sys (sys_socket args) else
  let! fd := sys (sys_socket args) in
  if fd =? -1 then ret fd else get fd true ;;! ret fd.

(** The end of [accept], where [fd] is what [do_io] returned. *)
Definition accept_end (fd : Z) : M (FdManager D) Z :=
  (if 0 <=? fd then get fd true ;;! ret tt else ret tt) ;;! ret fd.

(** [this]: whether the thread has an I/O manager. *)
Definition close (hook this : bool) (fd : Z) : M World Z :=
  if negb hook then on_fds (sys (sys_close fd)) else
  let! p := on_fds (get fd false) in
  (if bool_decide (is_Some p) then
     (if this then on_io (cancelAll fd) ;;! ret tt else ret tt) ;;! on_fds (del fd)
   else ret tt) ;;!
  on_fds (sys (sys_close fd)).

(** The context, unless the call is to bypass it. *)
Definition find_socket (fd : Z) : M (FdManager D) (option (nat * FdCtx)) :=
  let! p := get fd false in
  match p with
  | None => ret None
  | Some a =>
    let! c := fd_ctx a in
    ret (if m_isClosed c || negb (m_isSocket c) then None else Some (a, c))
  end.

Definition fcntl (fd cmd arg : Z) : M (FdManager D) Z :=
  if cmd =? F_SETFL then
    let! p := find_socket fd in
    match p with
    | None => sys (set_flags fd arg)
    | Some (a, c) =>
      modst (with_obj a (setUserNonblock (nonblock arg))) ;;!
      sys (set_flags fd (if m_sysNonblock c then Z.lor arg O_NONBLOCK else Z.land arg (Z.lnot O_NONBLOCK)))
    end
  else if cmd =? F_GETFL then
    let! m := getst in
    let arg := get_flags fd (fm_sys m) in
    let! p := find_socket fd in
    match p with
    | None => ret arg
    | Some (_, c) => ret (if m_userNonblock c then Z.lor arg O_NONBLOCK else Z.land arg (Z.lnot O_NONBLOCK))
    end
  else sys (sys_fcntl fd cmd (if bool_decide (cmd ∈ fcntl_with_arg) then Some arg else None)).

(** [arg]: the int the pointer argument points to. *)
Definition ioctl (d request arg : Z) : M (FdManager D) Z :=
  (if request =? FIONBIO then
     let! p := find_socket d in
     match p with None => ret tt | Some (a, _) => modst (with_obj a (setUserNonblock (negb (arg =? 0)))) end
   else ret tt) ;;!
  sys (sys_ioctl d request arg).

(** [tv]: the [timeval] the pointer argument points to. *)
Definition timeval_ms (tv : Z * Z) : Z := tv.1 * 1000 + Z.quot (tv.2) 1000.
Definition setsockopt (hook : bool) (fd level optname : Z) (tv : Z * Z) : M (FdManager D) Z :=
  if negb hook then sys (sys_setsockopt fd level optname tv) else
  (if (level =? SOL_SOCKET) && ((optname =? SO_RCVTIMEO) || (optname =? SO_SNDTIMEO)) then
     let! p := get fd false in
     match p with None => ret tt | Some a => modst (with_obj a (setTimeout optname (timeval_ms tv))) end
   else ret tt) ;;!
  sys (sys_setsockopt fd level optname tv).

(** ** Timers and time-outs *)
(** [std::make_shared<timer_info>]: the new object's identity. *)
Definition new_info : M World nat :=
  let! w := getst in putst (set_infos (w_infos w ++ [Some 0]) w) ;;! ret (length (w_infos w)).
Definition alive (w : World) (i : nat) : bool := match w_infos w !! i with Some (Some _) => true | _ => false end.
(** The last reference to the object goes. *)
Definition drop_info (i : nat) : M World unit := modst (λ w, set_infos (<[i:=None]> (w_infos w)) w).
Definition new_closure (cl : closure) : M World Z :=
  let! w := getst in putst (set_closures (w_closures w ++ [cl]) w) ;;! ret (Z.of_nat (length (w_closures w))).
Definition timers_do {A} (f : Timer.TimerManager → A * Timer.TimerManager) : M World A :=
  let! w := getst in
  let (r, m) := f (io_timers (w_io w)) in putst (set_io (with_timers m (w_io w)) w) ;;! ret r.

(** [if(timer) timer->cancel()] *)
Definition cancel_timer (timer : option nat) : M World unit :=
  match timer with
  | None => ret tt
  | Some a => let! r := timers_do (Timer.cancel a) in lift r ;;! ret tt
  end.

(** The closure of a time-out, up to the descriptor and event it is to cancel;
    [cancelEvent] follows on its own. *)
Definition time_out (i : nat) (fd ev : Z) : M World (option (Z * Z)) :=
  let! w := getst in
  match w_infos w !! i with
  | Some (Some 0) => putst (set_infos (<[i:=Some ETIMEDOUT]> (w_infos w)) w) ;;! ret (Some (fd, ev))
  | _ => ret None
  end.
(** The task of an expired timer; a time-out's is wrapped in [OnTimer]. *)
Definition run_closure (id : nat) : M World (option (Z * Z)) :=
  let! w := getst in
  match w_closures w !! id with
  | None => undef NullDeref
  | Some (Timeout i fd ev) =>
    match Timer.OnTimer (alive w) (Timer.mkCallback (Z.of_nat id) (Some i)) with
    | None => ret None
    | Some _ => time_out i fd ev
    end
  | Some (Wake f) => on_io (modst (λ io, with_sched (schedule (fiber_task f (-1)) (io_sched io)) io)) ;;! ret None
  end.

(** ** A call that may suspend its fiber *)
(** The program counter of a call's frame: about to make the system call, to
    arm the timer, to add the event; suspended; about to ask for the socket's
    error ([connect] only). *)
Inductive point := Attempt | Arm | Add (timer : option nat) | Parked (timer : option nat) | AskError.
(** How an operation ends: the call returns [n], with [errno] if the code set it or
    the system call did; or it goes on. *)
Inductive next := Return (n : Z) (errno : option Z) | Go (p : point).
(** How a call begins: with the original function, with an error, or hooked. *)
Inductive entry := Original | Fails (errno : Z) | Enter (c : call).

Definition begin_call (fd ev to : Z) (connect : bool) : M World entry :=
  let! i := new_info in ret (Enter (mkCall fd ev to i connect)).

(** [do_io] up to the label; [so]: [timeout_so]. *)
Definition do_io (hook : bool) (fd ev so : Z) : M World entry :=
  if negb hook then ret Original else
  let! p := on_fds (get fd false) in
  match p with
  | None => ret Original
  | Some a =>
    let! c := on_fds (fd_ctx a) in
    if m_isClosed c then ret (Fails EBADF)
    else if negb (m_isSocket c) || m_userNonblock c then ret Original
    else begin_call fd ev (getTimeout so c) false
  end.
Definition connect_with_timeout (hook : bool) (fd timeout_ms : Z) : M World entry :=
  if negb hook then ret Original else
  let! p := on_fds (get fd false) in
  match p with
  | None => ret (Fails EBADF)
  | Some a =>
    let! c := on_fds (fd_ctx a) in
    if m_isClosed c then ret (Fails EBADF)
    else if negb (m_isSocket c) then ret Original
    else if m_userNonblock c then ret Original
    else begin_call fd WRITE timeout_ms true
  end.

(** The answers of the system call, [n] and [errno], until it is not interrupted. *)
Fixpoint uninterrupted (answers : list (Z * Z)) : option (Z * Z) :=
  match answers with
  | [] => None
  | (n, e) :: answers => if (n =? -1) && (e =? EINTR) then uninterrupted answers else Some (n, e)
  end.
Definition attempt (c : call) (n e : Z) : next :=
  if c_connect c
  then (if n =? 0 then Return 0 None
        else if negb (n =? -1) || negb (e =? EINPROGRESS) then Return n (Some e) else Go Arm)
  else (if (n =? -1) && (e =? EAGAIN) then Go Arm else Return n (Some e)).

(** [a] is the address of the new timer. *)
Definition arm (this : bool) (now : Z) (a : nat) (c : call) : M World next :=
  if c_to c =? NO_TIMEOUT then ret (Go (Add None)) else
  if negb this then undef NullDeref else
  let! id := new_closure (Timeout (c_info c) (c_fd c) (c_event c)) in
  timers_do (Timer.addConditionTimer now a (c_to c) id (c_info c) false) ;;!
  ret (Go (Add (Some a))).

(** [addEvent] by fiber [f], and [YieldToHold] if it succeeds. *)
Definition add_event (this : bool) (f : nat) (timer : option nat) (c : call) : M World next :=
  if negb this then undef NullDeref else
  let! rt := on_io (addEvent (c_fd c) (c_event c) this None (f, EXEC)) in
  if rt =? 0 then ret (Go (Parked timer)) else
  cancel_timer timer ;;! ret (if c_connect c then Go AskError else Return (-1) None).

(** After [YieldToHold]. *)
Definition wake (timer : option nat) (c : call) : M World next :=
  cancel_timer timer ;;!
  let! w := getst in
  match w_infos w !! c_info c with
  | Some (Some cancelled) =>
    ret (if negb (cancelled =? 0) then Return (-1) (Some cancelled) else Go (if c_connect c then AskError else Attempt))
  | _ => undef NullDeref
  end.

(** [getsockopt(SO_ERROR)]: its answer and the error it stored. *)
Definition ask_error (rt error : Z) : next :=
  if rt =? -1 then Return (-1) None else if error =? 0 then Return 0 None else Return (-1) (Some error).

(** What the outside answers at a point: the system call's answers, the new
    timer's address, [getsockopt]'s. *)
Record input := mkInput { in_answers : list (Z * Z); in_timer : nat; in_error : Z * Z }.
(** The code of a call from one point to the next. *)
Definition advance (this : bool) (now : Z) (f : nat) (c : call) (p : point) (i : input) : M World next :=
  match p with
  | Attempt =>
    match (if c_connect c then head (in_answers i) else uninterrupted (in_answers i)) with
    | None => fun w => (Fuel, w)
    | Some (n, e) => ret (attempt c n e)
    end
  | Arm => arm this now (in_timer i) c
  | Add timer => add_event this f timer c
  | Parked timer => wake timer c
  | AskError => ret (ask_error (in_error i).1 (in_error i).2)
  end.

(** The same, and the frame's object destroyed when the call returns. *)
Definition step_call (this : bool) (now : Z) (f : nat) (c : call) (p : point) (i : input) : M World next :=
  let! r := advance this now f c p i in
  match r with Return _ _ => drop_info (c_info c) ;;! ret r | Go _ => ret r end.

(** ** Sleeping *)
(** The milliseconds of [sleep], [usleep] and [nanosleep]. *)
Definition sleep_ms (seconds : Z) : Z := u32 (seconds * 1000).
Definition usleep_ms (usec : Z) : Z := Z.quot usec 1000.
Definition nanosleep_ms (sec nsec : Z) : Z := u64 (i32 (sec * 1000 + Z.quot (Z.quot nsec 1000) 1000)).
(** The common part: fiber [f] is to be scheduled after [ms]. *)
Definition sleep_for (this : bool) (now : Z) (a : nat) (ms : Z) (f : nat) : M World unit :=
  if negb this then undef NullDeref else
  let! id := new_closure (Wake f) in
  timers_do (Timer.addTimer now a ms (Timer.mkCallback id None) false) ;;! ret tt.
End hook.
Arguments World : clear implicits.
