(* ===== verification/HookFd.v ===== *)
(** * The hooked descriptor calls

    The library puts every socket it knows into non-blocking mode and lets the
    user see the mode the user asked for.  The first is an invariant of all the
    hooked calls, the second what [fcntl] answers. *)
From S2P Require Import Prelude IOManager IOManagerSpec IOManagerThms FdManager Hook.

(** ** What the kernel's calls do *)
Section laws.
Context {D : Type} `{SocketCalls D}.
(** The descriptors [P] are as before: what they refer to, and, for one that no
    other shares, that and its mode. *)
Definition keeps (P : Z → Prop) (d d' : D) : Prop :=
  ∀ fd, P fd → is_sock fd d' = is_sock fd d ∧
    (alone fd d → alone fd d' ∧ nonblock (get_flags fd d') = nonblock (get_flags fd d)).
Definition is_open (d : D) (fd : Z) : Prop := is_Some (is_sock fd d).
(** A new socket on a descriptor that was free. *)
Definition opens (fd : Z) (d d' : D) : Prop :=
  0 ≤ fd < 2 ^ 30 ∧ is_sock fd d = None ∧ is_sock fd d' = Some true ∧ alone fd d' ∧ keeps (is_open d) d d'.
Definition duplicates (cmd : Z) : Prop := cmd = F_DUPFD ∨ cmd = F_DUPFD_CLOEXEC.
End laws.

(** The documented effects.  A duplicate shares the status flags of the
    descriptor it is made from, and leaves the others alone. *)
Class SocketCallLaws (D : Type) `{SocketCalls D} := {
  socket_effect args d : let (fd, d') := sys_socket args d in (fd = -1 ∧ d' = d) ∨ opens fd d d';
  close_effect fd d : keeps (λ fd', fd' ≠ fd) d (sys_close fd d).2;
  ioctl_effect fd request arg d : request ≠ FIONBIO → keeps (is_open d) d (sys_ioctl fd request arg d).2;
  ioctl_nonblock fd arg d : is_sock fd d = Some true → let (r, d') := sys_ioctl fd FIONBIO arg d in
    is_sock fd d' = Some true ∧ nonblock (get_flags fd d') = negb (arg =? 0) ∧ (alone fd d → alone fd d') ∧
    keeps (λ fd', fd' ≠ fd) d d';
  ioctl_unknown fd arg d : is_sock fd d ≠ Some true → keeps (λ fd', fd' ≠ fd) d (sys_ioctl fd FIONBIO arg d).2;
  fcntl_effect fd cmd arg d : cmd ≠ F_SETFL →
    keeps (λ fd', is_open d fd' ∧ (duplicates cmd → fd' ≠ fd)) d (sys_fcntl fd cmd arg d).2;
  setsockopt_effect fd level name tv d : keeps (is_open d) d (sys_setsockopt fd level name tv d).2 }.

(** ** Flags *)
Lemma nonblock_bit x : nonblock x = Z.testbit x 11.
Proof.
  unfold nonblock, O_NONBLOCK. change 2048 with (2 ^ 11). rewrite Z.eqb_sym.
  destruct (Z.testbit x 11) eqn:E.
  - destruct (Z.eqb_spec 0 (Z.land x (2 ^ 11))) as [E'|]; [|done].
    assert (Z.testbit (Z.land x (2 ^ 11)) 11 = true) as H by (rewrite Z.land_spec, E; done). by rewrite <- E', Z.bits_0 in H.
  - replace (Z.land x (2 ^ 11)) with 0; [done|]. symmetry. apply Z.bits_inj_0. intros i.
    rewrite Z.land_spec, Z.pow2_bits_eqb by done. destruct (Z.eqb_spec 11 i) as [<-|]; by rewrite ?E, ?andb_false_r.
Qed.
Lemma nonblock_lor x : nonblock (Z.lor x O_NONBLOCK) = true.
Proof. rewrite nonblock_bit, Z.lor_spec. apply orb_true_r. Qed.
Lemma nonblock_clear x : nonblock (Z.land x (Z.lnot O_NONBLOCK)) = false.
Proof. rewrite nonblock_bit, Z.land_spec. apply andb_false_r. Qed.

Section fds.
#[local] Set Default Proof Using "All".
Context {D : Type} `{SocketCallLaws D} `{!DescriptorLaws D}.
Implicit Types m : FdManager D.

(** ** The invariant *)
(** The context of a managed socket [fd]. *)
Definition sound_ctx (d : D) (fd : Z) (c : FdCtx) : Prop :=
  m_isInit c = true ∧ m_isSocket c = true ∧ m_sysNonblock c = true ∧ m_isClosed c = false ∧ m_fd c = fd ∧
  0 ≤ fd < 2 ^ 30 ∧ is_sock fd d = Some true ∧ alone fd d ∧ nonblock (get_flags fd d) = true.
Definition managed_ctx m (fd : Z) : option FdCtx := managed m fd ≫= λ a, fm_objs m !! a.
Record sockets_ok m : Prop := {
  so_fds : fds_ok m;
  so_ctx fd c : managed_ctx m fd = Some c → sound_ctx (fm_sys m) fd c }.

Lemma managed_ctx_some m fd a : fds_ok m → managed m fd = Some a → ∃ c, fm_objs m !! a = Some c ∧ managed_ctx m fd = Some c.
Proof.
  intros Hm Ha. destruct (fo_objs m Hm fd a Ha) as [c Hc]. exists c. unfold managed_ctx. by rewrite Ha.
Qed.
Lemma sound_keeps d d' fd c P : keeps P d d' → P fd → sound_ctx d fd c → sound_ctx d' fd c.
Proof.
  intros Hk HP Hs. destruct (Hk fd HP) as [E1 E2]. unfold sound_ctx in *. destruct_and! Hs.
  destruct E2 as [E2 E3]; [done|]. by rewrite E1, E3.
Qed.
Lemma keeps_mono (P Q : Z → Prop) (d d' : D) : (∀ fd, Q fd → P fd) → keeps P d d' → keeps Q d d'.
Proof. intros Hm Hk fd HQ. by apply Hk, Hm. Qed.
(** Setting the flags of one descriptor. *)
Lemma set_flags_keeps fd a (d : D) : keeps (λ fd', fd' ≠ fd) d (set_flags fd a d).2.
Proof.
  intros fd' Hne. rewrite set_flags_sock. split; [done|]. intros Ha. split.
  - intros fd2 H2. rewrite set_flags_shares. by apply Ha.
  - rewrite set_flags_other; [done|by apply Ha, not_eq_sym|by apply not_eq_sym].
Qed.
Lemma set_flags_alone fd a (d : D) : alone fd d → alone fd (set_flags fd a d).2.
Proof. intros Ha fd' Hne. rewrite set_flags_shares. by apply Ha. Qed.
Lemma sound_open d fd c : sound_ctx d fd c → is_open d fd.
Proof. intros (_ & _ & _ & _ & _ & _ & E & _). unfold is_open. by rewrite E. Qed.

(** A kernel call that leaves the managed descriptors alone, or all open ones. *)
Lemma with_sys_managed m d' : sockets_ok m → keeps (λ fd, is_Some (managed_ctx m fd)) (fm_sys m) d' →
  sockets_ok (with_sys d' m).
Proof.
  intros Hm Hk. destruct Hm as [[Hs Ho] Hc]. split; [by split|].
  intros fd c E. specialize (Hc fd c E). eapply sound_keeps; [exact Hk|by eexists|done].
Qed.
Lemma managed_open m fd : sockets_ok m → is_Some (managed_ctx m fd) → is_open (fm_sys m) fd.
Proof. intros Hm [c Hc]. eapply sound_open, so_ctx; done. Qed.
Lemma with_sys_ok m d' : sockets_ok m → keeps (is_open (fm_sys m)) (fm_sys m) d' → sockets_ok (with_sys d' m).
Proof.
  intros Hm Hk. apply with_sys_managed; [done|]. eapply keeps_mono; [|exact Hk]. intros fd. by apply managed_open.
Qed.
(** One that touches the descriptor of no context but [fd]'s, which is still good. *)
Lemma with_sys_at m d' fd : sockets_ok m → keeps (λ fd', fd' ≠ fd) (fm_sys m) d' →
  (∀ c, managed_ctx m fd = Some c → sound_ctx d' fd c) → sockets_ok (with_sys d' m).
Proof.
  intros Hm Hk Hfd. destruct Hm as [[Hs Ho] Hc]. split; [by split|]. intros fd' c E.
  destruct (decide (fd' = fd)) as [->|Hne]; [by apply Hfd|]. eapply sound_keeps; [exact Hk|done|]. by apply Hc.
Qed.

(** Two descriptors never share a context. *)
Lemma managed_inj m fd fd' a : sockets_ok m → managed m fd = Some a → managed m fd' = Some a → fd = fd'.
Proof.
  intros Hm E1 E2. destruct (managed_ctx_some m fd a) as (c & Hc & E); [apply Hm|done|].
  destruct (managed_ctx_some m fd' a) as (c' & Hc' & E'); [apply Hm|done|].
  destruct (so_ctx m Hm fd c E) as (_ & _ & _ & _ & F & _). destruct (so_ctx m Hm fd' c' E') as (_ & _ & _ & _ & F' & _).
  congruence.
Qed.
Lemma with_obj_sound m fd a f : sockets_ok m → managed m fd = Some a →
  (∀ d c, sound_ctx d fd c → sound_ctx d fd (f c)) → sockets_ok (with_obj a f m).
Proof.
  intros Hm Ha Hf. split; [by apply with_obj_ok; apply Hm|]. intros fd' c E. cbn [fm_sys with_obj].
  unfold managed_ctx in E. change (managed (with_obj a f m) fd') with (managed m fd') in E.
  destruct (managed m fd') as [a'|] eqn:Ea'; [|done]. cbn in E. rewrite list_lookup_alter in E.
  destruct (decide (a = a')) as [<-|Hne].
  - assert (fd = fd') as <- by (by eapply managed_inj). apply fmap_Some in E as (c0 & E & ->).
    apply Hf. apply (so_ctx m Hm). unfold managed_ctx. by rewrite Ha.
  - apply (so_ctx m Hm). unfold managed_ctx. by rewrite Ea'.
Qed.

(** ** Managing a new socket *)
Lemma new_FdCtx_ok fd d : 0 ≤ fd < 2 ^ 30 → is_sock fd d = Some true → alone fd d →
  sound_ctx (new_FdCtx fd d).2 fd (new_FdCtx fd d).1 ∧ keeps (λ fd', fd' ≠ fd) d (new_FdCtx fd d).2.
Proof.
  intros Hfd Hs Hal. unfold new_FdCtx. rewrite Hs. destruct (nonblock (get_flags fd d)) eqn:En; cbn [negb fst snd].
  - split; [|done]. unfold sound_ctx. cbn. naive_solver.
  - pose proof (set_flags_ok fd (Z.lor (get_flags fd d) O_NONBLOCK) d Hs) as Hr.
    apply set_flags_same in Hr. rewrite nonblock_lor in Hr. split.
    + unfold sound_ctx. cbn. rewrite set_flags_sock. split_and!; try done; try lia. by apply set_flags_alone.
    + apply set_flags_keeps.
Qed.

Lemma get_new_ok m fd : sockets_ok m → 0 ≤ fd < 2 ^ 30 → is_sock fd (fm_sys m) = Some true → alone fd (fm_sys m) →
  managed m fd = None →
  ∃ p m', get fd true m = (Ok p, m') ∧ sockets_ok m' ∧ is_Some (managed_ctx m' fd).
Proof.
  intros Hm Hfd Hs Hal Hn. destruct (get_ok m fd true) as (r & m' & E & Hm' & Hr & Hg & Ho); [apply Hm|lia|].
  exists r, m'. rewrite decide_False, Hn in Hr by lia. subst r. rewrite Hn, bool_decide_false in Ho by done. injection Ho as Ho Hd.
  destruct (new_FdCtx_ok fd (fm_sys m) Hfd Hs Hal) as [Hc Hk].
  assert (managed_ctx m' fd = Some (new_FdCtx fd (fm_sys m)).1) as Em.
  { unfold managed_ctx. rewrite Hg, decide_True by done. cbn. rewrite Ho. by rewrite lookup_app_r, Nat.sub_diag by lia. }
  split; [done|]. split; [|by rewrite Em]. split; [done|]. intros fd' c Ec. rewrite Hd.
  destruct (decide (fd' = fd)) as [->|Hne]; [congruence|].
  eapply sound_keeps; [exact Hk|done|]. apply (so_ctx m Hm). revert Ec. unfold managed_ctx. rewrite Hg, decide_False by done.
  destruct (managed m fd') as [a|] eqn:Ea; [|done]. cbn. destruct (managed_ctx_some m fd' a) as (c' & Ec' & _); [apply Hm|done|].
  rewrite Ho. by rewrite lookup_app_l by (by eapply lookup_lt_Some).
Qed.

Lemma register_ok m fd d' : sockets_ok m → opens fd (fm_sys m) d' →
  ∃ p m', get fd true (with_sys d' m) = (Ok p, m') ∧ sockets_ok m' ∧ is_Some (managed_ctx m' fd).
Proof.
  intros Hm (Hfd & Hn & Hs & Hal & Hk). apply get_new_ok; [by apply with_sys_ok|done|done|done|].
  change (managed m fd = None). destruct (managed m fd) as [a|] eqn:Ea; [|done].
  destruct (managed_ctx_some m fd a) as (c & _ & Ec); [apply Hm|done|].
  apply (so_ctx m Hm) in Ec as (_ & _ & _ & _ & _ & _ & E & _). congruence.
Qed.

Lemma socket_ok args m : sockets_ok m →
  ∃ fd m', socket true args m = (Ok fd, m') ∧ sockets_ok m' ∧ (fd = -1 ∨ is_Some (managed_ctx m' fd)).
Proof.
  intros Hm. unfold socket, sys, bind, getst, putst, ret. cbn [negb].
  pose proof (socket_effect args (fm_sys m)) as Hs. destruct (sys_socket args (fm_sys m)) as [fd d'].
  destruct Hs as [[-> ->]|Ho].
  - cbn. exists (-1), (with_sys (fm_sys m) m). split_and!; [done| |by left]. by apply with_sys_ok.
  - destruct Ho as [Hfd Ho]. rewrite (proj2 (Z.eqb_neq fd (-1))) by lia.
    destruct (register_ok m fd d' Hm ltac:(done)) as (p & m' & -> & Hm' & He). exists fd, m'. eauto.
Qed.

(** ** The other calls *)
Lemma find_socket_ok m fd : sockets_ok m → -1 ≤ fd < 2 ^ 30 →
  ∃ p m', find_socket fd m = (Ok p, m') ∧ m' = m ∧
  match p with
  | None => managed_ctx m fd = None
  | Some (a, c) => managed m fd = Some a ∧ managed_ctx m fd = Some c
  end.
Proof.
  intros Hm Hfd. unfold find_socket, bind. rewrite get_false_ok by (apply Hm || lia).
  destruct (managed m fd) as [a|] eqn:Ea.
  - destruct (managed_ctx_some m fd a) as (c & Hc & Ec); [apply Hm|done|].
    unfold fd_ctx, bind, getst, lift, ret. rewrite Hc. cbn [of_option].
    destruct (so_ctx m Hm fd c Ec) as (_ & Hk & _ & Hl & _). rewrite Hk, Hl. cbn.
    eexists _, _. split; [done|]. done.
  - eexists _, _. split; [done|]. split; [done|]. unfold managed_ctx. by rewrite Ea.
Qed.

Lemma fcntl_getfl m fd arg : sockets_ok m → -1 ≤ fd < 2 ^ 30 →
  fcntl fd F_GETFL arg m = (Ok (match managed_ctx m fd with
    | None => get_flags fd (fm_sys m)
    | Some c => if m_userNonblock c then Z.lor (get_flags fd (fm_sys m)) O_NONBLOCK
                else Z.land (get_flags fd (fm_sys m)) (Z.lnot O_NONBLOCK) end), m).
Proof.
  intros Hm Hfd. unfold fcntl. cbn [Z.eqb F_GETFL F_SETFL Pos.eqb]. unfold bind, getst.
  destruct (find_socket_ok m fd Hm Hfd) as ([[a c]|] & m' & -> & -> & E); [destruct E as [_ ->]|rewrite E]; done.
Qed.
Lemma sound_set fd d a c : sound_ctx d fd c → nonblock a = true → sound_ctx (set_flags fd a d).2 fd c.
Proof.
  intros Hc Ha. unfold sound_ctx in *. destruct_and! Hc. rewrite set_flags_sock.
  split_and!; try done; [by apply set_flags_alone|].
  rewrite set_flags_same; [done|]. by apply set_flags_ok.
Qed.
Lemma sound_user fd d v c : sound_ctx d fd c → sound_ctx d fd (setUserNonblock v c).
Proof. done. Qed.
Lemma sound_timeout fd d t v c : sound_ctx d fd c → sound_ctx d fd (setTimeout t v c).
Proof. unfold setTimeout. by destruct (_ =? _). Qed.

Lemma managed_ctx_obj m fd a c f : managed m fd = Some a → managed_ctx m fd = Some c →
  managed_ctx (with_obj a f m) fd = Some (f c).
Proof.
  intros Ha Hc. unfold managed_ctx in *. change (managed (with_obj a f m) fd) with (managed m fd). rewrite Ha in *.
  cbn in *. by rewrite list_lookup_alter_eq, Hc.
Qed.

Lemma fcntl_setfl m fd arg c : sockets_ok m → -1 ≤ fd < 2 ^ 30 → managed_ctx m fd = Some c →
  ∃ m', fcntl fd F_SETFL arg m = (Ok 0, m') ∧ sockets_ok m' ∧
    managed_ctx m' fd = Some (setUserNonblock (nonblock arg) c).
Proof.
  intros Hm Hfd Hc. unfold fcntl. cbn [Z.eqb F_SETFL Pos.eqb]. unfold bind at 1.
  destruct (find_socket_ok m fd Hm Hfd) as ([[a c']|] & m' & -> & -> & E); [|congruence].
  destruct E as [Ha Hc']. assert (c' = c) as -> by congruence. clear Hc'.
  destruct (so_ctx m Hm fd c Hc) as (Hi & Hk & Hs & Hcl & Hf & Hr & Hso & _ & Hn). rewrite Hs.
  set (m1 := with_obj a (setUserNonblock (nonblock arg)) m).
  assert (sockets_ok m1) as M1 by (by apply (with_obj_sound m fd)).
  assert (managed_ctx m1 fd = Some (setUserNonblock (nonblock arg) c)) as E1 by (by apply managed_ctx_obj).
  unfold sys, bind, modst, getst, putst, ret. fold m1.
  pose proof (set_flags_ok fd (Z.lor arg O_NONBLOCK) (fm_sys m1) Hso) as Er.
  pose proof (sound_set fd (fm_sys m1) (Z.lor arg O_NONBLOCK)) as Hsnd.
  pose proof (set_flags_keeps fd (Z.lor arg O_NONBLOCK) (fm_sys m1)) as Hkeep.
  destruct (set_flags fd (Z.lor arg O_NONBLOCK) (fm_sys m1)) as [r d']. cbn [fst snd] in *. subst r.
  eexists. split; [done|]. split; [|done]. apply (with_sys_at m1 d' fd); [done|done|].
  intros c' E'. apply Hsnd; [by apply (so_ctx m1 M1)|apply nonblock_lor].
Qed.

Lemma fcntl_ok m fd cmd arg : sockets_ok m → -1 ≤ fd < 2 ^ 30 → (duplicates cmd → managed_ctx m fd = None) →
  ∃ r m', fcntl fd cmd arg m = (Ok r, m') ∧ sockets_ok m'.
Proof.
  intros Hm Hfd Hdup. destruct (decide (cmd = F_SETFL)) as [->|Hs].
  { destruct (managed_ctx m fd) as [c|] eqn:Hc; [destruct (fcntl_setfl m fd arg c) as (m' & ? & ? & _); eauto|].
    unfold fcntl. cbn [Z.eqb F_SETFL Pos.eqb]. unfold bind at 1.
    destruct (find_socket_ok m fd Hm Hfd) as ([[a c]|] & m' & -> & -> & E); [destruct E; congruence|].
    unfold sys, bind, getst, putst, ret.
    pose proof (set_flags_keeps fd arg (fm_sys m)) as Hkeep.
    destruct (set_flags fd arg (fm_sys m)) as [r d']. eexists _, _. split; [done|].
    apply (with_sys_at m d' fd); [done|done|]. by rewrite Hc. }
  destruct (decide (cmd = F_GETFL)) as [->|Hg]; [rewrite fcntl_getfl by done; by eexists _, _|].
  unfold fcntl. rewrite (proj2 (Z.eqb_neq _ _) Hs), (proj2 (Z.eqb_neq _ _) Hg).
  unfold sys, bind, getst, putst, ret.
  pose proof (fcntl_effect fd cmd (if bool_decide (cmd ∈ fcntl_with_arg) then Some arg else None) (fm_sys m) Hs) as Hk.
  destruct (sys_fcntl _ _ _ _) as [r d']. eexists _, _. split; [done|]. apply with_sys_managed; [done|].
  eapply keeps_mono; [|exact Hk]. intros fd' Hfd'. split; [by apply managed_open|]. intros Hd ->.
  rewrite (Hdup Hd) in Hfd'. by destruct Hfd'.
Qed.

Lemma ioctl_ok m fd request arg : sockets_ok m → -1 ≤ fd < 2 ^ 30 → (request = FIONBIO → arg = 0 → managed_ctx m fd = None) →
  ∃ r m', ioctl fd request arg m = (Ok r, m') ∧ sockets_ok m'.
Proof.
  intros Hm Hfd Harg. unfold ioctl. destruct (Z.eqb_spec request FIONBIO) as [->|Hne].
  - specialize (Harg eq_refl). unfold bind at 1, bind at 1.
    destruct (find_socket_ok m fd Hm Hfd) as ([[a c]|] & m' & -> & -> & E).
    + destruct E as [Ha Hc]. unfold modst. set (m1 := with_obj a _ m).
      assert (sockets_ok m1) as M1 by (by apply (with_obj_sound m fd)).
      destruct (so_ctx m Hm fd c Hc) as (_ & _ & _ & _ & _ & _ & Hso & _).
      unfold sys, bind, getst, putst, ret. pose proof (ioctl_nonblock fd arg (fm_sys m1) Hso) as Hi.
      destruct (sys_ioctl fd FIONBIO arg (fm_sys m1)) as [r d']. destruct Hi as (I1 & I2 & I4 & I3).
      eexists _, _. split; [done|]. apply (with_sys_at m1 d' fd); [done|done|]. intros c' E'.
      apply (so_ctx m1 M1) in E'. unfold sound_ctx in *. destruct_and! E'. split_and!; try done; [by apply I4|].
      rewrite I2. destruct (Z.eqb_spec arg 0); [by rewrite Harg in Hc|done].
    + unfold ret, sys, bind, getst, putst.
      assert (keeps (λ fd', fd' ≠ fd) (fm_sys m) (sys_ioctl fd FIONBIO arg (fm_sys m)).2) as Hk.
      { destruct (decide (is_sock fd (fm_sys m) = Some true)) as [Es|Es]; [|by apply ioctl_unknown].
        pose proof (ioctl_nonblock fd arg (fm_sys m) Es) as Hi. destruct (sys_ioctl _ _ _ _). apply Hi. }
      destruct (sys_ioctl fd FIONBIO arg (fm_sys m)) as [r d']. eexists _, _. split; [done|].
      apply (with_sys_at m d' fd); [done|done|]. by rewrite E.
  - unfold ret, sys, bind, getst, putst. pose proof (ioctl_effect fd request arg (fm_sys m) Hne) as Hk.
    destruct (sys_ioctl _ _ _ _) as [r d']. eexists _, _. split; [done|]. by apply with_sys_ok.
Qed.

Lemma setsockopt_ok m fd level name tv : sockets_ok m → -1 ≤ fd < 2 ^ 30 →
  ∃ r m', setsockopt true fd level name tv m = (Ok r, m') ∧ sockets_ok m'.
Proof.
  intros Hm Hfd. unfold setsockopt. cbn [negb].
  assert (∃ m1, (if (level =? SOL_SOCKET) && ((name =? SO_RCVTIMEO) || (name =? SO_SNDTIMEO)) then
     let! p := get fd false in
     match p with None => ret tt | Some a => modst (with_obj a (setTimeout name (timeval_ms tv))) end
   else ret tt) m = (Ok tt, m1) ∧ sockets_ok m1) as (m1 & E & M1).
  { destruct (_ && _); [|by eexists]. unfold bind. rewrite get_false_ok by (apply Hm || lia).
    destruct (managed m fd) as [a|] eqn:Ea; [|by eexists]. eexists. split; [done|].
    apply (with_obj_sound m fd); [done|done|]. intros. by apply sound_timeout. }
  unfold bind at 1. rewrite E. unfold sys, bind, getst, putst, ret.
  pose proof (setsockopt_effect fd level name tv (fm_sys m1)) as Hk.
  destruct (sys_setsockopt _ _ _ _ _) as [r d']. eexists _, _. split; [done|]. by apply with_sys_ok.
Qed.

Lemma accept_end_ok m fd d' : sockets_ok m → opens fd (fm_sys m) d' →
  ∃ m', accept_end fd (with_sys d' m) = (Ok fd, m') ∧ sockets_ok m' ∧ is_Some (managed_ctx m' fd).
Proof.
  intros Hm Ho. unfold accept_end, bind. pose proof Ho as [Hfd _]. rewrite (proj2 (Z.leb_le 0 fd)) by lia.
  destruct (register_ok m fd d' Hm Ho) as (p & m' & -> & Hm' & He). by exists m'.
Qed.

(** What the user sees of a managed socket is the mode the user asked for:
    [fcntl] with [F_SETFL] answers 0, from then on [F_GETFL] answers flags that
    have [O_NONBLOCK] exactly if the user set it and are otherwise the kernel's,
    the kernel keeps the socket non-blocking, and reads and writes bypass the
    hook exactly if the user asked for non-blocking mode. *)
Theorem nonblock_mode_is_the_users m (fd arg : Z) :
  sockets_ok m → 0 ≤ fd < 2 ^ 30 → is_Some (managed m fd) →
  ∃ m' a c, fcntl fd F_SETFL arg m = (Ok 0, m') ∧ sockets_ok m' ∧ managed m' fd = Some a ∧ fm_objs m' !! a = Some c ∧
    m_userNonblock c = nonblock arg ∧
    ∃ v, fcntl fd F_GETFL 0 m' = (Ok v, m') ∧ nonblock v = nonblock arg ∧
      (∀ i, i ≠ 11 → Z.testbit v i = Z.testbit (get_flags fd (fm_sys m')) i) ∧
      nonblock (get_flags fd (fm_sys m')) = true.
Proof.
  intros Hm Hfd [a Ha]. destruct (managed_ctx_some m fd a) as (c & _ & Hc); [apply Hm|done|].
  destruct (fcntl_setfl m fd arg c Hm ltac:(lia) Hc) as (m' & E & Hm' & Hc').
  pose proof (so_ctx m' Hm' fd _ Hc') as Hs. pose proof Hc' as Hc2. unfold managed_ctx in Hc2. apply bind_Some in Hc2 as (a' & Ea' & Hc2).
  exists m', a', (setUserNonblock (nonblock arg) c). split_and!; try done.
  rewrite fcntl_getfl by (done || lia). rewrite Hc'. eexists. split; [done|]. cbn [m_userNonblock setUserNonblock].
  split_and!; [| |apply Hs].
  - destruct (nonblock arg); [apply nonblock_lor|apply nonblock_clear].
  - intros i Hi. assert (Z.testbit O_NONBLOCK i = false) as E11 by (unfold O_NONBLOCK; change 2048 with (2 ^ 11); by apply Z.pow2_bits_false).
    destruct (nonblock arg); [by rewrite Z.lor_spec, E11, orb_false_r|].
    rewrite Z.land_spec. destruct (Z.ltb_spec i 0); [by rewrite !Z.testbit_neg_r|]. by rewrite Z.lnot_spec, E11, andb_true_r.
Qed.
End fds.

Section runs.
#[local] Set Default Proof Using "All".
Context {K D : Type} `{Epoll K} `{SocketCallLaws D} `{!DescriptorLaws D}.
Implicit Types (m : FdManager D) (w : World K D).

Lemma close_ok w this fd r w' : sockets_ok (w_fds w) → 0 ≤ fd < 2 ^ 30 → close true this fd w = (Ok r, w') →
  sockets_ok (w_fds w') ∧ managed_ctx (w_fds w') fd = None.
Proof.
  intros Hm Hfd. unfold close. cbn [negb]. unfold bind at 1.
  assert (on_fds (get fd false) w = (Ok (managed (w_fds w) fd), set_fds (w_fds w) w)) as ->
    by (unfold on_fds; by rewrite get_false_ok by (apply Hm || lia)).
  set (w1 := set_fds _ w). unfold bind at 1.
  assert (∀ w2, sockets_ok (w_fds w2) → managed_ctx (w_fds w2) fd = None →
    on_fds (sys (sys_close fd)) w2 = (Ok r, w') → sockets_ok (w_fds w') ∧ managed_ctx (w_fds w') fd = None) as Hend.
  { intros w2 M2 Hn. unfold on_fds, sys, bind, getst, putst, ret. pose proof (close_effect fd (fm_sys (w_fds w2))) as Hk.
    destruct (sys_close fd (fm_sys (w_fds w2))) as [x d']. cbn [snd] in Hk. intros [= _ <-]. cbn [w_fds set_fds].
    split; [|done]. apply (with_sys_at _ d' fd); [done|done|]. by rewrite Hn. }
  destruct (managed (w_fds w) fd) as [a|] eqn:Ea.
  2: { rewrite bool_decide_false by (by intros [? ?]). intros E. apply (Hend w1); [done| |exact E]. unfold managed_ctx. cbn.
       by rewrite Ea. }
  rewrite bool_decide_true by done. unfold bind at 1.
  destruct ((if this then on_io (cancelAll fd) ;;! ret tt else ret tt) w1) as [o w2] eqn:E2.
  assert (w_fds w2 = w_fds w) as Ew.
  { destruct this; [|by injection E2 as _ <-]. unfold bind, on_io in E2. destruct (cancelAll fd (w_io w1)) as [[] io]; by injection E2 as _ <-. }
  destruct o; try done. unfold on_fds at 1. rewrite Ew.
  destruct (del_ok (w_fds w) fd) as (m3 & E3 & M3 & Hg & Ho & Hd); [apply Hm|lia|]. rewrite E3.
  intros E. apply (Hend (set_fds m3 w2)); [| |exact E]; cbn.
  - split; [done|]. intros fd' c. unfold managed_ctx. rewrite Hg, Ho, Hd. destruct (decide (fd' = fd)); [done|].
    apply (so_ctx _ Hm fd').
  - unfold managed_ctx. by rewrite Hg, decide_True.
Qed.
(** ** Runs *)
(** One hooked call, or anything else that leaves the managed descriptors alone;
    [accept_end] follows a new connection.  [ioctl] must not make a managed
    socket blocking, and no managed descriptor may be duplicated: the duplicate
    has no context, and setting its flags sets the socket's. *)
Inductive fd_step : World K D → World K D → Prop :=
| fs_socket w args r w' : on_fds (socket true args) w = (Ok r, w') → fd_step w w'
| fs_accept w fd d' r w' : opens fd (fm_sys (w_fds w)) d' →
    on_fds (accept_end fd) (set_fds (with_sys d' (w_fds w)) w) = (Ok r, w') → fd_step w w'
| fs_close w this fd r w' : 0 ≤ fd < 2 ^ 30 → close true this fd w = (Ok r, w') → fd_step w w'
| fs_fcntl w fd cmd arg r w' : -1 ≤ fd < 2 ^ 30 → (duplicates cmd → managed_ctx (w_fds w) fd = None) →
    on_fds (fcntl fd cmd arg) w = (Ok r, w') → fd_step w w'
| fs_ioctl w fd request arg r w' : -1 ≤ fd < 2 ^ 30 →
    (request = FIONBIO → arg = 0 → managed_ctx (w_fds w) fd = None) →
    on_fds (ioctl fd request arg) w = (Ok r, w') → fd_step w w'
| fs_setsockopt w fd level name tv r w' : -1 ≤ fd < 2 ^ 30 →
    on_fds (setsockopt true fd level name tv) w = (Ok r, w') → fd_step w w'
| fs_other w d' io infos cls : keeps (λ fd, is_Some (managed_ctx (w_fds w) fd)) (fm_sys (w_fds w)) d' →
    fd_step w (mkWorld io (with_sys d' (w_fds w)) infos cls).

Lemma on_fds_ok {A} (f : M (FdManager D) A) w r w' : on_fds f w = (Ok r, w') → f (w_fds w) = (Ok r, w_fds w').
Proof. unfold on_fds. destruct (f (w_fds w)) as [o m]. by intros [= -> <-]. Qed.

Lemma fd_step_ok w w' : sockets_ok (w_fds w) → fd_step w w' → sockets_ok (w_fds w').
Proof.
  intros Hm Hs. revert Hm. destruct Hs as [w0 args r w1 E|w0 fd d' r w1 Ho E|w0 this fd r w1 Hfd E|w0 fd cmd arg r w1 Hfd Hdup E
    |w0 fd req arg r w1 Hfd Ha E|w0 fd l n tv r w1 Hfd E|w0 d' io infos cls Hk]; intros Hm.
  - apply on_fds_ok in E. destruct (socket_ok args (w_fds w0) Hm) as (? & ? & E' & ? & _). congruence.
  - apply on_fds_ok in E. destruct (accept_end_ok (w_fds w0) fd d' Hm Ho) as (? & E' & ? & _). cbn in E. congruence.
  - by destruct (close_ok w0 this fd r w1 Hm Hfd E).
  - apply on_fds_ok in E. destruct (fcntl_ok (w_fds w0) fd cmd arg Hm Hfd Hdup) as (? & ? & E' & ?). congruence.
  - apply on_fds_ok in E. destruct (ioctl_ok (w_fds w0) fd req arg Hm Hfd Ha) as (? & ? & E' & ?). congruence.
  - apply on_fds_ok in E. destruct (setsockopt_ok (w_fds w0) fd l n tv Hm Hfd) as (? & ? & E' & ?). congruence.
  - cbn. by apply with_sys_managed.
Qed.

(** ** Properties *)
(** C10: Through any sequence of hooked [socket], [accept], [close], [fcntl],
    [ioctl] and [setsockopt] calls, and of anything else that does not touch the
    managed descriptors, every descriptor with a context is an open socket that
    the kernel has in non-blocking mode, whatever flags the user set, the context
    is the descriptor's own and says so, and it is never marked closed.  Two
    things are excluded, and break it: an [ioctl] that makes a managed socket
    blocking ([ioctl_blocks]), and a duplicate of a managed descriptor ([dup],
    [fork], [F_DUPFD]), which shares the status flags but gets no context, so
    that the library passes the user's flags on through it ([duplicate_blocks]). *)
Theorem managed_sockets_nonblocking io d infos cls w (fd : Z) (a : nat) :
  rtc fd_step (mkWorld io (new_FdManager d) infos cls) w → managed (w_fds w) fd = Some a →
  ∃ c, fm_objs (w_fds w) !! a = Some c ∧ m_fd c = fd ∧ m_isSocket c = true ∧ m_sysNonblock c = true ∧
    m_isClosed c = false ∧ is_sock fd (fm_sys (w_fds w)) = Some true ∧
    nonblock (get_flags fd (fm_sys (w_fds w))) = true.
Proof.
  intros Hr Ha. assert (sockets_ok (w_fds w)) as Hm.
  { remember (mkWorld io _ _ _) as w0 eqn:E0. assert (sockets_ok (w_fds w0)) as Hm0.
    { subst w0. cbn. split; [apply new_FdManager_ok|]. intros fd' c. unfold managed_ctx, managed, new_FdManager. cbn [m_datas].
      destruct (fd' <? 0); [done|]. destruct (replicate 64 None !! Z.to_nat fd') as [p|] eqn:E; [|done].
      by apply lookup_replicate in E as [-> _]. }
    clear E0 Ha. induction Hr as [|x y z Hs _ IH]; [done|]. apply IH. by eapply fd_step_ok. }
  destruct (managed_ctx_some (w_fds w) fd a) as (c & Hc & E); [apply Hm|done|]. exists c. split; [done|].
  apply (so_ctx _ Hm) in E. unfold sound_ctx in E. naive_solver.
Qed.

End runs.

(** ** A kernel, and inputs on which the code fails *)
(** The next descriptor, the open file descriptions the descriptors refer to, and
    of each description whether it is a socket, and the flags.  A closed
    descriptor is the next to be handed out. *)
Record descriptor_table := mkTable { dt_next : Z; dt_fds : gmap Z nat; dt_files : gmap nat (bool * Z) }.
Definition file_of (fd : Z) (d : descriptor_table) : option (bool * Z) := dt_fds d !! fd ≫= λ i, dt_files d !! i.
Definition with_file (i : nat) (v : bool * Z) (d : descriptor_table) : descriptor_table :=
  mkTable (dt_next d) (dt_fds d) (<[i:=v]> (dt_files d)).
Definition is_free (fd : Z) (d : descriptor_table) : bool := bool_decide (0 ≤ fd < 2 ^ 30 ∧ dt_fds d !! fd = None).
Definition new_file (d : descriptor_table) : nat := S (map_fold (λ _ i n, i `max` n)%nat 0%nat (dt_fds d)).
Definition refer (i : nat) (d : descriptor_table) : Z * descriptor_table :=
  if is_free (dt_next d) d then (dt_next d, mkTable (dt_next d + 1) (<[dt_next d:=i]> (dt_fds d)) (dt_files d)) else (-1, d).
#[export] Instance table_descriptors : Descriptors descriptor_table := {
  is_sock fd d := fst <$> file_of fd d;
  shares fd fd' d := match dt_fds d !! fd, dt_fds d !! fd' with Some i, Some j => Nat.eqb i j | _, _ => false end;
  get_flags fd d := match file_of fd d with Some (_, f) => f | None => -1 end;
  set_flags fd a d :=
    match dt_fds d !! fd, file_of fd d with Some i, Some (s, _) => (0, with_file i (s, a) d) | _, _ => (-1, d) end }.
#[export] Instance table_calls : SocketCalls descriptor_table := {
  sys_socket _ d := if is_free (dt_next d) d then refer (new_file d) (with_file (new_file d) (true, 2) d) else (-1, d);
  sys_close fd d :=
    match dt_fds d !! fd with Some _ => (0, mkTable fd (delete fd (dt_fds d)) (dt_files d)) | None => (-1, d) end;
  sys_ioctl fd request arg d :=
    match dt_fds d !! fd, file_of fd d with
    | Some i, Some (true, f) =>
      if request =? FIONBIO
      then (0, with_file i (true, if arg =? 0 then Z.land f (Z.lnot O_NONBLOCK) else Z.lor f O_NONBLOCK) d)
      else (0, d)
    | _, _ => (-1, d)
    end;
  sys_fcntl fd cmd _ d :=
    if (cmd =? F_DUPFD) || (cmd =? F_DUPFD_CLOEXEC)
    then match dt_fds d !! fd with Some i => refer i d | None => (-1, d) end
    else (0, d);
  sys_setsockopt _ _ _ _ d := (0, d) }.

Lemma new_file_fresh d fd i : dt_fds d !! fd = Some i → (i < new_file d)%nat.
Proof.
  unfold new_file. revert fd i. apply (map_fold_weak_ind (λ n m, ∀ fd i, m !! fd = Some i → i < S n)%nat).
  - intros fd i. by rewrite lookup_empty.
  - intros fd0 x m n _ IH fd i. rewrite lookup_insert_Some. intros [[_ <-]|[_ E]]; [lia|]. apply IH in E. lia.
Qed.
Lemma table_alone fd (d : descriptor_table) i : dt_fds d !! fd = Some i →
  alone fd d ↔ ∀ fd', fd' ≠ fd → dt_fds d !! fd' ≠ Some i.
Proof.
  intros E. unfold alone, shares, table_descriptors. rewrite E. split; intros Ha fd' Hne; specialize (Ha fd' Hne).
  - intros E'. rewrite E' in Ha. by rewrite Nat.eqb_refl in Ha.
  - destruct (dt_fds d !! fd') as [j|]; [|done]. apply Nat.eqb_neq. congruence.
Qed.
(** What leaves the descriptors [P] as they are: their references and, if not
    shared, these alone, and their descriptions. *)
Lemma table_keeps (P : Z → Prop) (d d' : descriptor_table) :
  (∀ fd, P fd → dt_fds d' !! fd = dt_fds d !! fd) →
  (∀ fd i, P fd → dt_fds d !! fd = Some i → fst <$> dt_files d' !! i = fst <$> dt_files d !! i ∧
     (alone fd d → dt_files d' !! i = dt_files d !! i ∧ ∀ fd', dt_fds d' !! fd' = Some i → dt_fds d !! fd' = Some i)) →
  keeps P d d'.
Proof.
  intros H1 H2 fd HP. specialize (H1 fd HP). destruct (dt_fds d !! fd) as [i|] eqn:E.
  - destruct (H2 fd i HP E) as [H3 H4]. unfold is_sock, get_flags, table_descriptors, file_of. rewrite H1, E. cbn. split; [done|].
    intros Ha. destruct (H4 Ha) as [-> H5]. split; [|done]. apply (table_alone fd d' i H1). intros fd' Hne E'.
    by eapply (proj1 (table_alone fd d i E)); [|exact Hne|apply H5].
  - unfold is_sock, get_flags, table_descriptors, file_of. rewrite H1, E. cbn. split; [done|].
    intros _. split; [|done]. intros fd' _. unfold shares, table_descriptors. rewrite H1. by destruct (dt_fds d' !! fd').
Qed.
(** New flags of one description. *)
Lemma with_file_keeps fd i s f f' (d : descriptor_table) : dt_fds d !! fd = Some i → dt_files d !! i = Some (s, f) →
  keeps (λ fd', fd' ≠ fd) d (with_file i (s, f') d).
Proof.
  intros E Ef. apply table_keeps; [done|]. intros fd' j Hne E'. cbn. destruct (decide (i = j)) as [<-|Hij].
  - rewrite lookup_insert_eq, Ef. split; [done|]. intros Ha. exfalso.
    by eapply (proj1 (table_alone fd' d i E')); [exact Ha|apply not_eq_sym|].
  - by rewrite lookup_insert_ne.
Qed.
(** A new reference. *)
Lemma refer_keeps (P : Z → Prop) i (d : descriptor_table) : (∀ fd, P fd → is_Some (dt_fds d !! fd) ∧ dt_fds d !! fd ≠ Some i) →
  keeps P d (refer i d).2.
Proof.
  intros HP. unfold refer, is_free. case_bool_decide as Hf; [|by intros fd]. destruct Hf as [_ Hn]. apply table_keeps.
  - intros fd HPf. cbn. destruct (HP fd HPf) as [[j E] _]. rewrite lookup_insert_ne; [done|]. congruence.
  - intros fd j HPf E. cbn. destruct (HP fd HPf) as [_ Hi]. split; [done|]. intros _. split; [done|]. intros fd'.
    rewrite lookup_insert_Some. intros [[_ <-]|[_ ?]]; [congruence|done].
Qed.

#[export] Instance table_descriptor_laws : DescriptorLaws descriptor_table.
Proof.
  split; intros fd a; [intros fd' d|intros fd1 fd2 d|intros d|intros d|intros fd' d]; unfold is_sock, get_flags, set_flags, shares, table_descriptors, file_of;
    destruct (dt_fds d !! fd) as [i|] eqn:E; cbn; try done; destruct (dt_files d !! i) as [[sk f]|] eqn:Ef; cbn; try done.
  - destruct (dt_fds d !! fd') as [j|]; [|done]. cbn. destruct (decide (i = j)) as [<-|]; [by rewrite lookup_insert_eq, Ef|by rewrite lookup_insert_ne].
  - intros _. rewrite E. cbn. by rewrite lookup_insert_eq.
  - destruct (dt_fds d !! fd') as [j|]; [|done]. intros Hne%Nat.eqb_neq _. cbn. by rewrite lookup_insert_ne.
Qed.

Lemma table_socket args (d : descriptor_table) : let (fd, d') := sys_socket args d in (fd = -1 ∧ d' = d) ∨ opens fd d d'.
Proof.
  unfold sys_socket, table_calls, refer. destruct (is_free (dt_next d) d) eqn:Hf; [|by left]. cbn [dt_next with_file].
  change (is_free (dt_next d) (with_file (new_file d) (true, 2) d)) with (is_free (dt_next d) d). rewrite Hf.
  apply bool_decide_eq_true in Hf as [Hr Hn]. right. set (i := new_file d).
  split; [done|]. unfold is_sock, table_descriptors, file_of. cbn [dt_fds dt_files with_file].
  rewrite Hn, lookup_insert_eq. cbn. rewrite lookup_insert_eq. split_and!; [done|done| |].
  - apply (table_alone _ _ i); cbn; [by rewrite lookup_insert_eq|]. intros fd' Hne. rewrite lookup_insert_ne by done.
    intros E%new_file_fresh. subst i. lia.
  - apply table_keeps; cbn; intros fd.
    + intros [x Hx]. rewrite lookup_insert_ne; [done|]. intros <-. unfold is_sock, table_descriptors, file_of in Hx. by rewrite Hn in Hx.
    + intros j [x Hx] E. pose proof (new_file_fresh d fd j E). rewrite lookup_insert_ne by (subst i; lia). split; [done|]. intros _.
      split; [done|]. intros fd'. rewrite lookup_insert_Some. intros [[_ Ej]|[_ ?]]; [subst i; lia|done].
Qed.
Lemma table_ioctl fd arg (d : descriptor_table) : is_sock fd d = Some true → let (r, d') := sys_ioctl fd FIONBIO arg d in
  is_sock fd d' = Some true ∧ nonblock (get_flags fd d') = negb (arg =? 0) ∧ (alone fd d → alone fd d') ∧
  keeps (λ fd', fd' ≠ fd) d d'.
Proof.
  intros Hs. unfold sys_ioctl, is_sock, get_flags, table_calls, table_descriptors, file_of in *.
  destruct (dt_fds d !! fd) as [i|] eqn:E; [|done]. cbn in *. destruct (dt_files d !! i) as [[[] f]|] eqn:Ef; try done.
  cbn. rewrite E. cbn. rewrite lookup_insert_eq. split_and!; [done| |done|by eapply with_file_keeps].
  destruct (arg =? 0); [apply nonblock_clear|apply nonblock_lor].
Qed.
#[export] Instance table_laws : SocketCallLaws descriptor_table.
Proof.
  split; [apply table_socket| | |apply table_ioctl| | |done].
  - intros fd d. unfold sys_close, table_calls. destruct (dt_fds d !! fd) as [i|] eqn:E; [|by intros fd'].
    apply table_keeps; cbn; [intros fd' Hne; by rewrite lookup_delete_ne|]. intros fd' j Hne E'. split; [done|]. intros _.
    split; [done|]. intros fd2. rewrite lookup_delete_Some. by intros [_ ?].
  - intros fd req arg d Hreq. unfold sys_ioctl, table_calls. rewrite (proj2 (Z.eqb_neq _ _) Hreq).
    by destruct (dt_fds d !! fd), (file_of fd d) as [[[] ?]|].
  - intros fd arg d Hs. unfold sys_ioctl, is_sock, table_calls, table_descriptors in *.
    by destruct (dt_fds d !! fd), (file_of fd d) as [[[] ?]|].
  - intros fd cmd arg d _. unfold sys_fcntl, table_calls, duplicates. destruct (_ || _) eqn:Ec; [|by intros fd'].
    destruct (dt_fds d !! fd) as [i|] eqn:E; [|by intros fd'].
    assert (cmd = F_DUPFD ∨ cmd = F_DUPFD_CLOEXEC) as Hd by (by apply orb_true_iff in Ec as [->%Z.eqb_eq| ->%Z.eqb_eq]; [left|right]).
    intros fd' [[x Hx] Hne]. specialize (Hne Hd). unfold is_sock, table_descriptors, file_of in Hx.
    destruct (dt_fds d !! fd') as [j|] eqn:E'; [|done].
    destruct (decide (i = j)) as [<-|Hij]; [|apply (refer_keeps (λ x, x = fd')); [intros ? ->; split; [by rewrite E'|congruence]|done]].
    unfold refer, is_free. case_bool_decide as Hf; [|done]. destruct Hf as [_ Hn]. split.
    + unfold is_sock, table_descriptors, file_of. cbn. rewrite lookup_insert_ne by congruence. done.
    + intros Ha. exfalso. by eapply (proj1 (table_alone fd' d i E')); [exact Ha|apply not_eq_sym|].
Qed.

Definition fd_world : Type := FdManager descriptor_table.
Definition fds_start : fd_world := new_FdManager (mkTable 3 ∅ ∅).
Definition after {A} (f : M fd_world A) (m : fd_world) : fd_world := (f m).2.
(** A socket on descriptor 3. *)
Definition one_socket : fd_world := after (socket true (2, 1, 0)) fds_start.

(** The user's flags 2 (no [O_NONBLOCK]) are what [F_GETFL] answers, the
    kernel's have the bit. *)
Example mode_seen : ((fcntl 3 F_GETFL 0 one_socket).1, nonblock (get_flags 3 (fm_sys one_socket))) = (Ok 2, true).
Proof. by vm_compute. Qed.

(** [ioctl(FIONBIO, 0)] is passed on as it is: the kernel's socket blocks, and
    the next hooked read blocks the thread. *)
Example ioctl_blocks :
  let m := after (ioctl 3 FIONBIO 0) one_socket in
  (m_sysNonblock <$> managed_ctx m 3, m_userNonblock <$> managed_ctx m 3, nonblock (get_flags 3 (fm_sys m))) =
  (Some true, Some false, false).
Proof. by vm_compute. Qed.

(** A duplicate of the socket has no context: clearing its flags through the
    library clears the socket's. *)
Example duplicate_blocks :
  let (r, m) := fcntl 3 F_DUPFD 0 one_socket in
  let m' := after (fcntl 4 F_SETFL 2) m in
  (r, managed m 4, m_sysNonblock <$> managed_ctx m' 3, nonblock (get_flags 3 (fm_sys m'))) = (Ok 4, None, Some true, false).
Proof. by vm_compute. Qed.

(** A socket closed on a thread without the hook leaves its context; a new
    socket that gets the descriptor keeps that context and stays blocking. *)
Example stale_context :
  let m := after (sys (sys_close 3)) one_socket in
  let m := after (socket true (2, 1, 0)) m in
  (m_sysNonblock <$> managed_ctx m 3, nonblock (get_flags 3 (fm_sys m))) = (Some true, false).
Proof. by vm_compute. Qed.

(** The kernel's error is masked into a word of flags. *)
Example getfl_error : (fcntl 3 F_GETFL 0 (after (sys (sys_close 3)) one_socket)).1 = Ok (-2049).
Proof. by vm_compute. Qed.

(** The [timeval] that means no time-out is taken for one of 0 ms. *)
Example zero_timeval :
  getTimeout SO_RCVTIMEO <$> managed_ctx (after (setsockopt true 3 SOL_SOCKET SO_RCVTIMEO (0, 0)) one_socket) 3 = Some 0.
Proof. by vm_compute. Qed.

(** Two threads that both found no context create one each; the second replaces
    the first, and the mode set through it is lost. *)
Example create_race :
  let m := after (get_create 3) (after (sys (sys_socket (2, 1, 0))) fds_start) in
  let m := after (fcntl 3 F_SETFL O_NONBLOCK) m in
  m_userNonblock <$> managed_ctx (after (get_create 3) m) 3 = Some false.
Proof. by vm_compute. Qed.

Lemma one_socket_ok : sockets_ok one_socket.
Proof.
  assert (sockets_ok fds_start) as Hm.
  { split; [apply new_FdManager_ok|]. intros fd' c. unfold managed_ctx, managed, fds_start, new_FdManager. cbn [m_datas].
    destruct (fd' <? 0); [done|]. destruct (replicate 64 None !! Z.to_nat fd') as [p|] eqn:E; [|done].
    by apply lookup_replicate in E as [-> _]. }
  destruct (socket_ok (2, 1, 0) fds_start Hm) as (fd & m' & E & Hm' & _). unfold one_socket, after. by rewrite E.
Qed.
Definition sample_io_world : IOManager (gmap Z Z) := new_IOManager Scheduler.new_Scheduler 0 ∅.

Lemma managed_sockets_nonblocking_witness :
  ∃ c, fm_objs (w_fds (mkWorld sample_io_world one_socket [] [])) !! 0%nat = Some c ∧ m_fd c = 3 ∧
    nonblock (get_flags 3 (fm_sys one_socket)) = true.
Proof.
  destruct (managed_sockets_nonblocking sample_io_world (mkTable 3 ∅ ∅) [] []
    (mkWorld sample_io_world one_socket [] []) 3 0) as (c & Hc & Hf & _ & _ & _ & _ & Hn).
  - apply rtc_once. apply (fs_socket _ (2, 1, 0) 3). by vm_compute.
  - by vm_compute.
  - by exists c.
Defined.
Lemma nonblock_mode_is_the_users_witness :
  ∃ m', fcntl 3 F_SETFL 2 one_socket = (Ok 0, m') ∧ ∃ v, fcntl 3 F_GETFL 0 m' = (Ok v, m') ∧ nonblock v = nonblock 2.
Proof.
  destruct (nonblock_mode_is_the_users one_socket 3 2 one_socket_ok) as (m' & a & c & E & _ & _ & _ & _ & v & Ev & Hv & _);
    [lia|by eexists; vm_compute|]. exists m'. split; [exact E|]. by exists v.
Defined.
