(* ===== verification/HookIO.v ===== *)
(** * Suspended calls: the invariant

    The frames of the calls in progress, with the registry of waiters, the
    scheduler's queue, the timers and the [timer_info] objects they are spread
    over.  Each operation of the code is one change of these parts, and keeps
    them consistent. *)
From S2P Require Import Prelude Fiber Scheduler SchedulerSpec SchedulerThms IOManager IOManagerSpec FdManager Hook.
From S2P Require Timer.

(** A call by the fiber it is filed under, where it is, and when it began. *)
Record frame := mkFrame { fr_call : call; fr_at : point; fr_start : Z }.
Definition at_point (p : point) (fr : frame) : frame := mkFrame (fr_call fr) p (fr_start fr).
Definition key (fr : frame) : Z * Z := (c_fd (fr_call fr), c_event (fr_call fr)).
Definition held_timer (p : point) : option nat := match p with Add o | Parked o => o | _ => None end.
Definition is_parked (p : point) : bool := match p with Parked _ => true | _ => false end.

(** How often a fiber is queued. *)
Definition queued (f : nat) (q : list FiberAndThread) : nat := length (filter (λ x, ft_fiber x = Some f) q).
Lemma queued_app f q q' : queued f (q ++ q') = (queued f q + queued f q')%nat.
Proof. unfold queued. by rewrite filter_app, length_app. Qed.
Lemma queued_cons f x q : queued f (x :: q) = ((if decide (ft_fiber x = Some f) then 1 else 0) + queued f q)%nat.
Proof. unfold queued. rewrite filter_cons. by destruct (decide _). Qed.
Lemma queued_cbs f q : Forall (λ x, ft_fiber x = None) q → queued f q = 0%nat.
Proof. induction 1 as [|x q Hx _ IH]; [done|]. rewrite queued_cons, Hx, IH. done. Qed.
Lemma queued_in f thr q : fiber_task f thr ∈ q → queued f q ≠ 0%nat.
Proof.
  intros (q1 & q2 & ->)%list_elem_of_split. rewrite queued_app, queued_cons, decide_True by done. lia.
Qed.

(** ** The invariant *)
Section core.
Implicit Types (m : registry) (q : list FiberAndThread) (h : gmap nat Timer.Timer) (infos : list (option Z))
  (clos : list closure) (frames : gmap nat frame) (now : Z).

(** A suspended fiber is registered, or queued once; no other caller is either. *)
Definition place_ok m q (f : nat) (fr : frame) : Prop :=
  if is_parked (fr_at fr)
  then (m !! key fr = Some (Resume f) ∧ queued f q = 0%nat) ∨ (m !! key fr = None ∧ queued f q = 1%nat)
  else m !! key fr = None ∧ queued f q = 0%nat.

(** The [timer_info] lives, and is set only when the time is up. *)
Definition timed_out now (fr : frame) : Prop :=
  c_to (fr_call fr) ≠ NO_TIMEOUT ∧ fr_start fr + c_to (fr_call fr) ≤ now.
Definition info_ok infos now (fr : frame) : Prop :=
  ∃ x, infos !! c_info (fr_call fr) = Some (Some x) ∧ (x = 0 ∨ x = ETIMEDOUT ∧ timed_out now fr).

(** The timer it holds: one shot, not early, and with its own closure. *)
Definition own_timer clos (fr : frame) (t : Timer.Timer) : Prop :=
  Timer.m_recurring t = false ∧ fr_start fr + c_to (fr_call fr) ≤ Timer.m_next t ∧
  ∀ cb, Timer.m_cb t = Some cb → ∃ id, cb = Timer.mkCallback (Z.of_nat id) (Some (c_info (fr_call fr))) ∧
    clos !! id = Some (Timeout (c_info (fr_call fr)) (c_fd (fr_call fr)) (c_event (fr_call fr))).
Definition timer_ok h clos (fr : frame) : Prop :=
  match fr_at fr with
  | Add o | Parked o =>
    match o with
    | None => c_to (fr_call fr) = NO_TIMEOUT
    | Some a => c_to (fr_call fr) ≠ NO_TIMEOUT ∧ ∃ t, h !! a = Some t ∧ own_timer clos fr t
    end
  | _ => True
  end.
Definition range_ok now (fr : frame) : Prop :=
  0 ≤ c_fd (fr_call fr) < 2 ^ 30 ∧ is_event (c_event (fr_call fr)) ∧
  (c_to (fr_call fr) = NO_TIMEOUT ∨ 0 ≤ c_to (fr_call fr) < 2 ^ 63) ∧ 0 ≤ fr_start fr ≤ now.
Record frame_ok m q h infos clos now (f : nat) (fr : frame) : Prop := {
  fk_range : range_ok now fr;
  fk_info : info_ok infos now fr;
  fk_place : place_ok m q f fr;
  fk_timer : timer_ok h clos fr }.

(** A queued task is a suspended fiber's, or the time-out of a call that is over
    or out of time. *)
Definition task_ok_in clos frames now (x : FiberAndThread) : Prop :=
  (∃ f fr, x = fiber_task f (-1) ∧ frames !! f = Some fr ∧ is_parked (fr_at fr) = true) ∨
  (∃ id i fd ev, x = cb_task id (-1) ∧ clos !! id = Some (Timeout i fd ev) ∧
     ∀ f fr, frames !! f = Some fr → c_info (fr_call fr) = i → timed_out now fr).

Record core m q h infos clos frames now : Prop := {
  co_frame f fr : frames !! f = Some fr → frame_ok m q h infos clos now f fr;
  co_excl f g fr gr : frames !! f = Some fr → frames !! g = Some gr → key fr = key gr → f = g;
  co_info f g fr gr : frames !! f = Some fr → frames !! g = Some gr →
    c_info (fr_call fr) = c_info (fr_call gr) → f = g;
  co_reg k w : m !! k = Some w → ∃ f fr, frames !! f = Some fr ∧ key fr = k ∧ w = Resume f ∧ is_parked (fr_at fr) = true;
  co_live a t : h !! a = Some t → is_Some (Timer.m_cb t) → ∃ f fr, frames !! f = Some fr ∧ held_timer (fr_at fr) = Some a;
  co_queue x : x ∈ q → task_ok_in clos frames now x;
  co_clos id cl : clos !! id = Some cl → ∃ i fd ev, cl = Timeout i fd ev ∧ (i < length infos)%nat ∧
    0 ≤ fd < 2 ^ 30 ∧ is_event ev }.

Lemma own_timer_dead clos fr t : own_timer clos fr t → own_timer clos fr (Timer.set_cb None t).
Proof. intros (O1 & O2 & _). by split_and!. Qed.
Lemma timer_ok_mono h h' clos clos' fr :
  (∀ a t, h !! a = Some t → own_timer clos fr t → ∃ t', h' !! a = Some t' ∧ own_timer clos' fr t') →
  timer_ok h clos fr → timer_ok h' clos' fr.
Proof.
  intros Hk. unfold timer_ok. destruct (fr_at fr) as [| |[a|]|[a|]|]; try done;
    intros [T1 (t & T2 & T3)]; split; eauto.
Qed.
(** [timer->cancel()] on the timers' heap. *)
Definition kill (o : option nat) h : gmap nat Timer.Timer :=
  match o with Some a => alter (Timer.set_cb None) a h | None => h end.
Lemma kill_lookup o h a : kill o h !! a = h !! a ∨ o = Some a ∧ ∃ t, h !! a = Some t ∧ kill o h !! a = Some (Timer.set_cb None t).
Proof.
  destruct o as [b|]; [|by left]. cbn. destruct (decide (b = a)) as [->|Hne]; [|left; by apply lookup_alter_ne].
  rewrite lookup_alter_eq. destruct (h !! a) as [t|]; [|by left]. right. eauto.
Qed.
Lemma kill_timer_ok o h clos fr : timer_ok h clos fr → timer_ok (kill o h) clos fr.
Proof.
  apply timer_ok_mono. intros a t Ha Ho. destruct (kill_lookup o h a) as [->|(_ & t0 & E & ->)]; [eauto|].
  assert (t0 = t) as -> by congruence. eauto using own_timer_dead.
Qed.

(** ** Nothing but time passes *)
Lemma core_time m q h infos clos frames now now' :
  now ≤ now' → core m q h infos clos frames now → core m q h infos clos frames now'.
Proof.
  intros Hn [C1 C2 C3 C4 C5 C6 C7]. split; [|done|done|done|done| |done].
  - intros f fr Hf. destruct (C1 f fr Hf) as [(A1 & A2 & A3 & A4) (x & I1 & I2) P T]. split; [unfold range_ok; split_and!; (done || lia)| |done|done].
    exists x. split; [done|]. unfold timed_out in *. destruct I2 as [->|(-> & I3 & I4)]; [by left|]. right. split_and!; (done || lia).
  - intros x Hx. destruct (C6 x Hx) as [?|(id & i & fd & ev & -> & E & Ht)]; [by left|right].
    exists id, i, fd, ev. split_and!; [done..|]. intros f fr Hf Hi. destruct (Ht f fr Hf Hi). split; [done|lia].
Qed.

(** ** A new call *)
Lemma core_enter m q h infos clos frames now f c :
  core m q h infos clos frames now → frames !! f = None → queued f q = 0%nat → c_info c = length infos →
  range_ok now (mkFrame c Attempt now) → (∀ g gr, frames !! g = Some gr → key gr ≠ (c_fd c, c_event c)) →
  core m q h (infos ++ [Some 0]) clos (<[f:=mkFrame c Attempt now]> frames) now.
Proof.
  intros [C1 C2 C3 C4 C5 C6 C7] Hf Hq Hi Hr Hk. split.
  - intros g gr. rewrite lookup_insert_Some. intros [[<- <-]|[Hne Hg]].
    + split; [done| | |done].
      * exists 0. cbn [fr_call]. rewrite Hi, lookup_app_r, Nat.sub_diag by lia. split; [done|by left].
      * unfold place_ok. cbn [is_parked fr_at]. split; [|done]. destruct (m !! key _) as [w|] eqn:Ew; [|done].
        destruct (C4 _ _ Ew) as (g & gr & Hg & E & _). by destruct (Hk g gr Hg).
    + destruct (C1 g gr Hg) as [A (x & I1 & I2) P T]. split; [done| |done|done]. exists x. split; [|done].
      by apply lookup_app_l_Some.
  - intros g g' gr gr'. rewrite !lookup_insert_Some. intros [[<- <-]|[Hne Hg]] [[<- <-]|[Hne' Hg']] E; [done| | |by eapply C2].
    + by destruct (Hk g' gr' Hg').
    + by destruct (Hk g gr Hg).
  - intros g g' gr gr'. rewrite !lookup_insert_Some.
    intros [[<- <-]|[Hne Hg]] [[<- <-]|[Hne' Hg']] E; [done| | |by eapply C3]; cbn in E; rewrite Hi in E;
      [destruct (C1 g' gr' Hg') as [_ (x & I1 & _) _ _]|destruct (C1 g gr Hg) as [_ (x & I1 & _) _ _]];
      apply lookup_lt_Some in I1; lia.
  - intros k w Ew. destruct (C4 k w Ew) as (g & gr & Hg & ?). exists g, gr. rewrite lookup_insert_ne; [done|congruence].
  - intros a t Ha Ht. destruct (C5 a t Ha Ht) as (g & gr & Hg & ?). exists g, gr. rewrite lookup_insert_ne; [done|congruence].
  - intros x Hx. destruct (C6 x Hx) as [(g & gr & -> & Hg & Hp)|(id & i & fd & ev & -> & E & Ht)].
    + left. exists g, gr. rewrite lookup_insert_ne; [done|congruence].
    + right. exists id, i, fd, ev. split_and!; [done..|]. intros g gr. rewrite lookup_insert_Some.
      intros [[<- <-]|[_ Hg]] Ei; [|by eapply Ht]. cbn in Ei. rewrite Hi in Ei. apply C7 in E as (? & ? & ? & Ecl & ? & _). injection Ecl as -> _ _. lia.
  - intros id cl E. destruct (C7 id cl E) as (i & fd & ev & -> & Hlt & ?). exists i, fd, ev. rewrite length_app. split; [done|]. split; [lia|done].
Qed.

(** ** One frame moves *)
(** The parts may change with it as far as the other frames do not notice. *)
Lemma core_update m q h infos clos frames now m' q' h' clos' f fr p :
  core m q h infos clos frames now → frames !! f = Some fr →
  (∀ g gr, g ≠ f → frames !! g = Some gr → place_ok m q g gr → place_ok m' q' g gr) →
  (∀ g gr, g ≠ f → frames !! g = Some gr → timer_ok h clos gr → timer_ok h' clos' gr) →
  place_ok m' q' f (at_point p fr) → timer_ok h' clos' (at_point p fr) →
  (∀ k w, m' !! k = Some w → m !! k = Some w ∨ (k = key fr ∧ w = Resume f ∧ is_parked p = true)) →
  (∀ a t, h' !! a = Some t → is_Some (Timer.m_cb t) →
     (held_timer (fr_at fr) ≠ Some a ∧ ∃ t0, h !! a = Some t0 ∧ is_Some (Timer.m_cb t0)) ∨ held_timer p = Some a) →
  (∀ x, x ∈ q' → x ∈ q) → (∀ id cl, clos !! id = Some cl → clos' !! id = Some cl) →
  (∀ id cl, clos' !! id = Some cl → clos !! id = Some cl ∨
     cl = Timeout (c_info (fr_call fr)) (c_fd (fr_call fr)) (c_event (fr_call fr))) →
  core m' q' h' infos clos' (<[f:=at_point p fr]> frames) now.
Proof.
  intros [C1 C2 C3 C4 C5 C6 C7] Hf Hpl Hti Hp Ht Hm Hh Hq Hc Hc'. destruct (C1 f fr Hf) as [Fr Fi Fp Ft]. split.
  - intros g gr. rewrite lookup_insert_Some. intros [[<- <-]|[Hne Hg]]; [by split|].
    destruct (C1 g gr Hg) as [A I P T]. split; [done|done|by eapply Hpl|by eapply Hti].
  - intros g g' gr gr'. rewrite !lookup_insert_Some. intros [[<- <-]|[Hne Hg]] [[<- <-]|[Hne' Hg']] E; [done| | |by eapply C2].
    + by eapply (C2 f g' fr gr').
    + by eapply (C2 g f gr fr).
  - intros g g' gr gr'. rewrite !lookup_insert_Some. intros [[<- <-]|[Hne Hg]] [[<- <-]|[Hne' Hg']] E; [done| | |by eapply C3].
    + by eapply (C3 f g' fr gr').
    + by eapply (C3 g f gr fr).
  - intros k w Ew. destruct (Hm k w Ew) as [Ew0|(-> & -> & Hpk)].
    + destruct (C4 k w Ew0) as (g & gr & Hg & Hk & Hw & Hpk). destruct (decide (g = f)) as [->|Hne].
      * assert (gr = fr) as -> by congruence. exists f, (at_point p fr). rewrite lookup_insert_eq.
        split_and!; [done|done|done|]. unfold place_ok in Hp. cbn in *. destruct (is_parked p); [done|].
        destruct Hp as [Hp _]. change (key (at_point p fr)) with (key fr) in Hp. congruence.
      * exists g, gr. by rewrite lookup_insert_ne.
    + exists f, (at_point p fr). by rewrite lookup_insert_eq.
  - intros a t Ha Hcb. destruct (Hh a t Ha Hcb) as [(Hno & t0 & Ha0 & Hcb0)|Hheld].
    + destruct (C5 a t0 Ha0 Hcb0) as (g & gr & Hg & Hheld). exists g, gr. rewrite lookup_insert_ne; [done|]. intros <-. congruence.
    + exists f, (at_point p fr). by rewrite lookup_insert_eq.
  - intros x Hx. destruct (C6 x (Hq x Hx)) as [(g & gr & -> & Hg & Hpk)|(id & i & fd & ev & -> & E & Htm)].
    + left. destruct (decide (g = f)) as [->|Hne].
      * exists f, (at_point p fr). rewrite lookup_insert_eq. split_and!; [done|done|]. cbn.
        destruct (is_parked p) eqn:Epk; [done|]. unfold place_ok in Hp. cbn in Hp. rewrite Epk in Hp.
        destruct Hp as [_ Hp]. by apply queued_in in Hx.
      * exists g, gr. by rewrite lookup_insert_ne.
    + right. exists id, i, fd, ev. split_and!; [done|by apply Hc|]. intros g gr.
      rewrite lookup_insert_Some. intros [[<- <-]|[_ Hg]] Hi; [by apply (Htm f fr)|by eapply Htm].
  - intros id cl E. destruct (Hc' id cl E) as [E0| ->]; [by eapply C7|]. destruct Fr as (? & ? & _).
    destruct Fi as (x & Fi & _). apply lookup_lt_Some in Fi. eauto 10.
Qed.

(** A frame between points that hold nothing. *)
Lemma core_point m q h infos clos frames now f fr p :
  core m q h infos clos frames now → frames !! f = Some fr → is_parked (fr_at fr) = false → is_parked p = false →
  held_timer (fr_at fr) = None → held_timer p = None → (∀ o, p ≠ Add o) →
  core m q h infos clos (<[f:=at_point p fr]> frames) now.
Proof.
  intros Hc Hf Hp Hp' Hh Hh' Hadd. destruct (co_frame _ _ _ _ _ _ _ Hc f fr Hf) as [_ _ Pl _].
  eapply core_update; try done.
  - unfold place_ok in *. by rewrite Hp in Pl; cbn; rewrite Hp'.
  - unfold timer_ok. cbn. destruct p; try done. by destruct (Hadd timer).
  - by left.
  - intros a t Ha Hcb. left. split; [by rewrite Hh|by exists t].
  - by left.
Qed.

(** The call returns: its frame and its [timer_info] go. *)
Lemma core_return m q h infos clos frames now f fr :
  core m q h infos clos frames now → frames !! f = Some fr → is_parked (fr_at fr) = false → held_timer (fr_at fr) = None →
  core m q h (<[c_info (fr_call fr):=None]> infos) clos (delete f frames) now.
Proof.
  intros [C1 C2 C3 C4 C5 C6 C7] Hf Hp Hh. destruct (C1 f fr Hf) as [_ _ Pl _]. unfold place_ok in Pl. rewrite Hp in Pl.
  destruct Pl as [Pm Pq]. split.
  - intros g gr [Hne Hg]%lookup_delete_Some. destruct (C1 g gr Hg) as [A (x & I1 & I2) P T]. split; [done| |done|done].
    exists x. split; [|done]. rewrite list_lookup_insert_ne; [done|]. intros E. by apply Hne, (C3 f g fr gr).
  - intros g g' gr gr' [_ Hg]%lookup_delete_Some [_ Hg']%lookup_delete_Some. by eapply C2.
  - intros g g' gr gr' [_ Hg]%lookup_delete_Some [_ Hg']%lookup_delete_Some. by eapply C3.
  - intros k w Ew. destruct (C4 k w Ew) as (g & gr & Hg & Hk & Hw & Hpk). exists g, gr.
    rewrite lookup_delete_ne; [done|]. intros <-. assert (gr = fr) by congruence. subst. congruence.
  - intros a t Ha Hcb. destruct (C5 a t Ha Hcb) as (g & gr & Hg & Hheld). exists g, gr.
    rewrite lookup_delete_ne; [done|]. intros <-. assert (gr = fr) by congruence. subst. congruence.
  - intros x Hx. destruct (C6 x Hx) as [(g & gr & -> & Hg & Hpk)|(id & i & fd & ev & -> & E & Htm)].
    + left. exists g, gr. rewrite lookup_delete_ne; [done|]. intros <-. by apply queued_in in Hx.
    + right. exists id, i, fd, ev. split_and!; [done..|]. intros g gr [_ Hg]%lookup_delete_Some. by eapply Htm.
  - intros id cl E. rewrite length_insert. by eapply C7.
Qed.

(** ** Waiters, timers and time-outs *)
(** One waiter is woken. *)
Lemma core_wake m q h infos clos frames now fd ev w :
  core m q h infos clos frames now → m !! (fd, ev) = Some w →
  core (put m fd ev None) (q ++ [task_of w]) h infos clos frames now.
Proof.
  intros [C1 C2 C3 C4 C5 C6 C7] Hw. destruct (C4 _ _ Hw) as (f & fr & Hf & Hk & -> & Hp).
  destruct (C1 f fr Hf) as [_ _ Pl _]. unfold place_ok in Pl. rewrite Hp in Pl.
  destruct Pl as [[_ Pq]|[Pn _]]; [|congruence]. split; try done.
  - intros g gr Hg. destruct (C1 g gr Hg) as [A I P T]. split; [done|done| |done]. unfold place_ok in *.
    rewrite queued_app, queued_cons. cbn [task_of ft_fiber]. destruct (decide (g = f)) as [->|Hne].
    + assert (gr = fr) as -> by congruence. rewrite Hp, Hk, put_same, Pq, decide_True by done. by right.
    + rewrite (decide_False (P := Some f = Some g)) by congruence. rewrite Nat.add_0_r.
      destruct (key gr) as [fd' ev'] eqn:Ek. rewrite put_other; [done|]. intros E. apply Hne, (C2 g f gr fr); [done|done|congruence].
  - intros k w' Ew. apply C4. destruct (decide (k = (fd, ev))) as [->|Hne]; [by rewrite put_same in Ew|].
    destruct k. by rewrite put_other in Ew.
  - intros x [Hx|Hx%list_elem_of_singleton]%elem_of_app; [by apply C6|]. subst x. left. by exists f, fr.
Qed.

Lemma core_clear m q h infos clos frames now fd ev :
  core m q h infos clos frames now →
  core (put m fd ev None) (q ++ (task_of <$> option_list (m !! (fd, ev)))) h infos clos frames now.
Proof.
  intros Hc. destruct (m !! (fd, ev)) as [w|] eqn:Ew; [by apply core_wake|].
  change (put m fd ev None) with (delete (fd, ev) m). rewrite delete_id by done. cbn. by rewrite app_nil_r.
Qed.
(** What [cancelEvent], [cancelAll] and a report do to the waiters. *)
Lemma core_call m q h infos clos frames now ok c r m' ws :
  core m q h infos clos frames now → spec_call ok c m = (r, m', ws) →
  match c with CAdd _ _ _ | CDel _ _ => False | _ => True end →
  core m' (q ++ (task_of <$> ws)) h infos clos frames now.
Proof.
  intros Hc. destruct c as [fd ev w|fd ev|fd ev|fd|fd mask]; cbn [spec_call]; try done; intros E _.
  - destruct (m !! (fd, ev)) as [w|] eqn:Ew; [destruct ok|]; injection E as <- <- <-; rewrite ?app_nil_r; try done.
    by apply core_wake.
  - destruct (_ =? 0); [|destruct ok]; injection E as <- <- <-; rewrite ?app_nil_r; try done.
    apply (core_clear _ _ _ _ _ _ _ fd READ) in Hc. apply (core_clear _ _ _ _ _ _ _ fd WRITE) in Hc.
    rewrite put_other in Hc by done. by rewrite fmap_app, app_assoc.
  - destruct ok; injection E as <- <- <-; rewrite ?app_nil_r; try done. unfold ready_waiters, ready_left.
    rewrite fmap_app, app_assoc. destruct (reported m fd mask READ).
    + apply (core_clear _ _ _ _ _ _ _ fd READ) in Hc. destruct (reported m fd mask WRITE); [|by rewrite app_nil_r].
      apply (core_clear _ _ _ _ _ _ _ fd WRITE) in Hc. by rewrite put_other in Hc by done.
    + rewrite app_nil_r. destruct (reported m fd mask WRITE); [|by rewrite app_nil_r]. by apply core_clear.
Qed.

(** A tick of the clock fires timers, each of which is some frame's own. *)
Lemma core_tick m q h infos clos frames now new h' :
  core m q h infos clos frames now →
  (∀ x, x ∈ new → ∃ a t cb, h !! a = Some t ∧ Timer.m_cb t = Some cb ∧ Timer.m_next t ≤ now ∧
     x = cb_task (Z.to_nat (Timer.cb_id cb)) (-1)) →
  (∀ a, h' !! a = h !! a ∨ ∃ t, h !! a = Some t ∧ h' !! a = Some (Timer.set_cb None t)) →
  core m (q ++ new) h' infos clos frames now.
Proof.
  intros [C1 C2 C3 C4 C5 C6 C7] Hnew Hh. split; try done.
  - intros f fr Hf. destruct (C1 f fr Hf) as [A I P T]. split; [done|done| |].
    + unfold place_ok in *. rewrite queued_app, (queued_cbs f new), Nat.add_0_r; [done|].
      apply Forall_forall. intros x Hx. by destruct (Hnew x Hx) as (? & ? & ? & _ & _ & _ & ->).
    + revert T. apply timer_ok_mono. intros a t Ha Ho. destruct (Hh a) as [E|(t0 & E0 & E)]; [exists t; by rewrite E|].
      assert (t0 = t) as -> by congruence. eauto using own_timer_dead.
  - intros a t Ha Hcb. destruct (Hh a) as [E|(t0 & E0 & E)]; [apply (C5 a t); congruence|].
    rewrite E in Ha. injection Ha as <-. by destruct Hcb.
  - intros x [Hx|Hx]%elem_of_app; [by apply C6|]. destruct (Hnew x Hx) as (a & t & cb & Ha & Hcb & Hn & ->).
    right. destruct (C5 a t Ha) as (f & fr & Hf & Hheld); [by rewrite Hcb|].
    destruct (C1 f fr Hf) as [_ _ _ T]. unfold timer_ok in T.
    assert (c_to (fr_call fr) ≠ NO_TIMEOUT ∧ own_timer clos fr t) as (Hto & _ & Hst & Hown).
    { destruct (fr_at fr); try done; cbn in Hheld; subst timer; destruct T as [? (t' & ? & ?)]; split; congruence. }
    destruct (Hown cb Hcb) as (id & -> & Hcl). exists id, (c_info (fr_call fr)), (c_fd (fr_call fr)), (c_event (fr_call fr)).
    cbn [Timer.cb_id]. rewrite Nat2Z.id. split_and!; [done..|]. intros g gr Hg Hi.
    assert (g = f) as -> by (by eapply (C3 g f gr fr)). assert (gr = fr) as -> by congruence. split; [done|lia].
Qed.

(** A task that is no fiber's is taken from the queue. *)
Lemma core_dequeue m q1 x q2 h infos clos frames now :
  core m (q1 ++ x :: q2) h infos clos frames now → ft_fiber x = None → core m (q1 ++ q2) h infos clos frames now.
Proof.
  intros [C1 C2 C3 C4 C5 C6 C7] Hx. split; try done.
  - intros f fr Hf. destruct (C1 f fr Hf) as [A I P T]. split; [done..| |done]. unfold place_ok in *.
    rewrite queued_app in P |- *. rewrite queued_cons, Hx in P. done.
  - intros y Hy. apply C6. set_solver.
Qed.
(** A time-out marks the [timer_info]. *)
Lemma core_mark m q h infos clos frames now i :
  core m q h infos clos frames now → is_Some (infos !! i) →
  (∀ f fr, frames !! f = Some fr → c_info (fr_call fr) = i → timed_out now fr) →
  core m q h (<[i:=Some ETIMEDOUT]> infos) clos frames now.
Proof.
  intros [C1 C2 C3 C4 C5 C6 C7] Hi Ht. split; try done.
  - intros f fr Hf. destruct (C1 f fr Hf) as [A (x & I1 & I2) P T]. split; [done| |done|done].
    destruct (decide (c_info (fr_call fr) = i)) as [E|Hne].
    + exists ETIMEDOUT. rewrite E, list_lookup_insert_eq by (by apply lookup_lt_is_Some). split; [done|]. right. split; [done|]. by apply (Ht f).
    + exists x. by rewrite list_lookup_insert_ne.
  - intros id cl E. rewrite length_insert. by eapply C7.
Qed.

(** ** The moves of a call *)
(** It stops waiting: out of the queue, its timer cancelled. *)
Lemma core_leave m q q' h infos clos frames now f fr p :
  core m q h infos clos frames now → frames !! f = Some fr → p = Attempt ∨ p = AskError →
  (if is_parked (fr_at fr) then ∃ q1 q2, q = q1 ++ fiber_task f (-1) :: q2 ∧ q' = q1 ++ q2 else q' = q) →
  core m q' (kill (held_timer (fr_at fr)) h) infos clos (<[f:=at_point p fr]> frames) now.
Proof.
  intros Hc Hf Hp Hq. destruct (co_frame _ _ _ _ _ _ _ Hc f fr Hf) as [_ _ Pl _].
  assert (is_parked p = false) as Hpp by (by destruct Hp as [-> | ->]).
  assert (m !! key fr = None ∧ queued f q' = 0%nat ∧ (∀ g, g ≠ f → queued g q' = queued g q) ∧ ∀ x, x ∈ q' → x ∈ q)
    as (Hm & Hq0 & Hqo & Hqs).
  { unfold place_ok in Pl. destruct (is_parked (fr_at fr)); [|by subst q'; naive_solver].
    destruct Hq as (q1 & q2 & -> & ->). rewrite queued_app, queued_cons, decide_True in Pl by done.
    rewrite !queued_app. destruct Pl as [[_ ?]|[Hn ?]]; [lia|]. split_and!; [done|lia| |set_solver].
    intros g Hne. rewrite !queued_app, queued_cons, decide_False; [done|]. cbn. congruence. }
  eapply core_update; try done.
  - intros g gr Hne Hg. unfold place_ok. by rewrite Hqo.
  - intros g gr _ _. apply kill_timer_ok.
  - unfold place_ok. cbn [at_point fr_at]. by rewrite Hpp.
  - by destruct Hp as [-> | ->].
  - by left.
  - intros a t Ha Hcb. left. destruct (kill_lookup (held_timer (fr_at fr)) h a) as [E|(_ & t0 & _ & E)].
    + split; [|exists t; by rewrite <- E]. intros Eh. rewrite Eh in E. cbn in E. rewrite lookup_alter_eq in E.
      rewrite Eh in Ha. cbn in Ha. rewrite lookup_alter_eq in Ha. destruct (h !! a); [|done]. injection Ha as <-. by destruct Hcb.
    + rewrite E in Ha. injection Ha as <-. by destruct Hcb.
  - by left.
Qed.

(** It arms a timer. *)
Lemma core_arm m q h infos clos frames now f fr a :
  core m q h infos clos frames now → frames !! f = Some fr → fr_at fr = Arm → now < 2 ^ 63 →
  c_to (fr_call fr) ≠ NO_TIMEOUT → h !! a = None →
  let c := fr_call fr in
  core m q (<[a:=Timer.new_Timer now (c_to c) (Timer.mkCallback (Z.of_nat (length clos)) (Some (c_info c))) false]> h) infos
    (clos ++ [Timeout (c_info c) (c_fd c) (c_event c)]) (<[f:=at_point (Add (Some a)) fr]> frames) now.
Proof.
  intros Hc Hf Hp Hnow Hto Ha c. destruct (co_frame _ _ _ _ _ _ _ Hc f fr Hf) as [(_ & _ & Hr & Hst) _ Pl _].
  destruct Hr as [?|Hr]; [done|]. unfold place_ok in Pl. rewrite Hp in Pl. cbn in Pl.
  eapply core_update; try done.
  - intros g gr _ _. apply timer_ok_mono. intros b t Hb (O1 & O2 & O3). exists t.
    rewrite lookup_insert_ne by (intros ->; congruence). split; [done|]. unfold own_timer. split_and!; [done..|]. intros cb Hcb.
    destruct (O3 cb Hcb) as (id & -> & Hid). exists id. split; [done|]. by apply lookup_app_l_Some.
  - unfold timer_ok. cbn. split; [done|]. eexists. rewrite lookup_insert_eq. split; [done|]. unfold own_timer. split_and!; [done| |].
    + subst c. cbn. rewrite wrap_small by lia. lia.
    + cbn. intros cb [= <-]. exists (length clos). split; [done|]. by rewrite lookup_app_r, Nat.sub_diag by lia.
  - by left.
  - intros b t. rewrite lookup_insert_Some. rewrite Hp. intros [[<- <-]|[Hne Hb]] Hcb; [by right|]. left. eauto.
  - intros id cl Hid. by apply lookup_app_l_Some.
  - intros id cl. rewrite lookup_app_Some. intros [?|[_ Hid]]; [by left|right]. by apply list_lookup_singleton_Some in Hid as [_ <-].
Qed.
Lemma core_arm_none m q h infos clos frames now f fr :
  core m q h infos clos frames now → frames !! f = Some fr → fr_at fr = Arm → c_to (fr_call fr) = NO_TIMEOUT →
  core m q h infos clos (<[f:=at_point (Add None) fr]> frames) now.
Proof.
  intros Hc Hf Hp Hto. destruct (co_frame _ _ _ _ _ _ _ Hc f fr Hf) as [_ _ Pl _]. unfold place_ok in Pl. rewrite Hp in Pl.
  eapply core_update; try done; [by left| |by left]. intros a t Ha Hcb. left. rewrite Hp. eauto.
Qed.

(** It is registered and suspended. *)
Lemma core_park m q h infos clos frames now f fr o :
  core m q h infos clos frames now → frames !! f = Some fr → fr_at fr = Add o →
  let c := fr_call fr in
  core (put m (c_fd c) (c_event c) (Some (Resume f))) q h infos clos (<[f:=at_point (Parked o) fr]> frames) now.
Proof.
  intros Hc Hf Hp c. destruct (co_frame _ _ _ _ _ _ _ Hc f fr Hf) as [_ _ Pl Ti]. unfold place_ok in Pl. rewrite Hp in Pl.
  destruct Pl as [Pm Pq]. eapply core_update; try done.
  - intros g gr Hne Hg. unfold place_ok. destruct (key gr) as [fd ev] eqn:Ek. rewrite put_other; [done|]. intros E.
    apply Hne. eapply co_excl; [done..|]. by rewrite Ek.
  - left. split; [|done]. unfold key, at_point, fr_call. apply put_same.
  - unfold timer_ok in *. by rewrite Hp in Ti.
  - intros [fd ev] w. destruct (decide ((fd, ev) = key fr)) as [[= -> ->]|Hne].
    + rewrite put_same. intros [= <-]. by right.
    + rewrite put_other by done. by left.
  - intros a t Ha Hcb. destruct (decide (o = Some a)) as [->|Hne]; [by right|]. left. rewrite Hp. split; [done|]. eauto.
  - by left.
Qed.
End core.
