(* ===== verification/HookSys.v ===== *)
(** * Suspended calls in the running system

    The steps of the calls, of the idle loop, of the tasks the scheduler takes
    from its queue and of [close], interleaved in any order; every state they
    reach satisfies the invariant of HookIO. *)
From S2P Require Import Prelude Fiber Scheduler SchedulerSpec SchedulerThms IOManager IOManagerSpec IOManagerThms FdManager Hook HookIO.
From S2P Require Timer.

Section system.
#[local] Set Default Proof Using "All".
Context {K D : Type} `{EpollLaws K} `{SocketCalls D}.
Implicit Types (w : World K D).

(** [s_flight]: the [cancelEvent]s that time-outs are about to make. *)
Record Sys := mkSys { s_w : World K D; s_now : Z; s_frames : gmap nat frame; s_flight : list (Z * Z) }.
Definition timers_of w : Timer.TimerManager := io_timers (w_io w).
Definition queue_of w : list FiberAndThread := m_fibers (io_sched (w_io w)).
(** The scheduler takes a task: the queue without it. *)
Definition set_queue q w : World K D := set_io (with_sched (with_queue q (io_sched (w_io w))) (w_io w)) w.
(** The name of a timer's callback among the tasks. *)
Definition task_name (cb : Timer.callback) : nat := Z.to_nat (Timer.cb_id cb).

Inductive label := Tau | Returned (f : nat) (fr : frame) (i : input) (n : Z) (errno : option Z).
Definition frames_after (f : nat) (fr : frame) (r : next) (frames : gmap nat frame) : gmap nat frame :=
  match r with Go p => <[f:=at_point p fr]> frames | Return _ _ => delete f frames end.
(** A return is labelled with what the outside answered in that step. *)
Definition label_of (f : nat) (fr : frame) (i : input) (r : next) : label :=
  match r with Go _ => Tau | Return n e => Returned f fr i n e end.

(** No two calls wait for the same event of one descriptor; time-outs and
    the clock are below [2^63]; a new timer has a new address; reports are not stale.
    A suspended call goes on when the scheduler takes its fiber from the queue. *)
Inductive step : Sys → label → Sys → Prop :=
| st_time w now now' frames fl : now ≤ now' < 2 ^ 63 → step (mkSys w now frames fl) Tau (mkSys w now' frames fl)
| st_fds w fds now frames fl : step (mkSys w now frames fl) Tau (mkSys (set_fds fds w) now frames fl)
| st_enter w now frames fl f fd ev so ms c w' :
    frames !! f = None → queued f (queue_of w) = 0%nat →
    (do_io true fd ev so w = (Ok (Enter c), w') ∨ ev = WRITE ∧ connect_with_timeout true fd ms w = (Ok (Enter c), w')) →
    range_ok now (mkFrame c Attempt now) → (∀ g gr, frames !! g = Some gr → key gr ≠ (c_fd c, c_event c)) →
    step (mkSys w now frames fl) Tau (mkSys w' now (<[f:=mkFrame c Attempt now]> frames) fl)
| st_call w now frames fl f fr i r w' :
    frames !! f = Some fr → is_parked (fr_at fr) = false → Timer.heap (timers_of w) !! in_timer i = None →
    step_call true now f (fr_call fr) (fr_at fr) i w = (Ok r, w') →
    step (mkSys w now frames fl) (label_of f fr i r) (mkSys w' now (frames_after f fr r frames) fl)
| st_resume w now frames fl f fr q1 q2 i r w' :
    frames !! f = Some fr → is_parked (fr_at fr) = true → queue_of w = q1 ++ fiber_task f (-1) :: q2 →
    step_call true now f (fr_call fr) (fr_at fr) i (set_queue (q1 ++ q2) w) = (Ok r, w') →
    step (mkSys w now frames fl) (label_of f fr i r) (mkSys w' now (frames_after f fr r frames) fl)
| st_timers w now frames fl probe :
    Timer.heap (timers_of w) !! probe = None →
    step (mkSys w now frames fl) Tau (mkSys (set_io (schedule_timers now probe task_name (w_io w)) w) now frames fl)
| st_ready w now frames fl fd mask m r w' :
    rep (w_io w) m → legal (CReady fd mask) (w_io w) m → on_io (run_call (CReady fd mask)) w = (Ok r, w') →
    step (mkSys w now frames fl) Tau (mkSys w' now frames fl)
| st_task w now frames fl q1 q2 id o w' :
    queue_of w = q1 ++ cb_task id (-1) :: q2 → run_closure id (set_queue (q1 ++ q2) w) = (Ok o, w') →
    step (mkSys w now frames fl) Tau (mkSys w' now frames (option_list o ++ fl))
| st_cancel w now frames fl1 fl2 fd ev r w' :
    on_io (cancelEvent fd ev) w = (Ok r, w') →
    step (mkSys w now frames (fl1 ++ (fd, ev) :: fl2)) Tau (mkSys w' now frames (fl1 ++ fl2))
| st_close w now frames fl fd r w' :
    0 ≤ fd < 2 ^ 30 → close true true fd w = (Ok r, w') → step (mkSys w now frames fl) Tau (mkSys w' now frames fl).

(** ** The invariant *)
Record inv (s : Sys) (m : registry) : Prop := {
  iv_rep : rep (w_io (s_w s)) m;
  iv_timers : Timer.timers_ok (timers_of (s_w s));
  iv_clock : Timer.m_previouseTime (timers_of (s_w s)) ≤ s_now s < 2 ^ 63 ∧ 0 ≤ s_now s;
  iv_flight : Forall (λ e, 0 ≤ e.1 ∧ is_event e.2) (s_flight s);
  iv_core : core m (queue_of (s_w s)) (Timer.heap (timers_of (s_w s))) (w_infos (s_w s)) (w_closures (s_w s))
    (s_frames s) (s_now s) }.

(** ** What the operations do to the timers *)
Lemma cancel_previous a tm : Timer.m_previouseTime (Timer.cancel a tm).2 = Timer.m_previouseTime tm.
Proof. unfold Timer.cancel. repeat (case_match; simplify_eq/=; try done). Qed.
Lemma fire_loop_previous now ex : ∀ tm, Timer.m_previouseTime (Timer.fire_loop now ex tm).2 = Timer.m_previouseTime tm.
Proof.
  induction ex as [|a ex IH]; intros tm; cbn [Timer.fire_loop]; [done|]. destruct (Timer.heap tm !! a) as [t|]; [|done].
  match goal with |- context [Timer.fire_loop now ex ?x] => specialize (IH x); destruct (Timer.fire_loop now ex x) end.
  cbn in *. rewrite IH. by destruct (Timer.m_recurring t).
Qed.
Lemma listExpiredCb_previous now probe tm : Timer.m_previouseTime tm ≤ now →
  Timer.m_previouseTime (Timer.listExpiredCb now probe tm).2 ≤ now.
Proof.
  intros Hp. unfold Timer.listExpiredCb. destruct (Timer.m_timers tm) as [|a l]; [done|].
  rewrite Timer.detectClockRollover_spec. destruct (_ && _); [done|].
  destruct (Timer.split_expired _ _ _ _) as [ex rest]. by rewrite fire_loop_previous.
Qed.

Lemma addTimer_effect now a ms cb rec tm :
  Timer.m_previouseTime (Timer.addTimer now a ms cb rec tm).2 = Timer.m_previouseTime tm ∧
  Timer.heap (Timer.addTimer now a ms cb rec tm).2 = <[a:=Timer.new_Timer now ms cb rec]> (Timer.heap tm).
Proof. unfold Timer.addTimer, Timer.insertTimer. cbn. by destruct (_ && _). Qed.

Lemma cancel_timer_ok o w : Timer.timers_ok (timers_of w) →
  (∀ a, o = Some a → is_Some (Timer.heap (timers_of w) !! a)) →
  ∃ tm, cancel_timer o w = (Ok tt, set_io (with_timers tm (w_io w)) w) ∧ Timer.timers_ok tm ∧
    Timer.heap tm = kill o (Timer.heap (timers_of w)) ∧ Timer.m_previouseTime tm = Timer.m_previouseTime (timers_of w).
Proof.
  intros Hok Ho. destruct o as [a|].
  - destruct (Ho a eq_refl) as [t Ht]. destruct (Timer.cancel_ok (timers_of w) a t Hok Ht) as (tm & E & Hok' & Hh & _).
    exists tm. split_and!; [|done| |].
    + unfold cancel_timer, timers_do, bind, getst, putst, lift, ret. fold (timers_of w). by rewrite E.
    + rewrite Hh. cbn. symmetry. apply map_eq. intros b. destruct (decide (a = b)) as [<-|Hne].
      * by rewrite lookup_alter_eq, Ht, lookup_insert_eq.
      * by rewrite lookup_alter_ne, lookup_insert_ne.
    + pose proof (cancel_previous a (timers_of w)) as Ep. by rewrite E in Ep.
  - exists (timers_of w). split_and!; try done. cbn. unfold ret, timers_of. by destruct w as [[] ? ? ?].
Qed.

(** Changing the timers alone. *)
Lemma rep_timers io tm m : rep io m → rep (with_timers tm io) m.
Proof. intros [Hs Hk]. split; [by apply (shape_ext io)|done]. Qed.
Lemma rep_sched io s m : rep io m → rep (with_sched s io) m.
Proof. intros [Hs Hk]. split; [by apply (shape_ext io)|done]. Qed.

(** The frame's timer exists. *)
Lemma held_exists h clos fr a : timer_ok h clos fr → held_timer (fr_at fr) = Some a → is_Some (h !! a).
Proof.
  intros T Hh. unfold timer_ok in T. destruct (fr_at fr); try done; cbn in Hh; subst timer; destruct T as (_ & t & -> & _); done.
Qed.

(** ** The end of a step of a call *)
(** The state after [r], if its world leaves the core of the moved frame. *)
Lemma inv_return w now frames fl f fr m :
  inv (mkSys w now (<[f:=at_point Attempt fr]> frames) fl) m →
  inv (mkSys (set_infos (<[c_info (fr_call fr):=None]> (w_infos w)) w) now (delete f frames) fl) m.
Proof.
  intros [I1 I2 I3 I4 I5]. split; try done. cbn in *. rewrite <- (delete_insert_eq (M := gmap nat) frames f (at_point Attempt fr)).
  exact (core_return _ _ _ _ _ _ _ f _ I5 (lookup_insert_eq _ _ _) eq_refl eq_refl).
Qed.

(** What a call may return, by the point it returns from in the world [w], when
    the outside answers [i] there: the first answer of the system call that is no
    interruption (for [connect] the only answer), which is not one that waits;
    -1 when the kernel refuses the event; -1 with [ETIMEDOUT] when the time-out
    has marked the call; and for [connect], the socket's error. *)
Definition result_ok w (now : Z) (f : nat) (fr : frame) (i : input) (n : Z) (errno : option Z) : Prop :=
  let c := fr_call fr in
  match fr_at fr with
  | Attempt =>
    if c_connect c
    then ∃ e, head (in_answers i) = Some (n, e) ∧ errno = (if n =? 0 then None else Some e) ∧ ¬ (n = -1 ∧ e = EINPROGRESS)
    else ∃ e l1 l2, in_answers i = l1 ++ (n, e) :: l2 ∧ Forall (λ a, a = (-1, EINTR)) l1 ∧ errno = Some e ∧
           ¬ (n = -1 ∧ e = EINTR) ∧ ¬ (n = -1 ∧ e = EAGAIN)
  | Arm => False
  | Add _ => n = -1 ∧ errno = None ∧ c_connect c = false ∧
      ∃ m, rep (w_io w) m ∧ (answer (CAdd (c_fd c) (c_event c) (Resume f)) m (m_epfd (w_io w))).1 = false
  | Parked _ => n = -1 ∧ errno = Some ETIMEDOUT ∧ w_infos w !! c_info c = Some (Some ETIMEDOUT) ∧ timed_out now fr
  | AskError =>
    let '(rt, error) := in_error i in
    if rt =? -1 then n = -1 ∧ errno = None
    else if error =? 0 then n = 0 ∧ errno = None else n = -1 ∧ errno = Some error
  end.

Lemma uninterrupted_ok l n e : uninterrupted l = Some (n, e) →
  ∃ l1 l2, l = l1 ++ (n, e) :: l2 ∧ Forall (λ a, a = (-1, EINTR)) l1 ∧ ¬ (n = -1 ∧ e = EINTR).
Proof.
  induction l as [|[n' e'] l IH]; [done|]. cbn. destruct (_ && _) eqn:E.
  - apply andb_true_iff in E as [->%Z.eqb_eq ->%Z.eqb_eq]. intros (l1 & l2 & -> & Hl1 & Hl2)%IH.
    exists ((-1, EINTR) :: l1), l2. split; [done|]. split; [by constructor|done].
  - intros [= -> ->]. apply andb_false_iff in E. rewrite !Z.eqb_neq in E. exists [], l. split; [done|]. split; [done|tauto].
Qed.
Lemma attempt_ok w now f fr i n e : fr_at fr = Attempt →
  (if c_connect (fr_call fr) then head (in_answers i) else uninterrupted (in_answers i)) = Some (n, e) →
  match attempt (fr_call fr) n e with Go p => p = Arm | Return n' e' => result_ok w now f fr i n' e' end.
Proof.
  intros Hp Hi. unfold attempt, result_ok. rewrite Hp. destruct (c_connect (fr_call fr)).
  - destruct (Z.eqb_spec n 0) as [->|Hn]; [exists e; naive_solver|].
    destruct (Z.eqb_spec n (-1)), (Z.eqb_spec e EINPROGRESS); cbn; try done; exists e;
      rewrite ?(proj2 (Z.eqb_neq n 0)) by done; split_and!; naive_solver.
  - apply uninterrupted_ok in Hi as (l1 & l2 & Hl & Hl1 & Hl2).
    destruct (Z.eqb_spec n (-1)), (Z.eqb_spec e EAGAIN); cbn; try done; exists e, l1, l2; split_and!; naive_solver.
Qed.

(** ** One step of a call *)
Definition target (r : next) : point := match r with Go p => p | Return _ _ => Attempt end.
(** The step [r] leads from [w] to [w'] with the frame moved. *)
Definition moved w now frames fl f fr i r w' : Prop :=
  (∃ m, inv (mkSys w' now (<[f:=at_point (target r) fr]> frames) fl) m) ∧
  match r with Return n e => result_ok w now f fr i n e | Go _ => True end.

Section call.
Context (w : World K D) (now : Z) (frames : gmap nat frame) (fl : list (Z * Z)) (m : registry) (f : nat) (fr : frame) (i : input).
Hypothesis Hinv : inv (mkSys w now frames fl) m.
Hypothesis Hf : frames !! f = Some fr.

Lemma step_attempt n e : fr_at fr = Attempt →
  (if c_connect (fr_call fr) then head (in_answers i) else uninterrupted (in_answers i)) = Some (n, e) →
  moved w now frames fl f fr i (attempt (fr_call fr) n e) w.
Proof.
  intros Hp Hi. pose proof (attempt_ok w now f fr i n e Hp Hi) as Ha. destruct Hinv as [I1 I2 I3 I4 I5]. split.
  - exists m. split; try done. cbn in *. apply core_point; try done; rewrite ?Hp; try done;
      destruct (attempt _ n e) as [|p]; subst; done.
  - by destruct (attempt _ n e).
Qed.

Lemma step_arm a : fr_at fr = Arm → Timer.heap (timers_of w) !! a = None →
  ∃ r w', arm true now a (fr_call fr) w = (Ok r, w') ∧ moved w now frames fl f fr i r w'.
Proof.
  intros Hp Ha. destruct Hinv as [I1 I2 I3 I4 I5]. cbn in *. unfold arm.
  destruct (Z.eqb_spec (c_to (fr_call fr)) NO_TIMEOUT) as [Et|Et].
  - eexists _, w. split; [done|]. split; [|done]. exists m. split; try done. by apply core_arm_none.
  - cbn [negb]. unfold new_closure, timers_do, bind, getst, putst, ret. cbn [w_io set_closures]. fold (timers_of w).
    set (c := fr_call fr) in *. set (cb := Timer.mkCallback (Z.of_nat (length (w_closures w))) (Some (c_info c))).
    unfold Timer.addConditionTimer. fold cb.
    pose proof (Timer.addTimer_ok (timers_of w) now a (c_to c) cb false I2 Ha) as Hok.
    destruct (addTimer_effect now a (c_to c) cb false (timers_of w)) as [E1 E2].
    destruct (Timer.addTimer now a (c_to c) cb false (timers_of w)) as [b tm]. cbn [snd] in *.
    eexists _, _. split; [done|]. split; [|done]. exists m. split; cbn; try done.
    + by apply rep_timers.
    + by rewrite E1.
    + rewrite E2. apply core_arm; try done; apply I3.
Qed.

(** The waiting is over: the timer is cancelled in [w0], whose queue is [q']. *)
Lemma step_leave w0 (r : next) : rep (w_io w0) m → timers_of w0 = timers_of w →
  w_infos w0 = w_infos w → w_closures w0 = w_closures w →
  (if is_parked (fr_at fr) then ∃ q1 q2, queue_of w = q1 ++ fiber_task f (-1) :: q2 ∧ queue_of w0 = q1 ++ q2
   else queue_of w0 = queue_of w) →
  target r = Attempt ∨ target r = AskError →
  match r with Return n e => result_ok w now f fr i n e | Go _ => True end →
  ∃ w', cancel_timer (held_timer (fr_at fr)) w0 = (Ok tt, w') ∧ w_infos w' = w_infos w ∧ moved w now frames fl f fr i r w'.
Proof.
  intros Hrep Et Ei Ec Hq Ht Hr. destruct Hinv as [I1 I2 I3 I4 I5]. cbn in *.
  destruct (cancel_timer_ok (held_timer (fr_at fr)) w0) as (tm & E & Hok & Hh & Hp).
  - by rewrite Et.
  - intros a Ea. rewrite Et. eapply held_exists; [|done]. by eapply fk_timer, co_frame.
  - eexists. split; [exact E|]. split; [done|]. split; [|done]. exists m. rewrite Et in *. split; cbn; try done.
    + by apply rep_timers.
    + by rewrite Hp.
    + rewrite Hh, Ei, Ec. change (queue_of _) with (queue_of w0). by eapply core_leave.
Qed.

Lemma step_add o : fr_at fr = Add o →
  ∃ r w', add_event true f o (fr_call fr) w = (Ok r, w') ∧ moved w now frames fl f fr i r w'.
Proof.
  intros Hp. pose proof Hinv as [I1 I2 I3 I4 I5]. cbn in *.
  destruct (co_frame _ _ _ _ _ _ _ I5 f fr Hf) as [(Hfd & Hev & _) _ Pl _]. unfold place_ok in Pl. rewrite Hp in Pl. destruct Pl as [Pm Pq].
  destruct (call_refines (CAdd (c_fd (fr_call fr)) (c_event (fr_call fr)) (Resume f)) (w_io w) m I1) as (r & m' & ws & io' & Hs & Hc & Hr' & Hq & Ht & _).
  { split; [lia|]. by split. }
  unfold add_event. cbn [negb]. unfold bind at 1, on_io. cbn in Hc. rewrite Hc. cbn [spec_call] in Hs.
  destruct (answer _ m _).1 eqn:Ek; injection Hs as <- <- <-.
  - eexists _, _. split; [done|]. split; [|done]. exists (put m (c_fd (fr_call fr)) (c_event (fr_call fr)) (Some (Resume f))).
    split; cbn; try done; [unfold timers_of; cbn; by rewrite Ht..|]. unfold queue_of, timers_of. cbn. rewrite Hq, Ht. by eapply core_park.
  - cbn [Z.eqb]. set (r := if c_connect (fr_call fr) then Go AskError else Return (-1) None).
    destruct (step_leave (set_io io' w) r) as (w' & E & _ & Hm); try done.
    + rewrite Hp. unfold queue_of. cbn. by rewrite Hq.
    + subst r. destruct (c_connect (fr_call fr)); [by right|by left].
    + subst r. unfold result_ok. rewrite Hp. destruct (c_connect (fr_call fr)); [done|]. split_and!; try done. by exists m.
    + rewrite Hp in E. cbn in E. exists r, w'. split; [|done]. unfold bind. by rewrite E.
Qed.

Lemma step_wake q1 q2 o : fr_at fr = Parked o → queue_of w = q1 ++ fiber_task f (-1) :: q2 →
  ∃ r w', wake o (fr_call fr) (set_queue (q1 ++ q2) w) = (Ok r, w') ∧ moved w now frames fl f fr i r w'.
Proof.
  intros Hp Hq. pose proof Hinv as [I1 I2 I3 I4 I5]. cbn in *.
  destruct (co_frame _ _ _ _ _ _ _ I5 f fr Hf) as [_ (x & Hx & Hx') _ _].
  set (r := if negb (x =? 0) then Return (-1) (Some x) else Go (if c_connect (fr_call fr) then AskError else Attempt)).
  destruct (step_leave (set_queue (q1 ++ q2) w) r) as (w' & E & Ei & Hm); try done.
  - by apply rep_sched.
  - rewrite Hp. cbn. by exists q1, q2.
  - subst r. destruct (negb _); [by left|]. cbn. destruct (c_connect (fr_call fr)); [by right|by left].
  - subst r. unfold result_ok. rewrite Hp. destruct Hx' as [->|(-> & Ht)]; cbn; done.
  - rewrite Hp in E. cbn [held_timer] in E. exists r, w'. split; [|done]. unfold wake, bind, getst, ret. rewrite E, Ei, Hx. done.
Qed.

(** Each step of a call succeeds, given what the outside answers. *)
Definition answered (p : point) : Prop :=
  match p with
  | Attempt => if c_connect (fr_call fr) then in_answers i ≠ [] else is_Some (uninterrupted (in_answers i))
  | _ => True
  end.
Lemma call_step_ok w0 : answered (fr_at fr) → Timer.heap (timers_of w) !! in_timer i = None →
  (if is_parked (fr_at fr) then ∃ q1 q2, queue_of w = q1 ++ fiber_task f (-1) :: q2 ∧ w0 = set_queue (q1 ++ q2) w else w0 = w) →
  ∃ r w', step_call true now f (fr_call fr) (fr_at fr) i w0 = (Ok r, w') ∧
    (∃ m', inv (mkSys w' now (frames_after f fr r frames) fl) m') ∧
    match r with Return n e => result_ok w now f fr i n e | Go _ => True end.
Proof.
  intros Ha Hi Hw0.
  assert (∃ r w1, advance true now f (fr_call fr) (fr_at fr) i w0 = (Ok r, w1) ∧ moved w now frames fl f fr i r w1)
    as (r & w1 & E & (m' & Hm) & Hr).
  { destruct (fr_at fr) as [| |o|o|] eqn:Hp; cbn [is_parked] in Hw0; subst; cbn [advance].
    - destruct (if c_connect (fr_call fr) then head (in_answers i) else uninterrupted (in_answers i)) as [[n e]|] eqn:Ea.
      + exists (attempt (fr_call fr) n e), w. split; [done|]. by apply step_attempt.
      + exfalso. cbn in Ha. destruct (c_connect (fr_call fr)); [by destruct (in_answers i)|by rewrite Ea in Ha; destruct Ha].
    - by apply step_arm.
    - by apply step_add.
    - destruct Hw0 as (q1 & q2 & Hq & ->). by apply step_wake.
    - exists (ask_error (in_error i).1 (in_error i).2), w. split; [done|]. unfold ask_error. set (r := if _ =? -1 then _ else _).
      assert (target r = Attempt) as Et by (subst r; by destruct (_ =? -1); [|destruct (_ =? 0)]).
      split.
      + exists m. destruct Hinv as [I1 I2 I3 I4 I5]. rewrite Et. split; try done. cbn in *. apply core_point; try done; by rewrite Hp.
      + subst r. unfold result_ok. rewrite Hp. destruct (in_error i) as [rt error]. cbn [fst snd]. destruct (_ =? -1); [done|]. by destruct (_ =? 0). }
  unfold step_call, bind at 1. rewrite E. destruct r as [n e|p].
  - eexists _, _. split; [done|]. split; [|done]. exists m'. by apply inv_return.
  - exists (Go p), w1. split; [done|]. split; [|done]. by exists m'.
Qed.
End call.

(** ** The other steps *)
Lemma begin_ok w fd ev so ms c w' :
  do_io true fd ev so w = (Ok (Enter c), w') ∨ ev = WRITE ∧ connect_with_timeout true fd ms w = (Ok (Enter c), w') →
  w_io w' = w_io w ∧ w_closures w' = w_closures w ∧ w_infos w' = w_infos w ++ [Some 0] ∧ c_info c = length (w_infos w).
Proof.
  intros Hb. destruct Hb as [E|[_ E]]; [unfold do_io in E|unfold connect_with_timeout in E];
    unfold begin_call, new_info, on_fds, fd_ctx, bind, getst, putst, lift, ret in E; cbn [negb] in E;
    repeat (case_match; simplify_eq/=; try done).
Qed.

Lemma inv_calls w now frames fl m c io' r : inv (mkSys w now frames fl) m →
  legal c (w_io w) m → match c with CAdd _ _ _ | CDel _ _ => False | _ => True end →
  run_call c (w_io w) = (Ok r, io') → ∃ m', inv (mkSys (set_io io' w) now frames fl) m'.
Proof.
  intros [I1 I2 I3 I4 I5] Hl Hc E. cbn in *.
  destruct (call_refines c (w_io w) m I1 Hl) as (r' & m' & ws & io1 & Hs & Hc' & Hr' & Hq & Ht & _).
  assert (io1 = io') as -> by congruence. exists m'. unfold timers_of in *.
  split; cbn; unfold timers_of, queue_of in *; cbn; rewrite ?Ht, ?Hq, ?schedule_work_queue; try done. by eapply core_call.
Qed.

Lemma cancelEvent_legal fd ev (io : IOManager K) m : 0 ≤ fd → is_event ev → legal (CCancel fd ev) io m.
Proof. by split. Qed.

Lemma close_io w fd r w' : close true true fd w = (Ok r, w') →
  w_infos w' = w_infos w ∧ w_closures w' = w_closures w ∧
  (w_io w' = w_io w ∨ ∃ b, cancelAll fd (w_io w) = (Ok b, w_io w')).
Proof.
  unfold close, bind, on_fds, on_io, ret. cbn [negb]. intros E.
  destruct (get fd false (w_fds w)) as [[p| | |] fds]; try done. cbn [w_io set_fds] in E.
  case_bool_decide.
  - destruct (cancelAll fd (w_io (set_fds fds w))) as [[b| | |] io] eqn:Ec; cbn in E; try done.
    repeat (case_match; simplify_eq/=; try done); split_and!; try done; right; by exists b.
  - repeat (case_match; simplify_eq/=; try done); split_and!; try done; by left.
Qed.

Lemma inv_timers w now frames fl m probe : inv (mkSys w now frames fl) m → Timer.heap (timers_of w) !! probe = None →
  inv (mkSys (set_io (schedule_timers now probe task_name (w_io w)) w) now frames fl) m.
Proof.
  intros [I1 I2 I3 I4 I5] Hp. cbn in *. destruct (timers_step (w_io w) m now probe task_name I1 I2 Hp) as (T1 & _ & _ & T2 & T3).
  pose proof (listExpiredCb_previous now probe (timers_of w) ltac:(lia)) as Hprev.
  pose proof (Timer.listExpiredCb_spec now probe (timers_of w) I2 Hp) as Hl.
  assert (io_timers (schedule_timers now probe task_name (w_io w)) = (Timer.listExpiredCb now probe (timers_of w)).2) as Et.
  { unfold schedule_timers. fold (timers_of w). by destruct (Timer.listExpiredCb now probe (timers_of w)) as [[|? ?] tm]. }
  destruct (Timer.listExpiredCb now probe (timers_of w)) as [cbs tm]. destruct Hl as (_ & _ & _ & _ & Hh). cbn [snd] in *.
  assert (¬ Timer.clock_rolled now (timers_of w)) as Hnr by (unfold Timer.clock_rolled; lia).
  set (io1 := schedule_timers now probe task_name (w_io w)) in *. clearbody io1.
  split; cbn; unfold timers_of; cbn; rewrite ?Et; try done; [congruence|lia|]. unfold queue_of in *. cbn. rewrite T3. eapply core_tick; [done| |].
  - intros x (cb & -> & Hcb)%list_elem_of_fmap. unfold due_callbacks in Hcb.
    apply list_elem_of_omap in Hcb as (a & Ha & Hcb). apply bind_Some in Hcb as (t & Ht & Hcb).
    exists a, t, cb. split_and!; [done|done| |done].
    unfold Timer.due in Ha. rewrite decide_False in Ha by done. apply list_elem_of_filter in Ha as [Ha _].
    unfold Timer.next_of in Ha. change (io_timers (w_io w)) with (timers_of w) in *. by rewrite Ht in Ha.
  - intros a. rewrite Hh. unfold Timer.ticked. destruct (Timer.heap (timers_of w) !! a) as [t|] eqn:Ht; [|by left]. cbn.
    destruct (decide (a ∈ Timer.due now (timers_of w))) as [Hd|]; [|by left]. right. exists t. split; [done|].
    assert (is_Some (Timer.m_cb t)) as Hcb.
    { destruct (Timer.to_live _ _ I2 a) as (t' & Ht' & Hcb); [apply Timer.due_or_kept with (now := now); by left|]. congruence. }
    destruct (co_live _ _ _ _ _ _ _ I5 a t Ht Hcb) as (f & fr & Hf & Hheld).
    pose proof (fk_timer _ _ _ _ _ _ _ _ (co_frame _ _ _ _ _ _ _ I5 f fr Hf)) as T. unfold timer_ok in T.
    assert (own_timer (w_closures w) fr t) as (-> & _); [|done].
    destruct (fr_at fr); try done; cbn in Hheld; subst timer; destruct T as (_ & t' & ? & ?); congruence.
Qed.

Lemma inv_task w now frames fl m q1 q2 id o w' : inv (mkSys w now frames fl) m →
  queue_of w = q1 ++ cb_task id (-1) :: q2 → run_closure id (set_queue (q1 ++ q2) w) = (Ok o, w') →
  inv (mkSys w' now frames (option_list o ++ fl)) m.
Proof.
  intros [I1 I2 I3 I4 I5] Hq E. cbn in *. rewrite Hq in I5.
  destruct (co_queue _ _ _ _ _ _ _ I5 (cb_task id (-1))) as [(f & fr & [=] & _)|(id' & i & fd & ev & [= <-] & Hcl & Ht)]; [set_solver|].
  destruct (co_clos _ _ _ _ _ _ _ I5 id _ Hcl) as (i' & fd' & ev' & [= <- <- <-] & Hi & Hfd & Hev).
  apply core_dequeue in I5; [|done].
  assert (inv (mkSys (set_queue (q1 ++ q2) w) now frames fl) m) as Hinv.
  { split; cbn; try done. by apply rep_sched. }
  unfold run_closure, bind, getst in E. cbn [w_closures set_queue set_io] in E. rewrite Hcl in E.
  unfold Timer.OnTimer in E. cbn [Timer.cb_cond] in E. destruct (alive _ i); [|by injection E as <- <-].
  unfold time_out, bind, getst, putst, ret in E. destruct (w_infos (set_queue (q1 ++ q2) w) !! i) as [[[| |]|]|] eqn:Ei;
    injection E as <- <-; try done.
  destruct Hinv as [J1 J2 J3 J4 J5]. split; try done; cbn in *.
  - constructor; [cbn; split; [lia|done]|done].
  - eapply core_mark; [done|by eexists|done].
Qed.

Lemma call_answered now f fr i w r w' :
  step_call true now f (fr_call fr) (fr_at fr) i w = (Ok r, w') → answered fr i (fr_at fr).
Proof.
  unfold step_call, bind. destruct (fr_at fr); try done. cbn [advance answered].
  destruct (c_connect (fr_call fr)); [by destruct (in_answers i)|by destruct (uninterrupted (in_answers i))].
Qed.

(** ** Every step keeps the invariant *)
Lemma sys_step_inv s l s' m : inv s m → step s l s' →
  (∃ m', inv s' m') ∧ match l with
                        | Tau => True
                        | Returned f fr i n e => s_frames s !! f = Some fr ∧ result_ok (s_w s) (s_now s) f fr i n e
                        end.
Proof.
  intros Hinv Hs. revert Hinv. destruct Hs as [w now now' frames fl Hn|w fds now frames fl|w now frames fl f fd ev so ms c w' Hf Hq Hb Hr Hk
    |w now frames fl f fr i r w' Hf Hp Hi E|w now frames fl f fr q1 q2 i r w' Hf Hp Hq E|w now frames fl probe Hp
    |w now frames fl fd mask m0 r w' Hr Hl E|w now frames fl q1 q2 id o w' Hq E|w now frames fl1 fl2 fd ev r w' E
    |w now frames fl fd r w' Hfd E]; intros Hinv.
  - split; [|done]. exists m. destruct Hinv as [I1 I2 I3 I4 I5]. cbn in *. split; cbn; try done; [lia|]. eapply core_time; [|done]. lia.
  - split; [|done]. exists m. destruct Hinv as [I1 I2 I3 I4 I5]. by split.
  - split; [|done]. exists m. destruct Hinv as [I1 I2 I3 I4 I5]. cbn in *. destruct (begin_ok _ _ _ _ _ _ _ Hb) as (E1 & E2 & E3 & E4).
    split; cbn; unfold timers_of, queue_of in *; rewrite ?E1, ?E2, ?E3; try done. by apply core_enter.
  - destruct (call_step_ok w now frames fl m f fr i Hinv Hf w) as (r1 & w1 & E1 & Hm & Hr); [by eapply call_answered|done|by rewrite Hp|].
    assert (r1 = r ∧ w1 = w') as [-> ->] by (split; congruence). split; [done|]. by destruct r.
  - destruct (call_step_ok w now frames fl m f fr (mkInput (in_answers i) (fresh (dom (Timer.heap (timers_of w)))) (in_error i)) Hinv Hf (set_queue (q1 ++ q2) w))
      as (r1 & w1 & E1 & Hm & Hr).
    + apply call_answered in E. by destruct (fr_at fr).
    + cbn. apply not_elem_of_dom, is_fresh.
    + rewrite Hp. by exists q1, q2.
    + assert (step_call true now f (fr_call fr) (fr_at fr) i (set_queue (q1 ++ q2) w) = (Ok r1, w1)) as E2 by (by destruct (fr_at fr)).
      assert (r1 = r ∧ w1 = w') as [-> ->] by (split; congruence). split; [done|]. destruct r; [|done].
      split; [done|]. unfold result_ok in *. by destruct (fr_at fr).
  - split; [|done]. exists m. by apply inv_timers.
  - split; [|done]. assert (m0 = m) as -> by (eapply shape_inj; [apply Hr|apply Hinv]).
    unfold on_io in E. destruct (run_call (CReady fd mask) (w_io w)) as [o io'] eqn:Ec. injection E as -> <-.
    by eapply inv_calls.
  - split; [|done]. exists m. by eapply inv_task.
  - split; [|done]. unfold on_io in E. destruct (cancelEvent fd ev (w_io w)) as [o io'] eqn:Ec. injection E as -> <-.
    pose proof (iv_flight _ _ Hinv) as Hfl. apply Forall_app in Hfl as [Hfl1 [[Hfd Hev] Hfl2]%Forall_cons].
    apply (inv_calls w now frames (fl1 ++ fl2) m (CCancel fd ev) io' (Z.b2z r)); [|by apply cancelEvent_legal|done|].
    + destruct Hinv as [I1 I2 I3 I4 I5]. split; try done. by apply Forall_app.
    + cbn. unfold as_int, bind. by rewrite Ec.
  - split; [|done]. destruct (close_io _ _ _ _ E) as (E1 & E2 & E3).
    assert (∀ io, (∃ m', inv (mkSys (set_io io w) now frames fl) m') → w_io w' = io → ∃ m', inv (mkSys w' now frames fl) m') as Hex.
    { intros io (m' & [I1 I2 I3 I4 I5]) <-. exists m'. cbn in *. unfold timers_of, queue_of in *.
      split; cbn; unfold timers_of, queue_of; rewrite ?E1, ?E2; done. }
    destruct E3 as [E3|(b & E3)].
    + apply (Hex (w_io w)); [|done]. exists m. destruct Hinv as [I1 I2 I3 I4 I5]. by split.
    + apply (Hex (w_io w')); [|done]. apply (inv_calls w now frames fl m (CCancelAll fd) (w_io w') (Z.b2z b)); [done|cbn; lia|done|].
      cbn. unfold as_int, bind. by rewrite E3.
Qed.
End system.
