(* ===== verification/HookThms.v ===== *)
(** * Hooked calls: properties

    Where a suspended call is, what a call may return and what it leaves behind,
    that it never fails on the way, that a time-out wakes it, and when a
    sleeping fiber wakes. *)
From S2P Require Import Prelude Fiber Scheduler SchedulerSpec SchedulerThms IOManager IOManagerSpec IOManagerThms FdManager Hook HookFd HookIO HookSys.
From S2P Require Timer.

Section thms.
#[local] Set Default Proof Using "All".
Context {K D : Type} `{EpollLaws K} `{SocketCalls D}.
Implicit Types (w : World K D) (s : Sys (K := K) (D := D)).

(** ** Runs *)
Definition tau_or_not s s' : Prop := ∃ l, step s l s'.
Abbreviation reaches := (rtc tau_or_not).
(** A fresh I/O manager without calls. *)
Definition sys_start (sch : Scheduler) (now : Z) (epfd : K) (fds : FdManager D) : Sys :=
  mkSys (mkWorld (new_IOManager sch now epfd) fds [] []) now ∅ [].

Lemma start_inv sch now epfd fds : m_fibers sch = [] → interest epfd = ∅ → 0 ≤ now < 2 ^ 63 →
  inv (sys_start sch now epfd fds) ∅.
Proof.
  intros Hq He Hn. split; cbn [sys_start s_w s_now s_frames s_flight w_io w_infos w_closures].
  - by apply new_IOManager_rep.
  - apply Timer.new_TimerManager_ok.
  - cbn. lia.
  - constructor.
  - unfold queue_of. cbn [w_io]. change (io_sched (new_IOManager sch now epfd)) with sch. rewrite Hq.
    change (timers_of _) with (Timer.new_TimerManager now). cbn. split; try done.
    intros x Hx. by apply not_elem_of_nil in Hx.
Qed.
Lemma reaches_inv s s' m : inv s m → reaches s s' → ∃ m', inv s' m'.
Proof.
  intros Hi Hr. revert m Hi. induction Hr as [s|s s1 s2 [l Hs] _ IH]; intros m Hi; [by exists m|].
  destruct (sys_step_inv s l s1 m Hi Hs) as [[m1 H1'] _]. by eapply IH.
Qed.

Lemma step_frames s f fr i0 n e s' : step s (Returned f fr i0 n e) s' →
  s_frames s !! f = Some fr ∧ s_frames s' = delete f (s_frames s) ∧
  alive (s_w s') (c_info (fr_call fr)) = false.
Proof.
  intros Hs. remember (Returned f fr i0 n e) as l eqn:El.
  assert (∀ g gr i w r w1 now, step_call true now g (fr_call gr) (fr_at gr) i w = (Ok r, w1) → label_of g gr i r = Returned f fr i0 n e →
    g = f ∧ gr = fr ∧ r = Return n e ∧ alive w1 (c_info (fr_call fr)) = false) as Hc.
  { intros g gr i w r w1 now E El'. destruct r as [n' e'|]; [|done]. injection El' as -> -> _ -> ->.
    unfold step_call, bind at 1 in E. destruct (advance _ _ _ _ _ _ w) as [[[n' e'|p]| | |] w2]; try done.
    unfold drop_info, bind, modst, ret in E. injection E as -> -> <-. split_and!; try done. unfold alive. cbn.
    destruct (<[_:=None]> (w_infos w2) !! _) as [[x|]|] eqn:Ex; [|done..]. apply list_lookup_insert_Some in Ex. naive_solver. }
  destruct Hs; try done.
  - destruct (Hc _ _ _ _ _ _ _ ltac:(eassumption) El) as (-> & -> & -> & ?). done.
  - destruct (Hc _ _ _ _ _ _ _ ltac:(eassumption) El) as (-> & -> & -> & ?). done.
Qed.

(** ** Properties *)
(** C6: In every state the calls can reach, whatever the interleaving with
    reports, timers, time-outs, [close] and other descriptor calls, a suspended
    call is in exactly one place - registered for its event, or queued once -
    and a call that is not suspended in none; nothing else is registered and the
    pending count is the number of registered calls; every live timer belongs to
    exactly one call, fires once, and not before the call's time is up. *)
Theorem suspended_call_has_one_place (sch : Scheduler) (now : Z) (epfd : K) (fds : FdManager D) s :
  m_fibers sch = [] → interest epfd = ∅ → 0 ≤ now < 2 ^ 63 → reaches (sys_start sch now epfd fds) s →
  ∃ m, rep (w_io (s_w s)) m ∧ m_pendingEventCount (w_io (s_w s)) = Z.of_nat (size m) ∧
    (∀ f fr, s_frames s !! f = Some fr → place_ok m (queue_of (s_w s)) f fr) ∧
    (∀ k x, m !! k = Some x → ∃ f fr, s_frames s !! f = Some fr ∧ key fr = k ∧ x = Resume f ∧ is_parked (fr_at fr) = true) ∧
    (∀ a t, Timer.heap (timers_of (s_w s)) !! a = Some t → is_Some (Timer.m_cb t) →
      ∃ f fr, s_frames s !! f = Some fr ∧ held_timer (fr_at fr) = Some a ∧
        own_timer (w_closures (s_w s)) fr t ∧ ∀ g gr, s_frames s !! g = Some gr → held_timer (fr_at gr) = Some a → g = f).
Proof.
  intros Hq He Hn Hr. destruct (reaches_inv _ s ∅ (start_inv sch now epfd fds Hq He Hn) Hr) as [m [I1 I2 I3 I4 I5]].
  assert (∀ f fr a t, s_frames s !! f = Some fr → held_timer (fr_at fr) = Some a → Timer.heap (timers_of (s_w s)) !! a = Some t →
    own_timer (w_closures (s_w s)) fr t) as Hown.
  { intros f fr a t Hf Hh Ha. pose proof (fk_timer _ _ _ _ _ _ _ _ (co_frame _ _ _ _ _ _ _ I5 f fr Hf)) as T. unfold timer_ok in T.
    destruct (fr_at fr); try done; cbn in Hh; subst timer; destruct T as (_ & t' & ? & ?); congruence. }
  exists m. split_and!; [done|apply I1| | |].
  - intros f fr Hf. by apply (co_frame _ _ _ _ _ _ _ I5).
  - apply (co_reg _ _ _ _ _ _ _ I5).
  - intros a t Ha Hcb. destruct (co_live _ _ _ _ _ _ _ I5 a t Ha Hcb) as (f & fr & Hf & Hh). exists f, fr. split_and!; eauto.
    intros g gr Hg Hh'. destruct Hcb as [cb Hcb].
    destruct (Hown f fr a t Hf Hh Ha) as (_ & _ & O). destruct (Hown g gr a t Hg Hh' Ha) as (_ & _ & O').
    destruct (O cb Hcb) as (id & -> & _), (O' _ Hcb) as (id' & [= _ E] & _). by eapply co_info.
Qed.

(** C7: What a hooked call returns comes from the answers of the step it returns
    in ([result_ok]).  For the calls of [do_io], result and [errno] are those of
    the first of the system call's answers that is not an interruption, and that
    is not [EAGAIN] either; for [connect] those of its only answer, which may be
    an interruption but is not [EINPROGRESS], with [errno] left alone on success,
    or else the socket's error that [getsockopt] read; or -1 because the kernel
    refused the event's [epoll_ctl]; or -1 with [ETIMEDOUT], and then the
    time-out has marked this call, which has one, and at least that long has
    passed since it began.  Afterwards nothing of the call is left: its fiber is
    not queued and not registered, no live timer refers to it, and its
    [timer_info] is gone, so that a time-out still on its way does nothing. *)
Theorem hooked_call_result (sch : Scheduler) (now : Z) (epfd : K) (fds : FdManager D) s (f : nat) (fr : frame) (i : input)
    (n : Z) (errno : option Z) s' :
  m_fibers sch = [] → interest epfd = ∅ → 0 ≤ now < 2 ^ 63 → reaches (sys_start sch now epfd fds) s →
  step s (Returned f fr i n errno) s' →
  s_frames s !! f = Some fr ∧ result_ok (s_w s) (s_now s) f fr i n errno ∧
  s_frames s' = delete f (s_frames s) ∧ queued f (queue_of (s_w s')) = 0%nat ∧
  (∃ m, rep (w_io (s_w s')) m ∧ ∀ k, m !! k ≠ Some (Resume f)) ∧
  (∀ a t cb, Timer.heap (timers_of (s_w s')) !! a = Some t → Timer.m_cb t = Some cb → Timer.cb_cond cb ≠ Some (c_info (fr_call fr))) ∧
  alive (s_w s') (c_info (fr_call fr)) = false.
Proof.
  intros Hq He Hn Hr Hs. destruct (reaches_inv _ s ∅ (start_inv sch now epfd fds Hq He Hn) Hr) as [m Hi].
  destruct (sys_step_inv s _ s' m Hi Hs) as [[m' [I1 I2 I3 I4 I5]] [Hf Hres]]. destruct (step_frames s f fr i n errno s' Hs) as (_ & Ef & Hdead).
  split_and!; [done|done|done| | | |done].
  - destruct (queued f (queue_of (s_w s'))) as [|k] eqn:Eq; [done|]. exfalso.
    assert (∃ x, x ∈ queue_of (s_w s') ∧ ft_fiber x = Some f) as (x & Hx & Efx).
    { unfold queued in Eq. destruct (filter (λ x, ft_fiber x = Some f) (queue_of (s_w s'))) as [|x l] eqn:El; [done|].
      exists x. assert (x ∈ filter (λ x, ft_fiber x = Some f) (queue_of (s_w s'))) as Hx by (rewrite El; left).
      by apply list_elem_of_filter in Hx as [? ?]. }
    destruct (co_queue _ _ _ _ _ _ _ I5 x Hx) as [(g & gr & -> & Hg & _)|(? & ? & ? & ? & -> & _)]; [|done].
    cbn in Efx. injection Efx as ->. by rewrite Ef, lookup_delete_eq in Hg.
  - exists m'. split; [done|]. intros k Ek. destruct (co_reg _ _ _ _ _ _ _ I5 k _ Ek) as (g & gr & Hg & _ & [= <-] & _).
    by rewrite Ef, lookup_delete_eq in Hg.
  - intros a t cb Ha Hcb Hcond. destruct (co_live _ _ _ _ _ _ _ I5 a t Ha) as (g & gr & Hg & Hh); [by rewrite Hcb|].
    pose proof (fk_timer _ _ _ _ _ _ _ _ (co_frame _ _ _ _ _ _ _ I5 g gr Hg)) as T. unfold timer_ok in T.
    assert (own_timer (w_closures (s_w s')) gr t) as (_ & _ & O).
    { destruct (fr_at gr); try done; cbn in Hh; subst timer; destruct T as (_ & t' & ? & ?); congruence. }
    destruct (O cb Hcb) as (id & -> & _). cbn in Hcond. injection Hcond as Ei. rewrite Ef in Hg. apply lookup_delete_Some in Hg as [Hne Hg].
    apply Hne. symmetry. by eapply (co_info _ _ _ _ _ _ _ (iv_core _ _ Hi)).
Qed.

(** C9: No step of a hooked call fails, on any interleaving of calls, reports,
    timers, time-outs, [close] and descriptor calls in which no two calls under
    way wait for the same event of one descriptor and no report of [epoll_wait]
    is stale (as [step] has it; [two_readers_assert] and [stale_report_asserts]
    show what happens otherwise): no assertion of the I/O manager, no missing
    timer and no destroyed [timer_info] is met, whatever [epoll_ctl] and the
    system call answer; a suspended call can go on whenever its fiber is in the
    queue. *)
Theorem hooked_call_never_fails (sch : Scheduler) (now : Z) (epfd : K) (fds : FdManager D) s (f : nat) (fr : frame) (i : input) :
  m_fibers sch = [] → interest epfd = ∅ → 0 ≤ now < 2 ^ 63 → reaches (sys_start sch now epfd fds) s →
  s_frames s !! f = Some fr → answered fr i (fr_at fr) → Timer.heap (timers_of (s_w s)) !! in_timer i = None →
  (is_parked (fr_at fr) = true → queued f (queue_of (s_w s)) ≠ 0%nat) →
  ∃ r w', step s (label_of f fr i r) (mkSys w' (s_now s) (frames_after f fr r (s_frames s)) (s_flight s)).
Proof.
  intros Hq He Hn Hr Hf Ha Hi Hp. destruct (reaches_inv _ s ∅ (start_inv sch now epfd fds Hq He Hn) Hr) as [m Hinv].
  destruct s as [w t frames fl]. cbn in *. destruct (is_parked (fr_at fr)) eqn:Epk.
  - assert (∃ q1 q2, queue_of w = q1 ++ fiber_task f (-1) :: q2) as (q1 & q2 & Eq).
    { specialize (Hp eq_refl). unfold queued in Hp.
      destruct (filter (λ x, ft_fiber x = Some f) (queue_of w)) as [|x l] eqn:El; [done|].
      assert (x ∈ filter (λ x, ft_fiber x = Some f) (queue_of w)) as Hx by (rewrite El; left).
      apply list_elem_of_filter in Hx as [Efx Hx]. apply list_elem_of_split in Hx as Hsplit.
      destruct (co_queue _ _ _ _ _ _ _ (iv_core _ _ Hinv) x Hx) as [(g & gr & -> & _)|(? & ? & ? & ? & -> & _)]; [|done].
      cbn in Efx. injection Efx as ->. done. }
    destruct (call_step_ok w t frames fl m f fr i Hinv Hf (set_queue (q1 ++ q2) w) Ha Hi) as (r & w' & E & _).
    { rewrite Epk. by exists q1, q2. }
    exists r, w'. by eapply st_resume.
  - destruct (call_step_ok w t frames fl m f fr i Hinv Hf w Ha Hi) as (r & w' & E & _); [by rewrite Epk|].
    exists r, w'. by eapply st_call.
Qed.

(** ** A time-out wakes the call *)
(** The registered waiter of a suspended call whose timer is due. *)
Lemma due_queued w now frames fl m f fr a t cb probe : inv (mkSys w now frames fl) m → frames !! f = Some fr →
  held_timer (fr_at fr) = Some a → Timer.heap (timers_of w) !! a = Some t → Timer.m_cb t = Some cb → Timer.m_next t ≤ now →
  Timer.heap (timers_of w) !! probe = None →
  ∃ id, w_closures w !! id = Some (Timeout (c_info (fr_call fr)) (c_fd (fr_call fr)) (c_event (fr_call fr))) ∧
    cb_task id (-1) ∈ queue_of (set_io (schedule_timers now probe task_name (w_io w)) w).
Proof.
  intros [I1 I2 I3 I4 I5] Hf Hh Ha Hcb Hdue Hp. cbn in *.
  pose proof (fk_timer _ _ _ _ _ _ _ _ (co_frame _ _ _ _ _ _ _ I5 f fr Hf)) as T. unfold timer_ok in T.
  assert (own_timer (w_closures w) fr t) as (_ & _ & O).
  { destruct (fr_at fr); try done; cbn in Hh; subst timer; destruct T as (_ & t' & ? & ?); congruence. }
  destruct (O cb Hcb) as (id & -> & Hid). exists id. split; [done|].
  destruct (timers_step (w_io w) m now probe task_name I1 I2 Hp) as (_ & _ & _ & _ & Eq).
  unfold queue_of. cbn [w_io set_io]. rewrite Eq. apply elem_of_app. right. apply list_elem_of_fmap.
  exists (Timer.mkCallback (Z.of_nat id) (Some (c_info (fr_call fr)))). split; [unfold task_name; cbn [Timer.cb_id]; by rewrite Nat2Z.id|]. unfold due_callbacks. apply list_elem_of_omap.
  exists a. split; [|by change (io_timers (w_io w)) with (timers_of w); rewrite Ha].
  unfold Timer.due. rewrite decide_False by (unfold Timer.clock_rolled; fold (timers_of w); lia).
  apply list_elem_of_filter. split; [unfold Timer.next_of; change (io_timers (w_io w)) with (timers_of w); by rewrite Ha|].
  destruct (Timer.to_all _ _ I2 a t Ha) as [?|Hno]; [by rewrite Hcb|done|by apply not_elem_of_nil in Hno].
Qed.

(** [cancelEvent] for a suspended call: its fiber is then queued, unless the
    kernel refuses. *)
Lemma cancel_wakes w now frames fl m f fr : inv (mkSys w now frames fl) m → frames !! f = Some fr → is_parked (fr_at fr) = true →
  let '(fd, ev) := key fr in
  ∃ b io', cancelEvent fd ev (w_io w) = (Ok b, io') ∧
    (queued f (queue_of (set_io io' w)) = 1%nat ∨ b = false ∧ ∃ op e, (epoll_ctl op fd e (m_epfd (w_io w))).1 ≠ 0).
Proof.
  intros Hinv Hf Hp. pose proof Hinv as [J1 _ _ _ J5]. cbn [s_w s_frames] in *.
  destruct (co_frame _ _ _ _ _ _ _ J5 f fr Hf) as [(Hfd & Hev & _) _ Pl _]. unfold place_ok in Pl. rewrite Hp in Pl.
  unfold key in *. destruct (call_refines (CCancel (c_fd (fr_call fr)) (c_event (fr_call fr))) (w_io w) m J1)
    as (r & m' & ws & io' & Hs & Hc & _ & Hq & _); [split; [lia|done]|].
  unfold run_call, as_int, bind in Hc.
  destruct (cancelEvent (c_fd (fr_call fr)) (c_event (fr_call fr)) (w_io w)) as [[b| | |] io2] eqn:Ec; try done.
  unfold ret in Hc. injection Hc as <- ->. exists b, io'. split; [done|].
  unfold queue_of in *. cbn [w_io set_io]. rewrite Hq, schedule_work_queue, queued_app. cbn [spec_call] in Hs.
  destruct Pl as [[Ew Eq]|[Ew Eq]]; rewrite Ew in Hs.
  - destruct (answer _ m _).1 eqn:Ek; injection Hs as Eb _ <-.
    + left. rewrite Eq. cbn [fmap list_fmap task_of]. by rewrite queued_cons, decide_True.
    + right. split; [by destruct b|]. unfold answer, request in Ek. rewrite Ew in Ek. destruct (ctl _ _ _) as [[op fd] e] eqn:El.
      assert (fd = c_fd (fr_call fr)) as -> by (unfold ctl in El; congruence). cbn in Ek. exists op, e. by apply Z.eqb_neq.
  - injection Hs as _ _ <-. left. rewrite Eq. done.
Qed.

(** C8: A call that is suspended with a live timer whose deadline is reached is
    woken by its time-out alone, with no help from its descriptor.  Three steps,
    each open to the system: the idle loop takes the expired timers, which queues
    the task of the time-out; that task, run, marks the call as timed out and
    asks for the call's own descriptor and event to be cancelled; and that
    [cancelEvent] leaves the fiber in the queue, once, unless the kernel refuses
    its [epoll_ctl]. *)
Theorem time_out_wakes (sch : Scheduler) (now : Z) (epfd : K) (fds : FdManager D) s (f : nat) (fr : frame) (a probe : nat) (t : Timer.Timer) :
  m_fibers sch = [] → interest epfd = ∅ → 0 ≤ now < 2 ^ 63 → reaches (sys_start sch now epfd fds) s →
  s_frames s !! f = Some fr → fr_at fr = Parked (Some a) → Timer.heap (timers_of (s_w s)) !! a = Some t →
  is_Some (Timer.m_cb t) → Timer.m_next t ≤ s_now s → w_infos (s_w s) !! c_info (fr_call fr) = Some (Some 0) →
  Timer.heap (timers_of (s_w s)) !! probe = None →
  let w1 := set_io (schedule_timers (s_now s) probe task_name (w_io (s_w s))) (s_w s) in
  let at_world w fl := mkSys w (s_now s) (s_frames s) fl in
  let fd := c_fd (fr_call fr) in let ev := c_event (fr_call fr) in
  ∃ id q1 q2 w2 b io3,
    step s Tau (at_world w1 (s_flight s)) ∧ queue_of w1 = q1 ++ cb_task id (-1) :: q2 ∧
    run_closure id (set_queue (q1 ++ q2) w1) = (Ok (Some (fd, ev)), w2) ∧
    step (at_world w1 (s_flight s)) Tau (at_world w2 ((fd, ev) :: s_flight s)) ∧
    w_infos w2 !! c_info (fr_call fr) = Some (Some ETIMEDOUT) ∧
    cancelEvent fd ev (w_io w2) = (Ok b, io3) ∧
    step (at_world w2 ((fd, ev) :: s_flight s)) Tau (at_world (set_io io3 w2) (s_flight s)) ∧
    (queued f (queue_of (set_io io3 w2)) = 1%nat ∨ b = false ∧ ∃ op e, (epoll_ctl op fd e (m_epfd (w_io w2))).1 ≠ 0).
Proof.
  intros Hq He Hn Hr Hf Hp Ha [cb Hcb] Hdue Hx Hprobe. destruct (reaches_inv _ s ∅ (start_inv sch now epfd fds Hq He Hn) Hr) as [m Hinv].
  destruct s as [w tm frames fl]. cbn [s_w s_now s_frames s_flight] in *.
  destruct (due_queued w tm frames fl m f fr a t cb probe Hinv Hf) as (id & Hid & Hin); [by rewrite Hp|done..|].
  set (w1 := set_io _ w) in Hin |- *. set (at_world := λ w fl, mkSys w tm frames fl) in |- *.
  set (fd := c_fd (fr_call fr)) in |- *. set (ev := c_event (fr_call fr)) in |- *.
  assert (step (mkSys w tm frames fl) Tau (at_world w1 fl)) as S1 by (by apply st_timers).
  apply list_elem_of_split in Hin as (q1 & q2 & Eq1).
  set (w2 := set_infos (<[c_info (fr_call fr):=Some ETIMEDOUT]> (w_infos w)) (set_queue (q1 ++ q2) w1)).
  assert (run_closure id (set_queue (q1 ++ q2) w1) = (Ok (Some (fd, ev)), w2)) as E2.
  { unfold run_closure, bind, getst. change (w_closures (set_queue (q1 ++ q2) w1)) with (w_closures w). rewrite Hid.
    unfold Timer.OnTimer, alive. cbn [Timer.cb_cond]. change (w_infos (set_queue (q1 ++ q2) w1)) with (w_infos w). rewrite Hx.
    unfold time_out, bind, getst. change (w_infos (set_queue (q1 ++ q2) w1)) with (w_infos w). by rewrite Hx. }
  assert (step (at_world w1 fl) Tau (at_world w2 ((fd, ev) :: fl))) as S2
    by (by eapply (st_task w1 tm frames fl q1 q2 id (Some _))).
  destruct (sys_step_inv _ _ _ m Hinv S1) as [[m1 Hinv1] _]. destruct (sys_step_inv _ _ _ m1 Hinv1 S2) as [[m2 Hinv2] _].
  destruct (cancel_wakes w2 tm frames _ m2 f fr Hinv2 Hf) as (b & io3 & Ec & Hend); [by rewrite Hp|].
  exists id, q1, q2, w2, b, io3. split_and!; try done.
  - cbn. rewrite list_lookup_insert_eq; [done|]. by eapply lookup_lt_Some.
  - apply (st_cancel w2 tm frames [] fl fd ev b). unfold on_io. fold fd ev in Ec. by rewrite Ec.
Qed.

(** ** Sleeping *)
(** The identities of the closures the timers hold are those of existing ones. *)
Definition closures_known w : Prop :=
  ∀ a t cb, Timer.heap (timers_of w) !! a = Some t → Timer.m_cb t = Some cb → (task_name cb < length (w_closures w))%nat.

(** A fiber that sleeps is scheduled by the task of its timer, and the idle
    loop queues that task at the first tick at which the milliseconds have
    passed and never before; [sleep], [usleep] and [nanosleep] ask for their
    argument in milliseconds, rounded down, as long as that fits the type it is
    computed in. *)
Theorem sleep_wakes_on_time w w' m (now now' ms : Z) (a probe f : nat) :
  rep (w_io w) m → Timer.timers_ok (timers_of w) → closures_known w → Timer.heap (timers_of w) !! a = None →
  Timer.heap (timers_of w) !! probe = None → probe ≠ a → 0 ≤ now → 0 ≤ ms → now + ms < 2 ^ 64 →
  Timer.m_previouseTime (timers_of w) ≤ now' → sleep_for true now a ms f w = (Ok tt, w') →
  (∀ seconds, 0 ≤ seconds < 4294968 → sleep_ms seconds = seconds * 1000) ∧
  (∀ usec, 0 ≤ usec < 2 ^ 32 → usleep_ms usec = usec / 1000) ∧
  (∀ sec nsec, 0 ≤ nsec < 10 ^ 9 → 0 ≤ sec < 2147483 → nanosleep_ms sec nsec = (sec * 10 ^ 9 + nsec) / 10 ^ 6) ∧
  let id := length (w_closures w) in
  let w1 := set_io (schedule_timers now' probe task_name (w_io w')) w' in
  (∃ new, queue_of w1 = queue_of w ++ new ∧ (cb_task id (-1) ∈ new ↔ now + ms ≤ now')) ∧
  run_closure id w1 = (Ok None, set_io (with_sched (schedule (fiber_task f (-1)) (io_sched (w_io w1))) (w_io w1)) w1).
Proof.
  intros Hrep Hok Hk Ha Hp Hne Hnow Hms Hb Hprev E. split_and!.
  { intros seconds Hs. unfold sleep_ms. apply wrap_small. lia. }
  { intros usec Hu. unfold usleep_ms. by rewrite Z.quot_div_nonneg by lia. }
  { intros sec nsec Hns Hs. unfold nanosleep_ms.
    rewrite (Z.quot_div_nonneg nsec), Z.quot_div_nonneg, Z.div_div by (try apply Z.div_pos; lia).
    replace ((sec * 10 ^ 9 + nsec) / 10 ^ 6) with (sec * 1000 + nsec / (1000 * 1000)).
    - assert (0 ≤ nsec / (1000 * 1000) < 1000) by (split; [apply Z.div_pos; lia|apply Z.div_lt_upper_bound; lia]).
      rewrite i32_small by lia. apply wrap_small. lia.
    - replace (sec * 10 ^ 9 + nsec) with (nsec + sec * 1000 * 10 ^ 6) by lia. rewrite Z.div_add by lia.
      change (1000 * 1000) with (10 ^ 6). lia. }
  intros id w1. unfold sleep_for in E. cbn [negb] in E. unfold new_closure, timers_do, bind, getst, putst, ret in E.
  cbn [w_io set_closures] in E. change (io_timers (w_io w)) with (timers_of w) in E.
  set (cb := Timer.mkCallback (Z.of_nat (length (w_closures w))) None) in *.
  pose proof (Timer.addTimer_ok (timers_of w) now a ms cb false Hok Ha) as Hok'.
  destruct (addTimer_effect now a ms cb false (timers_of w)) as [Ep Eh].
  destruct (Timer.addTimer now a ms cb false (timers_of w)) as [b tm]. cbn [snd] in *. injection E as <-.
  set (w2 := set_io (with_timers tm (w_io w)) (set_closures (w_closures w ++ [Wake f]) w)) in w1.
  assert (¬ Timer.clock_rolled now' tm) as Hnr by (unfold Timer.clock_rolled; lia).
  assert (Timer.heap tm !! a = Some (Timer.new_Timer now ms cb false)) as Et by (by rewrite Eh, lookup_insert_eq).
  assert (Timer.m_next (Timer.new_Timer now ms cb false) = now + ms) as En by (apply wrap_small; lia).
  split.
  - destruct (timers_step (w_io w2) m now' probe task_name) as (_ & _ & _ & _ & Eq); [by apply rep_timers|done| |].
    { change (Timer.heap tm !! probe = None). by rewrite Eh, lookup_insert_ne. }
    eexists. split; [exact Eq|]. change (io_timers (w_io w2)) with tm. rewrite list_elem_of_fmap. unfold due_callbacks, Timer.due.
    rewrite decide_False by done. setoid_rewrite list_elem_of_omap. setoid_rewrite list_elem_of_filter. unfold Timer.next_of. split.
    + intros (cb' & [= Eid] & a' & [Hd _] & Hcb'). apply bind_Some in Hcb' as (t & Ht & Hcb'). rewrite Ht in Hd.
      destruct (decide (a' = a)) as [->|Hna]; [replace t with (Timer.new_Timer now ms cb false) in Hd by congruence; lia|].
      rewrite Eh, lookup_insert_ne in Ht by done. pose proof (Hk a' t cb' Ht Hcb'). lia.
    + intros Hd. exists cb. split; [unfold task_name; cbn [Timer.cb_id cb]; by rewrite Nat2Z.id|].
      exists a. rewrite Et. split; [split; [by rewrite En|]|done].
      destruct (Timer.to_all _ _ Hok' a _ Et) as [?|Hno]; [done|done|by apply not_elem_of_nil in Hno].
  - unfold run_closure, bind, getst. change (w_closures w1) with (w_closures w ++ [Wake f]).
    subst id. by rewrite lookup_app_r, Nat.sub_diag by lia.
Qed.
End thms.

(** ** Samples and inputs on which the code fails *)
Abbreviation sample_world := (World (gmap Z Z) descriptor_table).
Lemma run_pair {S A} (m : M S A) st r : (m st).1 = Ok r → m st = (Ok r, (m st).2).
Proof. by destruct (m st) as [o st']; cbn; intros ->. Qed.

(** Descriptor 3 with a receive time-out of 50 ms; fiber 1 reads it at time 100. *)
Definition fds_50 : FdManager descriptor_table := after (setsockopt true 3 SOL_SOCKET SO_RCVTIMEO (0, 50000)) one_socket.
Definition w_start : sample_world := mkWorld (new_IOManager new_Scheduler 100 ∅) fds_50 [] [].
Definition reading : call := mkCall 3 READ 50 0 false.
Definition no_input : input := mkInput [] 0 (0, 0).
Definition w_entered : sample_world := (do_io true 3 READ SO_RCVTIMEO w_start).2.
Definition w_armed : sample_world := (step_call true 100 1 reading Arm no_input w_entered).2.
Definition w_parked : sample_world := (step_call true 100 1 reading (Add (Some 0%nat)) no_input w_armed).2.
(** The clock reaches 150: the timer's task is queued, and run. *)
Definition w_due : sample_world := set_io (schedule_timers 150 9 task_name (w_io w_parked)) w_parked.
Definition w_marked : sample_world := (run_closure 0 (set_queue [] w_due)).2.
Definition w_woken : sample_world := (on_io (cancelEvent 3 READ) w_marked).2.

Example read_times_out :
  ((do_io true 3 READ SO_RCVTIMEO w_start).1, queue_of w_due, (run_closure 0 (set_queue [] w_due)).1, queue_of w_woken,
   (step_call true 150 1 reading (Parked (Some 0%nat)) no_input (set_queue [] w_woken)).1) =
  (Ok (Enter reading), [cb_task 0 (-1)], Ok (Some (3, READ)), [fiber_task 1 (-1)], Ok (Return (-1) (Some ETIMEDOUT))).
Proof. by vm_compute. Qed.

(** The timer fires between [addConditionTimer] and [addEvent]: the time-out finds
    no event to cancel, and the fiber then waits with no timer and nothing
    queued. *)
Definition w_early : sample_world :=
  let w := set_io (schedule_timers 150 9 task_name (w_io w_armed)) w_armed in
  let w := (run_closure 0 (set_queue [] w)).2 in
  let w := (on_io (cancelEvent 3 READ) w).2 in
  (step_call true 150 1 reading (Add (Some 0%nat)) no_input w).2.
Example time_out_lost :
  (queue_of w_early, Timer.m_timers (timers_of w_early), m_pendingEventCount (w_io w_early)) = ([], [], 1).
Proof. by vm_compute. Qed.
(** When data arrives after all, the read answers [ETIMEDOUT] without looking at it. *)
Example late_data_refused :
  let w := (on_io (handle_event 3 EPOLLIN) w_early).2 in
  (queue_of w, (step_call true 900 1 reading (Parked (Some 0%nat)) no_input (set_queue [] w)).1) =
  ([fiber_task 1 (-1)], Ok (Return (-1) (Some ETIMEDOUT))).
Proof. by vm_compute. Qed.

(** A second fiber that reads the same socket fails [addEvent]'s assertion. *)
Example two_readers_assert :
  (step_call true 100 2 (mkCall 3 READ 50 0 false) (Add None) no_input w_parked).1 = Undef AssertFail.
Proof. by vm_compute. Qed.

(** The milliseconds are computed in 32 bits, and a long [nanosleep] becomes a
    negative int, that is, a deadline in the past. *)
Example long_sleeps : (sleep_ms 4294968, nanosleep_ms 2147484 0, usleep_ms 999) = (704, 2 ^ 64 - 2147483296, 0).
Proof. by vm_compute. Qed.

(** The run to the suspended call, step by step. *)
Definition s_start : Sys := sys_start (K := gmap Z Z) new_Scheduler 100 ∅ fds_50.
Definition parked_frame : frame := mkFrame reading (Parked (Some 0%nat)) 100.
Definition s_parked : Sys := mkSys w_parked 100 {[1%nat := parked_frame]} [].
Lemma sample_call (w : sample_world) p i r :
  (step_call true 100 1 reading p i w).1 = Ok r → is_parked p = false → Timer.heap (timers_of w) !! in_timer i = None →
  step (mkSys w 100 {[1%nat := mkFrame reading p 100]} []) (label_of 1 (mkFrame reading p 100) i r)
    (mkSys (step_call true 100 1 reading p i w).2 100 (frames_after 1 (mkFrame reading p 100) r {[1%nat := mkFrame reading p 100]}) []).
Proof.
  intros E Hp Hi. apply (st_call w 100 _ [] 1 (mkFrame reading p 100) i r); [apply lookup_singleton_eq|done|done|].
  by apply run_pair.
Qed.
Lemma s_parked_reached : rtc tau_or_not s_start s_parked.
Proof.
  eapply rtc_l.
  { exists Tau. apply (st_enter w_start 100 ∅ [] 1 3 READ SO_RCVTIMEO 0 reading w_entered); [done|by vm_compute| | |done].
    - left. apply run_pair. by vm_compute.
    - unfold range_ok. cbn. split_and!; [lia|lia|by left|right; lia|lia|lia]. }
  eapply rtc_l.
  { exists Tau. apply (sample_call w_entered Attempt (mkInput [(-1, EINTR); (-1, EAGAIN)] 0 (0, 0)) (Go Arm)); by vm_compute. }
  cbn [frames_after]. rewrite insert_singleton_eq.
  eapply rtc_l.
  { exists Tau. apply (sample_call w_entered Arm no_input (Go (Add (Some 0%nat)))); by vm_compute. }
  cbn [frames_after]. rewrite insert_singleton_eq.
  apply rtc_once. exists Tau. unfold s_parked. rewrite <- (insert_singleton_eq 1%nat (mkFrame reading (Add (Some 0%nat)) 100) parked_frame).
  apply (sample_call w_armed (Add (Some 0%nat)) (mkInput [] 7 (0, 0)) (Go (Parked (Some 0%nat)))); by vm_compute.
Qed.

Definition s_due : Sys := mkSys w_parked 150 {[1%nat := parked_frame]} [].
Lemma s_due_reached : rtc tau_or_not s_start s_due.
Proof. eapply rtc_r; [apply s_parked_reached|]. exists Tau. apply st_time. lia. Qed.
Definition s_woken : Sys := mkSys w_woken 150 {[1%nat := parked_frame]} [].
Lemma s_woken_reached : rtc tau_or_not s_start s_woken.
Proof.
  etrans; [apply s_due_reached|].
  eapply rtc_l; [exists Tau; apply (st_timers w_parked 150 _ [] 9); by vm_compute|].
  eapply rtc_l; [exists Tau; apply (st_task w_due 150 _ [] [] [] 0 (Some (3, READ)) w_marked); [by vm_compute|apply run_pair; by vm_compute]|].
  apply rtc_once. exists Tau. apply (st_cancel w_marked 150 _ [] [] 3 READ true w_woken). apply run_pair. by vm_compute.
Qed.
Lemma s_woken_returns : step s_woken (Returned 1 parked_frame no_input (-1) (Some ETIMEDOUT))
  (mkSys (step_call true 150 1 reading (Parked (Some 0%nat)) no_input (set_queue [] w_woken)).2 150 (delete 1%nat {[1%nat := parked_frame]}) []).
Proof.
  apply (st_resume w_woken 150 _ [] 1 parked_frame [] [] no_input (Return (-1) (Some ETIMEDOUT)));
    [apply lookup_singleton_eq|done|by vm_compute|]. apply run_pair. by vm_compute.
Qed.

Lemma suspended_call_has_one_place_witness :
  ∃ m, rep (w_io (s_w s_parked)) m ∧ m_pendingEventCount (w_io (s_w s_parked)) = Z.of_nat (size m) ∧
    place_ok m (queue_of (s_w s_parked)) 1 parked_frame.
Proof.
  destruct (suspended_call_has_one_place new_Scheduler 100 ∅ fds_50 s_parked) as (m & H1 & H2 & H3 & _);
    [done|done|lia|apply s_parked_reached|].
  exists m. split_and!; [done|done|]. by apply H3.
Defined.
Lemma hooked_call_result_witness : result_ok w_woken 150 1 parked_frame no_input (-1) (Some ETIMEDOUT).
Proof.
  destruct (hooked_call_result new_Scheduler 100 ∅ fds_50 s_woken 1 parked_frame no_input (-1) (Some ETIMEDOUT)
    (mkSys (step_call true 150 1 reading (Parked (Some 0%nat)) no_input (set_queue [] w_woken)).2 150 (delete 1%nat {[1%nat := parked_frame]}) []))
    as (_ & Hr & _); [done|done|lia|apply s_woken_reached|apply s_woken_returns|]. exact Hr.
Defined.
Lemma hooked_call_never_fails_witness : ∃ r w',
  step s_woken (label_of 1 parked_frame (mkInput [] 7 (0, 0)) r) (mkSys w' 150 (frames_after 1 parked_frame r {[1%nat := parked_frame]}) []).
Proof.
  apply (hooked_call_never_fails new_Scheduler 100 ∅ fds_50 s_woken 1 parked_frame (mkInput [] 7 (0, 0)));
    [done|done|lia|apply s_woken_reached|apply lookup_singleton_eq|done|by vm_compute|intros _; by vm_compute].
Defined.
Definition parked_timer : Timer.Timer := Timer.new_Timer 100 50 (Timer.mkCallback 0 (Some 0%nat)) false.
Lemma time_out_wakes_witness : ∃ id w2,
  run_closure id (set_queue [] w_due) = (Ok (Some (3, READ)), w2) ∧ w_infos w2 !! 0%nat = Some (Some ETIMEDOUT) ∧
  queued 1 (queue_of (set_io (cancelEvent 3 READ (w_io w2)).2 w2)) = 1%nat.
Proof.
  destruct (time_out_wakes new_Scheduler 100 ∅ fds_50 s_due 1 parked_frame 0 9 parked_timer)
    as (id & q1 & q2 & w2 & b & io3 & _ & Eq & E2 & _ & Ei & Ec & _ & Hend);
    [done|done|lia|apply s_due_reached|apply lookup_singleton_eq|done|by vm_compute|by eexists|by vm_compute|by vm_compute|by vm_compute|].
  assert (q1 = [] ∧ q2 = [] ∧ id = 0%nat) as (-> & -> & ->).
  { assert (queue_of w_due = [cb_task 0 (-1)]) as E0 by by vm_compute.
    pose proof (eq_trans (eq_sym E0) Eq) as E1.
    clear - E1. destruct q1 as [|x [|y q1]]; simplify_list_eq; split_and!; congruence. }
  exists 0%nat, w2. split; [exact E2|]. split; [exact Ei|].
  assert (w2 = w_marked) as -> by (pose proof (f_equal snd E2) as E; symmetry; exact E). by vm_compute.
Defined.
Lemma sleep_wakes_on_time_witness :
  let w' := (sleep_for true 100 4 20 1 w_start).2 in
  ∃ new, queue_of (set_io (schedule_timers 120 9 task_name (w_io w')) w') = queue_of w_start ++ new ∧ (cb_task 0 (-1) ∈ new ↔ 100 + 20 ≤ 120).
Proof.
  destruct (sleep_wakes_on_time w_start (sleep_for true 100 4 20 1 w_start).2 ∅ 100 120 20 4 9 1) as (_ & _ & _ & Hn & _).
  - by apply (new_IOManager_rep new_Scheduler 100 (∅ : gmap Z Z)).
  - apply Timer.new_TimerManager_ok.
  - intros a t cb Ha. by vm_compute in Ha.
  - done.
  - done.
  - done.
  - lia.
  - lia.
  - lia.
  - by vm_compute.
  - apply run_pair. by vm_compute.
  - exact Hn.
Defined.
