(* ===== verification/Address.v ===== *)
(** * Addresses (Helens/address.{h,cc}, endian.h)

    Socket addresses of three families: their object representation, order, masks
    and text, the parsing of a host with its service, and the listing of interfaces. *)
From S2P Require Import Prelude ByteArray Text Http.
Open Scope Z_scope.

(** ** The structures of the sockets API

    A field holds the value the member has on the little-endian host; arrays are
    lists of bytes of the array's length. *)
Record sockaddr_in := mkIn { sin_family : Z; sin_port : Z; s_addr : Z; sin_zero : list Z }.
Record sockaddr_in6 := mkIn6 {
  sin6_family : Z; sin6_port : Z; sin6_flowinfo : Z; s6_addr : list Z; sin6_scope_id : Z }.
Record sockaddr_un := mkUn { sun_family : Z; sun_path : list Z }.
Record sockaddr := mkSa { sa_family : Z; sa_data : list Z }.
#[export] Instance sockaddr_in_eq_dec : EqDecision sockaddr_in.
Proof. solve_decision. Defined.
#[export] Instance sockaddr_in6_eq_dec : EqDecision sockaddr_in6.
Proof. solve_decision. Defined.

Definition AF_UNSPEC : Z := 0.
Definition AF_UNIX : Z := 1.
Definition AF_INET : Z := 2.
Definition AF_INET6 : Z := 10.
(** [offsetof(sockaddr_un, sun_path)] and [sizeof(sun_path)] *)
Definition PATH_OFFSET : Z := 2.
Definition PATH_SIZE : Z := 108.
Definition MAX_PATH_LEN : Z := PATH_SIZE - 1.

(** The classes that derive from [Address]. *)
Inductive Address :=
| IPv4Address (m_addr : sockaddr_in)
| IPv6Address (m_addr : sockaddr_in6)
| UnixAddress (m_addr : sockaddr_un) (m_length : Z)
| UnknownAddress (m_addr : sockaddr).

(** The object representation of the structures. *)
Definition bytes_in (a : sockaddr_in) : list Z :=
  le_bytes 2 (sin_family a) ++ le_bytes 2 (sin_port a) ++ le_bytes 4 (s_addr a) ++ sin_zero a.
Definition bytes_in6 (a : sockaddr_in6) : list Z :=
  le_bytes 2 (sin6_family a) ++ le_bytes 2 (sin6_port a) ++ le_bytes 4 (sin6_flowinfo a) ++ s6_addr a ++
  le_bytes 4 (sin6_scope_id a).
Definition bytes_un (a : sockaddr_un) : list Z := le_bytes 2 (sun_family a) ++ sun_path a.
Definition bytes_sa (a : sockaddr) : list Z := le_bytes 2 (sa_family a) ++ sa_data a.

(** Reading an object of a type at an address: past the end of what is there is an error. *)
Definition peek (off n : nat) (raw : list Z) : list Z := take n (drop off raw).
Definition as_in (raw : list Z) : outcome sockaddr_in :=
  if (length raw <? 16)%nat then Undef OutOfBounds
  else Ok (mkIn (le_val (peek 0 2 raw)) (le_val (peek 2 2 raw)) (le_val (peek 4 4 raw)) (peek 8 8 raw)).
Definition as_in6 (raw : list Z) : outcome sockaddr_in6 :=
  if (length raw <? 28)%nat then Undef OutOfBounds
  else Ok (mkIn6 (le_val (peek 0 2 raw)) (le_val (peek 2 2 raw)) (le_val (peek 4 4 raw)) (peek 8 16 raw)
    (le_val (peek 24 4 raw))).
Definition as_sa (raw : list Z) : outcome sockaddr :=
  if (length raw <? 16)%nat then Undef OutOfBounds else Ok (mkSa (le_val (peek 0 2 raw)) (peek 2 14 raw)).

(** ** The base class *)
(** [getAddr()]: the object it points to. *)
Definition getAddr (a : Address) : list Z :=
  match a with
  | IPv4Address m => bytes_in m | IPv6Address m => bytes_in6 m
  | UnixAddress m _ => bytes_un m | UnknownAddress m => bytes_sa m
  end.
Definition getAddrLen (a : Address) : Z :=
  match a with IPv4Address _ => 16 | IPv6Address _ => 28 | UnixAddress _ n => n | UnknownAddress _ => 16 end.
Definition getFamily (a : Address) : Z := le_val (take 2 (getAddr a)).

(** [Address::Create]; the length is not looked at. *)
Definition Create (addr : option (list Z)) : outcome (option Address) :=
  match addr with
  | None => Ok None
  | Some raw =>
    let family := le_val (peek 0 2 raw) in
    if family =? AF_INET then obind (as_in raw) (λ m, Ok (Some (IPv4Address m)))
    else if family =? AF_INET6 then obind (as_in6 raw) (λ m, Ok (Some (IPv6Address m)))
    else obind (as_sa raw) (λ m, Ok (Some (UnknownAddress m)))
  end.

(** [memcmp(p, q, n)] of two objects. *)
Definition memcmp (p q : list Z) (n : Z) : outcome comparison :=
  if (Z.of_nat (length p) <? n) || (Z.of_nat (length q) <? n) then Undef OutOfBounds
  else Ok (bytes_compare (take (Z.to_nat n) p) (take (Z.to_nat n) q)).
Definition addr_lt (a b : Address) : outcome bool :=
  obind (memcmp (getAddr a) (getAddr b) (Z.min (getAddrLen a) (getAddrLen b))) (λ result, Ok (
  match result with Lt => true | Gt => false | Eq => getAddrLen a <? getAddrLen b end)).
Definition addr_eq (a b : Address) : outcome bool :=
  if getAddrLen a =? getAddrLen b
  then obind (memcmp (getAddr a) (getAddr b) (getAddrLen a)) (λ result, Ok (if result is Eq then true else false))
  else Ok false.
Definition addr_ne (a b : Address) : outcome bool := obind (addr_eq a b) (λ r, Ok (negb r)).

(** ** Masks *)
(** [CreateMask<T>(bits)] for a [T] of [w] bits: [1] is an [int], so a shift of 32
    and more is undefined, and [INT_MIN - 1] overflows. *)
Definition CreateMask (w bits : Z) : outcome Z :=
  let n := wrap 64 (w - bits) in
  if 31 <=? n then Undef Overflow else Ok (wrap w (2 ^ n - 1)).
(** The loop of [CountBytes] clears a bit in each round. *)
Fixpoint CountBytes_loop (fuel : nat) (value result : Z) : outcome Z :=
  if value =? 0 then Ok result else
  match fuel with O => Fuel | S fuel => CountBytes_loop fuel (Z.land value (value - 1)) (result + 1) end.
Definition CountBytes (w value : Z) : outcome Z := CountBytes_loop (Z.to_nat w) value 0.

Abbreviation swap16 := (byteswapOnLittleEndian 2).
Abbreviation swap32 := (byteswapOnLittleEndian 4).

(** ** IPv4Address *)
Definition new_IPv4 (address port : Z) : sockaddr_in :=
  mkIn AF_INET (swap16 port) (swap32 address) (replicate 8 0).
Definition with_s_addr (v : Z) (a : sockaddr_in) : sockaddr_in := mkIn (sin_family a) (sin_port a) v (sin_zero a).

Definition insert4 (a : sockaddr_in) : list Z :=
  let addr := swap32 (s_addr a) in
  decimal (Z.land (Z.shiftr addr 24) 255) ++ [46] ++ decimal (Z.land (Z.shiftr addr 16) 255) ++ [46] ++
  decimal (Z.land (Z.shiftr addr 8) 255) ++ [46] ++ decimal (Z.land addr 255) ++
  [58] ++ decimal (swap16 (sin_port a)).

(** The three mask operations; [None] is the null pointer. *)
Definition broadcast4 (prefix_len : Z) (a : sockaddr_in) : outcome (option sockaddr_in) :=
  if 32 <? prefix_len then Ok None else
  obind (CreateMask 32 prefix_len) (λ m, Ok (Some (with_s_addr (Z.lor (s_addr a) (swap32 m)) a))).
Definition network4 (prefix_len : Z) (a : sockaddr_in) : outcome (option sockaddr_in) :=
  if 32 <? prefix_len then Ok None else
  obind (CreateMask 32 prefix_len) (λ m, Ok (Some (with_s_addr (Z.land (s_addr a) (swap32 m)) a))).
Definition subnetMask4 (prefix_len : Z) : outcome (option sockaddr_in) :=
  obind (CreateMask 32 prefix_len) (λ m,
  Ok (Some (mkIn AF_INET 0 (wrap 32 (Z.lnot (swap32 m))) (replicate 8 0)))).
Definition getPort4 (a : sockaddr_in) : Z := swap16 (sin_port a).
Definition setPort4 (v : Z) (a : sockaddr_in) : sockaddr_in := mkIn (sin_family a) (swap16 v) (s_addr a) (sin_zero a).

(** ** IPv6Address *)
Definition new_IPv6 : sockaddr_in6 := mkIn6 AF_INET6 0 0 (replicate 16 0) 0.
Definition new_IPv6_of (address : list Z) (port : Z) : sockaddr_in6 := mkIn6 AF_INET6 (swap16 port) 0 address 0.
Definition with_s6_addr (v : list Z) (a : sockaddr_in6) : sockaddr_in6 :=
  mkIn6 (sin6_family a) (sin6_port a) (sin6_flowinfo a) v (sin6_scope_id a).

(** [os << std::hex << n] *)
Fixpoint hex_text_loop (fuel : nat) (n : Z) (acc : list Z) : list Z :=
  match fuel with
  | O => acc
  | S fuel => let acc := hexdigit_lower (n mod 16) :: acc in if n <? 16 then acc else hex_text_loop fuel (n / 16) acc
  end.
Definition hex_text (n : Z) : list Z := hex_text_loop (S (Z.to_nat (Z.log2 n))) n [].

(** [addr[i]] of the address seen as an array of [uint16_t]. *)
Definition group (s6 : list Z) (i : nat) : Z := le_val (peek (2 * i) 2 s6).
Fixpoint insert6_loop (s6 : list Z) (n i : nat) (used_zeros : bool) (os : list Z) : bool * list Z :=
  match n with
  | O => (used_zeros, os)
  | S n =>
    if (group s6 i =? 0) && negb used_zeros then insert6_loop s6 n (S i) used_zeros os else
    let elided := (0 <? i)%nat && (group s6 (i - 1) =? 0) && negb used_zeros in
    let os := if elided then os ++ [58] else os in
    let os := if (0 <? i)%nat then os ++ [58] else os in
    insert6_loop s6 n (S i) (used_zeros || elided) (os ++ hex_text (swap16 (group s6 i)))
  end.
Definition insert6 (a : sockaddr_in6) : list Z :=
  let '(used_zeros, os) := insert6_loop (s6_addr a) 8 0 false [91] in
  let os := if negb used_zeros && (group (s6_addr a) 7 =? 0) then os ++ [58; 58] else os in
  os ++ [93; 58] ++ decimal (swap16 (sin6_port a)).

(** [s6_addr[i] op= v] on the array of 16 bytes. *)
Definition update_byte (i : Z) (f : Z → Z) (s6 : list Z) : outcome (list Z) :=
  match s6 !! Z.to_nat i with Some b => Ok (<[Z.to_nat i := f b]> s6) | None => Undef OutOfBounds end.
(** [for(i = from; i < n; ++i) s6_addr[i] = v] *)
Fixpoint fill (n : nat) (i v : Z) (s6 : list Z) : outcome (list Z) :=
  match n with O => Ok s6 | S n => obind (update_byte i (λ _, v) s6) (fill n (i + 1) v) end.

Definition broadcast6 (prefix_len : Z) (a : sockaddr_in6) : outcome sockaddr_in6 :=
  obind (CreateMask 8 (prefix_len mod 8)) (λ m,
  obind (update_byte (prefix_len / 8) (λ b, Z.lor b m) (s6_addr a)) (λ s6,
  obind (fill (Z.to_nat (16 - (prefix_len / 8 + 1))) (prefix_len / 8 + 1) 255 s6) (λ s6,
  Ok (with_s6_addr s6 a)))).
Definition network6 (prefix_len : Z) (a : sockaddr_in6) : outcome sockaddr_in6 :=
  obind (CreateMask 8 (prefix_len mod 8)) (λ m,
  obind (update_byte (prefix_len / 8) (λ b, Z.land b m) (s6_addr a)) (λ s6,
  obind (fill (Z.to_nat (16 - (prefix_len / 8 + 1))) (prefix_len / 8 + 1) 0 s6) (λ s6,
  Ok (with_s6_addr s6 a)))).
Definition subnetMask6 (prefix_len : Z) : outcome sockaddr_in6 :=
  obind (CreateMask 8 (prefix_len mod 8)) (λ m,
  obind (update_byte (prefix_len / 8) (λ _, wrap 8 (Z.lnot m)) (replicate 16 0)) (λ s6,
  obind (fill (Z.to_nat (prefix_len / 8)) 0 255 s6) (λ s6,
  Ok (with_s6_addr s6 new_IPv6)))).
Definition getPort6 (a : sockaddr_in6) : Z := swap16 (sin6_port a).
Definition setPort6 (v : Z) (a : sockaddr_in6) : sockaddr_in6 :=
  mkIn6 (sin6_family a) (swap16 v) (sin6_flowinfo a) (s6_addr a) (sin6_scope_id a).

(** The virtual functions of [IPAddress]. *)
Definition is_ip (a : Address) : bool := match a with IPv4Address _ | IPv6Address _ => true | _ => false end.
Definition setPort (v : Z) (a : Address) : Address :=
  match a with IPv4Address m => IPv4Address (setPort4 v m) | IPv6Address m => IPv6Address (setPort6 v m) | a => a end.
Definition getPort (a : Address) : option Z :=
  match a with IPv4Address m => Some (getPort4 m) | IPv6Address m => Some (getPort6 m) | _ => None end.

(** ** UnixAddress and UnknownAddress *)
Definition new_Unix : Address := UnixAddress (mkUn AF_UNIX (replicate 108 0)) (PATH_OFFSET + MAX_PATH_LEN).
(** [memcpy] takes the terminating zero of [path.c_str()] along where the length
    says so. *)
Definition new_Unix_of (path : list Z) : outcome Address :=
  let m_length := wrap 32 (Z.of_nat (length path) + 1) in
  let m_length := if bool_decide (head path = Some 0) then wrap 32 (m_length - 1) else m_length in
  if PATH_SIZE <? m_length then Throw LogicError else
  Ok (UnixAddress (mkUn AF_UNIX (splice 0 (take (Z.to_nat m_length) (path ++ [0])) (replicate 108 0)))
    (wrap 32 (m_length + PATH_OFFSET))).
Definition setAddrLen (v : Z) (a : Address) : Address := match a with UnixAddress m _ => UnixAddress m v | a => a end.
(** Writing a [char*] reads up to the first zero, which has to be there. *)
Definition c_string (s : list Z) : outcome (list Z) :=
  if bool_decide (0 ∈ s) then Ok (c_str s) else Undef OutOfBounds.
Definition getPath (m : sockaddr_un) (m_length : Z) : outcome (list Z) :=
  if (PATH_OFFSET <? m_length) && bool_decide (head (sun_path m) = Some 0)
  then let n := wrap 64 (m_length - PATH_OFFSET - 1) in
       if PATH_SIZE - 1 <? n then Undef OutOfBounds
       else Ok ([92; 48] ++ take (Z.to_nat n) (drop 1 (sun_path m)))
  else c_string (sun_path m).

Definition new_Unknown (family : Z) : Address := UnknownAddress (mkSa (wrap 16 family) (replicate 14 0)).

(** [insert], which [toString] collects. *)
Definition toString (a : Address) : outcome (list Z) :=
  match a with
  | IPv4Address m => Ok (insert4 m)
  | IPv6Address m => Ok (insert6 m)
  | UnixAddress m n => getPath m n
  | UnknownAddress m => Ok (bytes_of_string "[UnknownAddress family=" ++ decimal (sa_family m) ++ [93])
  end.

(** ** Looking up *)
(** [memchr(s, c, n)]: the offset. *)
Fixpoint memchr (c : Z) (s : list Z) : option nat :=
  match s with [] => None | x :: s => if x =? c then Some 0%nat else S <$> memchr c s end.
(** The first part of [Lookup]: [node] and the string [service] points to, if any. *)
Definition split_host (host : list Z) : list Z * option (list Z) :=
  let '(node, service) :=
    match host with
    | 91 :: rest =>
      match memchr 93 rest with
      | Some e =>
        let after := drop (S e) rest in
        (take e rest, if bool_decide (head after = Some 58) then Some (c_str (drop 1 after)) else None)
      | None => ([], None)
      end
    | _ => ([], None)
    end in
  let '(node, service) :=
    if bool_decide (node = []) then
      match memchr 58 host with
      | Some i =>
        let rest := drop (S i) host in
        if bool_decide (memchr 58 rest = None) then (take i host, Some (c_str rest))
        else (node, Some (c_str (drop i host)))
      | None => (node, None)
      end
    else (node, service) in
  (if bool_decide (node = []) then host else node, service).

Section resolver.
(** [getaddrinfo(node, service, hints)]: the list of the [ai_addr] objects, or an error. *)
Context (getaddrinfo : list Z → option (list Z) → Z * Z * Z → option (list (option (list Z)))).
(** [getaddrinfo] with [AI_NUMERICHOST], and [inet_pton]. *)
Context (numeric_host : list Z → option (option (list Z))).
Context (inet_pton4 : list Z → option Z) (inet_pton6 : list Z → option (list Z)).

Fixpoint create_all (l : list (option (list Z))) : outcome (list (option Address)) :=
  match l with
  | [] => Ok []
  | addr :: l => obind (Create addr) (λ a, obind (create_all l) (λ r, Ok (a :: r)))
  end.
Definition Lookup (result : list (option Address)) (host : list Z) (family type protocol : Z)
    : outcome (bool * list (option Address)) :=
  let '(node, service) := split_host host in
  match getaddrinfo (c_str node) service (family, type, protocol) with
  | None => Ok (false, result)
  | Some results =>
    obind (create_all results) (λ l, let result := result ++ l in Ok (bool_decide (result ≠ []), result))
  end.
Definition LookupAny (host : list Z) (family type protocol : Z) : outcome (option Address) :=
  obind (Lookup [] host family type protocol) (λ '(ok, result),
  Ok (if ok : bool then default None (head result) else None)).
Definition LookupAnyIPAddress (host : list Z) (family type protocol : Z) : outcome (option Address) :=
  obind (Lookup [] host family type protocol) (λ '(ok, result),
  Ok (if ok : bool then head (filter (λ a, is_ip a = true) (omap id result)) else None)).

Definition IPAddress_Create (address : list Z) (port : Z) : outcome (option Address) :=
  match numeric_host address with
  | None => Ok None
  | Some addr =>
    obind (Create addr) (λ a, Ok (match a with Some a => if is_ip a then Some (setPort port a) else None | None => None end))
  end.
Definition IPv4_Create (address : list Z) (port : Z) : option sockaddr_in :=
  (λ v, with_s_addr v (setPort4 port (new_IPv4 0 0))) <$> inet_pton4 address.
Definition IPv6_Create (address : list Z) (port : Z) : option sockaddr_in6 :=
  (λ v, with_s6_addr v (setPort6 port new_IPv6)) <$> inet_pton6 address.
End resolver.

(** ** Interfaces *)
(** An entry of [getifaddrs]: its name, address and mask; either pointer may be null. *)
Record ifaddr := mkIf { ifa_name : list Z; ifa_addr : option (list Z); ifa_netmask : option (list Z) }.
(** The sum of [CountBytes] over the bytes of an address. *)
Definition count_all (s6 : list Z) : outcome Z :=
  foldl (λ acc b, obind acc (λ n, obind (CountBytes 8 b) (λ c, Ok (wrap 32 (n + c))))) (Ok 0) s6.
(** One round of the loop of [GetInterfaceAddresses]: what it inserts. *)
Definition interface (family : Z) (i : ifaddr) : outcome (option (Address * Z)) :=
  obind (of_option NullDeref (ifa_addr i)) (λ raw,
  let fam := le_val (peek 0 2 raw) in
  if negb (family =? AF_UNSPEC) && negb (family =? fam) then Ok None
  else if fam =? AF_INET then
    obind (Create (Some raw)) (λ a,
    obind (of_option NullDeref (ifa_netmask i)) (λ mask,
    obind (as_in mask) (λ m, obind (CountBytes 32 (s_addr m)) (λ n, Ok ((λ a, (a, n)) <$> a)))))
  else if fam =? AF_INET6 then
    obind (Create (Some raw)) (λ a,
    obind (of_option NullDeref (ifa_netmask i)) (λ mask,
    obind (as_in6 mask) (λ m, obind (count_all (s6_addr m)) (λ n, Ok ((λ a, (a, n)) <$> a)))))
  else Ok None).
(** The multimap in the order of insertion, which [equal_range] keeps for a key. *)
Fixpoint interfaces (family : Z) (l : list ifaddr) : outcome (list (list Z * (Address * Z))) :=
  match l with
  | [] => Ok []
  | i :: l =>
    obind (interface family i) (λ e, obind (interfaces family l) (λ r,
    Ok (match e with Some e => (ifa_name i, e) :: r | None => r end)))
  end.
(** [GetInterfaceAddresses(multimap&, family)] with what [getifaddrs] gave. *)
Definition GetInterfaceAddresses (ifs : option (list ifaddr)) (result : list (list Z * (Address * Z))) (family : Z)
    : outcome (bool * list (list Z * (Address * Z))) :=
  match ifs with
  | None => Ok (false, result)
  | Some l => obind (interfaces family l) (λ r, let result := result ++ r in Ok (bool_decide (result ≠ []), result))
  end.
(** The overload for one interface. *)
Definition GetInterfaceAddresses_of (ifs : option (list ifaddr)) (result : list (Address * Z)) (iface : list Z) (family : Z)
    : outcome (bool * list (Address * Z)) :=
  if bool_decide (iface = []) || bool_decide (iface = [42]) then
    Ok (true, result ++
      (if (family =? AF_INET) || (family =? AF_UNSPEC) then [(IPv4Address (new_IPv4 0 0), 0)] else []) ++
      (if (family =? AF_INET6) || (family =? AF_UNSPEC) then [(IPv6Address new_IPv6, 0)] else []))
  else
    obind (GetInterfaceAddresses ifs [] family) (λ '(ok, results),
    if negb ok then Ok (false, result) else
    let result := result ++ (filter (λ e, e.1 = iface) results).*2 in
    Ok (bool_decide (result ≠ []), result)).
