(* ===== verification/AddressThms.v ===== *)
(** * Properties of addresses

    Order and equality, object representations, masks. *)
From S2P Require Import Prelude ByteArray Text Http HttpThms Address.
Open Scope Z_scope.

(** ** Well-formed addresses *)
Definition in_ok (a : sockaddr_in) : Prop :=
  is_uint 16 (sin_family a) ∧ is_uint 16 (sin_port a) ∧ is_uint 32 (s_addr a) ∧
  length (sin_zero a) = 8%nat ∧ bytes_ok (sin_zero a).
Definition in6_ok (a : sockaddr_in6) : Prop :=
  is_uint 16 (sin6_family a) ∧ is_uint 16 (sin6_port a) ∧ is_uint 32 (sin6_flowinfo a) ∧
  length (s6_addr a) = 16%nat ∧ bytes_ok (s6_addr a) ∧ is_uint 32 (sin6_scope_id a).
Definition addr_ok (a : Address) : Prop :=
  match a with
  | IPv4Address m => in_ok m ∧ sin_family m = AF_INET
  | IPv6Address m => in6_ok m ∧ sin6_family m = AF_INET6
  | UnixAddress m n => length (sun_path m) = 108%nat ∧ 0 ≤ n ≤ 110
  | UnknownAddress m => is_uint 16 (sa_family m) ∧ sa_family m ≠ AF_INET ∧ sa_family m ≠ AF_INET6 ∧
      length (sa_data m) = 14%nat ∧ bytes_ok (sa_data m)
  end.

(** The bytes that count: what [getAddr] points to, up to [getAddrLen]. *)
Definition view (a : Address) : list Z := take (Z.to_nat (getAddrLen a)) (getAddr a).

Lemma getAddr_length a : addr_ok a → 0 ≤ getAddrLen a ≤ Z.of_nat (length (getAddr a)).
Proof.
  destruct a as [m|m|m n|m]; cbn [addr_ok getAddr getAddrLen];
    unfold in_ok, in6_ok, bytes_in, bytes_in6, bytes_un, bytes_sa; rewrite ?length_app, ?le_bytes_length; lia.
Qed.
Lemma view_length a : addr_ok a → Z.of_nat (length (view a)) = getAddrLen a.
Proof. intros Ha. apply getAddr_length in Ha. unfold view. rewrite length_take. lia. Qed.

(** ** Order *)
Lemma bytes_compare_prefix p : ∀ q, bytes_compare p q =
  match bytes_compare (take (length q) p) (take (length p) q) with
  | Eq => Nat.compare (length p) (length q) | c => c end.
Proof.
  induction p as [|x p IH]; intros [|y q]; try done. cbn [length take bytes_compare Nat.compare].
  rewrite IH. by destruct (x ?= y).
Qed.
Lemma take_view a n : (n ≤ Z.to_nat (getAddrLen a))%nat → take n (getAddr a) = take n (view a).
Proof. intros. unfold view. rewrite take_take. f_equal. lia. Qed.

Lemma addr_lt_view a b : addr_ok a → addr_ok b →
  addr_lt a b = Ok (if bytes_compare (view a) (view b) is Lt then true else false).
Proof.
  intros Ha Hb. pose proof (getAddr_length a Ha). pose proof (getAddr_length b Hb).
  pose proof (view_length a Ha) as La. pose proof (view_length b Hb) as Lb.
  unfold addr_lt, memcmp. rewrite (proj2 (orb_false_iff _ _)) by (rewrite !Z.ltb_ge; lia). cbn [obind].
  rewrite (bytes_compare_prefix (view a) (view b)), !take_view by lia.
  assert (∀ (x y : list Z), take (Nat.min (length x) (length y)) x = take (length y) x) as Ht.
  { intros x y. destruct (decide (length x ≤ length y)%nat);
      [rewrite Nat.min_l by lia; by rewrite !take_ge by lia|by rewrite Nat.min_r by lia]. }
  replace (Z.to_nat (getAddrLen a `min` getAddrLen b)) with (Nat.min (length (view a)) (length (view b))) by lia.
  rewrite Ht, (Nat.min_comm (length (view a))), Ht. destruct (bytes_compare _ _); try done.
  destruct (Nat.compare_spec (length (view a)) (length (view b))); destruct (Z.ltb_spec (getAddrLen a) (getAddrLen b)); done || lia.
Qed.
Lemma addr_eq_view a b : addr_ok a → addr_ok b → addr_eq a b = Ok (bool_decide (view a = view b)).
Proof.
  intros Ha Hb. pose proof (getAddr_length a Ha). pose proof (getAddr_length b Hb).
  unfold addr_eq. destruct (Z.eqb_spec (getAddrLen a) (getAddrLen b)) as [E|E].
  - unfold memcmp. rewrite (proj2 (orb_false_iff _ _)) by (rewrite !Z.ltb_ge; lia). cbn [obind]. f_equal.
    fold (view a). rewrite E. fold (view b). destruct (bytes_compare (view a) (view b)) eqn:C; symmetry.
    + apply bytes_compare_eq in C. by apply bool_decide_eq_true.
    + apply bool_decide_eq_false. intros E2. apply bytes_compare_eq in E2. congruence.
    + apply bool_decide_eq_false. intros E2. apply bytes_compare_eq in E2. congruence.
  - rewrite bool_decide_false; [done|]. intros E2. rewrite <- !view_length in E by done. congruence.
Qed.

Definition lt_addr (a b : Address) : Prop := addr_lt a b = Ok true.
Definition eq_addr (a b : Address) : Prop := addr_eq a b = Ok true.
Lemma lt_addr_view a b : addr_ok a → addr_ok b → lt_addr a b ↔ bytes_compare (view a) (view b) = Lt.
Proof. intros. unfold lt_addr. rewrite addr_lt_view by done. by destruct (bytes_compare _ _). Qed.
Lemma eq_addr_view a b : addr_ok a → addr_ok b → eq_addr a b ↔ bytes_compare (view a) (view b) = Eq.
Proof.
  intros. unfold eq_addr. rewrite addr_eq_view, bytes_compare_eq by done.
  split; [intros [= E]; by apply bool_decide_eq_true in E|intros E; by rewrite bool_decide_true].
Qed.

(** Comparing numbers in network order. *)
Lemma compare_big_endian p : ∀ q, length p = length q → bytes_ok p → bytes_ok q →
  bytes_compare p q = Z.compare (le_val (rev p)) (le_val (rev q)).
Proof.
  induction p as [|x p IH]; intros [|y q]; try done. cbn [length rev bytes_compare]. intros [= Hl] Hp Hq.
  apply Forall_cons in Hp as [Hx Hp], Hq as [Hy Hq]. rewrite !le_val_app, !length_rev, Hl. cbn [le_val].
  rewrite !Z.mul_0_r, !Z.add_0_r.
  pose proof (le_val_bound (rev p) (Forall_rev Hp)) as Bp.
  pose proof (le_val_bound (rev q) (Forall_rev Hq)) as Bq. rewrite length_rev in Bp, Bq. rewrite Hl in Bp.
  set (B := 2 ^ _) in *. destruct (Z.compare_spec x y) as [->|E|E]; symmetry.
  - rewrite IH by done. destruct (Z.compare_spec (le_val (rev p)) (le_val (rev q)));
      [apply Z.compare_eq_iff|apply Z.compare_lt_iff|apply Z.compare_gt_iff]; lia.
  - apply Z.compare_lt_iff. nia.
  - apply Z.compare_gt_iff. nia.
Qed.
Lemma compare_swapped n x y : is_uint (8 * Z.of_nat n) x → is_uint (8 * Z.of_nat n) y →
  bytes_compare (le_bytes n (bswap n x)) (le_bytes n (bswap n y)) = Z.compare x y.
Proof.
  intros Hx Hy. rewrite !bswap_bytes.
  rewrite compare_big_endian, !rev_involutive, !le_val_bytes, !wrap_small;
    rewrite ?length_rev, ?le_bytes_length; auto using Forall_rev, le_bytes_ok.
Qed.
Lemma bytes_compare_app p : ∀ q p' q', length p = length q →
  bytes_compare (p ++ p') (q ++ q') = match bytes_compare p q with Eq => bytes_compare p' q' | c => c end.
Proof.
  induction p as [|x p IH]; intros [|y q] p' q'; try done. intros [= Hl]. cbn [app bytes_compare].
  destruct (x ?= y); [by apply IH|done..].
Qed.
Lemma bytes_compare_refl p : bytes_compare p p = Eq.
Proof. by apply bytes_compare_eq. Qed.

(** *** Representation *)
Lemma peek_app off n (p q r : list Z) : length p = off → length q = n → peek off n (p ++ q ++ r) = q.
Proof. intros <- <-. unfold peek. by rewrite drop_app_length, take_app_length. Qed.
Lemma peek_head n (q r : list Z) : length q = n → peek 0 n (q ++ r) = q.
Proof. by apply (peek_app 0 n []). Qed.
Lemma peek_last off n (p q : list Z) : length p = off → length q = n → peek off n (p ++ q) = q.
Proof. intros. rewrite <- (app_nil_r q) at 1. by apply peek_app. Qed.
Lemma le_val_le_bytes n z : is_uint (8 * Z.of_nat n) z → le_val (le_bytes n z) = z.
Proof. intros. by rewrite le_val_bytes, wrap_small. Qed.

(** Splitting a structure into its members. *)
Ltac members :=
  rewrite ?app_assoc; repeat rewrite <- (app_assoc _ _ (_ ++ _));
  rewrite ?length_app, ?le_bytes_length; try done; try lia.

Lemma bytes_in_ok m : in_ok m → length (bytes_in m) = 16%nat ∧ as_in (bytes_in m) = Ok m.
Proof.
  destruct m as [f p a z]. unfold in_ok, bytes_in. cbn [sin_family sin_port s_addr sin_zero]. intros (Hf & Hp & Ha & Hz & _).
  assert (length (le_bytes 2 f ++ le_bytes 2 p ++ le_bytes 4 a ++ z) = 16%nat) as L by members.
  split; [done|]. unfold as_in. rewrite L. cbn [Nat.ltb Nat.leb]. do 2 f_equal.
  - rewrite (peek_head 2) by members. by apply (le_val_le_bytes 2).
  - rewrite (peek_app 2 2) by members. by apply (le_val_le_bytes 2).
  - rewrite app_assoc, (peek_app 4 4) by members. by apply (le_val_le_bytes 4).
  - rewrite !app_assoc. by apply (peek_last 8 8); members.
Qed.
Lemma bytes_in6_ok m : in6_ok m → length (bytes_in6 m) = 28%nat ∧ as_in6 (bytes_in6 m) = Ok m.
Proof.
  destruct m as [f p fl a s]. unfold in6_ok, bytes_in6. cbn [sin6_family sin6_port sin6_flowinfo s6_addr sin6_scope_id].
  intros (Hf & Hp & Hl & Ha & _ & Hs).
  assert (length (le_bytes 2 f ++ le_bytes 2 p ++ le_bytes 4 fl ++ a ++ le_bytes 4 s) = 28%nat) as L by members.
  split; [done|]. unfold as_in6. rewrite L. cbn [Nat.ltb Nat.leb]. do 2 f_equal.
  - rewrite (peek_head 2) by members. by apply (le_val_le_bytes 2).
  - rewrite (peek_app 2 2) by members. by apply (le_val_le_bytes 2).
  - rewrite app_assoc, (peek_app 4 4) by members. by apply (le_val_le_bytes 4).
  - rewrite !app_assoc, <- (app_assoc _ a). by apply (peek_app 8 16); members.
  - rewrite !app_assoc, (peek_last 24 4) by members. by apply (le_val_le_bytes 4).
Qed.
Lemma bytes_sa_ok m : is_uint 16 (sa_family m) → length (sa_data m) = 14%nat →
  length (bytes_sa m) = 16%nat ∧ as_sa (bytes_sa m) = Ok m.
Proof.
  destruct m as [f d]. unfold bytes_sa. cbn [sa_family sa_data]. intros Hf Hd.
  assert (length (le_bytes 2 f ++ d) = 16%nat) as L by members.
  split; [done|]. unfold as_sa. rewrite L. cbn [Nat.ltb Nat.leb]. do 2 f_equal.
  - rewrite (peek_head 2) by members. by apply (le_val_le_bytes 2).
  - by apply (peek_last 2 14); members.
Qed.
Lemma family_ok f (rest : list Z) : is_uint 16 f → le_val (peek 0 2 (le_bytes 2 f ++ rest)) = f.
Proof. intros. rewrite (peek_head 2) by members. by apply (le_val_le_bytes 2). Qed.

Definition is_unix (a : Address) : bool := if a is UnixAddress _ _ then true else false.
Lemma Create_getAddr a : addr_ok a → is_unix a = false → Create (Some (getAddr a)) = Ok (Some a).
Proof.
  destruct a as [m|m|m n|m]; cbn [addr_ok is_unix getAddr]; try done; unfold Create.
  - intros [Hm Hf] _. destruct (bytes_in_ok m Hm) as [_ E]. rewrite E. unfold bytes_in.
    by rewrite family_ok, Hf by apply Hm.
  - intros [Hm Hf] _. destruct (bytes_in6_ok m Hm) as [_ E]. rewrite E. unfold bytes_in6.
    by rewrite family_ok, Hf by apply Hm.
  - intros (Hu & H4 & H6 & Hd & _) _. destruct (bytes_sa_ok m Hu Hd) as [_ E]. rewrite E. unfold bytes_sa.
    rewrite family_ok by done. by rewrite (proj2 (Z.eqb_neq _ _) H4), (proj2 (Z.eqb_neq _ _) H6).
Qed.
Lemma view_getAddr a : addr_ok a → is_unix a = false → view a = getAddr a.
Proof.
  intros Ha Hu. unfold view. apply take_ge. destruct a as [m|m|m n|m]; cbn [addr_ok is_unix getAddr getAddrLen] in *; try done.
  - by rewrite (proj1 (bytes_in_ok m (proj1 Ha))).
  - by rewrite (proj1 (bytes_in6_ok m (proj1 Ha))).
  - destruct Ha as (? & _ & _ & ? & _). by rewrite (proj1 (bytes_sa_ok m ltac:(done) ltac:(done))).
Qed.

(** *** The order *)
(** [operator<] and [operator==] are defined on all well-formed addresses; [==] is
    equality of the bytes that count, [<] is a strict order, and any two addresses
    compare in exactly one of the three ways, so that sets and maps of addresses
    are sound.  For IP addresses [==] is equality of the addresses. *)
Theorem address_order a b c : addr_ok a → addr_ok b → addr_ok c →
  (∃ r e, addr_lt a b = Ok r ∧ addr_eq a b = Ok e ∧ addr_ne a b = Ok (negb e)) ∧
  (eq_addr a b ↔ view a = view b) ∧
  (is_ip a = true → is_ip b = true → (eq_addr a b ↔ a = b)) ∧
  (lt_addr a b ∧ ¬ eq_addr a b ∧ ¬ lt_addr b a ∨ ¬ lt_addr a b ∧ eq_addr a b ∧ ¬ lt_addr b a ∨
   ¬ lt_addr a b ∧ ¬ eq_addr a b ∧ lt_addr b a) ∧
  (lt_addr a b → lt_addr b c → lt_addr a c).
Proof.
  intros Ha Hb Hc. assert (eq_addr a b ↔ view a = view b) as E by (rewrite eq_addr_view, bytes_compare_eq by done; done).
  split_and!; [|done| | |].
  - unfold addr_ne. rewrite addr_lt_view, addr_eq_view by done. eauto.
  - intros Ia Ib. assert (∀ x, is_ip x = true → is_unix x = false) as Hu by by intros [].
    rewrite E, !view_getAddr by auto. split; [|by intros ->]. intros G.
    pose proof (Create_getAddr a Ha (Hu _ Ia)) as C. rewrite G, (Create_getAddr b Hb (Hu _ Ib)) in C. congruence.
  - rewrite !lt_addr_view, eq_addr_view by done. rewrite (bytes_compare_antisym (view a) (view b)).
    destruct (bytes_compare (view a) (view b)); cbn; intuition congruence.
  - rewrite !lt_addr_view by done. apply bytes_compare_trans.
Qed.

Lemma zeros_ok n : bytes_ok (replicate n 0).
Proof. by apply Forall_replicate. Qed.
Lemma new_IPv4_ok x p : addr_ok (IPv4Address (new_IPv4 x p)).
Proof.
  split; [|done]. do 3 (split; [first [done | apply (bswap_bound 2) | apply (bswap_bound 4)]|]).
  split; [done|apply zeros_ok].
Qed.

Lemma address_order_witness :
  let a := IPv4Address (new_IPv4 1 80) in let b := IPv6Address new_IPv6 in let c := new_Unknown 16 in
  (∃ r e, addr_lt a b = Ok r ∧ addr_eq a b = Ok e ∧ addr_ne a b = Ok (negb e)) ∧
  (eq_addr a b ↔ view a = view b) ∧
  (is_ip a = true → is_ip b = true → (eq_addr a b ↔ a = b)) ∧
  (lt_addr a b ∧ ¬ eq_addr a b ∧ ¬ lt_addr b a ∨ ¬ lt_addr a b ∧ eq_addr a b ∧ ¬ lt_addr b a ∨
   ¬ lt_addr a b ∧ ¬ eq_addr a b ∧ lt_addr b a) ∧
  (lt_addr a b → lt_addr b c → lt_addr a c).
Proof.
  intros a b c. apply (address_order a b c).
  - apply new_IPv4_ok.
  - by vm_compute; repeat split; repeat constructor.
  - by vm_compute; repeat split; repeat constructor.
Defined.

(** IPv4 addresses are ordered by port, then by address. *)
Lemma ipv4_order x p y q : is_uint 32 x → is_uint 32 y → is_uint 16 p → is_uint 16 q →
  lt_addr (IPv4Address (new_IPv4 x p)) (IPv4Address (new_IPv4 y q)) ↔ p < q ∨ p = q ∧ x < y.
Proof.
  intros. rewrite lt_addr_view, !view_getAddr by (done || apply new_IPv4_ok). cbn [getAddr]. unfold bytes_in.
  cbn [sin_family sin_port s_addr sin_zero new_IPv4]. unfold byteswapOnLittleEndian, byteswap.
  rewrite !bytes_compare_app, bytes_compare_refl by by rewrite !le_bytes_length.
  rewrite !(compare_swapped 2), !(compare_swapped 4), bytes_compare_refl by done.
  destruct (Z.compare_spec p q), (Z.compare_spec x y); intuition (lia || congruence).
Qed.
