(* ===== verification/AddressMasks.v ===== *)
(** * Masks of addresses

    What broadcast address, network address and subnet mask are, bit by bit, and
    the length of a prefix read off a mask. *)
From S2P Require Import Prelude ByteArray Address.
Open Scope Z_scope.

(** ** Bits of bytes *)
Lemma byte_high b i : is_byte b → 8 ≤ i → Z.testbit b i = false.
Proof.
  intros Hb Hi. unfold is_byte, is_uint in Hb. rewrite <- (Z.mod_small b (2 ^ 8)) by done. by apply Z.mod_pow2_bits_high.
Qed.
Lemma le_val_testbit bs : ∀ i, bytes_ok bs → 0 ≤ i →
  Z.testbit (le_val bs) i = Z.testbit (default 0 (bs !! Z.to_nat (i / 8))) (i mod 8).
Proof.
  induction bs as [|b bs IH]; intros i Hb Hi; cbn [le_val]; [by rewrite !Z.bits_0|]. apply Forall_cons in Hb as [Hb Hbs].
  replace (b + 256 * le_val bs) with (Z.lor (Z.shiftl (le_val bs) 8) b) by (rewrite lor_add by (done || lia); lia).
  rewrite Z.lor_spec. destruct (decide (i < 8)).
  - rewrite Z.shiftl_spec_low, Z.div_small, Z.mod_small by lia. done.
  - rewrite Z.shiftl_spec, (byte_high b i), orb_false_r, IH by (done || lia).
    replace (Z.to_nat (i / 8)) with (S (Z.to_nat ((i - 8) / 8))) by (replace i with (i - 8 + 1 * 8) at 2 by lia;
      rewrite Z.div_add by lia; pose proof (Z.div_pos (i - 8) 8); lia).
    cbn [lookup list_lookup]. f_equal. replace i with (i - 8 + 1 * 8) at 2 by lia. by rewrite Z.mod_add.
Qed.
Lemma le_bytes_lookup n : ∀ z k, (k < n)%nat → le_bytes n z !! k = Some (wrap 8 (Z.shiftr z (8 * Z.of_nat k))).
Proof.
  induction n as [|n IH]; intros z k Hk; [lia|]. destruct k as [|k]; cbn [le_bytes lookup list_lookup]; [by rewrite Z.shiftr_0_r|].
  rewrite IH, Z.shiftr_shiftr by lia. do 3 f_equal. lia.
Qed.
(** Swapping moves the bits of byte [k] to byte [n - 1 - k]. *)
Lemma bswap_testbit n z i : 0 ≤ i →
  Z.testbit (bswap n z) i = (i <? 8 * Z.of_nat n) && Z.testbit z (8 * (Z.of_nat n - 1 - i / 8) + i mod 8).
Proof.
  intros Hi. unfold bswap. rewrite le_val_testbit by (auto using Forall_rev, le_bytes_ok).
  pose proof (Z.div_mod i 8 ltac:(lia)). pose proof (Z.mod_pos_bound i 8 ltac:(lia)). pose proof (Z.div_pos i 8 Hi ltac:(lia)).
  destruct (Z.ltb_spec i (8 * Z.of_nat n)); cbn [andb].
  - rewrite rev_alt; change (rev_append ?l []) with (reverse l); rewrite reverse_lookup, le_bytes_length, le_bytes_lookup by (rewrite ?le_bytes_length; lia).
    cbn [default from_option id]. unfold wrap. rewrite Z.mod_pow2_bits_low, Z.shiftr_spec by lia. f_equal. lia.
  - rewrite lookup_ge_None_2, Z.bits_0; [done|]. rewrite length_rev, le_bytes_length. lia.
Qed.
(** So it commutes with the operations that work bit by bit. *)
Lemma bswap_lor n a b : bswap n (Z.lor a b) = Z.lor (bswap n a) (bswap n b).
Proof. apply Z.bits_inj'. intros i Hi. by rewrite Z.lor_spec, !bswap_testbit, Z.lor_spec, andb_orb_distrib_r. Qed.
Lemma bswap_land n a b : bswap n (Z.land a b) = Z.land (bswap n a) (bswap n b).
Proof.
  apply Z.bits_inj'. intros i Hi. rewrite Z.land_spec, !bswap_testbit, Z.land_spec by done. by destruct (_ <? _).
Qed.
Lemma bswap_lnot n a : bswap n (wrap (8 * Z.of_nat n) (Z.lnot a)) = wrap (8 * Z.of_nat n) (Z.lnot (bswap n a)).
Proof.
  apply Z.bits_inj'. intros i Hi. unfold wrap.
  pose proof (Z.div_mod i 8 ltac:(lia)). pose proof (Z.mod_pos_bound i 8 ltac:(lia)). pose proof (Z.div_pos i 8 Hi ltac:(lia)).
  rewrite bswap_testbit by done. destruct (Z.ltb_spec i (8 * Z.of_nat n)); cbn [andb].
  - rewrite !Z.mod_pow2_bits_low, !Z.lnot_spec, bswap_testbit, (proj2 (Z.ltb_lt _ _)) by lia. done.
  - by rewrite Z.mod_pow2_bits_high by lia.
Qed.
Lemma swap32_swap32 z : is_uint 32 z → swap32 (swap32 z) = z.
Proof. intros Hz. unfold byteswapOnLittleEndian, byteswap. rewrite bswap_involutive. by apply wrap_small. Qed.

(** ** Counting bits *)
Fixpoint ones (p : positive) : nat := match p with xH => 1 | xO p => ones p | xI p => S (ones p) end.
(** The number of ones of a numeral. *)
Definition bit_count (z : Z) : Z := match z with Zpos p => Z.of_nat (ones p) | _ => 0 end.
Lemma clear_lowest p : ∃ z, Z.land (Zpos p) (Zpos p - 1) = z ∧ 0 ≤ z ∧ bit_count z + 1 = bit_count (Zpos p).
Proof.
  induction p as [p IH|p IH|].
  - exists (2 * Zpos p). split; [|split; [lia|change (Z.of_nat (ones p) + 1 = Z.of_nat (S (ones p))); lia]].
    replace (Zpos p~1 - 1) with (2 * Zpos p) by lia. replace (Zpos p~1) with (2 * Zpos p + 1) by lia.
    apply Z.bits_inj'. intros i Hi. rewrite Z.land_spec. destruct (decide (i = 0)) as [->|].
    + by rewrite Z.testbit_even_0, andb_false_r.
    + replace i with (Z.succ (i - 1)) by lia. rewrite Z.testbit_odd_succ, Z.testbit_even_succ by lia. by rewrite andb_diag.
  - destruct IH as (z & E & Hz & C). exists (2 * z). split; [|split; [lia|]].
    + rewrite <- E. replace (Zpos p~0 - 1) with (2 * (Zpos p - 1) + 1) by lia. replace (Zpos p~0) with (2 * Zpos p) by lia.
      apply Z.bits_inj'. intros i Hi. rewrite Z.land_spec. destruct (decide (i = 0)) as [->|].
      * by rewrite !Z.testbit_even_0.
      * replace i with (Z.succ (i - 1)) by lia. rewrite Z.testbit_odd_succ, !Z.testbit_even_succ by lia. by rewrite Z.land_spec.
    + change (bit_count (Zpos p~0)) with (bit_count (Zpos p)). rewrite <- C. by destruct z.
  - by exists 0.
Qed.
Lemma CountBytes_loop_exact fuel : ∀ v r, 0 ≤ v → bit_count v ≤ Z.of_nat fuel → CountBytes_loop fuel v r = Ok (r + bit_count v).
Proof.
  induction fuel as [|fuel IH]; intros v r Hv Hf; (destruct v as [|p|]; [cbn; f_equal; lia| |lia]); cbn [CountBytes_loop Z.eqb].
  - destruct (clear_lowest p) as (z & _ & Hz & C). destruct z; cbn -[Z.of_nat] in *; lia.
  - destruct (clear_lowest p) as (z & E & Hz & C). rewrite E, IH by lia. f_equal. lia.
Qed.
Lemma ones_size p : (ones p ≤ Pos.size_nat p)%nat.
Proof. induction p; cbn -[Z.of_nat]; lia. Qed.
Lemma popcount_bound w v : is_uint w v → 0 ≤ bit_count v ≤ Z.max 0 w.
Proof.
  intros [Hv Hw]. destruct v as [|p|]; cbn [bit_count]; try lia. split; [lia|].
  pose proof (ones_size p). assert (Z.of_nat (Pos.size_nat p) ≤ w); [|lia].
  destruct (decide (0 ≤ w)); [|rewrite Z.pow_neg_r in Hw by lia; lia].
  assert (2 ^ (Z.of_nat (Pos.size_nat p) - 1) ≤ Zpos p) as L.
  { clear. induction p as [p IH|p IH|]; cbn [Pos.size_nat]; [| |cbn -[Z.of_nat]; lia].
    all: rewrite Nat2Z.inj_succ; replace (Z.succ _ - 1) with (Z.succ (Z.of_nat (Pos.size_nat p) - 1)) by lia;
      rewrite Z.pow_succ_r; [lia|]; destruct p; cbn [Pos.size_nat]; lia. }
  assert (Z.of_nat (Pos.size_nat p) - 1 < w); [|lia]. apply (Z.pow_lt_mono_r_iff 2); lia.
Qed.
Lemma CountBytes_popcount w v : is_uint w v → 0 ≤ w → CountBytes w v = Ok (bit_count v).
Proof. intros Hv Hw. unfold CountBytes. apply popcount_bound in Hv as ?. destruct Hv. rewrite CountBytes_loop_exact by lia. done. Qed.

(** ** Masks of IPv4 addresses *)
Lemma CreateMask_ok w p : 2 ≤ p ≤ 32 ∧ w = 32 ∨ 0 ≤ p < 8 ∧ w = 8 → CreateMask w p = Ok (Z.ones (w - p)).
Proof.
  intros H. unfold CreateMask. assert (0 ≤ w - p < 31) as Hn by lia. rewrite (wrap_small 64) by lia.
  destruct (Z.leb_spec 31 (w - p)); [lia|]. rewrite Z.ones_equiv. f_equal.
  assert (0 < 2 ^ (w - p) ≤ 2 ^ w) by (split; [apply Z.pow_pos_nonneg; lia|apply Z.pow_le_mono_r; lia]).
  apply wrap_small. lia.
Qed.
Lemma CreateMask_undefined p : 0 ≤ p < 2 ^ 32 → p < 2 ∨ 32 < p → CreateMask 32 p = Undef Overflow.
Proof.
  intros Hp H. unfold CreateMask, wrap.
  assert (31 ≤ (32 - p) mod 2 ^ 64); [|by rewrite (proj2 (Z.leb_le _ _)) by lia].
  destruct H; [rewrite Z.mod_small; lia|].
  replace (32 - p) with (2 ^ 64 + 32 - p + (-1) * 2 ^ 64) by lia. rewrite Z.mod_add, Z.mod_small; lia.
Qed.

(** The address in host order. *)
Definition host4 (a : sockaddr_in) : Z := swap32 (s_addr a).
Lemma ones_small n : 0 ≤ n ≤ 32 → is_uint 32 (Z.ones n).
Proof.
  intros Hn. rewrite Z.ones_equiv. unfold is_uint. pose proof (Z.pow_pos_nonneg 2 n ltac:(lia) ltac:(lia)).
  pose proof (Z.pow_le_mono_r 2 n 32). lia.
Qed.
Lemma subnet_prefix p : 2 ≤ p ≤ 32 → CountBytes 32 (wrap 32 (Z.lnot (swap32 (Z.ones (32 - p))))) = Ok p.
Proof.
  intros Hp. assert (forallb (λ p, (p <? 2) ||
    bool_decide (CountBytes 32 (wrap 32 (Z.lnot (swap32 (Z.ones (32 - p))))) = Ok p)) (seqZ 0 33) = true) as H by reflexivity.
  rewrite forallb_forall in H. specialize (H p). rewrite <- list_elem_of_In, elem_of_seqZ in H. specialize (H ltac:(lia)).
  apply orb_true_iff in H as [H|H]; [apply Z.ltb_lt in H; lia|]. by apply bool_decide_eq_true in H.
Qed.

(** For a prefix of 2 to 32 bits: [broadcastAddress] sets the host bits and keeps the
    prefix and the port; [subnetMask] is the mask of the prefix, and the length that
    [GetInterfaceAddresses] reads off it is the prefix's; [networdAddress] gives the
    host part of the address, not the network.  A longer prefix gives no address, and
    for one of 0 or 1 bits, and for the mask of a longer one, the shift or the
    subtraction of [CreateMask] has no defined result. *)
Theorem ipv4_masks a p : is_uint 32 p →
  (2 ≤ p ≤ 32 → ∃ b n m,
    broadcast4 p a = Ok (Some b) ∧ host4 b = Z.lor (host4 a) (Z.ones (32 - p)) ∧ getPort4 b = getPort4 a ∧
    network4 p a = Ok (Some n) ∧ host4 n = host4 a mod 2 ^ (32 - p) ∧ getPort4 n = getPort4 a ∧
    subnetMask4 p = Ok (Some m) ∧ host4 m = 2 ^ 32 - 2 ^ (32 - p) ∧ CountBytes 32 (s_addr m) = Ok p) ∧
  (p < 2 → broadcast4 p a = Undef Overflow ∧ network4 p a = Undef Overflow) ∧
  (32 < p → broadcast4 p a = Ok None ∧ network4 p a = Ok None) ∧
  (p < 2 ∨ 32 < p → subnetMask4 p = Undef Overflow).
Proof.
  intros Hp. unfold is_uint in Hp. unfold broadcast4, network4, subnetMask4. split_and!; intros H.
  - rewrite (proj2 (Z.ltb_ge 32 p)), (CreateMask_ok 32 p) by lia. cbn [obind]. do 3 eexists. split_and!; try reflexivity.
    + unfold host4. cbn [s_addr with_s_addr]. unfold byteswapOnLittleEndian, byteswap at 1. rewrite bswap_lor. f_equal.
      apply swap32_swap32, ones_small. lia.
    + unfold host4. cbn [s_addr with_s_addr]. unfold byteswapOnLittleEndian, byteswap at 1. rewrite bswap_land.
      change (bswap 4 (swap32 ?x)) with (swap32 (swap32 x)). rewrite swap32_swap32 by (apply ones_small; lia).
      by rewrite Z.land_ones by lia.
    + unfold host4. cbn [s_addr]. unfold byteswapOnLittleEndian, byteswap at 1. rewrite (bswap_lnot 4).
      change (bswap 4 (swap32 ?x)) with (swap32 (swap32 x)). rewrite swap32_swap32 by (apply ones_small; lia).
      change (8 * Z.of_nat 4) with 32. rewrite Z.ones_equiv. unfold wrap, Z.lnot.
      pose proof (Z.pow_pos_nonneg 2 (32 - p) ltac:(lia) ltac:(lia)). pose proof (Z.pow_le_mono_r 2 (32 - p) 32).
      rewrite <- (Z.mod_add _ 1), Z.mod_small; lia.
    + by apply subnet_prefix.
  - rewrite (proj2 (Z.ltb_ge 32 p)) by lia. by rewrite CreateMask_undefined by lia.
  - by rewrite (proj2 (Z.ltb_lt 32 p)) by lia.
  - by rewrite CreateMask_undefined by lia.
Qed.

(** 192.168.1.77/24: the broadcast address is 192.168.1.255, the network 0.0.0.77. *)
Lemma ipv4_masks_witness : is_uint 32 24 ∧ 2 ≤ 24 ≤ 32 ∧
  ∃ b n m, let a := new_IPv4 3232235853 80 in
    broadcast4 24 a = Ok (Some b) ∧ host4 b = Z.lor (host4 a) (Z.ones (32 - 24)) ∧ getPort4 b = getPort4 a ∧
    network4 24 a = Ok (Some n) ∧ host4 n = host4 a mod 2 ^ (32 - 24) ∧ getPort4 n = getPort4 a ∧
    subnetMask4 24 = Ok (Some m) ∧ host4 m = 2 ^ 32 - 2 ^ (32 - 24) ∧ CountBytes 32 (s_addr m) = Ok 24.
Proof.
  assert (is_uint 32 24) as Hp by done. assert (2 ≤ 24 ≤ 32) as Hr by lia. split; [done|]. split; [done|].
  exact (proj1 (ipv4_masks (new_IPv4 3232235853 80) 24 Hp) Hr).
Defined.
Example network_is_host_part : host4 <$> (match network4 24 (new_IPv4 3232235853 80) with Ok r => r | _ => None end) = Some 77.
Proof. reflexivity. Qed.

(** ** Masks of IPv6 addresses *)
(** Bit [i] of an address of 16 bytes, the first bit on the wire being bit 0. *)
Definition bit6 (s6 : list Z) (i : Z) : bool := Z.testbit (default 0 (s6 !! Z.to_nat (i / 8))) (7 - i mod 8).

Lemma update_byte_ok i f s6 : 0 ≤ i < Z.of_nat (length s6) →
  ∃ b, s6 !! Z.to_nat i = Some b ∧ update_byte i f s6 = Ok (<[Z.to_nat i := f b]> s6).
Proof.
  intros Hi. destruct (lookup_lt_is_Some_2 s6 (Z.to_nat i)) as [b Hb]; [lia|]. exists b. unfold update_byte. by rewrite Hb.
Qed.
Lemma update_byte_out i f s6 : Z.of_nat (length s6) ≤ i → update_byte i f s6 = Undef OutOfBounds.
Proof. intros Hi. unfold update_byte. by rewrite lookup_ge_None_2 by lia. Qed.
Lemma fill_ok n v : ∀ i s6, 0 ≤ i → i + Z.of_nat n ≤ Z.of_nat (length s6) →
  ∃ s6', fill n i v s6 = Ok s6' ∧ length s6' = length s6 ∧
    ∀ k : nat, s6' !! k = if bool_decide (i ≤ Z.of_nat k < i + Z.of_nat n) then Some v else s6 !! k.
Proof.
  induction n as [|n IH]; intros i s6 Hi Hn; cbn [fill].
  { exists s6. split; [done|]. split; [done|]. intros k. by rewrite bool_decide_false by lia. }
  destruct (update_byte_ok i (λ _, v) s6 ltac:(lia)) as (b & Hb & ->). cbn [obind].
  destruct (IH (i + 1) (<[Z.to_nat i := v]> s6) ltac:(lia) ltac:(rewrite length_insert; lia)) as (s6' & -> & Hl & Hk).
  exists s6'. split; [done|]. rewrite length_insert in Hl. split; [done|]. intros k. rewrite Hk.
  destruct (decide (k = Z.to_nat i)) as [->|Hne].
  - rewrite bool_decide_false, list_lookup_insert_eq, bool_decide_true by lia. done.
  - rewrite list_lookup_insert_ne by done. destruct (decide (i + 1 ≤ Z.of_nat k < i + 1 + Z.of_nat n));
      [by rewrite !bool_decide_true by lia|by rewrite !bool_decide_false by lia].
Qed.

(** What a byte operation on the byte of the prefix and a fill of the rest do to the bits. *)
Lemma edit_bits s6 p f v : length s6 = 16%nat → 0 ≤ p < 128 →
  ∃ s1 s2 b, update_byte (p / 8) f s6 = Ok s1 ∧ s6 !! Z.to_nat (p / 8) = Some b ∧
    fill (Z.to_nat (16 - (p / 8 + 1))) (p / 8 + 1) v s1 = Ok s2 ∧
    ∀ i, 0 ≤ i < 128 → bit6 s2 i =
      if i / 8 <? p / 8 then bit6 s6 i
      else if i / 8 =? p / 8 then Z.testbit (f b) (7 - i mod 8) else Z.testbit v (7 - i mod 8).
Proof.
  intros Hl Hp. assert (0 ≤ p / 8 < 16) as Hq by (Z.to_euclidean_division_equations; lia).
  destruct (update_byte_ok (p / 8) f s6 ltac:(lia)) as (b & Hb & Hu).
  destruct (fill_ok (Z.to_nat (16 - (p / 8 + 1))) v (p / 8 + 1) (<[Z.to_nat (p / 8) := f b]> s6)) as (s2 & Hf & _ & Hk);
    [lia|rewrite length_insert; lia|].
  eexists _, s2, b. split; [done|]. split; [done|]. split; [done|]. intros i Hi. unfold bit6. rewrite Hk.
  assert (0 ≤ i / 8 < 16) as Hi8 by (Z.to_euclidean_division_equations; lia).
  destruct (Z.ltb_spec (i / 8) (p / 8)); [|destruct (Z.eqb_spec (i / 8) (p / 8)) as [E|]].
  - by rewrite bool_decide_false, list_lookup_insert_ne by lia.
  - by rewrite bool_decide_false, E, list_lookup_insert_eq by lia.
  - by rewrite bool_decide_true by lia.
Qed.
Lemma bit_of_byte p i m : 0 ≤ p → 0 ≤ i → i / 8 = p / 8 → m = 7 - i mod 8 → Z.testbit (Z.ones (8 - p mod 8)) m = negb (i <? p).
Proof.
  intros Hp Hi E ->. pose proof (Z.mod_pos_bound i 8). pose proof (Z.mod_pos_bound p 8).
  rewrite Z.testbit_ones_nonneg by lia.
  destruct (Z.ltb_spec i p), (Z.ltb_spec (7 - i mod 8) (8 - p mod 8)); try done; Z.to_euclidean_division_equations; lia.
Qed.
Lemma bit_255 i : Z.testbit 255 (7 - i mod 8) = true.
Proof.
  change 255 with (Z.ones 8). pose proof (Z.mod_pos_bound i 8). rewrite Z.testbit_ones_nonneg by lia. apply Z.ltb_lt. lia.
Qed.
Lemma div8_lt p i : 0 ≤ p → 0 ≤ i → i / 8 ≠ p / 8 → (i / 8 <? p / 8) = (i <? p).
Proof.
  intros. destruct (Z.ltb_spec (i / 8) (p / 8)), (Z.ltb_spec i p); try done; Z.to_euclidean_division_equations; lia.
Qed.

(** The prefix length [GetInterfaceAddresses] reads off a mask. *)
Lemma subnet_prefix6 p : 0 ≤ p < 128 →
  obind (subnetMask6 p) (λ m, count_all (s6_addr m)) = Ok p.
Proof.
  intros Hp. assert (forallb (λ p, bool_decide (obind (subnetMask6 p) (λ m, count_all (s6_addr m)) = Ok p)) (seqZ 0 128) = true)
    as H by reflexivity.
  rewrite forallb_forall in H. specialize (H p). rewrite <- list_elem_of_In, elem_of_seqZ in H.
  by apply bool_decide_eq_true in H; [|lia].
Qed.

Lemma subnet_bits p m i : 0 ≤ p < 128 → subnetMask6 p = Ok m → 0 ≤ i < 128 → bit6 (s6_addr m) i = (i <? p).
Proof.
  intros Hp Em Hi. unfold subnetMask6 in Em. pose proof (Z.mod_pos_bound p 8 ltac:(lia)) as Hm.
  assert (0 ≤ p / 8 < 16 ∧ 0 ≤ i / 8 < 16) as [Hq Hj] by (Z.to_euclidean_division_equations; lia).
  rewrite (CreateMask_ok 8 (p mod 8)) in Em by lia. cbn [obind] in Em.
  destruct (update_byte_ok (p / 8) (λ _, wrap 8 (Z.lnot (Z.ones (8 - p mod 8)))) (replicate 16 0)) as (b & _ & Eu);
    [by rewrite length_replicate|].
  rewrite Eu in Em. cbn [obind] in Em. set (s1 := <[_ := _]> _) in *.
  assert (length s1 = 16%nat) as Hl by (subst s1; by rewrite length_insert, length_replicate).
  destruct (fill_ok (Z.to_nat (p / 8)) 255 0 s1 ltac:(done) ltac:(lia)) as (s2 & Ef & _ & Hk).
  rewrite Ef in Em. cbn [obind] in Em. injection Em as <-. cbn [s6_addr with_s6_addr]. unfold bit6. rewrite Hk.
  destruct (decide (i / 8 = p / 8)) as [E|E].
  - rewrite bool_decide_false, E by lia. subst s1. rewrite list_lookup_insert_eq by (rewrite length_replicate; lia).
    cbn [default from_option id]. pose proof (Z.mod_pos_bound i 8). unfold wrap.
    rewrite Z.mod_pow2_bits_low, Z.lnot_spec, (bit_of_byte p i) by (done || lia). apply negb_involutive.
  - rewrite <- (div8_lt p i) by (done || lia). destruct (Z.ltb_spec (i / 8) (p / 8)).
    + rewrite bool_decide_true by lia. apply bit_255.
    + rewrite bool_decide_false by lia. subst s1. rewrite list_lookup_insert_ne by lia.
      rewrite lookup_replicate_2 by lia. apply Z.bits_0.
Qed.

(** C36: For a prefix of less than 128 bits: [broadcastAddress] keeps the bits of the
    prefix and sets the others; [subnetMask] has just the bits of the prefix, and
    their number is read back off it; [networdAddress] keeps the bytes before the
    last byte of the prefix, and in that byte the bits that do NOT belong to the
    prefix.  From 128 on (a valid prefix length) all three access the byte after the
    16 bytes of the address. *)
Theorem ipv6_masks a p : length (s6_addr a) = 16%nat → 0 ≤ p →
  (p < 128 → ∃ b n m, broadcast6 p a = Ok b ∧ network6 p a = Ok n ∧ subnetMask6 p = Ok m ∧
    count_all (s6_addr m) = Ok p ∧
    ∀ i, 0 ≤ i < 128 →
      bit6 (s6_addr b) i = (if i <? p then bit6 (s6_addr a) i else true) ∧
      bit6 (s6_addr n) i = (if i / 8 =? p / 8 then negb (i <? p) && bit6 (s6_addr a) i else (i <? p) && bit6 (s6_addr a) i) ∧
      bit6 (s6_addr m) i = (i <? p)) ∧
  (128 ≤ p → broadcast6 p a = Undef OutOfBounds ∧ network6 p a = Undef OutOfBounds ∧ subnetMask6 p = Undef OutOfBounds).
Proof.
  intros Hl Hp. pose proof (Z.mod_pos_bound p 8 ltac:(lia)) as Hm. unfold broadcast6, network6.
  rewrite (CreateMask_ok 8 (p mod 8)) by lia. cbn [obind]. split; intros H.
  - destruct (edit_bits (s6_addr a) p (λ b, Z.lor b (Z.ones (8 - p mod 8))) 255 Hl ltac:(lia)) as (s1 & s2 & x & -> & Hx & E2 & B).
    destruct (edit_bits (s6_addr a) p (λ b, Z.land b (Z.ones (8 - p mod 8))) 0 Hl ltac:(lia)) as (t1 & t2 & y & -> & Hy & F2 & C).
    cbn [obind]. rewrite E2, F2. cbn [obind].
    pose proof (subnet_prefix6 p ltac:(lia)) as S. destruct (subnetMask6 p) as [m| | |] eqn:Em; try done. cbn [obind] in S.
    do 3 eexists. split; [reflexivity|]. split; [reflexivity|]. split; [reflexivity|]. split; [done|].
    cbn [s6_addr with_s6_addr]. intros i Hi. rewrite B, C by done.
    assert (∀ z, (s6_addr a) !! Z.to_nat (p / 8) = Some z → i / 8 = p / 8 → Z.testbit z (7 - i mod 8) = bit6 (s6_addr a) i) as Hz
      by (intros z Hz Hq; unfold bit6; by rewrite Hq, Hz).
    split_and!.
    + destruct (Z.eqb_spec (i / 8) (p / 8)) as [E|E].
      * rewrite E, Z.ltb_irrefl, Z.lor_spec, (bit_of_byte p i), (Hz x) by (done || lia). by destruct (i <? p), (bit6 _ _).
      * rewrite div8_lt, bit_255 by (done || lia). done.
    + destruct (Z.eqb_spec (i / 8) (p / 8)) as [E|E].
      * rewrite E, Z.ltb_irrefl, Z.land_spec, (bit_of_byte p i), (Hz y) by (done || lia). by rewrite andb_comm.
      * rewrite div8_lt, Z.bits_0 by (done || lia). by destruct (i <? p).
    + by eapply subnet_bits; [|exact Em|].
  - assert (16 ≤ p / 8) by (Z.to_euclidean_division_equations; lia).
    unfold subnetMask6. rewrite (CreateMask_ok 8 (p mod 8)) by lia. cbn [obind].
    by rewrite !update_byte_out by (rewrite ?length_replicate; lia).
Qed.

Lemma ipv6_masks_witness : length (s6_addr new_IPv6) = 16%nat ∧ 0 ≤ 67 < 128 ∧
  ∃ b n m, broadcast6 67 new_IPv6 = Ok b ∧ network6 67 new_IPv6 = Ok n ∧ subnetMask6 67 = Ok m ∧
    count_all (s6_addr m) = Ok 67 ∧
    ∀ i, 0 ≤ i < 128 →
      bit6 (s6_addr b) i = (if i <? 67 then bit6 (s6_addr new_IPv6) i else true) ∧
      bit6 (s6_addr n) i = (if i / 8 =? 67 / 8 then negb (i <? 67) && bit6 (s6_addr new_IPv6) i
                            else (i <? 67) && bit6 (s6_addr new_IPv6) i) ∧
      bit6 (s6_addr m) i = (i <? 67).
Proof.
  assert (0 ≤ 67 < 128) as Hp by lia. split; [done|]. split; [done|].
  exact (proj1 (ipv6_masks new_IPv6 67 eq_refl (proj1 Hp)) (proj2 Hp)).
Defined.
