(* ===== verification/AddressText.v ===== *)
(** * Text of addresses

    What [toString] writes reads back as the address; the parts of a host with its
    service; paths. *)
From S2P Require Import Prelude ByteArray Text Http HttpThms Address.
Open Scope Z_scope.

(** ** Reading by the book *)
(** A decimal number: digits only. *)
Definition read_dec (s : list Z) : option Z :=
  if bool_decide (s ≠ []) && forallb (between 48 57) s then Some (read_number s) else None.
(** Dotted decimal with a port. *)
Definition read_ipv4 (s : list Z) : option (Z * Z) :=
  '(a, s) ← find_char (Z.eqb 46) s; '(b, s) ← find_char (Z.eqb 46) s; '(c, s) ← find_char (Z.eqb 46) s;
  '(d, s) ← find_char (Z.eqb 58) s;
  a ← read_dec a; b ← read_dec b; c ← read_dec c; d ← read_dec d; p ← read_dec s;
  Some (((a * 256 + b) * 256 + c) * 256 + d, p).

(** Fields between colons. *)
Fixpoint fields (s : list Z) : list (list Z) :=
  match s with
  | [] => [[]]
  | c :: s => if c =? 58 then [] :: fields s else match fields s with f :: fs => (c :: f) :: fs | [] => [[c]] end
  end.
Definition hex_number (ds : list Z) : Z := foldl (λ v d, 16 * v + d) 0 ds.
Definition read_hex (s : list Z) : option Z :=
  if (1 <=? length s)%nat && (length s <=? 4)%nat then hex_number <$> mapM hex_value s else None.
Definition read_part (s : list Z) : option (list Z) :=
  if bool_decide (s = []) then Some [] else mapM read_hex (fields s).
(** Eight groups, or fewer with one "::" for the zeros that are left out. *)
Definition read_groups (s : list Z) : option (list Z) :=
  match find_string [58; 58] s with
  | Some (l, r) =>
    gs ← read_part l; hs ← read_part r;
    if (length gs + length hs <? 8)%nat then Some (gs ++ replicate (8 - (length gs + length hs)) 0 ++ hs) else None
  | None => gs ← read_part s; if (length gs =? 8)%nat then Some gs else None
  end.
(** "[groups]:port" *)
Definition read_ipv6 (s : list Z) : option (list Z * Z) :=
  match s with
  | 91 :: s =>
    '(g, s) ← find_char (Z.eqb 93) s;
    match s with 58 :: s => gs ← read_groups g; p ← read_dec s; Some (gs, p) | _ => None end
  | _ => None
  end.

(** ** Numbers *)
Lemma read_dec_decimal n : 0 ≤ n → read_dec (decimal n) = Some n.
Proof.
  intros Hn. destruct (decimal_ok n Hn) as (Hne & Hd & Hv). unfold read_dec.
  rewrite bool_decide_true, Hv by done. rewrite (proj2 (forallb_forall _ _)); [done|].
  intros x Hx. apply list_elem_of_In in Hx. rewrite Forall_forall in Hd. specialize (Hd x Hx). unfold between. lia.
Qed.
Lemma decimal_none c n : 0 ≤ n → ¬ 48 ≤ c < 58 → Forall (λ x, (c =? x) = false) (decimal n).
Proof.
  intros Hn Hc. destruct (decimal_ok n Hn) as (_ & Hd & _). eapply Forall_impl; [exact Hd|]. cbn. intros x Hx. lia.
Qed.

Lemma hex_text_loop_ok fuel : ∀ n acc, 0 ≤ n < 2 ^ Z.of_nat fuel → (0 < fuel)%nat →
  ∃ ds, hex_text_loop fuel n acc = (hexdigit_lower <$> ds) ++ acc ∧ ds ≠ [] ∧ Forall (λ d, 0 ≤ d < 16) ds ∧
    hex_number ds = n ∧ ∀ k, (0 < k)%nat → n < 16 ^ Z.of_nat k → (length ds ≤ k)%nat.
Proof.
  induction fuel as [|fuel IH]; intros n acc Hn Hf; [lia|]. cbn [hex_text_loop]. pose proof (Z.mod_pos_bound n 16 ltac:(lia)).
  destruct (Z.ltb_spec n 16).
  - exists [n mod 16]. split; [done|]. split; [done|]. split; [by repeat constructor; lia|].
    split; [unfold hex_number; cbn [foldl]; rewrite Z.mod_small; lia|]. intros k Hk _. cbn. lia.
  - assert (0 < fuel)%nat. { destruct fuel; [|lia]. change (2 ^ Z.of_nat 1) with 2 in Hn. lia. }
    rewrite Nat2Z.inj_succ, Z.pow_succ_r in Hn by lia.
    destruct (IH (n / 16) (hexdigit_lower (n mod 16) :: acc)) as (ds & -> & Hne & Hd & Hv & Hk); [|done|].
    { split; [apply Z.div_pos; lia|]. apply Z.div_lt_upper_bound; lia. }
    exists (ds ++ [n mod 16]). split; [by rewrite fmap_app, <- app_assoc|]. split; [by destruct ds|].
    split; [apply Forall_app; split; [done|repeat constructor; lia]|].
    split; [unfold hex_number in *; rewrite foldl_app, Hv; cbn [foldl]; pose proof (Z.div_mod n 16); lia|].
    intros k Hk0 Hlt. rewrite length_app. cbn [length]. destruct k as [|[|k]]; [lia|cbn in Hlt; lia|].
    enough (length ds ≤ S k)%nat by lia. apply Hk; [lia|].
    rewrite (Nat2Z.inj_succ (S k)), Z.pow_succ_r in Hlt by lia. apply Z.div_lt_upper_bound; lia.
Qed.
Lemma hex_text_ok n : is_uint 16 n →
  read_hex (hex_text n) = Some n ∧ hex_text n ≠ [] ∧ Forall (λ c, c ≠ 58 ∧ c ≠ 93) (hex_text n).
Proof.
  intros [Hn Hm]. unfold hex_text.
  destruct (hex_text_loop_ok (S (Z.to_nat (Z.log2 n))) n []) as (ds & -> & Hne & Hd & Hv & Hk); [|lia|].
  { rewrite Nat2Z.inj_succ, Z2Nat.id by apply Z.log2_nonneg. destruct (decide (n = 0)) as [->|]; [done|].
    split; [done|]. apply Z.log2_spec. lia. }
  rewrite app_nil_r. specialize (Hk 4%nat ltac:(lia) Hm). split_and!.
  - unfold read_hex. rewrite length_fmap. assert (1 ≤ length ds)%nat by (destruct ds; [done|cbn; lia]).
    rewrite (proj2 (Nat.leb_le _ _)), (proj2 (Nat.leb_le _ _)) by lia. cbn [andb].
    assert (mapM hex_value (hexdigit_lower <$> ds) = Some ds) as ->; [|cbn; by rewrite Hv].
    apply mapM_Some_2. apply Forall2_fmap_l. eapply Forall_Forall2_diag, Forall_impl; [exact Hd|]. cbn. apply hexdigit_lower_value.
  - by destruct ds.
  - apply Forall_fmap. eapply Forall_impl; [exact Hd|]. cbn. intros d Hd'. unfold hexdigit_lower. destruct (Z.ltb_spec 9 d); lia.
Qed.

(** ** IPv4 *)
Lemma octets addr : is_uint 32 addr →
  ((Z.land (Z.shiftr addr 24) 255 * 256 + Z.land (Z.shiftr addr 16) 255) * 256 + Z.land (Z.shiftr addr 8) 255) * 256 +
  Z.land addr 255 = addr.
Proof.
  intros [Ha Hb]. change 255 with (Z.ones 8). rewrite !Z.land_ones, !Z.shiftr_div_pow2 by lia.
  change (2 ^ 24) with 16777216. change (2 ^ 16) with 65536. change (2 ^ 8) with 256. change (2 ^ 32) with 4294967296 in Hb.
  Z.to_euclidean_division_equations. lia.
Qed.
Lemma insert4_read a : is_uint 32 (s_addr a) → is_uint 16 (sin_port a) →
  read_ipv4 (insert4 a) = Some (swap32 (s_addr a), getPort4 a).
Proof.
  intros Ha Hp. unfold insert4, read_ipv4. set (addr := swap32 (s_addr a)).
  assert (is_uint 32 addr) as Hu by apply (bswap_bound 4). pose proof (octets addr Hu) as Ho.
  assert (∀ k, 0 ≤ Z.land (Z.shiftr addr k) 255) as Hk by (intros k; apply Z.land_nonneg; right; lia).
  assert (0 ≤ Z.land addr 255) as H0 by (apply Z.land_nonneg; right; lia).
  assert (0 ≤ swap16 (sin_port a)) as Hs by apply (bswap_bound 2).
  do 3 (cbn [app]; rewrite find_char_at by (done || (apply decimal_none; [done|lia])); cbn [mbind option_bind]).
  cbn [app]. rewrite find_char_at by (done || (apply decimal_none; [done|lia])). cbn [mbind option_bind].
  rewrite !read_dec_decimal by done. cbn [mbind option_bind]. by rewrite Ho.
Qed.

(** ** IPv6 *)
(** The groups in host order. *)
Definition groups (s6 : list Z) : list Z := (λ i, swap16 (group s6 i)) <$> seq 0 8.
(** The loop of [insert] on the groups that are left: whether this is the first one,
    and whether the one before was zero. *)
Fixpoint walk_groups (first prev0 used : bool) (gs : list Z) (os : list Z) : bool * list Z :=
  match gs with
  | [] => (used, os)
  | g :: gs =>
    if (g =? 0) && negb used then walk_groups false true used gs os else
    let elided := negb first && prev0 && negb used in
    let os := if elided then os ++ [58] else os in
    let os := if first then os else os ++ [58] in
    walk_groups false (g =? 0) (used || elided) gs (os ++ hex_text g)
  end.
Lemma swap16_zero g : is_uint 16 g → (swap16 g =? 0) = (g =? 0).
Proof.
  intros Hg. unfold byteswapOnLittleEndian, byteswap. pose proof (bswap_involutive 2 g) as H. rewrite wrap_small in H by done.
  destruct (Z.eqb_spec g 0) as [->|Hn]; [done|]. destruct (Z.eqb_spec (bswap 2 g) 0) as [E|]; [|done]. rewrite E in H. by subst g.
Qed.
Lemma group_uint s6 i : bytes_ok s6 → is_uint 16 (group s6 i).
Proof.
  intros Hs. unfold group, peek. set (l := take 2 _).
  assert (bytes_ok l) as Hl by (apply Forall_take, Forall_drop, Hs). apply le_val_bound in Hl as H.
  assert (length l ≤ 2)%nat by (subst l; rewrite length_take; lia). unfold is_uint. split; [lia|].
  eapply Z.lt_le_trans; [apply H|]. apply Z.pow_le_mono_r; lia.
Qed.
Lemma insert6_loop_walk s6 n : bytes_ok s6 → ∀ i used os,
  insert6_loop s6 n i used os =
  walk_groups (i =? 0)%nat (swap16 (group s6 (i - 1)) =? 0) used ((λ i, swap16 (group s6 i)) <$> seq i n) os.
Proof.
  intros Hs. induction n as [|n IH]; intros i used os; [done|]. cbn [insert6_loop seq fmap list_fmap walk_groups].
  rewrite !IH. cbn [Nat.eqb]. rewrite Nat.sub_succ, Nat.sub_0_r, !swap16_zero by by apply group_uint.
  destruct ((group s6 i =? 0) && negb used) eqn:E; [apply andb_true_iff in E as [-> _]; by destruct i|by destruct i].
Qed.

(** The groups with colons between them, and each after a colon. *)
Definition colons (gs : list Z) : list Z := join [58] (hex_text <$> gs).
Definition tail_text (gs : list Z) : list Z := gs ≫= λ g, 58 :: hex_text g.
Lemma colons_cons g gs : colons (g :: gs) = hex_text g ++ tail_text gs.
Proof.
  revert g. induction gs as [|h gs IH]; intros g; [cbn; by rewrite app_nil_r|].
  change (colons (g :: h :: gs)) with (hex_text g ++ [58] ++ colons (h :: gs)). by rewrite IH.
Qed.

Lemma walk_used gs : ∀ p os, walk_groups false p true gs os = (true, os ++ tail_text gs).
Proof.
  induction gs as [|g gs IH]; intros p os; cbn [walk_groups]; [cbn; by rewrite app_nil_r|].
  rewrite andb_false_r. cbn [negb andb]. rewrite andb_false_r. cbn [orb]. rewrite IH. cbn [tail_text mbind list_bind].
  by rewrite <- !app_assoc.
Qed.
Definition nonzero (gs : list Z) : Prop := Forall (λ g, g ≠ 0) gs.
Lemma walk_zeros post k : ∀ os, (∀ g, head post = Some g → g ≠ 0) →
  walk_groups false true false (replicate k 0 ++ post) os =
  (negb (bool_decide (post = [])), os ++ if bool_decide (post = []) then [] else [58; 58] ++ colons post).
Proof.
  induction k as [|k IH]; intros os Hp; cbn [replicate app walk_groups]; [|by apply IH].
  destruct post as [|g post]; [cbn; by rewrite app_nil_r|]. specialize (Hp g eq_refl). cbn [walk_groups].
  rewrite (proj2 (Z.eqb_neq _ _) Hp). cbn [andb negb orb]. rewrite walk_used, bool_decide_false, colons_cons by done.
  by rewrite <- !app_assoc.
Qed.
Lemma walk_nonzero pre rest : ∀ os, nonzero pre →
  walk_groups false false false (pre ++ rest) os = walk_groups false false false rest (os ++ tail_text pre).
Proof.
  induction pre as [|g pre IH]; intros os Hp; [cbn; by rewrite app_nil_r|]. apply Forall_cons in Hp as [Hg Hp]. cbn [app walk_groups].
  rewrite (proj2 (Z.eqb_neq _ _) Hg). cbn [andb negb orb]. rewrite IH by done. cbn [tail_text mbind list_bind].
  by rewrite <- !app_assoc.
Qed.
Lemma walk_first pre k post p os :
  nonzero pre → (∀ g, head post = Some g → g ≠ 0) → (k = 0%nat → post = []) →
  walk_groups true p false (pre ++ replicate k 0 ++ post) os =
  (negb (bool_decide (post = [])), os ++ colons pre ++ if bool_decide (post = []) then [] else [58; 58] ++ colons post).
Proof.
  intros Hn Hp Hk. destruct pre as [|g pre].
  - cbn [app colons fmap list_fmap join]. destruct k as [|k]; [rewrite Hk by done; cbn; by rewrite app_nil_r|].
    cbn [replicate app walk_groups]. change (0 =? 0) with true. cbn [andb negb]. by apply walk_zeros.
  - apply Forall_cons in Hn as [Hg Hn]. cbn [app walk_groups]. rewrite (proj2 (Z.eqb_neq _ _) Hg). cbn [andb negb orb].
    rewrite walk_nonzero, <- app_assoc, <- colons_cons by done. destruct k as [|k].
    + rewrite Hk by done. cbn. by rewrite app_nil_r.
    + cbn [replicate app walk_groups]. change (0 =? 0) with true. cbn [andb negb]. rewrite walk_zeros by done. by rewrite <- app_assoc.
Qed.
(** Every address is a part without zeros, a run of zeros, and the rest. *)
Lemma split_groups gs : ∃ pre k post, gs = pre ++ replicate k 0 ++ post ∧ nonzero pre ∧
  (∀ g, head post = Some g → g ≠ 0) ∧ (k = 0%nat → post = []).
Proof.
  induction gs as [|g gs (pre & k & post & E & Hn & Hp & Hk)]; [by exists [], 0%nat, []; repeat split; try constructor|].
  destruct (decide (g = 0)) as [->|Hg].
  - destruct pre as [|h pre].
    + exists [], (S k), post. by rewrite E.
    + apply Forall_cons in Hn as [Hh Hn]. exists [], 1%nat, (h :: pre ++ replicate k 0 ++ post). rewrite E.
      split_and!; try done; [by constructor|]. by intros ? [= <-].
  - exists (g :: pre), k, post. rewrite E. split_and!; try done. by constructor.
Qed.

(** *** Reading them *)
Definition field_ok (f : list Z) : Prop := f ≠ [] ∧ Forall (λ c, c ≠ 58) f.
Lemma fields_app f s : Forall (λ c, c ≠ 58) f → fields (f ++ 58 :: s) = f :: fields s.
Proof.
  induction 1 as [|c f Hc _ IH]; [done|]. cbn [app fields]. by rewrite (proj2 (Z.eqb_neq _ _) Hc), IH.
Qed.
Lemma fields_one f : Forall (λ c, c ≠ 58) f → fields f = [f].
Proof. induction 1 as [|c f Hc _ IH]; [done|]. cbn [fields]. by rewrite (proj2 (Z.eqb_neq _ _) Hc), IH. Qed.
Lemma fields_join fs : fs ≠ [] → Forall field_ok fs → fields (join [58] fs) = fs.
Proof.
  intros Hne H. induction H as [|f fs [_ Hf] Hfs IH]; [done|]. destruct fs as [|f2 fs]; [by apply fields_one|].
  rewrite join_cons by done. cbn [app]. rewrite fields_app, IH by done. done.
Qed.
Lemma hex_fields gs : Forall (is_uint 16) gs → Forall field_ok (hex_text <$> gs).
Proof.
  intros Hg. apply Forall_fmap. eapply Forall_impl; [exact Hg|]. cbn. intros g H. destruct (hex_text_ok g H) as (_ & Hne & Hc).
  split; [done|]. eapply Forall_impl; [exact Hc|]. by intros ? [].
Qed.
Lemma read_colons gs : Forall (is_uint 16) gs → read_part (colons gs) = Some gs.
Proof.
  intros Hg. unfold read_part. destruct gs as [|g gs]; [done|]. rewrite bool_decide_false.
  2: { rewrite colons_cons. apply Forall_cons in Hg as [Hg _]. destruct (hex_text_ok g Hg) as (_ & Hne & _).
       intros [E _]%app_eq_nil. done. }
  unfold colons. rewrite fields_join by (done || by apply hex_fields). apply mapM_Some_2, Forall2_fmap_l.
  eapply Forall_Forall2_diag, Forall_impl; [exact Hg|]. intros x Hx. apply (hex_text_ok x Hx).
Qed.

(** No colon follows another, and none is last. *)
Fixpoint clean (s : list Z) : bool :=
  match s with
  | [] => true
  | c :: s' => (negb (c =? 58) || match s' with [] => false | d :: _ => negb (d =? 58) end) && clean s'
  end.
Lemma clean_field f s : Forall (λ c, c ≠ 58) f → clean (f ++ s) = clean s.
Proof. induction 1 as [|c f Hc _ IH]; [done|]. cbn [app clean]. by rewrite (proj2 (Z.eqb_neq _ _) Hc). Qed.
Lemma clean_join fs : Forall field_ok fs → clean (join [58] fs) = true.
Proof.
  induction 1 as [|f fs [Hne Hf] Hfs IH]; [done|]. destruct fs as [|g fs].
  - cbn [join]. rewrite <- (app_nil_r f). by rewrite clean_field.
  - rewrite join_cons, clean_field by done. cbn [app clean]. rewrite IH, andb_true_r. apply Forall_cons in Hfs as [[Hg Hg'] _].
    destruct g as [|c g]; [done|]. apply Forall_cons in Hg' as [Hc _].
    assert (∃ t, join [58] ((c :: g) :: fs) = c :: t) as [t ->] by (destruct fs; eexists; reflexivity).
    by rewrite (proj2 (Z.eqb_neq _ _) Hc).
Qed.
Lemma find_colons s : clean s = true → find_string [58; 58] s = None ∧
  ∀ rest, find_string [58; 58] (s ++ 58 :: 58 :: rest) = Some (s, rest).
Proof.
  induction s as [|c s IH]; [done|]. cbn [clean]. intros [Hc Hs]%andb_true_iff. destruct (IH Hs) as [N S].
  assert (∀ t, t = [] ∨ (∃ r, t = 58 :: 58 :: r) → bool_decide (take 2 (c :: s ++ t) = [58; 58]) = false) as Hb.
  { intros t Ht. apply bool_decide_eq_false. destruct s as [|d s].
    - destruct (Z.eqb_spec c 58); [done|]. destruct Ht as [->|[r ->]]; cbn; congruence.
    - cbn. intros [= -> ->]. done. }
  split.
  - cbn [find_string length]. specialize (Hb [] ltac:(by left)). rewrite app_nil_r in Hb. by rewrite Hb, N.
  - intros rest. cbn [app find_string length]. rewrite Hb by eauto. by rewrite S.
Qed.

(** The text of [gs] with their first run of zeros, if there is one, left out: what is
    before it has no zero, and what follows does not start with one. *)
Definition first_run_elided (gs s : list Z) : Prop :=
  ∃ pre k post, gs = pre ++ replicate k 0 ++ post ∧ nonzero pre ∧ (∀ g, head post = Some g → g ≠ 0) ∧
    (k = 0%nat → post = []) ∧ s = colons pre ++ if (k =? 0)%nat then [] else [58; 58] ++ colons post.
Lemma read_groups_walk gs : length gs = 8%nat → Forall (is_uint 16) gs → ∀ p os,
  let '(used, t) := walk_groups true p false gs os in
  ∃ s, (if negb used && (nth 7 gs 0 =? 0) then t ++ [58; 58] else t) = os ++ s ∧ read_groups s = Some gs ∧ first_run_elided gs s ∧
    Forall (λ c, c ≠ 93) s.
Proof.
  intros Hl Hg p os. destruct (split_groups gs) as (pre & k & post & -> & Hn & Hp & Hk). rewrite walk_first by done.
  rewrite !length_app, length_replicate in Hl. apply Forall_app in Hg as [Hpre [_ Hpost]%Forall_app].
  assert (∀ l, Forall (is_uint 16) l → Forall (λ c, c ≠ 93) (colons l)) as Hj.
  { intros l Hl'. destruct l as [|g l]; [constructor|]. rewrite colons_cons. apply Forall_cons in Hl' as [Hg0 Hl'].
    apply Forall_app; split; [eapply Forall_impl; [apply (hex_text_ok g Hg0)|by intros ? []]|].
    apply Forall_bind. eapply Forall_impl; [exact Hl'|]. intros x Hx. constructor; [done|].
    eapply Forall_impl; [apply (hex_text_ok x Hx)|by intros ? []]. }
  destruct (find_colons (colons pre) ltac:(by apply clean_join, hex_fields)) as [FN FS].
  assert ((nth 7 (pre ++ replicate k 0 ++ post) 0 =? 0) = bool_decide (0 < k)%nat ∨ post ≠ []) as Hlast.
  { destruct post as [|x post]; [|by right]. left. cbn in Hl. rewrite app_nil_r.
    destruct (decide (0 < k)%nat).
    - rewrite bool_decide_true by done. rewrite nth_lookup, lookup_app_r, lookup_replicate_2 by lia. done.
    - rewrite bool_decide_false by done. assert (k = 0%nat) as -> by lia. rewrite app_nil_r.
      apply Z.eqb_neq. unfold nonzero in Hn. rewrite Forall_forall in Hn. apply Hn, list_elem_of_In, nth_In. lia. }
  destruct (decide (k = 0%nat)) as [->|Hk0].
  - rewrite (Hk eq_refl) in *. cbn [bool_decide negb andb]. destruct Hlast as [->|]; [|done].
    cbn. exists (colons pre). rewrite app_nil_r. split; [done|]. split; [|split; [|by apply Hj]].
    2: { exists pre, 0%nat, []. cbn. rewrite !app_nil_r. by split_and!. }
    unfold read_groups. rewrite FN, read_colons by done. cbn [mbind option_bind]. rewrite app_nil_r. cbn in Hl. by assert (length pre = 8%nat) as -> by lia.
  - exists (colons pre ++ 58 :: 58 :: colons post). split; [|split; [|split]].
    + destruct post as [|x post].
      * cbn [bool_decide negb andb]. destruct Hlast as [->|]; [|done]. rewrite (bool_decide_true (0 < k)%nat) by lia. cbn.
        by rewrite app_nil_r, <- app_assoc.
      * by rewrite bool_decide_false.
    + unfold read_groups. rewrite FS, !read_colons by done. cbn [mbind option_bind].
      rewrite (proj2 (Nat.ltb_lt _ _)) by lia. do 3 f_equal. replace (8 - _)%nat with k by lia. done.
    + exists pre, k, post. split_and!; try done. by rewrite (proj2 (Nat.eqb_neq _ _)).
    + apply Forall_app; split; [by apply Hj|]. repeat constructor; try done. by apply Hj.
Qed.

Definition big_endian (gs : list Z) : list Z := gs ≫= λ g, rev (le_bytes 2 g).
Lemma groups_ok s6 : length s6 = 16%nat → bytes_ok s6 →
  length (groups s6) = 8%nat ∧ Forall (is_uint 16) (groups s6) ∧ big_endian (groups s6) = s6.
Proof.
  intros Hl Hs. unfold groups. split; [done|]. split.
  { apply Forall_fmap, Forall_true. intros i. apply (bswap_bound 2). }
  assert (∀ i, (2 * i + 2 ≤ 16)%nat → rev (le_bytes 2 (swap16 (group s6 i))) = peek (2 * i) 2 s6) as Hg.
  { intros i Hi. unfold byteswapOnLittleEndian, byteswap. rewrite bswap_bytes, rev_involutive. unfold group.
    assert (length (peek (2 * i) 2 s6) = 2%nat) as L by (unfold peek; rewrite length_take, length_drop; lia).
    rewrite <- L at 1. apply le_bytes_val. unfold peek. by apply Forall_take, Forall_drop. }
  unfold big_endian. cbn [seq fmap list_fmap mbind list_bind]. rewrite !Hg by lia. clear Hg.
  do 16 (destruct s6 as [|? s6]; [done|]). by destruct s6.
Qed.
Lemma insert6_read a : length (s6_addr a) = 16%nat → bytes_ok (s6_addr a) →
  read_ipv6 (insert6 a) = Some (groups (s6_addr a), getPort6 a) ∧
  ∃ s, first_run_elided (groups (s6_addr a)) s ∧ insert6 a = [91] ++ s ++ [93; 58] ++ decimal (getPort6 a).
Proof.
  intros Hl Hs. destruct (groups_ok (s6_addr a) Hl Hs) as (Hgl & Hgu & _). unfold insert6.
  rewrite insert6_loop_walk by done. cbn [Nat.eqb].
  pose proof (read_groups_walk (groups (s6_addr a)) Hgl Hgu (swap16 (group (s6_addr a) (0 - 1)) =? 0) [91]) as H.
  change ((λ i, swap16 (group (s6_addr a) i)) <$> seq 0 8) with (groups (s6_addr a)).
  destruct (walk_groups _ _ _ _ _) as [used t]. destruct H as (s & E & Hr & Hf & Hc).
  rewrite <- (swap16_zero (group (s6_addr a) 7)) by by apply group_uint.
  change (swap16 (group (s6_addr a) 7)) with (nth 7 (groups (s6_addr a)) 0). rewrite E, <- app_assoc. split; [|by exists s]. cbn [app read_ipv6].
  rewrite find_char_at by (done || (eapply Forall_impl; [exact Hc|]; intros; by apply Z.eqb_neq, not_eq_sym)). cbn [mbind option_bind].
  rewrite Hr. cbn [mbind option_bind]. by rewrite read_dec_decimal by apply (bswap_bound 2).
Qed.

(** C35: The text of an IP address reads back, in the standard notation, as the address
    and its port: dotted decimal for IPv4; for IPv6 eight hexadecimal groups in
    brackets, of which the first run of zeros, and only that one, is replaced by "::",
    however short it is; with no zero group nothing is left out. *)
Theorem address_text_roundtrip a : is_ip a = true →
  match a with
  | IPv4Address m => is_uint 32 (s_addr m) ∧ is_uint 16 (sin_port m)
  | IPv6Address m => length (s6_addr m) = 16%nat ∧ bytes_ok (s6_addr m)
  | _ => True
  end →
  ∃ s, toString a = Ok s ∧
  match a with
  | IPv4Address m => read_ipv4 s = Some (swap32 (s_addr m), getPort4 m)
  | IPv6Address m => ∃ gs, read_ipv6 s = Some (gs, getPort6 m) ∧ big_endian gs = s6_addr m ∧
      ∃ t, first_run_elided gs t ∧ s = [91] ++ t ++ [93; 58] ++ decimal (getPort6 m)
  | _ => True
  end.
Proof.
  intros Hi Ha. destruct a as [m|m|m n|m]; try done; cbn [toString]; (eexists; split; [done|]).
  - destruct Ha. by apply insert4_read.
  - destruct Ha as [Hl Hs]. exists (groups (s6_addr m)). destruct (insert6_read m Hl Hs) as [Hr Ht].
    split; [done|]. split; [by apply groups_ok|done].
Qed.

Definition sample6 : sockaddr_in6 :=
  new_IPv6_of [32; 1; 13; 184; 0; 0; 0; 0; 0; 1; 0; 0; 0; 0; 0; 1] 8020.
Lemma sample6_ok : length (s6_addr sample6) = 16%nat ∧ bytes_ok (s6_addr sample6).
Proof. split; [done|]. repeat constructor; try done. Qed.
Lemma address_text_roundtrip_witness :
  ∃ s, toString (IPv6Address sample6) = Ok s ∧ ∃ gs, read_ipv6 s = Some (gs, getPort6 sample6) ∧
    big_endian gs = s6_addr sample6 ∧ ∃ t, first_run_elided gs t ∧ s = [91] ++ t ++ [93; 58] ++ decimal (getPort6 sample6).
Proof. exact (address_text_roundtrip (IPv6Address sample6) eq_refl sample6_ok). Defined.
Example sample6_text : toString (IPv6Address sample6) = Ok (bytes_of_string "[2001:db8::1:0:0:1]:8020").
Proof. reflexivity. Qed.

(** ** Hosts and services *)
Lemma memchr_at c a s : c ∉ a → memchr c (a ++ c :: s) = Some (length a).
Proof.
  induction a as [|x a IH]; cbn [app memchr length]; [by rewrite Z.eqb_refl|]. rewrite not_elem_of_cons. intros [Hx Ha].
  rewrite (proj2 (Z.eqb_neq _ _)) by congruence. by rewrite IH.
Qed.
Lemma memchr_none c a : c ∉ a → memchr c a = None.
Proof.
  induction a as [|x a IH]; [done|]. cbn [memchr]. rewrite not_elem_of_cons. intros [Hx Ha].
  rewrite (proj2 (Z.eqb_neq _ _)) by congruence. by rewrite IH.
Qed.
Lemma drop_past {A} (a s : list A) c : drop (S (length a)) (a ++ c :: s) = s.
Proof. rewrite <- (Nat.add_1_r (length a)). by rewrite drop_app_add. Qed.

(** The parts of a host that starts with no bracket. *)
Lemma split_plain host : head host ≠ Some 91 →
  split_host host =
  let '(node, service) :=
      match memchr 58 host with
      | Some i =>
        if bool_decide (memchr 58 (drop (S i) host) = None) then (take i host, Some (c_str (drop (S i) host)))
        else ([], Some (c_str (drop i host)))
      | None => ([], None)
      end in
  (if bool_decide (node = []) then host else node, service).
Proof.
  intros Hh. unfold split_host.
  assert (match host with 91 :: rest => _ | _ => ([], None) end = ([] : list Z, None : option (list Z))) as ->; [|done].
  destruct host as [|c host]; [done|]. cbn in Hh.
  destruct c as [|c|c]; try done. do 8 (destruct c as [c|c|]; try done).
Qed.
Lemma split_bracket node rest : node ≠ [] → 93 ∉ node →
  split_host (91 :: node ++ 93 :: rest) =
  (node, if bool_decide (head rest = Some 58) then Some (c_str (drop 1 rest)) else None).
Proof.
  intros Hne H. unfold split_host. rewrite memchr_at, drop_past, take_app_length by done.
  by rewrite !(bool_decide_false (node = [])).
Qed.

(** What [Lookup] asks the resolver for: "name", "name:service", "[address]" and
    "[address]:service" are taken apart as meant.  A host with two colons and no
    brackets, such as an IPv6 address, is the node as a whole, but its end from the
    first colon on is passed as the service. *)
Theorem host_parts node service : node ≠ [] → 58 ∉ service →
  (58 ∉ node → head node ≠ Some 91 →
    split_host node = (node, None) ∧ split_host (node ++ 58 :: service) = (node, Some (c_str service))) ∧
  (93 ∉ node →
    split_host (91 :: node ++ [93]) = (node, None) ∧
    split_host (91 :: node ++ 93 :: 58 :: service) = (node, Some (c_str service))) ∧
  (∀ a b, 58 ∉ a → head (a ++ [58]) ≠ Some 91 → let host := a ++ 58 :: b in 58 ∈ b →
    split_host host = (host, Some (58 :: c_str b))).
Proof.
  intros Hne Hs. split_and!.
  - intros Hn Hh. split.
    + rewrite split_plain by done. by rewrite memchr_none.
    + rewrite split_plain by by destruct node. rewrite memchr_at, drop_past, take_app_length by done.
      rewrite bool_decide_true by by apply memchr_none. by rewrite bool_decide_false.
  - intros H. by rewrite !split_bracket.
  - intros a b Ha Hh host Hb. subst host. rewrite split_plain.
    2: { destruct a; [done|]. by cbn in *. }
    rewrite memchr_at, drop_past by done. rewrite bool_decide_false.
    2: { apply list_elem_of_split in Hb as (b1 & b2 & ->). clear -Ha. induction b1 as [|x b1 IH]; cbn; [done|].
         destruct (x =? 58); [done|]. by destruct (memchr 58 _). }
    rewrite bool_decide_true by done. by rewrite drop_app_length.
Qed.

Lemma host_parts_witness :
  let node := bytes_of_string "::1"%string in let service := bytes_of_string "80"%string in
  split_host (91 :: node ++ [93]) = (node, None) ∧
  split_host (91 :: node ++ 93 :: 58 :: service) = (node, Some (c_str service)).
Proof.
  intros node service. apply (host_parts node service).
  - done.
  - by apply (bool_decide_unpack _).
  - by apply (bool_decide_unpack _).
Defined.
(** The loopback address without brackets: the resolver is asked for the service "::1". *)
Example bare_ipv6_lookup : split_host (bytes_of_string "::1"%string) = (bytes_of_string "::1"%string, Some (bytes_of_string "::1"%string)).
Proof. reflexivity. Qed.

(** ** Paths *)
Lemma c_str_at a s : 0 ∉ a → c_str (a ++ 0 :: s) = a.
Proof.
  induction a as [|x a IH]; [done|]. rewrite not_elem_of_cons. intros [Hx Ha]. cbn [app c_str].
  rewrite (proj2 (Z.eqb_neq _ _)) by congruence. by rewrite IH.
Qed.
(** A path is stored and given back: an ordinary one as it is, an abstract one (a zero
    byte in front) with its whole name, which may hold zeros, after a mark; one that
    does not fit throws. *)
Theorem unix_path_exact path : Z.of_nat (length path) < 2 ^ 32 - 1 →
  (path ≠ [] → 0 ∉ path → (length path ≤ 107)%nat →
    ∃ m n, new_Unix_of path = Ok (UnixAddress m n) ∧ n = Z.of_nat (length path) + 3 ∧ getPath m n = Ok path) ∧
  (∀ name, path = 0 :: name → (length name ≤ 107)%nat →
    ∃ m n, new_Unix_of path = Ok (UnixAddress m n) ∧ n = Z.of_nat (length name) + 3 ∧
      getPath m n = Ok (bytes_of_string "\0"%string ++ name)) ∧
  ((108 < length path)%nat → new_Unix_of path = Throw LogicError).
Proof.
  intros Hl. unfold new_Unix_of, PATH_SIZE. rewrite (wrap_small 32 (_ + 1)) by lia. split_and!.
  - intros Hne H0 Hlen. assert (head path ≠ Some 0) as Hh by (destruct path; [done|]; intros [= ->]; apply H0; by left).
    rewrite bool_decide_false by done. rewrite (proj2 (Z.ltb_ge _ _)) by lia. do 2 eexists. split; [done|].
    unfold PATH_OFFSET. rewrite wrap_small by lia. split; [lia|]. rewrite take_ge by (rewrite length_app; cbn; lia).
    unfold getPath. cbn [sun_path]. unfold splice. rewrite take_0, <- app_assoc. cbn [app].
    rewrite bool_decide_false by (destruct path; [done|]; exact Hh). rewrite andb_false_r. unfold c_string.
    rewrite bool_decide_true by set_solver. by rewrite c_str_at.
  - intros name -> Hlen. cbn [length] in *. rewrite bool_decide_true by done. rewrite wrap_small by lia.
    rewrite (proj2 (Z.ltb_ge _ _)) by lia. do 2 eexists. split; [done|]. unfold PATH_OFFSET. rewrite wrap_small by lia.
    split; [lia|]. unfold getPath, PATH_OFFSET, PATH_SIZE, splice. cbn [sun_path]. rewrite take_0. cbn [app].
    rewrite (proj2 (Z.ltb_lt _ _)) by lia. replace (Z.to_nat (Z.of_nat (S (length name)) + 1 - 1)) with (S (length name)) by lia. cbn [take app head].
    rewrite bool_decide_true by done. cbn [andb drop]. rewrite wrap_small by lia. rewrite (proj2 (Z.ltb_ge _ _)) by lia.
    rewrite take_app_length, drop_0, take_app_le by lia. by rewrite take_ge by lia.
  - intros Hlen. destruct (bool_decide (head path = Some 0)); [rewrite wrap_small by lia|]; by rewrite (proj2 (Z.ltb_lt _ _)) by lia.
Qed.
Lemma unix_path_exact_witness :
  Z.of_nat (length (bytes_of_string "/tmp/a.sock"%string)) < 2 ^ 32 - 1 ∧
  ∃ m n, new_Unix_of (bytes_of_string "/tmp/a.sock"%string) = Ok (UnixAddress m n) ∧
    n = Z.of_nat (length (bytes_of_string "/tmp/a.sock"%string)) + 3 ∧ getPath m n = Ok (bytes_of_string "/tmp/a.sock"%string).
Proof.
  split; [done|].
  apply (proj1 (unix_path_exact (bytes_of_string "/tmp/a.sock"%string) eq_refl)); [done| |cbn; lia].
  by apply (bool_decide_unpack _).
Defined.
(** The empty path prints as an abstract one. *)
Example empty_path : (obind (new_Unix_of []) toString) = Ok (bytes_of_string "\0"%string).
Proof. reflexivity. Qed.
