(* ===== verification/HttpSession.v ===== *)
(** * HTTP requests over a connection (http/http_parser.cc, http_session.cc, http_server.cc)

    A session reads requests off a stream with the generated parser, whose callbacks
    fill in the request; the server answers each one until the connection ends.  The
    stream is the socket interface of [Stream] with the call that closes it. *)
From S2P Require Import Prelude Text Http HttpThms Stream WebSocket Servlet.

(** ** The generated parser

    The state machine of http11_parser.rl.  A call of [http_parser_execute] on a
    buffer gives the calls of the callbacks it makes, in order, and the number of
    bytes it took.  A callback gets the buffer from the mark on, and a length. *)
Inductive event :=
| request_method (at_ : list Z) (length : Z)
| request_uri (at_ : list Z) (length : Z)
| fragment (at_ : list Z) (length : Z)
| request_path (at_ : list Z) (length : Z)
| query_string (at_ : list Z) (length : Z)
| http_version (at_ : list Z) (length : Z)
| header_done
| http_field (field : list Z) (flen : Z) (value : list Z) (vlen : Z).

Class RequestMachine (P : Type) := {
  http_parser_init : P;
  http_parser_execute : list Z → P → list event * Z * P;
  http_parser_finish : P → Z;
  http_parser_has_error : P → bool
}.

(** ** [HttpRequestParser] *)
(** [std::string(at, length)]: a negative length is, as a [size_t], longer than any
    string, and one beyond the received bytes reads past them. *)
Definition text_at (at_ : list Z) (n : Z) : outcome (list Z) :=
  if n <? 0 then Throw LogicError else if Z.of_nat (length at_) <? n then Undef OutOfBounds else Ok (take (Z.to_nat n) at_).
(** [strncmp(a, b, n) == 0] *)
Definition strncmp_eq (a b : list Z) (n : Z) : bool :=
  bool_decide (take (Z.to_nat n) (c_str a ++ [0]) = take (Z.to_nat n) (c_str b ++ [0])).

Definition set_method v r := mkHttpRequest v (m_version r) (m_close r) (m_websocket r) (m_parserParamFlag r) (m_path r) (m_query r)
  (m_fragment r) (m_body r) (m_headers r) (m_params r) (m_cookies r).
Definition set_version v r := mkHttpRequest (m_method r) v (m_close r) (m_websocket r) (m_parserParamFlag r) (m_path r) (m_query r)
  (m_fragment r) (m_body r) (m_headers r) (m_params r) (m_cookies r).
Definition set_path v r := mkHttpRequest (m_method r) (m_version r) (m_close r) (m_websocket r) (m_parserParamFlag r) v (m_query r)
  (m_fragment r) (m_body r) (m_headers r) (m_params r) (m_cookies r).
Definition set_query v r := mkHttpRequest (m_method r) (m_version r) (m_close r) (m_websocket r) (m_parserParamFlag r) (m_path r) v
  (m_fragment r) (m_body r) (m_headers r) (m_params r) (m_cookies r).
Definition set_fragment v r := mkHttpRequest (m_method r) (m_version r) (m_close r) (m_websocket r) (m_parserParamFlag r) (m_path r)
  (m_query r) v (m_body r) (m_headers r) (m_params r) (m_cookies r).
Definition set_body v r := mkHttpRequest (m_method r) (m_version r) (m_close r) (m_websocket r) (m_parserParamFlag r) (m_path r)
  (m_query r) (m_fragment r) v (m_headers r) (m_params r) (m_cookies r).

Section session.
Context {P : Type} `{RequestMachine P}.

Record HttpRequestParser := mkParser { m_parser : P; m_data : HttpRequest; m_error : Z }.
Definition new_HttpRequestParser : HttpRequestParser := mkParser http_parser_init (new_HttpRequest 17 true) 0.
Definition with_data (r : HttpRequest) (q : HttpRequestParser) : HttpRequestParser := mkParser (m_parser q) r (m_error q).
Definition setError (v : Z) (q : HttpRequestParser) : HttpRequestParser := mkParser (m_parser q) (m_data q) v.

(** The callbacks. *)
Definition on_request_method (at_ : list Z) (length : Z) (q : HttpRequestParser) : HttpRequestParser :=
  let m := CharsToHttpMethod at_ in
  if bool_decide (m = INVALID_METHOD) then setError 1000 q else with_data (set_method m (m_data q)) q.
Definition on_request_uri (at_ : list Z) (length : Z) (q : HttpRequestParser) : HttpRequestParser := q.
Definition on_request_fragment (at_ : list Z) (length : Z) (q : HttpRequestParser) : outcome HttpRequestParser :=
  obind (text_at at_ length) (λ t, Ok (with_data (set_fragment t (m_data q)) q)).
Definition on_request_path (at_ : list Z) (length : Z) (q : HttpRequestParser) : outcome HttpRequestParser :=
  obind (text_at at_ length) (λ t, Ok (with_data (set_path t (m_data q)) q)).
Definition on_request_query (at_ : list Z) (length : Z) (q : HttpRequestParser) : outcome HttpRequestParser :=
  obind (text_at at_ length) (λ t, Ok (with_data (set_query t (m_data q)) q)).
Definition on_request_version (at_ : list Z) (length : Z) (q : HttpRequestParser) : HttpRequestParser :=
  if strncmp_eq at_ (bytes_of_string "HTTP/1.1") length then with_data (set_version 17 (m_data q)) q
  else if strncmp_eq at_ (bytes_of_string "HTTP/1.0") length then with_data (set_version 16 (m_data q)) q
  else setError 1001 q.
Definition on_request_header_done (q : HttpRequestParser) : HttpRequestParser := q.
Definition on_request_http_field (field : list Z) (flen : Z) (value : list Z) (vlen : Z) (q : HttpRequestParser) : outcome HttpRequestParser :=
  if flen =? 0 then Ok q
  else obind (text_at field flen) (λ f, obind (text_at value vlen) (λ v, Ok (with_data (setHeader f v (m_data q)) q))).

Definition callback (q : HttpRequestParser) (e : event) : outcome HttpRequestParser :=
  match e with
  | request_method p n => Ok (on_request_method p n q)
  | request_uri p n => Ok (on_request_uri p n q)
  | fragment p n => on_request_fragment p n q
  | request_path p n => on_request_path p n q
  | query_string p n => on_request_query p n q
  | http_version p n => Ok (on_request_version p n q)
  | header_done => Ok (on_request_header_done q)
  | http_field f n v m => on_request_http_field f n v m q
  end.

(** The callbacks of one call, in their order; what one throws leaves the call. *)
Fixpoint callbacks (events : list event) (q : HttpRequestParser) : outcome HttpRequestParser :=
  match events with [] => Ok q | e :: events => obind (callback q e) (callbacks events) end.
(** [execute(data, len)]: the number of bytes taken, and what is left of the data
    after the move to the front. *)
Definition execute (data : list Z) (q : HttpRequestParser) : outcome (Z * list Z * HttpRequestParser) :=
  let '(events, offset, p) := http_parser_execute data (m_parser q) in
  obind (callbacks events q) (λ q, Ok (offset, drop (Z.to_nat offset) data, mkParser p (m_data q) (m_error q))).
Definition isFinished (q : HttpRequestParser) : Z := http_parser_finish (m_parser q).
Definition hasError (q : HttpRequestParser) : bool := negb (m_error q =? 0) || http_parser_has_error (m_parser q).
(** [lexical_u64] is [boost::lexical_cast<uint64_t>], [None] for its exception. *)
Definition getContentLength (lexical_u64 : list Z → option Z) (q : HttpRequestParser) : Z :=
  match map_find (bytes_of_string "content-length") (m_headers (m_data q)) with
  | Some v => default 0 (lexical_u64 v)
  | None => 0
  end.

(** ** [HttpSession] *)
Context {Sk : Type} `{Socket Sk, Closing Sk}.
(** The conversion, the longest string that can be allocated, and the configured
    size of the buffer. *)
Context (lexical_u64 : list Z → option Z) (max_alloc buff_size : Z).

Definition close_null {A} : M Sk (option A) := modst close ;;! ret None.
(** The first loop of [recvRequest]: the parser, and the bytes of the buffer after
    the head, [offset] of them. *)
Fixpoint recv_head (fuel : nat) (parser : HttpRequestParser) (data : list Z) (offset : Z)
    : M Sk (option (HttpRequestParser * list Z * Z)) :=
  match fuel with
  | O => lift Fuel
  | S fuel =>
    let! r := λ s, let '(r, s) := read_buf (buff_size - offset) s in (Ok r, s) in
    let len := i32 (r.1) in
    if len <=? 0 then close_null else
    let len := len + offset in
    let! x := lift (execute (data ++ r.2) parser) in
    let '(nparse, data, parser) := x in
    if hasError parser then close_null else
    let offset := i32 (len - nparse) in
    if offset =? i32 buff_size then close_null else
    if negb (isFinished parser =? 0) then ret (Some (parser, data, offset))
    else recv_head fuel parser data offset
  end.

(** The body: what the buffer holds of it, then the rest from the stream. *)
Definition recv_body (length offset : Z) (data : list Z) : M Sk (option (list Z)) :=
  if max_alloc <? length then throw BadAlloc else
  let body := if offset <=? length then take (Z.to_nat offset) data else take (Z.to_nat length) data in
  let length := length - offset in
  if 0 <? length then
    let! r := readFixSize length in
    if r.1 <=? 0 then close_null else ret (Some (body ++ r.2))
  else ret (Some body).

Definition recvRequest (fuel : nat) : M Sk (option HttpRequest) :=
  let! h := recv_head fuel new_HttpRequestParser [] 0 in
  match h with
  | None => ret None
  | Some (parser, data, offset) =>
    let length := i64 (getContentLength lexical_u64 parser) in
    if 0 <? length then
      let! b := recv_body length offset data in
      match b with
      | None => ret None
      | Some body => ret (Some (init (set_body body (m_data parser))))
      end
    else ret (Some (init (m_data parser)))
  end.

(** [HttpConnection::sendRequest], and its counterpart *)
Definition sendRequest (req : HttpRequest) : M Sk Z := writeFixSize (dump req).
Definition sendResponse (rsp : HttpResponse) : M Sk Z := writeFixSize (rsp_dump rsp).

(** ** [HttpServer] *)
Context (fnmatch : list Z → list Z → bool) (user : served → HttpRequest → HttpResponse → HttpResponse).
Context (name : list Z) (m_isKeepalive : bool) (m_dispatch : ServletDispatch).

Definition respond (req : HttpRequest) : HttpResponse :=
  (handle fnmatch user m_dispatch req
    (rsp_setHeader (bytes_of_string "Server") name
      (new_HttpResponse (m_version req) (m_close req || negb m_isKeepalive)))).2.
Fixpoint handle_loop (fuel : nat) : M Sk unit :=
  match fuel with
  | O => lift Fuel
  | S fuel' =>
    let! req := recvRequest fuel in
    match req with
    | None => ret tt
    | Some req =>
      let! _ := sendResponse (respond req) in
      if negb m_isKeepalive || m_close req then ret tt else handle_loop fuel'
    end
  end.
Definition handleClient (fuel : nat) : M Sk unit := handle_loop fuel ;;! modst close.
End session.
Arguments HttpRequestParser : clear implicits.

(** ** A parser for examples

    It takes a head that is in the buffer as a whole, reading it by the book, and as
    the generated parser does it takes a buffer without one as a whole.  Of a buffer
    that ends within the query it keeps where the query started ([query_start]), and
    like the generated parser it counts from there in the next one. *)
Inductive toy := ToyStart | ToyCut (query_start : nat) | ToyDone.
Definition with_length (e : list Z → Z → event) (t : list Z) : event := e t (Z.of_nat (length t)).
Definition field_event (kv : list Z * list Z) : event := http_field kv.1 (Z.of_nat (length kv.1)) kv.2 (Z.of_nat (length kv.2)).
Definition cut (c : Z) (s : list Z) : list Z * list Z := default (s, []) (find_char (Z.eqb c) s).
Definition toy_head (data : list Z) : option (list event * nat) :=
  '(m, s) ← find_char (Z.eqb 32) data;
  '(uri, s) ← find_char (Z.eqb 32) s;
  '(v, s) ← find_string crlf s;
  '(hs, s) ← read_head (length data) s;
  let '(target, frag) := cut 35 uri in
  let '(path, query) := cut 63 target in
  Some ([with_length request_method m; with_length request_path path] ++
    (if bool_decide (query = []) then [] else [with_length query_string query]) ++ [with_length request_uri target] ++
    (if bool_decide (frag = []) then [] else [with_length fragment frag]) ++
    [with_length http_version v] ++ (field_event <$> hs) ++ [header_done], (length data - length s)%nat).
(** Where the query starts that the end of the buffer cuts. *)
Definition toy_cut (data : list Z) : option nat :=
  '(m, s) ← find_char (Z.eqb 32) data;
  if find_char (Z.eqb 32) s is Some _ then None else
  '(path, query) ← find_char (Z.eqb 63) s; Some (length data - length query)%nat.
(** The rest of a head that was cut in its query. *)
Definition toy_rest (query_start : nat) (data : list Z) : option (list event * nat) :=
  '(query, s) ← find_char (Z.eqb 32) data;
  '(v, s) ← find_string crlf s;
  '(hs, s) ← read_head (length data) s;
  Some ([query_string (drop query_start data) (Z.of_nat (length query) - Z.of_nat query_start);
         with_length request_uri query; with_length http_version v] ++ (field_event <$> hs) ++ [header_done],
        (length data - length s)%nat).
#[export] Instance toy_machine : RequestMachine toy := {
  http_parser_init := ToyStart;
  http_parser_execute data p :=
    match p with
    | ToyStart =>
      match toy_head data with
      | Some (events, n) => (events, Z.of_nat n, ToyDone)
      | None => ([], Z.of_nat (length data), if toy_cut data is Some k then ToyCut k else ToyStart)
      end
    | ToyCut k =>
      match toy_rest k data with
      | Some (events, n) => (events, Z.of_nat n, ToyDone)
      | None => ([], Z.of_nat (length data), ToyCut k)
      end
    | ToyDone => ([], 0, ToyDone)
    end;
  http_parser_finish p := match p with ToyDone => 1 | _ => 0 end;
  http_parser_has_error _ := false
}.

(** [lexical_cast] of decimal digits. *)
Definition read_u64 (s : list Z) : option Z :=
  if bool_decide (s ≠ []) && forallb (between 48 57) s && (read_number s <? 2 ^ 64) then Some (read_number s) else None.
(** A servlet that answers with the path and the body of the request. *)
Definition echo (s : served) (req : HttpRequest) (rsp : HttpResponse) : HttpResponse :=
  setBody (m_path req ++ [58] ++ m_body req) rsp.
Definition echo_dispatch : ServletDispatch := setDefault (UserServlet 0) new_ServletDispatch.
Definition text_request (s : String.string) (body : String.string) : list Z := str s ++ crlf ++ crlf ++ str body.
Definition run_server (max_alloc buff : Z) (keepalive : bool) (w : wire) : outcome unit * wire :=
  handleClient (P := toy) read_u64 max_alloc buff (λ _ _, false) echo (str "x") keepalive echo_dispatch 200 w.

(** Two requests, each read on its own: both are answered. *)
Definition post_a : list Z := str "POST /a HTTP/1.1" ++ crlf ++ str "Connection: keep-alive" ++ crlf ++ str "Content-Length: 2" ++ crlf ++ crlf ++ str "hi".
Example answers_post :
  let r := run_server 1000 4096 true (mkWire post_a [] true 4095) in
  r.1 = Ok tt ∧ wire_open r.2 = false ∧
  wire_out r.2 = str "HTTP/1.1 200 OK" ++ crlf ++ str "Server: x" ++ crlf ++ str "connection: keep-alive" ++ crlf ++
    str "content-length: 5" ++ crlf ++ crlf ++ str "/a:hi".
Proof. vm_compute. done. Qed.
(** Two requests that arrive in one read: the second is dropped with the buffer. *)
Example pipelined_request_lost :
  wire_out (run_server 1000 4096 true (mkWire (post_a ++ post_a) [] true 4095)).2 =
  wire_out (run_server 1000 4096 true (mkWire post_a [] true 4095)).2.
Proof. vm_compute. done. Qed.
(** A request whose query the end of the first read cuts: [http_parser_execute] resets
    its marks but not [query_start], so the query that the second call reports starts
    at a mark of the first, behind its own end.  Its length is negative, and
    [std::string(at, length)] throws out of [recvRequest] and [handleClient]; the
    session is not closed. *)
Definition cut_in_query : wire := mkWire (str "GET /where?quer" ++ str "y HTTP/1.1" ++ crlf ++ crlf) [] true 14.
Example cut_query_throws :
  let r := run_server 1000 4096 true cut_in_query in r.1 = Throw LogicError ∧ wire_open r.2 = true ∧ wire_out r.2 = [].
Proof. vm_compute. done. Qed.
(** A head that announces more than can be allocated makes [recvRequest] throw, and
    [handleClient] with it; the configured maximum of a body is never looked at. *)
Example huge_length_throws :
  (run_server 1000 4096 true (mkWire (str "POST /a HTTP/1.1" ++ crlf ++ str "Content-Length: 1001" ++ crlf ++ crlf) [] true 4095)).1 = Throw BadAlloc.
Proof. vm_compute. done. Qed.
