(* ===== verification/HttpSessionThms.v ===== *)
(** * HTTP sessions: the properties

    Whatever a peer sends, a session ends well, and a server answers what it
    received. *)
From S2P Require Import Prelude Text Http HttpThms Stream WebSocket WebSocketThms Servlet HttpSession.

(** A callback's text lies within the buffer; a query may end before it starts. *)
Definition text_in (at_ : list Z) (n : Z) : Prop := 0 ≤ n ≤ Z.of_nat (length at_).
Definition event_in (e : event) : Prop :=
  match e with
  | query_string p n => n ≤ Z.of_nat (length p)
  | request_method p n | request_uri p n | fragment p n | request_path p n | http_version p n => text_in p n
  | http_field f n v m => text_in f n ∧ text_in v m
  | header_done => True
  end.
Definition is_cut (e : event) : Prop := match e with query_string _ n => n < 0 | _ => False end.

(** What a call of the parser takes: no more than there is, and all of it unless the
    head is complete or wrong.  The marks are set in the call or reset at its start
    (http11_parser.rl), but for that of the query: only a query that a call before
    has started can end before its mark. *)
Class RequestMachineLaws (P : Type) `{RequestMachine P} := {
  nread_bound data p events n p' : http_parser_execute data p = (events, n, p') → 0 ≤ n ≤ Z.of_nat (length data);
  nread_all data p events n p' : http_parser_execute data p = (events, n, p') →
    http_parser_has_error p' = false → http_parser_finish p' = 0 → n = Z.of_nat (length data);
  events_in data p events n p' : http_parser_execute data p = (events, n, p') → Forall event_in events;
  first_not_cut data events n p' : http_parser_execute data http_parser_init = (events, n, p') → Forall (λ e, ¬ is_cut e) events
}.

(** ** Callbacks *)
Lemma text_at_in p n : text_in p n → text_at p n = Ok (take (Z.to_nat n) p).
Proof. intros [? ?]. unfold text_at. by rewrite (proj2 (Z.ltb_ge n 0)), (proj2 (Z.ltb_ge _ n)) by done. Qed.
Section callbacks.
Context {P : Type} `{RequestMachine P}.
Implicit Types q : HttpRequestParser P.
Lemma callback_in q e : event_in e → (∃ q', callback q e = Ok q') ∨ callback q e = Throw LogicError ∧ is_cut e.
Proof.
  destruct e as [p n|p n|p n|p n|p n|p n| |f n v m]; cbn [event_in callback is_cut]; intros He; [by left; eexists..| | | | | |].
  - left. unfold on_request_fragment. rewrite text_at_in by done. by eexists.
  - left. unfold on_request_path. rewrite text_at_in by done. by eexists.
  - unfold on_request_query. destruct (decide (n < 0)).
    + right. unfold text_at. by rewrite (proj2 (Z.ltb_lt n 0)).
    + left. rewrite text_at_in by (unfold text_in; lia). by eexists.
  - left. by eexists.
  - left. by eexists.
  - left. unfold on_request_http_field. destruct He as [Hf Hv]. destruct (n =? 0); [by eexists|]. rewrite !text_at_in by done. by eexists.
Qed.
Lemma callbacks_in events : ∀ q, Forall event_in events →
  (∃ q', callbacks events q = Ok q') ∨ callbacks events q = Throw LogicError ∧ Exists is_cut events.
Proof.
  induction events as [|e events IH]; intros q He; cbn [callbacks]; [by left; eexists|]. apply Forall_cons in He as [He Hes].
  destruct (callback_in q e He) as [[q1 ->]|[-> Hc]]; cbn [obind]; [|right; split; [done|by left]].
  destruct (IH q1 Hes) as [?|[? ?]]; [by left|right]. split; [done|by right].
Qed.
End callbacks.

(** ** Bodies *)
Section bodies.
Context {Sk : Type} `{Sock : Socket Sk, SLaws : !SocketLaws Sk, Cl : Closing Sk, Laws : !ClosingLaws Sk}.
#[local] Set Default Proof Using "All".
Implicit Types s : Sk.

Lemma close_null_spec {A} s : ∃ s', @close_null Sk _ A s = (Ok None, s') ∧ isConnected s' = false ∧ outgoing s' = outgoing s.
Proof. exists (close s). split; [done|]. split; [apply close_closed|apply close_outgoing]. Qed.

Lemma readFixSize_cases n s : isConnected s = true → 0 < n < 2 ^ 63 →
  (∃ c bs s', readFixSize n s = (Ok (c, bs), s') ∧ c ≤ 0 ∧ outgoing s' = outgoing s ∧ Z.of_nat (length (incoming s)) < n) ∨
  (∃ s', readFixSize n s = (Ok (i32 n, take (Z.to_nat n) (incoming s)), s') ∧ n ≤ Z.of_nat (length (incoming s)) ∧
     incoming s' = drop (Z.to_nat n) (incoming s) ∧ outgoing s' = outgoing s ∧ isConnected s' = true).
Proof.
  intros Hc Hn. unfold readFixSize. rewrite i64_small by lia.
  destruct (decide (n ≤ Z.of_nat (length (incoming s)))).
  - right. destruct (readFixSize_loop_ok (Z.to_nat n) n (Z.to_nat n) s Hc) as (s' & E & ?); [lia|lia|].
    rewrite Z2Nat.id in E by lia. by exists s'.
  - left. destruct (readFixSize_short (Z.to_nat n) n (Z.to_nat n) s Hc) as (c & bs & s' & E & Hcc & Ho); [lia|].
    rewrite Z2Nat.id in E by lia. exists c, bs, s'. split_and!; done || lia.
Qed.

Lemma recv_body_spec max_alloc n data s : isConnected s = true → 0 < n < 2 ^ 63 →
  ∃ o s', recv_body max_alloc n (Z.of_nat (length data)) data s = (o, s') ∧ outgoing s' = outgoing s ∧
    match o with
    | Ok (Some body) => isConnected s' = true ∧ ∃ rest, incoming s = rest ++ incoming s' ∧
        body = take (Z.to_nat n) (data ++ rest) ∧ Z.of_nat (length rest) = Z.max 0 (n - Z.of_nat (length data))
    | Ok None => isConnected s' = false ∧ let left := n - Z.of_nat (length data) in
        0 < left ∧ (Z.of_nat (length (incoming s)) < left ∨ 2 ^ 31 ≤ left)
    | Throw BadAlloc => max_alloc < n
    | _ => False
    end.
Proof.
  intros Hc Hn. unfold recv_body. destruct (Z.ltb_spec max_alloc n); [by exists (Throw BadAlloc), s|].
  destruct (Z.ltb_spec 0 (n - Z.of_nat (length data))).
  - rewrite (proj2 (Z.leb_le _ _)) by lia. rewrite Nat2Z.id, take_ge by lia.
    destruct (readFixSize_cases (n - Z.of_nat (length data)) s Hc) as [(c & bs & s1 & E & Hcc & Ho & Hl)|(s1 & E & Hl & Hi & Ho & Hc1)]; [lia| |];
      unfold bind at 1; rewrite E; cbn [fst snd].
    + rewrite (proj2 (Z.leb_le _ _)) by done. destruct (close_null_spec (A := list Z) s1) as (s' & -> & Hx & Hy).
      exists (Ok None), s'. split; [done|]. split; [congruence|]. split; [done|]. cbn zeta. split; [lia|by left].
    + destruct (Z.leb_spec (i32 (n - Z.of_nat (length data))) 0).
      * destruct (close_null_spec (A := list Z) s1) as (s' & -> & Hx & Hy). exists (Ok None), s'. split; [done|]. split; [congruence|]. split; [done|].
        cbn zeta. split; [lia|]. right. destruct (decide (2 ^ 31 ≤ n - Z.of_nat (length data))); [done|].
        rewrite i32_small in * by lia. lia.
      * eexists (Ok (Some _)), s1. split; [reflexivity|]. split; [done|]. split; [done|].
        exists (take (Z.to_nat (n - Z.of_nat (length data))) (incoming s)). rewrite Hi, take_drop. split; [done|].
        assert (length (take (Z.to_nat (n - Z.of_nat (length data))) (incoming s)) = Z.to_nat (n - Z.of_nat (length data))) as Hlen
          by (rewrite length_take; lia).
        split; [|lia]. symmetry. apply take_ge. rewrite length_app. lia.
  - eexists (Ok (Some _)), s. split; [reflexivity|]. split; [done|]. split; [done|]. exists []. split; [done|]. rewrite app_nil_r. split; [|cbn; lia].
    destruct (Z.leb_spec (Z.of_nat (length data)) n); [|done]. rewrite !take_ge by lia. done.
Qed.

End bodies.

Section laws.
Context {P : Type} `{RM : RequestMachine P, ML : !RequestMachineLaws P}.
Context {Sk : Type} `{Sock : Socket Sk, SLaws : !SocketLaws Sk, Cl : Closing Sk, Laws : !ClosingLaws Sk}.
Context (lexical_u64 : list Z → option Z) (max_alloc buff_size : Z).
#[local] Set Default Proof Using "All".
Hypothesis Hbuff : 0 < buff_size < 2 ^ 31.
Implicit Types s : Sk.
Implicit Types q : HttpRequestParser P.

(** ** Reading the head *)
(** The parser after the pieces in which the stream delivered the head, and the bytes
    of the last one it did not take. *)
Fixpoint feed (pieces : list (list Z)) (data : list Z) (q : HttpRequestParser P) : outcome (list Z * HttpRequestParser P) :=
  match pieces with
  | [] => Ok (data, q)
  | piece :: pieces => obind (execute piece q) (λ '(_, data, q), feed pieces data q)
  end.
(** What the first read of the loop gives. *)
Lemma read_once s : isConnected s = true →
  (∃ c s', read_buf buff_size s = ((c, []), s') ∧ i32 c ≤ 0 ∧ outgoing s' = outgoing s ∧ incoming s = []) ∨
  (∃ k s', read_buf buff_size s = ((Z.of_nat k, take k (incoming s)), s') ∧ (0 < k ≤ length (incoming s))%nat ∧
     Z.of_nat k ≤ buff_size ∧ incoming s' = drop k (incoming s) ∧ outgoing s' = outgoing s ∧ isConnected s' = true).
Proof.
  intros Hc. unfold read_buf. rewrite Hc. destruct (decide (incoming s = [])) as [E|E].
  - left. destruct (recv_end buff_size s Hc) as (c & s' & -> & Hcc & Ho); [lia|done|]. exists c, s'. split; [done|]. split; [|done].
    assert (to_signed 32 c = c) as ->; [|lia]. rewrite <- (to_signed_wrap 32 c) at 2 by (try unfold is_sint; lia).
    unfold to_signed. by rewrite wrap_wrap by lia.
  - right. destruct (recv_some buff_size s Hc) as (k & s1 & -> & ?); [lia|done|]. by exists k, s1.
Qed.

(** A call of the parser whose query ends before it starts. *)
Definition cuts (piece : list Z) (q : HttpRequestParser P) : Prop :=
  Exists is_cut (http_parser_execute piece (m_parser q)).1.1.
Lemma execute_cases data q : (∃ r, execute data q = Ok r) ∨ execute data q = Throw LogicError ∧ cuts data q.
Proof.
  unfold execute, cuts. destruct (http_parser_execute data (m_parser q)) as [[ev m] p] eqn:E. cbn [fst].
  destruct (callbacks_in ev q) as [[q' ->]|[-> ?]]; [by eapply events_in|left; by eexists|by right].
Qed.
Lemma execute_spec data q n data' q' : execute data q = Ok (n, data', q') →
  0 ≤ n ≤ Z.of_nat (length data) ∧ data' = drop (Z.to_nat n) data ∧
  (hasError q' = false → isFinished q' = 0 → n = Z.of_nat (length data)).
Proof.
  unfold execute. destruct (http_parser_execute data (m_parser q)) as [[ev m] p] eqn:E.
  destruct (callbacks ev q) as [q1| | |]; [|done..]. intros [= <- <- <-].
  split; [by eapply nread_bound|]. split; [done|]. unfold hasError, isFinished. cbn [m_parser m_error].
  intros [_ He]%orb_false_iff Hf. by eapply nread_all.
Qed.

(** No head at the front of [inc]: the input ends before it is complete, the parser
    rejects it, or it leaves the buffer full. *)
Definition no_head (q0 : HttpRequestParser P) (inc : list Z) : Prop :=
  ∃ pieces data q rest, inc = concat pieces ++ rest ∧ feed pieces [] q0 = Ok (data, q) ∧
    (rest = [] ∧ (pieces = [] ∨ hasError q = false ∧ isFinished q = 0) ∨ hasError q = true ∨ Z.of_nat (length data) = buff_size).

(** At the front of [inc] is a head whose query a piece cuts: the parser, not done with
    the pieces before, reports for the next one a query of a negative length. *)
Definition cut_query (q0 : HttpRequestParser P) (inc : list Z) : Prop :=
  ∃ pieces piece data q rest, inc = concat pieces ++ piece ++ rest ∧ feed pieces [] q0 = Ok (data, q) ∧
    (pieces = [] ∨ hasError q = false ∧ isFinished q = 0) ∧ cuts piece q.

Lemma recv_head_spec fuel : ∀ q s, isConnected s = true → (length (incoming s) < fuel)%nat →
  ∃ o s', recv_head buff_size fuel q [] 0 s = (o, s') ∧ outgoing s' = outgoing s ∧
    match o with
    | Throw LogicError => isConnected s' = true ∧ cut_query q (incoming s)
    | Ok None => isConnected s' = false ∧ no_head q (incoming s)
    | Ok (Some (q', data, offset)) =>
      isConnected s' = true ∧ offset = Z.of_nat (length data) ∧
      ∃ pieces, pieces ≠ [] ∧ ¬ ([] ∈ pieces) ∧ incoming s = concat pieces ++ incoming s' ∧ feed pieces [] q = Ok (data, q') ∧
        hasError q' = false ∧ isFinished q' ≠ 0
    | _ => False
    end.
Proof.
  induction fuel as [|fuel IH]; intros q s Hc Hf; [lia|]. cbn [recv_head]. unfold bind at 1. rewrite Z.sub_0_r.
  destruct (read_once s Hc) as [(c & s1 & -> & Hcc & Ho & Hend)|(k & s1 & -> & Hk & Hkb & Hi & Ho & Hc1)].
  { cbn [fst]. rewrite (proj2 (Z.leb_le _ _)) by done. destruct (close_null_spec (A := HttpRequestParser P * list Z * Z) s1) as (s' & E & Hx & Hy).
    exists (Ok None), s'. split; [done|]. split; [congruence|]. split; [done|].
    exists [], [], q, []. split; [done|]. split; [done|]. left. split; [done|by left]. }
  cbn [fst snd]. rewrite i32_small by lia. rewrite (proj2 (Z.leb_gt _ _)) by lia. rewrite app_nil_l, Z.add_0_r.
  set (piece := take k (incoming s)). assert (length piece = k) as Hpl by (subst piece; rewrite length_take; lia).
  unfold bind at 1, lift.
  assert (incoming s = piece ++ incoming s1) as Hin by (subst piece; rewrite Hi; by rewrite take_drop).
  assert (piece ≠ []) as Hne by (intros Hx; rewrite Hx in Hpl; cbn in Hpl; lia).
  assert (∃ s', @close_null Sk _ (HttpRequestParser P * list Z * Z) s1 = (Ok None, s') ∧ isConnected s' = false ∧ outgoing s' = outgoing s) as Hcl.
  { destruct (close_null_spec (A := HttpRequestParser P * list Z * Z) s1) as (s' & ? & ? & ?). exists s'. split_and!; congruence. }
  destruct (execute_cases piece q) as [[[[n data] q'] E]|[E Hcut]]; rewrite E.
  2: { exists (Throw LogicError), s1. split; [done|]. split; [done|]. split; [done|].
    exists [], piece, [], q, (incoming s1). split; [done|]. split; [done|]. split; [by left|done]. }
  destruct (execute_spec _ _ _ _ _ E) as (Hn & Hd & Hall).
  assert (feed [piece] [] q = Ok (data, q')) as Hfp by (cbn [feed]; by rewrite E).
  destruct (hasError q') eqn:He.
  { destruct Hcl as (s' & -> & Hx & Hy). exists (Ok None), s'. split; [done|]. split; [done|]. split; [done|].
    exists [piece], data, q', (incoming s1). split; [cbn; by rewrite app_nil_r|]. split; [done|]. right; by left. }
  rewrite (i32_small (Z.of_nat k - n)), (i32_small buff_size) by lia. destruct (Z.eqb_spec (Z.of_nat k - n) buff_size).
  { destruct Hcl as (s' & -> & Hx & Hy). exists (Ok None), s'. split; [done|]. split; [done|]. split; [done|].
    exists [piece], data, q', (incoming s1). split; [cbn; by rewrite app_nil_r|]. split; [done|]. right; right. rewrite Hd, length_drop. lia. }
  destruct (Z.eqb_spec (isFinished q') 0) as [Hf0|Hf0]; cbn [negb].
  - assert (n = Z.of_nat k) as -> by (rewrite Hall by done; lia).
    assert (data = []) as -> by (rewrite Hd; apply drop_ge; lia). rewrite Z.sub_diag.
    destruct (IH q' s1 Hc1) as (o & s' & -> & Ho' & R).
    { rewrite Hi, length_drop. lia. }
    exists o, s'. split; [done|]. split; [congruence|]. destruct o as [[[[q2 data2] off2]|]|[]| |]; try done.
    3: { destruct R as [Rc (pieces & p2 & data & q2 & rest & Rin & Rf & Rw & Rcut)]. split; [done|]. exists (piece :: pieces), p2, data, q2, rest.
         split; [cbn; by rewrite <- app_assoc, <- Rin|]. split; [cbn [feed]; by rewrite E|]. split; [|done]. right.
         destruct Rw as [-> |Rw]; [|done]. injection Rf as _ <-. done. }
    2: { destruct R as [Rc (pieces & data & q2 & rest & Rin & Rf & Rw)]. split; [done|]. exists (piece :: pieces), data, q2, rest.
         split; [cbn; by rewrite <- app_assoc, <- Rin|]. split; [cbn [feed]; by rewrite E|]. destruct Rw as [[Rr [->|Rw]]|Rw]; [|by left; split; [|right]|by right].
         left. split; [done|]. right. injection Rf as _ <-. done. }
    destruct R as (Rc & Roff & pieces & Rne & Rnil & Rin & Rf & Re). split; [done|]. split; [done|].
    exists (piece :: pieces). split; [done|]. split; [by rewrite not_elem_of_cons|]. split; [cbn; by rewrite <- app_assoc, <- Rin|].
    split; [|done]. cbn [feed]. by rewrite E.
  - exists (Ok (Some (q', data, Z.of_nat k - n))), s1. split; [done|]. split; [done|]. split; [done|].
    split; [rewrite Hd, length_drop; lia|]. exists [piece]. split; [done|]. split; [by rewrite list_elem_of_singleton|].
    split; [cbn; by rewrite app_nil_r|]. split; [|done]. cbn [feed]. by rewrite E.
Qed.

(** ** The whole request *)
(** A request read off the front of [inc], [inc'] being left: the parser made its head
    of the pieces that were delivered, and its body is, of the announced length, what
    they held beyond the head and what was read after them. *)
Definition received (inc : list Z) (req : HttpRequest) (inc' : list Z) : Prop :=
  ∃ pieces data (q : HttpRequestParser P) rest,
    pieces ≠ [] ∧ ¬ ([] ∈ pieces) ∧ inc = concat pieces ++ rest ++ inc' ∧ feed pieces [] new_HttpRequestParser = Ok (data, q) ∧
    hasError q = false ∧ isFinished q ≠ 0 ∧
    let n := i64 (getContentLength lexical_u64 q) in
    req = init (if 0 <? n then set_body (take (Z.to_nat n) (data ++ rest)) (m_data q) else m_data q) ∧
    Z.of_nat (length rest) = Z.max 0 (n - Z.of_nat (length data)).

(** A head at the front of [inc] that announces more bytes than can be allocated. *)
Definition too_big (inc : list Z) : Prop :=
  ∃ pieces data (q : HttpRequestParser P) rest, inc = concat pieces ++ rest ∧ feed pieces [] new_HttpRequestParser = Ok (data, q) ∧
    hasError q = false ∧ isFinished q ≠ 0 ∧ max_alloc < i64 (getContentLength lexical_u64 q).

(** The query of the head at the front of [inc] is cut between two reads. *)
Definition query_split (inc : list Z) : Prop :=
  ∃ pieces piece data (q : HttpRequestParser P) rest, pieces ≠ [] ∧ inc = concat pieces ++ piece ++ rest ∧
    feed pieces [] new_HttpRequestParser = Ok (data, q) ∧ hasError q = false ∧ isFinished q = 0 ∧ cuts piece q.
Lemma cut_query_split inc : cut_query new_HttpRequestParser inc → query_split inc.
Proof.
  intros (pieces & piece & data & q & rest & Hin & Hf & Hq & Hc). destruct pieces as [|p pieces].
  - injection Hf as <- <-. exfalso. unfold cuts in Hc. cbn [m_parser new_HttpRequestParser] in Hc.
    destruct (http_parser_execute piece http_parser_init) as [[ev n] p'] eqn:E. apply first_not_cut in E.
    apply Exists_exists in Hc as (e & He & Hc). rewrite Forall_forall in E. by apply (E e).
  - destruct Hq as [?|[? ?]]; [done|]. exists (p :: pieces), piece, data, q, rest. by split_and!.
Qed.

(** The reasons for which a session gives up a request. *)
Definition refused (inc : list Z) : Prop :=
  no_head new_HttpRequestParser inc ∨
  ∃ pieces data (q : HttpRequestParser P) rest, inc = concat pieces ++ rest ∧ feed pieces [] new_HttpRequestParser = Ok (data, q) ∧
    hasError q = false ∧ isFinished q ≠ 0 ∧
    let left := i64 (getContentLength lexical_u64 q) - Z.of_nat (length data) in
    0 < left ∧ (Z.of_nat (length rest) < left ∨ 2 ^ 31 ≤ left).

Lemma recvRequest_spec fuel s : isConnected s = true → (length (incoming s) < fuel)%nat →
  ∃ o s', recvRequest lexical_u64 max_alloc buff_size fuel s = (o, s') ∧ outgoing s' = outgoing s ∧
    match o with
    | Ok (Some req) => isConnected s' = true ∧ received (incoming s) req (incoming s')
    | Ok None => isConnected s' = false ∧ refused (incoming s)
    | Throw BadAlloc => too_big (incoming s)
    | Throw LogicError => query_split (incoming s)
    | _ => False
    end.
Proof.
  intros Hc Hf. unfold recvRequest, bind at 1. destruct (recv_head_spec fuel new_HttpRequestParser s Hc Hf) as (o & s1 & -> & Ho & R).
  destruct o as [[[[q data] offset]|]|[]| |]; try done.
  2: { exists (Ok None), s1. split; [done|]. split; [done|]. destruct R. split; [done|by left]. }
  2: { exists (Throw LogicError), s1. split; [done|]. split; [done|]. apply cut_query_split, R. }
  destruct R as (Hc1 & -> & pieces & Hne & Hnil & Hin & Hfeed & He & Hfin).
  assert (i64 (getContentLength lexical_u64 q) < 2 ^ 63) as Hlt.
  { pose proof (to_signed_is_sint 64 (getContentLength lexical_u64 q) ltac:(lia)) as [_ ?]. lia. }
  set (n := i64 _) in *. destruct (Z.ltb_spec 0 n).
  - unfold bind. destruct (recv_body_spec max_alloc n data s1 Hc1) as (o & s2 & -> & Ho2 & R); [lia|].
    destruct o as [[body|]|[]| |]; try done.
    + destruct R as (Hc2 & rest & Hi2 & -> & Hlen). eexists (Ok (Some _)), s2. split; [reflexivity|]. split; [congruence|]. split; [done|].
      exists pieces, data, q, rest. split_and!; try done; [by rewrite Hin, Hi2|].
      cbn zeta. fold n. by rewrite (proj2 (Z.ltb_lt 0 n)).
    + exists (Ok None), s2. destruct R as [Hc2 Hw]. split; [done|]. split; [congruence|]. split; [done|]. right.
      by exists pieces, data, q, (incoming s1).
    + exists (Throw BadAlloc), s2. split; [done|]. split; [congruence|]. by exists pieces, data, q, (incoming s1).
  - eexists (Ok (Some _)), s1. split; [reflexivity|]. split; [done|]. split; [done|].
    exists pieces, data, q, []. split_and!; try done.
    cbn zeta. fold n. rewrite (proj2 (Z.ltb_ge 0 n)) by done. split; [done|]. cbn. lia.
Qed.

(** *** The server *)
Context (fnmatch : list Z → list Z → bool) (user : served → HttpRequest → HttpResponse → HttpResponse).
Context (name : list Z) (m_isKeepalive : bool) (m_dispatch : ServletDispatch).

(** The requests received one after the other, up to the last one. *)
Inductive talk : list Z → list HttpRequest → list Z → Prop :=
| talk_end inc : talk inc [] inc
| talk_more inc req inc' reqs inc'' : received inc req inc' → talk inc' reqs inc'' → talk inc (req :: reqs) inc''.
(** Why the server stops: the last request asked for it, or what is left is no request. *)
Definition stops (reqs : list HttpRequest) (inc : list Z) : Prop :=
  (∃ r, last reqs = Some r ∧ (m_isKeepalive = false ∨ m_close r = true)) ∨ refused inc.
(** The two exceptions that come out of [recvRequest], and when. *)
Definition throws (o : outcome unit) (inc : list Z) : Prop :=
  o = Throw BadAlloc ∧ too_big inc ∨ o = Throw LogicError ∧ query_split inc.
Abbreviation answer req := (rsp_dump (respond fnmatch user name m_isKeepalive m_dispatch req)).

Lemma received_shorter inc req inc' : received inc req inc' → (length inc' < length inc)%nat.
Proof.
  intros (pieces & data & q & rest & Hne & Hnil & -> & _). rewrite !length_app.
  destruct pieces as [|[|x p] ps]; [done|by destruct Hnil; left|]. cbn. lia.
Qed.
Lemma handle_loop_spec fuel : ∀ s, isConnected s = true → (length (incoming s) < fuel)%nat →
  ∃ o s', handle_loop lexical_u64 max_alloc buff_size fnmatch user name m_isKeepalive m_dispatch fuel s = (o, s') ∧
    ∃ reqs inc', (o = Ok tt ∧ stops reqs inc' ∨ throws o inc') ∧ talk (incoming s) reqs inc' ∧ outgoing s' = outgoing s ++ (reqs ≫= λ r, answer r) ∧
      Forall (λ r, m_isKeepalive = true ∧ m_close r = false) (removelast reqs).
Proof.
  induction fuel as [|fuel IH]; intros s Hc Hf; [lia|]. cbn [handle_loop]. unfold bind at 1.
  destruct (recvRequest_spec (S fuel) s Hc Hf) as (o & s1 & -> & Ho & R).
  destruct o as [[req|]|[]| |]; try done.
  - destruct R as [Hc1 R]. unfold bind at 1. unfold sendResponse, writeFixSize.
    destruct (writeFixSize_loop_ok (length (answer req)) (Z.of_nat (length (answer req))) (answer req) s1 Hc1 ltac:(lia))
      as (s2 & -> & Hi2 & Ho2 & Hc2).
    assert (talk (incoming s) [req] (incoming s2)) as Ht by (rewrite Hi2; econstructor; [done|constructor]).
    destruct (negb m_isKeepalive || m_close req) eqn:E.
    + exists (Ok tt), s2. split; [done|]. exists [req], (incoming s2).
      split; [left; split; [done|]; left; exists req; split; [done|]; apply orb_true_iff in E as [E|E]; [left; by apply negb_true_iff|by right]|].
      split; [done|].
      split; [rewrite Ho2, Ho; cbn; by rewrite app_nil_r|constructor].
    + apply received_shorter in R as Hs. destruct (IH s2 Hc2) as (o & s3 & E3 & reqs & inc' & Hor & Ht3 & Ho3 & Hk); [rewrite Hi2; lia|].
      exists o, s3. split; [exact E3|]. exists (req :: reqs), inc'.
      split; [destruct Hor as [[-> [(r & Hr & Hl)|Hw]]|]; [left; split; [done|]; left; exists r; split; [by rewrite last_cons, Hr|done]|by left; split; [|right]|by right]|].
      split; [econstructor; [exact R|by rewrite <- Hi2]|]. split; [rewrite Ho3, Ho2, Ho; cbn; by rewrite <- app_assoc|].
      apply orb_false_iff in E as [E1 E2]. apply negb_false_iff in E1. destruct reqs; [constructor|]. cbn. by constructor.
  - exists (Ok tt), s1. split; [done|]. exists [], (incoming s). split; [left; split; [done|right; apply R]|]. split; [constructor|].
    split; [cbn; by rewrite app_nil_r|constructor].
  - exists (Throw LogicError), s1. split; [done|]. exists [], (incoming s). split; [by right; right|]. split; [constructor|].
    split; [cbn; by rewrite app_nil_r|constructor].
  - exists (Throw BadAlloc), s1. split; [done|]. exists [], (incoming s). split; [by right; left|]. split; [constructor|].
    split; [cbn; by rewrite app_nil_r|constructor].
Qed.

(** C24: Whatever bytes a peer sends, [handleClient] ends, and has answered exactly the
    requests it received, each once and in order, and only the last one after a
    request that asked to close: what it wrote is the text of their responses.  Each
    request is what the parser made of the pieces the stream delivered, with a body
    of the length its head announces.  In the end the session is closed, unless
    [recvRequest] throws, and with it [handleClient], in one of two cases: a complete
    head announces more bytes than can be allocated; or the head arrives in several
    reads of which one ends within its query, and the parser, which does not reset
    [query_start] between its calls, reports a query of a negative length (as for
    [cut_query_throws]). *)
Theorem server_answers fuel s : isConnected s = true → (length (incoming s) < fuel)%nat →
  ∃ o s', handleClient lexical_u64 max_alloc buff_size fnmatch user name m_isKeepalive m_dispatch fuel s = (o, s') ∧
    ∃ reqs inc', (o = Ok tt ∧ isConnected s' = false ∧ stops reqs inc' ∨ throws o inc') ∧ talk (incoming s) reqs inc' ∧ outgoing s' = outgoing s ++ (reqs ≫= λ r, answer r) ∧
      Forall (λ r, m_isKeepalive = true ∧ m_close r = false) (removelast reqs).
Proof.
  intros Hc Hf. unfold handleClient, bind. destruct (handle_loop_spec fuel s Hc Hf) as (o & s1 & -> & reqs & inc' & Hor & Ht & Ho & Hk).
  destruct Hor as [[-> Hst]|Hth].
  - exists (Ok tt), (close s1). split; [done|]. exists reqs, inc'. split; [left; split_and!; [done|apply close_closed|done]|].
    by rewrite close_outgoing.
  - exists o, s1. split; [by destruct Hth as [[-> _]|[-> _]]|]. exists reqs, inc'. split; [by right|done].
Qed.
End laws.

Lemma field_events_in hs : Forall event_in (field_event <$> hs) ∧ Forall (λ e, ¬ is_cut e) (field_event <$> hs).
Proof. split; apply Forall_fmap, Forall_true; intros kv; cbn; unfold text_in; [lia|by intros []]. Qed.
Lemma toy_head_in data es k : toy_head data = Some (es, k) → (k ≤ length data)%nat ∧ Forall event_in es ∧ Forall (λ e, ¬ is_cut e) es.
Proof.
  unfold toy_head. destruct (find_char _ data) as [[m s1]|]; [|done]. cbn [mbind option_bind].
  destruct (find_char _ s1) as [[uri s2]|]; [|done]. cbn [mbind option_bind].
  destruct (find_string crlf s2) as [[v s3]|]; [|done]. cbn [mbind option_bind].
  destruct (read_head _ s3) as [[hs s4]|]; [|done]. cbn [mbind option_bind].
  destruct (cut 35 uri) as [target frag]. destruct (cut 63 target) as [path query]. intros [= <- <-]. split; [lia|].
  destruct (field_events_in hs). split; repeat (apply Forall_app; split); repeat case_bool_decide; try done;
    repeat constructor; cbn; unfold text_in; try lia; try tauto; (apply Forall_app; split; [done|]; apply Forall_singleton; cbn; tauto).
Qed.
Lemma toy_rest_in j data es k : toy_rest j data = Some (es, k) → (k ≤ length data)%nat ∧ Forall event_in es.
Proof.
  unfold toy_rest. destruct (find_char _ data) as [[query s1]|] eqn:E; [|done]. cbn [mbind option_bind].
  destruct (find_string crlf s1) as [[v s3]|]; [|done]. cbn [mbind option_bind].
  destruct (read_head _ s3) as [[hs s4]|]; [|done]. cbn [mbind option_bind]. intros [= <- <-]. split; [lia|].
  destruct (field_events_in hs). assert (length query ≤ length data)%nat as Hl.
  { pose proof (find_char_spec (Z.eqb 32) data) as Hs. rewrite E in Hs. destruct Hs as (c & -> & _). rewrite length_app. lia. }
  repeat constructor; cbn; unfold text_in; rewrite ?length_drop; try lia. apply Forall_app; split; [done|]. apply Forall_singleton; cbn; tauto.
Qed.
Lemma toy_execute_ok data (p : toy) ev n p' : http_parser_execute data p = (ev, n, p') →
  0 ≤ n ≤ Z.of_nat (length data) ∧ (http_parser_finish p' = 0 → n = Z.of_nat (length data)) ∧ Forall event_in ev ∧
  (p = ToyStart → Forall (λ e, ¬ is_cut e) ev).
Proof.
  cbn [http_parser_execute http_parser_finish toy_machine]. destruct p as [|j|].
  - destruct (toy_head data) as [[es k]|] eqn:E.
    + intros [= <- <- <-]. apply toy_head_in in E as (? & ? & ?). by split_and!; done || lia.
    + intros [= <- <- <-]. by split_and!; done || lia.
  - destruct (toy_rest j data) as [[es k]|] eqn:E; intros [= <- <- <-]; [|by split_and!; done || lia].
    apply toy_rest_in in E as (? & ?). by split_and!; done || lia.
  - intros [= <- <- <-]. by split_and!; done || lia.
Qed.
#[export] Instance toy_laws : RequestMachineLaws toy.
Proof.
  split.
  - intros data p ev n p' E. by apply toy_execute_ok in E as [? _].
  - intros data p ev n p' E _ Hf. apply toy_execute_ok in E as (_ & E & _). by apply E.
  - intros data p ev n p' E. by apply toy_execute_ok in E as (_ & _ & ? & _).
  - intros data ev n p' E. apply toy_execute_ok in E as (_ & _ & _ & E). by apply E.
Qed.
Definition server_input : wire := mkWire post_a [] true 4095.
Lemma server_answers_witness : 0 < 4096 < 2 ^ 31 ∧
  ∃ o s', run_server 1000 4096 true server_input = (o, s') ∧
    ∃ reqs inc', (o = Ok tt ∧ isConnected s' = false ∧ stops (P := toy) read_u64 4096 true reqs inc' ∨
        throws (P := toy) read_u64 1000 o inc') ∧
      talk (P := toy) read_u64 (incoming server_input) reqs inc' ∧
      outgoing s' = outgoing server_input ++ (reqs ≫= λ r, rsp_dump (respond (λ _ _, false) echo (str "x") true echo_dispatch r)) ∧
      Forall (λ r, true = true ∧ m_close r = false) (removelast reqs).
Proof.
  assert (0 < 4096 < 2 ^ 31) as Hb by lia. split; [done|].
  assert ((length (incoming server_input) < 200)%nat) as Hf by (vm_compute; lia).
  exact (server_answers (P := toy) (Laws := wire_closing_laws) read_u64 1000 4096 Hb (λ _ _, false) echo (str "x") true echo_dispatch 200
    server_input eq_refl Hf).
Defined.
