(* ===== verification/HttpWire.v ===== *)
(** * A request over the wire

    What [HttpConnection::sendRequest] writes, [recvRequest] reads back, with any
    parser that follows the grammar of http11_parser.rl. *)
From S2P Require Import Prelude Text Http HttpThms Stream WebSocket WebSocketThms Servlet HttpSession HttpSessionThms.

(** ** The grammar *)
Definition is_alnum (c : Z) : bool := between 48 57 c || between 65 90 c || between 97 122 c.
(** [pchar] without its percent code, and the rules [path_absolute], [query] and [fragment]. *)
Definition uri_char (c : Z) : bool :=
  (128 <=? c) || is_alnum c || bool_decide (c ∈ bytes_of_string "-._~!$&'()*+,;=:@").
Inductive pchars (extra : Z → bool) : list Z → Prop :=
| pchars_nil : pchars extra []
| pchars_char c s : uri_char c || extra c = true → pchars extra s → pchars extra (c :: s)
| pchars_pct a b s : isxdigit a = true → isxdigit b = true → pchars extra s → pchars extra (37 :: a :: b :: s).
Definition is_slash (c : Z) : bool := c =? 47.
Definition slash_or_mark (c : Z) : bool := (c =? 47) || (c =? 63).
Definition path_ok (path : list Z) : Prop := pchars is_slash path ∧ head path = Some 47 ∧ nth 1 path 0 ≠ 47.
Definition query_ok (query : list Z) : Prop := pchars slash_or_mark query.
(** [field_name], and a [field_value] on one line that is not empty. *)
Definition token_char (c : Z) : Prop := 33 ≤ c ≤ 126 ∧ ¬ c ∈ bytes_of_string "()<>@,;:\/[]?={}" ∧ ¬ c = 34.
#[export] Instance token_char_dec c : Decision (token_char c).
Proof. unfold token_char. apply _. Defined.
Definition field_ok (kv : list Z * list Z) : Prop :=
  kv.1 ≠ [] ∧ Forall token_char kv.1 ∧ kv.2 ≠ [] ∧ Forall (λ c, 32 ≤ c ∧ ¬ c = 127) kv.2 ∧ head kv.2 ≠ Some 32.
#[export] Instance field_ok_dec kv : Decision (field_ok kv).
Proof. unfold field_ok. apply _. Defined.
(** A method of capitals: not "M-SEARCH". *)
Definition method_ok (m : HttpMethod) : Prop := m ≠ INVALID_METHOD ∧ m ≠ MSEARCH.
Definition version_ok (v : Z) : Prop := v = 16 ∨ v = 17.

Definition uri_text (path query frag : list Z) : list Z := path ++ with_mark 63 query ++ with_mark 35 frag.
Definition version_word (v : Z) : list Z := bytes_of_string "HTTP/" ++ version_text v.
Definition request_head (m : HttpMethod) (path query frag : list Z) (v : Z) (hs : MapType) : list Z :=
  HttpMethodToString m ++ [32] ++ uri_text path query frag ++ [32] ++ version_word v ++ crlf ++
  (hs ≫= λ kv, header_line kv.1 kv.2) ++ crlf.

(** ** What the parser reports of a head *)
(** The callback of event [e] sees at its marks what [x] holds. *)
Definition prefix_of (t at_ : list Z) (n : Z) : Prop := n = Z.of_nat (length t) ∧ ∃ rest, at_ = t ++ rest.
Definition reports (e x : event) : Prop :=
  match e, x with
  | request_method p n, request_method t _ => prefix_of t p n
  | request_uri p n, request_uri t _ => prefix_of t p n
  | fragment p n, fragment t _ => prefix_of t p n
  | request_path p n, request_path t _ => prefix_of t p n
  | query_string p n, query_string t _ => prefix_of t p n
  | http_version p n, http_version t _ => prefix_of t p n
  | header_done, header_done => True
  | http_field f n v m, http_field k _ w _ => prefix_of k f n ∧ prefix_of w v m
  | _, _ => False
  end.
Definition head_events (m : HttpMethod) (path query frag : list Z) (v : Z) (hs : MapType) : list event :=
  [with_length request_method (HttpMethodToString m); with_length request_path path] ++
  (if bool_decide (query = []) then [] else [with_length query_string query]) ++
  [with_length request_uri (path ++ with_mark 63 query)] ++
  (if bool_decide (frag = []) then [] else [with_length fragment frag]) ++
  [with_length http_version (version_word v)] ++ (field_event <$> hs) ++ [header_done].

(** A parser that follows the grammar takes a head that is in the buffer as a whole,
    reports its parts in their order, and is finished. *)
Class RequestGrammar (P : Type) `{RequestMachine P} := reads_head m path query frag v hs rest :
  method_ok m → path_ok path → query_ok query → query_ok frag → version_ok v → Forall field_ok hs →
  ∃ events p', http_parser_execute (request_head m path query frag v hs ++ rest) http_parser_init =
      (events, Z.of_nat (length (request_head m path query frag v hs)), p') ∧
    Forall2 reports events (head_events m path query frag v hs) ∧
    http_parser_finish p' = 1 ∧ http_parser_has_error p' = false.

(** *** The callbacks *)
Definition set_all (hs m : MapType) : MapType := foldl (λ m kv, map_set kv.1 kv.2 m) m hs.
Lemma text_at_prefix t p n : prefix_of t p n → text_at p n = Ok t.
Proof.
  intros [-> [rest ->]]. rewrite text_at_in by (unfold text_in; rewrite length_app; lia). by rewrite Nat2Z.id, take_app_length.
Qed.
Lemma c_str_app a b : 0 ∉ a → c_str (a ++ b) = a ++ c_str b.
Proof.
  induction a as [|x a IH]; [done|]. rewrite not_elem_of_cons. intros [Hx Ha]. cbn [app c_str].
  rewrite (proj2 (Z.eqb_neq _ _)) by congruence. by rewrite IH.
Qed.
Lemma c_str_id a : 0 ∉ a → c_str a = a.
Proof. intros Ha. rewrite <- (app_nil_r a). by rewrite c_str_app. Qed.
Lemma strncmp_prefix t p n w : prefix_of t p n → 0 ∉ t → 0 ∉ w → length w = length t → strncmp_eq p w n = bool_decide (t = w).
Proof.
  intros [-> [rest ->]] Ht Hw Hl. unfold strncmp_eq. rewrite Nat2Z.id, c_str_app, (c_str_id w) by done.
  rewrite <- app_assoc, take_app_length. rewrite <- Hl, take_app_length. done.
Qed.
Section callbacks.
Context {P : Type} `{RequestMachine P}.
Implicit Types q : HttpRequestParser P.

Lemma callbacks_app a b q : callbacks (a ++ b) q = obind (callbacks a q) (callbacks b).
Proof. revert q. induction a as [|e a IH]; intros q; [done|]. cbn [app callbacks]. by destruct (callback q e); cbn [obind]. Qed.
Lemma callback_fields es hs : ∀ q, Forall2 reports es (field_event <$> hs) → Forall field_ok hs →
  callbacks es q = Ok (with_data (set_headers (set_all hs (m_headers (m_data q))) (m_data q)) q).
Proof.
  revert es. induction hs as [|[k v] hs IH]; intros es q Hes Hok; cbn [fmap list_fmap] in Hes.
  - apply Forall2_nil_inv_r in Hes as ->. by destruct q as [? [] ?].
  - apply Forall2_cons_inv_r in Hes as (e & es' & He & Hes & ->). apply Forall_cons in Hok as [Hk Hok].
    cbn [callbacks]. destruct e; try done. destruct He as [Hf Hv]. cbn [callback]. unfold on_request_http_field.
    rewrite (text_at_prefix _ _ _ Hf), (text_at_prefix _ _ _ Hv). destruct Hf as [-> _]. destruct Hk as (Hne & _). cbn [fst] in *.
    destruct (Z.eqb_spec (Z.of_nat (length k)) 0); [destruct k; [done|cbn in *; lia]|]. cbn [obind]. by rewrite IH.
Qed.
Lemma callback_head m path query frag v hs events : method_ok m → version_ok v → Forall field_ok hs →
  Forall2 reports events (head_events m path query frag v hs) →
  callbacks events new_HttpRequestParser =
    Ok (mkParser http_parser_init (mkHttpRequest m v true false 0 path query frag [] (set_all hs []) [] []) 0).
Proof.
  intros [Hm _] Hv Hok H0. unfold head_events in H0.
  apply Forall2_app_inv_r in H0 as (l1 & l2 & H1 & H0 & ->).
  apply Forall2_cons_inv_r in H1 as (e1 & l & He1 & H1 & ->). apply Forall2_cons_inv_r in H1 as (e2 & l3 & He2 & H1 & ->).
  apply Forall2_nil_inv_r in H1 as ->. cbn [app].
  destruct e1; try done. destruct e2; try done. cbn [reports with_length] in He1, He2.
  apply Forall2_app_inv_r in H0 as (lq & l4 & Hq & H0 & ->). apply Forall2_app_inv_r in H0 as (lu & l5 & Hu & H0 & ->).
  apply Forall2_app_inv_r in H0 as (lf & l6 & Hf & H0 & ->). apply Forall2_app_inv_r in H0 as (lv & l7 & Hvv & H0 & ->).
  apply Forall2_app_inv_r in H0 as (lh & ld & Hh & Hd & ->). cbn [callbacks callback obind].
  unfold on_request_method. destruct He1 as [_ [rest ->]].
  assert (CharsToHttpMethod (HttpMethodToString m ++ rest) = m) as -> by (destruct m; try done; vm_compute; reflexivity).
  rewrite bool_decide_false by done. unfold on_request_path. rewrite (text_at_prefix _ _ _ He2). cbn [obind]. rewrite callbacks_app.
  assert (∀ q, callbacks lq q = Ok (with_data (set_query (if bool_decide (query = []) then m_query (m_data q) else query) (m_data q)) q)) as ->.
  { intros q. destruct (bool_decide (query = [])); [apply Forall2_nil_inv_r in Hq as ->; by destruct q as [? [] ?]|].
    apply Forall2_cons_inv_r in Hq as (e & l & He & Hl & ->). apply Forall2_nil_inv_r in Hl as ->. destruct e; try done.
    cbn. unfold on_request_query. by rewrite (text_at_prefix _ _ _ He). }
  cbn [obind]. rewrite callbacks_app.
  assert (∀ q, callbacks lu q = Ok q) as ->.
  { intros q. apply Forall2_cons_inv_r in Hu as (e & l & He & Hl & ->). apply Forall2_nil_inv_r in Hl as ->. by destruct e. }
  cbn [obind]. rewrite callbacks_app.
  assert (∀ q, callbacks lf q = Ok (with_data (set_fragment (if bool_decide (frag = []) then m_fragment (m_data q) else frag) (m_data q)) q)) as ->.
  { intros q. destruct (bool_decide (frag = [])); [apply Forall2_nil_inv_r in Hf as ->; by destruct q as [? [] ?]|].
    apply Forall2_cons_inv_r in Hf as (e & l & He & Hl & ->). apply Forall2_nil_inv_r in Hl as ->. destruct e; try done.
    cbn. unfold on_request_fragment. by rewrite (text_at_prefix _ _ _ He). }
  cbn [obind]. rewrite callbacks_app.
  assert (∀ q, callbacks lv q = Ok (with_data (set_version v (m_data q)) q)) as ->.
  { intros q. apply Forall2_cons_inv_r in Hvv as (e & l & He & Hl & ->). apply Forall2_nil_inv_r in Hl as ->. destruct e; try done.
    cbn [reports with_length] in He. cbn [callbacks callback]. unfold on_request_version.
    rewrite !(strncmp_prefix _ _ _ _ He); [|destruct Hv as [-> | ->]; (by apply not_in) || done..].
    by destruct Hv as [-> | ->]. }
  cbn [obind]. rewrite callbacks_app, (callback_fields lh hs) by done. cbn [obind].
  apply Forall2_cons_inv_r in Hd as (e & l & He & Hl & ->). apply Forall2_nil_inv_r in Hl as ->. destruct e; try done.
  cbn. repeat case_bool_decide; subst; done.
Qed.
End callbacks.

(** *** The headers *)
Lemma set_all_ordered hs m : ordered m → ordered (set_all hs m).
Proof.
  unfold set_all. revert m. induction hs as [|kv hs IH]; intros m Hm; [done|]. cbn [foldl]. by apply IH, map_set_ordered.
Qed.
Definition named (k : list Z) (hs : list (list Z * list Z)) : list (list Z * list Z) := filter (λ kv, fold_case kv.1 = fold_case k) hs.
(** The last entry of a name counts. *)
Lemma set_all_find hs k m : ordered m →
  map_find k (set_all hs m) = match last (named k hs) with Some kv => Some kv.2 | None => map_find k m end.
Proof.
  intros Hm. induction hs as [|kv hs IH] using rev_ind; [done|]. unfold set_all, named. rewrite foldl_app, filter_app. cbn [foldl].
  pose proof (set_all_ordered hs m Hm) as Ho. fold (set_all hs m). rewrite map_find_view, map_set_view by (try apply map_set_ordered; done).
  destruct (decide (fold_case kv.1 = fold_case k)) as [E|E].
  - rewrite filter_cons_True, filter_nil, last_snoc by done. by rewrite E, lookup_insert_eq.
  - rewrite filter_cons_False, filter_nil, app_nil_r, lookup_insert_ne, <- map_find_view by done. exact IH.
Qed.
Lemma named_after k m : Forall (λ e, strcasecmp k e.1 = Lt) m → named k m = [].
Proof.
  intros Hm. unfold named. apply filter_none. intros kv Hkv E. rewrite Forall_forall in Hm. specialize (Hm kv Hkv).
  symmetry in E. apply strcasecmp_eq in E. congruence.
Qed.
Lemma ordered_find k m : ordered m → map_find k m = snd <$> last (named k m).
Proof.
  induction m as [|[k' v'] m IH]; intros Ho; [done|]. cbn [map_find]. pose proof (StronglySorted_inv Ho) as [Ho' _].
  unfold named. rewrite filter_cons. cbn [fst]. destruct (strcasecmp k k') eqn:E.
  - pose proof (ordered_same k k' v' m Ho E) as Hn. apply strcasecmp_eq in E. rewrite decide_True by done.
    fold (named k m). by rewrite named_after.
  - rewrite decide_False by (intros E2; symmetry in E2; apply strcasecmp_eq in E2; congruence). fold (named k m).
    pose proof (ordered_after k k' v' m Ho E) as Hn. apply Forall_cons in Hn as [_ Hn]. by rewrite named_after.
  - rewrite decide_False by (intros E2; symmetry in E2; apply strcasecmp_eq in E2; congruence). by apply IH.
Qed.

(** What a request has for headers on the wire, and its text. *)
Definition wire_headers (r : HttpRequest) : MapType :=
  connection_header false (m_close r) ++ own_headers false (m_headers r) ++ length_header (m_body r).
Definition head_of (r : HttpRequest) : list Z :=
  request_head (m_method r) (m_path r) (m_query r) (m_fragment r) (m_version r) (wire_headers r).
Lemma body_text_head body : body_text body = (length_header body ≫= λ kv, header_line kv.1 kv.2) ++ crlf ++ body.
Proof. unfold body_text, length_header. case_bool_decide as E; [by rewrite E|]. cbn [mbind list_bind fst snd]. by rewrite app_nil_r. Qed.
Lemma dump_head r : m_websocket r = false → dump r = head_of r ++ m_body r.
Proof.
  intros Hw. unfold dump, head_of, request_head, uri_text, version_word, wire_headers. rewrite Hw, !bind_app.
  rewrite header_lines_own, connection_line_bind. change (bytes_of_string " HTTP/") with ([32] ++ bytes_of_string "HTTP/").
  rewrite body_text_head. by rewrite <- !app_assoc.
Qed.

Definition connection_name : list Z := str "connection".
Definition length_name : list Z := str "content-length".
Lemma named_own k (m : list (list Z * list Z)) : named k (own_headers false m) = if is_connection k then [] else named k m.
Proof.
  unfold named, own_headers. destruct (is_connection k) eqn:E.
  - apply filter_none. intros kv [Hc _]%list_elem_of_filter Hk. cbn in Hc. unfold is_connection in *.
    rewrite (strcasecmp_same _ _ _ Hk) in Hc. by rewrite E in Hc.
  - rewrite list_filter_filter_l; [done|]. intros kv Hk. cbn. unfold is_connection in *. by rewrite (strcasecmp_same _ _ _ Hk), E.
Qed.
Lemma named_connection k c : fold_case connection_name = fold_case k → named k (connection_header false c) = connection_header false c.
Proof. intros E. unfold named, connection_header. rewrite filter_cons_True by exact E. by rewrite filter_nil. Qed.
Lemma named_connection_none k c : fold_case connection_name ≠ fold_case k → named k (connection_header false c) = [].
Proof. intros E. unfold named, connection_header. rewrite filter_cons_False by exact E. by rewrite filter_nil. Qed.
Lemma named_length k b : fold_case length_name = fold_case k → named k (length_header b) = length_header b.
Proof. intros E. unfold named, length_header. case_bool_decide; [done|]. rewrite filter_cons_True by exact E. by rewrite filter_nil. Qed.
Lemma named_length_none k b : fold_case length_name ≠ fold_case k → named k (length_header b) = [].
Proof. intros E. unfold named, length_header. case_bool_decide; [done|]. rewrite filter_cons_False by exact E. by rewrite filter_nil. Qed.
Lemma is_connection_eq k : is_connection k = true ↔ fold_case connection_name = fold_case k.
Proof.
  unfold is_connection. rewrite <- strcasecmp_eq. unfold strcasecmp. rewrite (bytes_compare_antisym (fold_case k)).
  change (bytes_of_string "connection") with connection_name. by destruct (bytes_compare _ _).
Qed.

Lemma wire_headers_find r k : ordered (m_headers r) → map_find length_name (m_headers r) = None →
  map_find k (set_all (wire_headers r) []) =
    if bool_decide (fold_case length_name = fold_case k) then snd <$> last (length_header (m_body r))
    else if is_connection k then Some (str (if m_close r then "close" else "keep-alive"))
    else map_find k (m_headers r).
Proof.
  intros Ho Hl. rewrite set_all_find by constructor. unfold wire_headers, named. rewrite !filter_app.
  fold (named k (connection_header false (m_close r))) (named k (own_headers false (m_headers r))) (named k (length_header (m_body r))).
  rewrite named_own. case_bool_decide as El.
  - rewrite named_length by done. assert (is_connection k = false) as Hk.
    { apply not_true_is_false. intros E. apply is_connection_eq in E. rewrite <- El in E. by vm_compute in E. }
    rewrite Hk, named_connection_none by (rewrite <- is_connection_eq; congruence). cbn [app].
    assert (named k (m_headers r) = []) as ->.
    { rewrite ordered_find in Hl by done. unfold named in *. rewrite El in Hl. by apply fmap_None, last_None in Hl. }
    cbn [app]. by destruct (last (length_header (m_body r))) as [[? ?]|].
  - rewrite named_length_none, app_nil_r by done. destruct (is_connection k) eqn:Hk.
    + rewrite app_nil_r, named_connection by by apply is_connection_eq. done.
    + rewrite named_connection_none by (rewrite <- is_connection_eq; congruence). cbn [app]. rewrite (ordered_find k (m_headers r)) by done.
      by destruct (last (named k (m_headers r))).
Qed.

(** ** From the client to the server *)
Record sendable (r : HttpRequest) : Prop := {
  sd_method : method_ok (m_method r); sd_path : path_ok (m_path r); sd_query : query_ok (m_query r);
  sd_fragment : query_ok (m_fragment r); sd_version : version_ok (m_version r);
  sd_headers : Forall field_ok (m_headers r); sd_ordered : ordered (m_headers r);
  sd_websocket : m_websocket r = false; sd_length : map_find length_name (m_headers r) = None;
  sd_body : Z.of_nat (length (m_body r)) < 2 ^ 31 }.
(** [q] is [r], but for the headers on the connection and the length. *)
Definition same_request (q r : HttpRequest) : Prop :=
  m_method q = m_method r ∧ m_version q = m_version r ∧ m_path q = m_path r ∧ m_query q = m_query r ∧
  m_fragment q = m_fragment r ∧ m_body q = m_body r ∧ m_close q = m_close r ∧
  ∀ k, is_connection k = false → fold_case length_name ≠ fold_case k → map_find k (m_headers q) = map_find k (m_headers r).

Lemma connection_field_ok close : Forall field_ok (connection_header false close).
Proof. unfold connection_header. destruct close; by apply (bool_decide_unpack _). Qed.
Lemma length_field_ok body : Forall field_ok (length_header body).
Proof.
  assert (Forall token_char length_name) as T by by apply (bool_decide_unpack _).
  unfold length_header. case_bool_decide; [constructor|]. destruct (decimal_ok (Z.of_nat (length body)) ltac:(lia)) as (Hne & Hd & _).
  constructor; [|constructor]. split; [done|]. split; [exact T|]. split; [done|]. cbn [snd]. split.
  - eapply Forall_impl; [exact Hd|]. cbn. intros; lia.
  - destruct (decimal _) as [|d ds]; [done|]. apply Forall_cons in Hd as [Hd _]. cbn. intros [= ->]. lia.
Qed.
Lemma wire_headers_ok r : sendable r → Forall field_ok (wire_headers r).
Proof.
  intros [_ _ _ _ _ Hh _ _ _ _]. apply Forall_app; split; [apply connection_field_ok|apply Forall_app; split; [|apply length_field_ok]].
  apply Forall_forall. intros kv [_ Hin]%list_elem_of_filter. rewrite Forall_forall in Hh. by apply Hh.
Qed.

Section wire.
Context {P : Type} `{RM : RequestMachine P, ML : !RequestMachineLaws P, Gr : !RequestGrammar P}.
Context {Sk : Type} `{Sock : Socket Sk, SLaws : !SocketLaws Sk, Cl : Closing Sk, Laws : !ClosingLaws Sk}.
Context (lexical_u64 : list Z → option Z) (max_alloc buff_size : Z).
#[local] Set Default Proof Using "All".
Hypothesis Hbuff : 0 < buff_size < 2 ^ 31.
Hypothesis Hlex : ∀ n, 0 ≤ n < 2 ^ 63 → lexical_u64 (decimal n) = Some n.
Implicit Types s t : Sk.

Lemma execute_head r rest : sendable r → ∃ p',
  execute (head_of r ++ rest) (new_HttpRequestParser (P := P)) =
    Ok (Z.of_nat (length (head_of r)), rest,
     mkParser p' (mkHttpRequest (m_method r) (m_version r) true false 0 (m_path r) (m_query r) (m_fragment r) []
       (set_all (wire_headers r) []) [] []) 0) ∧ http_parser_finish p' = 1 ∧ http_parser_has_error p' = false.
Proof.
  intros Hs. pose proof (wire_headers_ok r Hs) as Hw. destruct Hs.
  destruct (reads_head (m_method r) (m_path r) (m_query r) (m_fragment r) (m_version r) (wire_headers r) rest) as (ev & p' & E & He & Hf & Hx); try done.
  exists p'. split; [|done]. unfold execute. cbn [m_parser new_HttpRequestParser]. fold (head_of r) in E. rewrite E.
  erewrite callback_head by done. cbn [obind m_data m_error]. by rewrite Nat2Z.id, drop_app_length.
Qed.
Lemma announced r (p' : P) : sendable r →
  i64 (getContentLength lexical_u64 (mkParser p' (mkHttpRequest (m_method r) (m_version r) true false 0 (m_path r) (m_query r) (m_fragment r) []
       (set_all (wire_headers r) []) [] []) 0)) = Z.of_nat (length (m_body r)).
Proof.
  intros []. unfold getContentLength. cbn [m_data m_headers]. change (bytes_of_string "content-length") with length_name.
  rewrite wire_headers_find by done. rewrite bool_decide_true by done. unfold length_header. case_bool_decide as E; [by rewrite E|].
  cbn [last fmap option_fmap option_map snd]. rewrite Hlex by lia. apply i64_small. cbn. lia.
Qed.
Lemma init_same r body : sendable r → body = m_body r →
  same_request (init (mkHttpRequest (m_method r) (m_version r) true false 0 (m_path r) (m_query r) (m_fragment r) body
       (set_all (wire_headers r) []) [] [])) r.
Proof.
  intros [] ->. unfold init, getHeader. cbn [m_headers]. change (bytes_of_string "connection") with connection_name.
  rewrite wire_headers_find by done. rewrite (bool_decide_false (fold_case length_name = fold_case connection_name)) by (intros E; by vm_compute in E).
  change (is_connection connection_name) with true. cbn [default from_option id].
  rewrite bool_decide_false by by destruct (m_close r). unfold same_request, set_close.
  cbn [m_method m_version m_path m_query m_fragment m_body m_close m_headers]. split_and!; try done.
  - by destruct (m_close r).
  - intros k Hk Hl. rewrite wire_headers_find by done. by rewrite bool_decide_false, Hk.
Qed.

(** C25: What a client sends, the server reads: the text of a request goes out as a
    whole, and when the first read at the other end gives at least its head and nothing
    of what follows the request, [recvRequest] returns a request with the same method,
    version, path, query, fragment, body and wish to close, and the same headers but
    for those on the connection and the length - however the body is fragmented - and
    leaves what follows on the stream.  This is for the requests that the grammar
    of the parser and the text of [dump] agree on ([sendable]): any known method but
    M-SEARCH, whose dash the parser does not take; HTTP/1.0 or 1.1; a path of URI
    characters with one slash in front, a query and a fragment of URI characters;
    headers in their map's order whose names are tokens and whose values are not
    empty, hold no control character and start with no blank; no content-length of the
    user's own, which the parser would meet twice; not a websocket; and a body below
    2^31 bytes and the allocation limit. *)
Theorem request_over_wire fuel r t s after :
  sendable r → isConnected t = true → isConnected s = true → (0 < fuel)%nat → Z.of_nat (length (m_body r)) ≤ max_alloc →
  incoming s = dump r ++ after →
  (∀ k s1, read_buf buff_size s = ((Z.of_nat k, take k (incoming s)), s1) → (length (head_of r) ≤ k ≤ length (dump r))%nat) →
  ∃ n t' q s', sendRequest r t = (Ok n, t') ∧ outgoing t' = outgoing t ++ dump r ∧
    recvRequest (P := P) lexical_u64 max_alloc buff_size fuel s = (Ok (Some q), s') ∧ same_request q r ∧
    incoming s' = after ∧ outgoing s' = outgoing s ∧ isConnected s' = true.
Proof.
  intros Hs Ht Hc Hf Hmax Hin Hread. unfold sendRequest, writeFixSize.
  destruct (writeFixSize_loop_ok (length (dump r)) (Z.of_nat (length (dump r))) (dump r) t Ht ltac:(lia)) as (t' & -> & _ & Ho & _).
  exists (i32 (Z.of_nat (length (dump r)))), t'. pose proof (dump_head r (sd_websocket r Hs)) as Hd.
  assert (0 < length (head_of r))%nat as Hh0.
  { unfold head_of, request_head. rewrite !length_app. cbn. lia. }
  destruct (read_once (P := P) lexical_u64 max_alloc buff_size Hbuff s Hc) as [(c & s1 & _ & _ & _ & E)|(k & s1 & Er & Hk & Hkb & Hi & Ho1 & Hc1)].
  { exfalso. rewrite E, Hd in Hin. apply (f_equal length) in Hin. rewrite !length_app in Hin. cbn in Hin. lia. }
  specialize (Hread k s1 Er). rewrite Hd, length_app in Hread.
  set (b0 := take (k - length (head_of r)) (m_body r)).
  assert (take k (incoming s) = head_of r ++ b0) as Hpiece.
  { rewrite Hin, Hd, <- app_assoc, take_app_ge by lia. f_equal. subst b0. by rewrite take_app_le by lia. }
  assert (incoming s1 = drop (k - length (head_of r)) (m_body r) ++ after) as Hi1.
  { rewrite Hi, Hin, Hd, <- app_assoc, drop_app_ge by lia. by rewrite drop_app_le by lia. }
  destruct (execute_head r b0 Hs) as (p' & Ex & Hfin & Herr).
  assert (length b0 = (k - length (head_of r))%nat) as Hb0 by (subst b0; rewrite length_take; lia).
  unfold recvRequest, bind at 1. destruct fuel as [|fuel]; [lia|]. cbn [recv_head]. unfold bind at 1. rewrite Z.sub_0_r, Er. cbn [fst snd].
  rewrite (i32_small (Z.of_nat k)) by lia. rewrite (proj2 (Z.leb_gt _ _)) by lia. rewrite app_nil_l, Hpiece. unfold bind at 1, lift. rewrite Ex, Z.add_0_r.
  pose proof (announced r p' Hs) as Ha. set (q := mkParser _ _ _) in *. unfold hasError, isFinished. cbn [q m_parser m_error]. rewrite Herr, Hfin. cbn [Z.eqb negb orb].
  rewrite (i32_small (Z.of_nat k - _)), (i32_small buff_size) by lia. rewrite (proj2 (Z.eqb_neq _ _)) by lia.
  unfold ret at 1. fold q. rewrite Ha.
  replace (Z.of_nat k - Z.of_nat (length (head_of r))) with (Z.of_nat (length b0)) by lia.
  destruct (Z.ltb_spec 0 (Z.of_nat (length (m_body r)))) as [Hpos|Hpos].
  - unfold bind. pose proof (sd_body r Hs).
    destruct (recv_body_spec max_alloc (Z.of_nat (length (m_body r))) b0 s1 Hc1) as (o & s2 & -> & Ho2 & R); [lia|].
    destruct o as [[body|]|[]| |]; try done; [| |lia].
    + destruct R as (Hc2 & rest & Hi2 & -> & Hlen). eexists _, s2. split; [done|]. split; [done|]. split; [reflexivity|].
      assert (rest = drop (k - length (head_of r)) (m_body r) ∧ incoming s2 = after) as [-> ?].
      { rewrite Hi1 in Hi2. apply app_inj_1 in Hi2 as [-> ->]; [done|]. rewrite length_drop. lia. }
      split; [|split_and!; congruence]. subst q. cbn [m_data]. unfold set_body. cbn. apply init_same; [done|].
      subst b0. rewrite take_drop, Nat2Z.id. by apply take_ge.
    + destruct R as [_ [Hl1 Hl2]]. rewrite Hi1, length_app, length_drop in Hl2. lia.
  - eexists _, s1. split; [done|]. split; [done|]. split; [reflexivity|]. assert (m_body r = []) as Eb by (destruct (m_body r); [done|cbn in *; lia]).
    split; [subst q; cbn [m_data]; by apply init_same|]. split; [|done]. rewrite Hi1, Eb. by rewrite drop_nil.
Qed.
End wire.

(** ** The parser of the examples follows the grammar *)
Lemma xdigit_range a : isxdigit a = true → 48 ≤ a ≤ 102 ∧ ¬ a = 63.
Proof. unfold isxdigit, between. rewrite !orb_true_iff, !andb_true_iff, !Z.leb_le. lia. Qed.
(** Characters the rules leave out. *)
Lemma pchars_without extra s (n : Z) : pchars extra s → uri_char n || extra n = false → n ≠ 37 → ¬ (48 ≤ n ≤ 102 ∧ ¬ n = 63) →
  Forall (λ x, (n =? x) = false) s.
Proof.
  intros Hs Hn Hp Hx. induction Hs as [|c s Hc _ IH|a b s Ha Hb _ IH]; constructor; [|done| |constructor; [|constructor; [|done]]].
  - apply Z.eqb_neq. intros ->. congruence.
  - by apply Z.eqb_neq.
  - apply Z.eqb_neq. intros ->. by apply xdigit_range in Ha.
  - apply Z.eqb_neq. intros ->. by apply xdigit_range in Hb.
Qed.
Lemma without_app n a b : Forall (λ x, (n =? x) = false) a → Forall (λ x, (n =? x) = false) b → Forall (λ x, (n =? x) = false) (a ++ b).
Proof. intros. by apply Forall_app. Qed.
Lemma mark_without n c s : (n =? c) = false → Forall (λ x, (n =? x) = false) s → Forall (λ x, (n =? x) = false) (with_mark c s).
Proof. intros. unfold with_mark. case_bool_decide; by constructor. Qed.
Lemma cut_mark n s t : Forall (λ x, (n =? x) = false) s → cut n (s ++ with_mark n t) = (s, t).
Proof.
  intros Hs. unfold cut, with_mark. case_bool_decide as E.
  - by rewrite app_nil_r, find_char_end, E by done.
  - by rewrite find_char_at by (done || apply Z.eqb_refl).
Qed.
Lemma field_header kv : field_ok kv → header_ok kv.
Proof.
  intros (Hne & Ht & _ & Hv & _). split; [done|].
  assert (∀ c, c ∈ kv.1 → token_char c) as H by by apply Forall_forall.
  split; [|split].
  - intros Hc. apply H in Hc as [? _]. lia.
  - intros Hc. apply H in Hc as (_ & Hc & _). apply Hc. by apply (bool_decide_unpack _).
  - unfold line_ok. rewrite Forall_forall in Hv. intros Hc. apply Hv in Hc. lia.
Qed.
Lemma header_lines_length (hs : MapType) : (length hs ≤ length (hs ≫= λ kv, header_line kv.1 kv.2))%nat.
Proof.
  induction hs as [|kv hs IH]; [done|]. rewrite bind_cons, length_app. cbn [length].
  assert (0 < length (header_line kv.1 kv.2))%nat by (unfold header_line, crlf; rewrite !length_app; cbn; lia). lia.
Qed.

Lemma toy_head_ok m path query frag v hs rest :
  method_ok m → path_ok path → query_ok query → query_ok frag → version_ok v → Forall field_ok hs →
  toy_head (request_head m path query frag v hs ++ rest) =
    Some (head_events m path query frag v hs, length (request_head m path query frag v hs)).
Proof.
  intros [Hm _] (Hp & _) Hq Hf Hv Hh. unfold toy_head. set (n := length (request_head m path query frag v hs ++ rest)).
  assert (n = length (request_head m path query frag v hs) + length rest)%nat as Hn by (subst n; by rewrite length_app). clearbody n.
  assert (request_head m path query frag v hs ++ rest = HttpMethodToString m ++ 32 :: (uri_text path query frag ++
    32 :: (version_word v ++ crlf ++ ((hs ≫= λ kv, header_line kv.1 kv.2) ++ crlf ++ rest)))) as ->.
  { unfold request_head. by rewrite <- !app_assoc. }
  assert (∀ c, c = 32 ∨ c = 35 → Forall (λ x, (c =? x) = false) path ∧ Forall (λ x, (c =? x) = false) query) as Hno.
  { intros c [-> | ->]; split; eapply pchars_without; try done; lia. }
  assert (Forall (λ x, (32 =? x) = false) frag) as Hfr by (eapply pchars_without; [exact Hf|done|done|lia]).
  assert (Forall (λ x, (63 =? x) = false) path) as Hpm by (eapply pchars_without; [exact Hp|done|done|lia]).
  rewrite find_char_at; [|by destruct m; vm_compute; repeat constructor|done]. cbn [mbind option_bind].
  rewrite find_char_at; [|unfold uri_text; repeat apply without_app; [by apply Hno; left|apply mark_without; [done|by apply Hno; left]|by apply mark_without]|done].
  cbn [mbind option_bind]. unfold crlf at 1 2. rewrite find_string_first by (destruct Hv as [-> | ->]; by apply not_in).
  cbn [mbind option_bind]. rewrite read_head_ok.
  3: { eapply Forall_impl; [exact Hh|]. apply field_header. }
  2: { rewrite Hn. unfold request_head. pose proof (header_lines_length hs). rewrite !length_app. cbn [length]. lia. }
  cbn [mbind option_bind]. unfold uri_text. rewrite app_assoc, cut_mark by (apply without_app; [by apply Hno; right|apply mark_without; [done|by apply Hno; right]]).
  rewrite cut_mark by done. unfold head_events. do 2 f_equal. lia.
Qed.
#[export] Instance toy_grammar : RequestGrammar toy.
Proof.
  intros m path query frag v hs rest Hm Hp Hq Hf Hv Hh. exists (head_events m path query frag v hs), ToyDone.
  cbn [http_parser_execute toy_machine http_parser_init]. rewrite toy_head_ok by done. split; [done|]. split; [|done].
  assert (∀ t, prefix_of t t (Z.of_nat (length t))) as Ht by (intros t; split; [done|exists []; by rewrite app_nil_r]).
  apply Forall_Forall2_diag. unfold head_events. repeat (apply Forall_app; split).
  - repeat constructor; apply Ht.
  - case_bool_decide; repeat constructor; apply Ht.
  - repeat constructor; apply Ht.
  - case_bool_decide; repeat constructor; apply Ht.
  - repeat constructor; apply Ht.
  - apply Forall_fmap, Forall_true. intros kv. split; apply Ht.
  - repeat constructor.
Qed.
Lemma read_u64_decimal n : 0 ≤ n < 2 ^ 63 → read_u64 (decimal n) = Some n.
Proof.
  intros Hn. destruct (decimal_ok n) as (Hne & Hd & Hv); [lia|]. unfold read_u64. rewrite bool_decide_true, Hv by done.
  rewrite (proj2 (forallb_forall _ _)); [by rewrite (proj2 (Z.ltb_lt _ _)) by lia|].
  intros x Hx. apply list_elem_of_In in Hx. rewrite Forall_forall in Hd. specialize (Hd x Hx). unfold between. lia.
Qed.

Definition wire_request : HttpRequest :=
  mkHttpRequest POST 17 false false 0 (str "/a%20b") (str "x=1&y=%26") [] (str "hello") [(str "Host", str "h"); (str "X-Id", str "7 8")] [] [].
Lemma wire_request_ok : sendable wire_request.
Proof.
  split; try done.
  - split; [|done]. change (pchars is_slash [47; 97; 37; 50; 48; 98]).
    do 2 (apply pchars_char; [done|]). apply pchars_pct; [done..|]. apply pchars_char; [done|]. apply pchars_nil.
  - change (pchars slash_or_mark [120; 61; 49; 38; 121; 61; 37; 50; 54]).
    do 6 (apply pchars_char; [done|]). apply pchars_pct; [done..|]. apply pchars_nil.
  - constructor.
  - by right.
  - by apply (bool_decide_unpack _).
  - repeat constructor.
Qed.
Definition wire_input : wire := mkWire (dump wire_request ++ str "rest") [] true 98.
Lemma request_over_wire_witness :
  ∃ n t' q s', sendRequest wire_request (fresh_wire []) = (Ok n, t') ∧ outgoing t' = outgoing (fresh_wire []) ++ dump wire_request ∧
    recvRequest (P := toy) read_u64 1000 4096 9 wire_input = (Ok (Some q), s') ∧ same_request q wire_request ∧
    incoming s' = str "rest" ∧ outgoing s' = outgoing wire_input ∧ isConnected s' = true.
Proof.
  assert (0 < 4096 < 2 ^ 31) as Hb by lia. assert (0 < 9)%nat as Hf by lia.
  refine (request_over_wire (P := toy) (Laws := wire_closing_laws) read_u64 1000 4096 Hb read_u64_decimal 9 wire_request
    (fresh_wire []) wire_input (str "rest") wire_request_ok eq_refl eq_refl Hf _ eq_refl _).
  - vm_compute. discriminate.
  - intros k s1 E. assert (k = 99%nat) as ->; [|vm_compute; lia].
    injection E as E _. apply Nat2Z.inj. rewrite <- E. reflexivity.
Defined.
