(* ===== verification/HttpConnection.v ===== *)
(** * HTTP responses over a connection (http/http_parser.cc, http_connection.cc)

    A connection sends a request and reads the response with the generated parser:
    a body of the announced length, or chunks, which are joined. *)
From S2P Require Import Prelude Text Http HttpThms Stream WebSocket Servlet HttpSession.

(** ** The generated parser

    The state machine of httpclient_parser.rl, as in [HttpSession]; its structure also
    says whether the body comes in chunks, and of the last chunk read the length and
    whether it ends the body. *)
Inductive rsp_event :=
| reason_phrase (at_ : list Z) (length : Z)
| status_code (at_ : list Z) (length : Z)
| chunk_size (at_ : list Z) (length : Z)
| rsp_http_version (at_ : list Z) (length : Z)
| rsp_header_done
| last_chunk (at_ : list Z) (length : Z)
| rsp_field (field : list Z) (flen : Z) (value : list Z) (vlen : Z).

Class ResponseMachine (P : Type) := {
  httpclient_parser_init : P;
  httpclient_parser_execute : list Z → P → list rsp_event * Z * P;
  httpclient_parser_finish : P → Z;
  httpclient_parser_has_error : P → bool;
  content_len : P → Z;
  chunked : P → bool;
  chunks_done : P → bool
}.

(** ** [HttpResponseParser] *)
Definition rsp_set_version v r := mkHttpResponse (rsp_status r) v (rsp_close r) (rsp_websocket r) (rsp_body r) (rsp_reason r) (rsp_headers r) (rsp_cookies r).
Definition setReason v r := mkHttpResponse (rsp_status r) (rsp_version r) (rsp_close r) (rsp_websocket r) (rsp_body r) v (rsp_headers r) (rsp_cookies r).

(** [atoi]: the digits in front. *)
Fixpoint digits_value (v : Z) (s : list Z) : Z :=
  match s with c :: s => if between 48 57 c then digits_value (10 * v + (c - 48)) s else v | [] => v end.
Definition atoi (s : list Z) : Z := i32 (Z.min (2 ^ 63 - 1) (digits_value 0 s)).

Section connection.
Context {P : Type} `{ResponseMachine P}.

Record HttpResponseParser := mkRspParser { rp_parser : P; rp_data : HttpResponse; rp_error : Z }.
Definition new_HttpResponseParser : HttpResponseParser := mkRspParser httpclient_parser_init (new_HttpResponse 17 true) 0.
Definition rp_with_data (r : HttpResponse) (q : HttpResponseParser) : HttpResponseParser := mkRspParser (rp_parser q) r (rp_error q).
Definition rp_setError (v : Z) (q : HttpResponseParser) : HttpResponseParser := mkRspParser (rp_parser q) (rp_data q) v.

Definition on_response_reason (at_ : list Z) (length : Z) (q : HttpResponseParser) : outcome HttpResponseParser :=
  obind (text_at at_ length) (λ t, Ok (rp_with_data (setReason t (rp_data q)) q)).
Definition on_response_status (at_ : list Z) (length : Z) (q : HttpResponseParser) : HttpResponseParser :=
  rp_with_data (setStatus (atoi at_) (rp_data q)) q.
Definition on_response_chunk (at_ : list Z) (length : Z) (q : HttpResponseParser) : HttpResponseParser := q.
Definition on_response_version (at_ : list Z) (length : Z) (q : HttpResponseParser) : HttpResponseParser :=
  if strncmp_eq at_ (bytes_of_string "HTTP/1.1") length then rp_with_data (rsp_set_version 17 (rp_data q)) q
  else if strncmp_eq at_ (bytes_of_string "HTTP/1.0") length then rp_with_data (rsp_set_version 16 (rp_data q)) q
  else rp_setError 1001 q.
Definition on_response_header_done (q : HttpResponseParser) : HttpResponseParser := q.
Definition on_response_last_chunk (at_ : list Z) (length : Z) (q : HttpResponseParser) : HttpResponseParser := q.
Definition on_response_http_field (field : list Z) (flen : Z) (value : list Z) (vlen : Z) (q : HttpResponseParser) : outcome HttpResponseParser :=
  if flen =? 0 then Ok q
  else obind (text_at field flen) (λ f, obind (text_at value vlen) (λ v, Ok (rp_with_data (rsp_setHeader f v (rp_data q)) q))).
Definition rsp_callback (q : HttpResponseParser) (e : rsp_event) : outcome HttpResponseParser :=
  match e with
  | reason_phrase p n => on_response_reason p n q
  | status_code p n => Ok (on_response_status p n q)
  | chunk_size p n => Ok (on_response_chunk p n q)
  | rsp_http_version p n => Ok (on_response_version p n q)
  | rsp_header_done => Ok (on_response_header_done q)
  | last_chunk p n => Ok (on_response_last_chunk p n q)
  | rsp_field f n v m => on_response_http_field f n v m q
  end.
Fixpoint rsp_callbacks (events : list rsp_event) (q : HttpResponseParser) : outcome HttpResponseParser :=
  match events with [] => Ok q | e :: events => obind (rsp_callback q e) (rsp_callbacks events) end.

(** [execute(data, len, chunck)]: for a chunk the machine starts anew. *)
Definition rp_execute (data : list Z) (chunck : bool) (q : HttpResponseParser) : outcome (Z * list Z * HttpResponseParser) :=
  let '(events, offset, p) := httpclient_parser_execute data (if chunck then httpclient_parser_init else rp_parser q) in
  obind (rsp_callbacks events q) (λ q, Ok (offset, drop (Z.to_nat offset) data, mkRspParser p (rp_data q) (rp_error q))).
Definition rp_isFinished (q : HttpResponseParser) : Z := httpclient_parser_finish (rp_parser q).
Definition rp_hasError (q : HttpResponseParser) : bool := negb (rp_error q =? 0) || httpclient_parser_has_error (rp_parser q).
Definition rp_getContentLength (lexical_u64 : list Z → option Z) (q : HttpResponseParser) : Z :=
  match map_find (bytes_of_string "content-length") (rsp_headers (rp_data q)) with
  | Some v => default 0 (lexical_u64 v)
  | None => 0
  end.

(** ** [HttpConnection::recvResponse] *)
Context {Sk : Type} `{Socket Sk, Closing Sk}.
(** As in [HttpSession]; [inflate] is what a [ZlibStream] makes of a body
    ([ZlibStream.inflated]), for gzip ([true]) and deflate. *)
Context (lexical_u64 : list Z → option Z) (max_alloc buff_size : Z) (inflate : bool → list Z → list Z).

Definition read_some (n : Z) : M Sk (Z * list Z) := λ s, let '(r, s) := read_buf n s in (Ok (i32 (r.1), r.2), s).

Fixpoint rsp_head (fuel : nat) (parser : HttpResponseParser) (data : list Z) (offset : Z)
    : M Sk (option (HttpResponseParser * list Z * Z)) :=
  match fuel with
  | O => lift Fuel
  | S fuel =>
    let! r := read_some (buff_size - offset) in
    if r.1 <=? 0 then close_null else
    let len := r.1 + offset in
    let! x := lift (rp_execute (data ++ r.2) false parser) in
    let '(nparse, data, parser) := x in
    if rp_hasError parser then close_null else
    let offset := i32 (len - nparse) in
    if offset =? i32 buff_size then close_null else
    if negb (rp_isFinished parser =? 0) then ret (Some (parser, data, offset))
    else rsp_head fuel parser data offset
  end.

(** The head of a chunk: the bytes of the buffer after it. *)
Fixpoint chunk_head (fuel : nat) (begin : bool) (parser : HttpResponseParser) (data : list Z)
    : M Sk (option (HttpResponseParser * list Z)) :=
  match fuel with
  | O => lift Fuel
  | S fuel =>
    let! more := if negb begin || bool_decide (data = [])
                 then let! r := read_some (buff_size - Z.of_nat (length data)) in
                      ret (if r.1 <=? 0 then None else Some (data ++ r.2))
                 else ret (Some data) in
    match more with
    | None => close_null
    | Some data =>
      let! x := lift (rp_execute data true parser) in
      let '(_, data, parser) := x in
      if rp_hasError parser then close_null else
      if Z.of_nat (length data) =? buff_size then close_null else
      if negb (rp_isFinished parser =? 0) then ret (Some (parser, data)) else chunk_head fuel false parser data
    end
  end.

(** What is left of a chunk and its line end, from the stream. *)
Fixpoint chunk_rest (fuel : nat) (left : Z) (body : list Z) : M Sk (option (list Z)) :=
  if left <=? 0 then ret (Some body) else
  match fuel with
  | O => lift Fuel
  | S fuel =>
    let! r := read_some (if buff_size <? left then buff_size else left) in
    if r.1 <=? 0 then close_null else chunk_rest fuel (left - r.1) (body ++ r.2)
  end.
(** The data of a chunk: the body and the buffer after it.  A negative length, as a
    [size_t], is longer than any string, and so is the size of a body of less than two
    bytes less two. *)
Definition chunk_data (fuel : nat) (parser : HttpResponseParser) (data body : list Z) : M Sk (option (list Z * list Z)) :=
  let n := content_len (rp_parser parser) in
  let len := Z.of_nat (length data) in
  if 2 ^ 31 <=? n + 2 then undef Overflow else
  if n + 2 <=? len then
    if n <? 0 then throw LogicError
    else ret (Some (body ++ take (Z.to_nat n) data, drop (Z.to_nat (n + 2)) data))
  else
    let! b := chunk_rest fuel (n - len + 2) (body ++ data) in
    match b with
    | None => ret None
    | Some body => if (length body <? 2)%nat then throw LogicError else ret (Some (take (length body - 2) body, []))
    end.
Fixpoint chunks (fuel : nat) (parser : HttpResponseParser) (data body : list Z) : M Sk (option (HttpResponseParser * list Z)) :=
  match fuel with
  | O => lift Fuel
  | S fuel' =>
    let! h := chunk_head fuel true parser data in
    match h with
    | None => ret None
    | Some (parser, data) =>
      let! d := chunk_data fuel parser data body in
      match d with
      | None => ret None
      | Some (body, data) =>
        if chunks_done (rp_parser parser) then ret (Some (parser, body)) else chunks fuel' parser data body
      end
    end
  end.

(** The end of [recvResponse]. *)
Definition decode_body (body : list Z) (r : HttpResponse) : HttpResponse :=
  if bool_decide (body = []) then r else
  let content_encoding := rsp_getHeader (bytes_of_string "content-encoding") [] r in
  setBody (if strcasecmp content_encoding (bytes_of_string "gzip") is Eq then inflate true body
           else if strcasecmp content_encoding (bytes_of_string "deflate") is Eq then inflate false body else body) r.
Definition recvResponse (fuel : nat) : M Sk (option HttpResponse) :=
  let! h := rsp_head fuel new_HttpResponseParser [] 0 in
  match h with
  | None => ret None
  | Some (parser, data, offset) =>
    if chunked (rp_parser parser) then
      let! c := chunks fuel parser data [] in
      ret (match c with Some (parser, body) => Some (decode_body body (rp_data parser)) | None => None end)
    else
      let length := i64 (rp_getContentLength lexical_u64 parser) in
      if 0 <? length then
        let! b := recv_body max_alloc length offset data in
        ret ((λ body, decode_body body (rp_data parser)) <$> b)
      else ret (Some (rp_data parser))
  end.

(** ** One request *)
(** The errors of [HttpResult] that come after the connection is made; the texts are
    left out. *)
Definition RESULT_OK : Z := 0.
Definition SEND_CLOSE_BY_PEER : Z := 4.
Definition SEND_SOCKET_ERROR : Z := 5.
Definition RECV_TIMEOUT : Z := 6.
Record HttpResult := mkHttpResult { result : Z; response : option HttpResponse }.
(** [DoRequest] from [sendRequest] on. *)
Definition exchange (fuel : nat) (req : HttpRequest) : M Sk HttpResult :=
  let! rt := sendRequest req in
  if rt =? 0 then ret (mkHttpResult SEND_CLOSE_BY_PEER None)
  else if rt <? 0 then ret (mkHttpResult SEND_SOCKET_ERROR None)
  else
    let! rsp := recvResponse fuel in
    ret (match rsp with None => mkHttpResult RECV_TIMEOUT None | Some r => mkHttpResult RESULT_OK (Some r) end).
End connection.
Arguments HttpResponseParser : clear implicits.

(** The request that [DoRequest] makes of a method, the parts of a [Uri], headers
    (a [std::map], in the order of its keys) and a body; [close] is how it starts. *)
Definition is_name (k : list Z) (name : String.string) : bool := if strcasecmp k (bytes_of_string name) is Eq then true else false.
Definition add_header (x : bool * HttpRequest) (kv : list Z * list Z) : bool * HttpRequest :=
  let '(has_host, req) := x in
  if is_name kv.1 "connection" then (has_host, if is_name kv.2 "keep-alive" then set_close false req else req)
  else (if negb has_host && is_name kv.1 "host" then negb (bool_decide (kv.2 = [])) else has_host, setHeader kv.1 kv.2 req).
Definition make_request (method : HttpMethod) (path query frag host : list Z) (close : bool) (headers : list (list Z * list Z))
    (body : list Z) : HttpRequest :=
  let req := set_close close (set_method method (set_fragment frag (set_query query (set_path path (new_HttpRequest 17 true))))) in
  let '(has_host, req) := foldl add_header (false, req) headers in
  set_body body (if has_host then req else setHeader (bytes_of_string "Host") host req).
(** [HttpConnection::DoRequest] and [HttpConnectionPool::doRequest] *)
Definition DoRequest_request (method : HttpMethod) (path query frag host : list Z) (headers : list (list Z * list Z)) (body : list Z) : HttpRequest :=
  make_request method path query frag host true headers body.
Definition doRequest_request (method : HttpMethod) (url m_host m_vhost : list Z) (headers : list (list Z * list Z)) (body : list Z) : HttpRequest :=
  make_request method url [] [] (if bool_decide (m_vhost = []) then m_host else m_vhost) false headers body.

(** The url that the calls of a pool make of the parts of a [Uri]. *)
Definition doRequest_url (path query frag : list Z) : list Z := path ++ with_mark 63 query ++ with_mark 35 frag.

(** ** A parser for examples

    It takes a response head, or the head of a chunk, that is in the buffer as a whole,
    and a buffer without one as a whole. *)
Record rtoy := RToy { rt_read : bool; rt_len : Z; rt_chunked : bool; rt_last : bool }.
Definition rtoy_start : rtoy := RToy false (-1) false false.
Definition rsp_field_event (kv : list Z * list Z) : rsp_event := rsp_field kv.1 (Z.of_nat (length kv.1)) kv.2 (Z.of_nat (length kv.2)).
(** The text the marks of an event delimit is followed by a character [c]. *)
Definition followed (e : list Z → Z → rsp_event) (t : list Z) (c : Z) : rsp_event := e (t ++ [c]) (Z.of_nat (length t)).
Definition rtoy_head (data : list Z) : option (list rsp_event * MapType * nat) :=
  if negb (bool_decide (take 5 data = str "HTTP/")) then None else
  '(v, s) ← find_char (Z.eqb 32) data;
  '(code, s) ← find_char (Z.eqb 32) s;
  '(reason, s) ← find_string crlf s;
  '(hs, s) ← read_head (length data) s;
  Some ([followed rsp_http_version v 32; followed status_code code 32; followed reason_phrase reason 13] ++
    (rsp_field_event <$> hs) ++ [rsp_header_done], hs, (length data - length s)%nat).
Definition chunk_digits (s : list Z) : option Z :=
  if bool_decide (s = []) then None else foldl (λ v d, 16 * v + d) 0 <$> mapM hex_value s.
Definition rtoy_chunk (data : list Z) : option (Z * nat) :=
  '(size, s) ← find_string crlf data; n ← chunk_digits size; Some (n, (length data - length s)%nat).
Definition is_chunked (kv : list Z * list Z) : bool := is_name kv.1 "transfer-encoding" && is_name kv.2 "chunked".
Definition rtoy_execute (data : list Z) (p : rtoy) : list rsp_event * Z * rtoy :=
  if rt_read p then ([], 0, p) else
  match rtoy_head data, rtoy_chunk data with
  | Some (events, hs, n), _ => (events, Z.of_nat n, RToy true (-1) (existsb is_chunked hs) false)
  | None, Some (n, k) => ([(if i32 n <=? 0 then last_chunk else chunk_size) data 0], Z.of_nat k, RToy true (i32 n) true (i32 n <=? 0))
  | None, None => ([], Z.of_nat (length data), rtoy_start)
  end.
#[export] Instance rtoy_machine : ResponseMachine rtoy := {
  httpclient_parser_init := rtoy_start;
  httpclient_parser_execute := rtoy_execute;
  httpclient_parser_finish p := if rt_read p then 1 else 0;
  httpclient_parser_has_error _ := false;
  content_len p := i32 (rt_len p);
  chunked := rt_chunked;
  chunks_done := rt_last
}.

Definition receive (max_alloc buff : Z) (w : wire) : outcome (option HttpResponse) * wire :=
  recvResponse (P := rtoy) read_u64 max_alloc buff (λ _ b, b) 200 w.
Definition chunked_head : list Z := str "HTTP/1.1 200 OK" ++ crlf ++ str "Transfer-Encoding: chunked" ++ crlf ++ crlf.
Definition body_of (r : outcome (option HttpResponse) * wire) : option (list Z) :=
  match r.1 with Ok (Some r) => Some (rsp_body r) | _ => None end.
(** Two chunks and the last one; the second is cut by the end of the read. *)
Definition two_chunks : list Z := chunked_head ++ str "5" ++ crlf ++ str "hello" ++ crlf ++ str "6" ++ crlf ++ str " world" ++ crlf ++ str "0" ++ crlf ++ crlf.
Example reads_chunks : body_of (receive 1000 4096 (mkWire two_chunks [] true 63)) = Some (str "hello world").
Proof. vm_compute. done. Qed.
(** A read that ends within the head of a chunk loses it: what the first call of the
    parser took is gone, the second starts anew, and 16 bytes become none. *)
Example split_chunk_head :
  body_of (receive 1000 4096 (mkWire (chunked_head ++ str "10" ++ crlf ++ str "0123456789abcdef" ++ crlf ++
    str "0" ++ crlf ++ crlf) [] true (length chunked_head))) = Some [].
Proof. vm_compute. done. Qed.
(** A chunk size beyond 2^31 is a negative [int]. *)
Example negative_chunk_throws :
  (receive 1000 4096 (mkWire (chunked_head ++ str "80000000" ++ crlf ++ str "0" ++ crlf ++ crlf) [] true 4095)).1 = Throw LogicError.
Proof. vm_compute. done. Qed.
(** Of several cookies the last one is kept; a body without a length is not read. *)
Example last_cookie_kept :
  match (receive 1000 4096 (mkWire (str "HTTP/1.1 200 OK" ++ crlf ++ str "Set-Cookie: a=1" ++ crlf ++ str "Set-Cookie: b=2" ++ crlf ++ crlf ++ str "text") [] true 4095)).1 with
  | Ok (Some r) => (rsp_headers r, rsp_cookies r, rsp_body r) = ([(str "Set-Cookie", str "b=2")], [], [])
  | _ => False
  end.
Proof. vm_compute. done. Qed.
