(* ===== verification/HttpConnectionThms.v ===== *)
(** * HTTP connections: the properties

    Whatever a server sends, a call that receives a response ends well; chunks are
    joined; a response sent is received, and with it a whole exchange. *)
From S2P Require Import Prelude Text Http HttpThms Stream WebSocket WebSocketThms Servlet HttpSession HttpSessionThms HttpWire HttpConnection.

Definition rsp_event_in (e : rsp_event) : Prop :=
  match e with
  | reason_phrase p n | status_code p n | chunk_size p n | rsp_http_version p n | last_chunk p n => text_in p n
  | rsp_field f n v m => text_in f n ∧ text_in v m
  | rsp_header_done => True
  end.
(** What a call of the parser takes, as for requests; a machine that starts anew and
    is finished has taken something; the length is an [int]; and since every mark is
    set in the call or reset at its start (httpclient_parser.rl), a callback's text
    lies within the buffer. *)
Class ResponseMachineLaws (P : Type) `{ResponseMachine P} := {
  rsp_nread_bound data p events n p' : httpclient_parser_execute data p = (events, n, p') → 0 ≤ n ≤ Z.of_nat (length data);
  rsp_nread_all data p events n p' : httpclient_parser_execute data p = (events, n, p') →
    httpclient_parser_has_error p' = false → httpclient_parser_finish p' = 0 → n = Z.of_nat (length data);
  rsp_nread_some data events n p' : httpclient_parser_execute data httpclient_parser_init = (events, n, p') →
    httpclient_parser_has_error p' = false → httpclient_parser_finish p' ≠ 0 → 0 < n;
  content_len_int (p : P) : is_sint 32 (content_len p);
  rsp_events_in data p events n p' : httpclient_parser_execute data p = (events, n, p') → Forall rsp_event_in events
}.

Section callbacks.
Context {P : Type} `{ResponseMachine P}.
Implicit Types q : HttpResponseParser P.
Lemma rsp_callback_in q e : rsp_event_in e → ∃ q', rsp_callback q e = Ok q'.
Proof.
  destruct e as [p n|p n|p n|p n| |p n|f n v m]; cbn [rsp_event_in rsp_callback]; intros He; try by eexists.
  - unfold on_response_reason. rewrite text_at_in by done. by eexists.
  - unfold on_response_http_field. destruct He as [Hf Hv]. destruct (n =? 0); [by eexists|]. rewrite !text_at_in by done. by eexists.
Qed.
Lemma rsp_callbacks_in events : ∀ q, Forall rsp_event_in events → ∃ q', rsp_callbacks events q = Ok q'.
Proof.
  induction events as [|e events IH]; intros q He; cbn [rsp_callbacks]; [by eexists|]. apply Forall_cons in He as [He Hes].
  destruct (rsp_callback_in q e He) as [q1 ->]. by apply IH.
Qed.
End callbacks.

Section laws.
Context {P : Type} `{RM : ResponseMachine P, ML : !ResponseMachineLaws P}.
Context {Sk : Type} `{Sock : Socket Sk, SLaws : !SocketLaws Sk, Cl : Closing Sk, Laws : !ClosingLaws Sk}.
Context (buff_size : Z).
#[local] Set Default Proof Using "All".
Hypothesis Hbuff : 0 < buff_size < 2 ^ 31.
Implicit Types s : Sk.
Implicit Types q : HttpResponseParser P.

Lemma read_some_spec n s : isConnected s = true → 0 < n < 2 ^ 31 →
  (∃ c s', read_some n s = (Ok (c, []), s') ∧ c ≤ 0 ∧ outgoing s' = outgoing s ∧ incoming s = []) ∨
  (∃ k s', read_some n s = (Ok (Z.of_nat k, take k (incoming s)), s') ∧ (0 < k ≤ length (incoming s))%nat ∧
     Z.of_nat k ≤ n ∧ incoming s' = drop k (incoming s) ∧ outgoing s' = outgoing s ∧ isConnected s' = true).
Proof.
  intros Hc Hn. unfold read_some, read_buf. rewrite Hc. destruct (decide (incoming s = [])) as [E|E].
  - left. destruct (recv_end n s Hc) as (c & s' & -> & Hcc & Ho); [lia|done|]. exists (i32 c), s'. split; [done|]. split; [|done].
    assert (to_signed 32 c = c) as ->; [|lia]. rewrite <- (to_signed_wrap 32 c) at 2 by (try unfold is_sint; lia).
    unfold to_signed. by rewrite wrap_wrap by lia.
  - right. destruct (recv_some n s Hc) as (k & s1 & -> & Hk & Hkn & ?); [lia|done|]. exists k, s1. cbn [fst snd].
    rewrite i32_small by lia. done.
Qed.
Lemma gives_up {A} s0 s : outgoing s = outgoing s0 →
  ∃ s', @close_null Sk _ A s = (Ok None, s') ∧ isConnected s' = false ∧ outgoing s' = outgoing s0.
Proof. intros Ho. exists (close s). split; [done|]. split; [apply close_closed|]. by rewrite close_outgoing. Qed.

Lemma rp_execute_ok data c q : ∃ n data' q', rp_execute data c q = Ok (n, data', q').
Proof.
  unfold rp_execute. destruct (httpclient_parser_execute data _) as [[ev m] p] eqn:E. apply rsp_events_in in E.
  destruct (rsp_callbacks_in ev q E) as [q' ->]. cbn [obind]. by do 3 eexists.
Qed.
Lemma rp_execute_spec data c q n data' q' : rp_execute data c q = Ok (n, data', q') →
  0 ≤ n ≤ Z.of_nat (length data) ∧ data' = drop (Z.to_nat n) data ∧
  (rp_hasError q' = false → rp_isFinished q' = 0 → n = Z.of_nat (length data)) ∧
  (c = true → rp_hasError q' = false → rp_isFinished q' ≠ 0 → 0 < n).
Proof.
  unfold rp_execute. destruct (httpclient_parser_execute data _) as [[ev m] p] eqn:E.
  destruct (rsp_callbacks ev q) as [q1| | |]; [|done..]. intros [= <- <- <-].
  split; [by eapply rsp_nread_bound|]. split; [done|]. unfold rp_hasError, rp_isFinished. cbn [rp_parser rp_error]. split.
  - intros [_ He]%orb_false_iff Hf. by eapply rsp_nread_all.
  - intros -> [_ He]%orb_false_iff Hf. by eapply rsp_nread_some.
Qed.

(** ** Heads *)
(** The parser after the pieces in which the stream delivered the head, and the bytes
    of the last one it did not take. *)
Fixpoint rsp_feed (pieces : list (list Z)) (data : list Z) (q : HttpResponseParser P) : outcome (list Z * HttpResponseParser P) :=
  match pieces with
  | [] => Ok (data, q)
  | piece :: pieces => obind (rp_execute piece false q) (λ '(_, data, q), rsp_feed pieces data q)
  end.
(** No head at the front of [inc]: the input ends before it is complete, the parser
    rejects it, or it leaves the buffer full. *)
Definition rsp_no_head (q0 : HttpResponseParser P) (inc : list Z) : Prop :=
  ∃ pieces data q rest, inc = concat pieces ++ rest ∧ rsp_feed pieces [] q0 = Ok (data, q) ∧
    (rest = [] ∧ (pieces = [] ∨ rp_hasError q = false ∧ rp_isFinished q = 0) ∨ rp_hasError q = true ∨ Z.of_nat (length data) = buff_size).

Lemma rsp_head_spec fuel : ∀ q s, isConnected s = true → (length (incoming s) < fuel)%nat →
  ∃ o s', rsp_head buff_size fuel q [] 0 s = (Ok o, s') ∧ outgoing s' = outgoing s ∧
    match o with
    | None => isConnected s' = false ∧ rsp_no_head q (incoming s)
    | Some (q', data, offset) => isConnected s' = true ∧ offset = Z.of_nat (length data) ∧ Z.of_nat (length data) < buff_size ∧
        (length data + length (incoming s') ≤ length (incoming s))%nat ∧
        ∃ pieces, incoming s = concat pieces ++ incoming s' ∧ rsp_feed pieces [] q = Ok (data, q') ∧
          rp_hasError q' = false ∧ rp_isFinished q' ≠ 0
    end.
Proof.
  induction fuel as [|fuel IH]; intros q s Hc Hf; [lia|]. cbn [rsp_head]. unfold bind at 1. rewrite Z.sub_0_r.
  destruct (read_some_spec buff_size s Hc Hbuff) as [(c & s1 & -> & Hcc & Ho & Hend)|(k & s1 & -> & Hk & Hkb & Hi & Ho & Hc1)]; cbn [fst snd];
    destruct (gives_up (A := HttpResponseParser P * list Z * Z) s s1 Ho) as (sx & Ex & Hx & Hox).
  { rewrite (proj2 (Z.leb_le _ _)) by done. exists None, sx. split_and!; try done. exists [], [], q, [].
    split; [done|]. split; [done|]. left. split; [done|by left]. }
  rewrite (proj2 (Z.leb_gt _ _)) by lia. rewrite app_nil_l, Z.add_0_r. set (piece := take k (incoming s)).
  assert (length piece = k) as Hpl by (subst piece; rewrite length_take; lia).
  assert (incoming s = piece ++ incoming s1) as Hin by (subst piece; rewrite Hi; by rewrite take_drop).
  destruct (rp_execute_ok piece false q) as (n & data & q' & E). destruct (rp_execute_spec _ _ _ _ _ _ E) as (Hn & Hd & Hall & _).
  unfold bind at 1, lift. rewrite E.
  assert (rsp_feed [piece] [] q = Ok (data, q')) as Hfp by (cbn [rsp_feed]; by rewrite E).
  assert (rp_hasError q' = true ∨ Z.of_nat (length data) = buff_size → rsp_no_head q (incoming s)) as Hno.
  { intros Hr. exists [piece], data, q', (incoming s1). split; [cbn; by rewrite app_nil_r|]. split; [done|]. by right. }
  destruct (rp_hasError q') eqn:He; [exists None, sx; split_and!; try done; apply Hno; by left|].
  assert (Z.of_nat (length data) = Z.of_nat k - n) as Hdl by (rewrite Hd, length_drop; lia).
  rewrite (i32_small (Z.of_nat k - n)), (i32_small buff_size) by lia.
  destruct (Z.eqb_spec (Z.of_nat k - n) buff_size); [exists None, sx; split_and!; try done; apply Hno; right; lia|].
  assert (length (incoming s1) = length (incoming s) - k)%nat as Hil by (rewrite Hi, length_drop; lia).
  destruct (Z.eqb_spec (rp_isFinished q') 0) as [Hf0|Hf0]; cbn [negb].
  - assert (n = Z.of_nat k) as -> by (rewrite Hall by done; lia).
    assert (data = []) as -> by (rewrite Hd; apply drop_ge; lia). rewrite Z.sub_diag.
    destruct (IH q' s1 Hc1) as (o & s' & -> & Ho' & R); [lia|]. exists o, s'. split; [done|]. split; [congruence|].
    destruct o as [[[q2 data2] off2]|].
    2: { destruct R as [Rc (pieces & data & q2 & rest & Rin & Rf & Rw)]. split; [done|]. exists (piece :: pieces), data, q2, rest.
         split; [cbn; by rewrite <- app_assoc, <- Rin|]. split; [cbn [rsp_feed]; by rewrite E|]. destruct Rw as [[Rr [->|Rw]]|Rw]; [|by left; split; [|right]|by right].
         left. split; [done|]. right. injection Rf as _ <-. done. }
    destruct R as (? & ? & ? & ? & pieces & Rin & Rf & Re). split_and!; try done; [lia|].
    exists (piece :: pieces). split; [cbn; by rewrite <- app_assoc, <- Rin|]. split; [|done]. cbn [rsp_feed]. by rewrite E.
  - exists (Some (q', data, Z.of_nat k - n)), s1. split_and!; try done; try lia. exists [piece].
    split; [cbn; by rewrite app_nil_r|]. split; [|done]. cbn [rsp_feed]. by rewrite E.
Qed.

(** The head of a chunk, read off the bytes [buf] of the buffer and [inc] of the
    stream: the machine starts anew on the buffer and the piece that was read, and
    again on the next piece when that is no head. *)
Inductive chunk_head_read (q : HttpResponseParser P) (buf : list Z) : list Z → HttpResponseParser P → list Z → list Z → Prop :=
| head_complete piece inc n buf' q' : rp_execute (buf ++ piece) true q = Ok (n, buf', q') → rp_hasError q' = false →
    rp_isFinished q' ≠ 0 → chunk_head_read q buf (piece ++ inc) q' buf' inc
| head_lost piece inc n buf1 q1 q' buf' inc' : rp_execute (buf ++ piece) true q = Ok (n, buf1, q1) → rp_hasError q1 = false →
    rp_isFinished q1 = 0 → chunk_head_read q1 buf1 inc q' buf' inc' → chunk_head_read q buf (piece ++ inc) q' buf' inc'.

(** The stream ends before the head of a chunk is complete, the parser rejects the
    head, or it leaves the buffer full. *)
Inductive chunk_no_head (q : HttpResponseParser P) (buf : list Z) : list Z → Prop :=
| head_ends : buf = [] → chunk_no_head q buf []
| head_wrong piece inc n buf' q' : rp_execute (buf ++ piece) true q = Ok (n, buf', q') →
    rp_hasError q' = true ∨ Z.of_nat (length buf') = buff_size → chunk_no_head q buf (piece ++ inc)
| no_head_later piece inc n buf1 q1 : rp_execute (buf ++ piece) true q = Ok (n, buf1, q1) → rp_hasError q1 = false →
    rp_isFinished q1 = 0 → chunk_no_head q1 buf1 inc → chunk_no_head q buf (piece ++ inc).

Lemma chunk_head_spec fuel : ∀ b q data s, isConnected s = true → (b = false → data = []) → (S (length (incoming s)) < fuel)%nat ∨ b = false ∧ (length (incoming s) < fuel)%nat →
  Z.of_nat (length data) < buff_size →
  ∃ o s', chunk_head buff_size fuel b q data s = (Ok o, s') ∧ outgoing s' = outgoing s ∧
    match o with
    | None => isConnected s' = false ∧ chunk_no_head q data (incoming s)
    | Some (q', data') => isConnected s' = true ∧ Z.of_nat (length data') < buff_size ∧
        (length data' + length (incoming s') < length data + length (incoming s))%nat ∧
        chunk_head_read q data (incoming s) q' data' (incoming s')
    end.
Proof.
  induction fuel as [|fuel IH]; intros b q data s Hc Hb Hf Hdl; [lia|]. cbn [chunk_head].
  assert (∃ more s1, (if negb b || bool_decide (data = [])
      then let! r := read_some (buff_size - Z.of_nat (length data)) in ret (if r.1 <=? 0 then None else Some (data ++ r.2))
      else ret (Some data)) s = (Ok more, s1) ∧ outgoing s1 = outgoing s ∧
      match more with
      | None => data = [] ∧ incoming s = []
      | Some d => (∃ piece, d = data ++ piece ∧ incoming s = piece ++ incoming s1) ∧ isConnected s1 = true ∧ Z.of_nat (length d) ≤ buff_size ∧ (length d + length (incoming s1) = length data + length (incoming s))%nat ∧
          ((length (incoming s1) < length (incoming s))%nat ∨ b = true ∧ s1 = s)
      end) as (more & s1 & E & Ho & R).
  { destruct (negb b || bool_decide (data = [])) eqn:Eb.
    - unfold bind. destruct (read_some_spec (buff_size - Z.of_nat (length data)) s Hc) as [(c & s1 & -> & Hcc & Ho & Hend)|(k & s1 & -> & Hk & Hkb & Hi & Ho & Hc1)];
        [lia| |]; cbn [fst snd].
      + rewrite (proj2 (Z.leb_le _ _)) by done. exists None, s1. split_and!; try done. apply orb_true_iff in Eb as [Eb|Eb].
        * apply Hb. by apply negb_true_iff.
        * by apply bool_decide_eq_true in Eb.
      + rewrite (proj2 (Z.leb_gt _ _)) by lia. eexists (Some _), s1. split; [reflexivity|]. split; [done|].
        split; [exists (take k (incoming s)); by rewrite Hi, take_drop|]. split; [done|].
        rewrite length_app, length_take, Hi, length_drop. split_and!; [lia|lia|left; lia].
    - apply orb_false_iff in Eb as [Eb _]. apply negb_false_iff in Eb. exists (Some data), s. split_and!; try done; [exists []; by rewrite app_nil_r|lia|by right]. }
  unfold bind at 1. rewrite E. destruct (gives_up (A := HttpResponseParser P * list Z) s s1 Ho) as (sx & Ex & Hx & Hox).
  destruct more as [d|]; [|exists None, sx; destruct R as [-> ->]; split_and!; try done; by constructor]. destruct R as ((piece & Hpiece & Hin) & Hc1 & Hdb & Hsum & Hprog).
  destruct (rp_execute_ok d true q) as (n & data' & q' & Ee). unfold bind at 1, lift. rewrite Ee. destruct (rp_execute_spec _ _ _ _ _ _ Ee) as (Hn & Hd & Hall & Hsome).
  assert (rp_hasError q' = true ∨ Z.of_nat (length data') = buff_size → chunk_no_head q data (incoming s)) as Hno
    by (rewrite Hin; subst d; by eapply head_wrong).
  destruct (rp_hasError q') eqn:He; [exists None, sx; split_and!; try done; apply Hno; by left|].
  assert (Z.of_nat (length data') = Z.of_nat (length d) - n) as Hd'l by (rewrite Hd, length_drop; lia).
  destruct (Z.eqb_spec (Z.of_nat (length data')) buff_size); [exists None, sx; split_and!; try done; apply Hno; by right|].
  destruct (Z.eqb_spec (rp_isFinished q') 0) as [Hf0|Hf0]; cbn [negb].
  - assert (n = Z.of_nat (length d)) as -> by by rewrite Hall.
    destruct (IH false q' data' s1 Hc1) as (o & s' & -> & Ho' & R).
    { intros _. rewrite Hd. apply drop_ge. lia. }
    { right. split; [done|]. destruct Hf as [Hf|[-> Hf]]; destruct Hprog as [Hp|[? ->]]; try done; lia. }
    { lia. }
    exists o, s'. split; [done|]. split; [congruence|].
    destruct o as [[q2 data2]|]; [|destruct R; split; [done|]; rewrite Hin; subst d; by eapply no_head_later].
    destruct R as (? & ? & ? & ?). split_and!; try done; [lia|]. rewrite Hin. subst d. by eapply head_lost.
  - exists (Some (q', data')), s1. split; [done|]. split; [done|]. specialize (Hsome eq_refl eq_refl Hf0). split_and!; try done; [lia|lia|].
    rewrite Hin. subst d. by eapply head_complete.
Qed.

(** ** Chunks *)
Lemma chunk_rest_spec fuel : ∀ left body s, isConnected s = true → (length (incoming s) < fuel)%nat → 0 < left < 2 ^ 31 →
  ∃ o s', chunk_rest buff_size fuel left body s = (Ok o, s') ∧ outgoing s' = outgoing s ∧
    match o with
    | None => isConnected s' = false ∧ Z.of_nat (length (incoming s)) < left
    | Some body' => isConnected s' = true ∧ left ≤ Z.of_nat (length (incoming s)) ∧
        body' = body ++ take (Z.to_nat left) (incoming s) ∧ incoming s' = drop (Z.to_nat left) (incoming s)
    end.
Proof.
  induction fuel as [|fuel IH]; intros left body s Hc Hf Hl; [lia|]. cbn [chunk_rest]. rewrite (proj2 (Z.leb_gt left 0)) by lia.
  set (want := if buff_size <? left then buff_size else left).
  assert (0 < want < 2 ^ 31 ∧ want ≤ left) as [Hw Hwl] by (subst want; destruct (Z.ltb_spec buff_size left); lia).
  unfold bind. destruct (read_some_spec want s Hc Hw) as [(c & s1 & -> & Hcc & Ho & Hend)|(k & s1 & -> & Hk & Hkb & Hi & Ho & Hc1)]; cbn [fst snd].
  - rewrite (proj2 (Z.leb_le _ _)) by done. destruct (gives_up (A := list Z) s s1 Ho) as (sx & -> & Hx & Hox). exists None, sx.
    rewrite Hend. split_and!; try done. cbn. lia.
  - rewrite (proj2 (Z.leb_gt _ _)) by lia.
    assert (length (incoming s1) = length (incoming s) - k)%nat as Hil by (rewrite Hi, length_drop; lia).
    destruct (decide (left = Z.of_nat k)) as [->|Hne].
    + rewrite Z.sub_diag. assert (chunk_rest buff_size fuel 0 (body ++ take k (incoming s)) s1 = (Ok (Some (body ++ take k (incoming s))), s1)) as ->
        by by destruct fuel. eexists (Some _), s1. rewrite Nat2Z.id. split_and!; try done. lia.
    + destruct (IH (left - Z.of_nat k) (body ++ take k (incoming s)) s1 Hc1) as (o & s' & -> & Ho' & R); [lia|lia|].
      exists o, s'. split; [done|]. split; [congruence|]. destruct o as [b'|].
      * destruct R as (R1 & R2 & -> & R4). split; [done|]. split; [lia|]. rewrite Hi in R4 |- *. rewrite drop_drop in R4.
        replace (Z.to_nat (left - Z.of_nat k)) with (Z.to_nat left - k)%nat in * by lia.
        split; [|rewrite R4; f_equal; lia]. rewrite <- app_assoc. f_equal. apply take_drop_split. lia.
      * destruct R. split; [done|lia].
Qed.
(** The data of a chunk, seen on the bytes to come: those of the buffer, then those of
    the stream. *)
Lemma chunk_data_exact fuel q data body s : let n := content_len (rp_parser q) in let bytes := data ++ incoming s in
  isConnected s = true → (length (incoming s) < fuel)%nat → 0 ≤ n < 2 ^ 31 - 2 →
  ∃ o s', chunk_data buff_size fuel q data body s = (Ok o, s') ∧ outgoing s' = outgoing s ∧
    match o with
    | None => isConnected s' = false ∧ Z.of_nat (length bytes) < n + 2
    | Some (body', data') => isConnected s' = true ∧ n + 2 ≤ Z.of_nat (length bytes) ∧ body' = body ++ take (Z.to_nat n) bytes ∧
        data' = drop (Z.to_nat (n + 2)) data ∧ incoming s' = drop (Z.to_nat (n + 2) - length data) (incoming s)
    end.
Proof.
  intros n bytes Hc Hf Hn. unfold chunk_data. fold n. rewrite (proj2 (Z.leb_gt (2 ^ 31) _)) by lia.
  destruct (Z.leb_spec (n + 2) (Z.of_nat (length data))).
  - rewrite (proj2 (Z.ltb_ge n 0)) by lia. eexists (Some (_, _)), s. split; [reflexivity|]. split; [done|]. subst bytes.
    split_and!; [done|rewrite length_app; lia| |done|].
    + by rewrite take_app_le by lia.
    + by replace (Z.to_nat (n + 2) - length data)%nat with 0%nat by lia.
  - unfold bind. destruct (chunk_rest_spec fuel (n - Z.of_nat (length data) + 2) (body ++ data) s Hc Hf ltac:(lia)) as (o & s' & -> & Ho & R).
    destruct o as [b|]; [|exists None, s'; split; [done|]; split; [done|]; destruct R; split; [done|subst bytes; rewrite length_app; lia]].
    destruct R as (Hc' & Hl & -> & Hi').
    set (k := Z.to_nat (n - Z.of_nat (length data) + 2)) in *.
    assert (length (take k (incoming s)) = k) as Hk by (rewrite length_take; lia).
    rewrite (proj2 (Nat.ltb_ge _ 2)) by (rewrite !length_app; lia).
    eexists (Some (_, _)), s'. split; [reflexivity|]. split; [done|]. subst bytes.
    split_and!; [done|rewrite length_app; lia| | |].
    + rewrite <- app_assoc. rewrite !length_app, Hk.
      replace (length body + (length data + k) - 2)%nat with (length body + Z.to_nat n)%nat by lia. rewrite take_app_add. f_equal.
      assert (take (Z.to_nat n) (data ++ incoming s) = take (Z.to_nat n) (data ++ take k (incoming s))) as ->; [|done].
      rewrite <- (take_drop k (incoming s)) at 1. rewrite app_assoc. apply take_app_le. rewrite length_app. lia.
    + by rewrite drop_ge by lia.
    + rewrite Hi'. f_equal. lia.
Qed.
(** Nothing but a size that is out of range fails. *)
Definition size_out_of_range (n : Z) : Prop := n < 0 ∨ 2 ^ 31 - 2 ≤ n < 2 ^ 31.
(** The [n] bytes [d] of a chunk, taken with their line end off the buffer and the stream. *)
Definition chunk_taken (n : Z) (buf inc d buf' inc' : list Z) : Prop :=
  0 ≤ n ∧ n + 2 ≤ Z.of_nat (length (buf ++ inc)) ∧ d = take (Z.to_nat n) (buf ++ inc) ∧
  buf' = drop (Z.to_nat (n + 2)) buf ∧ inc' = drop (Z.to_nat (n + 2) - length buf) inc.
Lemma chunk_taken_left n buf inc d buf' inc' : chunk_taken n buf inc d buf' inc' →
  (length buf' ≤ length buf)%nat ∧ (length buf' + length inc' ≤ length buf + length inc)%nat.
Proof. intros (_ & _ & _ & -> & ->). rewrite !length_drop. lia. Qed.

Lemma chunk_data_any fuel q data body s : let n := content_len (rp_parser q) in
  isConnected s = true → (length (incoming s) < fuel)%nat → is_sint 32 n →
  ∃ o s', chunk_data buff_size fuel q data body s = (o, s') ∧ outgoing s' = outgoing s ∧
    match o with
    | Ok (Some (body', data')) => isConnected s' = true ∧ (length data' ≤ length data)%nat ∧
        (length data' + length (incoming s') ≤ length data + length (incoming s))%nat ∧
        (size_out_of_range n ∨ ∃ d, body' = body ++ d ∧ chunk_taken n data (incoming s) d data' (incoming s'))
    | Ok None => isConnected s' = false ∧ (size_out_of_range n ∨ Z.of_nat (length (data ++ incoming s)) < n + 2)
    | Throw LogicError | Undef Overflow => size_out_of_range n
    | _ => False
    end.
Proof.
  intros n Hc Hf [Hn1 Hn2]. change (2 ^ (32 - 1)) with (2 ^ 31) in *.
  destruct (decide (0 ≤ n < 2 ^ 31 - 2)) as [Hn|Hn].
  { destruct (chunk_data_exact fuel q data body s Hc Hf Hn) as (o & s' & -> & Ho & R). exists (Ok o), s'. split; [done|]. split; [done|].
    destruct o as [[b d]|]; [|destruct R; split; [done|by right]]. destruct R as (Hc' & Hn' & -> & Ed & Ei). fold n in Hn', Ed, Ei |- *.
    assert (chunk_taken n data (incoming s) (take (Z.to_nat n) (data ++ incoming s)) d (incoming s')) as Ht
      by (rewrite Ed, Ei; split_and!; done || lia).
    destruct (chunk_taken_left _ _ _ _ _ _ Ht). split_and!; try done. right. by eexists. }
  unfold chunk_data. fold n. destruct (Z.leb_spec (2 ^ 31) (n + 2)); [exists (Undef Overflow), s; split_and!; try done; right; lia|].
  assert (size_out_of_range n) as Hneg by (left; lia). destruct (Z.leb_spec (n + 2) (Z.of_nat (length data))).
  { rewrite (proj2 (Z.ltb_lt n 0)) by lia. by exists (Throw LogicError), s. }
  unfold bind. destruct (chunk_rest_spec fuel (n - Z.of_nat (length data) + 2) (body ++ data) s Hc Hf ltac:(lia)) as (o & s' & -> & Ho & R).
  destruct o as [b|]; [|exists (Ok None), s'; destruct R; split_and!; try done; by left].
  destruct (length b <? 2)%nat; [by exists (Throw LogicError), s'|].
  eexists (Ok (Some (_, _))), s'. split; [reflexivity|]. split; [done|]. destruct R as (Hc' & _ & _ & Hi').
  split_and!; [done|cbn; lia|cbn; rewrite Hi', length_drop; lia|by left].
Qed.

(** The chunks read off the buffer and the stream, up to the last one: their data
    joined, the parser, and what is left on the stream. *)
Inductive chunks_read (q : HttpResponseParser P) (buf inc : list Z) : HttpResponseParser P → list Z → list Z → Prop :=
| last_chunk_read q1 buf1 inc1 d buf2 inc2 : chunk_head_read q buf inc q1 buf1 inc1 →
    chunk_taken (content_len (rp_parser q1)) buf1 inc1 d buf2 inc2 → chunks_done (rp_parser q1) = true →
    chunks_read q buf inc q1 d inc2
| next_chunk_read q1 buf1 inc1 d buf2 inc2 q' ds inc' : chunk_head_read q buf inc q1 buf1 inc1 →
    chunk_taken (content_len (rp_parser q1)) buf1 inc1 d buf2 inc2 → chunks_done (rp_parser q1) = false →
    chunks_read q1 buf2 inc2 q' ds inc' → chunks_read q buf inc q' (d ++ ds) inc'.
(** One of the chunks has a head that gives a size out of range. *)
Inductive bad_size (q : HttpResponseParser P) (buf inc : list Z) : Prop :=
| bad_here q1 buf1 inc1 : chunk_head_read q buf inc q1 buf1 inc1 → size_out_of_range (content_len (rp_parser q1)) → bad_size q buf inc
| bad_later q1 buf1 inc1 d buf2 inc2 : chunk_head_read q buf inc q1 buf1 inc1 →
    chunk_taken (content_len (rp_parser q1)) buf1 inc1 d buf2 inc2 → chunks_done (rp_parser q1) = false →
    bad_size q1 buf2 inc2 → bad_size q buf inc.
(** The stream ends before the last chunk is complete, or the head of one is wrong. *)
Inductive chunks_cut (q : HttpResponseParser P) (buf inc : list Z) : Prop :=
| cut_in_head : chunk_no_head q buf inc → chunks_cut q buf inc
| cut_in_data q1 buf1 inc1 : chunk_head_read q buf inc q1 buf1 inc1 →
    Z.of_nat (length (buf1 ++ inc1)) < content_len (rp_parser q1) + 2 → chunks_cut q buf inc
| cut_later q1 buf1 inc1 d buf2 inc2 : chunk_head_read q buf inc q1 buf1 inc1 →
    chunk_taken (content_len (rp_parser q1)) buf1 inc1 d buf2 inc2 → chunks_done (rp_parser q1) = false →
    chunks_cut q1 buf2 inc2 → chunks_cut q buf inc.

Lemma chunks_spec fuel : ∀ q data body s, isConnected s = true → (S (length data + length (incoming s)) < fuel)%nat →
  Z.of_nat (length data) < buff_size →
  ∃ o s', chunks buff_size fuel q data body s = (o, s') ∧ outgoing s' = outgoing s ∧
    match o with
    | Ok (Some (q', body')) => isConnected s' = true ∧
        (bad_size q data (incoming s) ∨ ∃ ds, body' = body ++ ds ∧ chunks_read q data (incoming s) q' ds (incoming s'))
    | Ok None => isConnected s' = false ∧ (bad_size q data (incoming s) ∨ chunks_cut q data (incoming s))
    | Throw LogicError | Undef Overflow => bad_size q data (incoming s)
    | _ => False
    end.
Proof.
  induction fuel as [|fuel IH]; intros q data body s Hc Hf Hd; [lia|]. cbn [chunks]. unfold bind at 1.
  destruct (chunk_head_spec (S fuel) true q data s Hc ltac:(done) ltac:(left; lia) Hd) as (o & s1 & -> & Ho & R).
  destruct o as [[q1 data1]|]; [|exists (Ok None), s1; destruct R; split_and!; try done; right; by apply cut_in_head].
  destruct R as (Hc1 & Hd1 & Hprog & Hhead). unfold bind.
  destruct (chunk_data_any (S fuel) q1 data1 body s1 Hc1 ltac:(lia) (content_len_int _)) as (o & s2 & -> & Ho2 & R).
  assert (size_out_of_range (content_len (rp_parser q1)) → bad_size q data (incoming s)) as Hbad by (by eapply bad_here).
  destruct o as [[[body2 data2]|]|[]|[]|]; try done.
  - destruct R as (Hc2 & Hl & Hm & Ht). destruct (chunks_done (rp_parser q1)) eqn:Hdone.
    + exists (Ok (Some (q1, body2))), s2. split; [done|]. split; [congruence|]. split; [done|].
      destruct Ht as [Ht|(d & -> & Ht)]; [left; by apply Hbad|right]. exists d. split; [done|]. by eapply last_chunk_read.
    + destruct (IH q1 data2 body2 s2 Hc2) as (o & s3 & -> & Ho3 & R); [lia|lia|]. exists o, s3. split; [done|]. split; [congruence|].
      destruct Ht as [Ht|(d & -> & Ht)].
      { destruct o as [[[q2 b2]|]|[]|[]|]; try done; [destruct R; split; [done|]; left|destruct R; split; [done|]; left|..]; by apply Hbad. }
      assert (bad_size q1 data2 (incoming s2) → bad_size q data (incoming s)) as Hlater by (by eapply bad_later).
      destruct o as [[[q2 b2]|]|[]|[]|]; try done; try by apply Hlater.
      * destruct R as [Hc3 [R|(ds & -> & R)]]; split; try done; [left; by apply Hlater|].
        right. exists (d ++ ds). split; [by rewrite <- app_assoc|]. by eapply next_chunk_read.
      * destruct R as [Hc3 [R|R]]; split; try done; [left; by apply Hlater|right; by eapply cut_later].
  - exists (Ok None), s2. split; [done|]. split; [congruence|]. destruct R as [Hc2 [R|R]]; split; try done; [left; by apply Hbad|right; by eapply cut_in_data].
  - exists (Throw LogicError), s2. split; [done|]. split; [congruence|by apply Hbad].
  - exists (Undef Overflow), s2. split; [done|]. split; [congruence|by apply Hbad].
Qed.

(** ** Chunks in the buffer *)
(** [head] is the head of a chunk of [n] bytes. *)
Definition chunk_header (head : list Z) (n : Z) : Prop := ∀ rest, ∃ events p,
  httpclient_parser_execute (head ++ rest) httpclient_parser_init = (events, Z.of_nat (length head), p) ∧
  httpclient_parser_finish p ≠ 0 ∧ httpclient_parser_has_error p = false ∧ content_len p = n ∧ chunks_done p = (n <=? 0) ∧
  ∀ q, ∃ q', rsp_callbacks events q = Ok q' ∧ rp_error q' = rp_error q.
Definition chunk_text (c : list Z * list Z) : list Z := c.1 ++ c.2 ++ crlf.

Lemma chunk_head_ready fuel head n data q s : chunk_header head n → head ≠ [] → rp_error q = 0 → Z.of_nat (length data) < buff_size →
  ∃ q', chunk_head buff_size (S fuel) true q (head ++ data) s = (Ok (Some (q', data)), s) ∧ rp_error q' = 0 ∧
    content_len (rp_parser q') = n ∧ chunks_done (rp_parser q') = (n <=? 0).
Proof.
  intros Hh Hne Hq Hd. destruct (Hh data) as (ev & p & E & Hf & He & Hn & Hcd & Herr). cbn [chunk_head negb orb].
  rewrite bool_decide_false by (intros [? _]%app_eq_nil; done). destruct (Herr q) as (q1 & Eq1 & Herr1). unfold bind, ret, lift, rp_execute at 1. rewrite E, Eq1. cbn [obind].
  unfold rp_hasError, rp_isFinished. cbn [rp_parser rp_error]. rewrite Nat2Z.id, drop_app_length, Herr1, Hq, He. cbn [Z.eqb negb orb].
  rewrite (proj2 (Z.eqb_neq _ buff_size)), (proj2 (Z.eqb_neq _ 0) Hf) by lia. cbn [negb]. by eexists.
Qed.

(** Chunks that are in the buffer come out joined: the body is their data in order,
    without heads and line ends, and nothing is read from the stream.  (A chunk whose
    head only is in the buffer is completed from the stream: [chunk_data_exact].) *)
Theorem chunks_joined cs last rest body q s fuel :
  isConnected s = true → Forall (λ c, c.1 ≠ [] ∧ c.2 ≠ [] ∧ chunk_header c.1 (Z.of_nat (length c.2))) cs →
  last ≠ [] → chunk_header last 0 → rp_error q = 0 →
  let data := (cs ≫= chunk_text) ++ last ++ crlf ++ rest in
  Z.of_nat (length data) < buff_size → (length cs + length (incoming s) < fuel)%nat →
  ∃ q', chunks buff_size fuel q data body s = (Ok (Some (q', body ++ concat (snd <$> cs))), s).
Proof.
  intros Hc Hcs Hlne Hlast Hq. revert body q fuel Hq. induction Hcs as [|[hd dt] cs (Hne & Hdne & Hh) _ IH]; intros body q fuel Hq data Hd Hf;
    (destruct fuel as [|fuel]; [lia|]); cbn [fst snd] in *; subst data.
  - cbn [mbind list_bind app] in *. rewrite length_app in Hd. cbn [chunks].
    destruct (chunk_head_ready fuel last 0 (crlf ++ rest) q s Hlast Hlne Hq ltac:(lia)) as (q1 & E & _ & Hn & Hdone).
    unfold bind at 1. rewrite E. unfold bind.
    destruct (chunk_data_exact (S fuel) q1 (crlf ++ rest) body s Hc) as (o & s' & E2 & _ & R); [lia|rewrite Hn; lia|]. rewrite Hn in *.
    unfold chunk_data in E2 |- *. rewrite Hn in *. unfold crlf in *. rewrite length_app in *. cbn [length] in *.
    rewrite (proj2 (Z.leb_gt _ (0 + 2))), (proj2 (Z.leb_le (0 + 2) _)) by lia. cbn [Z.ltb Z.compare]. unfold ret. rewrite Hdone. cbn [Z.leb Z.compare].
    eexists. by rewrite take_0.
  - rewrite bind_cons in *. unfold chunk_text at 1 in Hd. unfold chunk_text at 1. cbn [fst snd] in *. rewrite <- !app_assoc in *.
    set (more := (cs ≫= chunk_text) ++ last ++ crlf ++ rest) in *. rewrite length_app in Hd.
    cbn [chunks]. destruct (chunk_head_ready fuel hd _ (dt ++ crlf ++ more) q s Hh Hne Hq ltac:(lia)) as (q1 & E & Hq1 & Hn & Hdone).
    unfold bind at 1. rewrite E. unfold bind, chunk_data. rewrite Hn. rewrite !length_app in *. unfold crlf in *. cbn [length] in *.
    rewrite (proj2 (Z.leb_gt (2 ^ 31) _)), (proj2 (Z.leb_le (_ + 2) _)) by lia. rewrite (proj2 (Z.ltb_ge _ 0)) by lia. unfold ret. rewrite Hdone.
    destruct (Z.leb_spec (Z.of_nat (length dt)) 0); [destruct dt; [done|cbn in *; lia]|].
    rewrite Nat2Z.id, take_app_length. replace (Z.to_nat (Z.of_nat (length dt) + 2)) with (length dt + 2)%nat by lia.
    rewrite drop_app_add. change (drop 2 ([13; 10] ++ more)) with more.
    destruct (IH (body ++ dt) q1 fuel Hq1) as (q' & E2); [fold more; lia|cbn in Hf; lia|]. fold more in E2. rewrite E2.
    exists q'. cbn [fmap list_fmap concat]. by rewrite <- app_assoc.
Qed.
(** ** The whole response *)
Context (lexical_u64 : list Z → option Z) (max_alloc : Z) (inflate : bool → list Z → list Z).
(** A head at the front of [inc]: the parser made it of the pieces that were delivered,
    the last of which holds [data] beyond it. *)
Definition head_at (inc data : list Z) (q : HttpResponseParser P) (rest : list Z) : Prop :=
  ∃ pieces, inc = concat pieces ++ rest ∧ rsp_feed pieces [] new_HttpResponseParser = Ok (data, q) ∧
    rp_hasError q = false ∧ rp_isFinished q ≠ 0.
Definition announced_length (q : HttpResponseParser P) : Z := i64 (rp_getContentLength lexical_u64 q).
(** A response read off the front of [inc], [inc'] being left: its body is the data of
    its chunks, joined, or of the announced length, and decoded. *)
Definition response_read (inc : list Z) (r : HttpResponse) (inc' : list Z) : Prop :=
  ∃ data q rest, head_at inc data q rest ∧
    if chunked (rp_parser q) then
      ∃ q' body, chunks_read q data rest q' body inc' ∧ r = decode_body inflate body (rp_data q')
    else let n := announced_length q in
      ∃ more, rest = more ++ inc' ∧ Z.of_nat (length more) = Z.max 0 (n - Z.of_nat (length data)) ∧
        r = if 0 <? n then decode_body inflate (take (Z.to_nat n) (data ++ more)) (rp_data q) else rp_data q.
(** The reasons for which a connection gives up a response. *)
Definition response_refused (inc : list Z) : Prop :=
  rsp_no_head new_HttpResponseParser inc ∨
  ∃ data q rest, head_at inc data q rest ∧
    if chunked (rp_parser q) then chunks_cut q data rest
    else let left := announced_length q - Z.of_nat (length data) in 0 < left ∧ (Z.of_nat (length rest) < left ∨ 2 ^ 31 ≤ left).
(** The head announces more bytes than can be allocated; a chunk has a size out of range. *)
Definition response_too_big (inc : list Z) : Prop :=
  ∃ data q rest, head_at inc data q rest ∧ chunked (rp_parser q) = false ∧ max_alloc < announced_length q.
Definition bad_chunk (inc : list Z) : Prop :=
  ∃ data q rest, head_at inc data q rest ∧ chunked (rp_parser q) = true ∧ bad_size q data rest.

(** C27: Whatever bytes a server sends, a call that receives a response ends: with a
    response and the stream open, or with none and the stream closed.  A response is
    what the parser made of the pieces the stream delivered; its body is the data of the
    chunks it read, in order and without their heads and line ends, or the bytes of the
    announced length, decoded; what follows is left on the stream.  None comes out only
    when the head or a chunk is wrong, fills the buffer or is cut by the end of the
    stream, or the body is cut or lacks 2^31 bytes or more.  The call throws [BadAlloc]
    only when the head it received announces more bytes than can be allocated.  Only
    when the head of a chunk that it comes to gives a size that, as an [int], is
    negative or within two of 2^31, it may also do otherwise: throw a logic error or
    overflow an [int]. *)
Theorem response_total fuel s : isConnected s = true → (S (length (incoming s)) < fuel)%nat →
  ∃ o s', recvResponse lexical_u64 max_alloc buff_size inflate fuel s = (o, s') ∧ outgoing s' = outgoing s ∧
    match o with
    | Ok (Some r) => isConnected s' = true ∧ (response_read (incoming s) r (incoming s') ∨ bad_chunk (incoming s))
    | Ok None => isConnected s' = false ∧ (response_refused (incoming s) ∨ bad_chunk (incoming s))
    | Throw BadAlloc => response_too_big (incoming s)
    | Throw LogicError | Undef Overflow => bad_chunk (incoming s)
    | _ => False
    end.
Proof.
  intros Hc Hf. unfold recvResponse, bind at 1.
  destruct (rsp_head_spec fuel new_HttpResponseParser s Hc ltac:(lia)) as (o & s1 & -> & Ho & R).
  destruct o as [[[q data] offset]|]; [|exists (Ok None), s1; destruct R; split_and!; try done; left; by left].
  destruct R as (Hc1 & -> & Hd & Hl & Hhead). fold (head_at (incoming s) data q (incoming s1)) in Hhead.
  destruct (chunked (rp_parser q)) eqn:Hch.
  - assert (bad_size q data (incoming s1) → bad_chunk (incoming s)) as Hbad by (intros; by exists data, q, (incoming s1)).
    unfold bind. destruct (chunks_spec fuel q data [] s1 Hc1) as (o & s2 & -> & Ho2 & R); [lia|done|].
    destruct o as [[[q2 body]|]|[]|[]|]; try done; eexists _, s2; (split; [reflexivity|]); (split; [congruence|]); try by apply Hbad.
    + destruct R as [Hc2 [R|(ds & -> & R)]]; split; try done; [right; by apply Hbad|left]. exists data, q, (incoming s1). split; [done|].
      rewrite Hch. by eexists _, _.
    + destruct R as [Hc2 [R|R]]; split; try done; [right; by apply Hbad|left; right]. exists data, q, (incoming s1). split; [done|]. by rewrite Hch.
  - fold (announced_length q). assert (announced_length q < 2 ^ 63) as Hlt.
    { pose proof (to_signed_is_sint 64 (rp_getContentLength lexical_u64 q) ltac:(lia)) as [_ ?]. unfold announced_length. lia. }
    assert (∀ r s2 more, incoming s1 = more ++ incoming s2 → Z.of_nat (length more) = Z.max 0 (announced_length q - Z.of_nat (length data)) →
      r = (if 0 <? announced_length q then decode_body inflate (take (Z.to_nat (announced_length q)) (data ++ more)) (rp_data q) else rp_data q) →
      response_read (incoming s) r (incoming s2)) as Hread.
    { intros. exists data, q, (incoming s1). split; [done|]. rewrite Hch. by eexists. }
    destruct (Z.ltb_spec 0 (announced_length q)) as [Hpos|Hpos].
    + unfold bind. destruct (recv_body_spec max_alloc (announced_length q) data s1 Hc1) as (o & s2 & -> & Ho2 & R); [lia|].
      destruct o as [[body|]|[]| |]; try done; eexists _, s2; (split; [reflexivity|]); (split; [congruence|]).
      * destruct R as (Hc2 & more & Hi & -> & Hlen). split; [done|left]. by eapply Hread.
      * destruct R as [Hc2 R]. split; [done|left; right]. exists data, q, (incoming s1). split; [done|]. by rewrite Hch.
      * by exists data, q, (incoming s1).
    + eexists (Ok (Some _)), s1. split; [reflexivity|]. split; [done|]. split; [done|left]. apply (Hread _ s1 []); [done|cbn; lia|done].
Qed.

End laws.

(** ** The parser of the examples *)
Lemma find_char_shorter p s : ∀ a b, find_char p s = Some (a, b) → (length b < length s)%nat.
Proof.
  induction s as [|c s IH]; intros a b; [done|]. cbn [find_char length]. destruct (p c); [intros [= _ <-]; lia|].
  destruct (find_char p s) as [[a' b']|]; [|done]. intros [= _ <-]. specialize (IH a' b' eq_refl). lia.
Qed.
Lemma find_string_shorter f s : f ≠ [] → ∀ a b, find_string f s = Some (a, b) → (length b < length s)%nat.
Proof.
  intros Hf. induction s as [|c s IH]; intros a b; cbn [find_string].
  - rewrite take_nil. by rewrite bool_decide_false by done.
  - case_bool_decide as E.
    + intros [= _ <-]. rewrite length_drop. destruct f; [done|]. cbn. lia.
    + destruct (find_string f s) as [[a' b']|]; [|done]. intros [= _ <-]. specialize (IH a' b' eq_refl). cbn. lia.
Qed.
Lemma read_head_shorter fuel : ∀ s hs b, read_head fuel s = Some (hs, b) → (length b < length s)%nat.
Proof.
  induction fuel as [|fuel IH]; intros s hs b; [done|]. cbn [read_head].
  destruct (find_string crlf s) as [[line rest]|] eqn:E; [|done]. cbn [mbind option_bind].
  pose proof (find_string_shorter crlf s ltac:(done) _ _ E). case_bool_decide; [by intros [= _ <-]|].
  destruct (read_header line); [|done]. cbn [mbind option_bind]. destruct (read_head fuel rest) as [[hs' b']|] eqn:E2; [|done].
  intros [= _ <-]. specialize (IH _ _ _ E2). lia.
Qed.
Lemma rtoy_head_taken data es hs n : rtoy_head data = Some (es, hs, n) → (0 < n ≤ length data)%nat.
Proof.
  unfold rtoy_head. case_bool_decide; [|done]. cbn [negb]. destruct (find_char _ data) as [[v s1]|] eqn:E1; [|done]. cbn [mbind option_bind].
  destruct (find_char _ s1) as [[c s2]|] eqn:E2; [|done]. cbn [mbind option_bind].
  destruct (find_string crlf s2) as [[r s3]|] eqn:E3; [|done]. cbn [mbind option_bind].
  destruct (read_head _ s3) as [[h s4]|] eqn:E4; [|done]. intros [= _ _ <-].
  apply find_char_shorter in E1, E2. apply find_string_shorter in E3; [|done]. apply read_head_shorter in E4. lia.
Qed.
Lemma rtoy_chunk_taken data m n : rtoy_chunk data = Some (m, n) → (0 < n ≤ length data)%nat.
Proof.
  unfold rtoy_chunk. destruct (find_string crlf data) as [[r s]|] eqn:E; [|done]. cbn [mbind option_bind].
  destruct (chunk_digits r); [|done]. intros [= _ <-]. apply find_string_shorter in E; [|done]. lia.
Qed.
Lemma rtoy_events_in data p ev n p' : rtoy_execute data p = (ev, n, p') → Forall rsp_event_in ev.
Proof.
  unfold rtoy_execute. destruct (rt_read p); [by intros [= <- _ _]|].
  destruct (rtoy_head data) as [[[es hs] k]|] eqn:Eh.
  - intros [= <- _ _]. unfold rtoy_head in Eh. case_bool_decide; [|done]. cbn [negb] in Eh.
    destruct (find_char _ data) as [[v s1]|]; [|done]. cbn [mbind option_bind] in Eh.
    destruct (find_char _ s1) as [[c s2]|]; [|done]. cbn [mbind option_bind] in Eh.
    destruct (find_string crlf s2) as [[r s3]|]; [|done]. cbn [mbind option_bind] in Eh.
    destruct (read_head _ s3) as [[h s4]|]; [|done]. injection Eh as <- _ _.
    repeat (constructor; [cbn; unfold text_in; rewrite length_app; lia|]). apply Forall_app; split; [|by repeat constructor].
    apply Forall_fmap, Forall_true. intros kv. cbn. unfold text_in. lia.
  - destruct (rtoy_chunk data) as [[m k]|]; intros [= <- _ _]; [|done].
    destruct (i32 m <=? 0); repeat constructor; cbn; lia.
Qed.
#[export] Instance rtoy_laws : ResponseMachineLaws rtoy.
Proof.
  assert (∀ data p ev n p', rtoy_execute data p = (ev, n, p') → 0 ≤ n ≤ Z.of_nat (length data) ∧
    (rt_read p = false → if rt_read p' then 0 < n else n = Z.of_nat (length data)) ∧ (rt_read p' = false → rt_read p = false)) as H.
  { intros data p ev n p'. unfold rtoy_execute. destruct (rt_read p) eqn:Er; [by intros [= _ <- <-]; rewrite Er; split; [lia|]|].
    destruct (rtoy_head data) as [[[es hs] k]|] eqn:Eh; [|destruct (rtoy_chunk data) as [[m k]|] eqn:Ec]; intros [= _ <- <-]; cbn [rt_read].
    - apply rtoy_head_taken in Eh. split_and!; try done; lia.
    - apply rtoy_chunk_taken in Ec. split_and!; try done; lia.
    - split_and!; intros; try done; lia. }
  split; cbn [httpclient_parser_execute httpclient_parser_finish httpclient_parser_init content_len rtoy_machine].
  - intros data p ev n p' E. by apply H in E as [? _].
  - intros data p ev n p' E _ Hf. apply H in E as (_ & E & Hp). destruct (rt_read p'); [done|]. by apply E, Hp.
  - intros data ev n p' E _ Hf. apply H in E as (_ & E & _). specialize (E eq_refl). by destruct (rt_read p').
  - intros p. by apply to_signed_is_sint.
  - intros data p ev n p'. apply rtoy_events_in.
Qed.

Definition two_chunks_wire : wire := mkWire two_chunks [] true 63.
Lemma response_total_witness : 0 < 4096 < 2 ^ 31 ∧
  ∃ o s', recvResponse (P := rtoy) read_u64 1000 4096 (λ _ b, b) 200 two_chunks_wire = (o, s') ∧ outgoing s' = outgoing two_chunks_wire ∧
    match o with
    | Ok (Some r) => isConnected s' = true ∧
        (response_read (P := rtoy) read_u64 (λ _ b, b) (incoming two_chunks_wire) r (incoming s') ∨ bad_chunk (P := rtoy) (incoming two_chunks_wire))
    | Ok None => isConnected s' = false ∧
        (response_refused (P := rtoy) 4096 read_u64 (incoming two_chunks_wire) ∨ bad_chunk (P := rtoy) (incoming two_chunks_wire))
    | Throw BadAlloc => response_too_big (P := rtoy) read_u64 1000 (incoming two_chunks_wire)
    | Throw LogicError | Undef Overflow => bad_chunk (P := rtoy) (incoming two_chunks_wire)
    | _ => False
    end.
Proof.
  assert (0 < 4096 < 2 ^ 31) as Hb by lia. split; [done|].
  assert ((S (length (incoming two_chunks_wire)) < 200)%nat) as Hf by (vm_compute; lia).
  exact (response_total (P := rtoy) (Laws := wire_closing_laws) 4096 Hb read_u64 1000 (λ _ b, b) 200 two_chunks_wire eq_refl Hf).
Defined.

Definition sample_chunks : list (list Z * list Z) := [(str "5" ++ crlf, str "hello"); (str "1F" ++ crlf, str "0123456789abcdef0123456789abcde")].
Lemma rtoy_chunk_header d n : 13 ∉ d → d ≠ [] → ¬ (72 ∈ d) → chunk_digits d = Some n → 0 ≤ n < 2 ^ 31 →
  chunk_header (P := rtoy) (d ++ crlf) n.
Proof.
  intros Hd Hne Hh Hn Hb rest. cbn [httpclient_parser_execute rtoy_machine httpclient_parser_init]. unfold rtoy_execute. cbn [rt_read rtoy_start].
  assert (rtoy_head ((d ++ crlf) ++ rest) = None) as ->.
  { unfold rtoy_head. rewrite bool_decide_false; [done|]. destruct d as [|c d]; [done|]. apply not_elem_of_cons in Hh as [Hc _].
    intros E. injection E as E _. done. }
  unfold rtoy_chunk. rewrite <- app_assoc. unfold crlf at 1 2. rewrite find_string_first by done. cbn [mbind option_bind]. rewrite Hn.
  cbn [mbind option_bind]. rewrite i32_small by lia. eexists _, _. split; [do 2 f_equal; rewrite !length_app; unfold crlf; cbn [length]; f_equal; lia|].
  cbn [content_len chunks_done rtoy_machine httpclient_parser_finish httpclient_parser_has_error rt_read rt_len rt_last]. rewrite i32_small by lia.
  split_and!; try done. intros q. exists q. by destruct (n <=? 0).
Qed.
Lemma chunks_joined_witness :
  ∃ q', chunks (P := rtoy) 4096 9 new_HttpResponseParser ((sample_chunks ≫= chunk_text) ++ (str "0" ++ crlf) ++ crlf ++ str "more") (str "+") (fresh_wire []) =
    (Ok (Some (q', str "+" ++ concat (snd <$> sample_chunks))), fresh_wire []).
Proof.
  refine (chunks_joined (P := rtoy) (Laws := wire_closing_laws) 4096 _ sample_chunks (str "0" ++ crlf) (str "more") (str "+") new_HttpResponseParser
    (fresh_wire []) 9 eq_refl _ _ _ eq_refl _ _).
  - lia.
  - repeat constructor; try done; by apply rtoy_chunk_header; try done; apply (bool_decide_unpack _).
  - done.
  - by apply rtoy_chunk_header; try done; apply (bool_decide_unpack _).
  - vm_compute. reflexivity.
  - vm_compute. lia.
Defined.
