(* ===== verification/HttpExchange.v ===== *)
(** * An exchange over the wire

    What a server sends with [sendResponse], a call of [HttpConnection] gives back,
    with any parser that follows the grammar of httpclient_parser.rl. *)
From S2P Require Import Prelude Text Http HttpThms Stream WebSocket WebSocketThms Servlet HttpSession HttpSessionThms HttpWire HttpConnection HttpConnectionThms.

(** ** The grammar *)
Definition response_head (v status : Z) (reason : list Z) (hs : list (list Z * list Z)) : list Z :=
  version_word v ++ [32] ++ decimal status ++ [32] ++ reason ++ crlf ++ (hs ≫= λ kv, header_line kv.1 kv.2) ++ crlf.
Definition reason_ok (s : list Z) : Prop := s ≠ [] ∧ (13 ∉ s) ∧ (10 ∉ s).
Definition encoding_name : list Z := str "transfer-encoding".

(** The callback of [e] sees what [x] holds; that of the status, digits and then a
    blank, since it reads on until they end. *)
Definition rsp_reports (e x : rsp_event) : Prop :=
  match e, x with
  | rsp_http_version p n, rsp_http_version t _ => prefix_of t p n
  | status_code p n, status_code t _ => n = Z.of_nat (length t) ∧ ∃ rest, p = t ++ 32 :: rest
  | reason_phrase p n, reason_phrase t _ => prefix_of t p n
  | rsp_header_done, rsp_header_done => True
  | rsp_field f n v m, rsp_field k _ w _ => prefix_of k f n ∧ prefix_of w v m
  | _, _ => False
  end.
(** The headers in their order; one that several rules of the grammar read may be
    reported several times. *)
Inductive fields_reported : list rsp_event → list (list Z * list Z) → Prop :=
| no_fields : fields_reported [] []
| field_once e es kv hs : rsp_reports e (rsp_field_event kv) → fields_reported es hs → fields_reported (e :: es) (kv :: hs)
| field_again e es kv hs : rsp_reports e (rsp_field_event kv) → fields_reported es (kv :: hs) → fields_reported (e :: es) (kv :: hs).

(** A parser that follows the grammar takes a head that is in the buffer as a whole,
    reports its parts in their order, and is finished; only a "Transfer-Encoding"
    makes the body chunked. *)
Class ResponseGrammar (P : Type) `{ResponseMachine P} := reads_response v status reason hs rest :
  version_ok v → 0 ≤ status → reason_ok reason → Forall field_ok hs →
  ∃ e1 e2 e3 fields e4 p', httpclient_parser_execute (response_head v status reason hs ++ rest) httpclient_parser_init =
      ([e1; e2; e3] ++ fields ++ [e4], Z.of_nat (length (response_head v status reason hs)), p') ∧
    rsp_reports e1 (rsp_http_version (version_word v) 0) ∧ rsp_reports e2 (status_code (decimal status) 0) ∧
    rsp_reports e3 (reason_phrase reason 0) ∧ fields_reported fields hs ∧ rsp_reports e4 rsp_header_done ∧
    httpclient_parser_finish p' = 1 ∧ httpclient_parser_has_error p' = false ∧
    (Forall (λ kv, fold_case kv.1 ≠ fold_case encoding_name) hs → chunked p' = false).

(** *** The callbacks *)
Lemma digits_value_stop ds v rest : Forall (λ d, 48 ≤ d < 58) ds → digits_value v (ds ++ 32 :: rest) = foldl (λ v d, 10 * v + (d - 48)) v ds.
Proof.
  intros Hd. revert v. induction Hd as [|d ds Hd _ IH]; intros v; [done|]. cbn [app digits_value foldl]. unfold between at 1.
  rewrite !(proj2 (Z.leb_le _ _)) by lia. apply IH.
Qed.
Lemma atoi_decimal n rest : 0 ≤ n < 2 ^ 31 → atoi (decimal n ++ 32 :: rest) = n.
Proof.
  intros Hn. destruct (decimal_ok n) as (_ & Hd & Hv); [lia|]. unfold atoi. rewrite digits_value_stop by done. unfold read_number in Hv.
  rewrite Hv, Z.min_r by lia. by apply i32_small.
Qed.
Lemma map_set_twice k v m : map_set k v (map_set k v m) = map_set k v m.
Proof.
  assert (strcasecmp k k = Eq) as Hk by by apply strcasecmp_eq.
  induction m as [|[k' v'] m IH]; cbn [map_set]; [by rewrite Hk|]. destruct (strcasecmp k k') eqn:E; cbn [map_set]; rewrite ?E, ?Hk; [done..|by rewrite IH].
Qed.
Section callbacks.
Context {P : Type} `{ResponseMachine P}.
Implicit Types q : HttpResponseParser P.

Lemma rsp_field_callback q e kv : field_ok kv → rsp_reports e (rsp_field_event kv) →
  rsp_callback q e = Ok (rp_with_data (rsp_set_headers (map_set kv.1 kv.2 (rsp_headers (rp_data q))) (rp_data q)) q).
Proof.
  intros (Hne & _) He. destruct e; try done. destruct He as [Hf Hv]. cbn [rsp_callback]. unfold on_response_http_field.
  rewrite (text_at_prefix _ _ _ Hf), (text_at_prefix _ _ _ Hv). destruct Hf as [-> _].
  destruct (Z.eqb_spec (Z.of_nat (length kv.1)) 0); [destruct (kv.1); [done|cbn in *; lia]|]. done.
Qed.
Lemma rsp_callbacks_app a b q : rsp_callbacks (a ++ b) q = obind (rsp_callbacks a q) (rsp_callbacks b).
Proof. revert q. induction a as [|e a IH]; intros q; [done|]. cbn [app rsp_callbacks]. by destruct (rsp_callback q e); cbn [obind]. Qed.
Lemma rsp_callback_fields es hs : fields_reported es hs → Forall field_ok hs →
  ∀ q, rsp_callbacks es q = Ok (rp_with_data (rsp_set_headers (set_all hs (rsp_headers (rp_data q))) (rp_data q)) q).
Proof.
  induction 1 as [|e es kv hs He _ IH|e es kv hs He _ IH]; intros Hok q; [by destruct q as [? [] ?]|..]; cbn [rsp_callbacks];
    rewrite (rsp_field_callback q e kv) by (done || by apply Forall_cons in Hok as []); cbn [obind];
    rewrite IH by (done || by apply Forall_cons in Hok as []); cbn; [done|]. unfold set_all. cbn [foldl].
  by rewrite map_set_twice.
Qed.
Lemma rsp_callback_head v status reason hs e1 e2 e3 fields e4 : version_ok v → 0 ≤ status < 2 ^ 31 → Forall field_ok hs →
  rsp_reports e1 (rsp_http_version (version_word v) 0) → rsp_reports e2 (status_code (decimal status) 0) →
  rsp_reports e3 (reason_phrase reason 0) → fields_reported fields hs → rsp_reports e4 rsp_header_done →
  rsp_callbacks ([e1; e2; e3] ++ fields ++ [e4]) new_HttpResponseParser =
    Ok (mkRspParser httpclient_parser_init (mkHttpResponse status v true false [] reason (set_all hs []) []) 0).
Proof.
  intros Hv Hs Hok H1 H2 H3 Hf H4. destruct e1; try done. destruct e2; try done. destruct e3; try done. destruct e4; try done.
  rewrite !rsp_callbacks_app. cbn [rsp_callbacks rsp_callback obind]. unfold on_response_version.
  rewrite !(strncmp_prefix _ _ _ _ H1); [|destruct Hv as [-> | ->]; (by apply not_in) || done..].
  destruct H2 as [_ [rest ->]]. unfold on_response_header_done, on_response_status, on_response_reason.
  rewrite atoi_decimal by done. rewrite (text_at_prefix _ _ _ H3). cbn [obind]. rewrite rsp_callbacks_app, (rsp_callback_fields _ _ Hf Hok). by destruct Hv as [-> | ->].
Qed.
End callbacks.

(** *** The headers *)
Definition cookie_name : list Z := str "Set-Cookie".
Definition cookie_headers (cs : list (list Z)) : list (list Z * list Z) := (λ c, (cookie_name, c)) <$> cs.
Definition rsp_wire_headers (r : HttpResponse) : list (list Z * list Z) :=
  own_headers false (rsp_headers r) ++ cookie_headers (rsp_cookies r) ++ connection_header false (rsp_close r) ++ length_header (rsp_body r).
Definition rsp_head_of (r : HttpResponse) : list Z := response_head (rsp_version r) (rsp_status r) (reason_text r) (rsp_wire_headers r).
Lemma rsp_dump_head r : rsp_websocket r = false → rsp_dump r = rsp_head_of r ++ rsp_body r.
Proof.
  intros Hw. unfold rsp_dump, rsp_head_of, response_head, version_word, rsp_wire_headers. rewrite Hw, !bind_app.
  rewrite header_lines_own, connection_line_bind, body_text_head.
  assert ((cookie_headers (rsp_cookies r) ≫= λ kv, header_line kv.1 kv.2) = (rsp_cookies r ≫= λ c, header_line (bytes_of_string "Set-Cookie") c)) as ->
    by (unfold cookie_headers; by rewrite list_fmap_bind).
  by rewrite <- !app_assoc.
Qed.

Lemma named_cookies k cs : named k (cookie_headers cs) = if bool_decide (fold_case cookie_name = fold_case k) then cookie_headers cs else [].
Proof.
  unfold named, cookie_headers. case_bool_decide as E; (induction cs as [|c cs IH]; [done|]); cbn [fmap list_fmap].
  - rewrite filter_cons_True by exact E. f_equal. exact IH.
  - rewrite filter_cons_False by exact E. exact IH.
Qed.
Lemma rsp_wire_find r k : ordered (rsp_headers r) → map_find length_name (rsp_headers r) = None →
  map_find k (set_all (rsp_wire_headers r) []) =
    if bool_decide (fold_case length_name = fold_case k) then snd <$> last (length_header (rsp_body r))
    else if is_connection k then Some (str (if rsp_close r then "close" else "keep-alive"))
    else if bool_decide (fold_case cookie_name = fold_case k) then
      match last (rsp_cookies r) with Some c => Some c | None => map_find k (rsp_headers r) end
    else map_find k (rsp_headers r).
Proof.
  intros Ho Hl. rewrite set_all_find by constructor. unfold rsp_wire_headers, named. rewrite !filter_app.
  fold (named k (connection_header false (rsp_close r))) (named k (own_headers false (rsp_headers r))) (named k (length_header (rsp_body r)))
    (named k (cookie_headers (rsp_cookies r))).
  rewrite named_own, named_cookies. destruct (bool_decide_reflect (fold_case length_name = fold_case k)) as [El|El].
  - rewrite named_length by done. assert (is_connection k = false) as Hk.
    { apply not_true_is_false. intros E. apply is_connection_eq in E. rewrite <- El in E. by vm_compute in E. }
    rewrite Hk, named_connection_none by (rewrite <- is_connection_eq; congruence). rewrite bool_decide_false by (rewrite <- El; intros E; by vm_compute in E).
    assert (named k (rsp_headers r) = []) as ->.
    { rewrite ordered_find in Hl by done. unfold named in *. rewrite El in Hl. by apply fmap_None, last_None in Hl. }
    cbn [app]. by destruct (last (length_header (rsp_body r))) as [[? ?]|].
  - rewrite named_length_none, app_nil_r by done. destruct (is_connection k) eqn:Hk.
    + rewrite named_connection by by apply is_connection_eq. unfold connection_header. rewrite app_assoc, last_snoc. done.
    + rewrite named_connection_none, app_nil_r by (rewrite <- is_connection_eq; congruence). rewrite (ordered_find k (rsp_headers r)) by done.
      case_bool_decide; [|rewrite app_nil_r; by destruct (last (named k (rsp_headers r)))].
      rewrite last_app. unfold cookie_headers. rewrite fmap_last. destruct (last (rsp_cookies r)); [done|]. cbn [fmap option_fmap option_map].
      by destruct (last (named k (rsp_headers r))).
Qed.

(** ** From the server to the client *)
Record rsp_sendable (r : HttpResponse) : Prop := {
  rs_version : version_ok (rsp_version r); rs_status : 0 ≤ rsp_status r < 2 ^ 31; rs_reason : reason_ok (reason_text r);
  rs_headers : Forall field_ok (rsp_headers r); rs_ordered : ordered (rsp_headers r);
  rs_cookies : Forall (λ c, field_ok (cookie_name, c)) (rsp_cookies r);
  rs_websocket : rsp_websocket r = false; rs_length : map_find length_name (rsp_headers r) = None;
  rs_encoding : map_find encoding_name (rsp_headers r) = None; rs_body : Z.of_nat (length (rsp_body r)) < 2 ^ 31 }.
(** The headers on the connection and the length, and the cookies, have their own rules. *)
Definition ordinary (k : list Z) : Prop :=
  is_connection k = false ∧ fold_case length_name ≠ fold_case k ∧ fold_case cookie_name ≠ fold_case k.
(** [q] is [r] with its reason in full and its body decoded; the last cookie of [r]
    is the header that sets one. *)
Definition same_response (inflate : bool → list Z → list Z) (q r : HttpResponse) : Prop :=
  rsp_status q = rsp_status r ∧ rsp_version q = rsp_version r ∧ rsp_reason q = reason_text r ∧
  rsp_body q = rsp_body (decode_body inflate (rsp_body r) r) ∧
  (∀ k, ordinary k → map_find k (rsp_headers q) = map_find k (rsp_headers r)) ∧
  (∀ c, last (rsp_cookies r) = Some c → map_find cookie_name (rsp_headers q) = Some c).

Lemma rsp_wire_headers_ok r : rsp_sendable r → Forall field_ok (rsp_wire_headers r).
Proof.
  intros [_ _ _ Hh _ Hc _ _ _ _]. apply Forall_app; split; [|apply Forall_app; split; [|apply Forall_app; split]].
  - apply Forall_forall. intros kv [_ Hin]%list_elem_of_filter. rewrite Forall_forall in Hh. by apply Hh.
  - by apply Forall_fmap.
  - apply connection_field_ok.
  - apply length_field_ok.
Qed.
Lemma rsp_wire_not_chunked r : rsp_sendable r → Forall (λ kv, fold_case kv.1 ≠ fold_case encoding_name) (rsp_wire_headers r).
Proof.
  intros [_ _ _ _ Ho _ _ _ He _]. apply Forall_app; split; [|apply Forall_app; split; [|apply Forall_app; split]].
  - rewrite ordered_find in He by done. apply fmap_None, last_None in He.
    apply Forall_forall. intros kv [_ Hin]%list_elem_of_filter E.
    assert (kv ∈ named encoding_name (rsp_headers r)) as H by by apply list_elem_of_filter.
    rewrite He in H. by apply elem_of_nil in H.
  - apply Forall_fmap, Forall_true. intros c E. by vm_compute in E.
  - repeat constructor. intros E. by vm_compute in E.
  - unfold length_header. case_bool_decide; repeat constructor. intros E. by vm_compute in E.
Qed.

Section wire.
Context {P : Type} `{RM : ResponseMachine P, ML : !ResponseMachineLaws P, Gr : !ResponseGrammar P}.
Context {Sk : Type} `{Sock : Socket Sk, SLaws : !SocketLaws Sk, Cl : Closing Sk, Laws : !ClosingLaws Sk}.
Context (lexical_u64 : list Z → option Z) (max_alloc buff_size : Z) (inflate : bool → list Z → list Z).
#[local] Set Default Proof Using "All".
Hypothesis Hbuff : 0 < buff_size < 2 ^ 31.
Hypothesis Hlex : ∀ n, 0 ≤ n < 2 ^ 63 → lexical_u64 (decimal n) = Some n.
Implicit Types s t : Sk.

(** The response as the parser leaves it. *)
Definition parsed (r : HttpResponse) : HttpResponse :=
  mkHttpResponse (rsp_status r) (rsp_version r) true false [] (reason_text r) (set_all (rsp_wire_headers r) []) [].
Lemma rp_execute_head r rest : rsp_sendable r → ∃ p',
  rp_execute (rsp_head_of r ++ rest) false (new_HttpResponseParser (P := P)) =
    Ok (Z.of_nat (length (rsp_head_of r)), rest, mkRspParser p' (parsed r) 0) ∧
  httpclient_parser_finish p' = 1 ∧ httpclient_parser_has_error p' = false ∧ chunked p' = false.
Proof.
  intros Hs. pose proof (rsp_wire_headers_ok r Hs) as Hw. pose proof (rsp_wire_not_chunked r Hs) as Hnc. destruct Hs.
  destruct (reads_response (rsp_version r) (rsp_status r) (reason_text r) (rsp_wire_headers r) rest) as
    (e1 & e2 & e3 & fs & e4 & p' & E & H1 & H2 & H3 & Hf & H4 & Hfin & Herr & Hch); [done|lia|done..|].
  exists p'. split; [|split_and!; auto]. unfold rp_execute. cbn [rp_parser new_HttpResponseParser]. fold (rsp_head_of r) in E. rewrite E.
  erewrite rsp_callback_head by done. cbn [obind rp_data rp_error]. by rewrite Nat2Z.id, drop_app_length.
Qed.
Lemma rsp_announced r (p' : P) : rsp_sendable r →
  i64 (rp_getContentLength lexical_u64 (mkRspParser p' (parsed r) 0)) = Z.of_nat (length (rsp_body r)).
Proof.
  intros []. unfold rp_getContentLength. cbn [rp_data parsed rsp_headers]. change (bytes_of_string "content-length") with length_name.
  rewrite rsp_wire_find by done. rewrite bool_decide_true by done. unfold length_header. case_bool_decide as E; [by rewrite E|].
  cbn [last fmap option_fmap option_map snd]. rewrite Hlex by lia. apply i64_small. cbn. lia.
Qed.
Lemma decoded_same r : rsp_sendable r → same_response inflate (decode_body inflate (rsp_body r) (parsed r)) r.
Proof.
  intros []. assert (∀ k, ordinary k → map_find k (set_all (rsp_wire_headers r) []) = map_find k (rsp_headers r)) as Hk.
  { intros k (H1 & H2 & H3). rewrite rsp_wire_find by done. by rewrite (bool_decide_false _ H2), H1, (bool_decide_false _ H3). }
  assert (∀ c, last (rsp_cookies r) = Some c → map_find cookie_name (set_all (rsp_wire_headers r) []) = Some c) as Hc.
  { intros c E. rewrite rsp_wire_find by done. rewrite bool_decide_false by (intros H; by vm_compute in H).
    change (is_connection cookie_name) with false. cbn iota. rewrite bool_decide_true by done. by rewrite E. }
  unfold same_response, decode_body. case_bool_decide as E; [by split_and!|]. unfold rsp_getHeader.
  cbn [parsed rsp_headers]. rewrite (Hk (bytes_of_string "content-encoding")) by (split_and!; [done|intros H; by vm_compute in H..]).
  split_and!; [done..|exact Hk|exact Hc].
Qed.

Lemma recv_response_sent fuel r s after : rsp_sendable r → isConnected s = true → (0 < fuel)%nat →
  Z.of_nat (length (rsp_body r)) ≤ max_alloc → incoming s = rsp_dump r ++ after →
  (∀ k s1, read_buf buff_size s = ((Z.of_nat k, take k (incoming s)), s1) → (length (rsp_head_of r) ≤ k ≤ length (rsp_dump r))%nat) →
  ∃ q s', recvResponse (P := P) lexical_u64 max_alloc buff_size inflate fuel s = (Ok (Some q), s') ∧ same_response inflate q r ∧
    incoming s' = after ∧ outgoing s' = outgoing s ∧ isConnected s' = true.
Proof.
  intros Hs Hc Hf Hmax Hin Hread. pose proof (rsp_dump_head r (rs_websocket r Hs)) as Hd.
  assert (0 < length (rsp_head_of r))%nat as Hh0 by (unfold rsp_head_of, response_head; rewrite !length_app; cbn; lia).
  destruct (read_some_spec buff_size Hbuff buff_size s Hc Hbuff) as [(c & s1 & _ & _ & _ & E)|(k & s1 & Er & Hk & Hkb & Hi & Ho1 & Hc1)].
  { exfalso. rewrite E, Hd in Hin. apply (f_equal length) in Hin. rewrite !length_app in Hin. cbn in Hin. lia. }
  assert (length (rsp_head_of r) ≤ k ≤ length (rsp_dump r))%nat as Hkr.
  { unfold read_some in Er. destruct (read_buf buff_size s) as [[n bs] s1'] eqn:Erb. injection Er as En -> ->.
    eapply (Hread _ s1). f_equal. f_equal. rewrite <- En. symmetry. apply i32_small. unfold read_buf in Erb. rewrite Hc in Erb.
    destruct (recv_some buff_size s Hc) as (j & sj & Ej & Hj & Hjb & _); [lia|by intros E; rewrite E in Hk; cbn in Hk; lia|].
    rewrite Ej in Erb. injection Erb as <- _ _. lia. }
  rewrite Hd, length_app in Hkr. set (b0 := take (k - length (rsp_head_of r)) (rsp_body r)).
  assert (take k (incoming s) = rsp_head_of r ++ b0) as Hpiece.
  { rewrite Hin, Hd, <- app_assoc, take_app_ge by lia. f_equal. subst b0. by rewrite take_app_le by lia. }
  assert (incoming s1 = drop (k - length (rsp_head_of r)) (rsp_body r) ++ after) as Hi1.
  { rewrite Hi, Hin, Hd, <- app_assoc, drop_app_ge by lia. by rewrite drop_app_le by lia. }
  destruct (rp_execute_head r b0 Hs) as (p' & Ex & Hfin & Herr & Hch).
  assert (length b0 = (k - length (rsp_head_of r))%nat) as Hb0 by (subst b0; rewrite length_take; lia).
  unfold recvResponse, bind at 1. destruct fuel as [|fuel]; [lia|]. cbn [rsp_head]. unfold bind at 1. rewrite Z.sub_0_r, Er. cbn [fst snd].
  rewrite (proj2 (Z.leb_gt _ _)) by lia. rewrite app_nil_l, Hpiece. unfold bind at 1, lift. rewrite Ex, Z.add_0_r.
  pose proof (rsp_announced r p' Hs) as Ha. unfold rp_hasError, rp_isFinished. cbn [rp_parser rp_error]. rewrite Herr, Hfin. cbn [Z.eqb negb orb].
  rewrite (i32_small (Z.of_nat k - _)), (i32_small buff_size) by lia. rewrite (proj2 (Z.eqb_neq _ _)) by lia.
  unfold ret at 1. cbn [rp_parser]. rewrite Hch, Ha. cbn [rp_data].
  replace (Z.of_nat k - Z.of_nat (length (rsp_head_of r))) with (Z.of_nat (length b0)) by lia.
  destruct (Z.ltb_spec 0 (Z.of_nat (length (rsp_body r)))) as [Hpos|Hpos].
  - unfold bind. pose proof (rs_body r Hs).
    destruct (recv_body_spec max_alloc (Z.of_nat (length (rsp_body r))) b0 s1 Hc1) as (o & s2 & -> & Ho2 & R); [lia|].
    destruct o as [[body|]|[]| |]; try done; [| |lia].
    + destruct R as (Hc2 & rest & Hi2 & -> & Hlen). eexists _, s2. split; [reflexivity|].
      assert (rest = drop (k - length (rsp_head_of r)) (rsp_body r) ∧ incoming s2 = after) as [-> ?].
      { rewrite Hi1 in Hi2. apply app_inj_1 in Hi2 as [-> ->]; [done|]. rewrite length_drop. lia. }
      split; [|split_and!; congruence]. subst b0. rewrite take_drop, Nat2Z.id, take_ge by done. by apply decoded_same.
    + destruct R as [_ [Hl1 Hl2]]. rewrite Hi1, length_app, length_drop in Hl2. lia.
  - eexists _, s1. split; [reflexivity|]. assert (rsp_body r = []) as Eb by (destruct (rsp_body r); [done|cbn in *; lia]).
    pose proof (decoded_same r Hs) as Hsame. rewrite Eb in Hsame. split; [exact Hsame|]. split; [|done]. rewrite Hi1, Eb. by rewrite drop_nil.
Qed.

(** C26: A whole exchange: the client sends its request and, when what the server sent
    with [sendResponse] arrives - its first read giving at least the head and nothing
    of what follows the response - the call succeeds, with a response of the same
    status, version and headers but for those on the connection and the length, its
    reason in full and its body decoded as its encoding says; of its cookies the last
    one is there, as a header.  What follows stays on the stream, which is open.  The
    responses are those the parser reads as [dump] writes them ([rsp_sendable]):
    HTTP/1.0 or 1.1 with a status of 0 or more and a reason without CR or LF; headers
    in their map's order and cookies whose names are tokens and whose values are not
    empty, hold no control character and start with no blank; no content-length of the
    user's own, and no transfer-encoding: [dump] would write the body plain under a
    header that says chunked, and the client would read it as chunks; not a websocket;
    a body below 2^31 bytes and the allocation limit.  The request's text is below 2^31
    bytes. *)
Theorem exchange_over_wire fuel req r t s after :
  rsp_sendable r → isConnected t = true → isConnected s = true → (0 < fuel)%nat →
  Z.of_nat (length (dump req)) < 2 ^ 31 → Z.of_nat (length (rsp_body r)) ≤ max_alloc →
  incoming s = rsp_dump r ++ after →
  (∀ k s1, read_buf buff_size (sendRequest req s).2 = ((Z.of_nat k, take k (incoming s)), s1) →
    (length (rsp_head_of r) ≤ k ≤ length (rsp_dump r))%nat) →
  ∃ n t' q s', sendResponse r t = (Ok n, t') ∧ outgoing t' = outgoing t ++ rsp_dump r ∧
    exchange (P := P) lexical_u64 max_alloc buff_size inflate fuel req s = (Ok (mkHttpResult RESULT_OK (Some q)), s') ∧
    outgoing s' = outgoing s ++ dump req ∧ same_response inflate q r ∧ incoming s' = after ∧ isConnected s' = true.
Proof.
  intros Hs Ht Hc Hf Hreq Hmax Hin Hread. unfold sendResponse, writeFixSize.
  destruct (writeFixSize_loop_ok (length (rsp_dump r)) (Z.of_nat (length (rsp_dump r))) (rsp_dump r) t Ht ltac:(lia)) as (t' & -> & _ & Ho & _).
  exists (i32 (Z.of_nat (length (rsp_dump r)))), t'. unfold exchange, bind at 1. unfold sendRequest, writeFixSize in *.
  destruct (writeFixSize_loop_ok (length (dump req)) (Z.of_nat (length (dump req))) (dump req) s Hc ltac:(lia)) as (s1 & E1 & Hi1 & Ho1 & Hc1).
  rewrite E1 in *. cbn [snd] in Hread.
  assert (0 < length (dump req))%nat by (unfold dump; rewrite !length_app; cbn; lia).
  rewrite (i32_small (Z.of_nat (length (dump req)))) by lia. rewrite (proj2 (Z.eqb_neq _ 0)), (proj2 (Z.ltb_ge _ 0)) by lia. unfold bind.
  destruct (recv_response_sent fuel r s1 after Hs Hc1 Hf Hmax) as (q & s' & -> & Hq & Hi & Ho2 & Hc'); [congruence|rewrite Hi1; exact Hread|].
  exists q, s'. split_and!; try done. congruence.
Qed.
End wire.

(** ** The parser of the examples follows the grammar *)
Lemma rtoy_head_ok v status reason hs rest : version_ok v → 0 ≤ status → reason_ok reason → Forall field_ok hs →
  rtoy_head (response_head v status reason hs ++ rest) =
    Some ([followed rsp_http_version (version_word v) 32; followed status_code (decimal status) 32; followed reason_phrase reason 13] ++
      (rsp_field_event <$> hs) ++ [rsp_header_done], hs, length (response_head v status reason hs)).
Proof.
  intros Hv Hs (_ & Hr & _) Hh. unfold rtoy_head. set (n := length (response_head v status reason hs ++ rest)).
  assert (n = length (response_head v status reason hs) + length rest)%nat as Hn by (subst n; by rewrite length_app). clearbody n.
  assert (response_head v status reason hs ++ rest = version_word v ++ 32 :: (decimal status ++ 32 :: (reason ++ crlf ++
    ((hs ≫= λ kv, header_line kv.1 kv.2) ++ crlf ++ rest)))) as -> by (unfold response_head; by rewrite <- !app_assoc).
  rewrite bool_decide_true by (destruct Hv as [-> | ->]; reflexivity). cbn [negb].
  rewrite find_char_at; [|destruct Hv as [-> | ->]; vm_compute; repeat constructor|done]. cbn [mbind option_bind].
  destruct (decimal_ok status Hs) as (_ & Hd & _).
  rewrite find_char_at; [|eapply Forall_impl; [exact Hd|]; intros d Hd'; apply Z.eqb_neq; cbn in Hd'; lia|done]. cbn [mbind option_bind].
  unfold crlf at 1. rewrite find_string_first by done. cbn [mbind option_bind]. rewrite read_head_ok.
  3: { eapply Forall_impl; [exact Hh|]. apply field_header. }
  2: { rewrite Hn. unfold response_head. pose proof (header_lines_length hs). rewrite !length_app. cbn [length]. lia. }
  cbn [mbind option_bind]. do 2 f_equal. lia.
Qed.
#[export] Instance rtoy_grammar : ResponseGrammar rtoy.
Proof.
  intros v status reason hs rest Hv Hs Hr Hh. do 3 eexists. exists (rsp_field_event <$> hs). do 2 eexists.
  cbn [httpclient_parser_execute rtoy_machine httpclient_parser_init]. unfold rtoy_execute. cbn [rt_read rtoy_start]. rewrite rtoy_head_ok by done.
  split; [reflexivity|]. assert (∀ t : list Z, prefix_of t t (Z.of_nat (length t))) as Ht by (intros t; split; [done|exists []; by rewrite app_nil_r]).
  split_and!; try done.
  - split; [done|by eexists].
  - split; [done|by eexists].
  - split; [done|by eexists].
  - induction hs as [|kv hs IH]; constructor; [split; apply Ht|]. apply Forall_cons in Hh as [_ Hh]. by apply IH.
  - cbn [chunked rtoy_machine rt_chunked]. intros Hn. apply not_true_is_false. rewrite existsb_exists. intros (kv & Hin & E).
    rewrite Forall_forall in Hn. apply (Hn kv); [by apply list_elem_of_In|]. unfold is_chunked, is_name in E. apply andb_true_iff in E as [E _].
    apply strcasecmp_eq. unfold encoding_name, str. by destruct (strcasecmp _ _).
Qed.

Definition wire_response : HttpResponse :=
  mkHttpResponse 404 17 false false (str "no such page") [] [(str "Content-Type", str "text/plain"); (str "Server", str "x/1")]
    [str "a=1"; str "b=2;path=/"].
Lemma wire_response_ok : rsp_sendable wire_response.
Proof. split; try done; [by right|by apply (bool_decide_unpack _)..|repeat constructor|by apply (bool_decide_unpack _)]. Qed.
Definition client_wire : wire := mkWire (rsp_dump wire_response ++ str "more") [] true 154.
Lemma exchange_over_wire_witness :
  ∃ n t' q s', sendResponse wire_response (fresh_wire []) = (Ok n, t') ∧ outgoing t' = outgoing (fresh_wire []) ++ rsp_dump wire_response ∧
    exchange (P := rtoy) read_u64 1000 4096 (λ _ b, b) 9 wire_request client_wire = (Ok (mkHttpResult RESULT_OK (Some q)), s') ∧
    outgoing s' = outgoing client_wire ++ dump wire_request ∧ same_response (λ _ b, b) q wire_response ∧
    incoming s' = str "more" ∧ isConnected s' = true.
Proof.
  assert (0 < 4096 < 2 ^ 31) as Hb by lia. assert (0 < 9)%nat as Hf by lia.
  refine (exchange_over_wire (P := rtoy) (Laws := wire_closing_laws) read_u64 1000 4096 (λ _ b, b) Hb read_u64_decimal 9 wire_request wire_response
    (fresh_wire []) client_wire (str "more") wire_response_ok eq_refl eq_refl Hf eq_refl _ eq_refl _).
  - vm_compute. discriminate.
  - intros k s1 E. assert (k = 155%nat) as ->; [|vm_compute; lia].
    injection E as E _. apply Nat2Z.inj. rewrite <- E. vm_compute. reflexivity.
Defined.
