(* ===== verification/HttpPool.v ===== *)
(** * The pool of connections (http/http_connection.cc)

    [HttpConnectionPool] lends its connections out; the deleter of what it lends takes
    a connection back or deletes it. *)
From S2P Require Import Prelude Text Http HttpThms Stream WebSocket WebSocketThms Servlet HttpSession HttpConnection.

Section pool.
Context {Sk : Type} `{Socket Sk, Closing Sk}.

(** An [HttpConnection]: nothing sets [m_createTime]. *)
Record HttpConnection := mkConn { m_createTime : Z; m_request : Z; m_stream : Sk }.
Definition new_HttpConnection (sock : Sk) : HttpConnection := mkConn 0 0 sock.
(** The pool, with the connections that are allocated: its own and those lent out. *)
Record HttpConnectionPool := mkPool {
  m_maxSize : Z; m_maxAliveTime : Z; m_maxRequest : Z;
  m_conns : list nat; m_total : Z; heap : gmap nat HttpConnection }.
Definition new_HttpConnectionPool (max_size max_alive_time max_request : Z) : HttpConnectionPool :=
  mkPool max_size max_alive_time max_request [] 0 ∅.
Definition with_conns (v : list nat) (s : HttpConnectionPool) := mkPool (m_maxSize s) (m_maxAliveTime s) (m_maxRequest s) v (m_total s) (heap s).
Definition with_total (v : Z) (s : HttpConnectionPool) := mkPool (m_maxSize s) (m_maxAliveTime s) (m_maxRequest s) (m_conns s) v (heap s).
Definition with_heap (v : gmap nat HttpConnection) (s : HttpConnectionPool) := mkPool (m_maxSize s) (m_maxAliveTime s) (m_maxRequest s) (m_conns s) (m_total s) v.

(** Access to a connection and its deletion: undefined when it is no longer there. *)
Definition deref (p : nat) : M HttpConnectionPool HttpConnection := λ s, (of_option NullDeref (heap s !! p), s).
Definition store (p : nat) (c : HttpConnection) : M HttpConnectionPool unit := modst (λ s, with_heap (<[p := c]> (heap s)) s).
Definition delete_conn (p : nat) : M HttpConnectionPool unit := deref p ;;! modst (λ s, with_heap (delete p (heap s)) s).
Fixpoint delete_all (ps : list nat) : M HttpConnectionPool unit :=
  match ps with [] => ret tt | p :: ps => delete_conn p ;;! delete_all ps end.

(** The loop of [getConnection]: what it takes and the connections to delete.  The
    sum is of 64 bits. *)
Fixpoint take_first (fuel : nat) (now_ms : Z) (invalid_conns : list nat) : M HttpConnectionPool (option nat * list nat) :=
  let! s := getst in
  match fuel, m_conns s with
  | _, [] => ret (None, invalid_conns)
  | O, _ => lift Fuel
  | S fuel, p :: rest =>
    putst (with_conns rest s) ;;!
    let! conn := deref p in
    if negb (isConnected (m_stream conn)) then take_first fuel now_ms (invalid_conns ++ [p])
    else if now_ms <? wrap 64 (m_createTime conn + m_maxAliveTime s) then take_first fuel now_ms (invalid_conns ++ [p])
    else ret (Some p, invalid_conns)
  end.
Definition take_idle (now_ms : Z) : M HttpConnectionPool (option nat) :=
  let! s := getst in
  let! r := take_first (length (m_conns s)) now_ms [] in
  delete_all (r.2) ;;!
  modst (λ s, with_total (i32 (m_total s - Z.of_nat (length (r.2)))) s) ;;!
  ret (r.1).
(** [new HttpConnection(sock)] at [p] *)
Definition add_connection (p : nat) (sock : Sk) : M HttpConnectionPool unit :=
  store p (new_HttpConnection sock) ;;! modst (λ s, with_total (i32 (m_total s + 1)) s).
(** [dialed]: the socket connected to [m_host] and where the connection is put, if that
    succeeds. *)
Definition getConnection (now_ms : Z) (dialed : option (nat * Sk)) : M HttpConnectionPool (option nat) :=
  let! ptr := take_idle now_ms in
  match ptr, dialed with
  | Some p, _ => ret (Some p)
  | None, None => ret None
  | None, Some (p, sock) => add_connection p sock ;;! ret (Some p)
  end.
(** [now_ms] is only asked for when the connection is up. *)
Definition ReleasePtr (ptr : nat) (now_ms : Z) : M HttpConnectionPool unit :=
  let! c := deref ptr in
  let c := mkConn (m_createTime c) (wrap 64 (m_request c + 1)) (m_stream c) in
  store ptr c ;;!
  let! pool := getst in
  if negb (isConnected (m_stream c)) || (now_ms <=? wrap 64 (m_createTime c + m_maxAliveTime pool)) || (m_maxRequest pool <=? m_request c)
  then delete_conn ptr ;;! modst (λ s, with_total (i32 (m_total s - 1)) s)
  else modst (λ s, with_conns (m_conns s ++ [ptr]) s).

(** [doRequest]: an exchange over a connection of the pool, which goes back however the
    exchange ends. *)
Definition on_stream {A} (ptr : nat) (m : M Sk A) : M HttpConnectionPool (outcome A) := λ s,
  match heap s !! ptr with
  | None => (Undef NullDeref, s)
  | Some c => let '(o, sk) := m (m_stream c) in (Ok o, with_heap (<[ptr := mkConn (m_createTime c) (m_request c) sk]> (heap s)) s)
  end.
Definition POOL_GET_CONNECTION : Z := 8.
Context {P : Type} `{ResponseMachine P}.
Context (lexical_u64 : list Z → option Z) (max_alloc buff_size : Z) (inflate : bool → list Z → list Z).
Definition doRequest (fuel : nat) (now_get now_release : Z) (dialed : option (nat * Sk)) (req : HttpRequest) : M HttpConnectionPool HttpResult :=
  let! conn := getConnection now_get dialed in
  match conn with
  | None => ret (mkHttpResult POOL_GET_CONNECTION None)
  | Some ptr =>
    let! o := on_stream ptr (exchange (P := P) lexical_u64 max_alloc buff_size inflate fuel req) in
    match o with
    | Undef u => undef u
    | _ => ReleasePtr ptr now_release ;;! lift o
    end
  end.
End pool.
Arguments HttpConnectionPool : clear implicits.
Arguments HttpConnection : clear implicits.

(** ** The pool and its users

    The state is the pool and the connections that are lent out. *)
Section properties.
Context {Sk : Type} `{Sock : Socket Sk}.
Implicit Types (s : HttpConnectionPool Sk) (L : list nat).

(** A connection is taken or there is none; a new one is made; what is sent and
    received, and the peer, change a stream; a connection is given back. *)
Inductive pool_step : HttpConnectionPool Sk * list nat → HttpConnectionPool Sk * list nat → Prop :=
| step_take now p s s' L : take_idle now s = (Ok (Some p), s') → pool_step (s, L) (s', p :: L)
| step_none now s s' L : take_idle now s = (Ok None, s') → pool_step (s, L) (s', L)
| step_new p sk s s' L : heap s !! p = None → add_connection p sk s = (Ok tt, s') → pool_step (s, L) (s', p :: L)
| step_stream p c sk s L : heap s !! p = Some c →
    pool_step (s, L) (with_heap (<[p := mkConn (m_createTime c) (m_request c) sk]> (heap s)) s, L)
| step_release p now L1 L2 s s' : ReleasePtr p now s = (Ok tt, s') → pool_step (s, L1 ++ p :: L2) (s', L1 ++ L2).

Record pool_ok (s : HttpConnectionPool Sk) (L : list nat) : Prop := {
  po_nodup : NoDup (m_conns s ++ L);
  po_heap p : is_Some (heap s !! p) ↔ p ∈ m_conns s ++ L;
  po_total : m_total s = i32 (Z.of_nat (length (m_conns s ++ L)));
  po_idle p c : p ∈ m_conns s → heap s !! p = Some c → 0 < m_request c < m_maxRequest s;
  po_lent p c : p ∈ L → heap s !! p = Some c → m_request c = 0 ∨ 0 < m_request c < m_maxRequest s;
  po_age p c : heap s !! p = Some c → m_createTime c = 0;
  po_max : 0 ≤ m_maxRequest s < 2 ^ 32 }.

(** *** Taking a connection *)
Definition usable (now : Z) s (c : HttpConnection Sk) : Prop :=
  isConnected (m_stream c) = true ∧ wrap 64 (m_createTime c + m_maxAliveTime s) ≤ now.
Definition first_usable (now : Z) s (o : option nat) (dead rest : list nat) : Prop :=
  m_conns s = dead ++ from_option (λ p, [p]) [] o ++ rest ∧ (o = None → rest = []) ∧
  (∀ p c, p ∈ dead → heap s !! p = Some c → ¬ usable now s c) ∧
  (∀ p c, o = Some p → heap s !! p = Some c → usable now s c).
Lemma take_first_spec n now : ∀ s inv, (length (m_conns s) ≤ n)%nat → (∀ p, p ∈ m_conns s → is_Some (heap s !! p)) →
  ∃ o dead rest, take_first n now inv s = (Ok (o, inv ++ dead), with_conns rest s) ∧ first_usable now s o dead rest.
Proof.
  induction n as [|n IH]; intros s inv Hn Hh; destruct (m_conns s) as [|p rest] eqn:E; cbn [length] in Hn; try lia; cbn [take_first]; unfold bind, getst; rewrite E.
  1,2: exists None, [], []; rewrite app_nil_r; split; [destruct s; cbn in *; by subst|]; split_and!; try done; intros; by apply elem_of_nil in H.
  destruct (Hh p ltac:(left)) as [c Hc]. unfold putst, deref. cbn [heap with_conns]. rewrite Hc. cbn [of_option].
  assert (∀ inv, ¬ usable now s c → ∃ o dead rest', take_first n now inv (with_conns rest s) = (Ok (o, inv ++ dead), with_conns rest' s) ∧
    first_usable now s o (p :: dead) rest') as Hnext.
  { intros inv' Hu. destruct (IH (with_conns rest s) inv') as (o & dead & rest' & -> & H1 & H2 & H3 & H4); [cbn; lia|intros q Hq; apply Hh; by right|].
    exists o, dead, rest'. split; [done|]. split; [rewrite E; cbn in *; by rewrite H1|]. split; [done|]. split; [|done].
    intros q cq [-> |Hq]%elem_of_cons; [congruence|]. by apply H3. }
  destruct (isConnected (m_stream c)) eqn:Econ; cbn [negb]; [destruct (Z.ltb_spec now (wrap 64 (m_createTime c + m_maxAliveTime s)))|].
  1,3: destruct (Hnext (inv ++ [p])) as (o & dead & rest' & -> & Hf); [intros [??]; congruence || lia|];
    exists o, (p :: dead), rest'; by rewrite <- app_assoc.
  exists (Some p), [], rest. rewrite app_nil_r. split; [done|]. split_and!; try done.
  - intros; by apply elem_of_nil in H0.
  - intros q cq [= <-] Hq. rewrite Hc in Hq. by injection Hq as <-.
Qed.
Lemma delete_all_spec ps : ∀ s, NoDup ps → (∀ p, p ∈ ps → is_Some (heap s !! p)) →
  ∃ h, delete_all ps s = (Ok tt, with_heap h s) ∧ ∀ q, h !! q = if decide (q ∈ ps) then None else heap s !! q.
Proof.
  induction ps as [|p ps IH]; intros s Hnd Hin; cbn [delete_all].
  - exists (heap s). split; [by destruct s|]. intros q. by rewrite decide_False by apply not_elem_of_nil.
  - apply NoDup_cons in Hnd as [Hp Hnd]. unfold bind, delete_conn, bind, deref. destruct (Hin p ltac:(left)) as [c ->]. cbn [of_option modst].
    destruct (IH (with_heap (delete p (heap s)) s)) as (h & -> & Hh); [done| |].
    + intros q Hq. cbn [heap with_heap]. rewrite lookup_delete_ne by (intros ->; done). apply Hin. by right.
    + exists h. split; [done|]. intros q. rewrite Hh. cbn [heap with_heap]. destruct (decide (q ∈ ps)), (decide (q = p)) as [->|Hne].
      * by rewrite decide_True by by left.
      * by rewrite decide_True by by right.
      * rewrite decide_True by by left. apply lookup_delete_eq.
      * rewrite decide_False by by (intros [?|?]%elem_of_cons). by apply lookup_delete_ne.
Qed.
Lemma take_idle_spec now s L : pool_ok s L → ∃ o dead rest h,
  take_idle now s = (Ok o, with_total (i32 (m_total s - Z.of_nat (length dead))) (with_heap h (with_conns rest s))) ∧
  first_usable now s o dead rest ∧ ∀ q, h !! q = if decide (q ∈ dead) then None else heap s !! q.
Proof.
  intros [Hnd Hh _ _ _ _ _]. unfold take_idle, bind at 1, getst. unfold bind at 1.
  assert (∀ p, p ∈ m_conns s → is_Some (heap s !! p)) as Hall by (intros p Hp; apply Hh, elem_of_app; by left).
  destruct (take_first_spec (length (m_conns s)) now s [] ltac:(lia) Hall) as (o & dead & rest & -> & Hf). cbn [fst snd app].
  assert (m_conns s = dead ++ from_option (λ p, [p]) [] o ++ rest) as E by apply Hf.
  assert (NoDup dead) as Hd by (rewrite E in Hnd; apply NoDup_app in Hnd as [Hnd _]; by apply NoDup_app in Hnd as [? _]).
  destruct (delete_all_spec dead (with_conns rest s) Hd) as (h & E2 & Hq); [intros p Hp; apply Hall; rewrite E; apply elem_of_app; by left|].
  unfold bind at 1. rewrite E2. unfold bind, modst, ret. exists o, dead, rest, h. by split_and!.
Qed.
Lemma i32_add a b : i32 (i32 a + b) = i32 (a + b).
Proof.
  assert (∀ x y, wrap 32 x = wrap 32 y → i32 x = i32 y) as H by (intros x y E; unfold to_signed; cbn zeta; by rewrite E). apply H. unfold wrap.
  rewrite Z.add_mod by lia. fold (wrap 32 (i32 a)). rewrite wrap_to_signed by lia. unfold wrap. by rewrite <- Z.add_mod by lia.
Qed.

(** *** Giving it back *)
Definition kept (now : Z) s (c : HttpConnection Sk) : bool :=
  isConnected (m_stream c) && (wrap 64 (m_createTime c + m_maxAliveTime s) <? now) && (m_request c + 1 <? m_maxRequest s).
Lemma release_spec p c now s : heap s !! p = Some c → 0 ≤ m_request c + 1 < 2 ^ 64 →
  ReleasePtr p now s = (Ok tt,
    if kept now s c
    then with_conns (m_conns s ++ [p]) (with_heap (<[p := mkConn (m_createTime c) (m_request c + 1) (m_stream c)]> (heap s)) s)
    else with_total (i32 (m_total s - 1)) (with_heap (delete p (heap s)) s)).
Proof.
  intros Hc Hr. unfold ReleasePtr, bind, deref, store, modst, getst. rewrite Hc. cbn [of_option heap with_heap m_stream m_request m_createTime m_maxRequest m_maxAliveTime].
  rewrite (wrap_small 64 (m_request c + 1)) by done.
  assert (negb (isConnected (m_stream c)) || (now <=? wrap 64 (m_createTime c + m_maxAliveTime s)) || (m_maxRequest s <=? m_request c + 1) =
    negb (kept now s c)) as ->.
  { unfold kept. by rewrite !negb_andb, !Z.leb_antisym. }
  destruct (kept now s c); cbn [negb]; [done|]. unfold delete_conn, bind, deref. cbn [heap with_heap]. rewrite lookup_insert_eq. cbn [of_option].
  unfold modst. cbn [heap with_heap m_total]. by rewrite delete_insert_eq.
Qed.

(** *** The invariant *)
(** An entry of an updated map is the new one or an old one. *)
Ltac update_cases q p :=
  destruct (decide (q = p)) as [->|?];
  [rewrite ?lookup_insert_eq, ?lookup_delete_eq; try (by intros [= <-]; cbn; eauto); try (split; by eexists)
  |rewrite ?lookup_insert_ne, ?lookup_delete_ne by done; eauto].
Lemma take_ok now o s L s' : pool_ok s L → take_idle now s = (Ok o, s') → pool_ok s' (from_option (λ p, [p]) [] o ++ L).
Proof.
  intros Hok E. destruct (Hok) as [Hnd Hh Ht Hi Hl Ha Hm].
  destruct (take_idle_spec now s L Hok) as (o' & dead & rest & h & E' & (Hc & _ & _ & Hu) & Hq).
  rewrite E in E'. injection E' as <- ->.
  assert (∀ p, p ∈ m_conns s ++ L ↔ p ∈ dead ∨ p ∈ rest ++ from_option (λ p, [p]) [] o ++ L) as Hin.
  { intros p. rewrite Hc, !elem_of_app. tauto. }
  assert (NoDup (dead ++ rest ++ from_option (λ p, [p]) [] o ++ L)) as Hnd'.
  { assert (dead ++ rest ++ from_option (λ p, [p]) [] o ++ L ≡ₚ m_conns s ++ L) as ->; [|done].
    rewrite Hc, <- !app_assoc. f_equiv. rewrite !app_assoc. f_equiv. apply Permutation_app_comm. }
  apply NoDup_app in Hnd' as (_ & Hdis & Hnd'). split; cbn [m_conns m_total heap m_maxRequest with_total with_heap with_conns]; try done.
  - intros p. rewrite Hq. destruct (decide (p ∈ dead)); [split; [by intros []|intros ?; by edestruct Hdis]|]. rewrite Hh, Hin. tauto.
  - rewrite Ht. rewrite <- Z.add_opp_r, i32_add. f_equal. rewrite Hc, !length_app. lia.
  - intros p c Hp. rewrite Hq. destruct (decide (p ∈ dead)); [done|]. apply Hi. rewrite Hc, !elem_of_app. tauto.
  - intros p c Hp. rewrite Hq. destruct (decide (p ∈ dead)); [done|]. apply elem_of_app in Hp as [Hp|Hp]; [|by apply Hl].
    intros Hpc. right. apply (Hi p c); [|done]. rewrite Hc, !elem_of_app. tauto.
  - intros p c. rewrite Hq. destruct (decide (p ∈ dead)); [done|]. apply Ha.
Qed.
Lemma new_ok p sk s L s' : pool_ok s L → heap s !! p = None → add_connection p sk s = (Ok tt, s') → pool_ok s' (p :: L).
Proof.
  intros [Hnd Hh Ht Hi Hl Ha Hm] Hp0 [= <-]. assert (p ∉ m_conns s ++ L) as Hp by (rewrite <- Hh, Hp0; by intros []).
  split; cbn [m_conns m_total heap m_maxRequest with_total with_heap]; try done.
  - rewrite <- Permutation_middle. by apply NoDup_cons.
  - intros q. rewrite <- Permutation_middle, elem_of_cons, <- Hh. update_cases q p; [split; [by left|by eexists]|tauto].
  - rewrite Ht, i32_add. f_equal. rewrite !length_app. cbn. lia.
  - intros q c Hq. rewrite lookup_insert_ne; [by apply Hi|]. intros ->. apply Hp, elem_of_app. by left.
  - intros q c [-> |Hq]%elem_of_cons; [rewrite lookup_insert_eq; intros [= <-]; by left|].
    rewrite lookup_insert_ne; [by apply Hl|]. intros ->. apply Hp, elem_of_app. by right.
  - intros q c. update_cases q p.
Qed.
Lemma stream_ok p c sk s L : pool_ok s L → heap s !! p = Some c →
  pool_ok (with_heap (<[p := mkConn (m_createTime c) (m_request c) sk]> (heap s)) s) L.
Proof.
  intros [Hnd Hh Ht Hi Hl Ha Hm] Hc. split; cbn [m_conns m_total heap m_maxRequest with_heap]; try done.
  - intros q. rewrite <- Hh. update_cases q p.
  - intros q cq Hq. update_cases q p.
  - intros q cq Hq. update_cases q p.
  - intros q cq. update_cases q p.
Qed.
Lemma lent_release p now s L : pool_ok s L → p ∈ L → ∃ c, heap s !! p = Some c ∧ (m_request c = 0 ∨ 0 < m_request c < m_maxRequest s) ∧
  ReleasePtr p now s = (Ok tt,
    if kept now s c
    then with_conns (m_conns s ++ [p]) (with_heap (<[p := mkConn (m_createTime c) (m_request c + 1) (m_stream c)]> (heap s)) s)
    else with_total (i32 (m_total s - 1)) (with_heap (delete p (heap s)) s)).
Proof.
  intros [_ Hh _ _ Hl _ Hm] Hp. assert (is_Some (heap s !! p)) as [c Hc] by (apply Hh, elem_of_app; by right).
  exists c. split; [done|]. assert (m_request c = 0 ∨ 0 < m_request c < m_maxRequest s) as Hr by by apply (Hl p).
  split; [done|]. apply release_spec; [done|lia].
Qed.
Lemma release_ok p now s L1 L2 s' : pool_ok s (L1 ++ p :: L2) → ReleasePtr p now s = (Ok tt, s') → pool_ok s' (L1 ++ L2).
Proof.
  intros Hok E. destruct (lent_release p now s _ Hok) as (c & Hc & Hr & E'); [apply elem_of_app; right; by left|].
  rewrite E in E'. injection E' as ->. destruct Hok as [Hnd Hh Ht Hi Hl Ha Hm].
  assert (Permutation (m_conns s ++ L1 ++ p :: L2) (p :: m_conns s ++ L1 ++ L2)) as HP by (rewrite !app_assoc; symmetry; apply Permutation_middle).
  rewrite HP in Hnd. apply NoDup_cons in Hnd as [Hp Hnd].
  assert (∀ q, is_Some (heap s !! q) ↔ q = p ∨ q ∈ m_conns s ++ L1 ++ L2) as Hh2 by (intros q; by rewrite Hh, HP, elem_of_cons).
  assert (∀ q cq, q ∈ L1 ++ L2 → heap s !! q = Some cq → q ≠ p ∧ (m_request cq = 0 ∨ 0 < m_request cq < m_maxRequest s)) as Hl2.
  { intros q cq Hq Hqc. split; [intros ->; apply Hp, elem_of_app; by right|]. apply (Hl q cq); [|done]. revert Hq. rewrite !elem_of_app, elem_of_cons. tauto. }
  destruct (kept now s c) eqn:Ek.
  - assert (Permutation ((m_conns s ++ [p]) ++ L1 ++ L2) (p :: m_conns s ++ L1 ++ L2)) as HP2
      by (rewrite <- app_assoc; symmetry; apply Permutation_middle).
    split; cbn [m_conns m_total heap m_maxRequest with_conns with_heap]; try done.
    + rewrite HP2. by apply NoDup_cons.
    + intros q. rewrite HP2, elem_of_cons, <- Hh2. update_cases q p.
    + by rewrite Ht, HP, HP2.
    + intros q cq Hq. update_cases q p.
      * intros [= <-]. cbn. unfold kept in Ek. apply andb_true_iff in Ek as [_ Ek%Z.ltb_lt]. lia.
      * apply Hi. apply elem_of_app in Hq as [?|Hq]; [done|]. by apply list_elem_of_singleton in Hq.
    + intros q cq Hq. rewrite lookup_insert_ne; [by apply Hl2|]. intros ->. apply Hp, elem_of_app. by right.
    + intros q cq. update_cases q p.
  - split; cbn [m_conns m_total heap m_maxRequest with_total with_heap]; try done.
    + intros q. update_cases q p; [split; [by intros []|done]|rewrite Hh2; tauto].
    + rewrite Ht, HP, <- Z.add_opp_r, i32_add. f_equal. cbn [length]. lia.
    + intros q cq Hq. rewrite lookup_delete_ne; [by apply Hi|]. intros ->. apply Hp, elem_of_app. by left.
    + intros q cq Hq. rewrite lookup_delete_ne; [by apply Hl2|]. intros ->. apply Hp, elem_of_app. by right.
    + intros q cq. update_cases q p.
Qed.
Lemma pool_step_ok s L s' L' : pool_ok s L → pool_step (s, L) (s', L') → pool_ok s' L'.
Proof.
  intros Hok Hst. inversion Hst; subst.
  - by eapply (take_ok _ (Some _)).
  - by eapply (take_ok _ None).
  - by eapply new_ok.
  - by apply stream_ok.
  - by eapply release_ok.
Qed.
Lemma step_max s L s' L' : pool_ok s L → pool_step (s, L) (s', L') → m_maxRequest s' = m_maxRequest s.
Proof.
  intros Hok Hst. inversion Hst; subst.
  1,2: destruct (take_idle_spec now s _ Hok) as (? & ? & ? & ? & E & _); congruence || (rewrite E in *; by simplify_eq).
  - match goal with H : add_connection _ _ _ = _ |- _ => by injection H as <- end.
  - done.
  - destruct (lent_release p now s _ Hok) as (c & _ & _ & E); [apply elem_of_app; right; by left|].
    rewrite E in *. simplify_eq. by destruct (kept now s c).
Qed.
Lemma new_pool_ok max_size age max : 0 ≤ max < 2 ^ 32 → pool_ok (new_HttpConnectionPool max_size age max) [].
Proof.
  intros Hm. split; cbn; try done.
  - constructor.
  - intros p. rewrite lookup_empty. split; [by intros []|intros H; by apply elem_of_nil in H].
Qed.

(** C28: Whatever its users, the peers and the clock do, and in whatever order: the
    connections of a pool are each in one place, in the pool or lent to one user, and
    they are those that are allocated, so that taking one and giving one back never
    touch one that is gone; their number is the total (as an [int32_t]); and one that
    is lent again has come back fewer than [m_maxRequest] times, so that a connection
    serves at most that many requests, or one. *)
Theorem pool_safe max_size age max s L : 0 ≤ max < 2 ^ 32 →
  rtc pool_step (new_HttpConnectionPool max_size age max, []) (s, L) →
  NoDup (m_conns s ++ L) ∧ (∀ p, is_Some (heap s !! p) ↔ p ∈ m_conns s ++ L) ∧
  m_total s = i32 (Z.of_nat (length (m_conns s ++ L))) ∧
  (∀ p c, p ∈ m_conns s → heap s !! p = Some c → 0 < m_request c < max) ∧
  (∀ p c, p ∈ L → heap s !! p = Some c → m_request c = 0 ∨ 0 < m_request c < max) ∧
  (∀ now, ∃ o s', take_idle now s = (Ok o, s')) ∧
  (∀ p now, p ∈ L → ∃ s', ReleasePtr p now s = (Ok tt, s')).
Proof.
  intros Hm Hst.
  assert (pool_ok s L ∧ m_maxRequest s = max) as [Hok Hmax].
  { change (pool_ok (s, L).1 (s, L).2 ∧ m_maxRequest (s, L).1 = max).
    refine (rtc_ind_r (λ x, pool_ok x.1 x.2 ∧ m_maxRequest x.1 = max) _ _ _ _ Hst); [split; [by apply new_pool_ok|done]|].
    intros [s1 L1] [s2 L2] _ H1 [IH1 IH2]; cbn in *. split; [by eapply pool_step_ok|]. rewrite <- IH2. by eapply step_max. }
  rewrite <- Hmax. split_and!; [apply Hok..| |].
  - intros now. destruct (take_idle_spec now s L Hok) as (o & dead & rest & h & E & _). by eexists _, _.
  - intros p now Hp. destruct (lent_release p now s L Hok Hp) as (c & _ & _ & E). by eexists.
Qed.

(** The age of a connection has no part in this: as nothing sets [m_createTime], the
    tests of it fail at any time after the first 50 days of 1970. *)
Theorem age_ignored s L now : pool_ok s L → 0 ≤ m_maxAliveTime s < 2 ^ 32 → 2 ^ 32 ≤ now →
  (∃ o s' dead, take_idle now s = (Ok o, s') ∧ m_conns s = dead ++ from_option (λ p, [p]) [] o ++ m_conns s' ∧
    (∀ p c, p ∈ dead → heap s !! p = Some c → isConnected (m_stream c) = false) ∧
    (∀ p c, o = Some p → heap s !! p = Some c → isConnected (m_stream c) = true)) ∧
  (∀ p c, p ∈ L → heap s !! p = Some c → ∃ s', ReleasePtr p now s = (Ok tt, s') ∧
    m_conns s' = m_conns s ++ if isConnected (m_stream c) && (m_request c + 1 <? m_maxRequest s) then [p] else []).
Proof.
  intros Hok Ha Hnow.
  assert (∀ p c, heap s !! p = Some c → wrap 64 (m_createTime c + m_maxAliveTime s) < now) as Hold.
  { intros p c Hc. rewrite (po_age _ _ Hok p c Hc), Z.add_0_l, wrap_small; lia. }
  split.
  - destruct (take_idle_spec now s L Hok) as (o & dead & rest & h & -> & (Hc & _ & Hd & Hu) & _).
    eexists o, _, dead. split; [done|]. split; [exact Hc|]. split.
    + intros p c Hp Hpc. apply not_true_is_false. intros E. apply (Hd p c Hp Hpc). split; [done|]. specialize (Hold p c Hpc). lia.
    + intros p c Ho Hpc. by apply (Hu p c).
  - intros p c Hp Hpc. destruct (lent_release p now s L Hok Hp) as (c' & Hc' & _ & ->). rewrite Hpc in Hc'. injection Hc' as <-.
    eexists. split; [done|]. unfold kept. rewrite (proj2 (Z.ltb_lt _ now)), andb_true_r by (by eapply Hold).
    destruct (isConnected (m_stream c) && _); [done|]. cbn. by rewrite app_nil_r.
Qed.
End properties.

(** ** Runs *)
Definition pool_run (now : Z) (dialed : option (nat * wire)) (s : HttpConnectionPool wire) : outcome HttpResult * HttpConnectionPool wire :=
  doRequest (P := rtoy) read_u64 1000 4096 (λ _ b, b) 99 now now dialed (new_HttpRequest 17 false) s.
Definition short_response : list Z := str "HTTP/1.1 204 No Content" ++ crlf ++ crlf.
(** Two requests over a connection that may serve two; the third finds none, and no
    new one can be made. *)
Example pool_serves_two :
  let s0 := new_HttpConnectionPool (Sk := wire) 9 1000 2 in
  let '(r1, s1) := pool_run 1700000000000 (Some (5%nat, mkWire short_response [] true 4095)) s0 in
  let '(r2, s2) := pool_run 1700000000000 None (with_heap (<[5%nat := mkConn 0 1 (mkWire short_response [] true 4095)]> (heap s1)) s1) in
  let '(r3, s3) := pool_run 1700000000000 None s2 in
  (m_conns s1, m_total s1, m_conns s2, m_total s2) = ([5%nat], 1, [], 0) ∧
  match r1, r2, r3 with
  | Ok a, Ok b, Ok c => (result a, result b, result c) = (RESULT_OK, RESULT_OK, POOL_GET_CONNECTION)
  | _, _, _ => False
  end.
Proof. vm_compute. done. Qed.
(** The configured size of a pool does not bound it: here it is 0. *)
Example pool_exceeds_its_size :
  (pool_run 1700000000000 (Some (5%nat, mkWire short_response [] true 4095)) (new_HttpConnectionPool 0 1000 9)).2.(m_total) = 1.
Proof. vm_compute. done. Qed.
Definition lent_once : HttpConnectionPool wire :=
  mkPool 9 1000 2 [] 1 {[ 5%nat := mkConn 0 0 (fresh_wire []) ]}.
Lemma pool_safe_witness : ∃ s', ReleasePtr 5 1700000000000 lent_once = (Ok tt, s').
Proof.
  assert (rtc pool_step (new_HttpConnectionPool (Sk := wire) 9 1000 2, []) (lent_once, [5%nat])) as Hst.
  { eapply rtc_l; [|apply rtc_refl]. apply (step_new 5 (fresh_wire [])); [reflexivity|vm_compute; reflexivity]. }
  assert (0 ≤ 2 < 2 ^ 32) as Hm by lia. assert (5%nat ∈ [5%nat]) as Hin by left.
  destruct (pool_safe 9 1000 2 lent_once [5%nat] Hm Hst) as (_ & _ & _ & _ & _ & _ & H). exact (H 5%nat _ Hin).
Defined.
